(* ===== verification/_CoqProject ===== *)
-Q . S2P
Prelude.v
CInt.v
Memory.v
Bytecode.v
Check.v
CheckFacts.v
FunCheck.v
Loader.v
LoaderSpec.v
LoaderFacts.v
LoaderRoundtrip.v
LoaderThms.v
Value.v
Object.v
ObjectFacts.v
ObjectThms.v
Heap.v
Vm.v
Frame.v
FrameFacts.v
Float.v
FloatThms.v
FloatExact.v
Gc.v
GcFacts.v
GcThms.v
Box.v
BoxThms.v
Types.v
Ops.v
ArithOps.v
ArithThms.v
Call.v
Exc.v
JdllAbi.v
Natives.v
NativeThms.v
CoreOps.v
CallOps.v
ContainerOps.v
BytesOps.v
ObjOps.v
Jdll.v
Exec.v
Accesses.v
CallFacts.v
CallThms.v
ExecThms.v
StepThms.v
ExcThms.v
Channel.v
Share.v
Md5.v
Unicode.v
Regexp.v
Strutil.v
JitIr.v
X64.v
X64Sem.v
JitX64.v
X64Thms.v
X64Run.v
JitX64Facts.v
JitX64Core.v
JitX64Thms.v
JitX64Sim.v
JitX64Diverge.v
A64.v
A64Sem.v
A64Thms.v
JitArm64.v
JitArm64Diverge.v
JitState.v
Effects.v
JitStateThms.v
JitRun.v
JitRunThms.v
JitDriver.v
JitDriverThms.v
JitRunDiverge.v
