(* ===== verification/Prelude.v ===== *)
(** * Verification of the Jello virtual machine

    Jello is a register-based virtual machine in C.  A compiled module is read by the
    loader, which runs the checker on every function; the interpreter runs the
    module on a stack of register frames, with a tagged value representation, a
    mark-and-sweep heap, exceptions and a fuel counter; machines on different
    threads talk through channels.  This development models that core in Gallina,
    function by function, and proves what each part promises the next.

    ** From the file to the step

    - Loader and checker establish [LoaderSpec.module_ok] and, per instruction,
      that the handler uses the frame it is given only at existing registers and with
      the width of their slots ([Accesses.handler_accesses], by a decomposition of every
      handler into its accesses).
    - [Frame] and [Call] lay registers out so that slots are aligned in their frame
      and disjoint; the frames of a run tile the frame stack
      ([CallThms.stack_wf]).  A call and a caught exception preserve this.
    - [StepThms.loaded_insn_runs] puts these together: a register instruction of a
      module that came out of [jello_bc_read] runs without undefined behaviour and
      changes at most its destination.
    - Heap objects are reached through values; the collector may run at every
      allocation, and keeps what [gc_root_ptrs] reaches ([GcThms]).

    ** Files and sources (all under src/src/)

    - [Prelude], [CInt], [Memory]: notations, tactics, hint database [jello];
      fixed-width integers (reduction [wrapU], [wrapS] written out at every
      operation); byte blocks with checked access.
    - [Bytecode]: the types of include/jello.h and vm_internal.h.
    - [Check], [CheckFacts], [FunCheck]: bytecode/check.c, the instruction checker and
      the two whole-function passes; [FunCheck] also the pc computation of switches
      and branches (vm/ops/ops_control.c, ops_arith.c).
    - [Loader], [LoaderSpec], [LoaderFacts], [LoaderRoundtrip], [LoaderThms]:
      bytecode/loader.c, as a reader monad over the offset with an error exit and
      with [Crash] for any access outside the buffer or an allocated block;
      [LoaderSpec.encode] is the file format.
    - [Value]: the tagged words of include/jello.h and the classification of box.c.
    - [Object], [ObjectFacts], [ObjectThms]: types/object.c, the hash table with
      tombstones and inline cache, against finite maps ([repr]).
    - [Heap], [Gc], [GcFacts], [GcThms]: gc.c.  The heap is a map from addresses to
      cells; [GcFacts.refers] says, independently of the collector's traversal, what
      an object refers to.
    - [Vm]: struct jello_vm in groups, the monad [M] (result, [Panic] for abort(),
      [Crash] for undefined behaviour), its program logic [wp] and [safe] ([safe]
      admits [Panic]), vm/spill.c.
    - [Frame], [FrameFacts], [Call], [CallFacts], [CallThms]: vm/frame.c, vm/reg.c,
      vm/call.c.
    - [Float], [FloatThms], [FloatExact], [Box], [BoxThms]: floating point as bit
      patterns, [FloatExact] as exact numbers; boxing of vm/box.c and types/box.c.
    - [Types]: the constructors of types/*.c on the collected heap.
    - [Exc], [ExcThms]: vm/exc.c and the fuel counter of vm.c.
    - [Ops], [ArithOps], [ArithThms], [CoreOps], [CallOps], [ContainerOps], [BytesOps],
      [ObjOps]: every handler of vm/ops/ops_arith.c, ops_control.c, ops_const.c,
      ops_box.c, ops_call.c, ops_array.c, ops_list.c, ops_enum.c, ops_bytes.c and
      ops_obj.c, one definition per handler (or per macro, instantiated as the file
      does).
    - [Natives], [NativeThms]: vm/ops/ops_builtins.c, ops_macro_host.c and vm/math.c, the
      builtins; [NativeThms.denote] is what a value stands for.
    - [JdllAbi]: the description files of native libraries and the search
      for them, ffi/jdll_loader.c and jdll_deps.c.  [Jdll]: the calls of their
      primitives, ffi/jdll_marshal.c and jdll_callback.c, in a monad [P] that adds the
      failure a primitive reports, with vm_push_frame_jello_call of vm/frame.c.
    - [Exec], [Accesses], [ExecThms], [StepThms]: vm/ops/dispatch.c, vm/ops/exec_loop.c
      with its hot paths, vm/interp.c; [Accesses] takes the handlers apart into their
      register accesses and compares these with what the checker has checked.
    - [Channel], [Share]: thread/channel.c,
      thread/value_copy.c, thread/thread.c.  Threads are a step relation: a critical
      section is one step.
    - [JitIr]: jit/jit_ir.c, the lowering of bytecode to the compiler's intermediate
      code.  [X64]: the encoders of include/jello/internal/jit_x64.h; [JitX64]:
      jit/backend/x64/jit_x64_emit.c, over a buffer that may fail to grow.
      [X64Sem] is the machine: a decoder and the meaning of the instructions used;
      [X64Thms], [X64Run]: what the encoders emit, runs of code without jumps as Hoare
      triples; [JitX64Facts] ([jit_rel], how a machine state represents a frame),
      [JitX64Core], [JitX64Thms], [JitX64Sim]: the simulation; [JitX64Diverge]: where
      compiled code answers otherwise.
    - [A64], [JitArm64]: the second back end, include/jello/internal/jit_arm64.h and
      jit/backend/arm64/jit_arm64_emit.c; [A64Sem] is its machine, [A64Thms] the round trip
      of the encoders, [JitArm64Diverge] runs of its code beside the interpreter.
    - [JitState], [JitStateThms]: jit/jit_config.c, jit/jit_cache.c.  [JitRun]:
      jit/jit_runtime.c, jit_deopt.c, in a monad [J] that adds the changing part of
      exec_ctx to [M]; [Effects] says which parts of the machine a handler leaves alone,
      which [JitRunThms] needs to compare helpers with handlers.  [JitDriver],
      [JitDriverThms]: jit/jit_compile.c and the loop of exec_loop.c with its hooks.
      [JitRunDiverge]: where the helpers are not the handlers.
    - [Strutil]: types/strutil.c, UTF-16 text and formatting.
    - [Md5]: ../libs/std/crypto/md5.c.  [Unicode]:
      ../libs/std/core/unicode.c; [Regexp]: ../libs/std/core/regexp.c over
      PCRE2.  The natives of the standard library that are pure computation.

    ** What the theorems show

    - Loader and checker: memory safety on any input and any pattern of allocation
      failures, the invariant of loaded modules, errors inside the file, the round
      trip with the file format; the whole-function passes decide their
      declarative descriptions, and the panics they are there to exclude cannot
      be reached.
    - Objects: each operation and each history refines the finite map while a free
      slot is left; without one a probe does not end, which removals bring about.
    - Collector: exactly the reachable objects survive, finalizers run once,
      allocation is safe, the threshold makes progress.
    - Frames, calls, exceptions: a call adds a frame with its arguments and changes no
      other register; the right handler catches, with the stack cut to it; a
      thrown i32 4 is taken for a trap; an uncaught throw empties the machine; tail calls into smaller frames overlap.
    - Values: tagging, boxing (it also ends), binary16 and messages between machines are round trips;
      the checked conversions trap outside the range, with one exception; the equality
      of values decides equality of what they denote.
    - Native libraries: their description files are read back as written and never read
      outside of; the check of an argument makes its use safe, and the places where the
      interface trusts a library are shown.
    - Interpreter: arithmetic handlers compute modular arithmetic; hot paths and
      handlers agree; fuel does not bound a run.
    - Compiled code: encoders and decoder agree; blocks of instructions emitted inline
      refine the interpreter's handlers under the conditions of [JitX64Sim.faithful],
      each of which a program that violates it shows to be needed (the arm64 encoders agree
      with their decoder too; for its code there are runs only); the calls compiled
      code makes for the other instructions have the effect of the handlers.
    - The compiler around it: the cache is a map and nothing else stays mapped but older
      versions; compiling ends in the cache or in a rejection; switched off, the loop is
      the interpreter's.
    - Channels: first in first out and no lost wakeups under every interleaving; with a
      capacity that does not divide 2^32 a wrap of the indices loses a message.
    - Regular expressions: replacing ends and writes the text between the matches with the
      expanded replacement, whatever the replacement, as long as no match is empty; escaping is a round trip.
    - Text and digests: UTF-8 and UTF-16 conversions against one description of the
      encoding of scalars; what the UTF-8 validator accepts; MD5 is RFC 1321.

    ** Fuel

    Loops that are not structural take fuel, and a theorem says how much is enough:
    probes twice the slots of the table, marking one round per object
    ([GcFacts.mark_spec]), the growth of the frame stack 16 rounds
    ([CallFacts.grow_cap_spec]), unwinding one round per frame.  The interpreter
    loop ([exec_loop]) may run for ever; [None] is a run that has not ended.  Where
    a probe does not end for any fuel, the opcode handlers count it as [Crash].

    ** Assumptions

    The targets of the code: little-endian, 64-bit pointers, two's complement also for
    the shifts of negative integers, IEEE floats; the bits of a NaN an operation
    makes are parameters.  [malloc] is a parameter of the collector; it may fail
    (the machine aborts) and otherwise returns fresh aligned addresses
    ([GcFacts.malloc_ok]).  Memory from malloc and realloc holds parameters ([junk]).
    The build is with NDEBUG; [exec_loop] is the loop without the compiler,
    [jit_exec_loop] the loop with it, where the native code at an address is a
    parameter ([native_run]), as are mmap and mprotect; munmap takes a mapping away when
    it is given its size.  The call handlers take
    native functions as an argument, which [Natives] fits for the builtins and
    [Jdll.jello_jdll_invoke_prim] for libraries, whose own code is an argument.
    PCRE2, strtod, the C library's text of a double, its transcendental functions,
    random, exit and the callbacks of the macro host are arguments.  Mutexes and
    condition variables are as POSIX says: a signal wakes at least one thread, and a
    thread may wake without one.

    ** Not modelled

    - Of the foreign function interface (ffi/): running a call back (jdl_call_ex) and
      the stack trace; dlopen and the file system are arguments.  The rest of the standard
      library (libs/std/): operating system, C library.
    - Command line and boot (main.c, boot/): input and output.
    - Creation and destruction of machines and modules (allocation and
      deallocation only), profile counters, trace output, the text of stack traces. *)

From stdpp Require Export base tactics numbers list gmap strings.
From Stdlib Require Export ZArith Lia.

#[global] Open Scope Z_scope.

(** ** Notations *)

Declare Scope jello_scope.
Delimit Scope jello_scope with jello.
#[global] Open Scope jello_scope.

(** Subscripting a C array held as a list by a [Z] index: [l @! i] is [None]
    outside the array (the code must never get there), [l @[ i := x ]] is the
    assignment [l[i] = x]. *)
Definition znth {A} (l : list A) (i : Z) : option A :=
  if decide (0 <= i) then l !! Z.to_nat i else None.

Definition zset {A} (l : list A) (i : Z) (x : A) : list A :=
  if decide (0 <= i) then <[Z.to_nat i := x]> l else l.

Definition zlen {A} (l : list A) : Z := Z.of_nat (length l).

(** A C read whose bounds are checked by the caller: [d] is never returned when
    the index is in range. *)
Definition zget {A} (d : A) (l : list A) (i : Z) : A := default d (znth l i).

Notation "l @! i" := (znth l i) (at level 20, i at level 9) : jello_scope.
Notation "l @[ i := x ]" := (zset l i x)
  (at level 1, i at level 100, x at level 100, format "l @[ i  :=  x ]") : jello_scope.

(** ** Tactics *)

(** Case analysis on the innermost conditional or match of the goal. *)
Ltac case_if :=
  match goal with
  | |- context [if ?b then _ else _] =>
      lazymatch b with context [if _ then _ else _] => fail | _ => destruct b eqn:? end
  end.

Ltac case_if_in H :=
  match type of H with
  | context [if ?b then _ else _] =>
      lazymatch b with context [if _ then _ else _] => fail | _ => destruct b eqn:? end
  end.

(** Turns the boolean facts of the context into propositions on [Z]. *)
Ltac bool_hyps :=
  repeat match goal with
  | H : (_ && _)%bool = true |- _ => apply andb_true_iff in H; destruct H
  | H : (_ || _)%bool = false |- _ => apply orb_false_iff in H; destruct H
  | H : negb _ = true |- _ => apply negb_true_iff in H
  | H : negb _ = false |- _ => apply negb_false_iff in H
  | H : bool_decide _ = true |- _ => apply bool_decide_eq_true_1 in H
  | H : bool_decide _ = false |- _ => apply bool_decide_eq_false_1 in H
  | H : (_ =? _) = true |- _ => apply Z.eqb_eq in H
  | H : (_ =? _) = false |- _ => apply Z.eqb_neq in H
  | H : (_ <? _) = true |- _ => apply Z.ltb_lt in H
  | H : (_ <? _) = false |- _ => apply Z.ltb_ge in H
  | H : (_ <=? _) = true |- _ => apply Z.leb_le in H
  | H : (_ <=? _) = false |- _ => apply Z.leb_gt in H
  end.

(** Linear arithmetic over the constants of the machine, with [mod] and [/]
    eliminated. *)
Ltac zdiv := Z.to_euclidean_division_equations; lia.

Create HintDb jello discriminated.
Create Rewrite HintDb zlist.
Create Rewrite HintDb wrap.

(** ** Lists indexed by integers *)

Section znth.
Context {A : Type}.
Implicit Types l : list A.

Lemma zlen_nonneg l : 0 <= zlen l.
Proof. unfold zlen; lia. Qed.

Lemma zlen_nil : zlen (@nil A) = 0.
Proof. done. Qed.

Lemma zlen_cons x l : zlen (x :: l) = zlen l + 1.
Proof. unfold zlen; cbn; lia. Qed.

Lemma zlen_app l1 l2 : zlen (l1 ++ l2) = zlen l1 + zlen l2.
Proof. unfold zlen; rewrite length_app; lia. Qed.

Lemma zlen_zset l i x : zlen (l @[i := x]) = zlen l.
Proof. unfold zlen, zset. case_decide; [by rewrite length_insert | done]. Qed.

Lemma zlen_replicate n (x : A) : 0 <= n -> zlen (replicate (Z.to_nat n) x) = n.
Proof. intros. unfold zlen. rewrite length_replicate. lia. Qed.

Lemma znth_lookup l (n : nat) : l @! (Z.of_nat n) = l !! n.
Proof. unfold znth. rewrite decide_True by lia. by rewrite Nat2Z.id. Qed.

Lemma znth_is_Some l i : is_Some (l @! i) <-> 0 <= i < zlen l.
Proof.
  unfold znth, zlen. case_decide.
  - rewrite lookup_lt_is_Some. lia.
  - split; [intros [? ?]; done | lia].
Qed.

Lemma znth_Some l i x : l @! i = Some x -> 0 <= i < zlen l.
Proof. intros H. apply znth_is_Some. by exists x. Qed.

Lemma znth_in_range l i : 0 <= i < zlen l -> exists x, l @! i = Some x.
Proof. intros H. by apply znth_is_Some in H. Qed.

Lemma znth_None l i : l @! i = None <-> i < 0 \/ zlen l <= i.
Proof.
  rewrite eq_None_not_Some, znth_is_Some. lia.
Qed.

Lemma znth_nil i : @nil A @! i = None.
Proof. unfold znth. by case_decide. Qed.

Lemma znth_zset_eq l i x : 0 <= i < zlen l -> l @[i := x] @! i = Some x.
Proof.
  unfold znth, zset, zlen. intros. rewrite !decide_True by lia.
  apply list_lookup_insert_eq. lia.
Qed.

Lemma znth_zset_ne l i j x : i <> j -> l @[i := x] @! j = l @! j.
Proof.
  unfold znth, zset. intros. repeat case_decide; try done.
  apply list_lookup_insert_ne. lia.
Qed.

Lemma znth_zset l i j x :
  0 <= i < zlen l -> l @[i := x] @! j = if decide (i = j) then Some x else l @! j.
Proof.
  intros. case_decide; [subst; by apply znth_zset_eq | by apply znth_zset_ne].
Qed.

Lemma zset_id l i x : l @! i = Some x -> l @[i := x] = l.
Proof. unfold znth, zset. case_decide; [apply list_insert_id | done]. Qed.

Lemma znth_app_l l1 l2 i : i < zlen l1 -> (l1 ++ l2) @! i = l1 @! i.
Proof.
  unfold znth, zlen. intros. case_decide; [|done]. apply lookup_app_l. lia.
Qed.

Lemma znth_app_r l1 l2 i :
  zlen l1 <= i -> (l1 ++ l2) @! i = l2 @! (i - zlen l1).
Proof.
  unfold znth, zlen. intros. rewrite !decide_True by lia.
  rewrite lookup_app_r by lia. f_equal. lia.
Qed.

Lemma znth_replicate n (x : A) i :
  0 <= i < n -> replicate (Z.to_nat n) x @! i = Some x.
Proof.
  intros. unfold znth. rewrite decide_True by lia.
  apply lookup_replicate. split; [done | lia].
Qed.

Lemma znth_ext l1 l2 : (forall i, l1 @! i = l2 @! i) -> l1 = l2.
Proof.
  intros H. apply list_eq. intros n. specialize (H (Z.of_nat n)).
  by rewrite !znth_lookup in H.
Qed.

Lemma znth_Forall (P : A -> Prop) l i x :
  Forall P l -> l @! i = Some x -> P x.
Proof.
  unfold znth. case_decide; [|done]. intros Hl Hx.
  eapply Forall_lookup_1; eauto.
Qed.

Lemma Forall_znth (P : A -> Prop) l :
  (forall i x, l @! i = Some x -> P x) -> Forall P l.
Proof.
  intros H. apply Forall_lookup. intros n x Hx. apply (H (Z.of_nat n)).
  by rewrite znth_lookup.
Qed.

Lemma zget_Some d l i x : l @! i = Some x -> zget d l i = x.
Proof. intros H. unfold zget. by rewrite H. Qed.

Lemma zget_znth d l i : 0 <= i < zlen l -> l @! i = Some (zget d l i).
Proof. intros H. apply znth_in_range in H as [x Hx]. by rewrite (zget_Some _ _ _ _ Hx). Qed.
End znth.

Lemma map_fst_combine {A B} (l1 : list A) (l2 : list B) :
  length l2 = length l1 -> map fst (combine l1 l2) = l1.
Proof. revert l2; induction l1; intros [|? l2] [=]; cbn; [done|]. f_equal; auto. Qed.

Lemma map_snd_combine {A B} (l1 : list A) (l2 : list B) :
  length l2 = length l1 -> map snd (combine l1 l2) = l2.
Proof. revert l2; induction l1; intros [|? l2] [=]; cbn; [done|]. f_equal; auto. Qed.

#[export] Hint Rewrite @zlen_nil @zlen_cons @zlen_app @zlen_zset : zlist.
#[export] Hint Resolve zlen_nonneg znth_zset_eq znth_zset_ne : jello.
