(* ===== verification/CInt.v ===== *)
(** * Fixed-width integers of C

    [uint8_t] ... [uint64_t] and [int8_t] ... [int64_t] are integers of [Z];
    an arithmetic result is brought back into range by the conversion C makes:
    [wrapU w] is reduction modulo [2^w] (the conversion to an unsigned type),
    [wrapS w] the two's-complement conversion to a signed type. *)

From S2P Require Import Prelude.

(** ** Conversions *)

Definition wrapU (w x : Z) : Z := x mod 2 ^ w.

Definition wrapS (w x : Z) : Z := (x + 2 ^ (w - 1)) mod 2 ^ w - 2 ^ (w - 1).

Abbreviation u8 := (wrapU 8).
Abbreviation u16 := (wrapU 16).
Abbreviation u32 := (wrapU 32).
Abbreviation u64 := (wrapU 64).
Abbreviation i8 := (wrapS 8).
Abbreviation i16 := (wrapS 16).
Abbreviation i32 := (wrapS 32).
Abbreviation i64 := (wrapS 64).

Definition UINT32_MAX : Z := 4294967295.
Definition INT32_MIN : Z := -2147483648.
Definition INT32_MAX : Z := 2147483647.
Definition INT64_MIN : Z := -9223372036854775808.
Definition INT64_MAX : Z := 9223372036854775807.

(** [x] is a value of the unsigned (signed) type of width [w]. *)
Definition is_u (w x : Z) : Prop := 0 <= x < 2 ^ w.
Definition is_s (w x : Z) : Prop := - 2 ^ (w - 1) <= x < 2 ^ (w - 1).

#[export] Instance is_u_dec w x : Decision (is_u w x).
Proof. unfold is_u. apply _. Defined.
#[export] Instance is_s_dec w x : Decision (is_s w x).
Proof. unfold is_s. apply _. Defined.

(** ** Laws *)

Section laws.
Context (w : Z) (Hw : 0 < w).

Let half : 2 ^ w = 2 * 2 ^ (w - 1).
Proof. rewrite <- Z.pow_succ_r by lia. f_equal. lia. Qed.

Let pos : 0 < 2 ^ (w - 1).
Proof. apply Z.pow_pos_nonneg; lia. Qed.

Lemma wrapU_range x : is_u w (wrapU w x).
Proof. unfold is_u, wrapU. apply Z.mod_pos_bound. lia. Qed.

Lemma wrapS_range x : is_s w (wrapS w x).
Proof.
  unfold is_s, wrapS. pose proof (Z.mod_pos_bound (x + 2 ^ (w - 1)) (2 ^ w)). lia.
Qed.

Lemma wrapU_id x : is_u w x -> wrapU w x = x.
Proof. unfold is_u, wrapU. apply Z.mod_small. Qed.

Lemma wrapS_id x : is_s w x -> wrapS w x = x.
Proof. unfold is_s, wrapS. intros. rewrite Z.mod_small; lia. Qed.

Lemma wrapU_wrapS x : wrapU w (wrapS w x) = wrapU w x.
Proof.
  unfold wrapU, wrapS. rewrite Zminus_mod_idemp_l. f_equal. lia.
Qed.

Lemma wrapS_wrapU x : wrapS w (wrapU w x) = wrapS w x.
Proof. unfold wrapU, wrapS. by rewrite Zplus_mod_idemp_l. Qed.

Lemma wrapU_add_l x y : wrapU w (wrapU w x + y) = wrapU w (x + y).
Proof. apply Zplus_mod_idemp_l. Qed.

Lemma wrapU_add_r x y : wrapU w (x + wrapU w y) = wrapU w (x + y).
Proof. apply Zplus_mod_idemp_r. Qed.

Lemma wrapU_mul_l x y : wrapU w (wrapU w x * y) = wrapU w (x * y).
Proof. apply Zmult_mod_idemp_l. Qed.

Lemma wrapU_mul_r x y : wrapU w (x * wrapU w y) = wrapU w (x * y).
Proof. apply Zmult_mod_idemp_r. Qed.

Lemma wrapU_idemp x : wrapU w (wrapU w x) = wrapU w x.
Proof. apply wrapU_id, wrapU_range. Qed.

Lemma wrapS_idemp x : wrapS w (wrapS w x) = wrapS w x.
Proof. apply wrapS_id, wrapS_range. Qed.

(** Two representatives of the same residue have the same signed value. *)
Lemma wrapS_congr x y : wrapU w x = wrapU w y -> wrapS w x = wrapS w y.
Proof. intros H. by rewrite <- (wrapS_wrapU x), H, wrapS_wrapU. Qed.

Lemma wrapU_inj_s x y : is_s w x -> is_s w y -> wrapU w x = wrapU w y -> x = y.
Proof.
  intros Hx Hy H. rewrite <- (wrapS_id x), <- (wrapS_id y) by done.
  by apply wrapS_congr.
Qed.
End laws.

(** The lemmas above at a constant width: [wrap_solve] discharges [0 < 32]. *)
Ltac wrap_solve := first [done | lia].

#[export] Hint Resolve wrapU_range wrapS_range : jello.
#[export] Hint Rewrite wrapU_idemp wrapS_idemp wrapU_wrapS wrapS_wrapU using lia : wrap.

(** ** Bytes

    A byte is a [Z] in [[0, 256)]; [le_bytes n x] is the [n]-byte little-endian
    image of [x] (the memory image of an unsigned integer on the targets of the
    VM), [le_value] its inverse. *)

Definition is_byte (b : Z) : Prop := is_u 8 b.

Fixpoint le_value (l : list Z) : Z :=
  match l with
  | [] => 0
  | b :: l' => Z.lor b (Z.shiftl (le_value l') 8)
  end.

Fixpoint le_bytes (n : nat) (x : Z) : list Z :=
  match n with
  | O => []
  | S n' => u8 x :: le_bytes n' (Z.shiftr x 8)
  end.

(** Disjoint bits: [|] is [+]. *)
Lemma lor_shiftl_add a b n :
  0 <= n -> 0 <= a < 2 ^ n -> Z.lor a (Z.shiftl b n) = a + b * 2 ^ n.
Proof.
  intros Hn Ha. rewrite <- Z.shiftl_mul_pow2 by lia.
  symmetry. apply Z.add_nocarry_lor. apply Z.bits_inj'. intros i Hi.
  rewrite Z.land_spec, Z.bits_0, Z.shiftl_spec by lia.
  destruct (Z.ltb_spec i n).
  - rewrite (Z.testbit_neg_r b) by lia. apply andb_false_r.
  - rewrite <- (Z.mod_small a (2 ^ n)), Z.mod_pow2_bits_high by lia. done.
Qed.

Lemma le_value_cons b l : is_byte b -> le_value (b :: l) = b + le_value l * 256.
Proof. intros Hb. cbn [le_value]. by rewrite (lor_shiftl_add b _ 8). Qed.

Lemma length_le_bytes n x : length (le_bytes n x) = n.
Proof. revert x; induction n; cbn; auto. Qed.

Lemma le_bytes_is_byte n x : Forall is_byte (le_bytes n x).
Proof.
  revert x; induction n; cbn [le_bytes]; intros; constructor; auto.
  apply wrapU_range. lia.
Qed.

Lemma le_value_bound l : Forall is_byte l -> is_u (8 * zlen l) (le_value l).
Proof.
  unfold is_u. induction 1 as [|b l Hb _ IH]; [change (0 <= 0 < 1); lia|].
  rewrite le_value_cons, zlen_cons by done.
  replace (8 * (zlen l + 1)) with (8 * zlen l + 8) by lia.
  pose proof (zlen_nonneg l).
  rewrite Z.pow_add_r by lia. destruct Hb. change (2 ^ 8) with 256 in *. nia.
Qed.

Lemma le_value_bytes n x : le_value (le_bytes n x) = x mod 2 ^ (8 * Z.of_nat n).
Proof.
  revert x; induction n as [|n IH]; intros x; cbn [le_bytes].
  - cbn. by rewrite Z.mod_1_r.
  - rewrite le_value_cons by (apply wrapU_range; lia).
    rewrite IH, Z.shiftr_div_pow2 by lia.
    replace (8 * Z.of_nat (S n)) with (8 + 8 * Z.of_nat n) by lia.
    rewrite Z.pow_add_r, Z.rem_mul_r by lia. unfold wrapU. change (2 ^ 8) with 256. ring.
Qed.

Lemma le_bytes_add n k x :
  le_bytes (n + k) x = le_bytes n x ++ le_bytes k (Z.shiftr x (8 * Z.of_nat n)).
Proof.
  revert x; induction n as [|n IH]; intros x; cbn [Nat.add le_bytes app].
  - by rewrite Z.shiftr_0_r.
  - rewrite IH, Z.shiftr_shiftr by lia. do 4 f_equal. lia.
Qed.

Lemma le_bytes_value l : Forall is_byte l -> le_bytes (length l) (le_value l) = l.
Proof.
  induction 1 as [|b l Hb Hl IH]; [done|].
  cbn [length le_bytes]. rewrite le_value_cons by done.
  rewrite Z.shiftr_div_pow2 by lia. destruct Hb as [Hb1 Hb2].
  change (2 ^ 8) with 256 in *.
  f_equal.
  - unfold wrapU. change (2 ^ 8) with 256. rewrite Z.mod_add by lia. by apply Z.mod_small.
  - rewrite Z.div_add, Z.div_small by lia. exact IH.
Qed.

(** A 32-bit word read byte by byte. *)
Lemma le_word b0 b1 b2 b3 :
  is_byte b0 -> is_byte b1 -> is_byte b2 -> is_byte b3 ->
  Z.lor (Z.lor (Z.lor b0 (u32 (Z.shiftl b1 8))) (u32 (Z.shiftl b2 16))) (u32 (Z.shiftl b3 24)) =
  le_value [b0; b1; b2; b3].
Proof.
  intros H0 H1 H2 H3. pose proof H0 as [? ?]. pose proof H1 as [? ?]. pose proof H2 as [? ?].
  pose proof H3 as [? ?]. change (2 ^ 8) with 256 in *.
  rewrite !wrapU_id by (unfold is_u; rewrite Z.shiftl_mul_pow2 by lia;
  change (2 ^ 24) with 16777216; change (2 ^ 16) with 65536;
  change (2 ^ 8) with 256; change (2 ^ 32) with 4294967296; lia).
  cbn [le_value]. rewrite Z.shiftl_0_l, Z.lor_0_r, !Z.shiftl_lor, !Z.shiftl_shiftl by lia.
  by rewrite !Z.lor_assoc.
Qed.
