(* ===== verification/Memory.v ===== *)
(** * Blocks of memory

    A block is the list of its bytes.  A read or a write that leaves the block is
    [None]: the code must never do it.  Scalars are stored little-endian, as on
    the targets of the VM. *)

From S2P Require Import Prelude CInt.

(** [memcpy(dst, src + o, n)] as the bytes it reads. *)
Definition block_read (src : list Z) (o n : Z) : option (list Z) :=
  if (0 <=? o) && (0 <=? n) && (o + n <=? zlen src) then
    Some (take (Z.to_nat n) (drop (Z.to_nat o) src))
  else None.

(** [memcpy(dst + o, src, len)] inside a block. *)
Definition block_write (dst : list Z) (o : Z) (src : list Z) : option (list Z) :=
  if (0 <=? o) && (o + zlen src <=? zlen dst) then
    Some (take (Z.to_nat o) dst ++ src ++ drop (Z.to_nat (o + zlen src)) dst)
  else None.

(** [*(uintN_t* )(mem + o)] and [*(uintN_t* )(mem + o) = v], [N = 8 n]. *)
Definition mem_load (n : nat) (mem : list Z) (o : Z) : option Z :=
  le_value <$> block_read mem o (Z.of_nat n).

Definition mem_store (n : nat) (mem : list Z) (o v : Z) : option (list Z) :=
  block_write mem o (le_bytes n v).

(** ** Laws *)

Lemma zlen_le_bytes n v : zlen (le_bytes n v) = Z.of_nat n.
Proof. unfold zlen. by rewrite length_le_bytes. Qed.

Lemma block_write_Some dst o src :
  0 <= o -> o + zlen src <= zlen dst ->
  block_write dst o src =
    Some (take (Z.to_nat o) dst ++ src ++ drop (Z.to_nat (o + zlen src)) dst).
Proof.
  intros H1 H2. unfold block_write.
  by rewrite (proj2 (Z.leb_le _ _) H1), (proj2 (Z.leb_le _ _) H2).
Qed.

Lemma block_write_inv dst o src dst' :
  block_write dst o src = Some dst' ->
  0 <= o /\ o + zlen src <= zlen dst /\
  dst' = take (Z.to_nat o) dst ++ src ++ drop (Z.to_nat (o + zlen src)) dst.
Proof. unfold block_write. case_if; [|done]. intros [= <-]. bool_hyps. done. Qed.

Lemma block_read_inv src o n l :
  block_read src o n = Some l ->
  0 <= o /\ 0 <= n /\ o + n <= zlen src /\ l = take (Z.to_nat n) (drop (Z.to_nat o) src).
Proof. unfold block_read. case_if; [|done]. intros [= <-]. bool_hyps. done. Qed.

Lemma block_read_Some src o n :
  0 <= o -> 0 <= n -> o + n <= zlen src ->
  block_read src o n = Some (take (Z.to_nat n) (drop (Z.to_nat o) src)).
Proof.
  intros H1 H2 H3. unfold block_read.
  by rewrite (proj2 (Z.leb_le _ _) H1), (proj2 (Z.leb_le _ _) H2), (proj2 (Z.leb_le _ _) H3).
Qed.

Lemma block_read_is_Some src o n :
  0 <= o -> 0 <= n -> o + n <= zlen src -> exists l, block_read src o n = Some l /\ zlen l = n.
Proof.
  intros. rewrite block_read_Some by done. eexists. split; [done|].
  unfold zlen in *. rewrite length_take, length_drop. lia.
Qed.

Lemma zlen_block_write dst o src dst' :
  block_write dst o src = Some dst' -> zlen dst' = zlen dst.
Proof.
  intros (H1 & H2 & ->)%block_write_inv. unfold zlen in *.
  rewrite !length_app, length_take, length_drop. lia.
Qed.

(** A block write, byte by byte. *)
Lemma block_write_nth dst o src dst' i :
  block_write dst o src = Some dst' ->
  dst' @! i = if decide (o <= i < o + zlen src) then src @! (i - o) else dst @! i.
Proof.
  intros (H1 & H2 & ->)%block_write_inv.
  pose proof (zlen_nonneg src).
  assert (Ht : zlen (take (Z.to_nat o) dst) = o)
    by (unfold zlen in *; rewrite length_take; lia).
  destruct (decide (i < o)) as [Hi|Hi].
  - rewrite decide_False by lia. rewrite znth_app_l by lia.
    unfold znth. case_decide; [|done]. apply lookup_take_lt. lia.
  - rewrite znth_app_r by lia. rewrite Ht. case_decide.
    + by rewrite znth_app_l by lia.
    + rewrite znth_app_r by lia. unfold znth. rewrite !decide_True by lia.
      rewrite lookup_drop. f_equal. lia.
Qed.

Lemma block_read_nth src o n l i :
  block_read src o n = Some l -> 0 <= i < n -> l @! i = src @! (o + i).
Proof.
  intros (H1 & H2 & H3 & ->)%block_read_inv Hi.
  unfold znth. rewrite !decide_True by lia.
  rewrite lookup_take_lt by lia. rewrite lookup_drop. f_equal. lia.
Qed.

Lemma zlen_block_read src o n l : block_read src o n = Some l -> zlen l = n.
Proof.
  intros (H1 & H2 & H3 & ->)%block_read_inv. unfold zlen in *.
  rewrite length_take, length_drop. lia.
Qed.

(** Two reads of the same length whose bytes agree are equal. *)
Lemma read_middle pre l suf : block_read (pre ++ l ++ suf) (zlen pre) (zlen l) = Some l.
Proof.
  pose proof (zlen_nonneg pre). pose proof (zlen_nonneg l). pose proof (zlen_nonneg suf).
  rewrite block_read_Some by (rewrite ?zlen_app; lia). unfold zlen.
  by rewrite !Nat2Z.id, drop_app_length, take_app_length.
Qed.

Lemma block_read_ext s1 s2 o1 o2 n :
  0 <= o1 -> 0 <= o2 -> 0 <= n -> o1 + n <= zlen s1 -> o2 + n <= zlen s2 ->
  (forall i, 0 <= i < n -> s1 @! (o1 + i) = s2 @! (o2 + i)) ->
  block_read s1 o1 n = block_read s2 o2 n.
Proof.
  intros. destruct (block_read_is_Some s1 o1 n) as (l1 & E1 & L1); [done..|].
  destruct (block_read_is_Some s2 o2 n) as (l2 & E2 & L2); [done..|].
  rewrite E1, E2. f_equal. apply znth_ext. intros i.
  destruct (decide (0 <= i < n)).
  - rewrite (block_read_nth _ _ _ _ _ E1), (block_read_nth _ _ _ _ _ E2) by done. auto.
  - rewrite !(proj2 (znth_None _ _)) by lia. done.
Qed.

Lemma block_read_write_same dst o src dst' :
  block_write dst o src = Some dst' -> block_read dst' o (zlen src) = Some src.
Proof.
  intros Hw. pose proof (zlen_block_write _ _ _ _ Hw) as Hz.
  pose proof (block_write_inv _ _ _ _ Hw) as (H1 & H2 & _).
  destruct (block_read_is_Some dst' o (zlen src)) as (l & E & L);
    [done | apply zlen_nonneg | lia|].
  rewrite E. f_equal. apply znth_ext. intros i.
  destruct (decide (0 <= i < zlen src)).
  - rewrite (block_read_nth _ _ _ _ _ E), (block_write_nth _ _ _ _ _ Hw) by done.
    rewrite decide_True by lia. f_equal. lia.
  - rewrite !(proj2 (znth_None _ _)) by lia. done.
Qed.

Lemma block_read_write_other dst o src dst' o' n :
  block_write dst o src = Some dst' -> 0 <= n ->
  o' + n <= o \/ o + zlen src <= o' ->
  block_read dst' o' n = block_read dst o' n.
Proof.
  intros Hw Hn Hd. pose proof (zlen_block_write _ _ _ _ Hw) as Hz.
  destruct (decide (0 <= o' /\ o' + n <= zlen dst)) as [[? ?]|Hout].
  - apply block_read_ext; try lia. intros i Hi.
    rewrite (block_write_nth _ _ _ _ _ Hw). by rewrite decide_False by lia.
  - unfold block_read. rewrite Hz.
    destruct (0 <=? o') eqn:?, (0 <=? n) eqn:?, (o' + n <=? zlen dst) eqn:?; cbn; try done.
    bool_hyps. lia.
Qed.

Lemma mem_store_Some n mem o v :
  0 <= o -> o + Z.of_nat n <= zlen mem -> exists mem', mem_store n mem o v = Some mem'.
Proof.
  intros. unfold mem_store. rewrite block_write_Some; [by eexists | done | by rewrite zlen_le_bytes].
Qed.

Lemma zlen_mem_store n mem o v mem' : mem_store n mem o v = Some mem' -> zlen mem' = zlen mem.
Proof. apply zlen_block_write. Qed.

Lemma mem_load_store_same n mem o v mem' :
  mem_store n mem o v = Some mem' -> mem_load n mem' o = Some (wrapU (8 * Z.of_nat n) v).
Proof.
  intros H%block_read_write_same. rewrite zlen_le_bytes in H.
  unfold mem_load. rewrite H. cbn. by rewrite le_value_bytes.
Qed.

Lemma mem_load_store_other k n mem o v mem' o' :
  mem_store n mem o v = Some mem' ->
  o' + Z.of_nat k <= o \/ o + Z.of_nat n <= o' ->
  mem_load k mem' o' = mem_load k mem o'.
Proof.
  intros H Hd. unfold mem_load. f_equal. eapply block_read_write_other; [done | lia|].
  by rewrite zlen_le_bytes.
Qed.

Lemma mem_load_Some n mem o :
  0 <= o -> o + Z.of_nat n <= zlen mem -> exists v, mem_load n mem o = Some v.
Proof.
  intros. unfold mem_load. destruct (block_read_is_Some mem o (Z.of_nat n)) as (l & -> & _);
    [done | lia | done|]. by eexists.
Qed.

Lemma mem_load_is_u n mem o v :
  Forall is_byte mem -> mem_load n mem o = Some v -> is_u (8 * Z.of_nat n) v.
Proof.
  unfold mem_load. intros Hm. destruct (block_read mem o (Z.of_nat n)) as [l|] eqn:E; [|done].
  cbn. intros [= <-]. rewrite <- (zlen_block_read _ _ _ _ E).
  apply block_read_inv in E as (_ & _ & _ & ->).
  apply le_value_bound. by apply Forall_take, Forall_drop.
Qed.

Lemma block_write_bytes dst o src dst' :
  Forall is_byte dst -> Forall is_byte src -> block_write dst o src = Some dst' ->
  Forall is_byte dst'.
Proof.
  intros Hd Hs (_ & _ & ->)%block_write_inv.
  repeat apply Forall_app_2; [by apply Forall_take | done | by apply Forall_drop].
Qed.

Lemma mem_store_bytes n mem o v mem' :
  Forall is_byte mem -> mem_store n mem o v = Some mem' -> Forall is_byte mem'.
Proof. intros Hm. apply block_write_bytes; [done | apply le_bytes_is_byte]. Qed.

(** Storing back what a load of the same width gave copies the bytes. *)
Lemma mem_store_load n mem dst o o' v :
  Forall is_byte mem -> mem_load n mem o = Some v ->
  exists l, block_read mem o (Z.of_nat n) = Some l /\ mem_store n dst o' v = block_write dst o' l.
Proof.
  unfold mem_load. intros Hm. destruct (block_read mem o (Z.of_nat n)) as [l|] eqn:E; [|done].
  cbn. intros [= <-]. exists l. split; [done|]. unfold mem_store.
  pose proof (zlen_block_read _ _ _ _ E) as HL. replace n with (length l) by (unfold zlen in HL; lia).
  rewrite le_bytes_value; [done|]. apply block_read_inv in E as (_ & _ & _ & ->).
  by apply Forall_take, Forall_drop.
Qed.
