(* ===== verification/Bytecode.v ===== *)
(** * The bytecode: types, instructions, modules

    The data of [src/include/jello.h] (type kinds, opcodes, instructions,
    functions, loader results) and of [struct jello_bc_module] in
    [src/include/jello/internal/vm_internal.h].  A C enum is an [Inductive] with
    the source's constructors and the numeric codes of the header; a code that
    names no enumerator decodes to [None]. *)

From S2P Require Import Prelude CInt.

(** ** Type kinds *)

Inductive jello_type_kind : Set :=
| JELLO_T_BOOL | JELLO_T_ATOM | JELLO_T_I8 | JELLO_T_I16
| JELLO_T_I32 | JELLO_T_I64 | JELLO_T_F16 | JELLO_T_F32
| JELLO_T_F64 | JELLO_T_BYTES | JELLO_T_LIST | JELLO_T_ARRAY
| JELLO_T_OBJECT | JELLO_T_FUNCTION | JELLO_T_ABSTRACT | JELLO_T_DYNAMIC
| JELLO_T_ENUM.

Definition code_of_kind (k : jello_type_kind) : Z :=
  match k with
  | JELLO_T_BOOL => 1
  | JELLO_T_ATOM => 2
  | JELLO_T_I8 => 3
  | JELLO_T_I16 => 4
  | JELLO_T_I32 => 5
  | JELLO_T_I64 => 6
  | JELLO_T_F16 => 7
  | JELLO_T_F32 => 8
  | JELLO_T_F64 => 9
  | JELLO_T_BYTES => 10
  | JELLO_T_LIST => 11
  | JELLO_T_ARRAY => 12
  | JELLO_T_OBJECT => 13
  | JELLO_T_FUNCTION => 14
  | JELLO_T_ABSTRACT => 15
  | JELLO_T_DYNAMIC => 16
  | JELLO_T_ENUM => 17
  end.

Definition all_kinds : list jello_type_kind :=
  [JELLO_T_BOOL; JELLO_T_ATOM; JELLO_T_I8; JELLO_T_I16;
   JELLO_T_I32; JELLO_T_I64; JELLO_T_F16; JELLO_T_F32;
   JELLO_T_F64; JELLO_T_BYTES; JELLO_T_LIST; JELLO_T_ARRAY;
   JELLO_T_OBJECT; JELLO_T_FUNCTION; JELLO_T_ABSTRACT; JELLO_T_DYNAMIC;
   JELLO_T_ENUM].

(** [(jello_type_kind)k] of a byte: the enumerators start at 1. *)
Definition kind_of_code (c : Z) : option jello_type_kind := all_kinds @! (c - 1).

#[export] Instance jello_type_kind_eq_dec : EqDecision jello_type_kind.
Proof. solve_decision. Defined.

Definition kind_eqb (a b : jello_type_kind) : bool := code_of_kind a =? code_of_kind b.

(** ** Opcodes *)

Inductive jello_op : Set :=
| JOP_NOP | JOP_RET | JOP_JMP
| JOP_JMP_IF | JOP_MOV | JOP_TRY
| JOP_ENDTRY | JOP_THROW | JOP_ASSERT
| JOP_CALL | JOP_CALLR | JOP_TAILCALL
| JOP_TAILCALLR | JOP_CONST_FUN | JOP_CLOSURE
| JOP_BIND_THIS | JOP_CONST_I32 | JOP_CONST_I8_IMM
| JOP_CONST_BOOL | JOP_CONST_NULL | JOP_CONST_ATOM
| JOP_CONST_F16 | JOP_CONST_F32 | JOP_CONST_I64
| JOP_CONST_F64 | JOP_CONST_BYTES | JOP_BYTES_CONCAT2
| JOP_BYTES_CONCAT_MANY | JOP_ADD_I32 | JOP_SUB_I32
| JOP_MUL_I32 | JOP_DIV_I32 | JOP_MOD_I32
| JOP_SHL_I32 | JOP_SHR_I32 | JOP_ADD_I32_IMM
| JOP_SUB_I32_IMM | JOP_MUL_I32_IMM | JOP_ADD_I64
| JOP_SUB_I64 | JOP_MUL_I64 | JOP_DIV_I64
| JOP_MOD_I64 | JOP_SHL_I64 | JOP_SHR_I64
| JOP_ADD_F16 | JOP_SUB_F16 | JOP_MUL_F16
| JOP_ADD_F32 | JOP_SUB_F32 | JOP_MUL_F32
| JOP_DIV_F32 | JOP_ADD_F64 | JOP_SUB_F64
| JOP_MUL_F64 | JOP_DIV_F64 | JOP_NEG_I32
| JOP_NEG_I64 | JOP_NEG_F32 | JOP_NEG_F64
| JOP_NOT_BOOL | JOP_EQ_I32 | JOP_LT_I32
| JOP_EQ_I32_IMM | JOP_LT_I32_IMM | JOP_EQ_I64
| JOP_LT_I64 | JOP_EQ_F32 | JOP_LT_F32
| JOP_EQ_F64 | JOP_LT_F64 | JOP_SEXT_I64
| JOP_SEXT_I16 | JOP_TRUNC_I8 | JOP_TRUNC_I16
| JOP_I32_FROM_I64 | JOP_F64_FROM_I32 | JOP_I32_FROM_F64
| JOP_F64_FROM_I64 | JOP_I64_FROM_F64 | JOP_F32_FROM_I32
| JOP_I32_FROM_F32 | JOP_F64_FROM_F32 | JOP_F32_FROM_F64
| JOP_F32_FROM_I64 | JOP_I64_FROM_F32 | JOP_F16_FROM_F32
| JOP_F32_FROM_F16 | JOP_F16_FROM_I32 | JOP_I32_FROM_F16
| JOP_TO_DYN | JOP_FROM_DYN_I8 | JOP_FROM_DYN_I16
| JOP_FROM_DYN_I32 | JOP_FROM_DYN_I64 | JOP_FROM_DYN_F16
| JOP_FROM_DYN_F32 | JOP_FROM_DYN_F64 | JOP_FROM_DYN_BOOL
| JOP_FROM_DYN_ATOM | JOP_FROM_DYN_PTR | JOP_SPILL_PUSH
| JOP_SPILL_POP | JOP_PHYSEQ | JOP_KINDOF
| JOP_SWITCH_KIND | JOP_CASE_KIND | JOP_LIST_NIL
| JOP_LIST_CONS | JOP_LIST_HEAD | JOP_LIST_TAIL
| JOP_LIST_IS_NIL | JOP_ARRAY_NEW | JOP_ARRAY_LEN
| JOP_ARRAY_GET | JOP_ARRAY_SET | JOP_BYTES_NEW
| JOP_BYTES_LEN | JOP_BYTES_GET_U8 | JOP_BYTES_SET_U8
| JOP_OBJ_NEW | JOP_OBJ_HAS_ATOM | JOP_OBJ_GET_ATOM
| JOP_OBJ_SET_ATOM | JOP_OBJ_GET | JOP_OBJ_SET
| JOP_ARRAY_CONCAT2 | JOP_ARRAY_RESIZE | JOP_OBJ_HAS
| JOP_OBJ_REMOVE | JOP_OBJ_CLEAR | JOP_OBJ_COPY
| JOP_OBJ_KEYS | JOP_ENUM_NEW | JOP_ENUM_TAG
| JOP_ENUM_GET | JOP_BITAND_I32 | JOP_BITAND_I64
| JOP_BYTES_BITAND2 | JOP_BITOR_I32 | JOP_BITOR_I64
| JOP_BITXOR_I32 | JOP_BITXOR_I64 | JOP_BYTES_BITOR2
| JOP_BYTES_BITXOR2 | JOP_BYTES_READ_U16_LE | JOP_BYTES_READ_U16_BE
| JOP_BYTES_READ_U32_LE | JOP_BYTES_READ_U32_BE | JOP_BYTES_READ_I32_LE
| JOP_BYTES_READ_I32_BE | JOP_BYTES_READ_F32_LE | JOP_BYTES_READ_F32_BE
| JOP_BYTES_WRITE_U16_LE | JOP_BYTES_WRITE_U16_BE | JOP_BYTES_WRITE_U32_LE
| JOP_BYTES_WRITE_U32_BE | JOP_BYTES_WRITE_I32_LE | JOP_BYTES_WRITE_I32_BE
| JOP_BYTES_WRITE_F32_LE | JOP_BYTES_WRITE_F32_BE | JOP_BYTES_EQ.

Definition code_of_op (o : jello_op) : Z :=
  match o with
  | JOP_NOP => 0
  | JOP_RET => 1
  | JOP_JMP => 2
  | JOP_JMP_IF => 3
  | JOP_MOV => 4
  | JOP_TRY => 5
  | JOP_ENDTRY => 6
  | JOP_THROW => 7
  | JOP_ASSERT => 8
  | JOP_CALL => 9
  | JOP_CALLR => 10
  | JOP_TAILCALL => 11
  | JOP_TAILCALLR => 12
  | JOP_CONST_FUN => 13
  | JOP_CLOSURE => 14
  | JOP_BIND_THIS => 15
  | JOP_CONST_I32 => 16
  | JOP_CONST_I8_IMM => 17
  | JOP_CONST_BOOL => 18
  | JOP_CONST_NULL => 19
  | JOP_CONST_ATOM => 20
  | JOP_CONST_F16 => 21
  | JOP_CONST_F32 => 22
  | JOP_CONST_I64 => 23
  | JOP_CONST_F64 => 24
  | JOP_CONST_BYTES => 25
  | JOP_BYTES_CONCAT2 => 26
  | JOP_BYTES_CONCAT_MANY => 27
  | JOP_ADD_I32 => 28
  | JOP_SUB_I32 => 29
  | JOP_MUL_I32 => 30
  | JOP_DIV_I32 => 31
  | JOP_MOD_I32 => 32
  | JOP_SHL_I32 => 33
  | JOP_SHR_I32 => 34
  | JOP_ADD_I32_IMM => 35
  | JOP_SUB_I32_IMM => 36
  | JOP_MUL_I32_IMM => 37
  | JOP_ADD_I64 => 38
  | JOP_SUB_I64 => 39
  | JOP_MUL_I64 => 40
  | JOP_DIV_I64 => 41
  | JOP_MOD_I64 => 42
  | JOP_SHL_I64 => 43
  | JOP_SHR_I64 => 44
  | JOP_ADD_F16 => 45
  | JOP_SUB_F16 => 46
  | JOP_MUL_F16 => 47
  | JOP_ADD_F32 => 48
  | JOP_SUB_F32 => 49
  | JOP_MUL_F32 => 50
  | JOP_DIV_F32 => 51
  | JOP_ADD_F64 => 52
  | JOP_SUB_F64 => 53
  | JOP_MUL_F64 => 54
  | JOP_DIV_F64 => 55
  | JOP_NEG_I32 => 56
  | JOP_NEG_I64 => 57
  | JOP_NEG_F32 => 58
  | JOP_NEG_F64 => 59
  | JOP_NOT_BOOL => 60
  | JOP_EQ_I32 => 61
  | JOP_LT_I32 => 62
  | JOP_EQ_I32_IMM => 63
  | JOP_LT_I32_IMM => 64
  | JOP_EQ_I64 => 65
  | JOP_LT_I64 => 66
  | JOP_EQ_F32 => 67
  | JOP_LT_F32 => 68
  | JOP_EQ_F64 => 69
  | JOP_LT_F64 => 70
  | JOP_SEXT_I64 => 71
  | JOP_SEXT_I16 => 72
  | JOP_TRUNC_I8 => 73
  | JOP_TRUNC_I16 => 74
  | JOP_I32_FROM_I64 => 75
  | JOP_F64_FROM_I32 => 76
  | JOP_I32_FROM_F64 => 77
  | JOP_F64_FROM_I64 => 78
  | JOP_I64_FROM_F64 => 79
  | JOP_F32_FROM_I32 => 80
  | JOP_I32_FROM_F32 => 81
  | JOP_F64_FROM_F32 => 82
  | JOP_F32_FROM_F64 => 83
  | JOP_F32_FROM_I64 => 84
  | JOP_I64_FROM_F32 => 85
  | JOP_F16_FROM_F32 => 86
  | JOP_F32_FROM_F16 => 87
  | JOP_F16_FROM_I32 => 88
  | JOP_I32_FROM_F16 => 89
  | JOP_TO_DYN => 90
  | JOP_FROM_DYN_I8 => 91
  | JOP_FROM_DYN_I16 => 92
  | JOP_FROM_DYN_I32 => 93
  | JOP_FROM_DYN_I64 => 94
  | JOP_FROM_DYN_F16 => 95
  | JOP_FROM_DYN_F32 => 96
  | JOP_FROM_DYN_F64 => 97
  | JOP_FROM_DYN_BOOL => 98
  | JOP_FROM_DYN_ATOM => 99
  | JOP_FROM_DYN_PTR => 100
  | JOP_SPILL_PUSH => 101
  | JOP_SPILL_POP => 102
  | JOP_PHYSEQ => 103
  | JOP_KINDOF => 104
  | JOP_SWITCH_KIND => 105
  | JOP_CASE_KIND => 106
  | JOP_LIST_NIL => 107
  | JOP_LIST_CONS => 108
  | JOP_LIST_HEAD => 109
  | JOP_LIST_TAIL => 110
  | JOP_LIST_IS_NIL => 111
  | JOP_ARRAY_NEW => 112
  | JOP_ARRAY_LEN => 113
  | JOP_ARRAY_GET => 114
  | JOP_ARRAY_SET => 115
  | JOP_BYTES_NEW => 116
  | JOP_BYTES_LEN => 117
  | JOP_BYTES_GET_U8 => 118
  | JOP_BYTES_SET_U8 => 119
  | JOP_OBJ_NEW => 120
  | JOP_OBJ_HAS_ATOM => 121
  | JOP_OBJ_GET_ATOM => 122
  | JOP_OBJ_SET_ATOM => 123
  | JOP_OBJ_GET => 124
  | JOP_OBJ_SET => 125
  | JOP_ARRAY_CONCAT2 => 126
  | JOP_ARRAY_RESIZE => 127
  | JOP_OBJ_HAS => 128
  | JOP_OBJ_REMOVE => 129
  | JOP_OBJ_CLEAR => 130
  | JOP_OBJ_COPY => 131
  | JOP_OBJ_KEYS => 132
  | JOP_ENUM_NEW => 133
  | JOP_ENUM_TAG => 134
  | JOP_ENUM_GET => 135
  | JOP_BITAND_I32 => 136
  | JOP_BITAND_I64 => 137
  | JOP_BYTES_BITAND2 => 138
  | JOP_BITOR_I32 => 139
  | JOP_BITOR_I64 => 140
  | JOP_BITXOR_I32 => 141
  | JOP_BITXOR_I64 => 142
  | JOP_BYTES_BITOR2 => 143
  | JOP_BYTES_BITXOR2 => 144
  | JOP_BYTES_READ_U16_LE => 145
  | JOP_BYTES_READ_U16_BE => 146
  | JOP_BYTES_READ_U32_LE => 147
  | JOP_BYTES_READ_U32_BE => 148
  | JOP_BYTES_READ_I32_LE => 149
  | JOP_BYTES_READ_I32_BE => 150
  | JOP_BYTES_READ_F32_LE => 151
  | JOP_BYTES_READ_F32_BE => 152
  | JOP_BYTES_WRITE_U16_LE => 153
  | JOP_BYTES_WRITE_U16_BE => 154
  | JOP_BYTES_WRITE_U32_LE => 155
  | JOP_BYTES_WRITE_U32_BE => 156
  | JOP_BYTES_WRITE_I32_LE => 157
  | JOP_BYTES_WRITE_I32_BE => 158
  | JOP_BYTES_WRITE_F32_LE => 159
  | JOP_BYTES_WRITE_F32_BE => 160
  | JOP_BYTES_EQ => 161
  end.

Definition all_ops : list jello_op :=
  [JOP_NOP; JOP_RET; JOP_JMP;
   JOP_JMP_IF; JOP_MOV; JOP_TRY;
   JOP_ENDTRY; JOP_THROW; JOP_ASSERT;
   JOP_CALL; JOP_CALLR; JOP_TAILCALL;
   JOP_TAILCALLR; JOP_CONST_FUN; JOP_CLOSURE;
   JOP_BIND_THIS; JOP_CONST_I32; JOP_CONST_I8_IMM;
   JOP_CONST_BOOL; JOP_CONST_NULL; JOP_CONST_ATOM;
   JOP_CONST_F16; JOP_CONST_F32; JOP_CONST_I64;
   JOP_CONST_F64; JOP_CONST_BYTES; JOP_BYTES_CONCAT2;
   JOP_BYTES_CONCAT_MANY; JOP_ADD_I32; JOP_SUB_I32;
   JOP_MUL_I32; JOP_DIV_I32; JOP_MOD_I32;
   JOP_SHL_I32; JOP_SHR_I32; JOP_ADD_I32_IMM;
   JOP_SUB_I32_IMM; JOP_MUL_I32_IMM; JOP_ADD_I64;
   JOP_SUB_I64; JOP_MUL_I64; JOP_DIV_I64;
   JOP_MOD_I64; JOP_SHL_I64; JOP_SHR_I64;
   JOP_ADD_F16; JOP_SUB_F16; JOP_MUL_F16;
   JOP_ADD_F32; JOP_SUB_F32; JOP_MUL_F32;
   JOP_DIV_F32; JOP_ADD_F64; JOP_SUB_F64;
   JOP_MUL_F64; JOP_DIV_F64; JOP_NEG_I32;
   JOP_NEG_I64; JOP_NEG_F32; JOP_NEG_F64;
   JOP_NOT_BOOL; JOP_EQ_I32; JOP_LT_I32;
   JOP_EQ_I32_IMM; JOP_LT_I32_IMM; JOP_EQ_I64;
   JOP_LT_I64; JOP_EQ_F32; JOP_LT_F32;
   JOP_EQ_F64; JOP_LT_F64; JOP_SEXT_I64;
   JOP_SEXT_I16; JOP_TRUNC_I8; JOP_TRUNC_I16;
   JOP_I32_FROM_I64; JOP_F64_FROM_I32; JOP_I32_FROM_F64;
   JOP_F64_FROM_I64; JOP_I64_FROM_F64; JOP_F32_FROM_I32;
   JOP_I32_FROM_F32; JOP_F64_FROM_F32; JOP_F32_FROM_F64;
   JOP_F32_FROM_I64; JOP_I64_FROM_F32; JOP_F16_FROM_F32;
   JOP_F32_FROM_F16; JOP_F16_FROM_I32; JOP_I32_FROM_F16;
   JOP_TO_DYN; JOP_FROM_DYN_I8; JOP_FROM_DYN_I16;
   JOP_FROM_DYN_I32; JOP_FROM_DYN_I64; JOP_FROM_DYN_F16;
   JOP_FROM_DYN_F32; JOP_FROM_DYN_F64; JOP_FROM_DYN_BOOL;
   JOP_FROM_DYN_ATOM; JOP_FROM_DYN_PTR; JOP_SPILL_PUSH;
   JOP_SPILL_POP; JOP_PHYSEQ; JOP_KINDOF;
   JOP_SWITCH_KIND; JOP_CASE_KIND; JOP_LIST_NIL;
   JOP_LIST_CONS; JOP_LIST_HEAD; JOP_LIST_TAIL;
   JOP_LIST_IS_NIL; JOP_ARRAY_NEW; JOP_ARRAY_LEN;
   JOP_ARRAY_GET; JOP_ARRAY_SET; JOP_BYTES_NEW;
   JOP_BYTES_LEN; JOP_BYTES_GET_U8; JOP_BYTES_SET_U8;
   JOP_OBJ_NEW; JOP_OBJ_HAS_ATOM; JOP_OBJ_GET_ATOM;
   JOP_OBJ_SET_ATOM; JOP_OBJ_GET; JOP_OBJ_SET;
   JOP_ARRAY_CONCAT2; JOP_ARRAY_RESIZE; JOP_OBJ_HAS;
   JOP_OBJ_REMOVE; JOP_OBJ_CLEAR; JOP_OBJ_COPY;
   JOP_OBJ_KEYS; JOP_ENUM_NEW; JOP_ENUM_TAG;
   JOP_ENUM_GET; JOP_BITAND_I32; JOP_BITAND_I64;
   JOP_BYTES_BITAND2; JOP_BITOR_I32; JOP_BITOR_I64;
   JOP_BITXOR_I32; JOP_BITXOR_I64; JOP_BYTES_BITOR2;
   JOP_BYTES_BITXOR2; JOP_BYTES_READ_U16_LE; JOP_BYTES_READ_U16_BE;
   JOP_BYTES_READ_U32_LE; JOP_BYTES_READ_U32_BE; JOP_BYTES_READ_I32_LE;
   JOP_BYTES_READ_I32_BE; JOP_BYTES_READ_F32_LE; JOP_BYTES_READ_F32_BE;
   JOP_BYTES_WRITE_U16_LE; JOP_BYTES_WRITE_U16_BE; JOP_BYTES_WRITE_U32_LE;
   JOP_BYTES_WRITE_U32_BE; JOP_BYTES_WRITE_I32_LE; JOP_BYTES_WRITE_I32_BE;
   JOP_BYTES_WRITE_F32_LE; JOP_BYTES_WRITE_F32_BE; JOP_BYTES_EQ].

Definition JOP_COUNT : Z := code_of_op JOP_BYTES_EQ + 1.

(** [(jello_op)op] of an opcode byte. *)
Definition op_of_code (c : Z) : option jello_op := all_ops @! c.

(** ** Instructions, functions, modules *)

Record jello_insn : Set := mk_insn {
  i_op : Z;     (* uint8_t *)
  i_a : Z;      (* uint8_t *)
  i_b : Z;      (* uint8_t *)
  i_c : Z;      (* uint8_t *)
  i_imm : Z     (* uint32_t *)
}.

(** The union [as] holds one 32-bit word, read as [unary.elem], [fun.sig_id] or
    [abs.abstract_id]. *)
Record jello_type_entry : Set := mk_type_entry {
  te_kind : jello_type_kind;
  te_as : Z
}.

Record jello_fun_sig : Set := mk_fun_sig {
  sig_ret : Z;
  sig_nargs : Z;      (* uint16_t *)
  sig_args : list Z
}.

Record jello_bc_function : Set := mk_function {
  f_nregs : Z;
  f_cap_start : Z;
  f_reg_types : list Z;
  f_ninsns : Z;
  f_insns : list jello_insn;
  f_source_file : Z;  (* uint16_t *)
  f_lines : list Z;
  f_nlines : Z
}.

(** The counts are kept beside the tables, as in the C structure: while a module
    is being read they are ahead of the tables. *)
Record jello_bc_module : Set := mk_module {
  m_version : Z;
  m_features : Z;
  m_ntypes : Z;
  m_types : list jello_type_entry;
  m_nsigs : Z;
  m_sigs : list jello_fun_sig;
  m_natoms : Z;
  m_atoms : list (list Z);        (* NUL-terminated strings, without the NUL *)
  m_proto_enabled : bool;
  m_nconst_i64 : Z;
  m_const_i64 : list Z;
  m_nconst_f64 : Z;
  m_const_f64 : list Z;           (* IEEE bit patterns *)
  m_nconst_bytes : Z;
  m_const_bytes_len : list Z;
  m_const_bytes_off : list Z;
  m_const_bytes_data : list Z;
  m_nfuncs : Z;
  m_funcs : list jello_bc_function;
  m_entry : Z;
  m_nsource_files : Z;
  m_source_files : list (list Z)
}.

Definition empty_module : jello_bc_module :=
  mk_module 0 0 0 [] 0 [] 0 [] false 0 [] 0 [] 0 [] [] [] 0 [] 0 0 [].

(** ** Constants of the format *)

Definition JELLO_BC_MAGIC : Z := 0x4A4C5942.

Definition JELLO_BC_FEAT_CONST64 : Z := 1.
Definition JELLO_BC_FEAT_CONSTBYTES : Z := 2.
Definition JELLO_BC_FEAT_CAP_START : Z := 4.
Definition JELLO_BC_FEAT_LINE_TABLE : Z := 8.
Definition JELLO_BC_FEAT_LINE_COL : Z := 16.

(** [features & FLAG] as a truth value. *)
Definition has_feature (features flag : Z) : bool := negb (Z.land features flag =? 0).

Definition JELLO_NATIVE_BUILTIN_COUNT : Z := 47.
Definition JELLO_ATOM___PROTO__ : Z := 0.

(** ** Loader results *)

Inductive jello_bc_error : Set :=
| JELLO_BC_OK
| JELLO_BC_EOF
| JELLO_BC_BAD_MAGIC
| JELLO_BC_UNSUPPORTED_VERSION
| JELLO_BC_BAD_FORMAT
| JELLO_BC_OUT_OF_MEMORY.

#[export] Instance jello_bc_error_eq_dec : EqDecision jello_bc_error.
Proof. solve_decision. Defined.

Record jello_bc_result : Set := mk_result {
  r_err : jello_bc_error;
  r_msg : string;
  r_offset : Z
}.

(** [ok()] and [err(e, msg, off)] of loader.c and check.c. *)
Definition ok : jello_bc_result := mk_result JELLO_BC_OK "ok" 0.

Definition err (e : jello_bc_error) (msg : string) (off : Z) : jello_bc_result :=
  mk_result e msg off.

(** [if(r.err)]. *)
Definition is_ok (r : jello_bc_result) : bool := bool_decide (r_err r = JELLO_BC_OK).

(** The width in bytes of a register slot, [jello_slot_size] of src/vm/reg.c, on
    the 64-bit targets (a value and a pointer take 8 bytes). *)
Definition jello_slot_size (k : jello_type_kind) : Z :=
  match k with
  | JELLO_T_I8 | JELLO_T_I16 | JELLO_T_I32 | JELLO_T_F32 | JELLO_T_F16
  | JELLO_T_BOOL | JELLO_T_ATOM => 4
  | JELLO_T_I64 | JELLO_T_F64 => 8
  | JELLO_T_DYNAMIC => 8
  | JELLO_T_BYTES | JELLO_T_FUNCTION | JELLO_T_LIST | JELLO_T_ARRAY
  | JELLO_T_OBJECT | JELLO_T_ENUM | JELLO_T_ABSTRACT => 8
  end.

(** ** Decoding laws *)

Lemma op_of_code_of_op o : op_of_code (code_of_op o) = Some o.
Proof. by destruct o. Qed.

Lemma code_of_op_of_code c o : op_of_code c = Some o -> code_of_op o = c.
Proof.
  unfold op_of_code. intros H. pose proof (znth_Some _ _ _ H) as Hr.
  change (zlen all_ops) with 162 in Hr.
  assert (Hall : Forall (fun n => match all_ops !! n with
                 | Some o => code_of_op o = Z.of_nat n | None => True end) (seq 0 162)).
  { repeat constructor. }
  rewrite Forall_forall in Hall. specialize (Hall (Z.to_nat c)).
  rewrite elem_of_seq in Hall. rewrite <- (Z2Nat.id c), znth_lookup in H by lia.
  rewrite H in Hall. rewrite Hall; lia.
Qed.

Lemma op_of_code_None c : op_of_code c = None <-> c < 0 \/ JOP_COUNT <= c.
Proof. unfold op_of_code. rewrite znth_None. by change (zlen all_ops) with 162. Qed.

Lemma code_of_op_inj o1 o2 : code_of_op o1 = code_of_op o2 -> o1 = o2.
Proof.
  intros H. pose proof (op_of_code_of_op o1) as H1. rewrite H, op_of_code_of_op in H1.
  congruence.
Qed.

#[export] Instance jello_op_eq_dec : EqDecision jello_op.
Proof.
  intros x y. destruct (decide (code_of_op x = code_of_op y)) as [H|H].
  - left. by apply code_of_op_inj.
  - right. congruence.
Defined.

Lemma kind_of_code_of_kind k : kind_of_code (code_of_kind k) = Some k.
Proof. by destruct k. Qed.

Lemma code_of_kind_of_code c k : kind_of_code c = Some k -> code_of_kind k = c.
Proof.
  unfold kind_of_code. intros H. pose proof (znth_Some _ _ _ H) as Hr.
  change (zlen all_kinds) with 17 in Hr.
  assert (Hall : Forall (fun n => match all_kinds !! n with
                 | Some o => code_of_kind o = Z.of_nat n + 1 | None => True end) (seq 0 17)).
  { repeat constructor. }
  rewrite Forall_forall in Hall. specialize (Hall (Z.to_nat (c - 1))).
  rewrite elem_of_seq in Hall. rewrite <- (Z2Nat.id (c - 1)), znth_lookup in H by lia.
  rewrite H in Hall. rewrite Hall; lia.
Qed.

Lemma kind_eqb_eq k1 k2 : kind_eqb k1 k2 = true <-> k1 = k2.
Proof.
  unfold kind_eqb. rewrite Z.eqb_eq. split; [|congruence].
  intros H. pose proof (kind_of_code_of_kind k1) as H1.
  rewrite H, kind_of_code_of_kind in H1. congruence.
Qed.

Lemma slot_size_4_8 k : jello_slot_size k = 4 \/ jello_slot_size k = 8.
Proof. destruct k; cbn; auto. Qed.
