(* ===== verification/Check.v ===== *)
(** * Instruction validation: [src/bytecode/check.c]

    [jello_bc_validate_insn] is one switch over the opcode; it is cut here into
    blocks of consecutive cases ([validate_control] ... [validate_enum]), each
    answering [Some] on its own cases, and composed in source order.

    Memory: [reg_types[r]] and [m->types[t]] are reads of C arrays.  A read
    outside the array would return whatever is in memory there; the model makes
    that content a parameter ([junk_tid], [junk_type]), and the theorems show
    that no answer of the checker depends on it. *)

From S2P Require Import Prelude CInt Bytecode.

(** [if(c) return err(JELLO_BC_BAD_FORMAT, msg, 0);] before [k]. *)
Notation "'reject_if' c 'as' msg ;; k" :=
  (if c%bool then err JELLO_BC_BAD_FORMAT msg 0 else k)
  (at level 10, c at level 99, msg at level 9, k at level 200)
  : jello_scope.

Section Check.
Context (junk_type : jello_type_entry) (junk_tid : Z).
Context (m : jello_bc_module).

Definition type_at (t : Z) : jello_type_entry := zget junk_type (m_types m) t.

Section Insn.
Context (reg_types : list Z).

Definition reg_type (r : Z) : Z := zget junk_tid reg_types r.

Definition slot_size (tid : Z) : Z := jello_slot_size (te_kind (type_at tid)).

Definition rk (r : Z) : jello_type_kind := te_kind (type_at (reg_type r)).

Definition is_enum_reg (r : Z) : bool :=
  let tid := reg_type r in
  let k := te_kind (type_at tid) in
  if kind_eqb k JELLO_T_ENUM then true
  else kind_eqb k JELLO_T_ABSTRACT && (te_as (type_at tid) =? 1).

(** [rk(m, reg_types, r) != k]. *)
Definition not_kind (r : Z) (k : jello_type_kind) : bool := negb (kind_eqb (rk r) k).

(** [rk(r) != I8 && rk(r) != I16 && rk(r) != I32]. *)
Definition not_i32ish (r : Z) : bool :=
  not_kind r JELLO_T_I8 && not_kind r JELLO_T_I16 && not_kind r JELLO_T_I32.

Context (ins : jello_insn) (nregs pc ninsns nfuncs : Z).

Let a := i_a ins.
Let b := i_b ins.
Let c := i_c ins.
Let imm := i_imm ins.

(** [r >= nregs]. *)
Definition oor (r : Z) : bool := nregs <=? r.

(** The branch target [(int32_t)(pc + 1u) + (int32_t)imm] and its test
    [tgt < 0 || tgt > (int32_t)ninsns].  (Where the C addition would
    overflow, the target machine's wrap-around is what is modelled.) *)
Definition branch_target : Z := i32 (i32 (u32 (pc + 1)) + i32 imm).
Definition bad_target (tgt : Z) : bool := (tgt <? 0) || (i32 ninsns <? tgt).

(** [imm >= JELLO_NATIVE_BUILTIN_COUNT + nfuncs]. *)
Definition bad_func_index : bool := u32 (JELLO_NATIVE_BUILTIN_COUNT + nfuncs) <=? imm.

(** Two-register and three-register instructions with fixed kinds: the shape
    most cases share. *)
Definition fixed2 (range_msg kind_msg : string) (ka kb : jello_type_kind) : jello_bc_result :=
  reject_if oor a || oor b as range_msg ;;
  reject_if not_kind a ka || not_kind b kb as kind_msg ;;
  ok.

Definition fixed3 (range_msg kind_msg : string) (ka kb kc : jello_type_kind)
  : jello_bc_result :=
  reject_if oor a || oor b || oor c as range_msg ;;
  reject_if not_kind a ka || not_kind b kb || not_kind c kc as kind_msg ;;
  ok.

Definition const1 (kind_msg : string) (ka : jello_type_kind) : jello_bc_result :=
  reject_if oor a as "const reg out of range" ;;
  reject_if not_kind a ka as kind_msg ;;
  ok.

Definition validate_mov : jello_bc_result :=
  reject_if oor a || oor b as "mov reg out of range" ;;
  if negb (reg_type a =? reg_type b) then
    let ka := rk a in
    let kb := rk b in
    let sa := slot_size (reg_type a) in
    let sb := slot_size (reg_type b) in
    if kind_eqb ka kb then ok
  else if (sa =? sb) && (0 <? sa) then ok
  else err JELLO_BC_BAD_FORMAT "mov type mismatch" 0
  else ok.

Definition validate_control (o : jello_op) : option jello_bc_result :=
  match o with
  | JOP_NOP => Some ok
  | JOP_RET => Some (
      reject_if oor a as "ret reg out of range" ;;
      ok)
  | JOP_MOV => Some validate_mov
  | JOP_JMP => Some (
      reject_if bad_target branch_target as "jmp target out of range" ;;
      ok)
  | JOP_JMP_IF => Some (
      reject_if oor a as "jmp_if cond reg out of range" ;;
      reject_if not_kind a JELLO_T_BOOL as "jmp_if cond must be bool" ;;
      reject_if bad_target branch_target as "jmp_if target out of range" ;;
      ok)
  | JOP_ASSERT => Some (
      reject_if oor a as "assert cond reg out of range" ;;
      reject_if not_kind a JELLO_T_BOOL as "assert cond must be bool" ;;
      reject_if 1 <? c as "assert c must be 0/1 (location msg flag)" ;;
      if c =? 1 then
        reject_if oor b as "assert msg reg out of range" ;;
        reject_if not_kind b JELLO_T_BYTES as "assert msg must be Bytes" ;;
        ok
      else
      reject_if negb (b =? 0) as "assert b must be 0 when c is 0" ;;
      ok)
  | JOP_TRY => Some (
      reject_if oor a as "try reg out of range" ;;
      reject_if not_kind a JELLO_T_DYNAMIC as "try dst must be Dynamic" ;;
      reject_if 1 <? b as "try b must be 0/1 (trap_only flag)" ;;
      reject_if bad_target branch_target as "try catch target out of range" ;;
      ok)
  | JOP_ENDTRY => Some ok
  | JOP_THROW => Some (
      reject_if oor a as "throw reg out of range" ;;
      reject_if not_kind a JELLO_T_DYNAMIC as "throw payload must be Dynamic" ;;
      ok)
  | _ => None
  end.

Definition validate_calls (o : jello_op) : option jello_bc_result :=
  match o with
  | JOP_CLOSURE => Some (
      reject_if oor a || oor b as "closure reg out of range" ;;
      reject_if not_kind a JELLO_T_FUNCTION as "closure dst must be function" ;;
      reject_if bad_func_index as "closure func index out of range" ;;
      reject_if nregs <? u32 (b + c) as "closure capture range out of range" ;;
      ok)
  | JOP_BIND_THIS => Some (
      reject_if oor a || oor b || oor c as "bind_this reg out of range" ;;
      reject_if not_kind a JELLO_T_FUNCTION || not_kind b JELLO_T_FUNCTION
      as "bind_this requires function regs" ;;
      ok)
  | JOP_CALL => Some (
      reject_if oor a || oor b as "call reg out of range" ;;
      reject_if bad_func_index as "call func index out of range" ;;
      reject_if nregs <? u32 (b + c) as "call arg range out of range" ;;
      ok)
  | JOP_CALLR => Some (
      reject_if oor a || oor b as "callr reg out of range" ;;
      reject_if not_kind b JELLO_T_FUNCTION as "callr callee must be function" ;;
      reject_if oor imm as "callr arg base out of range" ;;
      reject_if nregs <? u32 (imm + c) as "callr arg range out of range" ;;
      ok)
  | JOP_TAILCALL => Some (
      reject_if oor a || oor b as "tailcall reg out of range" ;;
      reject_if bad_func_index as "tailcall func index out of range" ;;
      reject_if nregs <? u32 (b + c) as "tailcall arg range out of range" ;;
      ok)
  | JOP_TAILCALLR => Some (
      reject_if oor a || oor b as "tailcallr reg out of range" ;;
      reject_if not_kind b JELLO_T_FUNCTION as "tailcallr callee must be function" ;;
      reject_if oor imm as "tailcallr arg base out of range" ;;
      reject_if nregs <? u32 (imm + c) as "tailcallr arg range out of range" ;;
      ok)
  | _ => None
  end.

Definition validate_const (o : jello_op) : option jello_bc_result :=
  match o with
  | JOP_CONST_I32 => Some (
      reject_if oor a as "const reg out of range" ;;
      reject_if not_i32ish a as "const_i32 dst must be i8/i16/i32" ;;
      if kind_eqb (rk a) JELLO_T_I8 then
        let v := i32 imm in
        reject_if (v <? -128) || (127 <? v) as "const_i32 out of range for i8" ;;
        ok
      else if kind_eqb (rk a) JELLO_T_I16 then
        let v := i32 imm in
        reject_if (v <? -32768) || (32767 <? v) as "const_i32 out of range for i16" ;;
        ok
      else ok)
  | JOP_CONST_I8_IMM => Some (const1 "const_i8_imm dst must be i8" JELLO_T_I8)
  | JOP_CONST_F16 => Some (const1 "const_f16 dst must be f16" JELLO_T_F16)
  | JOP_CONST_BOOL => Some (
      reject_if oor a as "const reg out of range" ;;
      reject_if not_kind a JELLO_T_BOOL as "const_bool dst must be bool" ;;
      reject_if 1 <? c as "const_bool imm must be 0/1" ;;
      ok)
  | JOP_CONST_NULL => Some (const1 "const_null dst must be Dynamic" JELLO_T_DYNAMIC)
  | JOP_CONST_ATOM => Some (
      reject_if oor a as "const reg out of range" ;;
      reject_if not_kind a JELLO_T_ATOM as "const_atom dst must be atom" ;;
      reject_if m_natoms m <=? imm as "const_atom atom id out of range" ;;
      ok)
  | JOP_CONST_F32 => Some (const1 "const_f32 dst must be f32" JELLO_T_F32)
  | JOP_CONST_I64 => Some (
      reject_if oor a as "const reg out of range" ;;
      reject_if not_kind a JELLO_T_I64 as "const_i64 dst must be i64" ;;
      reject_if m_nconst_i64 m <=? imm as "const_i64 pool index out of range" ;;
      ok)
  | JOP_CONST_F64 => Some (
      reject_if oor a as "const reg out of range" ;;
      reject_if not_kind a JELLO_T_F64 as "const_f64 dst must be f64" ;;
      reject_if m_nconst_f64 m <=? imm as "const_f64 pool index out of range" ;;
      ok)
  | JOP_CONST_BYTES => Some (
      reject_if oor a as "const reg out of range" ;;
      reject_if not_kind a JELLO_T_BYTES as "const_bytes dst must be bytes" ;;
      reject_if m_nconst_bytes m <=? imm as "const_bytes pool index out of range" ;;
      ok)
  | JOP_CONST_FUN => Some (
      reject_if oor a as "const reg out of range" ;;
      reject_if not_kind a JELLO_T_FUNCTION as "const_fun dst must be function" ;;
      reject_if bad_func_index as "const_fun func index out of range" ;;
      ok)
  | _ => None
  end.

Definition validate_arith (o : jello_op) : option jello_bc_result :=
  match o with
  | JOP_ADD_I32 | JOP_SUB_I32 | JOP_MUL_I32 | JOP_DIV_I32 | JOP_MOD_I32
  | JOP_SHL_I32 | JOP_SHR_I32 | JOP_BITAND_I32 | JOP_BITOR_I32 | JOP_BITXOR_I32 => Some (
      reject_if oor a || oor b || oor c as "arith reg out of range" ;;
      reject_if not_i32ish a || not_i32ish b || not_i32ish c
      as "arith i8/i16/i32 types required" ;;
      ok)
  | JOP_ADD_I32_IMM | JOP_SUB_I32_IMM | JOP_MUL_I32_IMM => Some (
      reject_if oor a || oor b as "arith_imm reg out of range" ;;
      reject_if not_i32ish a || not_i32ish b as "arith_imm i8/i16/i32 types required" ;;
      ok)
  | JOP_ADD_I64 | JOP_SUB_I64 | JOP_MUL_I64 | JOP_DIV_I64 | JOP_MOD_I64
  | JOP_SHL_I64 | JOP_SHR_I64 | JOP_BITAND_I64 | JOP_BITOR_I64 | JOP_BITXOR_I64 =>
    Some (fixed3 "arith reg out of range" "arith i64 types required"
      JELLO_T_I64 JELLO_T_I64 JELLO_T_I64)
  | JOP_ADD_F32 | JOP_SUB_F32 | JOP_MUL_F32 | JOP_DIV_F32 =>
    Some (fixed3 "arith reg out of range" "arith f32 types required"
      JELLO_T_F32 JELLO_T_F32 JELLO_T_F32)
  | JOP_ADD_F16 | JOP_SUB_F16 | JOP_MUL_F16 =>
    Some (fixed3 "arith reg out of range" "arith f16 types required"
      JELLO_T_F16 JELLO_T_F16 JELLO_T_F16)
  | JOP_ADD_F64 | JOP_SUB_F64 | JOP_MUL_F64 | JOP_DIV_F64 =>
    Some (fixed3 "arith reg out of range" "arith f64 types required"
      JELLO_T_F64 JELLO_T_F64 JELLO_T_F64)
  | _ => None
  end.

Definition conv (msg : string) (ka kb : jello_type_kind) : option jello_bc_result :=
  Some (fixed2 "conv reg out of range" msg ka kb).

Definition validate_conv (o : jello_op) : option jello_bc_result :=
  match o with
  | JOP_SEXT_I64 => Some (
      reject_if oor a || oor b as "conv reg out of range" ;;
      reject_if not_kind a JELLO_T_I64 as "sext_i64 dst must be i64" ;;
      reject_if not_i32ish b as "sext_i64 src must be i8/i16/i32" ;;
      ok)
  | JOP_SEXT_I16 => conv "sext_i16 dst must be i16, src i8" JELLO_T_I16 JELLO_T_I8
  | JOP_TRUNC_I8 => Some (
      reject_if oor a || oor b as "conv reg out of range" ;;
      reject_if not_kind a JELLO_T_I8 as "trunc_i8 dst must be i8" ;;
      reject_if not_kind b JELLO_T_I16 && not_kind b JELLO_T_I32
      as "trunc_i8 src must be i16 or i32" ;;
      ok)
  | JOP_TRUNC_I16 => conv "trunc_i16 dst must be i16, src i32" JELLO_T_I16 JELLO_T_I32
  | JOP_I32_FROM_I64 => conv "i32_from_i64 types required" JELLO_T_I32 JELLO_T_I64
  | JOP_F64_FROM_I32 => conv "f64_from_i32 types required" JELLO_T_F64 JELLO_T_I32
  | JOP_I32_FROM_F64 => conv "i32_from_f64 types required" JELLO_T_I32 JELLO_T_F64
  | JOP_F64_FROM_I64 => conv "f64_from_i64 types required" JELLO_T_F64 JELLO_T_I64
  | JOP_I64_FROM_F64 => conv "i64_from_f64 types required" JELLO_T_I64 JELLO_T_F64
  | JOP_F32_FROM_I32 => conv "f32_from_i32 types required" JELLO_T_F32 JELLO_T_I32
  | JOP_I32_FROM_F32 => conv "i32_from_f32 types required" JELLO_T_I32 JELLO_T_F32
  | JOP_F64_FROM_F32 => conv "f64_from_f32 types required" JELLO_T_F64 JELLO_T_F32
  | JOP_F32_FROM_F64 => conv "f32_from_f64 types required" JELLO_T_F32 JELLO_T_F64
  | JOP_F16_FROM_F32 => conv "f16_from_f32 types required" JELLO_T_F16 JELLO_T_F32
  | JOP_F32_FROM_F16 => conv "f32_from_f16 types required" JELLO_T_F32 JELLO_T_F16
  | JOP_F16_FROM_I32 => conv "f16_from_i32 types required" JELLO_T_F16 JELLO_T_I32
  | JOP_I32_FROM_F16 => conv "i32_from_f16 types required" JELLO_T_I32 JELLO_T_F16
  | JOP_F32_FROM_I64 => conv "f32_from_i64 types required" JELLO_T_F32 JELLO_T_I64
  | JOP_I64_FROM_F32 => conv "i64_from_f32 types required" JELLO_T_I64 JELLO_T_F32
  | _ => None
  end.

Definition validate_cmp (o : jello_op) : option jello_bc_result :=
  match o with
  | JOP_EQ_I32 => Some (
      reject_if oor a || oor b || oor c as "eq reg out of range" ;;
      reject_if not_kind a JELLO_T_BOOL as "eq_i32 dst must be bool" ;;
      reject_if not_i32ish b || not_i32ish c as "eq_i32 operands must be i8/i16/i32" ;;
      ok)
  | JOP_EQ_I32_IMM | JOP_LT_I32_IMM => Some (
      reject_if oor a || oor b as "eq/lt_imm reg out of range" ;;
      reject_if not_kind a JELLO_T_BOOL as "eq/lt_imm dst must be bool" ;;
      reject_if not_i32ish b as "eq/lt_imm src must be i8/i16/i32" ;;
      ok)
  | JOP_EQ_I64 => Some (fixed3 "eq reg out of range" "eq_i64 types required"
      JELLO_T_BOOL JELLO_T_I64 JELLO_T_I64)
  | JOP_LT_I64 => Some (fixed3 "lt reg out of range" "lt_i64 types required"
      JELLO_T_BOOL JELLO_T_I64 JELLO_T_I64)
  | JOP_EQ_F32 => Some (fixed3 "eq reg out of range" "eq_f32 types required"
      JELLO_T_BOOL JELLO_T_F32 JELLO_T_F32)
  | JOP_LT_F32 => Some (fixed3 "lt reg out of range" "lt_f32 types required"
      JELLO_T_BOOL JELLO_T_F32 JELLO_T_F32)
  | JOP_EQ_F64 => Some (fixed3 "eq reg out of range" "eq_f64 types required"
      JELLO_T_BOOL JELLO_T_F64 JELLO_T_F64)
  | JOP_LT_F64 => Some (fixed3 "lt reg out of range" "lt_f64 types required"
      JELLO_T_BOOL JELLO_T_F64 JELLO_T_F64)
  | _ => None
  end.

Definition from_dyn (msg : string) (ka : jello_type_kind) : option jello_bc_result :=
  Some (
    reject_if oor a || oor b as "dyn conv reg out of range" ;;
    reject_if not_kind b JELLO_T_DYNAMIC || not_kind a ka as msg ;;
    ok).

Definition validate_dyn (o : jello_op) : option jello_bc_result :=
  match o with
  | JOP_TO_DYN => Some (
      reject_if oor a || oor b as "dyn conv reg out of range" ;;
      reject_if not_kind a JELLO_T_DYNAMIC as "to_dyn dst must be Dynamic" ;;
      ok)
  | JOP_FROM_DYN_I8 => from_dyn "from_dyn_i8 types required" JELLO_T_I8
  | JOP_FROM_DYN_I16 => from_dyn "from_dyn_i16 types required" JELLO_T_I16
  | JOP_FROM_DYN_I32 => from_dyn "from_dyn_i32 types required" JELLO_T_I32
  | JOP_FROM_DYN_I64 => from_dyn "from_dyn_i64 types required" JELLO_T_I64
  | JOP_FROM_DYN_F16 => from_dyn "from_dyn_f16 types required" JELLO_T_F16
  | JOP_FROM_DYN_F32 => from_dyn "from_dyn_f32 types required" JELLO_T_F32
  | JOP_FROM_DYN_F64 => from_dyn "from_dyn_f64 types required" JELLO_T_F64
  | JOP_FROM_DYN_BOOL => from_dyn "from_dyn_bool types required" JELLO_T_BOOL
  | JOP_FROM_DYN_ATOM => from_dyn "from_dyn_atom types required" JELLO_T_ATOM
  | JOP_FROM_DYN_PTR => Some (
      reject_if oor a || oor b as "dyn conv reg out of range" ;;
      reject_if not_kind b JELLO_T_DYNAMIC as "from_dyn_ptr src must be Dynamic" ;;
      match rk a with
      | JELLO_T_BYTES | JELLO_T_FUNCTION | JELLO_T_LIST | JELLO_T_ARRAY
      | JELLO_T_OBJECT | JELLO_T_ABSTRACT | JELLO_T_ENUM => ok
      | _ => err JELLO_BC_BAD_FORMAT "from_dyn_ptr dst must be pointer-kind" 0
      end)
  | JOP_SPILL_PUSH => Some (
      reject_if oor a as "spill push reg out of range" ;;
      ok)
  | JOP_SPILL_POP => Some (
      reject_if oor a as "spill pop reg out of range" ;;
      ok)
  | _ => None
  end.

Definition validate_unary (o : jello_op) : option jello_bc_result :=
  match o with
  | JOP_NEG_I32 => Some (
      reject_if oor a || oor b as "neg reg out of range" ;;
      reject_if not_i32ish a || not_i32ish b as "neg_i32 types must be i8/i16/i32" ;;
      ok)
  | JOP_NEG_I64 => Some (fixed2 "neg reg out of range" "neg_i64 types required"
      JELLO_T_I64 JELLO_T_I64)
  | JOP_NEG_F32 => Some (fixed2 "neg reg out of range" "neg_f32 types required"
      JELLO_T_F32 JELLO_T_F32)
  | JOP_NEG_F64 => Some (fixed2 "neg reg out of range" "neg_f64 types required"
      JELLO_T_F64 JELLO_T_F64)
  | JOP_NOT_BOOL => Some (fixed2 "not reg out of range" "not_bool types required"
      JELLO_T_BOOL JELLO_T_BOOL)
  | JOP_PHYSEQ => Some (
      reject_if oor a || oor b || oor c as "physeq reg out of range" ;;
      reject_if not_kind a JELLO_T_BOOL as "physeq dst must be bool" ;;
      ok)
  | JOP_LT_I32 => Some (
      reject_if oor a || oor b || oor c as "lt_i32 reg out of range" ;;
      reject_if not_kind a JELLO_T_BOOL as "lt_i32 dst must be bool" ;;
      reject_if not_i32ish b || not_i32ish c as "lt_i32 operands must be i8/i16/i32" ;;
      ok)
  | JOP_KINDOF => Some (fixed2 "kindof reg out of range" "kindof types required"
      JELLO_T_I32 JELLO_T_DYNAMIC)
  | JOP_SWITCH_KIND => Some (
      reject_if oor a as "switch_kind reg out of range" ;;
      reject_if not_kind a JELLO_T_I32 as "switch_kind src must be i32" ;;
      let ncases := b in
      reject_if ninsns <? u32 (pc + 1 + ncases) as "switch_kind case table out of range" ;;
      ok)
  | JOP_CASE_KIND => Some ok
  | _ => None
  end.

(** The element type recorded in a register's own type entry,
    [m->types[reg_types[r]].as.unary.elem]. *)
Definition elem_of_reg (r : Z) : Z := te_as (type_at (reg_type r)).

Definition validate_list_array (o : jello_op) : option jello_bc_result :=
  match o with
  | JOP_LIST_NIL => Some (
      reject_if oor a as "list nil reg out of range" ;;
      reject_if not_kind a JELLO_T_LIST as "list_nil dst must be list" ;;
      ok)
  | JOP_LIST_CONS => Some (
      reject_if oor a || oor b || oor c as "list cons reg out of range" ;;
      reject_if not_kind a JELLO_T_LIST as "list_cons dst must be list" ;;
      reject_if not_kind c JELLO_T_LIST as "list_cons tail must be list" ;;
      reject_if negb (reg_type a =? reg_type c) as "list_cons list type mismatch" ;;
      reject_if negb (elem_of_reg a =? reg_type b) as "list_cons head type mismatch" ;;
      ok)
  | JOP_LIST_HEAD => Some (
      reject_if oor a || oor b as "list head reg out of range" ;;
      reject_if not_kind b JELLO_T_LIST as "list_head src must be list" ;;
      reject_if negb (elem_of_reg b =? reg_type a) as "list_head dst type mismatch" ;;
      ok)
  | JOP_LIST_TAIL => Some (
      reject_if oor a || oor b as "list tail reg out of range" ;;
      reject_if not_kind a JELLO_T_LIST || not_kind b JELLO_T_LIST
      as "list_tail types required" ;;
      reject_if negb (reg_type a =? reg_type b) as "list_tail list type mismatch" ;;
      ok)
  | JOP_LIST_IS_NIL => Some (fixed2 "list is_nil reg out of range" "list_is_nil types required"
      JELLO_T_BOOL JELLO_T_LIST)
  | JOP_ARRAY_NEW => Some (fixed2 "array new reg out of range" "array_new types required"
      JELLO_T_ARRAY JELLO_T_I32)
  | JOP_ARRAY_LEN => Some (fixed2 "array len reg out of range" "array_len types required"
      JELLO_T_I32 JELLO_T_ARRAY)
  | JOP_ARRAY_GET => Some (
      reject_if oor a || oor b || oor c as "array get reg out of range" ;;
      reject_if not_kind b JELLO_T_ARRAY || not_kind c JELLO_T_I32
      as "array_get types required" ;;
      reject_if negb (elem_of_reg b =? reg_type a) as "array_get dst type mismatch" ;;
      ok)
  | JOP_ARRAY_SET => Some (
      reject_if oor a || oor b || oor c as "array set reg out of range" ;;
      reject_if not_kind b JELLO_T_ARRAY || not_kind c JELLO_T_I32
      as "array_set types required" ;;
      reject_if negb (elem_of_reg b =? reg_type a) as "array_set src type mismatch" ;;
      ok)
  | _ => None
  end.

Definition validate_bytes (o : jello_op) : option jello_bc_result :=
  match o with
  | JOP_BYTES_NEW => Some (fixed2 "bytes new reg out of range" "bytes_new types required"
      JELLO_T_BYTES JELLO_T_I32)
  | JOP_BYTES_LEN => Some (fixed2 "bytes len reg out of range" "bytes_len types required"
      JELLO_T_I32 JELLO_T_BYTES)
  | JOP_BYTES_GET_U8 =>
    Some (fixed3 "bytes get_u8 reg out of range" "bytes_get_u8 types required"
      JELLO_T_I32 JELLO_T_BYTES JELLO_T_I32)
  | JOP_BYTES_SET_U8 =>
    Some (fixed3 "bytes set_u8 reg out of range" "bytes_set_u8 types required"
      JELLO_T_I32 JELLO_T_BYTES JELLO_T_I32)
  | JOP_BYTES_CONCAT2 =>
    Some (fixed3 "bytes concat2 reg out of range" "bytes_concat2 types required"
      JELLO_T_BYTES JELLO_T_BYTES JELLO_T_BYTES)
  | JOP_BYTES_CONCAT_MANY => Some (
      reject_if oor a || oor b as "bytes concat_many reg out of range" ;;
      reject_if not_kind a JELLO_T_BYTES as "bytes_concat_many dst must be bytes" ;;
      reject_if not_kind b JELLO_T_ARRAY as "bytes_concat_many src must be array" ;;
      let elem_tid := elem_of_reg b in
      reject_if negb (kind_eqb (te_kind (type_at elem_tid)) JELLO_T_BYTES)
      as "bytes_concat_many requires Array<bytes>" ;;
      ok)
  | JOP_BYTES_BITAND2 | JOP_BYTES_BITOR2 | JOP_BYTES_BITXOR2 =>
    Some (fixed3 "bytes bitwise2 reg out of range" "bytes_bitwise2 types required"
      JELLO_T_BYTES JELLO_T_BYTES JELLO_T_BYTES)
  | JOP_BYTES_READ_U16_LE | JOP_BYTES_READ_U16_BE | JOP_BYTES_READ_U32_LE
  | JOP_BYTES_READ_U32_BE | JOP_BYTES_READ_I32_LE | JOP_BYTES_READ_I32_BE =>
    Some (fixed3 "bytes read reg out of range" "bytes_read types required"
      JELLO_T_I32 JELLO_T_BYTES JELLO_T_I32)
  | JOP_BYTES_READ_F32_LE | JOP_BYTES_READ_F32_BE =>
    Some (fixed3 "bytes read reg out of range" "bytes_read_f32 types required"
      JELLO_T_F32 JELLO_T_BYTES JELLO_T_I32)
  | JOP_BYTES_WRITE_U16_LE | JOP_BYTES_WRITE_U16_BE | JOP_BYTES_WRITE_U32_LE
  | JOP_BYTES_WRITE_U32_BE | JOP_BYTES_WRITE_I32_LE | JOP_BYTES_WRITE_I32_BE =>
    Some (fixed3 "bytes write reg out of range" "bytes_write types required"
      JELLO_T_I32 JELLO_T_BYTES JELLO_T_I32)
  | JOP_BYTES_WRITE_F32_LE | JOP_BYTES_WRITE_F32_BE =>
    Some (fixed3 "bytes write reg out of range" "bytes_write_f32 types required"
      JELLO_T_F32 JELLO_T_BYTES JELLO_T_I32)
  | JOP_BYTES_EQ =>
    Some (fixed3 "bytes eq reg out of range" "bytes_eq types required"
      JELLO_T_BOOL JELLO_T_BYTES JELLO_T_BYTES)
  | _ => None
  end.

Definition validate_obj (o : jello_op) : option jello_bc_result :=
  match o with
  | JOP_OBJ_NEW => Some (
      reject_if oor a as "obj new reg out of range" ;;
      reject_if not_kind a JELLO_T_OBJECT as "obj_new dst must be object" ;;
      ok)
  | JOP_OBJ_HAS_ATOM => Some (
      reject_if oor a || oor b as "obj has reg out of range" ;;
      reject_if not_kind a JELLO_T_BOOL || not_kind b JELLO_T_OBJECT
      as "obj_has types required" ;;
      reject_if m_natoms m <=? imm as "obj_has atom id out of range" ;;
      ok)
  | JOP_OBJ_GET_ATOM => Some (
      reject_if oor a || oor b as "obj get reg out of range" ;;
      reject_if not_kind b JELLO_T_OBJECT as "obj_get src must be object" ;;
      reject_if m_natoms m <=? imm as "obj_get atom id out of range" ;;
      ok)
  | JOP_OBJ_SET_ATOM => Some (
      reject_if oor a || oor b as "obj set reg out of range" ;;
      reject_if not_kind b JELLO_T_OBJECT as "obj_set dst must be object" ;;
      reject_if m_natoms m <=? imm as "obj_set atom id out of range" ;;
      ok)
  | JOP_OBJ_GET => Some (
      reject_if oor a || oor b || oor c as "obj get reg out of range" ;;
      reject_if not_kind b JELLO_T_OBJECT as "obj_get src must be object" ;;
      reject_if not_kind c JELLO_T_ATOM as "obj_get key must be atom" ;;
      ok)
  | JOP_OBJ_SET => Some (
      reject_if oor a || oor b || oor c as "obj set reg out of range" ;;
      reject_if not_kind b JELLO_T_OBJECT as "obj_set dst must be object" ;;
      reject_if not_kind c JELLO_T_ATOM as "obj_set key must be atom" ;;
      ok)
  | JOP_OBJ_HAS => Some (
      reject_if oor a || oor b || oor c as "obj has reg out of range" ;;
      reject_if not_kind a JELLO_T_BOOL as "obj_has dst must be bool" ;;
      reject_if not_kind b JELLO_T_OBJECT as "obj_has src must be object" ;;
      reject_if not_kind c JELLO_T_ATOM as "obj_has key must be atom" ;;
      ok)
  | JOP_OBJ_REMOVE => Some (
      reject_if oor a || oor b || oor c as "obj remove reg out of range" ;;
      reject_if not_kind a JELLO_T_BOOL as "obj_remove dst must be bool" ;;
      reject_if not_kind b JELLO_T_OBJECT as "obj_remove src must be object" ;;
      reject_if not_kind c JELLO_T_ATOM as "obj_remove key must be atom" ;;
      ok)
  | JOP_OBJ_CLEAR => Some (
      reject_if oor b as "obj clear reg out of range" ;;
      reject_if not_kind b JELLO_T_OBJECT as "obj_clear src must be object" ;;
      ok)
  | JOP_OBJ_COPY => Some (
      reject_if oor a || oor b as "obj copy reg out of range" ;;
      reject_if not_kind a JELLO_T_OBJECT as "obj_copy dst must be object" ;;
      reject_if not_kind b JELLO_T_OBJECT as "obj_copy src must be object" ;;
      ok)
  | JOP_OBJ_KEYS => Some (
      reject_if oor a || oor b as "obj keys reg out of range" ;;
      reject_if not_kind b JELLO_T_OBJECT as "obj_keys src must be object" ;;
      reject_if not_kind a JELLO_T_LIST as "obj_keys dst must be list" ;;
      let elem_tid := elem_of_reg a in
      reject_if (m_ntypes m <=? elem_tid)
      || negb (kind_eqb (te_kind (type_at elem_tid)) JELLO_T_ATOM)
      as "obj_keys list elem must be atom" ;;
      ok)
  | _ => None
  end.

Definition validate_enum (o : jello_op) : option jello_bc_result :=
  match o with
  | JOP_ARRAY_CONCAT2 => Some (
      reject_if oor a || oor b || oor c as "array concat2 reg out of range" ;;
      reject_if not_kind a JELLO_T_ARRAY || not_kind b JELLO_T_ARRAY
      || not_kind c JELLO_T_ARRAY as "array_concat2 types required" ;;
      reject_if negb (reg_type a =? reg_type b) || negb (reg_type a =? reg_type c)
      as "array_concat2 type mismatch" ;;
      ok)
  | JOP_ARRAY_RESIZE => Some (
      reject_if oor b || oor c as "array resize reg out of range" ;;
      reject_if not_kind b JELLO_T_ARRAY as "array_resize array type required" ;;
      reject_if not_kind c JELLO_T_I32 as "array_resize len must be i32" ;;
      ok)
  | JOP_ENUM_NEW => Some (
      reject_if oor a as "enum_new reg out of range" ;;
      reject_if not_kind a JELLO_T_ENUM as "enum_new dst must be enum" ;;
      let nfields := c in
      reject_if negb (nfields =? 0) && (nregs <=? u32 (b + nfields - 1))
      as "enum_new field reg out of range" ;;
      ok)
  | JOP_ENUM_TAG => Some (
      reject_if oor a || oor b as "enum_tag reg out of range" ;;
      reject_if not_kind a JELLO_T_I32 || negb (is_enum_reg b) as "enum_tag types required" ;;
      ok)
  | JOP_ENUM_GET => Some (
      reject_if oor a || oor b || oor c as "enum_get reg out of range" ;;
      reject_if negb (is_enum_reg b) || not_kind c JELLO_T_I32 as "enum_get types required" ;;
      ok)
  | _ => None
  end.

(** The switch: its blocks of cases in source order, then [default]. *)
Definition jello_bc_validate_insn : jello_bc_result :=
  match op_of_code (i_op ins) with
  | None => err JELLO_BC_BAD_FORMAT "unknown opcode" 0
  | Some o =>
    let blocks :=
    [validate_control o; validate_calls o; validate_const o; validate_arith o;
      validate_conv o; validate_cmp o; validate_dyn o; validate_unary o;
      validate_list_array o; validate_bytes o; validate_obj o; validate_enum o] in
    default (err JELLO_BC_BAD_FORMAT "unknown opcode" 0)
      (foldr (fun r acc => match r with Some _ => r | None => acc end) None blocks)
  end.
End Insn.

(** ** Whole-function checks *)

Definition is_op (ins : jello_insn) (o : jello_op) : bool := i_op ins =? code_of_op o.

Definition bad_target_in (ninsns tgt : Z) : bool := (tgt <? 0) || (i32 ninsns <? tgt).

(** The inner loop of [validate_switch_kind_tables]: [n] entries left, the next
    at index [i]. *)
Fixpoint check_cases (insns : list jello_insn) (ninsns table_end : Z) (i : Z) (n : nat)
  : jello_bc_result :=
  match n with
  | O => ok
  | S n' =>
    let ci := zget (mk_insn 0 0 0 0 0) insns i in
    reject_if negb (is_op ci JOP_CASE_KIND) as "switch_kind expects case_kind entries" ;;
    let ctgt := i32 (i32 table_end + i32 (i_imm ci)) in
    reject_if bad_target_in ninsns ctgt as "case_kind target out of range" ;;
    check_cases insns ninsns table_end (u32 (i + 1)) n'
  end.

(** The outer loop from [pc]; a [switch_kind] jumps over its own table.  Fuel:
    every iteration advances [pc], so [ninsns + 1] iterations reach the end. *)
Fixpoint switch_kind_loop (fuel : nat) (insns : list jello_insn) (ninsns pc : Z)
  : option jello_bc_result :=
  match fuel with
  | O => None
  | S fuel' =>
    if pc <? ninsns then
      let ins := zget (mk_insn 0 0 0 0 0) insns pc in
      if is_op ins JOP_SWITCH_KIND then
        let ncases := i_b ins in
        let table_first := u32 (pc + 1) in
        let table_end := u32 (table_first + ncases) in
        if ninsns <? table_end then
          Some (err JELLO_BC_BAD_FORMAT "switch_kind case table out of range" 0)
    else
    let dtgt := i32 (i32 table_end + i32 (i_imm ins)) in
    if bad_target_in ninsns dtgt then
      Some (err JELLO_BC_BAD_FORMAT "switch_kind default target out of range" 0)
    else
    let r := check_cases insns ninsns table_end table_first (Z.to_nat ncases) in
    if is_ok r then switch_kind_loop fuel' insns ninsns (u32 (u32 (table_end - 1) + 1))
    else Some r
    else if is_op ins JOP_CASE_KIND then
      Some (err JELLO_BC_BAD_FORMAT "case_kind without switch_kind" 0)
    else switch_kind_loop fuel' insns ninsns (u32 (pc + 1))
    else Some ok
  end.

Definition validate_switch_kind_tables (insns : list jello_insn) (ninsns : Z)
  : option jello_bc_result :=
  switch_kind_loop (S (Z.to_nat ninsns)) insns ninsns 0.

(** [validate_try_stack_linear]: one pass with a depth counter. *)
Fixpoint try_stack_loop (insns : list jello_insn) (depth : Z) : jello_bc_result :=
  match insns with
  | [] => reject_if negb (depth =? 0) as "unterminated try (linear)" ;; ok
  | ins :: rest =>
    if is_op ins JOP_TRY then try_stack_loop rest (u32 (depth + 1))
    else if is_op ins JOP_ENDTRY then
      reject_if depth =? 0 as "endtry without try (linear)" ;;
      try_stack_loop rest (u32 (depth - 1))
    else try_stack_loop rest depth
  end.

Definition validate_try_stack_linear (insns : list jello_insn) : jello_bc_result :=
  try_stack_loop insns 0.

Definition jello_bc_validate_function_semantics (insns : list jello_insn) (ninsns : Z)
  : option jello_bc_result :=
  r ← validate_switch_kind_tables insns ninsns;
  Some (if is_ok r then
      let r2 := validate_try_stack_linear insns in
      if is_ok r2 then ok else r2
    else r).
End Check.
