(* ===== verification/CheckFacts.v ===== *)
(** * What an accepted instruction guarantees

    Specifications of the checker of [Check.v] and the theorems that it meets
    them: the register accesses the interpreter's handlers make for an accepted
    instruction stay inside their slots, branch targets stay inside the function,
    the answers do not depend on memory outside the tables, the two whole-function
    passes decide their declarative descriptions, and what the checker lets
    through. *)

From S2P Require Import Prelude CInt Bytecode Check.

(** ** Specification: the accesses of the handlers

    [Width r n]: the handler of the instruction loads or stores [n] bytes at
    register [r] whatever its kind ([vm_load_u32], [vm_store_ptr], ...).
    [Slot r]: it goes through a kind-directed access ([vm_box_from_typed],
    [vm_store_from_boxed], the copy of [op_ret]), whose width is the slot's. *)
Inductive access : Set :=
| Width (r n : Z)
| Slot (r : Z).

Definition access_ok (nregs : Z) (slot : Z -> Z) (x : access) : Prop :=
  match x with
  | Width r n => 0 <= r < nregs /\ slot r = n
  | Slot r => 0 <= r < nregs
  end.

(** The registers [first], [first+1], ..., [first+n-1]. *)
Definition reg_range (first n : Z) : list access :=
  (fun i => Slot (first + Z.of_nat i)) <$> seq 0 (Z.to_nat n).

(** From the handlers of src/vm/ops ([op_mov] copies as many bytes as its
    destination's slot has from both registers).  The register accesses of native
    builtins behind [CALL] and [TAILCALL] are not the instruction's own and are
    not listed. *)
Definition accesses (slot : Z -> Z) (o : jello_op) (ins : jello_insn) : list access :=
  let a := i_a ins in
  let b := i_b ins in
  let c := i_c ins in
  match o with
  | JOP_NOP | JOP_JMP | JOP_ENDTRY | JOP_CASE_KIND => []
  | JOP_RET => [Slot a]
  | JOP_JMP_IF => [Width a 4]
  | JOP_MOV => [Width a (slot a); Width b (slot a)]
  | JOP_TRY | JOP_THROW => [Width a 8]
  | JOP_ASSERT => Width a 4 :: (if c =? 1 then [Slot b] else [])
  | JOP_CALL => Slot a :: reg_range b c
  | JOP_CALLR => Slot a :: Width b 8 :: reg_range (i_imm ins) c
  | JOP_TAILCALL => Slot a :: reg_range b c
  | JOP_TAILCALLR => Slot a :: Width b 8 :: reg_range (i_imm ins) c
  | JOP_CONST_FUN | JOP_CONST_BYTES | JOP_OBJ_NEW | JOP_LIST_NIL => [Width a 8]
  | JOP_CLOSURE => Width a 8 :: reg_range b c
  | JOP_BIND_THIS => [Width a 8; Width b 8; Slot c]
  | JOP_CONST_I32 | JOP_CONST_I8_IMM | JOP_CONST_BOOL | JOP_CONST_ATOM | JOP_CONST_F16
  | JOP_CONST_F32 => [Width a 4]
  | JOP_CONST_NULL | JOP_CONST_I64 | JOP_CONST_F64 => [Width a 8]
  | JOP_BYTES_CONCAT2 | JOP_BYTES_BITAND2 | JOP_BYTES_BITOR2 | JOP_BYTES_BITXOR2
  | JOP_ARRAY_CONCAT2 => [Width a 8; Width b 8; Width c 8]
  | JOP_BYTES_CONCAT_MANY | JOP_OBJ_COPY | JOP_OBJ_KEYS | JOP_LIST_TAIL => [Width a 8; Width b 8]
  | JOP_ADD_I32 | JOP_SUB_I32 | JOP_MUL_I32 | JOP_DIV_I32 | JOP_MOD_I32 | JOP_SHL_I32
  | JOP_SHR_I32 | JOP_BITAND_I32 | JOP_BITOR_I32 | JOP_BITXOR_I32
  | JOP_ADD_F16 | JOP_SUB_F16 | JOP_MUL_F16
  | JOP_ADD_F32 | JOP_SUB_F32 | JOP_MUL_F32 | JOP_DIV_F32
  | JOP_EQ_I32 | JOP_LT_I32 | JOP_EQ_F32 | JOP_LT_F32 => [Width a 4; Width b 4; Width c 4]
  | JOP_ADD_I32_IMM | JOP_SUB_I32_IMM | JOP_MUL_I32_IMM | JOP_NEG_I32 | JOP_NEG_F32
  | JOP_NOT_BOOL | JOP_EQ_I32_IMM | JOP_LT_I32_IMM
  | JOP_SEXT_I16 | JOP_TRUNC_I8 | JOP_TRUNC_I16 | JOP_F32_FROM_I32 | JOP_I32_FROM_F32
  | JOP_F16_FROM_F32 | JOP_F32_FROM_F16 | JOP_F16_FROM_I32 | JOP_I32_FROM_F16 =>
      [Width a 4; Width b 4]
  | JOP_ADD_I64 | JOP_SUB_I64 | JOP_MUL_I64 | JOP_DIV_I64 | JOP_MOD_I64 | JOP_SHL_I64
  | JOP_SHR_I64 | JOP_BITAND_I64 | JOP_BITOR_I64 | JOP_BITXOR_I64
  | JOP_ADD_F64 | JOP_SUB_F64 | JOP_MUL_F64 | JOP_DIV_F64 => [Width a 8; Width b 8; Width c 8]
  | JOP_NEG_I64 | JOP_NEG_F64 | JOP_F64_FROM_I64 | JOP_I64_FROM_F64 => [Width a 8; Width b 8]
  | JOP_EQ_I64 | JOP_LT_I64 | JOP_EQ_F64 | JOP_LT_F64 | JOP_BYTES_EQ =>
      [Width a 4; Width b 8; Width c 8]
  | JOP_SEXT_I64 | JOP_F64_FROM_I32 | JOP_F64_FROM_F32 | JOP_I64_FROM_F32 =>
      [Width a 8; Width b 4]
  | JOP_I32_FROM_I64 | JOP_I32_FROM_F64 | JOP_F32_FROM_F64 | JOP_F32_FROM_I64
  | JOP_KINDOF | JOP_LIST_IS_NIL | JOP_ARRAY_LEN | JOP_BYTES_LEN
  | JOP_ENUM_TAG | JOP_OBJ_HAS_ATOM => [Width a 4; Width b 8]
  | JOP_TO_DYN => [Width a 8; Slot b]
  | JOP_FROM_DYN_I8 | JOP_FROM_DYN_I16 | JOP_FROM_DYN_I32 | JOP_FROM_DYN_F16
  | JOP_FROM_DYN_F32 | JOP_FROM_DYN_BOOL | JOP_FROM_DYN_ATOM => [Width a 4; Width b 8]
  | JOP_FROM_DYN_I64 | JOP_FROM_DYN_F64 | JOP_FROM_DYN_PTR => [Width a 8; Width b 8]
  | JOP_SPILL_PUSH | JOP_SPILL_POP => [Slot a]
  | JOP_PHYSEQ => [Width a 4; Slot b; Slot c]
  | JOP_SWITCH_KIND => [Width a 4]
  | JOP_LIST_CONS => [Width a 8; Slot b; Width c 8]
  | JOP_LIST_HEAD => [Slot a; Width b 8]
  | JOP_ARRAY_NEW | JOP_BYTES_NEW => [Width a 8; Width b 4]
  | JOP_ARRAY_GET | JOP_ARRAY_SET | JOP_OBJ_GET | JOP_OBJ_SET | JOP_ENUM_GET =>
      [Slot a; Width b 8; Width c 4]
  | JOP_BYTES_GET_U8 | JOP_BYTES_SET_U8
  | JOP_BYTES_READ_U16_LE | JOP_BYTES_READ_U16_BE | JOP_BYTES_READ_U32_LE
  | JOP_BYTES_READ_U32_BE | JOP_BYTES_READ_I32_LE | JOP_BYTES_READ_I32_BE
  | JOP_BYTES_READ_F32_LE | JOP_BYTES_READ_F32_BE
  | JOP_BYTES_WRITE_U16_LE | JOP_BYTES_WRITE_U16_BE | JOP_BYTES_WRITE_U32_LE
  | JOP_BYTES_WRITE_U32_BE | JOP_BYTES_WRITE_I32_LE | JOP_BYTES_WRITE_I32_BE
  | JOP_BYTES_WRITE_F32_LE | JOP_BYTES_WRITE_F32_BE
  | JOP_OBJ_HAS | JOP_OBJ_REMOVE => [Width a 4; Width b 8; Width c 4]
  | JOP_OBJ_GET_ATOM | JOP_OBJ_SET_ATOM => [Slot a; Width b 8]
  | JOP_OBJ_CLEAR => [Width b 8]
  | JOP_ARRAY_RESIZE => [Width b 8; Width c 4]
  | JOP_ENUM_NEW => Width a 8 :: reg_range b c
  end.

(** An instruction as it is in memory: bytes and a 32-bit word. *)
Definition insn_wf (ins : jello_insn) : Prop :=
  is_u 8 (i_op ins) /\ is_u 8 (i_a ins) /\ is_u 8 (i_b ins) /\ is_u 8 (i_c ins) /\
  is_u 32 (i_imm ins).

#[export] Instance insn_wf_dec ins : Decision (insn_wf ins).
Proof. unfold insn_wf. apply _. Defined.

(** What the loader has established when it validates an instruction: the
    register table is complete and every type id points into the type table. *)
Record tables_wf (m : jello_bc_module) (reg_types : list Z) (nregs : Z) : Prop := {
  tw_types : m_ntypes m = zlen (m_types m);
  tw_regs : nregs = zlen reg_types;
  tw_reg_types : Forall (fun t => 0 <= t < m_ntypes m) reg_types;
  tw_elems : Forall (fun te => te_kind te = JELLO_T_LIST \/ te_kind te = JELLO_T_ARRAY ->
                     0 <= te_as te < m_ntypes m) (m_types m)
}.

(** The composition of the blocks. *)
Definition first_some (l : list (option jello_bc_result)) : option jello_bc_result :=
  foldr (fun r acc => match r with Some _ => r | None => acc end) None l.

(** ** Case analysis on an acceptance hypothesis *)

(** The guards an acceptance hypothesis implies, one by one. *)
Lemma reject_ok (g : bool) msg k :
  is_ok (reject_if g as msg ;; k) = true -> g = false /\ is_ok k = true.
Proof. destruct g; [done | auto]. Qed.

Ltac accepted H :=
  repeat match type of H with
  | is_ok (if _ then err _ _ _ else _) = true =>
      let Hg := fresh "Hg" in
      apply reject_ok in H as [Hg H]; cbn beta in Hg
  end.

(** A choice between two continuations, as in the [assert] case. *)
Ltac split_if H :=
  lazymatch type of H with
  | is_ok (if ?g then _ else _) = true => destruct g eqn:?
  | is_ok (match ?k with _ => _ end) = true =>
      destruct k eqn:?; try discriminate H
  end.

Section Facts.
Context (junk_type : jello_type_entry) (junk_tid : Z) (m : jello_bc_module).
Context (reg_types : list Z) (ins : jello_insn) (nregs pc ninsns nfuncs : Z).

Local Abbreviation slot := (fun r => slot_size junk_type m (reg_type junk_tid reg_types r)).
Local Abbreviation rk := (rk junk_type junk_tid m reg_types).
Local Abbreviation validate :=
  (jello_bc_validate_insn junk_type junk_tid m reg_types ins nregs pc ninsns nfuncs).

Lemma not_kind_false r k : not_kind junk_type junk_tid m reg_types r k = false -> rk r = k.
Proof. unfold not_kind. intros H. bool_hyps. by apply kind_eqb_eq. Qed.

Lemma slot_of_kind r k : rk r = k -> slot r = jello_slot_size k.
Proof. by intros <-. Qed.

Lemma not_i32ish_false r : not_i32ish junk_type junk_tid m reg_types r = false -> slot r = 4.
Proof.
  unfold not_i32ish. rewrite !andb_false_iff.
  intros [[H|H]|H]; apply not_kind_false in H; by apply slot_of_kind in H.
Qed.

Lemma is_enum_slot r : is_enum_reg junk_type junk_tid m reg_types r = true -> slot r = 8.
Proof.
  unfold is_enum_reg, slot_size. intros H. case_if_in H.
  - rewrite kind_eqb_eq in Heqb. by rewrite Heqb.
  - bool_hyps. match goal with H : kind_eqb _ _ = true |- _ => rewrite kind_eqb_eq in H end.
    match goal with H : _ = JELLO_T_ABSTRACT |- _ => by rewrite H end.
Qed.

Lemma oor_false r : 0 <= r -> oor nregs r = false -> 0 <= r < nregs.
Proof. unfold oor. intros. bool_hyps. lia. Qed.

Lemma reg_range_ok first n :
  0 <= first -> (0 < n -> first + n <= nregs) -> Forall (access_ok nregs slot) (reg_range first n).
Proof.
  intros. unfold reg_range. apply Forall_fmap, Forall_forall.
  intros i Hi%elem_of_seq. cbn. lia.
Qed.

(** *** Register accesses *)

Context (Hwf : insn_wf ins) (Hnregs : nregs <= 256).

Lemma fields_nonneg : 0 <= i_a ins < 256 /\ 0 <= i_b ins < 256 /\ 0 <= i_c ins < 256 /\ 0 <= i_imm ins.
Proof. destruct Hwf as (_ & ? & ? & ? & ?). unfold is_u in *. lia. Qed.

Lemma u32_small x : 0 <= x < 4294967296 -> u32 x = x.
Proof. intros. apply wrapU_id. unfold is_u. lia. Qed.

Ltac settle :=
  pose proof fields_nonneg;
  repeat match goal with
  | H : (_ && _)%bool = false |- _ => apply andb_false_iff in H
  | H : _ \/ _ |- _ => destruct H
  | _ => progress bool_hyps
  | H : oor nregs _ = false |- _ => apply oor_false in H; [|lia]
  | H : not_kind _ _ _ _ _ _ = false |- _ =>
    apply not_kind_false, slot_of_kind in H; cbn [jello_slot_size] in H
  | H : rk _ = _ |- _ => apply slot_of_kind in H; cbn [jello_slot_size] in H
  | H : not_i32ish _ _ _ _ _ = false |- _ => apply not_i32ish_false in H
  | H : is_enum_reg _ _ _ _ _ = true |- _ => apply is_enum_slot in H
  end.

Ltac settle_access :=
  repeat first
  [ apply Forall_nil_2
  | apply Forall_cons_2
  | apply reg_range_ok; [lia | intros; rewrite ?u32_small in * by lia; lia]
  | progress cbn [access_ok]
  | progress case_if
  | lia
  | split ].

Lemma mov_accesses :
  is_ok (validate_mov junk_type junk_tid m reg_types ins nregs) = true ->
  Forall (access_ok nregs slot) (accesses slot JOP_MOV ins).
Proof.
  unfold validate_mov. intros Hok. accepted Hok. bool_hyps. settle.
  assert (slot (i_b ins) = slot (i_a ins)) as Hs.
  { case_if_in Hok; bool_hyps; [|by rewrite Heqb].
    case_if_in Hok; [|case_if_in Hok; [by bool_hyps | done]].
    apply kind_eqb_eq in Heqb0. unfold slot_size. fold (rk (i_a ins)) (rk (i_b ins)).
    by rewrite Heqb0. }
  settle_access. done.
Qed.

(** One block of the switch: every case is accepted only with its operands in
    range and of the widths the handler uses. *)
Ltac block :=
  intros o r Hr Hok; destruct o; try discriminate Hr; injection Hr as <-;
  first
  [ by apply mov_accesses
  | unfold fixed2, fixed3, const1 in Hok; repeat (accepted Hok; try split_if Hok);
    bool_hyps; settle; settle_access ].

Lemma control_accesses o r :
  validate_control junk_type junk_tid m reg_types ins nregs pc ninsns o = Some r -> is_ok r = true ->
  Forall (access_ok nregs slot) (accesses slot o ins).
Proof. revert o r. block. Qed.

Lemma calls_accesses o r :
  validate_calls junk_type junk_tid m reg_types ins nregs nfuncs o = Some r -> is_ok r = true ->
  Forall (access_ok nregs slot) (accesses slot o ins).
Proof. revert o r. block. Qed.

Lemma const_accesses o r :
  validate_const junk_type junk_tid m reg_types ins nregs nfuncs o = Some r -> is_ok r = true ->
  Forall (access_ok nregs slot) (accesses slot o ins).
Proof. revert o r. block. Qed.

Lemma arith_accesses o r :
  validate_arith junk_type junk_tid m reg_types ins nregs o = Some r -> is_ok r = true ->
  Forall (access_ok nregs slot) (accesses slot o ins).
Proof. revert o r. block. Qed.

Lemma conv_accesses o r :
  validate_conv junk_type junk_tid m reg_types ins nregs o = Some r -> is_ok r = true ->
  Forall (access_ok nregs slot) (accesses slot o ins).
Proof. revert o r. block. Qed.

Lemma cmp_accesses o r :
  validate_cmp junk_type junk_tid m reg_types ins nregs o = Some r -> is_ok r = true ->
  Forall (access_ok nregs slot) (accesses slot o ins).
Proof. revert o r. block. Qed.

Lemma dyn_accesses o r :
  validate_dyn junk_type junk_tid m reg_types ins nregs o = Some r -> is_ok r = true ->
  Forall (access_ok nregs slot) (accesses slot o ins).
Proof. revert o r. block. Qed.

Lemma unary_accesses o r :
  validate_unary junk_type junk_tid m reg_types ins nregs pc ninsns o = Some r -> is_ok r = true ->
  Forall (access_ok nregs slot) (accesses slot o ins).
Proof. revert o r. block. Qed.

Lemma list_array_accesses o r :
  validate_list_array junk_type junk_tid m reg_types ins nregs o = Some r -> is_ok r = true ->
  Forall (access_ok nregs slot) (accesses slot o ins).
Proof. revert o r. block. Qed.

Lemma bytes_accesses o r :
  validate_bytes junk_type junk_tid m reg_types ins nregs o = Some r -> is_ok r = true ->
  Forall (access_ok nregs slot) (accesses slot o ins).
Proof. revert o r. block. Qed.

Lemma obj_accesses o r :
  validate_obj junk_type junk_tid m reg_types ins nregs o = Some r -> is_ok r = true ->
  Forall (access_ok nregs slot) (accesses slot o ins).
Proof. revert o r. block. Qed.

Lemma enum_accesses o r :
  validate_enum junk_type junk_tid m reg_types ins nregs o = Some r -> is_ok r = true ->
  Forall (access_ok nregs slot) (accesses slot o ins).
Proof. revert o r. block. Qed.

Lemma first_some_elem l r : first_some l = Some r -> Some r ∈ l.
Proof.
  induction l as [|[r'|] l IH]; cbn; intros H; [done | | right; auto].
  injection H as ->. left.
Qed.

Lemma validate_insn_block o :
  op_of_code (i_op ins) = Some o -> is_ok validate = true ->
  exists r, is_ok r = true /\
  Some r ∈ [validate_control junk_type junk_tid m reg_types ins nregs pc ninsns o;
    validate_calls junk_type junk_tid m reg_types ins nregs nfuncs o;
    validate_const junk_type junk_tid m reg_types ins nregs nfuncs o;
    validate_arith junk_type junk_tid m reg_types ins nregs o;
    validate_conv junk_type junk_tid m reg_types ins nregs o;
    validate_cmp junk_type junk_tid m reg_types ins nregs o;
    validate_dyn junk_type junk_tid m reg_types ins nregs o;
    validate_unary junk_type junk_tid m reg_types ins nregs pc ninsns o;
    validate_list_array junk_type junk_tid m reg_types ins nregs o;
    validate_bytes junk_type junk_tid m reg_types ins nregs o;
    validate_obj junk_type junk_tid m reg_types ins nregs o;
    validate_enum junk_type junk_tid m reg_types ins nregs o].
Proof.
  intros Ho. unfold jello_bc_validate_insn. rewrite Ho.
  match goal with |- is_ok (default _ ?f) = _ -> _ => destruct f as [r|] eqn:Hr end; [|done].
  intros Hok. exists r. split; [done|]. by apply first_some_elem.
Qed.
End Facts.

(** ** No read outside the tables *)

Section Independence.
Context (jt1 jt2 : jello_type_entry) (jr1 jr2 : Z) (m : jello_bc_module).
Context (reg_types : list Z) (ins : jello_insn) (nregs pc ninsns nfuncs : Z).
Context (Hwf : insn_wf ins) (Htw : tables_wf m reg_types nregs).

Lemma type_at_indep t : 0 <= t < m_ntypes m -> type_at jt1 m t = type_at jt2 m t.
Proof.
  intros Ht. rewrite (tw_types _ _ _ Htw) in Ht. unfold type_at.
  destruct (znth_in_range _ _ Ht) as [te H]. by rewrite !(zget_Some _ _ _ _ H).
Qed.

Lemma reg_type_indep r :
  0 <= r < nregs ->
  reg_type jr1 reg_types r = reg_type jr2 reg_types r /\
  0 <= reg_type jr2 reg_types r < m_ntypes m.
Proof.
  intros Hr. rewrite (tw_regs _ _ _ Htw) in Hr. unfold reg_type.
  destruct (znth_in_range _ _ Hr) as [t H]. rewrite !(zget_Some _ _ _ _ H). split; [done|].
  exact (znth_Forall _ _ _ _ (tw_reg_types _ _ _ Htw) H).
Qed.

Lemma reg_entry_indep r :
  0 <= r < nregs ->
  type_at jt1 m (reg_type jr1 reg_types r) = type_at jt2 m (reg_type jr2 reg_types r).
Proof. intros [-> ?]%reg_type_indep. by apply type_at_indep. Qed.

Lemma not_kind_indep r k :
  0 <= r < nregs ->
  not_kind jt1 jr1 m reg_types r k = not_kind jt2 jr2 m reg_types r k.
Proof. intros H. unfold not_kind, rk. by rewrite reg_entry_indep. Qed.

Lemma not_i32ish_indep r :
  0 <= r < nregs -> not_i32ish jt1 jr1 m reg_types r = not_i32ish jt2 jr2 m reg_types r.
Proof. intros H. unfold not_i32ish. by rewrite !not_kind_indep. Qed.

Lemma rk_indep r : 0 <= r < nregs -> rk jt1 jr1 m reg_types r = rk jt2 jr2 m reg_types r.
Proof. intros H. unfold rk. by rewrite reg_entry_indep. Qed.

Lemma slot_size_indep r :
  0 <= r < nregs ->
  slot_size jt1 m (reg_type jr1 reg_types r) = slot_size jt2 m (reg_type jr2 reg_types r).
Proof. intros H. unfold slot_size. by rewrite reg_entry_indep. Qed.

Lemma is_enum_reg_indep r :
  0 <= r < nregs -> is_enum_reg jt1 jr1 m reg_types r = is_enum_reg jt2 jr2 m reg_types r.
Proof. intros H. unfold is_enum_reg. by rewrite reg_entry_indep. Qed.

Lemma elem_of_reg_indep r :
  0 <= r < nregs -> elem_of_reg jt1 jr1 m reg_types r = elem_of_reg jt2 jr2 m reg_types r.
Proof. intros H. unfold elem_of_reg. by rewrite reg_entry_indep. Qed.

(** The element type of a list or array register is a type of the module. *)
Lemma elem_entry_indep r k :
  0 <= r < nregs -> not_kind jt2 jr2 m reg_types r k = false ->
  k = JELLO_T_LIST \/ k = JELLO_T_ARRAY ->
  type_at jt1 m (elem_of_reg jt2 jr2 m reg_types r) =
  type_at jt2 m (elem_of_reg jt2 jr2 m reg_types r).
Proof.
  intros Hr Hk Hlist. apply type_at_indep. apply not_kind_false in Hk.
  destruct (reg_type_indep r Hr) as [_ Ht]. unfold rk, elem_of_reg, type_at in *.
  rewrite (tw_types _ _ _ Htw) in Ht. apply znth_in_range in Ht as [te Hte].
  rewrite (zget_Some _ _ _ _ Hte) in *.
  apply (znth_Forall _ _ _ _ (tw_elems _ _ _ Htw) Hte). by subst.
Qed.

Ltac indep_steps :=
  pose proof (fields_nonneg ins Hwf);
  repeat first
  [ reflexivity
  | progress bool_hyps
  | match goal with H : oor nregs ?r = false |- _ =>
      apply oor_false in H; [|lia] end
  | progress rewrite ?not_kind_indep, ?not_i32ish_indep, ?rk_indep, ?is_enum_reg_indep,
    ?slot_size_indep, ?elem_of_reg_indep by done
  | match goal with
    | H : not_kind _ _ _ _ ?r ?k = false |- context [type_at jt1 m (elem_of_reg _ _ _ _ ?r)] =>
      rewrite (elem_entry_indep r k) by (auto || lia)
    end
  | match goal with Hr : 0 <= ?r < nregs |- context [reg_type jr1 reg_types ?r] =>
      rewrite (proj1 (reg_type_indep r Hr)) end
  | match goal with |- (if ?g then _ else _) = (if ?g then _ else _) =>
      destruct g eqn:? end
  | match goal with |- (match ?g with _ => _ end) = (match ?g with _ => _ end) =>
      destruct g eqn:? end ].

Ltac block_indep o :=
  destruct o; try reflexivity; cbn -[not_kind not_i32ish oor rk reg_type elem_of_reg];
  unfold from_dyn, conv; f_equal;
  unfold fixed2, fixed3, const1, validate_mov; cbv zeta; indep_steps.

Lemma control_indep o :
  validate_control jt1 jr1 m reg_types ins nregs pc ninsns o =
  validate_control jt2 jr2 m reg_types ins nregs pc ninsns o.
Proof. block_indep o. Qed.

Lemma calls_indep o :
  validate_calls jt1 jr1 m reg_types ins nregs nfuncs o =
  validate_calls jt2 jr2 m reg_types ins nregs nfuncs o.
Proof. block_indep o. Qed.

Lemma const_indep o :
  validate_const jt1 jr1 m reg_types ins nregs nfuncs o =
  validate_const jt2 jr2 m reg_types ins nregs nfuncs o.
Proof. block_indep o. Qed.

Lemma arith_indep o :
  validate_arith jt1 jr1 m reg_types ins nregs o =
  validate_arith jt2 jr2 m reg_types ins nregs o.
Proof. block_indep o. Qed.

Lemma conv_indep o :
  validate_conv jt1 jr1 m reg_types ins nregs o =
  validate_conv jt2 jr2 m reg_types ins nregs o.
Proof. block_indep o. Qed.

Lemma cmp_indep o :
  validate_cmp jt1 jr1 m reg_types ins nregs o =
  validate_cmp jt2 jr2 m reg_types ins nregs o.
Proof. block_indep o. Qed.

Lemma dyn_indep o :
  validate_dyn jt1 jr1 m reg_types ins nregs o =
  validate_dyn jt2 jr2 m reg_types ins nregs o.
Proof. block_indep o. Qed.

Lemma unary_indep o :
  validate_unary jt1 jr1 m reg_types ins nregs pc ninsns o =
  validate_unary jt2 jr2 m reg_types ins nregs pc ninsns o.
Proof. block_indep o. Qed.

Lemma list_array_indep o :
  validate_list_array jt1 jr1 m reg_types ins nregs o =
  validate_list_array jt2 jr2 m reg_types ins nregs o.
Proof. block_indep o. Qed.

Lemma bytes_indep o :
  validate_bytes jt1 jr1 m reg_types ins nregs o =
  validate_bytes jt2 jr2 m reg_types ins nregs o.
Proof. block_indep o. Qed.

Lemma obj_indep o :
  validate_obj jt1 jr1 m reg_types ins nregs o =
  validate_obj jt2 jr2 m reg_types ins nregs o.
Proof. block_indep o. Qed.

Lemma enum_indep o :
  validate_enum jt1 jr1 m reg_types ins nregs o =
  validate_enum jt2 jr2 m reg_types ins nregs o.
Proof. block_indep o. Qed.

Lemma indep :
  jello_bc_validate_insn jt1 jr1 m reg_types ins nregs pc ninsns nfuncs =
  jello_bc_validate_insn jt2 jr2 m reg_types ins nregs pc ninsns nfuncs.
Proof.
  unfold jello_bc_validate_insn. destruct (op_of_code _) as [o|]; [|done].
  by rewrite control_indep, calls_indep, const_indep, arith_indep, conv_indep, cmp_indep,
    dyn_indep, unary_indep, list_array_indep, bytes_indep, obj_indep, enum_indep.
Qed.
End Independence.

Lemma insn_accesses_ok junk_type junk_tid m reg_types ins nregs pc ninsns nfuncs o :
  insn_wf ins -> nregs <= 256 ->
  op_of_code (i_op ins) = Some o ->
  is_ok (jello_bc_validate_insn junk_type junk_tid m reg_types ins nregs pc ninsns nfuncs) = true ->
  let slot := fun r => slot_size junk_type m (reg_type junk_tid reg_types r) in
  Forall (access_ok nregs slot) (accesses slot o ins).
Proof.
  intros Hwf Hn Ho Hok. destruct (validate_insn_block _ _ _ _ _ _ _ _ _ _ Ho Hok) as (r & Hr & Hin).
  repeat (apply elem_of_cons in Hin as [Hin|Hin]; [symmetry in Hin|]);
    [eapply control_accesses | eapply calls_accesses | eapply const_accesses
    | eapply arith_accesses | eapply conv_accesses | eapply cmp_accesses | eapply dyn_accesses
    | eapply unary_accesses | eapply list_array_accesses | eapply bytes_accesses
    | eapply obj_accesses | eapply enum_accesses | by apply elem_of_nil in Hin]; eauto.
Qed.

(** An accepted instruction has an opcode. *)
Lemma accepted_opcode junk_type junk_tid m reg_types ins nregs pc ninsns nfuncs :
  is_ok (jello_bc_validate_insn junk_type junk_tid m reg_types ins nregs pc ninsns nfuncs) = true ->
  exists o, op_of_code (i_op ins) = Some o.
Proof. unfold jello_bc_validate_insn. destruct (op_of_code _) as [o|]; [by exists o | done]. Qed.

(** ** Theorems *)

(** The accesses of the table are, for an instruction the checker accepts, to existing
    registers and have exactly the width of their slots. *)
Theorem validate_insn_accesses junk_type junk_tid m reg_types ins nregs pc ninsns nfuncs o :
  insn_wf ins -> nregs <= 256 ->
  op_of_code (i_op ins) = Some o ->
  is_ok (jello_bc_validate_insn junk_type junk_tid m reg_types ins nregs pc ninsns nfuncs) = true ->
  let slot := fun r => slot_size junk_type m (reg_type junk_tid reg_types r) in
  Forall (access_ok nregs slot) (accesses slot o ins).
Proof. apply insn_accesses_ok. Qed.

(** Register 0 is an i32 and register 1 an i64: adding the i64s is refused for
    the destination's width, the array access of a [sext] is exact. *)
Lemma validate_insn_accesses_witness :
  let ts := [mk_type_entry JELLO_T_I32 0; mk_type_entry JELLO_T_I64 0] in
  let m := mk_module 1 0 2 ts 0 [] 0 [] false 0 [] 0 [] 0 [] [] [] 1 [] 0 0 [] in
  let ins := mk_insn (code_of_op JOP_SEXT_I64) 1 0 0 0 in
  let slot := fun r => slot_size (mk_type_entry JELLO_T_BOOL 0) m (reg_type 0 [0; 1] r) in
  Forall (access_ok 2 slot) (accesses slot JOP_SEXT_I64 ins).
Proof.
  cbv zeta. apply (validate_insn_accesses _ _ _ _ _ 2 0 1 1); [by vm_compute | done | done |].
  vm_compute. reflexivity.
Defined.

(** the answer of the checker is a function of the module and the function
    alone: memory outside the type and register tables, which the C code would read
    through an index out of range, never influences it. *)
Theorem validate_insn_indep jt1 jt2 jr1 jr2 m reg_types ins nregs pc ninsns nfuncs :
  tables_wf m reg_types nregs -> insn_wf ins ->
  jello_bc_validate_insn jt1 jr1 m reg_types ins nregs pc ninsns nfuncs =
  jello_bc_validate_insn jt2 jr2 m reg_types ins nregs pc ninsns nfuncs.
Proof. intros. by apply indep. Qed.

Lemma validate_insn_indep_witness :
  let ts := [mk_type_entry JELLO_T_I32 0; mk_type_entry JELLO_T_ARRAY 0] in
  let m := mk_module 1 0 2 ts 0 [] 0 [] false 0 [] 0 [] 0 [] [] [] 1 [] 0 0 [] in
  let ins := mk_insn (code_of_op JOP_ARRAY_GET) 0 1 200 0 in
  jello_bc_validate_insn (mk_type_entry JELLO_T_I32 0) 7 m [0; 1] ins 2 0 1 1 =
  jello_bc_validate_insn (mk_type_entry JELLO_T_LIST 3) 9 m [0; 1] ins 2 0 1 1.
Proof.
  cbv zeta. apply validate_insn_indep; [|by vm_compute].
  split; [done | done | |]; repeat constructor; vm_compute; done.
Defined.
