(* ===== verification/FunCheck.v ===== *)
(** * The whole-function passes of the checker

    [validate_switch_kind_tables] and [validate_try_stack_linear] of [Check.v]
    decide declarative properties of the instruction list ([well_tabled],
    [try_balanced]); the interpreter's [op_switch_kind] cannot reach its panics on
    a function that passed. *)

From S2P Require Import Prelude CInt Bytecode Check CheckFacts.

(** ** Specifications *)

(** [e] is the end of the table of a [switch_kind] at [pc]: its default and all its
    cases lead into the function. *)
Definition target_ok (n e : Z) (ins : jello_insn) : Prop := 0 <= e + i32 (i_imm ins) <= n.

Definition table_ok (insns : list jello_insn) (n pc : Z) (ins : jello_insn) : Prop :=
  let e := pc + 1 + i_b ins in
  e <= n /\ target_ok n e ins /\
  forall i, pc + 1 <= i < e ->
    exists ci, insns @! i = Some ci /\ is_op ci JOP_CASE_KIND = true /\ target_ok n e ci.

(** From [pc] on, the list is a sequence of plain instructions and complete
    tables. *)
Inductive well_tabled (insns : list jello_insn) (n : Z) : Z -> Prop :=
| wt_end pc : n <= pc -> well_tabled insns n pc
| wt_plain pc ins :
    insns @! pc = Some ins -> pc < n ->
    is_op ins JOP_SWITCH_KIND = false -> is_op ins JOP_CASE_KIND = false ->
    well_tabled insns n (pc + 1) -> well_tabled insns n pc
| wt_switch pc ins :
    insns @! pc = Some ins -> pc < n ->
    is_op ins JOP_SWITCH_KIND = true -> table_ok insns n pc ins ->
    well_tabled insns n (pc + 1 + i_b ins) -> well_tabled insns n pc.

(** How many instructions of a list have opcode [o]. *)
Definition count_op (o : jello_op) (l : list jello_insn) : Z :=
  zlen (filter (fun ins => is_op ins o = true) l).

(** Reading from the front with [d] open [try]s, no [endtry] lacks its [try] and
    all are closed at the end. *)
Definition try_balanced (d : Z) (l : list jello_insn) : Prop :=
  (forall k, count_op JOP_ENDTRY (take k l) <= d + count_op JOP_TRY (take k l)) /\
  count_op JOP_ENDTRY l = d + count_op JOP_TRY l.

(** ** The handler of [switch_kind]

    [op_switch_kind] of src/vm/ops/ops_arith.c: [pc] is [fr->pc], already past the
    instruction; [None] is [jello_vm_panic()]. *)
Fixpoint switch_delta (insns : list jello_insn) (kind d i : Z) (n : nat) : Z :=
  match n with
  | O => d
  | S n' =>
      let ci := zget (mk_insn 0 0 0 0 0) insns i in
      if i_a ci =? kind then i32 (i_imm ci)
      else switch_delta insns kind d (u32 (i + 1)) n'
  end.

Definition op_switch_kind (insns : list jello_insn) (ninsns : Z) (ins : jello_insn)
    (pc kind : Z) : option Z :=
  let ncases := i_b ins in
  let table_first := pc in
  let table_end := u32 (table_first + ncases) in
  if ninsns <? table_end then None
  else
    let d := switch_delta insns kind (i32 (i_imm ins)) table_first (Z.to_nat ncases) in
    let npc := i32 (i32 table_end + d) in
    if (npc <? 0) || (i32 ninsns <? npc) then None else Some (u32 npc).

(** The three instructions that carry a relative branch, and the next [pc] their
    handlers compute ([op_jmp], [op_jmp_if], [op_try] of src/vm/ops/ops_control.c):
    [pc] is [fr->pc], already past the instruction; [None] is the panic. *)
Definition is_branch (o : jello_op) : bool :=
  match o with JOP_JMP | JOP_JMP_IF | JOP_TRY => true | _ => false end.

Definition branch_npc (ins : jello_insn) (pc ninsns : Z) : option Z :=
  let d := i32 (i_imm ins) in
  let npc := i32 (i32 pc + d) in
  if (npc <? 0) || (i32 ninsns <? npc) then None else Some (u32 npc).

(** ** A concrete module for the examples

    Types: 0 = bool, 1 = i32, 2 = i64, 3 = bytes, 4 = dynamic. *)
Definition demo_types : list jello_type_entry :=
  [mk_type_entry JELLO_T_BOOL 0; mk_type_entry JELLO_T_I32 0; mk_type_entry JELLO_T_I64 0;
   mk_type_entry JELLO_T_BYTES 0; mk_type_entry JELLO_T_DYNAMIC 0].

Definition demo_module : jello_bc_module :=
  mk_module 1 0 5 demo_types 0 [] 0 [] false 0 [] 0 [] 0 [] [] [] 1 [] 0 0 [].

(** Validation of a whole instruction list, instruction by instruction as the
    loader does it, then the two passes. *)
Definition accepts (m : jello_bc_module) (reg_types : list Z) (insns : list jello_insn) : bool :=
  let n := zlen insns in
  let junk := mk_type_entry JELLO_T_BOOL 0 in
  forallb (fun p => is_ok (jello_bc_validate_insn junk 0 m reg_types p.2 (zlen reg_types)
                             (Z.of_nat p.1) n (m_nfuncs m)))
    (combine (seq 0 (length insns)) insns)
  && match jello_bc_validate_function_semantics insns n with
     | Some r => is_ok r
     | None => false
     end.

Definition insn_of (o : jello_op) (a b c imm : Z) : jello_insn :=
  mk_insn (code_of_op o) a b c imm.

(** ** Switch tables *)

Lemma is_ok_inv r : is_ok r = true <-> r_err r = JELLO_BC_OK.
Proof. apply bool_decide_eq_true. Qed.

Lemma is_op_excl ins o1 o2 : is_op ins o1 = true -> is_op ins o2 = true -> o1 = o2.
Proof. unfold is_op. intros. bool_hyps. apply code_of_op_inj. congruence. Qed.

Lemma i32_id x : INT32_MIN <= x <= INT32_MAX -> i32 x = x.
Proof.
  unfold INT32_MIN, INT32_MAX. intros. apply wrapS_id; [lia|].
  unfold is_s. change (2 ^ (32 - 1)) with 2147483648. lia.
Qed.

Lemma i32_bounds x : INT32_MIN <= i32 x <= INT32_MAX.
Proof.
  pose proof (wrapS_range 32 ltac:(lia) x) as H. unfold is_s in H.
  change (2 ^ (32 - 1)) with 2147483648 in H. unfold INT32_MIN, INT32_MAX. lia.
Qed.

(** A target test passes exactly when the exact target is in the function: a sum
    that leaves [int32_t] wraps to a negative number and is refused. *)
Lemma bad_target_spec n e d :
  0 <= e <= n -> n <= INT32_MAX -> INT32_MIN <= d <= INT32_MAX ->
  bad_target_in n (i32 (e + d)) = false <-> 0 <= e + d <= n.
Proof.
  intros He Hn Hd. unfold bad_target_in, INT32_MIN, INT32_MAX in *.
  rewrite (i32_id n) by (unfold INT32_MIN, INT32_MAX; lia).
  rewrite orb_false_iff, Z.ltb_ge, Z.ltb_ge.
  destruct (decide (e + d <= 2147483647)).
  - rewrite i32_id by (unfold INT32_MIN, INT32_MAX; lia). lia.
  - unfold wrapS. change (2 ^ (32 - 1)) with 2147483648. change (2 ^ 32) with 4294967296.
    split; [|lia]. intros [H1 H2]. zdiv.
Qed.

Section Tables.
Context (insns : list jello_insn) (n : Z).
Context (Hlen : zlen insns = n) (Hn : n <= INT32_MAX - 256) (Hwf : Forall insn_wf insns).

Lemma n_nonneg : 0 <= n.
Proof. rewrite <- Hlen. apply zlen_nonneg. Qed.

Lemma u32_pc x : 0 <= x <= n + 256 -> u32 x = x.
Proof. intros. apply u32_small. unfold INT32_MAX in Hn. lia. Qed.

Lemma insn_at pc : 0 <= pc < n -> exists ins,
  insns @! pc = Some ins /\ zget (mk_insn 0 0 0 0 0) insns pc = ins /\ 0 <= i_b ins < 256.
Proof.
  rewrite <- Hlen. intros [ins Hins]%znth_in_range. exists ins.
  split; [done|]. split; [by apply zget_Some|].
  destruct (znth_Forall _ _ _ _ Hwf Hins) as (_ & _ & Hb & _). exact Hb.
Qed.

Lemma check_cases_spec e k i :
  0 <= i -> e = i + Z.of_nat k -> e <= n ->
  is_ok (check_cases insns n e i k) = true <->
  (forall j, i <= j < e -> exists ci, insns @! j = Some ci /\
    is_op ci JOP_CASE_KIND = true /\ target_ok n e ci).
Proof.
  pose proof n_nonneg. revert i. induction k as [|k IH]; intros i Hi He Hen; cbn [check_cases].
  { split; [intros _ j Hj; lia | done]. }
  destruct (insn_at i) as (ci & Hci & -> & _); [lia|].
  rewrite (i32_id e) by (unfold INT32_MIN, INT32_MAX in *; lia).
  rewrite u32_pc by lia. unfold target_ok.
  pose proof (bad_target_spec n e (i32 (i_imm ci)) ltac:(lia)
      ltac:(unfold INT32_MAX in *; lia) (i32_bounds _)) as Hbt.
  destruct (is_op ci JOP_CASE_KIND) eqn:Hop; cbn [negb].
  2:{ split; [done|]. intros Hall. destruct (Hall i) as (ci' & H1 & H2 & _); [lia|]. congruence. }
  destruct (bad_target_in n _) eqn:Hb.
  { split; [done|]. intros Hall. destruct (Hall i) as (ci' & H1 & _ & H3); [lia|].
    assert (ci' = ci) as -> by congruence. apply Hbt in H3. congruence. }
  rewrite IH by lia. split.
  - intros Hall j Hj. destruct (decide (j = i)) as [->|]; [|apply Hall; lia].
    exists ci. split; [done|]. split; [done|]. by apply Hbt.
  - intros Hall j Hj. apply Hall. lia.
Qed.

(** One iteration of the outer loop, as a decision. *)
Lemma switch_loop_spec fuel pc :
  0 <= pc <= n -> (Z.to_nat (n - pc) < fuel)%nat ->
  exists r, switch_kind_loop fuel insns n pc = Some r /\
  (is_ok r = true <-> well_tabled insns n pc).
Proof.
  pose proof n_nonneg. revert pc. induction fuel as [|fuel IH]; intros pc Hpc Hf; [lia|].
  cbn [switch_kind_loop]. destruct (Z.ltb_spec pc n).
  2:{ exists ok. split; [done|]. split; [intros _; by apply wt_end | done]. }
  destruct (insn_at pc) as (ins & Hins & -> & Hb); [lia|].
  destruct (is_op ins JOP_SWITCH_KIND) eqn:Hsw.
  - set (e := pc + 1 + i_b ins).
    assert (u32 (u32 (pc + 1) + i_b ins) = e) as -> by (rewrite (u32_pc (pc + 1)), u32_pc by lia; done).
    rewrite (u32_pc (pc + 1)) by lia.
    assert (Hinv : well_tabled insns n pc -> table_ok insns n pc ins /\ well_tabled insns n e).
    { intros Hw. inversion Hw; subst; [lia | congruence |].
      assert (ins0 = ins) as -> by congruence. done. }
    destruct (Z.ltb_spec n e).
    { eexists. split; [done|]. split; [done|]. intros [[? _] _]%Hinv. unfold e in *. lia. }
    rewrite (i32_id e) by (unfold INT32_MIN, INT32_MAX, e in *; lia).
    pose proof (bad_target_spec n e (i32 (i_imm ins)) ltac:(unfold e; lia)
        ltac:(unfold INT32_MAX in *; lia) (i32_bounds _)) as Hbt.
    destruct (bad_target_in n _) eqn:Hbad.
    { eexists. split; [done|]. split; [done|]. intros [(_ & Ht & _) _]%Hinv.
      apply Hbt in Ht. congruence. }
    pose proof (check_cases_spec e (Z.to_nat (i_b ins)) (pc + 1) ltac:(lia)
        ltac:(unfold e; lia) ltac:(lia)) as Hcc.
    destruct (is_ok (check_cases _ _ _ _ _)) eqn:Hcases.
    + assert (u32 (u32 (e - 1) + 1) = e) as -> by
        (rewrite (u32_pc (e - 1)), u32_pc by (unfold e; lia); unfold e; lia).
      destruct (IH e) as (r & -> & Hr); [unfold e; lia | unfold e; lia |].
      exists r. split; [done|]. rewrite Hr. split; [|intros Hw; by apply Hinv].
      intros Hw. eapply wt_switch; eauto. split; [done|]. split; [by apply Hbt|].
      by apply Hcc.
    + eexists. split; [done|]. rewrite Hcases. split; [done|].
      intros [(_ & _ & Ht) _]%Hinv. apply Hcc in Ht. congruence.
  - destruct (is_op ins JOP_CASE_KIND) eqn:Hca.
    + eexists. split; [done|]. split; [done|]. intros Hw.
      inversion Hw; subst; [lia | congruence | congruence].
    + rewrite u32_pc by lia. destruct (IH (pc + 1)) as (r & -> & Hr); [lia | lia |].
      exists r. split; [done|]. rewrite Hr. split.
      * intros Hw. by eapply wt_plain.
      * intros Hw. inversion Hw; subst; [lia | done | congruence].
Qed.
End Tables.

(** Every [switch_kind] of a tabled list, wherever it is, has its table. *)
Lemma well_tabled_switch insns n pc0 :
  well_tabled insns n pc0 ->
  forall pc ins, pc0 <= pc < n -> insns @! pc = Some ins ->
  is_op ins JOP_SWITCH_KIND = true -> table_ok insns n pc ins.
Proof.
  induction 1 as [pcx ? | pc1 ins1 H1 Hlt Hs Hc _ IH | pc1 ins1 H1 Hlt Hs Ht _ IH];
    intros pc ins Hpc Hins Hop; [lia | |].
  - destruct (decide (pc = pc1)) as [->|]; [congruence | eapply IH; eauto; lia].
  - destruct (decide (pc = pc1)) as [->|]; [by simplify_eq |].
    destruct (decide (pc < pc1 + 1 + i_b ins1)); [|eapply IH; eauto; lia].
    destruct Ht as (_ & _ & Ht). destruct (Ht pc) as (ci & Hci & Hca & _); [lia|].
    simplify_eq. by pose proof (is_op_excl _ _ _ Hop Hca).
Qed.

(** Every [case_kind] belongs to the table of a [switch_kind] before it. *)
Lemma well_tabled_case insns n pc0 :
  Forall insn_wf insns -> well_tabled insns n pc0 ->
  forall pc ins, pc0 <= pc < n -> insns @! pc = Some ins ->
  is_op ins JOP_CASE_KIND = true ->
  exists sw swi, pc0 <= sw < pc /\ pc < sw + 1 + i_b swi /\ insns @! sw = Some swi /\
    is_op swi JOP_SWITCH_KIND = true.
Proof.
  intros Hwf. induction 1 as [pcx ? | pc1 ins1 H1 Hlt Hs Hc _ IH | pc1 ins1 H1 Hlt Hs Ht _ IH];
    intros pc ins Hpc Hins Hop; [lia | |].
  - destruct (decide (pc = pc1)) as [->|]; [congruence |].
    destruct (IH pc ins) as (sw & swi & ? & ?); [lia | done | done |].
    exists sw, swi. split; [lia | done].
  - destruct (decide (pc = pc1)) as [->|].
    { simplify_eq. by pose proof (is_op_excl _ _ _ Hop Hs). }
    destruct (decide (pc < pc1 + 1 + i_b ins1)); [exists pc1, ins1; split_and!; auto; lia|].
    destruct (IH pc ins) as (sw & swi & ? & ?); [lia | done | done |].
    exists sw, swi. split; [|done].
    destruct (znth_Forall _ _ _ _ Hwf H1) as (_ & _ & [? _] & _). lia.
Qed.

(** ** Try balance *)

Lemma count_op_cons o ins l :
  count_op o (ins :: l) = (if is_op ins o then 1 else 0) + count_op o l.
Proof.
  unfold count_op. rewrite filter_cons. destruct (is_op ins o) eqn:H.
  - rewrite decide_True by done. rewrite zlen_cons. lia.
  - rewrite decide_False by done. lia.
Qed.

Lemma count_op_nonneg o l : 0 <= count_op o l.
Proof. apply zlen_nonneg. Qed.

(** Balance peels off the front instruction. *)
Lemma try_balanced_cons d ins l :
  0 <= d ->
  let d' := d + (if is_op ins JOP_TRY then 1 else 0) - (if is_op ins JOP_ENDTRY then 1 else 0) in
  try_balanced d (ins :: l) <-> 0 <= d' /\ try_balanced d' l.
Proof.
  intros Hd d'. unfold try_balanced. rewrite !count_op_cons. split.
  - intros [Hp He]. split_and!.
    + specialize (Hp 1%nat). cbn [take] in Hp. rewrite ?take_0, !count_op_cons in Hp.
      unfold count_op in Hp. rewrite ?filter_nil, ?zlen_nil in Hp. unfold d'. lia.
    + intros k. specialize (Hp (S k)). cbn [take] in Hp. rewrite !count_op_cons in Hp.
      unfold d'. lia.
    + unfold d'. lia.
  - intros (Hd' & Hp & He). split; [|unfold d' in *; lia].
    intros [|k]; [cbn; unfold count_op; cbn; lia|].
    specialize (Hp k). cbn [take]. rewrite !count_op_cons. unfold d' in *. lia.
Qed.

Lemma try_stack_loop_spec l d :
  0 <= d -> d + zlen l <= UINT32_MAX ->
  is_ok (try_stack_loop l d) = true <-> try_balanced d l.
Proof.
  unfold UINT32_MAX. revert d; induction l as [|ins l IH]; intros d Hd Hl; cbn [try_stack_loop].
  - unfold try_balanced, count_op. cbn. case_if; bool_hyps; cbn; split; try done.
    + intros [_ ?]. lia.
    + intros _. split; [intros [|k]; cbn|]; lia.
  - rewrite zlen_cons in Hl. pose proof (zlen_nonneg l). rewrite try_balanced_cons by done.
    destruct (is_op ins JOP_TRY) eqn:Ht.
    + assert (is_op ins JOP_ENDTRY = false) as ->.
      { destruct (is_op ins JOP_ENDTRY) eqn:He; [|done]. by pose proof (is_op_excl _ _ _ Ht He). }
      rewrite u32_small by lia. rewrite IH by lia. rewrite Z.sub_0_r. intuition lia.
    + destruct (is_op ins JOP_ENDTRY) eqn:He.
      * destruct (Z.eqb_spec d 0).
        { split; [done | intros [? _]; lia]. }
        rewrite u32_small by lia. rewrite IH by lia. rewrite Z.add_0_r. intuition lia.
      * rewrite IH by lia. rewrite Z.add_0_r, Z.sub_0_r. intuition lia.
Qed.

(** ** The handler on tabled functions *)

Lemma switch_delta_target insns n e d kind k i :
  0 <= i -> e = i + Z.of_nat k -> e <= UINT32_MAX ->
  0 <= e + d <= n ->
  (forall j, i <= j < e -> exists ci, insns @! j = Some ci /\ target_ok n e ci) ->
  0 <= e + switch_delta insns kind d i k <= n.
Proof.
  unfold UINT32_MAX. revert i. induction k as [|k IH]; intros i Hi He Hmax Hd Hall;
    cbn [switch_delta]; [done|].
  destruct (Hall i) as (ci & Hci & Ht); [lia|]. rewrite (zget_Some _ _ _ _ Hci).
  case_if; [exact Ht|]. rewrite u32_small by lia. apply IH; try lia.
  intros j Hj. apply Hall. lia.
Qed.

Lemma validated_well_tabled insns n :
  zlen insns = n -> n <= INT32_MAX - 256 -> Forall insn_wf insns ->
  validate_switch_kind_tables insns n = Some ok -> well_tabled insns n 0.
Proof.
  intros Hl Hn Hwf Hv. pose proof (n_nonneg insns n Hl).
  destruct (switch_loop_spec insns n Hl Hn Hwf (S (Z.to_nat n)) 0) as (r & Hr & Hiff); [lia..|].
  unfold validate_switch_kind_tables in Hv. rewrite Hr in Hv. injection Hv as ->. by apply Hiff.
Qed.

(** ** Properties *)

(** C24: validate_switch_kind_tables always answers, and accepts a function exactly
    when it is a sequence of plain instructions and complete case tables with all
    targets inside the function. *)
Theorem switch_kind_tables_decides insns n :
  zlen insns = n -> n <= INT32_MAX - 256 -> Forall insn_wf insns ->
  exists r, validate_switch_kind_tables insns n = Some r /\
    (is_ok r = true <-> well_tabled insns n 0).
Proof.
  intros Hl Hn Hwf. pose proof (n_nonneg insns n Hl).
  apply switch_loop_spec; auto; lia.
Qed.

(** A two-way switch: [case_kind] entries for kinds 1 and 2. *)
Definition demo_switch : list jello_insn :=
  [insn_of JOP_SWITCH_KIND 0 2 0 0; insn_of JOP_CASE_KIND 1 0 0 1;
   insn_of JOP_CASE_KIND 2 0 0 0; insn_of JOP_NOP 0 0 0 0; insn_of JOP_RET 0 0 0 0].

Lemma switch_kind_tables_decides_witness :
  exists r, validate_switch_kind_tables demo_switch 5 = Some r /\
    (is_ok r = true <-> well_tabled demo_switch 5 0).
Proof.
  apply switch_kind_tables_decides; [done | by vm_compute |].
  apply (bool_decide_eq_true_1 (Forall insn_wf demo_switch)). vm_compute. reflexivity.
Defined.

(** C25: on a function the checker accepted, [op_switch_kind] never panics: whatever
    the kind switched on, at every [switch_kind] of the function it continues at an
    instruction of the function or at its end. *)
Theorem op_switch_kind_no_panic insns n pc ins kind :
  zlen insns = n -> n <= INT32_MAX - 256 -> Forall insn_wf insns ->
  validate_switch_kind_tables insns n = Some ok ->
  insns @! pc = Some ins -> is_op ins JOP_SWITCH_KIND = true ->
  exists npc, op_switch_kind insns n ins (pc + 1) kind = Some npc /\ 0 <= npc <= n.
Proof.
  intros Hl Hn Hwf Hv Hins Hop. pose proof (n_nonneg insns n Hl).
  pose proof (validated_well_tabled insns n Hl Hn Hwf Hv) as Hw.
  pose proof (znth_Some _ _ _ Hins) as Hpc. rewrite Hl in Hpc.
  destruct (well_tabled_switch _ _ _ Hw pc ins Hpc Hins Hop) as (He & Hd & Hc).
  destruct (znth_Forall _ _ _ _ Hwf Hins) as (_ & _ & [Hb0 Hb] & _). change (2 ^ 8) with 256 in Hb.
  set (e := pc + 1 + i_b ins) in *. unfold INT32_MAX in Hn. unfold op_switch_kind.
  rewrite (u32_small (pc + 1 + _)) by lia. fold e.
  destruct (Z.ltb_spec n e); [lia|].
  set (d := switch_delta _ _ _ _ _).
  assert (0 <= e + d <= n) as Ht.
  { apply switch_delta_target; unfold UINT32_MAX, e; try lia; [exact Hd|].
    intros j Hj. destruct (Hc j Hj) as (ci & ? & _ & ?). by exists ci. }
  rewrite (i32_id e), (i32_id (e + d)), (i32_id n) by (unfold INT32_MIN, INT32_MAX, e; lia).
  destruct (Z.ltb_spec (e + d) 0); [lia|]. destruct (Z.ltb_spec n (e + d)); [lia|].
  eexists. split; [done|]. rewrite u32_small; lia.
Qed.

Lemma op_switch_kind_no_panic_witness :
  exists npc, op_switch_kind demo_switch 5 (insn_of JOP_SWITCH_KIND 0 2 0 0) (0 + 1) 1 = Some npc /\
    0 <= npc <= 5.
Proof.
  apply (op_switch_kind_no_panic demo_switch 5 0 (insn_of JOP_SWITCH_KIND 0 2 0 0) 1).
  - reflexivity.
  - vm_compute. discriminate.
  - apply (bool_decide_eq_true_1 (Forall insn_wf demo_switch)). vm_compute. reflexivity.
  - vm_compute. reflexivity.
  - reflexivity.
  - reflexivity.
Defined.

(** C26: validate_try_stack_linear accepts exactly the functions whose [try] and
    [endtry] instructions are balanced like parentheses in program order. *)
Theorem try_stack_linear_decides insns :
  zlen insns <= UINT32_MAX ->
  is_ok (validate_try_stack_linear insns) = true <-> try_balanced 0 insns.
Proof. intros H. apply try_stack_loop_spec; lia. Qed.

Lemma try_stack_linear_decides_witness :
  let f := [insn_of JOP_TRY 0 0 0 1; insn_of JOP_NOP 0 0 0 0; insn_of JOP_ENDTRY 0 0 0 0] in
  is_ok (validate_try_stack_linear f) = true <-> try_balanced 0 f.
Proof. cbv zeta. apply try_stack_linear_decides. vm_compute. discriminate. Defined.

(** C27: the branch of an accepted [jmp], [jmp_if] or [try] never panics: the handler
    continues at exactly [pc + 1 + imm], inside the function or at its end. *)
Theorem validated_branch_in_function junk_type junk_tid m reg_types ins nregs pc ninsns nfuncs o :
  op_of_code (i_op ins) = Some o -> is_branch o = true ->
  0 <= pc < ninsns -> ninsns <= INT32_MAX ->
  is_ok (jello_bc_validate_insn junk_type junk_tid m reg_types ins nregs pc ninsns nfuncs) = true ->
  branch_npc ins (pc + 1) ninsns = Some (pc + 1 + i32 (i_imm ins)) /\
  0 <= pc + 1 + i32 (i_imm ins) <= ninsns.
Proof.
  intros Ho Hb Hpc Hn Hok.
  assert (bad_target_in ninsns (i32 (pc + 1 + i32 (i_imm ins))) = false) as Hbt.
  { unfold jello_bc_validate_insn in Hok. rewrite Ho in Hok.
    destruct o; try discriminate Hb; cbn in Hok; accepted Hok;
      unfold INT32_MAX in *;
      match goal with H : bad_target _ _ = false |- _ =>
        unfold bad_target, branch_target in H; rewrite u32_small, (i32_id (pc + 1)) in H
          by (unfold INT32_MIN, INT32_MAX; lia); exact H end. }
  pose proof (i32_bounds (i_imm ins)).
  pose proof Hbt as Hr. apply bad_target_spec in Hr; [|lia..]. split; [|done].
  unfold branch_npc, bad_target_in in *.
  rewrite (i32_id (pc + 1)) by (unfold INT32_MIN, INT32_MAX in *; lia).
  rewrite Hbt. unfold INT32_MAX in *.
  rewrite i32_id, u32_small by (unfold INT32_MIN, INT32_MAX; lia). done.
Qed.

Lemma validated_branch_in_function_witness :
  let ins := insn_of JOP_JMP 0 0 0 4294967294 in
  branch_npc ins (3 + 1) 10 = Some (3 + 1 + i32 (i_imm ins)) /\
  0 <= 3 + 1 + i32 (i_imm ins) <= 10.
Proof.
  cbv zeta.
  apply (validated_branch_in_function (mk_type_entry JELLO_T_BOOL 0) 0 demo_module []
    (insn_of JOP_JMP 0 0 0 4294967294) 0 3 10 0 JOP_JMP); try (vm_compute; reflexivity).
  - split; [lia | reflexivity].
  - vm_compute. discriminate.
Defined.

(** ** What the checker lets through *)

(** A [mov] between registers of equal slot width is accepted whatever the kinds:
    an [i64] can be moved into a [Bytes] register, and the interpreter will use it
    as a pointer. *)
Lemma mov_accepts_equal_width junk_type junk_tid m reg_types ins nregs pc ninsns nfuncs :
  op_of_code (i_op ins) = Some JOP_MOV ->
  i_a ins < nregs -> i_b ins < nregs ->
  slot_size junk_type m (reg_type junk_tid reg_types (i_a ins)) =
  slot_size junk_type m (reg_type junk_tid reg_types (i_b ins)) ->
  jello_bc_validate_insn junk_type junk_tid m reg_types ins nregs pc ninsns nfuncs = ok.
Proof.
  intros Ho Ha Hb Hs. unfold jello_bc_validate_insn. rewrite Ho. cbn.
  unfold validate_mov, oor. rewrite Hs, Z.eqb_refl.
  destruct (Z.leb_spec nregs (i_a ins)); [lia|]. destruct (Z.leb_spec nregs (i_b ins)); [lia|].
  cbn [orb]. repeat case_if; try done. bool_hyps.
  unfold slot_size in *. pose proof (slot_size_4_8
    (te_kind (type_at junk_type m (reg_type junk_tid reg_types (i_b ins))))).
  match goal with H : (_ && _)%bool = false |- _ => apply andb_false_iff in H as [H|H] end;
    bool_hyps; lia.
Qed.

(** An integer constant moved into a [Bytes] register. *)
Example forged_pointer_accepted :
  accepts demo_module [2; 3] [insn_of JOP_MOV 1 0 0 0; insn_of JOP_RET 1 0 0 0] = true.
Proof. reflexivity. Qed.

(** A branch into the middle of a case table is accepted; the instruction it
    reaches is [case_kind], whose handler [op_case_kind] aborts the process. *)
Example jump_into_table_accepted :
  let f := [insn_of JOP_JMP 0 0 0 1; insn_of JOP_SWITCH_KIND 0 1 0 0;
            insn_of JOP_CASE_KIND 0 0 0 0; insn_of JOP_RET 0 0 0 0] in
  accepts demo_module [1] f = true /\
  branch_npc (insn_of JOP_JMP 0 0 0 1) 1 4 = Some 2 /\
  (i_op <$> f @! 2) = Some (code_of_op JOP_CASE_KIND).
Proof. vm_compute. done. Qed.

(** Nothing requires a function to end in a return: after this accepted [nop] the
    next [pc] is the end of the instruction array, which [vm_exec_loop] tests only
    in debug builds. *)
Example fall_through_accepted : accepts demo_module [] [insn_of JOP_NOP 0 0 0 0] = true.
Proof. reflexivity. Qed.

(** A call of a native builtin is accepted whatever the kind of its destination:
    [Math.abs] (12) stores eight bytes into this four-byte register. *)
Example native_result_width_unchecked :
  accepts demo_module [1] [insn_of JOP_CALL 0 0 0 12; insn_of JOP_RET 0 0 0 0] = true.
Proof. reflexivity. Qed.
