(* ===== verification/Loader.v ===== *)
(** * The bytecode loader

    Model of src/src/bytecode/loader.c.  [jello_bc_read] turns a byte buffer into
    a module; every size, index and count in the buffer is attacker controlled.
    The reader is a state monad over the offset; besides a value and an error it
    has the outcome [Crash]: an access outside the buffer or outside a block the
    loader has allocated, or a pass of the checker that does not end.  Allocation is the parameter [oom]: [oom n] tells
    whether the [n]-th allocation of the run fails. *)

From S2P Require Import Prelude CInt Memory Bytecode Check.

(** ** The reader monad *)

Record rd_state : Set := mk_rd {
  off : Z;        (* size_t off *)
  nalloc : Z      (* allocations made so far *)
}.

Inductive outcome (A : Type) : Type :=
| Ret (a : A) (s : rd_state)
| Err (e : jello_bc_result)
| Crash.
Arguments Ret {A} _ _.
Arguments Err {A} _.
Arguments Crash {A}.

Definition rd (A : Type) : Type := rd_state -> outcome A.

#[export] Instance rd_ret : MRet rd := fun A a s => Ret a s.

#[export] Instance rd_bind : MBind rd := fun A B k m s =>
  match m s with
  | Ret a s' => k a s'
  | Err e => Err e
  | Crash => Crash
  end.

Definition fail {A} (e : jello_bc_error) (msg : string) (back : Z) : rd A :=
  fun s => Err (err e msg (off s - back)).

Definition crash {A} : rd A := fun _ => Crash.

Definition get_off : rd Z := fun s => Ret (off s) s.

Definition set_off (o : Z) : rd () := fun s => Ret () (mk_rd o (nalloc s)).

(** [if(g) { jello_bc_free(m); *out = NULL; return err(e, msg, r.off - back); }] *)
Notation "'bail_if' g 'with' e 'as' msg 'back' n ;; k" :=
  (if g then fail e msg n else k)
  (at level 100, g at level 9, e at level 9, msg at level 9, n at level 9, k at level 200,
   right associativity).

(** A result of the validator whose offset the loader overwrites. *)
Definition check_result (vr : jello_bc_result) : rd () := fun s =>
  if is_ok vr then Ret () s else Err (mk_result (r_err vr) (r_msg vr) (off s)).

(** [for(i = 0; i < n; i++)] filling an array of [n] elements. *)
Fixpoint for_ {A} (n : nat) (body : rd A) : rd (list A) :=
  match n with
  | O => mret []
  | S n' => x ← body; xs ← for_ n' body; mret (x :: xs)
  end.

Definition JELLO_FUN_VARARGS_TAG : Z := 0x40000000.

(** The bytes of a C string: those before the first NUL. *)
Fixpoint cstr (l : list Z) : list Z :=
  match l with
  | [] => []
  | b :: l' => if b =? 0 then [] else b :: cstr l'
  end.

(** The bytes of ["__proto__"]. *)
Definition proto_name : list Z := [95; 95; 112; 114; 111; 116; 111; 95; 95].

Definition proto_enabled_of (natoms : Z) (atoms : list (list Z)) : bool :=
  (JELLO_ATOM___PROTO__ <? natoms) &&
  match atoms @! JELLO_ATOM___PROTO__ with
  | Some a => bool_decide (cstr a = proto_name)
  | None => false
  end.

(** [types[i].as.... = p0] for the kinds that have a payload; the array is
    zero-initialised. *)
Definition type_payload (k : jello_type_kind) (p0 : Z) : Z :=
  match k with
  | JELLO_T_LIST | JELLO_T_ARRAY | JELLO_T_FUNCTION | JELLO_T_ABSTRACT => p0
  | _ => 0
  end.

Definition validate_type_entry (t : jello_type_entry) (ntypes nsigs : Z) : jello_bc_result :=
  match te_kind t with
  | JELLO_T_LIST | JELLO_T_ARRAY =>
      if ntypes <=? te_as t then err JELLO_BC_BAD_FORMAT "bad elem type id" 0 else ok
  | JELLO_T_FUNCTION =>
      let sig_id := Z.land (te_as t) (UINT32_MAX - JELLO_FUN_VARARGS_TAG) in
      if nsigs <=? sig_id then err JELLO_BC_BAD_FORMAT "bad signature id" 0 else ok
  | _ => ok
  end.

Inductive read_result : Type :=
| Returned (r : jello_bc_result) (out : option jello_bc_module)
| Crashed.

Section Loader.
Context (junk_type : jello_type_entry) (junk_tid : Z) (junk_byte : Z).
Context (oom : Z -> bool).
Context (data : list Z).

Definition rd_need (s : rd_state) (k : Z) : bool := u64 (off s + k) <=? zlen data.

Definition advance (s : rd_state) (k : Z) : rd_state := mk_rd (off s + k) (nalloc s).

Definition rd_eof {A} : rd A := fail JELLO_BC_EOF "unexpected EOF" 0.

Definition rd_u8 : rd Z := fun s =>
  if negb (rd_need s 1) then rd_eof s else
  match data @! (off s) with
  | Some b => Ret b (advance s 1)
  | None => Crash
  end.

Definition rd_u16 : rd Z := fun s =>
  if negb (rd_need s 2) then rd_eof s else
  match data @! (off s), data @! (off s + 1) with
  | Some b0, Some b1 => Ret (u16 (Z.lor b0 (u16 (Z.shiftl b1 8)))) (advance s 2)
  | _, _ => Crash
  end.

Definition rd_u32 : rd Z := fun s =>
  if negb (rd_need s 4) then rd_eof s else
  match data @! (off s), data @! (off s + 1), data @! (off s + 2), data @! (off s + 3) with
  | Some b0, Some b1, Some b2, Some b3 =>
    Ret (Z.lor (Z.lor (Z.lor b0 (u32 (Z.shiftl b1 8))) (u32 (Z.shiftl b2 16)))
        (u32 (Z.shiftl b3 24)))
      (advance s 4)
  | _, _, _, _ => Crash
  end.

(** [if(!rd_need(&r, len)) return err(EOF, msg); memcpy(.., r.p + r.off, len);
    r.off += len;] *)
Definition rd_block (len : Z) (msg : string) : rd (list Z) := fun s =>
  if negb (rd_need s len) then fail JELLO_BC_EOF msg 0 s else
  if (0 <=? off s) && (off s + len <=? zlen data) then
    Ret (take (Z.to_nat len) (drop (Z.to_nat (off s)) data)) (advance s len)
  else Crash.

(** The same without the copy. *)
Definition rd_skip (len : Z) (msg : string) : rd () := fun s =>
  if negb (rd_need s len) then fail JELLO_BC_EOF msg 0 s else Ret () (advance s len).

(** [p = malloc(..); if(!p) return err(OUT_OF_MEMORY, msg, o);] *)
Definition malloc_at (o : Z) (msg : string) : rd () := fun s =>
  if oom (nalloc s) then Err (err JELLO_BC_OUT_OF_MEMORY msg o)
  else Ret () (mk_rd (off s) (nalloc s + 1)).

Definition malloc (msg : string) : rd () := fun s => malloc_at (off s) msg s.

(** *** Header *)

(** From the version word on; the magic is read by [jello_bc_read]. *)
Definition read_header : rd jello_bc_module :=
  version ← rd_u32;
  bail_if (negb (version =? 1)) with JELLO_BC_UNSUPPORTED_VERSION
  as "unsupported version" back 4 ;;
  features ← rd_u32;
  ntypes ← rd_u32;
  nsigs ← rd_u32;
  natoms ← rd_u32;
  nfuncs ← rd_u32;
  entry ← rd_u32;
  bail_if (nfuncs <=? entry) with JELLO_BC_BAD_FORMAT as "entry out of range" back 4 ;;
  '(nconst_i64, nconst_f64) ←
  (if has_feature features JELLO_BC_FEAT_CONST64 then
      a ← rd_u32; b ← rd_u32; mret (a, b)
    else mret (0, 0));
  nconst_bytes ←
  (if has_feature features JELLO_BC_FEAT_CONSTBYTES then rd_u32 else mret 0);
  mret (mk_module version features ntypes [] nsigs [] natoms [] false
      nconst_i64 [] nconst_f64 [] nconst_bytes [] [] [] nfuncs [] entry 0 []).

(** *** Type table *)

Definition read_type (ntypes nsigs : Z) : rd jello_type_entry :=
  kind_u8 ← rd_u8;
  _ ← rd_u8;
  _ ← rd_u16;
  p0 ← rd_u32;
  _ ← rd_u32;
  match kind_of_code kind_u8 with
  | None => fail JELLO_BC_BAD_FORMAT "unknown type kind" 0
  | Some k =>
    let t := mk_type_entry k (type_payload k p0) in
    _ ← check_result (validate_type_entry t ntypes nsigs);
    mret t
  end.

Definition read_types (ntypes nsigs : Z) : rd (list jello_type_entry) :=
  if 0 <? ntypes then
    _ ← malloc "oom types";
  for_ (Z.to_nat ntypes) (read_type ntypes nsigs)
  else mret [].

(** *** Signature table *)

Definition read_type_id (ntypes : Z) (msg : string) : rd Z :=
  a ← rd_u32;
  bail_if (ntypes <=? a) with JELLO_BC_BAD_FORMAT as msg back 4 ;;
  mret a.

Definition read_sig (ntypes : Z) : rd jello_fun_sig :=
  ret ← rd_u32;
  nargs ← rd_u16;
  _ ← rd_u16;
  bail_if (ntypes <=? ret) with JELLO_BC_BAD_FORMAT as "sig ret type out of range" back 0 ;;
  args ← (if 0 <? nargs then
      _ ← malloc "oom sig args";
    for_ (Z.to_nat nargs) (read_type_id ntypes "sig arg type out of range")
    else mret []);
  mret (mk_fun_sig ret nargs args).

Definition read_sigs (ntypes nsigs : Z) : rd (list jello_fun_sig) :=
  if 0 <? nsigs then
    _ ← malloc "oom sigs";
  for_ (Z.to_nat nsigs) (read_sig ntypes)
  else mret [].

(** *** Atoms, in two passes *)

Definition atom_eof : string := "unexpected EOF in atom bytes".

Fixpoint atoms_pass1 (n : nat) (total : Z) : rd (list Z * Z) :=
  match n with
  | O => mret ([], total)
  | S n' =>
    len ← rd_u32;
    _ ← (if 0 <? len then rd_skip len atom_eof else mret ());
    '(lens, total') ← atoms_pass1 n' (u64 (total + u64 (len + 1)));
    mret (len :: lens, total')
  end.

(** [w] is the write position in the block of [total] bytes; an atom is the
    string its pointer designates, kept with the length it was written with. *)
Fixpoint atoms_pass2 (lens : list Z) (total w : Z) : rd (list (list Z)) :=
  match lens with
  | [] => mret []
  | len_i :: lens' =>
    len ← rd_u32;
    bail_if (negb (len =? len_i)) with JELLO_BC_BAD_FORMAT as "atom length mismatch" back 4 ;;
    bs ← (if 0 <? len then rd_block len atom_eof else mret []);
    if total <? w + len + 1 then crash else
    atoms ← atoms_pass2 lens' total (w + len + 1);
    mret (bs :: atoms)
  end.

Definition read_atoms (natoms : Z) : rd (list (list Z)) :=
  if 0 <? natoms then
    atoms_start ← get_off;
  _ ← malloc "oom atom lens";
  '(lens, total) ← atoms_pass1 (Z.to_nat natoms) 0;
  _ ← malloc_at atoms_start "oom atoms";
  _ ← malloc_at atoms_start "oom atoms_data";
  _ ← set_off atoms_start;
  atoms_pass2 lens total 0
  else mret [].

(** *** 64-bit constant pools *)

Definition read_u64 : rd Z :=
  lo ← rd_u32;
  hi ← rd_u32;
  mret (Z.lor lo (Z.shiftl hi 32)).

Definition read_const_i64 : rd Z := u ← read_u64; mret (i64 u).

Definition read_pool {A} (n : Z) (msg : string) (body : rd A) : rd (list A) :=
  if 0 <? n then
    _ ← malloc msg;
  for_ (Z.to_nat n) body
  else mret [].

Definition read_const64 (m : jello_bc_module) : rd (list Z * list Z) :=
  if has_feature (m_features m) JELLO_BC_FEAT_CONST64 then
    xs ← read_pool (m_nconst_i64 m) "oom const_i64" read_const_i64;
  ys ← read_pool (m_nconst_f64 m) "oom const_f64" read_u64;
  mret (xs, ys)
  else mret ([], []).

(** *** Bytes pool, in two passes; [total] is a [uint32_t] *)

Definition bytes_eof : string := "unexpected EOF in const_bytes payload".

Fixpoint bytes_pass1 (n : nat) (total : Z) : rd (list (Z * Z) * Z) :=
  match n with
  | O => mret ([], total)
  | S n' =>
    len ← rd_u32;
    _ ← (if 0 <? len then rd_skip len bytes_eof else mret ());
    '(idx, total') ← bytes_pass1 n' (u32 (total + len));
    mret ((len, total) :: idx, total')
  end.

Fixpoint bytes_pass2 (idx : list (Z * Z)) (blob : list Z) : rd (list Z) :=
  match idx with
  | [] => mret blob
  | (len_i, off_i) :: idx' =>
    len ← rd_u32;
    bail_if (negb (len =? len_i)) with JELLO_BC_BAD_FORMAT
    as "const_bytes length mismatch" back 4 ;;
    if 0 <? len then
      bs ← rd_block len bytes_eof;
    match block_write blob off_i bs with
    | Some blob' => bytes_pass2 idx' blob'
    | None => crash
    end
    else bytes_pass2 idx' blob
  end.

Definition malloc2 (msg : string) : rd () := fun s =>
  if oom (nalloc s) || oom (nalloc s + 1) then
    Err (err JELLO_BC_OUT_OF_MEMORY msg (off s))
  else Ret () (mk_rd (off s) (nalloc s + 2)).

Definition read_const_bytes (m : jello_bc_module) : rd (list Z * list Z * list Z) :=
  if has_feature (m_features m) JELLO_BC_FEAT_CONSTBYTES then
    let n := m_nconst_bytes m in
  if 0 <? n then
    _ ← malloc2 "oom const_bytes index";
  pool_start ← get_off;
  '(idx, total) ← bytes_pass1 (Z.to_nat n) 0;
  _ ← (if 0 <? total then malloc "oom const_bytes data" else mret ());
  _ ← set_off pool_start;
  blob ← bytes_pass2 idx (replicate (Z.to_nat total) junk_byte);
  mret (map fst idx, map snd idx, blob)
  else mret ([], [], [])
  else mret ([], [], []).

(** *** Source files *)

Definition read_source_file : rd (list Z) :=
  len ← rd_u32;
  o ← get_off;
  s ← rd_block len "unexpected EOF in source_files";
  _ ← malloc_at o "oom source_file";
  mret s.

Definition read_source_files (m : jello_bc_module) : rd (Z * list (list Z)) :=
  if has_feature (m_features m) JELLO_BC_FEAT_LINE_TABLE then
    nsource ← rd_u32;
  files ← read_pool nsource "oom source_files" read_source_file;
  mret (nsource, files)
  else mret (0, []).

(** *** Functions *)

Definition read_reg_types (ntypes nregs : Z) : rd (list Z) :=
  read_pool nregs "oom reg_types" (read_type_id ntypes "reg type out of range").

Definition read_lines (features ninsns : Z) : rd (Z * list Z) :=
  if has_feature features JELLO_BC_FEAT_LINE_TABLE then
    source_file ← rd_u16;
  lines ← read_pool ninsns "oom lines"
  (if has_feature features JELLO_BC_FEAT_LINE_COL then rd_u32 else rd_u16);
  mret (source_file, lines)
  else mret (0, []).

Definition read_insn : rd jello_insn :=
  op ← rd_u8;
  a ← rd_u8;
  b ← rd_u8;
  c ← rd_u8;
  imm ← rd_u32;
  mret (mk_insn op a b c imm).

Fixpoint read_insns (m : jello_bc_module) (reg_types : list Z) (nregs ninsns : Z)
    (n : nat) (j : Z) : rd (list jello_insn) :=
  match n with
  | O => mret []
  | S n' =>
    ins ← read_insn;
    _ ← check_result (jello_bc_validate_insn junk_type junk_tid m reg_types ins
        nregs j ninsns (m_nfuncs m));
    rest ← read_insns m reg_types nregs ninsns n' (j + 1);
    mret (ins :: rest)
  end.

Definition read_code (m : jello_bc_module) (reg_types : list Z) (nregs ninsns : Z)
  : rd (list jello_insn) :=
  if 0 <? ninsns then
    _ ← malloc "oom insns";
  insns ← read_insns m reg_types nregs ninsns (Z.to_nat ninsns) 0;
  match jello_bc_validate_function_semantics insns ninsns with
  | Some vr => _ ← check_result vr; mret insns
  | None => crash
  end
  else mret [].

Definition read_function (m : jello_bc_module) : rd jello_bc_function :=
  nregs ← rd_u32;
  cap_start ← (if has_feature (m_features m) JELLO_BC_FEAT_CAP_START then rd_u32
    else mret 0);
  ninsns ← rd_u32;
  bail_if (256 <? nregs) with JELLO_BC_BAD_FORMAT as "nregs > 256" back 8 ;;
  reg_types ← read_reg_types (m_ntypes m) nregs;
  '(source_file, lines) ← read_lines (m_features m) ninsns;
  insns ← read_code m reg_types nregs ninsns;
  mret (mk_function nregs cap_start reg_types ninsns insns source_file lines ninsns).

Definition read_functions (m : jello_bc_module) : rd (list jello_bc_function) :=
  read_pool (m_nfuncs m) "oom funcs" (read_function m).

(** *** The module

    The validator never looks at [m->funcs], which the loader fills last. *)
Definition read_body : rd jello_bc_module :=
  h ← read_header;
  types ← read_types (m_ntypes h) (m_nsigs h);
  sigs ← read_sigs (m_ntypes h) (m_nsigs h);
  atoms ← read_atoms (m_natoms h);
  '(ci64, cf64) ← read_const64 h;
  '(blen, boff, bdata) ← read_const_bytes h;
  '(nsource, files) ← read_source_files h;
  let m funcs :=
  mk_module (m_version h) (m_features h) (m_ntypes h) types (m_nsigs h) sigs
    (m_natoms h) atoms (proto_enabled_of (m_natoms h) atoms)
    (m_nconst_i64 h) ci64 (m_nconst_f64 h) cf64
    (m_nconst_bytes h) blen boff bdata
    (m_nfuncs h) funcs (m_entry h) nsource files in
  funcs ← read_functions (m []);
  mret (m funcs).

(** On an end of file inside the magic word the C code returns without freeing
    the module or resetting [*out]. *)
Definition jello_bc_read (out_is_null : bool) : read_result :=
  if out_is_null then Returned (err JELLO_BC_BAD_FORMAT "out is NULL" 0) None else
  if oom 0 then Returned (err JELLO_BC_OUT_OF_MEMORY "oom module" 0) None else
  match rd_u32 (mk_rd 0 1) with
  | Crash => Crashed
  | Err e => Returned e (Some empty_module)
  | Ret magic s =>
    if negb (magic =? JELLO_BC_MAGIC) then
      Returned (err JELLO_BC_BAD_MAGIC "bad magic" (off s - 4)) None
    else
    match read_body s with
    | Crash => Crashed
    | Err e => Returned e None
    | Ret m _ => Returned ok (Some m)
    end
  end.
End Loader.
