(* ===== verification/LoaderSpec.v ===== *)
(** * The file format and the modules the loader may produce

    Specification side of the loader: [module_ok] is the invariant of a loaded
    module, on which the interpreter relies; [encode] is the on-disk format, as
    the comment of loader.c describes it (with the [CAP_START], [LINE_TABLE] and
    [LINE_COL] extensions, which the comment does not mention). *)

From S2P Require Import Prelude CInt Memory Bytecode Check CheckFacts FunCheck Loader.

(** ** Well-formed modules *)

Definition is_tid (ntypes t : Z) : Prop := 0 <= t < ntypes.

Definition type_ok (ntypes nsigs : Z) (t : jello_type_entry) : Prop :=
  is_u 32 (te_as t) /\
  match te_kind t with
  | JELLO_T_LIST | JELLO_T_ARRAY => te_as t < ntypes
  | JELLO_T_FUNCTION => Z.land (te_as t) (UINT32_MAX - JELLO_FUN_VARARGS_TAG) < nsigs
  | JELLO_T_ABSTRACT => True
  | _ => te_as t = 0
  end.

Definition sig_ok (ntypes : Z) (s : jello_fun_sig) : Prop :=
  is_tid ntypes (sig_ret s) /\ is_u 16 (sig_nargs s) /\ sig_nargs s = zlen (sig_args s) /\
  Forall (is_tid ntypes) (sig_args s).

(** A length-prefixed string of bytes. *)
Definition block_ok (l : list Z) : Prop := is_u 32 (zlen l) /\ Forall is_byte l.

(** Where each of consecutive blocks starts. *)
Fixpoint starts (o : Z) (blocks : list (list Z)) : list Z :=
  match blocks with
  | [] => []
  | x :: l => o :: starts (o + zlen x) l
  end.

(** The pool of byte constants is the concatenation of its elements, indexed by
    length and offset. *)
Definition pool_ok (lens offs blob : list Z) : Prop :=
  exists blocks, lens = zlen <$> blocks /\ offs = starts 0 blocks /\ blob = concat blocks /\
    block_ok blob.

Section ModuleOk.
Context (junk_type : jello_type_entry) (junk_tid : Z).

Definition insn_ok (m : jello_bc_module) (f : jello_bc_function) (pc : Z)
    (ins : jello_insn) : Prop :=
  insn_wf ins /\
  is_ok (jello_bc_validate_insn junk_type junk_tid m (f_reg_types f) ins (f_nregs f) pc
      (f_ninsns f) (m_nfuncs m)) = true.

Definition lines_ok (features : Z) (f : jello_bc_function) : Prop :=
  if has_feature features JELLO_BC_FEAT_LINE_TABLE then
    is_u 16 (f_source_file f) /\ zlen (f_lines f) = f_ninsns f /\
  Forall (is_u (if has_feature features JELLO_BC_FEAT_LINE_COL then 32 else 16)) (f_lines f)
  else f_source_file f = 0 /\ f_lines f = [].

Record function_ok (m : jello_bc_module) (f : jello_bc_function) : Prop := {
  fo_nregs : f_nregs f = zlen (f_reg_types f);
  fo_max : f_nregs f <= 256;
  fo_regs : Forall (is_tid (m_ntypes m)) (f_reg_types f);
  fo_cap : if has_feature (m_features m) JELLO_BC_FEAT_CAP_START
  then is_u 32 (f_cap_start f) else f_cap_start f = 0;
  fo_ninsns : f_ninsns f = zlen (f_insns f);
  fo_size : f_ninsns f <= INT32_MAX - 256;
  fo_insns : forall pc ins, f_insns f @! pc = Some ins -> insn_ok m f pc ins;
  fo_tables : well_tabled (f_insns f) (f_ninsns f) 0;
  fo_try : try_balanced 0 (f_insns f);
  fo_lines : lines_ok (m_features m) f;
  fo_nlines : f_nlines f = f_ninsns f
}.

Record module_ok (m : jello_bc_module) : Prop := {
  mo_version : m_version m = 1;
  mo_features : is_u 32 (m_features m);
  mo_entry : 0 <= m_entry m < m_nfuncs m;
  mo_ntypes : is_u 32 (m_ntypes m) /\ m_ntypes m = zlen (m_types m);
  mo_types : Forall (type_ok (m_ntypes m) (m_nsigs m)) (m_types m);
  mo_nsigs : is_u 32 (m_nsigs m) /\ m_nsigs m = zlen (m_sigs m);
  mo_sigs : Forall (sig_ok (m_ntypes m)) (m_sigs m);
  mo_natoms : is_u 32 (m_natoms m) /\ m_natoms m = zlen (m_atoms m);
  mo_atoms : Forall block_ok (m_atoms m);
  mo_proto : m_proto_enabled m = proto_enabled_of (m_natoms m) (m_atoms m);
  mo_const64 : has_feature (m_features m) JELLO_BC_FEAT_CONST64 = false ->
  m_nconst_i64 m = 0 /\ m_nconst_f64 m = 0;
  mo_ni64 : is_u 32 (m_nconst_i64 m) /\ m_nconst_i64 m = zlen (m_const_i64 m);
  mo_i64 : Forall (is_s 64) (m_const_i64 m);
  mo_nf64 : is_u 32 (m_nconst_f64 m) /\ m_nconst_f64 m = zlen (m_const_f64 m);
  mo_f64 : Forall (is_u 64) (m_const_f64 m);
  mo_constbytes : has_feature (m_features m) JELLO_BC_FEAT_CONSTBYTES = false ->
  m_nconst_bytes m = 0;
  mo_nbytes : is_u 32 (m_nconst_bytes m) /\ m_nconst_bytes m = zlen (m_const_bytes_len m);
  mo_bytes : pool_ok (m_const_bytes_len m) (m_const_bytes_off m) (m_const_bytes_data m);
  mo_nfuncs : is_u 32 (m_nfuncs m) /\ m_nfuncs m = zlen (m_funcs m);
  mo_funcs : Forall (function_ok m) (m_funcs m);
  mo_linetable : has_feature (m_features m) JELLO_BC_FEAT_LINE_TABLE = false ->
  m_nsource_files m = 0;
  mo_nsource : is_u 32 (m_nsource_files m) /\ m_nsource_files m = zlen (m_source_files m);
  mo_source : Forall block_ok (m_source_files m)
}.
End ModuleOk.

(** ** The on-disk format *)

Definition enc_block (l : list Z) : list Z := le_bytes 4 (zlen l) ++ l.

Definition enc_type (t : jello_type_entry) : list Z :=
  le_bytes 1 (code_of_kind (te_kind t)) ++ le_bytes 1 0 ++ le_bytes 2 0 ++
  le_bytes 4 (te_as t) ++ le_bytes 4 0.

Definition enc_sig (s : jello_fun_sig) : list Z :=
  le_bytes 4 (sig_ret s) ++ le_bytes 2 (sig_nargs s) ++ le_bytes 2 0 ++
  concat (le_bytes 4 <$> sig_args s).

Definition enc_insn (i : jello_insn) : list Z :=
  le_bytes 1 (i_op i) ++ le_bytes 1 (i_a i) ++ le_bytes 1 (i_b i) ++ le_bytes 1 (i_c i) ++
  le_bytes 4 (i_imm i).

Definition enc_function (features : Z) (f : jello_bc_function) : list Z :=
  le_bytes 4 (f_nregs f) ++
  (if has_feature features JELLO_BC_FEAT_CAP_START then le_bytes 4 (f_cap_start f) else []) ++
  le_bytes 4 (f_ninsns f) ++
  concat (le_bytes 4 <$> f_reg_types f) ++
  (if has_feature features JELLO_BC_FEAT_LINE_TABLE then
     le_bytes 2 (f_source_file f) ++
     concat (le_bytes (if has_feature features JELLO_BC_FEAT_LINE_COL then 4 else 2)
               <$> f_lines f)
   else []) ++
  concat (enc_insn <$> f_insns f).

Definition enc_header (m : jello_bc_module) : list Z :=
  le_bytes 4 (m_version m) ++ le_bytes 4 (m_features m) ++ le_bytes 4 (m_ntypes m) ++
  le_bytes 4 (m_nsigs m) ++ le_bytes 4 (m_natoms m) ++ le_bytes 4 (m_nfuncs m) ++
  le_bytes 4 (m_entry m) ++
  (if has_feature (m_features m) JELLO_BC_FEAT_CONST64 then
     le_bytes 4 (m_nconst_i64 m) ++ le_bytes 4 (m_nconst_f64 m) else []) ++
  (if has_feature (m_features m) JELLO_BC_FEAT_CONSTBYTES then
     le_bytes 4 (m_nconst_bytes m) else []).

(** The [i]-th byte constant. *)
Definition slice (l : list Z) (o n : Z) : list Z := take (Z.to_nat n) (drop (Z.to_nat o) l).

Definition enc_pool (lens offs blob : list Z) : list Z :=
  concat ((fun p => enc_block (slice blob p.2 p.1)) <$> combine lens offs).

Definition encode_body (m : jello_bc_module) : list Z :=
  enc_header m ++
  concat (enc_type <$> m_types m) ++
  concat (enc_sig <$> m_sigs m) ++
  concat (enc_block <$> m_atoms m) ++
  concat (le_bytes 8 <$> m_const_i64 m) ++
  concat (le_bytes 8 <$> m_const_f64 m) ++
  enc_pool (m_const_bytes_len m) (m_const_bytes_off m) (m_const_bytes_data m) ++
  (if has_feature (m_features m) JELLO_BC_FEAT_LINE_TABLE then
     le_bytes 4 (m_nsource_files m) ++ concat (enc_block <$> m_source_files m) else []) ++
  concat (enc_function (m_features m) <$> m_funcs m).

Definition encode (m : jello_bc_module) : list Z :=
  le_bytes 4 JELLO_BC_MAGIC ++ encode_body m.
