(* ===== verification/LoaderFacts.v ===== *)
(** * Safety of the loader

    A program logic for the reader monad, then the theorems on arbitrary input:
    the loader never leaves the buffer or a block it allocated, errors carry an
    offset inside the file, and a module it returns is well formed. *)

From S2P Require Import Prelude CInt Memory Bytecode Check CheckFacts FunCheck Loader LoaderSpec.

(** The two passes together. *)
Lemma function_semantics_spec insns n :
  zlen insns = n -> n <= INT32_MAX - 256 -> Forall insn_wf insns ->
  exists vr, jello_bc_validate_function_semantics insns n = Some vr /\
    (is_ok vr = true <-> well_tabled insns n 0 /\ try_balanced 0 insns).
Proof.
  intros Hlen Hn Hwf. pose proof (zlen_nonneg insns).
  unfold jello_bc_validate_function_semantics, validate_switch_kind_tables.
  destruct (switch_loop_spec insns n Hlen Hn Hwf (S (Z.to_nat n)) 0) as (r & -> & Hr); [lia..|].
  cbn. eexists. split; [done|]. pose proof (try_stack_loop_spec insns 0 ltac:(lia)
    ltac:(unfold UINT32_MAX, INT32_MAX in *; lia)) as Ht.
  unfold validate_try_stack_linear. destruct (is_ok r) eqn:Hrok.
  - destruct (is_ok (try_stack_loop insns 0)) eqn:E; [|rewrite E]; intuition done.
  - rewrite Hrok. intuition done.
Qed.

Create HintDb reads.

Section Safety.
Context (junk_type : jello_type_entry) (junk_tid : Z) (junk_byte : Z).
Context (oom : Z -> bool) (data : list Z).
Context (Hbytes : Forall is_byte data) (Hsize : zlen data <= UINT32_MAX).

Local Abbreviation size := (zlen data).

(** ** The logic

    [reads lo m k P]: started at an offset that is at least [lo], [m] either
    fails with an offset inside the file, or consumes at least [k] bytes of it
    and returns a value in [P]; it never crashes. *)
Definition wp {A} (m : rd A) (s : rd_state) (Q : A -> rd_state -> Prop) : Prop :=
  match m s with
  | Ret a s' => Q a s'
  | Err e => r_err e <> JELLO_BC_OK /\ 0 <= r_offset e <= size
  | Crash => False
  end.

Definition reads {A} (lo : Z) (m : rd A) (k : Z) (P : A -> Prop) : Prop :=
  forall s, 0 <= off s -> lo <= off s <= size ->
  wp m s (fun a s' => P a /\ off s + k <= off s' <= size).

Lemma rwp_mono {A} (m : rd A) s (Q1 Q2 : A -> rd_state -> Prop) :
  wp m s Q1 -> (forall a s', Q1 a s' -> Q2 a s') -> wp m s Q2.
Proof. unfold wp. destruct (m s); eauto. Qed.

Lemma rwp_bind {A B} (m : rd A) (f : A -> rd B) s Q :
  wp m s (fun a s' => wp (f a) s' Q) -> wp (m ≫= f) s Q.
Proof. unfold wp, mbind, rd_bind. by destruct (m s). Qed.

Lemma reads_mono {A} lo lo' (m : rd A) k k' (P P' : A -> Prop) :
  reads lo m k P -> lo <= lo' -> k' <= k -> (forall a, P a -> P' a) -> reads lo' m k' P'.
Proof.
  intros H Hlo Hk HP s Hs0 Hs. eapply rwp_mono; [apply H; lia|]. cbn. intros a s' [? ?].
  split; [auto | lia].
Qed.

Lemma reads_bind {A B} lo (m : rd A) (f : A -> rd B) k1 k P Q :
  reads lo m k1 P -> 0 <= k1 ->
  (forall a, P a -> reads (lo + k1) (f a) (k - k1) Q) -> reads lo (m ≫= f) k Q.
Proof.
  intros Hm Hk1 Hf s Hs0 Hs. apply rwp_bind. eapply rwp_mono; [by apply Hm|].
  cbn. intros a s' [Ha Hs']. eapply rwp_mono; [apply Hf; [done | lia | lia]|].
  cbn. intros b s'' [? ?]. split; [done | lia].
Qed.

Lemma reads_ret {A} lo (a : A) k (P : A -> Prop) : P a -> k <= 0 -> reads lo (mret a) k P.
Proof. intros ? ? s ? ?. cbn. split; [done | lia]. Qed.

Lemma reads_fail {A} lo e msg d k (P : A -> Prop) :
  e <> JELLO_BC_OK -> 0 <= d <= lo -> reads lo (fail e msg d) k P.
Proof. intros ? ? s ? ?. unfold wp, fail, err. cbn. split; [done | lia]. Qed.

Lemma reads_check lo vr :
  reads lo (check_result vr) 0 (fun _ => is_ok vr = true).
Proof.
  intros s ? ?. unfold wp, check_result. destruct (is_ok vr) eqn:Hr; cbn; [split; [done|lia]|].
  split; [|lia]. unfold is_ok in Hr. by bool_hyps.
Qed.

Lemma reads_malloc lo msg : reads lo (malloc oom msg) 0 (fun _ => True).
Proof. intros s ? ?. unfold wp, malloc, malloc_at. destruct (oom _); cbn; split; try done; lia. Qed.

Lemma rd_need_true s k : 0 <= off s <= size -> 0 <= k <= UINT32_MAX ->
  rd_need data s k = true -> off s + k <= size.
Proof.
  unfold rd_need, UINT32_MAX in *. intros. bool_hyps. rewrite wrapU_id in * by (try unfold is_u; lia). lia.
Qed.

Lemma byte_at i : 0 <= i < size -> exists b, data @! i = Some b /\ is_byte b.
Proof.
  intros [b Hb]%znth_in_range. exists b. split; [done|].
  exact (znth_Forall _ _ _ _ Hbytes Hb).
Qed.

Ltac get_byte i := let b := fresh "b" in let Hb := fresh "Hb" in let Hv := fresh "Hv" in
  destruct (byte_at i) as (b & Hb & Hv); [lia|]; rewrite ?Hb.

Ltac need s k :=
  destruct (rd_need data s k) eqn:Hneed; cbn;
  [apply rd_need_true in Hneed; [|lia|unfold UINT32_MAX; lia] | split; [done|lia]].

Lemma reads_u8 lo : reads lo (rd_u8 data) 1 (is_u 8).
Proof.
  intros s ? ?. unfold wp, rd_u8. need s 1. get_byte (off s). cbn. split; [exact Hv | lia].
Qed.

Lemma reads_u16 lo : reads lo (rd_u16 data) 2 (is_u 16).
Proof.
  intros s ? ?. unfold wp, rd_u16. need s 2. get_byte (off s). get_byte (off s + 1). cbn.
  split; [by apply wrapU_range | lia].
Qed.

Lemma reads_u32 lo : reads lo (rd_u32 data) 4 (is_u 32).
Proof.
  intros s ? ?. unfold wp, rd_u32. need s 4.
  get_byte (off s). get_byte (off s + 1). get_byte (off s + 2). get_byte (off s + 3).
  rewrite le_word by done. cbn -[le_value]. split; [|lia].
  apply (le_value_bound [b; b0; b1; b2]). by repeat (apply Forall_cons; split).
Qed.

Lemma reads_for {A} lo (body : rd A) k P n :
  0 <= k -> 0 <= lo -> reads lo body k P ->
  reads lo (for_ n body) (k * Z.of_nat n) (fun l => Forall P l /\ zlen l = Z.of_nat n).
Proof.
  intros Hk Hlo Hb. induction n as [|n IH]; cbn [for_].
  { apply reads_ret; [done | lia]. }
  eapply reads_bind; [apply Hb | done |]. intros a Ha.
  eapply reads_bind; [eapply reads_mono; [apply IH | lia | done | done] | nia |].
  cbn. intros l [Hl Hn]. apply reads_ret; [|lia]. split; [by constructor|].
  rewrite zlen_cons. lia.
Qed.

(** ** Composition automation *)
Hint Resolve reads_u8 reads_u16 reads_u32 reads_check reads_malloc : reads.

(** One statement of a reader, whose own specification is in the hint database
    [reads]. *)
Ltac step := eapply reads_bind; [solve [eauto with reads] | lia |]; cbn beta; intros.
Ltac do_guard := match goal with |- context [if ?g then _ else _] => destruct g eqn:? end;
  [solve [apply reads_fail; [done | lia]] | bool_hyps].

(** Expands to the guarded pool of [n] elements. *)
Lemma reads_pool {A} lo n msg (body : rd A) k P :
  0 <= lo -> 0 <= k -> 0 <= n -> reads lo body k P ->
  reads lo (read_pool oom n msg body) (k * n) (fun l => Forall P l /\ zlen l = n).
Proof.
  intros. unfold read_pool. destruct (Z.ltb_spec 0 n).
  - step. eapply reads_mono; [apply (reads_for lo _ k P); [done | done | eassumption] | lia | lia |].
    cbn. intros l [? ?]. split; [done | lia].
  - apply reads_ret; [|nia]. split; [done|]. rewrite zlen_nil. lia.
Qed.

(** *** Header *)

Lemma reads_header lo : 0 <= lo ->
  reads lo (read_header data) 28 (fun m =>
    m_version m = 1 /\ is_u 32 (m_features m) /\ is_u 32 (m_ntypes m) /\ is_u 32 (m_nsigs m) /\
    is_u 32 (m_natoms m) /\ is_u 32 (m_nfuncs m) /\ 0 <= m_entry m < m_nfuncs m /\
    is_u 32 (m_nconst_i64 m) /\ is_u 32 (m_nconst_f64 m) /\ is_u 32 (m_nconst_bytes m) /\
    (has_feature (m_features m) JELLO_BC_FEAT_CONST64 = false ->
      m_nconst_i64 m = 0 /\ m_nconst_f64 m = 0) /\
    (has_feature (m_features m) JELLO_BC_FEAT_CONSTBYTES = false -> m_nconst_bytes m = 0)).
Proof.
  intros. unfold read_header. step. do_guard. subst. do 6 step. do_guard.
  eapply (reads_bind _ _ _ 0 _ (fun p => is_u 32 p.1 /\ is_u 32 p.2 /\
      (has_feature a JELLO_BC_FEAT_CONST64 = false -> p.1 = 0 /\ p.2 = 0))); [|lia|].
  { destruct (has_feature a JELLO_BC_FEAT_CONST64).
    - do 2 step. apply reads_ret; [cbn; by split_and! | lia].
    - apply reads_ret; [by vm_compute | lia]. }
  intros [n1 n2] (Hn1 & Hn2 & Hn). cbn in Hn1, Hn2, Hn.
  eapply (reads_bind _ _ _ 0 _ (fun p => is_u 32 p /\
      (has_feature a JELLO_BC_FEAT_CONSTBYTES = false -> p = 0))); [|lia|].
  { destruct (has_feature a JELLO_BC_FEAT_CONSTBYTES).
    - eapply reads_mono; [apply (reads_u32 lo) | lia | lia |]. by intros v Hv.
    - apply reads_ret; [by vm_compute | lia]. }
  intros nb [Hnb Hnb']. apply reads_ret; [|lia]. cbn. unfold is_u in *. split_and!; auto; lia.
Qed.

(** *** Types and signatures *)

Lemma validate_type_entry_spec t ntypes nsigs :
  is_ok (validate_type_entry t ntypes nsigs) = true <->
  match te_kind t with
  | JELLO_T_LIST | JELLO_T_ARRAY => te_as t < ntypes
  | JELLO_T_FUNCTION => Z.land (te_as t) (UINT32_MAX - JELLO_FUN_VARARGS_TAG) < nsigs
  | _ => True
  end.
Proof.
  unfold validate_type_entry. destruct (te_kind t); try done;
    match goal with |- context [?x <=? ?y] => destruct (Z.leb_spec x y) end; split; try done; lia.
Qed.

Lemma reads_type lo ntypes nsigs : 0 <= lo ->
  reads lo (read_type data ntypes nsigs) 12 (type_ok ntypes nsigs).
Proof.
  intros. unfold read_type. do 5 step. destruct (kind_of_code a) as [k|].
  2:{ apply reads_fail; [done | lia]. }
  step. apply reads_ret; [|lia]. rewrite validate_type_entry_spec in *. unfold type_ok in *.
  destruct k; cbn in *; split; done.
Qed.
Hint Resolve reads_type : reads.

Lemma reads_types lo ntypes nsigs : 0 <= lo -> 0 <= ntypes ->
  reads lo (read_types oom data ntypes nsigs) 0
    (fun l => Forall (type_ok ntypes nsigs) l /\ zlen l = ntypes).
Proof.
  intros. eapply reads_mono;
    [by apply (reads_pool lo _ _ _ 12); auto with reads | lia | lia | done].
Qed.

Lemma reads_type_id lo ntypes msg : 0 <= lo ->
  reads lo (read_type_id data ntypes msg) 4 (is_tid ntypes).
Proof.
  intros. unfold read_type_id. step. do_guard. apply reads_ret; [|lia]. unfold is_tid, is_u in *. lia.
Qed.
Hint Resolve reads_type_id : reads.

Lemma reads_sig lo ntypes : 0 <= lo -> reads lo (read_sig oom data ntypes) 8 (sig_ok ntypes).
Proof.
  intros. unfold read_sig. do 3 step. do_guard.
  assert (0 <= a0) by (unfold is_u in *; lia).
  eapply reads_bind; [apply (reads_pool _ a0 _ _ 4); [lia | done | done |]; apply reads_type_id; lia
    | lia |].
  cbn. intros args [Hargs Hn]. apply reads_ret; [|lia].
  unfold sig_ok, is_tid, is_u in *. cbn. split_and!; auto; lia.
Qed.
Hint Resolve reads_sig : reads.

Lemma reads_sigs lo ntypes nsigs : 0 <= lo -> 0 <= nsigs ->
  reads lo (read_sigs oom data ntypes nsigs) 0
    (fun l => Forall (sig_ok ntypes) l /\ zlen l = nsigs).
Proof.
  intros. eapply reads_mono;
    [by apply (reads_pool lo _ _ _ 8); auto with reads | lia | lia | done].
Qed.

(** *** Two-pass sections *)

Lemma block_at s len : 0 <= off s -> 0 <= len -> off s + len <= size ->
  let l := take (Z.to_nat len) (drop (Z.to_nat (off s)) data) in
  zlen l = len /\ Forall is_byte l.
Proof.
  intros ? ? ? l. unfold l, zlen in *. rewrite length_take, length_drop. split; [lia|].
  by apply Forall_take, Forall_drop.
Qed.

Lemma wp_block s len msg Q :
  0 <= off s <= size -> is_u 32 len ->
  (forall l, zlen l = len -> Forall is_byte l -> off s + len <= size ->
    Q l (advance s len)) ->
  wp (rd_block data len msg) s Q.
Proof.
  unfold is_u. intros ? ? HQ. unfold wp, rd_block.
  destruct (rd_need data s len) eqn:Hneed; cbn; [|split; [done|lia]].
  apply rd_need_true in Hneed; [|lia|unfold UINT32_MAX; lia].
  destruct (Z.leb_spec 0 (off s)); [|lia]. destruct (Z.leb_spec (off s + len) size); [|lia].
  cbn. destruct (block_at s len) as [? ?]; [lia..|]. by apply HQ.
Qed.

Lemma wp_skip s len msg Q :
  0 <= off s <= size -> is_u 32 len ->
  (off s + len <= size -> Q () (advance s len)) ->
  wp (rd_skip data len msg) s Q.
Proof.
  unfold is_u. intros ? ? HQ. unfold wp, rd_skip.
  destruct (rd_need data s len) eqn:Hneed; cbn; [|split; [done|lia]].
  apply rd_need_true in Hneed; [auto|lia|unfold UINT32_MAX; lia].
Qed.

Lemma wp_u32 s Q :
  0 <= off s <= size ->
  (forall v s', is_u 32 v -> off s + 4 <= off s' <= size -> Q v s') ->
  wp (rd_u32 data) s Q.
Proof.
  intros Hs HQ. eapply rwp_mono; [apply (reads_u32 0); lia|]. cbn. intros v s' [? ?]. by apply HQ.
Qed.

(** A length that may be zero, in front of its payload. *)
Lemma wp_skip_opt s len msg Q :
  0 <= off s <= size -> is_u 32 len ->
  (forall s', off s' = off s + len -> off s' <= size -> Q () s') ->
  wp (if 0 <? len then rd_skip data len msg else mret ()) s Q.
Proof.
  intros ? Hl HQ. destruct (Z.ltb_spec 0 len).
  - apply wp_skip; auto.
  - unfold is_u in Hl. apply HQ; lia.
Qed.

Lemma wp_block_opt s len msg Q :
  0 <= off s <= size -> is_u 32 len ->
  (forall l s', zlen l = len -> Forall is_byte l -> off s' = off s + len -> off s' <= size ->
    Q l s') ->
  wp (if 0 <? len then rd_block data len msg else mret []) s Q.
Proof.
  intros ? Hl HQ. destruct (Z.ltb_spec 0 len).
  - apply wp_block; auto.
  - unfold is_u in Hl. apply HQ; rewrite ?zlen_nil; lia || done.
Qed.

(** The size of the block of NUL-terminated atoms. *)
Definition atoms_size (lens : list Z) : Z := foldr (fun l acc => l + 1 + acc) 0 lens.

Lemma atoms_size_nonneg lens : Forall (is_u 32) lens -> 0 <= atoms_size lens.
Proof. unfold atoms_size. induction 1 as [|l lens [? ?]]; cbn [foldr]; lia. Qed.

Lemma atoms_pass1_wp n total s :
  0 <= total <= off s -> off s <= size ->
  wp (atoms_pass1 data n total) s (fun p s' =>
    Forall (is_u 32) p.1 /\ zlen p.1 = Z.of_nat n /\ p.2 = total + atoms_size p.1 /\
    p.2 <= off s' <= size).
Proof.
  revert total s. induction n as [|n IH]; intros total s Ht Hs; cbn [atoms_pass1].
  { cbn. split_and!; [constructor | done | lia..]. }
  apply rwp_bind, wp_u32; [lia|]. intros len s1 Hlen Hs1. apply rwp_bind.
  apply wp_skip_opt; [lia | done |]. intros s2 Hs2 Hs2'. apply rwp_bind.
  unfold UINT32_MAX, is_u in *.
  rewrite (wrapU_id 64 (len + 1)), wrapU_id by (unfold is_u; lia).
  eapply rwp_mono; [apply IH; lia|]. cbn. intros [lens total'] s3 (Hl & Hn & Htot & Hs3).
  cbn in *. split_and!; [by constructor | rewrite zlen_cons; lia | lia..].
Qed.

Lemma atoms_pass2_wp lens total w s :
  0 <= off s <= size -> Forall (is_u 32) lens -> 0 <= w -> w + atoms_size lens <= total ->
  wp (atoms_pass2 data lens total w) s (fun atoms s' =>
    Forall block_ok atoms /\ zlen atoms = zlen lens /\ off s <= off s' <= size).
Proof.
  intros Hs Hl. revert w s Hs. induction Hl as [|len_i lens Hi Hl IH]; intros w s Hs Hw Ht;
    cbn [atoms_pass2].
  { cbn. split_and!; [constructor | done | lia..]. }
  cbn in Ht. fold (atoms_size lens) in Ht. apply rwp_bind, wp_u32; [lia|]. intros len s1 Hlen Hs1.
  destruct (Z.eqb_spec len len_i) as [->|]; cbn [negb].
  2:{ cbn. split; [done|lia]. }
  apply rwp_bind, wp_block_opt; [lia | done |]. intros bs s2 Hbs Hb Hs2 Hs2'.
  pose proof (atoms_size_nonneg _ Hl).
  destruct (Z.ltb_spec total (w + len_i + 1)); [lia|].
  apply rwp_bind. unfold is_u in *. eapply rwp_mono; [apply IH; lia|].
  cbn. intros atoms s3 (Ha & Hn & Hs3). rewrite !zlen_cons.
  split_and!; [|lia..]. constructor; [|done]. unfold block_ok, is_u. by rewrite Hbs.
Qed.

Lemma reads_atoms lo natoms : 0 <= lo -> 0 <= natoms ->
  reads lo (read_atoms oom data natoms) 0 (fun l => Forall block_ok l /\ zlen l = natoms).
Proof.
  intros Hlo Hn s Hs0 Hs. unfold read_atoms. destruct (Z.ltb_spec 0 natoms).
  2:{ cbn. rewrite zlen_nil. split_and!; try done; lia. }
  apply rwp_bind. cbn. apply rwp_bind. eapply rwp_mono; [apply (reads_malloc 0); lia|].
  cbn. intros _ s1 [_ Hs1]. apply rwp_bind. eapply rwp_mono; [apply atoms_pass1_wp; lia|].
  cbn [fst snd]. intros [lens total] s2 (Hl & Hz & Ht & Hs2).
  cbn [fst snd] in Hl, Hz, Ht, Hs2.
  apply rwp_bind. unfold wp at 1, malloc_at at 1. destruct (oom (nalloc s2)); cbn; [split; [done|lia]|].
  apply rwp_bind. unfold wp at 1, malloc_at at 1. destruct (oom _); cbn; [split; [done|lia]|].
  apply rwp_bind. cbn. eapply rwp_mono; [apply atoms_pass2_wp; cbn; done || lia|].
  cbn. intros atoms s3 (? & ? & ?). split_and!; try done; lia.
Qed.

(** Consecutive index entries from [o] on, ending at [total]. *)
Fixpoint chained (o : Z) (idx : list (Z * Z)) (total : Z) : Prop :=
  match idx with
  | [] => total = o
  | (len, o') :: idx' => o' = o /\ is_u 32 len /\ chained (o + len) idx' total
  end.

Lemma chained_le o idx total : chained o idx total -> o <= total.
Proof.
  revert o; induction idx as [|[len o'] idx IH]; intros o; cbn; [lia|].
  intros (_ & [? ?] & Hc). apply IH in Hc. lia.
Qed.

Lemma bytes_pass1_wp n total s :
  0 <= total <= off s -> off s <= size ->
  wp (bytes_pass1 data n total) s (fun p s' =>
    chained total p.1 p.2 /\ zlen p.1 = Z.of_nat n /\ p.2 <= off s' <= size).
Proof.
  revert total s. induction n as [|n IH]; intros total s Ht Hs; cbn [bytes_pass1].
  { cbn. split_and!; [done | done | lia..]. }
  apply rwp_bind, wp_u32; [lia|]. intros len s1 Hlen Hs1. apply rwp_bind.
  apply wp_skip_opt; [lia | done |]. intros s2 Hs2 Hs2'. apply rwp_bind.
  rewrite wrapU_id by (unfold UINT32_MAX, is_u in *; lia).
  eapply rwp_mono; [apply IH; unfold is_u in *; lia|].
  cbn. intros [idx total'] s3 (Hl & Hn & Hs3).
  cbn in *. split_and!; [done.. | rewrite zlen_cons; lia | lia | lia].
Qed.

Lemma block_write_at blob o l :
  0 <= o -> o + zlen l <= zlen blob ->
  exists blob', block_write blob o l = Some blob' /\ zlen blob' = zlen blob /\
  take (Z.to_nat (o + zlen l)) blob' = take (Z.to_nat o) blob ++ l.
Proof.
  intros Ho Hl. unfold block_write.
  destruct (Z.leb_spec 0 o); [|lia]. destruct (Z.leb_spec (o + zlen l) (zlen blob)); [|lia].
  eexists. split; [done|]. unfold zlen in *. split.
  - rewrite !length_app, length_take, length_drop. lia.
  - rewrite app_assoc. rewrite take_app_length'; [done|].
    rewrite length_app, length_take. lia.
Qed.

Lemma bytes_pass2_wp idx o blob s :
  0 <= off s <= size -> 0 <= o -> chained o idx (zlen blob) ->
  wp (bytes_pass2 data idx blob) s (fun blob' s' =>
    off s <= off s' <= size /\ zlen blob' = zlen blob /\
    exists blocks, map fst idx = zlen <$> blocks /\ map snd idx = starts o blocks /\
    blob' = take (Z.to_nat o) blob ++ concat blocks /\ Forall is_byte (concat blocks)).
Proof.
  revert o blob s. induction idx as [|[len_i off_i] idx IH]; intros o blob s Hs Ho Hc;
    cbn [bytes_pass2].
  { cbn in Hc. cbn. split_and!; [lia..|]. exists []. cbn. rewrite app_nil_r.
    split_and!; [done | done | | constructor]. rewrite firstn_all2; [done|]. unfold zlen in *. lia. }
  destruct Hc as (-> & Hi & Hc). apply rwp_bind, wp_u32; [lia|]. intros len s1 Hlen Hs1.
  destruct (Z.eqb_spec len len_i) as [->|]; cbn [negb].
  2:{ cbn. split; [done|lia]. }
  pose proof (chained_le _ _ _ Hc) as Hle. destruct (Z.ltb_spec 0 len_i).
  - apply rwp_bind, wp_block; [lia | done |]. intros bs Hbs Hb Hs2.
    destruct (block_write_at blob o bs) as (blob' & -> & Hz & Htk); [done | lia |].
    eapply rwp_mono.
    { apply (IH (o + len_i)); cbn; [lia | lia |]. by rewrite Hz. }
    cbn. intros b s3 (? & ? & blocks & H1 & H2 & H3 & H4). split_and!; [lia..|].
    exists (bs :: blocks). cbn. rewrite Hbs. split_and!; [congruence | congruence | |].
    + rewrite Hbs in Htk. by rewrite H3, Htk, <- app_assoc.
    + by apply Forall_app.
  - assert (len_i = 0) as -> by (unfold is_u in *; lia). eapply rwp_mono.
    { apply (IH o); [lia | lia |]. by rewrite Z.add_0_r in Hc. }
    cbn. intros b s3 (? & ? & blocks & H1 & H2 & H3 & H4). split_and!; [lia..|].
    exists ([] :: blocks). split_and!; [cbn; by rewrite H1 | | done..].
    cbn [starts]. rewrite zlen_nil, Z.add_0_r. cbn. by rewrite H2.
Qed.

Lemma reads_const_bytes lo m :
  0 <= lo -> is_u 32 (m_nconst_bytes m) ->
  (has_feature (m_features m) JELLO_BC_FEAT_CONSTBYTES = false -> m_nconst_bytes m = 0) ->
  reads lo (read_const_bytes junk_byte oom data m) 0
    (fun p => pool_ok p.1.1 p.1.2 p.2 /\ zlen p.1.1 = m_nconst_bytes m).
Proof.
  intros Hlo [Hn0 Hn1] Hno. unfold read_const_bytes.
  assert (Hempty : pool_ok [] [] []).
  { exists []. by split_and!. }
  destruct (has_feature _ _). 2:{ apply reads_ret; [cbn; rewrite zlen_nil, Hno; auto | lia]. }
  destruct (Z.ltb_spec 0 (m_nconst_bytes m)).
  2:{ apply reads_ret; [cbn; rewrite zlen_nil; split; [done|lia] | lia]. }
  intros s Hs0 Hs. apply rwp_bind. unfold wp at 1, malloc2. destruct (_ || _); cbn; [split; [done|lia]|].
  apply rwp_bind. cbn. apply rwp_bind. eapply rwp_mono; [apply bytes_pass1_wp; cbn; lia|].
  cbn. intros [idx total] s2 (Hc & Hz & Hs2). cbn in *. pose proof (chained_le _ _ _ Hc) as Ht.
  assert (Hzr : zlen (replicate (Z.to_nat total) junk_byte) = total) by (by apply zlen_replicate).
  apply rwp_bind. eapply (rwp_mono _ _ (fun _ s3 => 0 <= off s3 <= size)).
  { destruct (0 <? total).
    - eapply rwp_mono; [apply (reads_malloc 0); lia|]. cbn. intros _ s3 [_ ?]. lia.
    - cbn. lia. }
  cbn. intros _ s3 Hs3. apply rwp_bind. cbn. apply rwp_bind. eapply rwp_mono.
  { apply (bytes_pass2_wp _ 0); cbn; [lia | lia |]. by rewrite Hzr. }
  cbn. intros blob s4 (Hs4 & Hz4 & blocks & H1 & H2 & H3 & H4).
  split; [|lia]. split; [|unfold zlen in *; rewrite length_map; lia].
  exists blocks. cbn in H3. subst blob. split_and!; [done | done | done | split; [|done]].
  unfold is_u, UINT32_MAX in *. rewrite Hz4, Hzr. lia.
Qed.

(** *** Constant pools and source files *)

Lemma u64_parts lo hi : is_u 32 lo -> is_u 32 hi ->
  is_u 64 (Z.lor lo (Z.shiftl hi 32)).
Proof.
  intros Hlo [Hh0 Hh1]. rewrite lor_shiftl_add by (unfold is_u in Hlo; lia).
  unfold is_u in *. change (2 ^ 64) with 18446744073709551616.
  change (2 ^ 32) with 4294967296 in *. lia.
Qed.

Lemma reads_u64 lo : reads lo (read_u64 data) 8 (is_u 64).
Proof. unfold read_u64. do 2 step. apply reads_ret; [by apply u64_parts | lia]. Qed.
Hint Resolve reads_u64 : reads.

Lemma reads_i64 lo : reads lo (read_const_i64 data) 8 (is_s 64).
Proof. unfold read_const_i64. step. apply reads_ret; [by apply wrapS_range | lia]. Qed.

Lemma reads_const64 lo m :
  0 <= lo -> is_u 32 (m_nconst_i64 m) -> is_u 32 (m_nconst_f64 m) ->
  (has_feature (m_features m) JELLO_BC_FEAT_CONST64 = false ->
    m_nconst_i64 m = 0 /\ m_nconst_f64 m = 0) ->
  reads lo (read_const64 oom data m) 0 (fun p =>
    (Forall (is_s 64) p.1 /\ zlen p.1 = m_nconst_i64 m) /\
    (Forall (is_u 64) p.2 /\ zlen p.2 = m_nconst_f64 m)).
Proof.
  intros Hlo [? ?] [? ?] Hno. unfold read_const64. destruct (has_feature _ _).
  - eapply reads_bind; [apply (reads_pool lo _ _ _ 8); auto using reads_i64; lia | lia |].
    cbn. intros xs Hxs.
    eapply reads_bind; [apply (reads_pool _ _ _ _ 8); auto using reads_u64; lia | lia |].
    cbn. intros ys Hys. apply reads_ret; [done | lia].
  - destruct Hno as [-> ->]; [done|]. apply reads_ret; [by repeat constructor | lia].
Qed.

Lemma reads_source_file lo : 0 <= lo -> reads lo (read_source_file oom data) 4 block_ok.
Proof.
  intros Hlo. unfold read_source_file. step. intros s Hs0 Hs. apply rwp_bind. cbn.
  apply rwp_bind, wp_block; [lia | done |]. intros l Hl Hb Hend. apply rwp_bind.
  unfold is_u in *.
  unfold wp at 1, malloc_at. destruct (oom _); cbn; [split; [done|lia]|].
  split; [|lia]. split; [|done]. unfold is_u. lia.
Qed.

Lemma reads_source_files lo m :
  0 <= lo ->
  reads lo (read_source_files oom data m) 0 (fun p =>
    (Forall block_ok p.2 /\ zlen p.2 = p.1) /\ is_u 32 p.1 /\
    (has_feature (m_features m) JELLO_BC_FEAT_LINE_TABLE = false -> p.1 = 0)).
Proof.
  intros Hlo. unfold read_source_files. destruct (has_feature _ _).
  - step. pose proof H as [? ?].
    eapply reads_bind; [apply (reads_pool _ _ _ _ 4); [lia..|apply reads_source_file; lia] | lia |].
    cbn. intros ys Hys. apply reads_ret; [done | lia].
  - apply reads_ret; [|lia]. cbn. split_and!; done.
Qed.

(** *** Functions *)

Lemma reads_insn lo : 0 <= lo -> reads lo (read_insn data) 8 insn_wf.
Proof.
  intros. unfold read_insn. do 5 step. apply reads_ret; [|lia]. unfold insn_wf. by split_and!.
Qed.
Hint Resolve reads_insn : reads.

Lemma reads_insns lo m rt nregs ninsns n j :
  0 <= lo ->
  reads lo (read_insns junk_type junk_tid data m rt nregs ninsns n j) (8 * Z.of_nat n)
    (fun l => zlen l = Z.of_nat n /\ forall i ins, l @! i = Some ins -> insn_wf ins /\
    is_ok (jello_bc_validate_insn junk_type junk_tid m rt ins nregs (j + i) ninsns
        (m_nfuncs m)) = true).
Proof.
  revert lo j. induction n as [|n IH]; intros lo j Hlo; cbn [read_insns].
  { apply reads_ret; [|lia]. split; [done|]. intros i ins Hi.
    by rewrite znth_nil in Hi. }
  do 2 step. rename H into Hins, H0 into Hval.
  eapply reads_bind; [apply IH; lia | lia |]. cbn. intros l [Hl Hall].
  apply reads_ret; [|lia]. split; [rewrite zlen_cons; lia|].
  intros i ins Hi. pose proof (znth_Some _ _ _ Hi) as Hr. destruct (decide (i = 0)) as [->|].
  - change (znth (a :: l) 0) with (Some a) in Hi. simplify_eq. by rewrite Z.add_0_r.
  - replace (j + i) with (j + 1 + (i - 1)) by lia. apply Hall.
    change (a :: l) with ([a] ++ l) in Hi. rewrite znth_app_r in Hi; [done|].
    change (zlen [a]) with 1. lia.
Qed.

Lemma reads_code lo m rt nregs ninsns :
  0 <= lo -> 0 <= ninsns ->
  reads lo (read_code junk_type junk_tid oom data m rt nregs ninsns) (8 * ninsns)
    (fun l => zlen l = ninsns /\ ninsns <= INT32_MAX - 256 /\
    (forall i ins, l @! i = Some ins -> insn_wf ins /\
      is_ok (jello_bc_validate_insn junk_type junk_tid m rt ins nregs i ninsns
          (m_nfuncs m)) = true) /\
    well_tabled l ninsns 0 /\ try_balanced 0 l).
Proof.
  intros Hlo Hn. unfold read_code. destruct (Z.ltb_spec 0 ninsns).
  2:{ apply reads_ret; [|lia]. assert (ninsns = 0) as -> by lia.
    split; [done|]. split; [by vm_compute|]. split; [|split].
    - intros i ins Hi. by rewrite znth_nil in Hi.
    - by apply wt_end.
    - split; [by intros [|k] | done]. }
  step. eapply reads_bind; [apply reads_insns; lia | lia |].
  cbn beta. intros l [Hl Hall]. rewrite Z2Nat.id in Hl by lia.
  intros s Hs0 Hs. rewrite Z2Nat.id in Hs by lia.
  assert (Hbig : ninsns <= INT32_MAX - 256) by (unfold INT32_MAX, UINT32_MAX in *; lia).
  assert (Hwf : Forall insn_wf l).
  { apply Forall_znth. intros i ins Hi. by apply (Hall i). }
  destruct (function_semantics_spec l ninsns Hl Hbig Hwf) as (vr & -> & Hvr).
  apply rwp_bind. eapply rwp_mono; [apply (reads_check 0); lia|]. cbn. intros _ s' [Hok Hs'].
  rewrite Z2Nat.id by lia. split; [|lia]. split_and!; try done; by apply Hvr.
Qed.

Lemma reads_lines lo features ninsns :
  0 <= lo -> 0 <= ninsns ->
  reads lo (read_lines oom data features ninsns) 0 (fun p =>
    if has_feature features JELLO_BC_FEAT_LINE_TABLE then
      is_u 16 p.1 /\ zlen p.2 = ninsns /\
    Forall (is_u (if has_feature features JELLO_BC_FEAT_LINE_COL then 32 else 16)) p.2
    else p.1 = 0 /\ p.2 = []).
Proof.
  intros Hlo Hn. unfold read_lines. destruct (has_feature _ JELLO_BC_FEAT_LINE_TABLE).
  2:{ by apply reads_ret. }
  step. eapply reads_bind; [apply (reads_pool _ _ _ _ 2 (is_u (if has_feature features
      JELLO_BC_FEAT_LINE_COL then 32 else 16))); [lia | lia | lia |] | lia |].
  - destruct (has_feature _ _); [|apply reads_u16].
    eapply reads_mono; [apply (reads_u32 lo) | lia | lia | done].
  - cbn. intros l [? ?]. apply reads_ret; [done | lia].
Qed.

Lemma reads_function lo m :
  0 <= lo ->
  reads lo (read_function junk_type junk_tid oom data m) 8 (function_ok junk_type junk_tid m).
Proof.
  intros Hlo. unfold read_function. step. rename a into nregs, H into Hnregs.
  eapply (reads_bind _ _ _ 0 _ (fun c => if has_feature (m_features m) JELLO_BC_FEAT_CAP_START
      then is_u 32 c else c = 0)); [|lia|].
  { destruct (has_feature _ _); [|by apply reads_ret].
    eapply reads_mono; [apply (reads_u32 lo) | lia | lia | done]. }
  cbn. intros cap Hcap. step. rename a into ninsns, H into Hninsns.
  do_guard. unfold is_u in Hnregs, Hninsns.
  eapply reads_bind; [apply (reads_pool _ nregs _ _ 4); [lia | lia | lia | apply reads_type_id; lia] | lia |].
  cbn. intros rt [Hrt Hrtn]. eapply reads_bind; [apply reads_lines; lia | lia |].
  cbn. intros [sf lines] Hlines. eapply reads_bind; [apply reads_code; lia | lia |].
  cbn. intros insns (Hl & Hbig & Hall & Hwt & Htb). apply reads_ret; [|lia].
  split; cbn; try done.
Qed.

(** The validator does not look at the functions of the module. *)
Lemma validate_insn_funcs v ft nt ts ns ss na at_ pe ni ci nf cf nb bl bo bd nfn f1 f2 en nsf sf
    rt ins nregs pc ninsns nfuncs :
  jello_bc_validate_insn junk_type junk_tid
    (mk_module v ft nt ts ns ss na at_ pe ni ci nf cf nb bl bo bd nfn f1 en nsf sf)
    rt ins nregs pc ninsns nfuncs =
  jello_bc_validate_insn junk_type junk_tid
    (mk_module v ft nt ts ns ss na at_ pe ni ci nf cf nb bl bo bd nfn f2 en nsf sf)
    rt ins nregs pc ninsns nfuncs.
Proof. reflexivity. Qed.

Lemma reads_body lo : 4 <= lo ->
  reads lo (read_body junk_type junk_tid junk_byte oom data) 0 (module_ok junk_type junk_tid).
Proof.
  intros Hlo. unfold read_body. eapply reads_bind; [apply reads_header; lia | lia |].
  cbn beta. intros h (Hv & Hf & Hnt & Hns & Hna & Hnf & He & Hni & Hnf64 & Hnb & Hc64 & Hcb).
  eapply reads_bind; [apply reads_types; unfold is_u in *; lia | lia |].
  cbn beta. intros types [Hty Htyn].
  eapply reads_bind; [apply reads_sigs; unfold is_u in *; lia | lia |].
  cbn beta. intros sigs [Hsg Hsgn].
  eapply reads_bind; [apply reads_atoms; unfold is_u in *; lia | lia |].
  cbn beta. intros atoms [Hat Hatn].
  eapply reads_bind; [apply reads_const64; unfold is_u in *; done || lia | lia |].
  cbn beta. intros [ci cf] [[Hci Hcin] [Hcf Hcfn]].
  eapply reads_bind; [apply reads_const_bytes; done || lia | lia |].
  cbn beta. intros [[bl bo] bd] [Hpool Hpooln].
  eapply reads_bind; [apply reads_source_files; lia | lia |].
  cbn beta. intros [nsrc files] ([Hfi Hfin] & Hnsrc & Hlt). cbn zeta. cbn [fst snd] in *.
  eapply reads_bind; [apply (reads_pool _ _ _ _ 8); [lia | lia | unfold is_u in Hnf; cbn; lia
    | apply reads_function; lia] | unfold is_u in Hnf; cbn; lia |].
  cbn beta. intros funcs [Hfun Hfunn]. apply reads_ret; [|unfold is_u in *; cbn; lia].
  split; cbn; try done.
  eapply Forall_impl; [exact Hfun|]. intros f [? ? ? ? ? ? Hins ? ? ? ?]. split; try done.
Qed.

(** What the loader returns, on any buffer. *)
Lemma read_spec :
  match jello_bc_read junk_type junk_tid junk_byte oom data false with
  | Returned r (Some m) =>
    (r = ok /\ module_ok junk_type junk_tid m) \/
    (r_err r = JELLO_BC_EOF /\ size < 4 /\ m = empty_module)
  | Returned r None => r_err r <> JELLO_BC_OK /\ 0 <= r_offset r <= size
  | Crashed => False
  end.
Proof.
  pose proof (zlen_nonneg data). unfold jello_bc_read. cbn iota. destruct (oom 0).
  { cbn. split; [done | lia]. }
  destruct (rd_need data (mk_rd 0 1) 4) eqn:Hneed.
  2:{ unfold rd_u32. rewrite Hneed. cbn. right. split; [done|]. split; [|done].
    unfold rd_need, UINT32_MAX in *. bool_hyps. cbn in Hneed.
    rewrite wrapU_id in Hneed by (try unfold is_u; lia). lia. }
  pose proof (reads_u32 0 (mk_rd 0 1) ltac:(cbn; lia) ltac:(cbn; lia)) as Hu. unfold wp in Hu.
  destruct (rd_u32 data (mk_rd 0 1)) as [magic s|e|] eqn:Hm; [| |done].
  - destruct Hu as [_ Hs]. cbn in Hs. destruct (magic =? JELLO_BC_MAGIC); cbn [negb].
    2:{ cbn. split; [done|lia]. }
    pose proof (reads_body 4 ltac:(lia) s ltac:(lia) ltac:(lia)) as Hb. unfold wp in Hb.
    destruct (read_body _ _ _ _ _ s); [|done..]. left. by destruct Hb.
  - unfold rd_u32 in Hm. rewrite Hneed in Hm. cbn in Hm. repeat case_match; done.
Qed.
End Safety.
