(* ===== verification/LoaderRoundtrip.v ===== *)
(** * Loading what was encoded

    [encode] of [LoaderSpec.v] followed by anything loads back to the module it
    came from: the loader implements the on-disk format. *)

From S2P Require Import Prelude CInt Memory Bytecode Check CheckFacts FunCheck Loader LoaderSpec LoaderFacts.

Section Roundtrip.
Context (junk_type : jello_type_entry) (junk_tid : Z) (junk_byte : Z).
Context (oom : Z -> bool) (data : list Z).
Context (Hoom : forall n, oom n = false) (Hsize : zlen data <= UINT32_MAX).

(** [l] is what is left to read. *)
Definition at_ (s : rd_state) (l : list Z) : Prop :=
  0 <= off s <= zlen data /\ drop (Z.to_nat (off s)) data = l.

(** In front of the bytes [enc], the reader [m] returns [v] and is behind them. *)
Definition parses {A} (m : rd A) (enc : list Z) (v : A) : Prop :=
  forall s rest, at_ s (enc ++ rest) ->
  exists s', m s = Ret v s' /\ at_ s' rest.

Lemma at_size s l : at_ s l -> off s + zlen l = zlen data.
Proof. intros [? <-]. unfold zlen in *. rewrite length_drop. lia. Qed.

Lemma at_off s s' l : at_ s l -> off s' = off s -> at_ s' l.
Proof. intros H E. unfold at_ in *. by rewrite E. Qed.

Lemma at_advance s l rest k : at_ s (l ++ rest) -> k = zlen l -> at_ (advance s k) rest.
Proof.
  intros H ->. pose proof (at_size _ _ H) as Hz. rewrite zlen_app in Hz.
  destruct H as [? Hd]. pose proof (zlen_nonneg l). pose proof (zlen_nonneg rest).
  split; cbn; [lia|]. unfold zlen in *.
  rewrite Z2Nat.inj_add, <- drop_drop, Hd, Nat2Z.id by lia.
  by rewrite drop_app_length.
Qed.

Lemma at_byte s l rest i : at_ s (l ++ rest) -> 0 <= i < zlen l -> data @! (off s + i) = l @! i.
Proof.
  intros [Ho Hd] Hi. rewrite <- (znth_app_l l rest) by lia. rewrite <- Hd.
  unfold znth. rewrite !decide_True by lia.
  rewrite lookup_drop. f_equal. lia.
Qed.

Lemma at_need s l rest : at_ s (l ++ rest) -> rd_need data s (zlen l) = true.
Proof.
  intros H. pose proof (at_size _ _ H) as Hz. rewrite zlen_app in Hz.
  pose proof (zlen_nonneg l). pose proof (zlen_nonneg rest). destruct H as [? _].
  unfold rd_need, UINT32_MAX in *. rewrite wrapU_id by (try unfold is_u; lia).
  apply Z.leb_le. lia.
Qed.

(** ** Composition *)

Lemma parses_ret {A} (a : A) : parses (mret a) [] a.
Proof. intros s rest H. by exists s. Qed.

Lemma parses_bind {A B} (m : rd A) (k : A -> rd B) e1 e2 a b :
  parses m e1 a -> parses (k a) e2 b -> parses (m ≫= k) (e1 ++ e2) b.
Proof.
  intros Hm Hk s rest H. rewrite <- app_assoc in H.
  destruct (Hm _ _ H) as (s1 & E1 & H1). destruct (Hk _ _ H1) as (s2 & E2 & H2).
  exists s2. split; [|done]. unfold mbind, rd_bind. by rewrite E1.
Qed.

(** A statement that consumes nothing. *)
Lemma parses_bind0 {A B} (m : rd A) (k : A -> rd B) e a b :
  parses m [] a -> parses (k a) e b -> parses (m ≫= k) e b.
Proof. intros. by apply (parses_bind m k [] e a). Qed.

Lemma parses_last {A B} (m : rd A) (k : A -> rd B) e a b :
  parses m e a -> parses (k a) [] b -> parses (m ≫= k) e b.
Proof. intros. rewrite <- (app_nil_r e). by apply (parses_bind m k e [] a). Qed.

Lemma parses_malloc msg : parses (malloc oom msg) [] ().
Proof.
  intros s rest H. unfold malloc, malloc_at. rewrite Hoom. eexists. split; [done|].
  by eapply at_off.
Qed.

Lemma parses_malloc_at o msg : parses (malloc_at oom o msg) [] ().
Proof.
  intros s rest H. unfold malloc_at. rewrite Hoom. eexists. split; [done|].
  by eapply at_off.
Qed.

Lemma parses_check vr : is_ok vr = true -> parses (check_result vr) [] ().
Proof. intros Hok s rest H. unfold check_result. rewrite Hok. by exists s. Qed.

Lemma parses_for {A} (body : rd A) enc (l : list A) :
  Forall (fun v => parses body (enc v) v) l ->
  parses (for_ (length l) body) (concat (enc <$> l)) l.
Proof.
  induction 1 as [|v l Hv _ IH]; cbn; [apply parses_ret|].
  eapply parses_bind; [done|]. eapply parses_last; [done|]. apply parses_ret.
Qed.

Lemma parses_pool {A} n msg (body : rd A) enc (l : list A) :
  n = zlen l -> Forall (fun v => parses body (enc v) v) l ->
  parses (read_pool oom n msg body) (concat (enc <$> l)) l.
Proof.
  intros -> H. unfold read_pool. destruct (Z.ltb_spec 0 (zlen l)) as [Hl|Hl].
  - eapply parses_bind0; [apply parses_malloc|]. unfold zlen. rewrite Nat2Z.id.
    by apply parses_for.
  - destruct l; [apply parses_ret|]. unfold zlen in Hl. cbn in Hl. lia.
Qed.

(** ** Integers *)

Lemma parses_u8 x : is_u 8 x -> parses (rd_u8 data) (le_bytes 1 x) x.
Proof.
  intros Hx s rest H. unfold rd_u8.
  rewrite (at_need s _ _ H : rd_need data s 1 = true). cbn [negb].
  pose proof (at_byte s _ _ 0 H ltac:(by vm_compute)) as Hb. rewrite Z.add_0_r in Hb.
  rewrite Hb. cbn. rewrite wrapU_id by (lia || done).
  eexists. split; [done|]. by eapply at_advance.
Qed.

Lemma parses_u16 x : is_u 16 x -> parses (rd_u16 data) (le_bytes 2 x) x.
Proof.
  intros Hx s rest H. unfold rd_u16.
  rewrite (at_need s _ _ H : rd_need data s 2 = true). cbn [negb].
  pose proof (at_byte s _ _ 0 H ltac:(by vm_compute)) as Hb0. rewrite Z.add_0_r in Hb0.
  pose proof (at_byte s _ _ 1 H ltac:(by vm_compute)) as Hb1.
  rewrite Hb0, Hb1. cbn -[wrapU Z.shiftr].
  eexists. split; [|by eapply at_advance]. f_equal.
  assert (Hv : Z.lor (u8 x) (Z.shiftl (u8 (Z.shiftr x 8)) 8) = u16 x).
  { rewrite <- (le_value_bytes 2 x : _ = u16 x). cbn [le_bytes le_value].
    by rewrite Z.shiftl_0_l, Z.lor_0_r. }
  rewrite (wrapU_id 16 (Z.shiftl _ 8)).
  - rewrite Hv, wrapU_idemp by lia. by apply wrapU_id.
  - pose proof (wrapU_range 8 ltac:(lia) (Z.shiftr x 8)) as Hr. unfold is_u in *.
    rewrite Z.shiftl_mul_pow2 by lia. change (2 ^ 8) with 256 in *.
    change (2 ^ 16) with 65536. lia.
Qed.

Lemma parses_u32 x : is_u 32 x -> parses (rd_u32 data) (le_bytes 4 x) x.
Proof.
  intros Hx s rest H. unfold rd_u32.
  rewrite (at_need s _ _ H : rd_need data s 4 = true). cbn [negb].
  assert (Hb : forall i b, le_bytes 4 x @! i = Some b -> data @! (off s + i) = Some b).
  { intros i b Hi. rewrite <- Hi. eapply at_byte; [done|]. by eapply znth_Some. }
  pose proof (Hb 0 (u8 x) eq_refl) as Hb0. rewrite Z.add_0_r in Hb0.
  rewrite Hb0, (Hb 1 (u8 (Z.shiftr x 8)) eq_refl),
    (Hb 2 (u8 (Z.shiftr (Z.shiftr x 8) 8)) eq_refl),
    (Hb 3 (u8 (Z.shiftr (Z.shiftr (Z.shiftr x 8) 8) 8)) eq_refl).
  rewrite le_word by (apply wrapU_range; lia).
  eexists. split; [|by eapply at_advance]. f_equal.
  change (le_value (le_bytes 4 x) = x). rewrite le_value_bytes. by apply wrapU_id.
Qed.

Lemma parses_u64 x : is_u 64 x -> parses (read_u64 data) (le_bytes 8 x) x.
Proof.
  intros Hx. rewrite (le_bytes_add 4 4). unfold read_u64.
  assert (Hlo : le_bytes 4 x = le_bytes 4 (u32 x)).
  { rewrite <- (le_bytes_value (le_bytes 4 x)) by apply le_bytes_is_byte.
    rewrite length_le_bytes. f_equal. apply le_value_bytes. }
  rewrite Hlo. unfold is_u in Hx. change (2 ^ 64) with (2 ^ 32 * 2 ^ 32) in Hx.
  assert (is_u 32 (Z.shiftr x 32)).
  { unfold is_u. rewrite Z.shiftr_div_pow2 by lia.
    split; [apply Z.div_pos; lia | apply Z.div_lt_upper_bound; lia]. }
  eapply parses_bind; [apply parses_u32, wrapU_range; lia|].
  eapply parses_last; [by apply parses_u32|].
  assert (Z.lor (u32 x) (Z.shiftl (Z.shiftr x (8 * Z.of_nat 4)) 32) = x) as ->;
    [|apply parses_ret].
  rewrite lor_shiftl_add by (try apply wrapU_range; lia).
  rewrite Z.shiftr_div_pow2 by lia. unfold wrapU.
  rewrite (Z_div_mod_eq_full x (2 ^ 32)) at 3. change (8 * Z.of_nat 4) with 32. lia.
Qed.

Lemma parses_i64 x : is_s 64 x -> parses (read_const_i64 data) (le_bytes 8 x) x.
Proof.
  intros Hx. unfold read_const_i64.
  assert (le_bytes 8 x = le_bytes 8 (u64 x)) as ->.
  { rewrite <- (le_bytes_value (le_bytes 8 x)) by apply le_bytes_is_byte.
    rewrite length_le_bytes. f_equal. apply le_value_bytes. }
  eapply parses_last; [apply parses_u64, wrapU_range; lia|].
  rewrite wrapS_wrapU, wrapS_id by (lia || done). apply parses_ret.
Qed.

(** ** Blocks *)

Lemma parses_block l msg : parses (rd_block data (zlen l) msg) l l.
Proof.
  intros s rest H. unfold rd_block. rewrite (at_need _ _ _ H). cbn [negb].
  pose proof (at_size _ _ H) as Hz. rewrite zlen_app in Hz. pose proof (zlen_nonneg rest).
  pose proof H as [Ho Hd].
  destruct (Z.leb_spec 0 (off s)); [|lia].
  destruct (Z.leb_spec (off s + zlen l) (zlen data)); [|lia]. cbn [andb].
  rewrite Hd. unfold zlen at 1. rewrite Nat2Z.id, take_app_length.
  eexists. split; [done|]. by eapply at_advance.
Qed.

Lemma parses_skip l msg : parses (rd_skip data (zlen l) msg) l ().
Proof.
  intros s rest H. unfold rd_skip. rewrite (at_need _ _ _ H). cbn [negb].
  eexists. split; [done|]. by eapply at_advance.
Qed.

Lemma parses_block_opt l msg :
  parses (if 0 <? zlen l then rd_block data (zlen l) msg else mret []) l l.
Proof.
  destruct l; [apply parses_ret|].
  destruct (Z.ltb_spec 0 (zlen (z :: l))) as [_|Hl]; [apply parses_block|].
  pose proof (zlen_nonneg l). rewrite zlen_cons in Hl. lia.
Qed.

Lemma parses_skip_opt l msg :
  parses (if 0 <? zlen l then rd_skip data (zlen l) msg else mret ()) l ().
Proof.
  destruct l; [apply parses_ret|].
  destruct (Z.ltb_spec 0 (zlen (z :: l))) as [_|Hl]; [apply parses_skip|].
  pose proof (zlen_nonneg l). rewrite zlen_cons in Hl. lia.
Qed.

(** A reader that goes back to where it started and reads the same bytes
    again. *)
Lemma parses_again {A B} (m1 : rd A) (m2 : A -> rd B) enc a b o :
  (forall s rest, at_ s (enc ++ rest) -> off s = o ->
    exists s', m1 s = Ret a s' /\ off s' = o) ->
  parses (m2 a) enc b ->
  forall s rest, at_ s (enc ++ rest) -> off s = o ->
  exists s', (m1 ≫= m2) s = Ret b s' /\ at_ s' rest.
Proof.
  intros H1 H2 s rest H Ho. destruct (H1 s rest H Ho) as (s1 & E1 & Ho1).
  destruct (H2 s1 rest) as (s2 & E2 & H2'); [eapply at_off; [done | congruence]|].
  exists s2. split; [|done]. unfold mbind, rd_bind. by rewrite E1.
Qed.

(** ** Sections of the file *)

Lemma block_sizes blocks :
  atoms_size (zlen <$> blocks) <= zlen (concat (enc_block <$> blocks)) /\
  zlen (concat blocks) <= zlen (concat (enc_block <$> blocks)).
Proof.
  induction blocks as [|l blocks IH]; cbn; [done|]. fold (atoms_size (zlen <$> blocks)).
  autorewrite with zlist. lia.
Qed.

Lemma atoms_size_nonneg' (blocks : list (list Z)) : 0 <= atoms_size (zlen <$> blocks).
Proof.
  induction blocks as [|l blocks IH]; cbn; [done|]. fold (atoms_size (zlen <$> blocks)).
  pose proof (zlen_nonneg l). lia.
Qed.

Lemma parses_atoms_pass1 atoms total :
  Forall block_ok atoms -> 0 <= total -> total + atoms_size (zlen <$> atoms) <= UINT32_MAX ->
  parses (atoms_pass1 data (length atoms) total) (concat (enc_block <$> atoms))
    (zlen <$> atoms, total + atoms_size (zlen <$> atoms)).
Proof.
  intros Hok. revert total. induction Hok as [|l atoms [Hl _] _ IH]; intros total H0 Hs.
  { cbn. rewrite Z.add_0_r. apply parses_ret. }
  cbn [concat fmap list_fmap length atoms_pass1 atoms_size foldr] in Hs |- *.
  fold (atoms_size (zlen <$> atoms)) in Hs |- *. unfold enc_block at 1.
  rewrite <- app_assoc. eapply parses_bind; [by apply parses_u32|].
  eapply parses_bind; [apply parses_skip_opt|].
  pose proof (zlen_nonneg l). pose proof (atoms_size_nonneg' atoms).
  unfold UINT32_MAX in *.
  rewrite (wrapU_id 64 (zlen l + 1)), wrapU_id by (unfold is_u; lia).
  eapply parses_last; [apply IH; lia|]. cbn.
  rewrite <- Z.add_assoc. apply parses_ret.
Qed.

Lemma parses_atoms_pass2 atoms total w :
  Forall block_ok atoms -> w + atoms_size (zlen <$> atoms) <= total ->
  parses (atoms_pass2 data (zlen <$> atoms) total w) (concat (enc_block <$> atoms)) atoms.
Proof.
  intros Hok. revert w. induction Hok as [|l atoms [Hl _] _ IH]; intros w Hs.
  { apply parses_ret. }
  cbn [concat fmap list_fmap atoms_pass2 atoms_size foldr] in Hs |- *.
  fold (atoms_size (zlen <$> atoms)) in Hs. unfold enc_block at 1.
  rewrite <- app_assoc. eapply parses_bind; [by apply parses_u32|].
  rewrite Z.eqb_refl. cbn [negb]. eapply parses_bind; [apply parses_block_opt|].
  pose proof (atoms_size_nonneg' atoms).
  destruct (Z.ltb_spec total (w + zlen l + 1)); [lia|].
  eapply parses_last; [apply IH; lia|]. apply parses_ret.
Qed.

Lemma parses_atoms natoms atoms :
  natoms = zlen atoms -> Forall block_ok atoms ->
  parses (read_atoms oom data natoms) (concat (enc_block <$> atoms)) atoms.
Proof.
  intros -> Hok. unfold read_atoms. destruct (Z.ltb_spec 0 (zlen atoms)) as [_|Hl].
  2:{ destruct atoms as [|a atoms]; [apply parses_ret|].
    pose proof (zlen_nonneg atoms). rewrite zlen_cons in Hl. lia. }
  intros s rest H. pose proof (at_size _ _ H) as Hz. rewrite zlen_app in Hz.
  pose proof (zlen_nonneg rest). pose proof (block_sizes atoms) as [Hs _].
  assert (Hs32 : atoms_size (zlen <$> atoms) <= UINT32_MAX) by (destruct H; lia).
  unfold mbind, rd_bind, get_off at 1. unfold malloc, malloc_at. rewrite Hoom.
  destruct (parses_atoms_pass1 atoms 0 Hok ltac:(lia) Hs32
      (mk_rd (off s) (nalloc s + 1)) rest) as (s1 & E1 & H1); [by eapply at_off|].
  unfold zlen at 1. rewrite Nat2Z.id, E1. rewrite !Hoom. cbn [set_off].
  apply parses_atoms_pass2; [done | lia | by eapply at_off].
Qed.

(** The index of the bytes pool. *)
Lemma parses_bytes_pass1 blocks total :
  Forall block_ok blocks -> 0 <= total -> total + zlen (concat blocks) <= UINT32_MAX ->
  parses (bytes_pass1 data (length blocks) total) (concat (enc_block <$> blocks))
    (combine (zlen <$> blocks) (starts total blocks), total + zlen (concat blocks)).
Proof.
  intros Hok. revert total. induction Hok as [|l blocks [Hl _] _ IH]; intros total H0 Hs.
  { cbn. rewrite Z.add_0_r. apply parses_ret. }
  cbn [concat fmap list_fmap length bytes_pass1 combine starts] in Hs |- *.
  rewrite zlen_app in Hs |- *. unfold enc_block at 1. rewrite <- app_assoc.
  eapply parses_bind; [by apply parses_u32|].
  eapply parses_bind; [apply parses_skip_opt|].
  pose proof (zlen_nonneg l). pose proof (zlen_nonneg (concat blocks)). unfold UINT32_MAX in *.
  rewrite wrapU_id by (unfold is_u; lia).
  eapply parses_last; [apply IH; lia|].
  rewrite <- Z.add_assoc. apply parses_ret.
Qed.

Lemma block_write_pre done l rest_len fill :
  block_write (done ++ replicate (length l + rest_len) fill) (zlen done) l =
  Some ((done ++ l) ++ replicate rest_len fill).
Proof.
  unfold block_write, zlen. rewrite length_app, length_replicate.
  destruct (Z.leb_spec 0 (Z.of_nat (length done))); [|lia].
  destruct (Z.leb_spec (Z.of_nat (length done) + Z.of_nat (length l))
      (Z.of_nat (length done + (length l + rest_len)))); [|lia].
  cbn [andb]. f_equal. rewrite <- Nat2Z.inj_add, !Nat2Z.id, take_app_length.
  rewrite <- app_assoc. f_equal. f_equal.
  rewrite drop_app, drop_ge, (Nat.add_comm (length done)), Nat.add_sub, app_nil_l by lia.
  rewrite drop_replicate. f_equal. lia.
Qed.

Lemma parses_bytes_pass2 blocks pre :
  Forall block_ok blocks ->
  parses (bytes_pass2 data (combine (zlen <$> blocks) (starts (zlen pre) blocks))
      (pre ++ replicate (length (concat blocks)) junk_byte))
    (concat (enc_block <$> blocks)) (pre ++ concat blocks).
Proof.
  intros Hok. revert pre. induction Hok as [|l blocks [Hl _] _ IH]; intros pre.
  { apply parses_ret. }
  cbn [concat fmap list_fmap bytes_pass2 combine starts]. unfold enc_block at 1.
  rewrite <- app_assoc. eapply parses_bind; [by apply parses_u32|].
  rewrite Z.eqb_refl. cbn [negb].
  specialize (IH (pre ++ l)). rewrite zlen_app, <- app_assoc in IH.
  destruct (Z.ltb_spec 0 (zlen l)).
  - eapply parses_bind; [apply parses_block|]. rewrite length_app, block_write_pre.
    rewrite <- app_assoc in *. exact IH.
  - destruct l; [|unfold zlen in *; cbn in *; lia]. rewrite zlen_nil, Z.add_0_r in *.
    rewrite app_nil_r in IH. exact IH.
Qed.

(** A slice of a concatenation, from the index the loader builds. *)
Lemma enc_pool_blocks blocks pre :
  enc_pool (zlen <$> blocks) (starts (zlen pre) blocks) (pre ++ concat blocks) =
  concat (enc_block <$> blocks).
Proof.
  revert pre. induction blocks as [|l blocks IH]; intros pre; [done|].
  specialize (IH (pre ++ l)). rewrite zlen_app, <- app_assoc in IH.
  unfold enc_pool in *. cbn [fmap list_fmap starts combine concat fst snd].
  f_equal; [|exact IH]. f_equal. unfold slice, zlen. rewrite !Nat2Z.id.
  by rewrite drop_app_length, take_app_length.
Qed.

Lemma parses_const_bytes m rest_ok :
  pool_ok (m_const_bytes_len m) (m_const_bytes_off m) (m_const_bytes_data m) ->
  m_nconst_bytes m = zlen (m_const_bytes_len m) ->
  (has_feature (m_features m) JELLO_BC_FEAT_CONSTBYTES = false -> m_nconst_bytes m = 0) ->
  m_features rest_ok = m_features m -> m_nconst_bytes rest_ok = m_nconst_bytes m ->
  parses (read_const_bytes junk_byte oom data rest_ok)
    (enc_pool (m_const_bytes_len m) (m_const_bytes_off m) (m_const_bytes_data m))
    (m_const_bytes_len m, m_const_bytes_off m, m_const_bytes_data m).
Proof.
  intros (blocks & Hlen & Hoff & Hdata & Hok) Hn Hno Hf Hnr.
  unfold read_const_bytes. rewrite Hf, Hnr, Hn, Hlen, Hoff, Hdata.
  assert (Hz : zlen (zlen <$> blocks) = zlen blocks) by (unfold zlen; by rewrite length_fmap).
  rewrite Hn, Hlen, Hz in Hno. rewrite Hz.
  pose proof (enc_pool_blocks blocks [] : enc_pool _ (starts 0 blocks) (concat blocks) = _)
    as ->.
  assert (Hempty : zlen blocks <= 0 -> blocks = []).
  { destruct blocks as [|b blocks]; [done|]. pose proof (zlen_nonneg blocks).
    rewrite zlen_cons. lia. }
  destruct (has_feature _ _).
  2:{ rewrite (Hempty ltac:(lia)). apply parses_ret. }
  destruct (Z.ltb_spec 0 (zlen blocks)) as [_|]; [|rewrite (Hempty ltac:(lia)); apply parses_ret].
  rewrite Hdata in Hok. destruct Hok as [Hc Hb].
  assert (Hblocks : Forall block_ok blocks).
  { apply Forall_forall. intros l Hl. apply list_elem_of_split in Hl as (l1 & l2 & ->).
    rewrite concat_app in Hc, Hb. cbn [concat] in Hc, Hb. rewrite !zlen_app in Hc.
    apply Forall_app in Hb as [_ Hb]. apply Forall_app in Hb as [Hb _].
    split; [|done]. pose proof (zlen_nonneg l). pose proof (zlen_nonneg (concat l1)).
    pose proof (zlen_nonneg (concat l2)). unfold is_u in *. lia. }
  intros s rest H. unfold mbind, rd_bind, malloc2, get_off. rewrite !Hoom. cbn [orb].
  destruct (parses_bytes_pass1 blocks 0 Hblocks ltac:(lia)
      ltac:(unfold is_u, UINT32_MAX in *; lia) (mk_rd (off s) (nalloc s + 2)) rest)
    as (s1 & E1 & H1); [by eapply at_off|].
  unfold zlen at 1. rewrite Nat2Z.id, E1. rewrite Z.add_0_l.
  assert (exists s2, (if 0 <? zlen (concat blocks) then malloc oom "oom const_bytes data"
      else mret ()) s1 = Ret () s2) as [s2 ->].
  { unfold malloc, malloc_at. destruct (0 <? _); [rewrite Hoom|]; by eexists. }
  cbn [set_off off].
  destruct (parses_bytes_pass2 blocks [] Hblocks (mk_rd (off s) (nalloc s2)) rest)
    as (s3 & E3 & H3); [by eapply at_off|].
  cbn [app] in E3. change (zlen []) with 0 in E3.
  assert (Z.to_nat (zlen (concat blocks)) = length (concat blocks)) as ->
    by apply Nat2Z.id.
  rewrite E3.
  exists s3. split; [|done].
  assert (length (starts 0 blocks) = length (zlen <$> blocks)) as Hls.
  { rewrite length_fmap. clear. generalize 0. induction blocks; intros o; cbn; auto. }
  by rewrite map_fst_combine, map_snd_combine.
Qed.

Lemma parses_header m :
  m_version m = 1 -> is_u 32 (m_features m) -> 0 <= m_entry m < m_nfuncs m ->
  is_u 32 (m_ntypes m) -> is_u 32 (m_nsigs m) -> is_u 32 (m_natoms m) ->
  is_u 32 (m_nfuncs m) -> is_u 32 (m_nconst_i64 m) -> is_u 32 (m_nconst_f64 m) ->
  is_u 32 (m_nconst_bytes m) ->
  (has_feature (m_features m) JELLO_BC_FEAT_CONST64 = false ->
    m_nconst_i64 m = 0 /\ m_nconst_f64 m = 0) ->
  (has_feature (m_features m) JELLO_BC_FEAT_CONSTBYTES = false -> m_nconst_bytes m = 0) ->
  parses (read_header data) (enc_header m)
    (mk_module (m_version m) (m_features m) (m_ntypes m) [] (m_nsigs m) [] (m_natoms m) []
      false (m_nconst_i64 m) [] (m_nconst_f64 m) [] (m_nconst_bytes m) [] [] []
      (m_nfuncs m) [] (m_entry m) 0 []).
Proof.
  intros Hv Hf He Ht Hs Ha Hfn Hi Hff Hb Hno64 Hnob. unfold read_header, enc_header.
  eapply parses_bind; [apply parses_u32; rewrite Hv; by vm_compute|].
  destruct (Z.eqb_spec (m_version m) 1) as [_|]; [|done]. cbn [negb].
  do 5 (eapply parses_bind; [by apply parses_u32|]).
  eapply parses_bind; [apply parses_u32; unfold is_u in *; lia|].
  destruct (Z.leb_spec (m_nfuncs m) (m_entry m)); [lia|].
  eapply (parses_bind _ _ _ _ (m_nconst_i64 m, m_nconst_f64 m)).
  { destruct (has_feature _ JELLO_BC_FEAT_CONST64).
    - eapply parses_bind; [by apply parses_u32|]. eapply parses_last; [by apply parses_u32|].
      apply parses_ret.
    - destruct Hno64 as [-> ->]; [done|]. apply parses_ret. }
  eapply parses_last; [|apply parses_ret].
  destruct (has_feature _ JELLO_BC_FEAT_CONSTBYTES); [by apply parses_u32|].
  rewrite Hnob by done. apply parses_ret.
Qed.

Lemma parses_type ntypes nsigs t :
  type_ok ntypes nsigs t -> parses (read_type data ntypes nsigs) (enc_type t) t.
Proof.
  intros [Hp Hk]. unfold read_type, enc_type.
  eapply parses_bind; [apply parses_u8; by destruct (te_kind t)|].
  eapply parses_bind; [by apply (parses_u8 0)|].
  eapply parses_bind; [by apply (parses_u16 0)|].
  eapply parses_bind; [by apply parses_u32|].
  eapply parses_last; [by apply (parses_u32 0)|].
  rewrite kind_of_code_of_kind.
  assert (Ht : mk_type_entry (te_kind t) (type_payload (te_kind t) (te_as t)) = t).
  { destruct t as [k p]. cbn in *. by destruct k; cbn; f_equal. }
  rewrite Ht. eapply parses_bind0; [|apply parses_ret]. apply parses_check.
  apply validate_type_entry_spec. by destruct (te_kind t).
Qed.

Lemma parses_type_id ntypes msg t :
  is_u 32 ntypes -> is_tid ntypes t -> parses (read_type_id data ntypes msg) (le_bytes 4 t) t.
Proof.
  unfold is_u, is_tid. intros. unfold read_type_id.
  eapply parses_last; [apply parses_u32; unfold is_u; lia|].
  destruct (Z.leb_spec ntypes t); [lia|]. apply parses_ret.
Qed.

Lemma parses_sig ntypes g :
  is_u 32 ntypes -> sig_ok ntypes g -> parses (read_sig oom data ntypes) (enc_sig g) g.
Proof.
  intros Hn (Hr & Hna & Hlen & Hargs). unfold read_sig, enc_sig.
  unfold is_tid in Hr. unfold is_u in Hn.
  eapply parses_bind; [apply parses_u32; unfold is_u; lia|].
  eapply parses_bind; [by apply parses_u16|].
  eapply parses_bind; [by apply (parses_u16 0)|].
  destruct (Z.leb_spec ntypes (sig_ret g)); [lia|].
  eapply (parses_last _ _ _ (sig_args g)); [|destruct g; apply parses_ret].
  apply parses_pool; [done|]. eapply Forall_impl; [exact Hargs|]. intros t Ht.
  by apply parses_type_id.
Qed.

Lemma parses_source_file l : block_ok l -> parses (read_source_file oom data) (enc_block l) l.
Proof.
  intros [Hl _]. unfold read_source_file, enc_block.
  eapply parses_bind; [by apply parses_u32|].
  intros s rest H. unfold mbind, rd_bind, get_off.
  destruct (parses_block l "unexpected EOF in source_files" s rest H) as (s1 & -> & H1).
  unfold malloc_at. rewrite Hoom. eexists. split; [done|]. by eapply at_off.
Qed.

Lemma parses_insn i : insn_wf i -> parses (read_insn data) (enc_insn i) i.
Proof.
  intros (Ho & Ha & Hb & Hc & Hi). unfold read_insn, enc_insn.
  do 4 (eapply parses_bind; [by apply parses_u8|]).
  eapply parses_last; [by apply parses_u32|]. destruct i. apply parses_ret.
Qed.

Lemma parses_insns m f insns j :
  (forall i ins, insns @! i = Some ins -> insn_ok junk_type junk_tid m f (j + i) ins) ->
  parses (read_insns junk_type junk_tid data m (f_reg_types f) (f_nregs f) (f_ninsns f)
      (length insns) j)
    (concat (enc_insn <$> insns)) insns.
Proof.
  revert j. induction insns as [|ins insns IH]; intros j Hok; [apply parses_ret|].
  cbn [length read_insns fmap list_fmap concat].
  destruct (Hok 0 ins eq_refl) as [Hwf Hval]. rewrite Z.add_0_r in Hval.
  eapply parses_bind; [by apply parses_insn|].
  eapply parses_bind0; [by apply parses_check|].
  eapply parses_last; [apply IH | apply parses_ret].
  intros i ins' Hi. replace (j + 1 + i) with (j + (i + 1)) by lia. apply Hok.
  pose proof (znth_Some _ _ _ Hi). change (ins :: insns) with ([ins] ++ insns).
  rewrite znth_app_r by (change (zlen [ins]) with 1; lia).
  change (zlen [ins]) with 1. by rewrite Z.add_simpl_r.
Qed.

Lemma parses_function m f :
  is_u 32 (m_ntypes m) -> function_ok junk_type junk_tid m f ->
  parses (read_function junk_type junk_tid oom data m) (enc_function (m_features m) f) f.
Proof.
  intros Hnt [Hnr Hmax Hregs Hcap Hnin Hbig Hins Htab Htry Hlines Hnl].
  pose proof (zlen_nonneg (f_reg_types f)). pose proof (zlen_nonneg (f_insns f)).
  unfold read_function, enc_function.
  eapply parses_bind; [apply parses_u32; unfold is_u; lia|].
  eapply (parses_bind _ _ _ _ (f_cap_start f)).
  { destruct (has_feature _ JELLO_BC_FEAT_CAP_START); [by apply parses_u32|].
    rewrite Hcap. apply parses_ret. }
  eapply parses_bind; [apply parses_u32; unfold is_u, INT32_MAX in *; lia|].
  destruct (Z.ltb_spec 256 (f_nregs f)); [lia|].
  eapply parses_bind.
  { apply parses_pool; [done|]. eapply Forall_impl; [exact Hregs|]. intros t Ht.
    by apply parses_type_id. }
  eapply (parses_bind _ _ _ _ (f_source_file f, f_lines f)).
  { unfold read_lines, lines_ok in *. destruct (has_feature _ JELLO_BC_FEAT_LINE_TABLE).
    - destruct Hlines as (Hsf & Hll & Hlw). eapply parses_bind; [by apply parses_u16|].
      eapply parses_last; [|apply parses_ret]. apply parses_pool; [done|].
      eapply Forall_impl; [exact Hlw|]. intros x.
      destruct (has_feature _ JELLO_BC_FEAT_LINE_COL); intros Hx; [by apply parses_u32 | by apply parses_u16].
    - destruct Hlines as [-> ->]. apply parses_ret. }
  eapply (parses_last _ _ _ (f_insns f));
    [|destruct f; cbn in Hnl |- *; rewrite Hnl; apply parses_ret].
  unfold read_code. destruct (Z.ltb_spec 0 (f_ninsns f)).
  2:{ destruct (f_insns f) as [|i l]; [apply parses_ret|].
    rewrite zlen_cons in *. pose proof (zlen_nonneg l). lia. }
  eapply parses_bind0; [apply parses_malloc|].
  rewrite Hnin at 2. unfold zlen at 1. rewrite Nat2Z.id.
  eapply parses_last; [apply parses_insns; intros i ins; apply Hins|].
  assert (Hwf : Forall insn_wf (f_insns f)).
  { apply Forall_znth. intros i ins Hi. by destruct (Hins i ins Hi). }
  destruct (function_semantics_spec (f_insns f) (f_ninsns f) ltac:(done) Hbig Hwf)
    as (vr & -> & Hvr).
  eapply parses_bind0; [apply parses_check; by apply Hvr | apply parses_ret].
Qed.

Lemma parses_body m : module_ok junk_type junk_tid m ->
  parses (read_body junk_type junk_tid junk_byte oom data) (encode_body m) m.
Proof.
  intros [Hv Hf He [Ht1 Ht2] Ht [Hs1 Hs2] Hs [Ha1 Ha2] Ha Hp Hc64 [Hi1 Hi2] Hi [Hd1 Hd2] Hd
      Hcb [Hb1 Hb2] Hb [Hf1 Hf2] Hfn Hlt [Hsr1 Hsr2] Hsr].
  unfold read_body, encode_body.
  eapply parses_bind; [by apply parses_header|].
  cbn [m_version m_features m_ntypes m_nsigs m_natoms m_nconst_i64 m_nconst_f64
      m_nconst_bytes m_nfuncs m_entry].
  eapply parses_bind; [apply parses_pool; [done|]; eapply Forall_impl; [exact Ht|];
      intros; by apply parses_type|].
  eapply parses_bind; [apply parses_pool; [done|]; eapply Forall_impl; [exact Hs|];
      intros; by apply parses_sig|].
  eapply parses_bind; [by apply parses_atoms|].
  rewrite (app_assoc (concat (le_bytes 8 <$> m_const_i64 m))).
  eapply (parses_bind _ _ _ _ (m_const_i64 m, m_const_f64 m)).
  { unfold read_const64. cbn [m_features m_nconst_i64 m_nconst_f64].
    destruct (has_feature _ JELLO_BC_FEAT_CONST64).
    - eapply parses_bind; [apply parses_pool; [done|]; eapply Forall_impl; [exact Hi|];
          intros; by apply parses_i64|].
      eapply parses_last; [|apply parses_ret]. apply parses_pool; [done|].
      eapply Forall_impl; [exact Hd|]. intros; by apply parses_u64.
    - destruct Hc64 as [E1 E2]; [done|]. rewrite E1 in Hi2. rewrite E2 in Hd2.
      destruct (m_const_i64 m), (m_const_f64 m); unfold zlen in *; try done. apply parses_ret. }
  eapply parses_bind; [by eapply (parses_const_bytes m)|].
  eapply (parses_bind _ _ _ _ (m_nsource_files m, m_source_files m)).
  { unfold read_source_files. cbn [m_features].
    destruct (has_feature _ JELLO_BC_FEAT_LINE_TABLE).
    - eapply parses_bind; [by apply parses_u32|]. eapply parses_last; [|apply parses_ret].
      apply parses_pool; [done|]. eapply Forall_impl; [exact Hsr|].
      intros; by apply parses_source_file.
    - rewrite Hlt in * by done. destruct (m_source_files m); [|done]. apply parses_ret. }
  eapply (parses_last _ _ _ (m_funcs m));
    [|cbn -[proto_enabled_of]; rewrite <- Hp; destruct m; apply parses_ret].
  apply parses_pool; [done|]. eapply Forall_impl; [exact Hfn|]. intros f Hfok.
  apply (parses_function (mk_module _ _ _ _ _ _ _ _ _ _ _ _ _ _ _ _ _ _ _ _ _ _)); [done|].
  destruct Hfok as [? ? ? ? ? ? Hins ? ? ? ?]. by destruct m; split.
Qed.
End Roundtrip.
