(* ===== verification/LoaderThms.v ===== *)
(** * Properties of the loader

    The theorems on [jello_bc_read], for any input and for encoded modules, and
    the end-to-end statement that joins loader and checker. *)

From S2P Require Import Prelude CInt Memory Bytecode Check CheckFacts FunCheck Loader LoaderSpec LoaderFacts LoaderRoundtrip.

(** ** A module that uses every section of the file *)

Definition demo_sig : jello_fun_sig := mk_fun_sig 1 2 [1; 3].

Definition demo_fun : jello_bc_function :=
  mk_function 2 0 [1; 2] 3
    [insn_of JOP_CONST_I32 0 0 0 7; insn_of JOP_SEXT_I64 1 0 0 0; insn_of JOP_RET 1 0 0 0]
    1 [10; 11; 12] 3.

(** All five feature bits; types as in [demo_types] and a function type; the atoms
    [__proto__] and the empty one; two byte constants. *)
Definition demo_full : jello_bc_module :=
  mk_module 1 31 6 (demo_types ++ [mk_type_entry JELLO_T_FUNCTION 0]) 1 [demo_sig]
    2 [proto_name; []] true 2 [-1; 5] 1 [4607182418800017408]
    2 [3; 0] [0; 3] [1; 2; 255] 1 [demo_fun] 0 1 [[97; 98]].

Definition no_oom (n : Z) : bool := false.

Definition junk_entry : jello_type_entry := mk_type_entry JELLO_T_BOOL 0.

Definition demo_bytes : list Z := encode demo_full ++ [7; 7].

Lemma demo_bytes_ok : Forall is_byte demo_bytes /\ zlen demo_bytes <= UINT32_MAX.
Proof.
  split; [|by vm_compute].
  apply (bool_decide_eq_true_1 (Forall (is_u 8) demo_bytes)). vm_compute. reflexivity.
Qed.

Lemma demo_loads : jello_bc_read junk_entry 0 0 no_oom demo_bytes false = Returned ok (Some demo_full).
Proof. vm_compute. reflexivity. Qed.

Lemma demo_full_ok : module_ok junk_entry 0 demo_full.
Proof.
  destruct demo_bytes_ok as [Hb Hs].
  pose proof (read_spec junk_entry 0 0 no_oom demo_bytes Hb Hs) as H. rewrite demo_loads in H.
  destruct H as [[_ H] | [H _]]; [exact H | discriminate H].
Qed.

(** ** Properties *)

Section Theorems.
Context (junk_type : jello_type_entry) (junk_tid : Z) (junk_byte : Z).
Context (oom : Z -> bool) (data : list Z).

Local Abbreviation jello_bc_read := (jello_bc_read junk_type junk_tid junk_byte oom data).

(** C13: on any buffer shorter than 4 GiB and under any pattern of allocation
    failures, the loader terminates without reading outside the buffer, writing
    outside a block it allocated, or looping in a checker pass. *)
Theorem jello_bc_read_memory_safe out_is_null :
  Forall is_byte data -> zlen data <= UINT32_MAX ->
  exists r out, jello_bc_read out_is_null = Returned r out.
Proof.
  intros Hb Hs. destruct out_is_null; [by eexists _, _|].
  pose proof (read_spec junk_type junk_tid junk_byte oom data Hb Hs) as H.
  by destruct (jello_bc_read false) as [r out|]; [exists r, out|].
Qed.

(** C1: a module the loader returns is well formed: its tables have the lengths
    its counts say, all type, signature and register-type ids are in range, the
    entry function exists, every instruction is accepted by the checker, switch
    tables and try blocks are complete, and the byte-constant index cuts the pool
    exactly. *)
Theorem jello_bc_read_module_ok r m :
  Forall is_byte data -> zlen data <= UINT32_MAX ->
  jello_bc_read false = Returned r (Some m) -> is_ok r = true ->
  module_ok junk_type junk_tid m.
Proof.
  intros Hb Hs Hr Hok. pose proof (read_spec junk_type junk_tid junk_byte oom data Hb Hs) as H.
  rewrite Hr in H. destruct H as [[_ H] | [H _]]; [exact H|].
  apply is_ok_inv in Hok. congruence.
Qed.

(** C29: a failing load reports an error with an offset inside the file and resets
    [*out], with one exception: on a file shorter than the magic word the empty
    module it allocated stays in [*out]. *)
Theorem jello_bc_read_error r out :
  Forall is_byte data -> zlen data <= UINT32_MAX ->
  jello_bc_read false = Returned r out -> is_ok r = false ->
  (out = None /\ 0 <= r_offset r <= zlen data) \/
  (zlen data < 4 /\ r_err r = JELLO_BC_EOF /\ out = Some empty_module).
Proof.
  intros Hb Hs Hr Hok. pose proof (read_spec junk_type junk_tid junk_byte oom data Hb Hs) as H.
  rewrite Hr in H. destruct out as [m|]; [right | left; by destruct H].
  destruct H as [[-> _] | (? & ? & ->)]; done.
Qed.

(** Every instruction of every function of a loaded module has an opcode, and
    all register accesses of its handler are to registers of the function and have
    the width of their slots. *)
Theorem loaded_insn_accesses r m f pc ins :
  Forall is_byte data -> zlen data <= UINT32_MAX ->
  jello_bc_read false = Returned r (Some m) -> is_ok r = true ->
  f ∈ m_funcs m -> f_insns f @! pc = Some ins ->
  let slot := fun r => slot_size junk_type m (reg_type junk_tid (f_reg_types f) r) in
  exists o, op_of_code (i_op ins) = Some o /\
  Forall (access_ok (f_nregs f) slot) (accesses slot o ins).
Proof.
  intros Hb Hs Hr Hok Hf Hins slot.
  pose proof (read_spec junk_type junk_tid junk_byte oom data Hb Hs) as H. rewrite Hr in H.
  destruct H as [[_ Hm] | [H _]]; [|apply is_ok_inv in Hok; congruence].
  pose proof (mo_funcs _ _ _ Hm) as Hfs. rewrite Forall_forall in Hfs.
  specialize (Hfs f Hf). destruct (fo_insns _ _ _ _ Hfs pc ins Hins) as [Hwf Hval].
  destruct (accepted_opcode _ _ _ _ _ _ _ _ _ Hval) as [o Ho]. exists o. split; [done|].
  eapply insn_accesses_ok; eauto using fo_max.
Qed.

(** C8: the loader implements the file format: the encoding of a well-formed
    module, with anything behind it, loads to exactly that module. *)
Theorem jello_bc_read_roundtrip m rest :
  module_ok junk_type junk_tid m -> (forall n, oom n = false) ->
  data = encode m ++ rest -> zlen data <= UINT32_MAX ->
  jello_bc_read false = Returned ok (Some m).
Proof.
  intros Hm Hoom Hdata Hsize. unfold Loader.jello_bc_read. rewrite Hoom.
  unfold encode in Hdata. rewrite <- app_assoc in Hdata.
  destruct (parses_u32 data Hsize JELLO_BC_MAGIC ltac:(by vm_compute) (mk_rd 0 1)
      (encode_body m ++ rest)) as (s & -> & Hs).
  { split; [cbn; pose proof (zlen_nonneg data); lia|]. cbn [off]. by rewrite drop_0. }
  rewrite Z.eqb_refl. cbn [negb].
  by destruct (parses_body junk_type junk_tid junk_byte oom data Hoom Hsize m Hm s rest Hs)
    as (s' & -> & _).
Qed.
End Theorems.

Lemma jello_bc_read_memory_safe_witness :
  exists r out, jello_bc_read junk_entry 0 0 (fun n => n =? 3) demo_bytes false = Returned r out.
Proof. apply jello_bc_read_memory_safe; apply demo_bytes_ok. Defined.

Lemma jello_bc_read_module_ok_witness : module_ok junk_entry 0 demo_full.
Proof.
  apply (jello_bc_read_module_ok junk_entry 0 0 no_oom demo_bytes ok);
    [apply demo_bytes_ok | apply demo_bytes_ok | exact demo_loads | reflexivity].
Defined.

(** A file of two bytes: the module stays in [*out]. *)
Lemma jello_bc_read_error_witness :
  let r := err JELLO_BC_EOF "unexpected EOF" 0 in
  (Some empty_module = None /\ 0 <= r_offset r <= 2) \/
  (2 < 4 /\ r_err r = JELLO_BC_EOF /\ Some empty_module = Some empty_module).
Proof.
  cbv zeta. apply (jello_bc_read_error junk_entry 0 0 no_oom [66; 89]);
    [| vm_compute; discriminate | vm_compute; reflexivity | reflexivity].
  apply (bool_decide_eq_true_1 (Forall (is_u 8) [66; 89])). vm_compute. reflexivity.
Defined.

Lemma loaded_insn_accesses_witness :
  let slot := fun r => slot_size junk_entry demo_full (reg_type 0 (f_reg_types demo_fun) r) in
  let ins := insn_of JOP_SEXT_I64 1 0 0 0 in
  exists o, op_of_code (i_op ins) = Some o /\
    Forall (access_ok (f_nregs demo_fun) slot) (accesses slot o ins).
Proof.
  cbv zeta.
  apply (loaded_insn_accesses junk_entry 0 0 no_oom demo_bytes ok demo_full demo_fun 1);
    [apply demo_bytes_ok | apply demo_bytes_ok | exact demo_loads | reflexivity | | reflexivity].
  apply list_elem_of_here.
Defined.

Lemma jello_bc_read_roundtrip_witness :
  jello_bc_read junk_entry 0 0 no_oom demo_bytes false = Returned ok (Some demo_full).
Proof.
  apply (jello_bc_read_roundtrip junk_entry 0 0 no_oom demo_bytes demo_full [7; 7]);
    [exact demo_full_ok | reflexivity | reflexivity | apply demo_bytes_ok].
Defined.
