(* ===== verification/Value.v ===== *)
(** * Tagged values

    The [jello_value] of src/include/jello.h: a 64-bit word whose low three bits
    are a tag; the classification codes of [vm_kindof_dynamic] and the object kind
    a typed pointer expects (src/vm/box.c). *)

From S2P Require Import Prelude CInt Bytecode.

Definition JELLO_TAG_PTR : Z := 0.
Definition JELLO_TAG_I32 : Z := 1.
Definition JELLO_TAG_ATOM : Z := 2.
Definition JELLO_TAG_BOOL : Z := 3.
Definition JELLO_TAG_NULL : Z := 4.

(** [(v & 0x7u) == t]. *)
Definition has_tag (t v : Z) : bool := Z.land v 7 =? t.

Definition jello_make_null : Z := JELLO_TAG_NULL.
Definition jello_is_null (v : Z) : bool := has_tag JELLO_TAG_NULL v.
Definition jello_bound_this_is_set (v : Z) : bool := negb (v =? 0) && negb (jello_is_null v).

Definition jello_make_bool (b : bool) : Z :=
  Z.lor (u64 (Z.shiftl (if b then 1 else 0) 3)) JELLO_TAG_BOOL.
Definition jello_is_bool (v : Z) : bool := has_tag JELLO_TAG_BOOL v.
Definition jello_as_bool (v : Z) : bool := Z.land (Z.shiftr v 3) 1 =? 1.

Definition jello_make_atom (atom_id : Z) : Z := Z.lor (u64 (Z.shiftl atom_id 3)) JELLO_TAG_ATOM.
Definition jello_is_atom (v : Z) : bool := has_tag JELLO_TAG_ATOM v.
Definition jello_as_atom (v : Z) : Z := u32 (Z.shiftr v 3).

Definition jello_make_i32 (x : Z) : Z := Z.lor (u64 (Z.shiftl (u32 x) 3)) JELLO_TAG_I32.
Definition jello_is_i32 (v : Z) : bool := has_tag JELLO_TAG_I32 v.
Definition jello_as_i32 (v : Z) : Z := i32 (u32 (Z.shiftr v 3)).

Definition jello_is_ptr (v : Z) : bool := has_tag JELLO_TAG_PTR v.

(** ** Object kinds and classification codes *)

Inductive jello_obj_kind : Set :=
| JELLO_OBJ_BYTES
| JELLO_OBJ_FUNCTION
| JELLO_OBJ_LIST
| JELLO_OBJ_ARRAY
| JELLO_OBJ_OBJECT
| JELLO_OBJ_ABSTRACT
| JELLO_OBJ_BOX_I64
| JELLO_OBJ_BOX_F64
| JELLO_OBJ_BOX_F32
| JELLO_OBJ_BOX_F16
| JELLO_OBJ_ENUM.

#[export] Instance jello_obj_kind_eq_dec : EqDecision jello_obj_kind.
Proof. solve_decision. Defined.

Definition code_of_obj_kind (k : jello_obj_kind) : Z :=
  match k with
  | JELLO_OBJ_BYTES => 1
  | JELLO_OBJ_FUNCTION => 2
  | JELLO_OBJ_LIST => 3
  | JELLO_OBJ_ARRAY => 4
  | JELLO_OBJ_OBJECT => 5
  | JELLO_OBJ_ABSTRACT => 6
  | JELLO_OBJ_BOX_I64 => 7
  | JELLO_OBJ_BOX_F64 => 8
  | JELLO_OBJ_BOX_F32 => 9
  | JELLO_OBJ_BOX_F16 => 10
  | JELLO_OBJ_ENUM => 11
  end.

Definition JELLO_KINDOF_NULL : Z := 0.
Definition JELLO_KINDOF_BOOL : Z := 1.
Definition JELLO_KINDOF_I32 : Z := 2.
Definition JELLO_KINDOF_ATOM : Z := 3.
Definition JELLO_KINDOF_ENUM : Z := 14.
Definition JELLO_KINDOF_UNKNOWN : Z := 0x7fffffff.
Definition JELLO_KINDOF_OBJ_BASE : Z := 3.
Definition JELLO_KINDOF_FROM_OBJ (k : jello_obj_kind) : Z :=
  JELLO_KINDOF_OBJ_BASE + code_of_obj_kind k.

(** [obj_kind a] is the [kind] word of the header at address [a]. *)
Definition vm_kindof_dynamic (obj_kind : Z -> Z) (v : Z) : Z :=
  if jello_is_null v then JELLO_KINDOF_NULL else
  if jello_is_bool v then JELLO_KINDOF_BOOL else
  if jello_is_i32 v then JELLO_KINDOF_I32 else
  if jello_is_atom v then JELLO_KINDOF_ATOM else
  if negb (jello_is_ptr v) then JELLO_KINDOF_UNKNOWN else
  let isk k := obj_kind v =? code_of_obj_kind k in
  if isk JELLO_OBJ_BYTES then JELLO_KINDOF_FROM_OBJ JELLO_OBJ_BYTES else
  if isk JELLO_OBJ_FUNCTION then JELLO_KINDOF_FROM_OBJ JELLO_OBJ_FUNCTION else
  if isk JELLO_OBJ_LIST then JELLO_KINDOF_FROM_OBJ JELLO_OBJ_LIST else
  if isk JELLO_OBJ_ARRAY then JELLO_KINDOF_FROM_OBJ JELLO_OBJ_ARRAY else
  if isk JELLO_OBJ_OBJECT then JELLO_KINDOF_FROM_OBJ JELLO_OBJ_OBJECT else
  if isk JELLO_OBJ_ABSTRACT then JELLO_KINDOF_FROM_OBJ JELLO_OBJ_ABSTRACT else
  if isk JELLO_OBJ_BOX_I64 then JELLO_KINDOF_FROM_OBJ JELLO_OBJ_BOX_I64 else
  if isk JELLO_OBJ_BOX_F64 then JELLO_KINDOF_FROM_OBJ JELLO_OBJ_BOX_F64 else
  if isk JELLO_OBJ_BOX_F32 then JELLO_KINDOF_FROM_OBJ JELLO_OBJ_BOX_F32 else
  if isk JELLO_OBJ_BOX_F16 then JELLO_KINDOF_FROM_OBJ JELLO_OBJ_BOX_F16 else
  if isk JELLO_OBJ_ENUM then JELLO_KINDOF_ENUM else
  JELLO_KINDOF_UNKNOWN.

Definition vm_expected_obj_kind_for_typed_ptr (k : jello_type_kind) : Z :=
  match k with
  | JELLO_T_BYTES => code_of_obj_kind JELLO_OBJ_BYTES
  | JELLO_T_FUNCTION => code_of_obj_kind JELLO_OBJ_FUNCTION
  | JELLO_T_LIST => code_of_obj_kind JELLO_OBJ_LIST
  | JELLO_T_ARRAY => code_of_obj_kind JELLO_OBJ_ARRAY
  | JELLO_T_OBJECT => code_of_obj_kind JELLO_OBJ_OBJECT
  | JELLO_T_ENUM => code_of_obj_kind JELLO_OBJ_ENUM
  | JELLO_T_ABSTRACT => code_of_obj_kind JELLO_OBJ_ABSTRACT
  | _ => 0
  end.

(** ** What a word means

    The specification of the encoding: the value a word stands for. *)
Inductive value_view : Set :=
| VPtr (addr : Z)
| VI32 (x : Z)
| VAtom (a : Z)
| VBool (b : bool)
| VNull.

Definition encode_view (w : value_view) : Z :=
  match w with
  | VPtr addr => addr
  | VI32 x => jello_make_i32 x
  | VAtom a => jello_make_atom a
  | VBool b => jello_make_bool b
  | VNull => jello_make_null
  end.

(** What the encoder may be given: an aligned address, a value of the C type. *)
Definition view_ok (w : value_view) : Prop :=
  match w with
  | VPtr addr => is_u 64 addr /\ addr mod 8 = 0
  | VI32 x => is_s 32 x
  | VAtom a => is_u 32 a
  | _ => True
  end.

(** Reading a word the way the VM does, by its predicates. *)
Definition decode_view (v : Z) : option value_view :=
  if jello_is_null v then Some VNull else
  if jello_is_bool v then Some (VBool (jello_as_bool v)) else
  if jello_is_i32 v then Some (VI32 (jello_as_i32 v)) else
  if jello_is_atom v then Some (VAtom (jello_as_atom v)) else
  if jello_is_ptr v then Some (VPtr v) else None.

(** The code a value is classified by. *)
Definition kindof_view (obj_kind : Z -> Z) (w : value_view) : Z :=
  match w with
  | VNull => JELLO_KINDOF_NULL
  | VBool _ => JELLO_KINDOF_BOOL
  | VI32 _ => JELLO_KINDOF_I32
  | VAtom _ => JELLO_KINDOF_ATOM
  | VPtr a => if decide (1 <= obj_kind a <= 11) then JELLO_KINDOF_OBJ_BASE + obj_kind a
              else JELLO_KINDOF_UNKNOWN
  end.

(** ** Tag arithmetic *)

Lemma tag_payload x t : is_u 32 x -> 0 <= t < 8 ->
  let v := Z.lor (u64 (Z.shiftl x 3)) t in
  v = t + x * 8 /\ Z.land v 7 = t /\ Z.shiftr v 3 = x /\ is_u 64 v.
Proof.
  intros [Hx0 Hx1] Ht v.
  assert (Hv : v = t + x * 8).
  { unfold v. rewrite wrapU_id.
    - rewrite Z.lor_comm. by rewrite (lor_shiftl_add t x 3).
    - unfold is_u. rewrite Z.shiftl_mul_pow2 by lia. change (2 ^ 3) with 8.
      change (2 ^ 64) with 18446744073709551616. change (2 ^ 32) with 4294967296 in *. lia. }
  split; [done|]. rewrite Hv. change 7 with (Z.ones 3).
  rewrite Z.land_ones, Z.shiftr_div_pow2 by lia. change (2 ^ 3) with 8.
  rewrite Z.mod_add, Z.div_add, Z.mod_small, Z.div_small by lia.
  split_and!; [done | done |]. unfold is_u. change (2 ^ 64) with 18446744073709551616.
  change (2 ^ 32) with 4294967296 in *. lia.
Qed.

Lemma land7 v : Z.land v 7 = v mod 8.
Proof. change 7 with (Z.ones 3). by rewrite Z.land_ones by lia. Qed.

(** What the predicates say of the words the encoder makes. *)
Lemma ptr_flags v : v mod 8 = 0 ->
  jello_is_ptr v = true /\ jello_is_i32 v = false /\ jello_is_null v = false /\
  jello_is_bool v = false /\ jello_is_atom v = false.
Proof.
  intros H. unfold jello_is_ptr, jello_is_i32, jello_is_null, jello_is_bool, jello_is_atom, has_tag.
  by rewrite land7, H.
Qed.

Lemma i32_flags x :
  jello_is_i32 (jello_make_i32 x) = true /\ jello_is_null (jello_make_i32 x) = false /\
  jello_is_ptr (jello_make_i32 x) = false /\ jello_as_i32 (jello_make_i32 x) = i32 x.
Proof.
  unfold jello_is_i32, jello_is_null, jello_is_ptr, has_tag, jello_as_i32, jello_make_i32.
  destruct (tag_payload (u32 x) JELLO_TAG_I32) as (_ & -> & -> & _); [apply wrapU_range; lia | done|].
  by rewrite wrapU_idemp, wrapS_wrapU by lia.
Qed.

Lemma atom_flags a : is_u 32 a ->
  jello_is_atom (jello_make_atom a) = true /\ jello_as_atom (jello_make_atom a) = a /\
  jello_is_ptr (jello_make_atom a) = false.
Proof.
  intros Ha. unfold jello_is_atom, jello_is_ptr, has_tag, jello_as_atom, jello_make_atom.
  destruct (tag_payload a JELLO_TAG_ATOM) as (_ & -> & -> & _); [done | done|].
  by rewrite wrapU_id.
Qed.

(** ** Properties *)

(** The tagged encoding is faithful: the word made from a value is read back,
    through the VM's own predicates and accessors, as exactly that value, so the
    five kinds of words never collide and no payload bit is lost. *)
Theorem value_roundtrip w : view_ok w -> decode_view (encode_view w) = Some w.
Proof.
  unfold decode_view, jello_is_null, jello_is_bool, jello_is_i32, jello_is_atom, jello_is_ptr,
    has_tag. destruct w as [addr|x|a|b|]; cbn [view_ok encode_view]; intros H.
  - destruct H as [Hu Hm]. by rewrite land7, Hm.
  - unfold jello_make_i32, jello_as_i32.
    destruct (tag_payload (u32 x) JELLO_TAG_I32) as (_ & -> & -> & _);
      [apply wrapU_range; lia | done |]. cbn.
    by rewrite wrapU_idemp, wrapS_wrapU, wrapS_id by (lia || done).
  - unfold jello_make_atom, jello_as_atom.
    destruct (tag_payload a JELLO_TAG_ATOM) as (_ & -> & -> & _); [done | done |]. cbn.
    by rewrite wrapU_id.
  - by destruct b.
  - done.
Qed.

Lemma value_roundtrip_witness :
  decode_view (encode_view (VI32 (-5))) = Some (VI32 (-5)).
Proof. apply value_roundtrip. split; [discriminate | reflexivity]. Defined.

(** [kindof] classifies a value by what it is: four immediate codes, the header
    kind shifted by three for a heap object, and [UNKNOWN] (which no case of a
    [switch_kind] can name, case kinds being bytes) for any other header. *)
Theorem kindof_dynamic_spec obj_kind w :
  view_ok w -> vm_kindof_dynamic obj_kind (encode_view w) = kindof_view obj_kind w.
Proof.
  unfold vm_kindof_dynamic, jello_is_null, jello_is_bool, jello_is_i32, jello_is_atom,
    jello_is_ptr, has_tag. destruct w as [addr|x|a|b|]; cbn [view_ok encode_view]; intros H.
  - destruct H as [Hu Hm]. rewrite land7, Hm. cbn -[Z.eqb]. generalize (obj_kind addr) as k.
    intros k. change (0 =? JELLO_TAG_NULL) with false. change (0 =? JELLO_TAG_BOOL) with false.
    change (0 =? JELLO_TAG_I32) with false. change (0 =? JELLO_TAG_ATOM) with false.
    change (0 =? JELLO_TAG_PTR) with true. cbn [negb].
    repeat match goal with |- context [k =? ?c] =>
      destruct (Z.eqb_spec k c) as [->|]; [done|] end.
    case_decide; [lia | done].
  - unfold jello_make_i32. by destruct (tag_payload (u32 x) JELLO_TAG_I32) as (_ & -> & _);
      [apply wrapU_range; lia | done |].
  - unfold jello_make_atom. by destruct (tag_payload a JELLO_TAG_ATOM) as (_ & -> & _).
  - by destruct b.
  - done.
Qed.

Lemma kindof_dynamic_spec_witness :
  vm_kindof_dynamic (fun _ => 11) (encode_view (VPtr 4096)) = JELLO_KINDOF_ENUM.
Proof. apply (kindof_dynamic_spec (fun _ => 11) (VPtr 4096)). by vm_compute. Defined.
