(* ===== verification/Object.v ===== *)
(** * Objects: an open-addressing hash table

    Model of src/src/types/object.c: linear probing with tombstones, growth at a
    load of 0.7, and a four-entry inline cache.  The table's arrays are lists; the
    memory of a fresh table that [memset] does not reach (keys and values) holds
    [junk].  The probe loops are [for(;;)]: they take fuel, and [None] is a probe
    that has not ended.  A failing [malloc] in [rehash] aborts the process and is
    not modelled. *)

From S2P Require Import Prelude CInt Value.

Inductive slot_state : Set := EMPTY | OCCUPIED | TOMB.

#[export] Instance slot_state_eq_dec : EqDecision slot_state.
Proof. solve_decision. Defined.

Definition JELLO_OBJECT_INIT_CAP : Z := 8.
Definition JELLO_OBJECT_LOAD_NUM : Z := 10.
Definition JELLO_OBJECT_LOAD_DEN : Z := 7.
Definition JELLO_OBJ_IC_NONE : Z := UINT32_MAX.

Record jello_object : Set := mk_object {
  o_type_id : Z;
  o_proto : Z;                (* jello_object*, 0 is NULL *)
  o_len : Z;
  o_cap : Z;
  o_inline : bool;            (* the table follows the header *)
  o_keys : list Z;
  o_vals : list Z;
  o_states : list slot_state;
  ic_atom : Z;
  ic_slot : Z;
  ic_cap : Z;
  ic_poly_atom : list Z;      (* [3] *)
  ic_poly_slot : list Z       (* [3] *)
}.

Definition hash_u32 (x : Z) : Z :=
  let x := Z.lxor x (Z.shiftr x 16) in
  let x := u32 (x * 0x7feb352d) in
  let x := Z.lxor x (Z.shiftr x 15) in
  let x := u32 (x * 0x846ca68b) in
  Z.lxor x (Z.shiftr x 16).

(** ** Sizes *)

Definition object_table_bytes (cap : Z) : Z :=
  let keys := cap * 4 in
  let align := 8 in
  let pad := (align - keys mod align) mod align in
  keys + pad + cap * 8 + cap.

(** The offsets of keys, values and states in the block. *)
Definition object_table_layout (cap : Z) : Z * Z * Z :=
  let keys := cap * 4 in
  let align := 8 in
  let pad := (align - keys mod align) mod align in
  (0, keys + pad, keys + pad + cap * 8).

(** ** Field updates *)

Definition with_ic (o : jello_object) (atom slot cap : Z) (pa ps : list Z) : jello_object :=
  mk_object (o_type_id o) (o_proto o) (o_len o) (o_cap o) (o_inline o) (o_keys o) (o_vals o)
    (o_states o) atom slot cap pa ps.

Definition with_proto (o : jello_object) (p : Z) : jello_object :=
  mk_object (o_type_id o) p (o_len o) (o_cap o) (o_inline o) (o_keys o) (o_vals o)
    (o_states o) (ic_atom o) (ic_slot o) (ic_cap o) (ic_poly_atom o) (ic_poly_slot o).

Definition with_len (o : jello_object) (n : Z) : jello_object :=
  mk_object (o_type_id o) (o_proto o) n (o_cap o) (o_inline o) (o_keys o) (o_vals o)
    (o_states o) (ic_atom o) (ic_slot o) (ic_cap o) (ic_poly_atom o) (ic_poly_slot o).

(** [o->keys[i] = k; o->states[i] = st; o->vals[i] = v;] *)
Definition with_slot (o : jello_object) (i k : Z) (st : slot_state) (v : Z) : jello_object :=
  mk_object (o_type_id o) (o_proto o) (o_len o) (o_cap o) (o_inline o) ((o_keys o) @[i := k])
    ((o_vals o) @[i := v]) ((o_states o) @[i := st]) (ic_atom o) (ic_slot o) (ic_cap o)
    (ic_poly_atom o) (ic_poly_slot o).

Definition with_val (o : jello_object) (i v : Z) : jello_object :=
  mk_object (o_type_id o) (o_proto o) (o_len o) (o_cap o) (o_inline o) (o_keys o)
    ((o_vals o) @[i := v]) (o_states o) (ic_atom o) (ic_slot o) (ic_cap o)
    (ic_poly_atom o) (ic_poly_slot o).

Definition with_state (o : jello_object) (i : Z) (st : slot_state) : jello_object :=
  mk_object (o_type_id o) (o_proto o) (o_len o) (o_cap o) (o_inline o) (o_keys o) (o_vals o)
    ((o_states o) @[i := st]) (ic_atom o) (ic_slot o) (ic_cap o)
    (ic_poly_atom o) (ic_poly_slot o).

Definition state_at (o : jello_object) (i : Z) : slot_state := zget EMPTY (o_states o) i.
Definition key_at (o : jello_object) (i : Z) : Z := zget 0 (o_keys o) i.
Definition val_at (o : jello_object) (i : Z) : Z := zget 0 (o_vals o) i.

(** [o->states[i] == JELLO_OBJ_SLOT_OCCUPIED && o->keys[i] == atom_id] *)
Definition holds_key (o : jello_object) (i atom_id : Z) : bool :=
  bool_decide (state_at o i = OCCUPIED) && (key_at o i =? atom_id).

(** ** Inline cache *)

Definition jello_object_invalidate_ic (o : jello_object) : jello_object :=
  with_ic o JELLO_OBJ_IC_NONE 0 0 (replicate 3 JELLO_OBJ_IC_NONE) (replicate 3 0).

Definition object_ic_store (o : jello_object) (atom_id slot : Z) : jello_object :=
  if (ic_atom o =? atom_id) && (ic_cap o =? o_cap o) then
    with_ic o (ic_atom o) slot (ic_cap o) (ic_poly_atom o) (ic_poly_slot o)
  else
    let shift := negb (ic_atom o =? JELLO_OBJ_IC_NONE) && (ic_cap o =? o_cap o) in
    let pa := if shift then [ic_atom o; zget 0 (ic_poly_atom o) 0; zget 0 (ic_poly_atom o) 1]
              else ic_poly_atom o in
    let ps := if shift then [ic_slot o; zget 0 (ic_poly_slot o) 0; zget 0 (ic_poly_slot o) 1]
              else ic_poly_slot o in
    with_ic o atom_id slot (o_cap o) pa ps.

(** The loop over the three older entries from [p] on. *)
Fixpoint ic_poly_loop (o : jello_object) (atom_id p : Z) (n : nat) : jello_object * option Z :=
  match n with
  | O => (o, None)
  | S n' =>
      if negb (zget 0 (ic_poly_atom o) p =? atom_id) then ic_poly_loop o atom_id (p + 1) n'
      else
        let i := zget 0 (ic_poly_slot o) p in
        if (o_cap o <=? i) || negb (holds_key o i atom_id) then
          ic_poly_loop (with_ic o (ic_atom o) (ic_slot o) (ic_cap o)
                          ((ic_poly_atom o) @[p := JELLO_OBJ_IC_NONE]) (ic_poly_slot o))
            atom_id (p + 1) n'
        else
          (with_ic o atom_id i (ic_cap o) ((ic_poly_atom o) @[p := ic_atom o])
             ((ic_poly_slot o) @[p := ic_slot o]), Some i)
  end.

Definition object_ic_try (o : jello_object) (atom_id : Z) : jello_object * option Z :=
  if negb (ic_cap o =? o_cap o) then (o, None)
  else if ic_atom o =? atom_id then
    let i := ic_slot o in
    if (i <? o_cap o) && holds_key o i atom_id then (o, Some i)
    else (jello_object_invalidate_ic o, None)
  else ic_poly_loop o atom_id 0 3.

(** ** Probing *)

Definition mask (o : jello_object) : Z := u32 (o_cap o - 1).

(** The [for(;;)] of [find_slot]: the slot and whether the key was found there. *)
Fixpoint find_loop (fuel : nat) (o : jello_object) (atom_id i first_tomb : Z)
    : option (bool * Z) :=
  match fuel with
  | O => None
  | S fuel' =>
      let next ft := find_loop fuel' o atom_id (Z.land (u32 (i + 1)) (mask o)) ft in
      match state_at o i with
      | EMPTY => Some (false, if negb (first_tomb =? UINT32_MAX) then first_tomb else i)
      | OCCUPIED => if key_at o i =? atom_id then Some (true, i) else next first_tomb
      | TOMB => next (if first_tomb =? UINT32_MAX then i else first_tomb)
      end
  end.

Definition find_slot (fuel : nat) (o : jello_object) (atom_id : Z)
    : option (jello_object * bool * Z) :=
  if o_len o =? 0 then Some (o, false, Z.land (hash_u32 atom_id) (mask o))
  else
    '(found, i) ← find_loop fuel o atom_id (Z.land (hash_u32 atom_id) (mask o)) UINT32_MAX;
    Some (if found : bool then object_ic_store o atom_id i else o, found, i).

(** The linear scan of small tables. *)
Fixpoint scan_loop (o : jello_object) (atom_id i : Z) (n : nat) : option Z :=
  match n with
  | O => None
  | S n' => if holds_key o i atom_id then Some i else scan_loop o atom_id (i + 1) n'
  end.

Fixpoint probe_loop (fuel : nat) (o : jello_object) (atom_id i : Z) : option (option Z) :=
  match fuel with
  | O => None
  | S fuel' =>
      match state_at o i with
      | EMPTY => Some None
      | st => if bool_decide (st = OCCUPIED) && (key_at o i =? atom_id) then Some (Some i)
              else probe_loop fuel' o atom_id (Z.land (u32 (i + 1)) (mask o))
      end
  end.

(** [(o, None)] is [*found = 0]. *)
Definition find_occupied_slot (fuel : nat) (o : jello_object) (atom_id : Z)
    : option (jello_object * option Z) :=
  match object_ic_try o atom_id with
  | (o, Some i) => Some (o, Some i)
  | (o, None) =>
      if o_len o =? 0 then Some (o, None)
      else
        let finish (r : option Z) :=
          match r with
          | Some i => (object_ic_store o atom_id i, Some i)
          | None => (o, None)
          end in
        if (o_len o <=? 8) && (o_cap o <=? JELLO_OBJECT_INIT_CAP) then
          Some (finish (scan_loop o atom_id 0 (Z.to_nat (o_cap o))))
        else
          finish <$> probe_loop fuel o atom_id (Z.land (hash_u32 atom_id) (mask o))
  end.

Section Ops.
Context (junk : Z).

(** [object_bind_table] and the [memset] of the states. *)
Definition bind_fresh_table (o : jello_object) (inline : bool) (cap : Z) : jello_object :=
  mk_object (o_type_id o) (o_proto o) (o_len o) cap inline
    (replicate (Z.to_nat cap) junk) (replicate (Z.to_nat cap) junk)
    (replicate (Z.to_nat cap) EMPTY)
    (ic_atom o) (ic_slot o) (ic_cap o) (ic_poly_atom o) (ic_poly_slot o).

Definition jello_object_init_empty (type_id : Z) : jello_object :=
  jello_object_invalidate_ic
    (bind_fresh_table (mk_object type_id 0 0 0 true [] [] [] 0 0 0 [] [])
      true JELLO_OBJECT_INIT_CAP).

Definition jello_object_is_freelist_recyclable (o : jello_object) : bool :=
  o_inline o && (o_cap o =? JELLO_OBJECT_INIT_CAP).

Definition jello_object_reinit_from_freelist (o : jello_object) (type_id : Z) : jello_object :=
  jello_object_invalidate_ic
    (mk_object type_id 0 0 (o_cap o) (o_inline o) (o_keys o) (o_vals o)
      (replicate (Z.to_nat (o_cap o)) EMPTY)
      (ic_atom o) (ic_slot o) (ic_cap o) (ic_poly_atom o) (ic_poly_slot o)).

(** [recycled] is what the collector's free list returned, if anything. *)
Definition jello_object_new (recycled : option jello_object) (type_id : Z) : jello_object :=
  match recycled with
  | Some o => if jello_object_is_freelist_recyclable o
    then jello_object_reinit_from_freelist o type_id
    else jello_object_init_empty type_id
  | None => jello_object_init_empty type_id
  end.

Definition jello_object_has (fuel : nat) (o : jello_object) (atom_id : Z)
  : option (jello_object * bool) :=
  '(o1, r) ← find_occupied_slot fuel o atom_id;
  Some (o1, match r with Some _ => true | None => false end).

Definition jello_object_get (fuel : nat) (o : jello_object) (atom_id : Z)
  : option (jello_object * Z) :=
  '(o1, r) ← find_occupied_slot fuel o atom_id;
  Some (o1, match r with Some i => val_at o1 i | None => jello_make_null end).

Definition jello_object_get_slot (fuel : nat) (o : jello_object) (slot atom_id : Z)
  : option (jello_object * Z) :=
  if (slot <? o_cap o) && holds_key o slot atom_id then Some (o, val_at o slot)
  else jello_object_get fuel o atom_id.

(** The loop of [rehash] over the old table, from slot [i]. *)
Fixpoint rehash_loop (fuel : nat) (old o : jello_object) (i : Z) (n : nat)
  : option jello_object :=
  match n with
  | O => Some o
  | S n' =>
    if negb (bool_decide (state_at old i = OCCUPIED)) then rehash_loop fuel old o (i + 1) n'
    else
    '(o1, _, slot) ← find_slot fuel o (key_at old i);
    let o2 := with_slot o1 slot (key_at old i) OCCUPIED (val_at old i) in
    rehash_loop fuel old (with_len o2 (u32 (o_len o2 + 1))) (i + 1) n'
  end.

Definition rehash (fuel : nat) (o : jello_object) (new_cap : Z) : option jello_object :=
  o' ← rehash_loop fuel o (with_len (bind_fresh_table o false new_cap) 0) 0
    (Z.to_nat (o_cap o));
  Some (jello_object_invalidate_ic (with_len o' (o_len o))).

Definition ensure_cap (fuel : nat) (o : jello_object) : option jello_object :=
  if u32 (u32 (o_len o + 1) * JELLO_OBJECT_LOAD_NUM) <?
  u32 (o_cap o * JELLO_OBJECT_LOAD_DEN)
  then Some o else rehash fuel o (u32 (o_cap o * 2)).

(** The object, the index of the slot returned, and [*out_existed]. *)
Definition jello_object_upsert (fuel : nat) (o : jello_object) (atom_id : Z)
  : option (jello_object * Z * bool) :=
  o ← ensure_cap fuel o;
  '(o, found, i) ← find_slot fuel o atom_id;
  Some (if found : bool then object_ic_store o atom_id i
    else with_len (with_slot o i atom_id OCCUPIED jello_make_null) (u32 (o_len o + 1)),
    i, found).

Definition jello_object_set_slot (fuel : nat) (o : jello_object) (slot atom_id : Z)
  : option (jello_object * Z * bool) :=
  if (slot <? o_cap o) && holds_key o slot atom_id then Some (o, slot, true)
  else jello_object_upsert fuel o atom_id.

Definition jello_object_set (fuel : nat) (o : jello_object) (atom_id v : Z)
  : option jello_object :=
  '(o, i, _) ← jello_object_upsert fuel o atom_id;
  Some (with_val o i v).

Definition jello_object_remove (fuel : nat) (o : jello_object) (atom_id : Z)
  : option (jello_object * bool) :=
  '(o, found, i) ← find_slot fuel o atom_id;
  if negb found then Some (o, false)
  else
  let o1 := with_len (with_state o i TOMB) (u32 (o_len o - 1)) in
  Some (if (ic_atom o1 =? atom_id) && (ic_cap o1 =? o_cap o1) && (ic_slot o1 =? i)
    then jello_object_invalidate_ic o1 else o1, true).

Definition jello_object_clear (o : jello_object) : jello_object :=
  jello_object_invalidate_ic
    (with_len (mk_object (o_type_id o) (o_proto o) (o_len o) (o_cap o) (o_inline o) (o_keys o)
      (o_vals o) (replicate (Z.to_nat (o_cap o)) EMPTY) (ic_atom o) (ic_slot o)
      (ic_cap o) (ic_poly_atom o) (ic_poly_slot o)) 0).

(** [clone] is [vm_clone_numbox]. *)
Fixpoint copy_loop (fuel : nat) (clone : Z -> Z) (src dst : jello_object) (i : Z) (n : nat)
  : option jello_object :=
  match n with
  | O => Some dst
  | S n' =>
    if bool_decide (state_at src i = OCCUPIED) then
      dst' ← jello_object_set fuel dst (key_at src i) (clone (val_at src i));
    copy_loop fuel clone src dst' (i + 1) n'
    else copy_loop fuel clone src dst (i + 1) n'
  end.

Definition jello_object_copy (fuel : nat) (clone : Z -> Z) (recycled : option jello_object)
    (src : jello_object) : option jello_object :=
  dst ← copy_loop fuel clone src (jello_object_new recycled (o_type_id src)) 0
    (Z.to_nat (o_cap src));
  Some (with_proto dst (o_proto src)).
End Ops.
