(* ===== verification/ObjectFacts.v ===== *)
(** * Correctness of the object table

    [wf] is the invariant of the hash table, [repr o m] that the table stands for
    the finite map [m].  Every operation is a refinement of the map's as long as
    the table has a slot that is neither occupied nor a tombstone; without one a
    probe for an absent key does not end. *)

From S2P Require Import Prelude CInt Value Object.

(** ** Invariant and abstraction *)

(** The slot a probe for [k] starts at, and its [t]-th slot. *)
Definition home (o : jello_object) (k : Z) : Z := hash_u32 k mod o_cap o.

Definition probe (o : jello_object) (k t : Z) : Z := (home o k + t) mod o_cap o.

Definition occ (o : jello_object) (i k : Z) : Prop :=
  0 <= i < o_cap o /\ state_at o i = OCCUPIED /\ key_at o i = k.

Definition count_state (p : slot_state -> bool) (l : list slot_state) : Z :=
  foldr (fun s acc => (if p s then 1 else 0) + acc) 0 l.

Definition is_occ (s : slot_state) : bool := bool_decide (s = OCCUPIED).
Definition not_empty (s : slot_state) : bool := negb (bool_decide (s = EMPTY)).

(** Slots that are not [EMPTY]: live entries and tombstones. *)
Definition used (o : jello_object) : Z := count_state not_empty (o_states o).

Record wf (o : jello_object) : Prop := {
  wf_pow : exists p, 3 <= p <= 28 /\ o_cap o = 2 ^ p;
  wf_keys : zlen (o_keys o) = o_cap o;
  wf_vals : zlen (o_vals o) = o_cap o;
  wf_states : zlen (o_states o) = o_cap o;
  wf_len : o_len o = count_state is_occ (o_states o);
  wf_uniq : forall i j k, occ o i k -> occ o j k -> i = j;
  (* no hole on the way from a key's home to its slot *)
  wf_probe : forall t k, 0 <= t < o_cap o -> occ o (probe o k t) k ->
             forall t', 0 <= t' < t -> state_at o (probe o k t') <> EMPTY
}.

(** The table stands for [m]. *)
Definition repr (o : jello_object) (m : gmap Z Z) : Prop :=
  forall k v, m !! k = Some v <-> exists i, occ o i k /\ val_at o i = v.

(** Fuel that is always enough: one step per slot and one for the exit. *)
Definition enough (o : jello_object) : nat := S (Z.to_nat (2 * o_cap o)).

(** ** Counting *)

Lemma count_state_cons p s l :
  count_state p (s :: l) = (if p s then 1 else 0) + count_state p l.
Proof. done. Qed.

Lemma count_state_nonneg p l : 0 <= count_state p l <= zlen l.
Proof.
  induction l as [|s l IH]; [done|]. rewrite count_state_cons, zlen_cons.
  destruct (p s); lia.
Qed.

Lemma count_state_zset p l i s s' :
  l @! i = Some s ->
  count_state p (l @[i := s']) =
  count_state p l - (if p s then 1 else 0) + (if p s' then 1 else 0).
Proof.
  unfold znth, zset. case_decide; [|done]. generalize (Z.to_nat i) as n. clear.
  induction l as [|x l IH]; intros [|n] H; try done.
  - injection H as ->. change (<[0%nat:=s']> (s :: l)) with (s' :: l).
    rewrite !count_state_cons. lia.
  - change (<[S n:=s']> (x :: l)) with (x :: <[n:=s']> l).
    rewrite !count_state_cons, (IH n H). lia.
Qed.

Lemma count_state_replicate p s n :
  count_state p (replicate n s) = (if p s then 1 else 0) * Z.of_nat n.
Proof.
  induction n as [|n IH]; cbn; [lia|]. fold (count_state p (replicate n s)). rewrite IH. lia.
Qed.

(** A state below its maximum count has a witness of the complement. *)
Lemma count_state_hole p l : count_state p l < zlen l -> exists i s, l @! i = Some s /\ p s = false.
Proof.
  induction l as [|s l IH]; [done|]. rewrite count_state_cons, zlen_cons. intros H. destruct (p s) eqn:Hp.
  - destruct IH as (i & s' & Hi & Hs'); [lia|]. exists (i + 1), s'. split; [|done].
    pose proof (znth_Some _ _ _ Hi). change (s :: l) with ([s] ++ l).
    rewrite znth_app_r by (change (zlen [s]) with 1; lia).
    change (zlen [s]) with 1. by rewrite Z.add_simpl_r.
  - by exists 0, s.
Qed.

Lemma count_state_le p q l :
  (forall s, p s = true -> q s = true) -> count_state p l <= count_state q l.
Proof.
  intros H. induction l as [|s l IH]; [done|]. rewrite !count_state_cons. specialize (H s).
  destruct (p s), (q s); lia.
Qed.

Lemma count_state_zero p l i s : count_state p l = 0 -> l @! i = Some s -> p s = false.
Proof.
  intros Hc Hi. pose proof (count_state_zset p l i s s Hi) as Hz.
  destruct (p s) eqn:Hp; [|done]. exfalso.
  revert Hc Hi. unfold znth. case_decide; [|done]. generalize (Z.to_nat i) as n.
  clear -Hp. induction l as [|x l IH]; intros [|n] Hc Hi; try done;
    rewrite count_state_cons in Hc; pose proof (count_state_nonneg p l).
  - injection Hi as ->. rewrite Hp in Hc. lia.
  - destruct (p x); [lia|]. by apply (IH n).
Qed.

(** ** Probe positions *)

Section Table.
Context (o : jello_object) (Hwf : wf o).

Lemma cap_bounds : 8 <= o_cap o <= 2 ^ 28.
Proof.
  destruct (wf_pow _ Hwf) as (p & Hp & ->). split.
  - change 8 with (2 ^ 3). apply Z.pow_le_mono_r; lia.
  - apply Z.pow_le_mono_r; lia.
Qed.

Lemma mask_mod x : Z.land x (mask o) = x mod o_cap o.
Proof.
  pose proof cap_bounds as Hb. unfold mask.
  rewrite wrapU_id by (unfold is_u; change (2 ^ 32) with (16 * 2 ^ 28); lia).
  destruct (wf_pow _ Hwf) as (p & Hp & Hc). rewrite Hc.
  replace (2 ^ p - 1) with (Z.ones p) by (rewrite Z.ones_equiv; lia).
  apply Z.land_ones. lia.
Qed.

Lemma probe_range k t : 0 <= probe o k t < o_cap o.
Proof. pose proof cap_bounds. apply Z.mod_pos_bound. lia. Qed.

Lemma probe_0 k : probe o k 0 = home o k.
Proof. unfold probe, home. rewrite Z.add_0_r. apply Z.mod_mod. pose proof cap_bounds. lia. Qed.

Lemma probe_next k t : Z.land (u32 (probe o k t + 1)) (mask o) = probe o k (t + 1).
Proof.
  pose proof cap_bounds. pose proof (probe_range k t).
  rewrite wrapU_id by (unfold is_u; change (2 ^ 32) with (16 * 2 ^ 28); lia).
  rewrite mask_mod. unfold probe. rewrite Zplus_mod_idemp_l. f_equal. lia.
Qed.

(** Every slot is on every probe path. *)
Lemma probe_onto k i : 0 <= i < o_cap o -> exists t, 0 <= t < o_cap o /\ probe o k t = i.
Proof.
  intros Hi. pose proof cap_bounds. exists ((i - home o k) mod o_cap o).
  split; [apply Z.mod_pos_bound; lia|]. unfold probe.
  rewrite Zplus_mod_idemp_r. replace (home o k + (i - home o k)) with i by lia.
  by apply Z.mod_small.
Qed.

Lemma probe_inj k t1 t2 : 0 <= t1 < o_cap o -> 0 <= t2 < o_cap o ->
  probe o k t1 = probe o k t2 -> t1 = t2.
Proof.
  assert (Hd : forall t, 0 <= t < o_cap o -> (probe o k t - home o k) mod o_cap o = t).
  { intros t Ht. unfold probe. rewrite Zminus_mod_idemp_l.
    replace (home o k + t - home o k) with t by lia. by apply Z.mod_small. }
  intros H1 H2 H. by rewrite <- (Hd t1), <- (Hd t2), H.
Qed.

Lemma state_at_lookup i : 0 <= i < o_cap o -> o_states o @! i = Some (state_at o i).
Proof. intros. apply zget_znth. by rewrite (wf_states _ Hwf). Qed.

Lemma holds_key_occ i k : 0 <= i < o_cap o -> holds_key o i k = true <-> occ o i k.
Proof.
  intros Hi. unfold holds_key, occ. rewrite andb_true_iff, bool_decide_eq_true, Z.eqb_eq.
  intuition.
Qed.

Lemma used_hole : used o < o_cap o -> exists e, 0 <= e < o_cap o /\ state_at o e = EMPTY.
Proof.
  intros H. unfold used in H. rewrite <- (wf_states _ Hwf) in H.
  destruct (count_state_hole _ _ H) as (i & s & Hi & Hs).
  pose proof (znth_Some _ _ _ Hi). rewrite (wf_states _ Hwf) in *. exists i. split; [done|].
  rewrite state_at_lookup in Hi by done. simplify_eq.
  unfold not_empty in Hs. by bool_hyps.
Qed.

Lemma len_zero_absent i k : o_len o = 0 -> ~ occ o i k.
Proof.
  intros Hl (Hi & Hs & _). rewrite (wf_len _ Hwf) in Hl.
  pose proof (count_state_zero _ _ _ _ Hl (state_at_lookup i Hi)) as H.
  rewrite Hs in H. done.
Qed.

(** ** What a probe returns *)

(** A free slot at position [t1] of the probe of [k], reached over non-empty
    slots. *)
Definition free_at (k t1 : Z) : Prop :=
  0 <= t1 < o_cap o /\ state_at o (probe o k t1) <> OCCUPIED /\
  forall t, 0 <= t < t1 -> state_at o (probe o k t) <> EMPTY.

Definition find_result (k : Z) (r : bool * Z) : Prop :=
  if r.1 then occ o r.2 k
  else (forall i, ~ occ o i k) /\ exists t1, r.2 = probe o k t1 /\ free_at k t1.

(** An empty slot ends the search for a key. *)
Lemma empty_ends k t :
  0 <= t < o_cap o -> state_at o (probe o k t) = EMPTY ->
  (forall t', 0 <= t' < t -> ~ occ o (probe o k t') k) ->
  forall i, ~ occ o i k.
Proof.
  intros Ht He Hno i Hi. pose proof Hi as (Hr & Hs & _).
  destruct (probe_onto k i Hr) as (ti & Hti & <-).
  destruct (Z.lt_trichotomy ti t) as [H|[->|H]].
  - apply (Hno ti); [lia | done].
  - congruence.
  - apply (wf_probe _ Hwf ti k Hti Hi t); [lia | done].
Qed.

Lemma find_loop_spec k te fuel t ft :
  0 <= t <= te -> te < o_cap o -> state_at o (probe o k te) = EMPTY ->
  (Z.to_nat (te - t) < fuel)%nat ->
  (forall t', 0 <= t' < t -> state_at o (probe o k t') <> EMPTY /\ ~ occ o (probe o k t') k) ->
  (ft = UINT32_MAX \/ exists t1, 0 <= t1 < t /\ ft = probe o k t1 /\
    state_at o (probe o k t1) = TOMB) ->
  exists r, find_loop fuel o k (probe o k t) ft = Some r /\ find_result k r.
Proof.
  intros Ht Hte He. revert t ft Ht. induction fuel as [|fuel IH]; intros t ft Ht Hf Hpre Hft;
  [lia|]. cbn [find_loop].
  pose proof (probe_range k t) as Hr. pose proof cap_bounds as Hcap.
  assert (Hstep : forall ft', state_at o (probe o k t) <> EMPTY ->
      ~ occ o (probe o k t) k ->
      (ft' = UINT32_MAX \/ exists t1, 0 <= t1 < t + 1 /\ ft' = probe o k t1 /\
        state_at o (probe o k t1) = TOMB) ->
      exists r, find_loop fuel o k (Z.land (u32 (probe o k t + 1)) (mask o)) ft' = Some r /\
      find_result k r).
  { intros ft' Hne Hno Hft'. rewrite probe_next. assert (t <> te) by congruence.
    apply IH; [lia | lia | | done]. intros t' Ht'.
    destruct (decide (t' = t)) as [->|]; [done | apply Hpre; lia]. }
  destruct (state_at o (probe o k t)) eqn:Hs.
  - eexists. split; [done|]. cbn. split.
    { apply (empty_ends k t); [lia | done |]. intros t' Ht'. by apply Hpre. }
    destruct Hft as [->|(t1 & Ht1 & -> & Htomb)].
    + exists t. split; [done|]. split; [lia|]. split; [congruence|]. intros t' Ht'. by apply Hpre.
    + exists t1. pose proof (probe_range k t1).
      destruct (Z.eqb_spec (probe o k t1) UINT32_MAX).
      { unfold UINT32_MAX in *. change (2 ^ 28) with 268435456 in *. lia. }
      split; [done|]. split; [lia|]. split; [congruence|]. intros t' Ht'. apply Hpre. lia.
  - destruct (Z.eqb_spec (key_at o (probe o k t)) k) as [Hk|Hk].
    + eexists. split; [done|]. by split.
    + apply Hstep; [done | by intros (_ & _ & ?) |].
      destruct Hft as [?|(t1 & ? & ?)]; [by left | right; exists t1; split; [lia|done]].
  - apply Hstep; [done | intros (_ & ? & _); congruence |].
    destruct (Z.eqb_spec ft UINT32_MAX).
    + right. exists t. split; [lia|done].
    + destruct Hft as [?|(t1 & ? & ?)]; [done | right; exists t1; split; [lia|done]].
Qed.

(** The lookup-only probe. *)
Lemma probe_loop_spec k te fuel t :
  0 <= t <= te -> te < o_cap o -> state_at o (probe o k te) = EMPTY ->
  (Z.to_nat (te - t) < fuel)%nat ->
  (forall t', 0 <= t' < t -> ~ occ o (probe o k t') k) ->
  exists r, probe_loop fuel o k (probe o k t) = Some r /\
  match r with Some i => occ o i k | None => forall i, ~ occ o i k end.
Proof.
  intros Ht Hte He. revert t Ht. induction fuel as [|fuel IH]; intros t Ht Hf Hpre; [lia|].
  cbn [probe_loop]. pose proof (probe_range k t) as Hr.
  assert (Hstep : state_at o (probe o k t) <> EMPTY -> ~ occ o (probe o k t) k ->
      exists r, probe_loop fuel o k (Z.land (u32 (probe o k t + 1)) (mask o)) = Some r /\
      match r with Some i => occ o i k | None => forall i, ~ occ o i k end).
  { intros Hne Hno. rewrite probe_next. assert (t <> te) by congruence.
    apply IH; [lia | lia |]. intros t' Ht'.
    destruct (decide (t' = t)) as [->|]; [done | apply Hpre; lia]. }
  destruct (state_at o (probe o k t)) eqn:Hs.
  - eexists. split; [done|]. cbn iota. apply (empty_ends k t); [lia | done | done].
  - rewrite bool_decide_true by done. cbn [andb].
    destruct (Z.eqb_spec (key_at o (probe o k t)) k) as [Hk|Hk].
    + eexists. split; [done|]. by split.
    + apply Hstep; [done | by intros (_ & _ & ?)].
  - rewrite bool_decide_false by done. apply Hstep; [done | intros (_ & ? & _); congruence].
Qed.

Lemma scan_loop_spec k i n :
  0 <= i -> i + Z.of_nat n = o_cap o -> (forall j, 0 <= j < i -> ~ occ o j k) ->
  match scan_loop o k i n with Some j => occ o j k | None => forall j, ~ occ o j k end.
Proof.
  revert i. induction n as [|n IH]; intros i Hi Hn Hpre; cbn [scan_loop].
  - intros j Hj. apply (Hpre j); [destruct Hj as [? _]; lia | done].
  - destruct (holds_key o i k) eqn:Hk; [by apply holds_key_occ; [lia|]|].
    apply IH; [lia | lia |]. intros j Hj. destruct (decide (j = i)) as [->|]; [|apply Hpre; lia].
    rewrite <- holds_key_occ by lia. by rewrite Hk.
Qed.
End Table.

(** ** The inline cache never changes the table *)

Definition same_table (o o' : jello_object) : Prop :=
  o_type_id o' = o_type_id o /\ o_proto o' = o_proto o /\ o_len o' = o_len o /\
  o_cap o' = o_cap o /\ o_inline o' = o_inline o /\
  o_keys o' = o_keys o /\ o_vals o' = o_vals o /\ o_states o' = o_states o.

#[export] Instance same_table_refl : Reflexive same_table.
Proof. by intros o. Qed.

#[export] Instance same_table_trans : Transitive same_table.
Proof. unfold same_table. intros o1 o2 o3 H1 H2. intuition congruence. Qed.

Lemma ic_store_same o k i : same_table o (object_ic_store o k i).
Proof. unfold object_ic_store. by destruct (_ && _). Qed.

Lemma invalidate_same o : same_table o (jello_object_invalidate_ic o).
Proof. done. Qed.

Lemma ic_poly_loop_same o k p n : same_table o (ic_poly_loop o k p n).1.
Proof.
  revert o p. induction n as [|n IH]; intros o p; cbn [ic_poly_loop]; [done|].
  destruct (negb _); [apply IH|]. cbv zeta. destruct (_ || _); [|done].
  etransitivity; [|apply IH]. done.
Qed.

Lemma ic_try_same o k : same_table o (object_ic_try o k).1.
Proof.
  unfold object_ic_try. destruct (negb _); [done|]. destruct (ic_atom o =? k).
  - cbv zeta. by destruct (_ && _).
  - apply ic_poly_loop_same.
Qed.

#[export] Hint Resolve ic_store_same invalidate_same ic_try_same : jello.

Lemma same_occ o o' i k : same_table o o' -> occ o i k <-> occ o' i k.
Proof.
  unfold same_table, occ, state_at, key_at. intros (_ & _ & _ & -> & _ & -> & _ & ->). done.
Qed.

Lemma same_wf o o' : same_table o o' -> wf o -> wf o'.
Proof.
  intros Hs [Hp Hk Hv Hst Hl Hu Hpr]. pose proof (same_occ o o') as Ho.
  destruct Hs as (E1 & E2 & E3 & E4 & E5 & E6 & E7 & E8).
  assert (Hs : same_table o o') by done.
  split; rewrite ?E3, ?E4, ?E6, ?E7, ?E8; try done.
  - intros i j k. rewrite <- !Ho by done. apply Hu.
  - intros t k. unfold probe, home, state_at. rewrite E4, E8, <- Ho by done. apply Hpr.
Qed.

Lemma same_repr o o' m : same_table o o' -> repr o m -> repr o' m.
Proof.
  intros Hs Hr k v. rewrite (Hr k v). setoid_rewrite (same_occ o o'); [|done].
  unfold val_at. destruct Hs as (_ & _ & _ & _ & _ & _ & -> & _). done.
Qed.

Lemma same_used o o' : same_table o o' -> used o' = used o.
Proof. unfold used. intros (_ & _ & _ & _ & _ & _ & _ & ->). done. Qed.

(** A slot that holds a key is in the table, whatever index the cache gives. *)
Lemma holds_key_occ' o i k : wf o -> holds_key o i k = true -> occ o i k.
Proof.
  intros Hwf H. apply holds_key_occ; [|done]. unfold holds_key, state_at, zget in H.
  destruct (o_states o @! i) eqn:Hi.
  - rewrite <- (wf_states _ Hwf). by eapply znth_Some.
  - cbn in H. by rewrite bool_decide_false in H.
Qed.

(** A cache hit is a real entry. *)
Lemma ic_poly_loop_hit o k p n i o' :
  wf o -> ic_poly_loop o k p n = (o', Some i) -> occ o i k.
Proof.
  revert o p. induction n as [|n IH]; intros o p Hwf; cbn [ic_poly_loop]; [done|].
  destruct (negb _); [apply IH; done|]. cbv zeta. destruct (_ || _) eqn:Hg.
  - intros H. apply IH in H; [by eapply (same_occ o) in H | by eapply same_wf; [|exact Hwf]].
  - intros [= _ <-]. bool_hyps. by apply holds_key_occ'.
Qed.

Lemma ic_try_hit o k i o' : wf o -> object_ic_try o k = (o', Some i) -> occ o i k.
Proof.
  intros Hwf. unfold object_ic_try. destruct (negb _); [done|]. destruct (ic_atom o =? k).
  - cbv zeta. destruct (_ && _) eqn:Hg; [|done]. intros [= _ <-]. bool_hyps.
    by apply holds_key_occ'.
  - by apply ic_poly_loop_hit.
Qed.

(** ** Finding *)

Definition has_room (o : jello_object) : Prop := used o < o_cap o.

Lemma room_on_path o k : wf o -> has_room o ->
  exists te, 0 <= te < o_cap o /\ state_at o (probe o k te) = EMPTY.
Proof.
  intros Hwf Hr. destruct (used_hole o Hwf Hr) as (e & He & Hs).
  destruct (probe_onto o Hwf k e He) as (te & Hte & <-). by exists te.
Qed.

Lemma find_slot_spec fuel o k :
  wf o -> has_room o -> (Z.to_nat (o_cap o) <= fuel)%nat ->
  exists o' found i, find_slot fuel o k = Some (o', found, i) /\ same_table o o' /\
    (found = false -> o' = o) /\ find_result o k (found, i).
Proof.
  intros Hwf Hr Hf. pose proof (cap_bounds o Hwf). unfold find_slot.
  rewrite (mask_mod o Hwf). fold (home o k). rewrite <- (probe_0 o Hwf).
  destruct (Z.eqb_spec (o_len o) 0) as [H0|H0].
  - eexists _, _, _. split; [done|]. split; [done|]. split; [done|]. cbn. split.
    { intros i. by apply len_zero_absent. }
    exists 0. split; [done|]. split; [lia|]. split; [|intros t; lia].
    intros Hs. apply (len_zero_absent o Hwf (probe o k 0) (key_at o (probe o k 0)) H0).
    split; [by apply probe_range | done].
  - destruct (room_on_path o k Hwf Hr) as (te & Hte & He).
    destruct (find_loop_spec o Hwf k te fuel 0 UINT32_MAX) as ([found i] & -> & Hres);
      [lia | lia | done | lia | intros t'; lia | by left |].
    eexists _, _, _. split; [done|].
    split; [by destruct found; [apply ic_store_same|]|]. split; [by destruct found | done].
Qed.

Lemma find_occupied_spec fuel o k :
  wf o -> has_room o \/ o_cap o = JELLO_OBJECT_INIT_CAP -> (Z.to_nat (o_cap o) <= fuel)%nat ->
  exists o' r, find_occupied_slot fuel o k = Some (o', r) /\ same_table o o' /\
    match r with Some i => occ o i k | None => forall i, ~ occ o i k end.
Proof.
  intros Hwf Hr Hf. unfold find_occupied_slot.
  pose proof (ic_try_same o k) as Hsame. pose proof (fun i o' => ic_try_hit o k i o' Hwf) as Hhit.
  destruct (object_ic_try o k) as [o1 [i|]]; cbn [fst] in Hsame.
  { exists o1, (Some i). split; [done|]. split; [done|]. by eapply Hhit. }
  clear Hhit. pose proof (same_wf _ _ Hsame Hwf) as Hwf1. pose proof (cap_bounds o1 Hwf1) as Hcap.
  pose proof Hsame as (_ & _ & Hlen & Hc & _).
  destruct (Z.eqb_spec (o_len o1) 0) as [H0|H0].
  { exists o1, None. split; [done|]. split; [done|]. intros i. rewrite (same_occ _ _ _ _ Hsame).
    by apply len_zero_absent. }
  assert (Hfin : forall r, match r with Some i => occ o1 i k | None => forall i, ~ occ o1 i k end ->
    exists o' r', match r with Some i => (object_ic_store o1 k i, Some i) | None => (o1, None) end
      = (o', r') /\ same_table o o' /\
      match r' with Some i => occ o i k | None => forall i, ~ occ o i k end).
  { intros [i|] Hres; eexists _, _; (split; [done|]).
    - split; [etransitivity; [exact Hsame | auto with jello]|]. by apply (same_occ o o1).
    - split; [done|]. intros i. rewrite (same_occ _ _ _ _ Hsame). apply Hres. }
  cbv zeta. destruct (_ && _) eqn:Hsmall.
  - destruct (Hfin (scan_loop o1 k 0 (Z.to_nat (o_cap o1)))) as (o' & r' & -> & H); [|by exists o', r'].
    apply scan_loop_spec; [lia | lia | intros j; lia].
  - assert (Hroom : has_room o1).
    { unfold has_room. rewrite (same_used _ _ Hsame), Hc. destruct Hr as [Hr|Hr]; [exact Hr|].
      exfalso. pose proof (wf_len _ Hwf1). pose proof (count_state_nonneg is_occ (o_states o1)).
      rewrite (wf_states _ Hwf1) in *. unfold JELLO_OBJECT_INIT_CAP in *.
      apply andb_false_iff in Hsmall. destruct Hsmall; bool_hyps; lia. }
    rewrite (mask_mod o1 Hwf1). fold (home o1 k). rewrite <- (probe_0 o1 Hwf1).
    destruct (room_on_path o1 k Hwf1 Hroom) as (te & Hte & He).
    destruct (probe_loop_spec o1 Hwf1 k te fuel 0) as (r & -> & Hres);
      [lia | lia | done | rewrite Hc in *; lia | intros t'; lia |].
    cbn. destruct (Hfin r Hres) as (o' & r' & -> & H). by exists o', r'.
Qed.

(** ** Updates *)

Lemma repr_absent o m k : repr o m -> (forall i, ~ occ o i k) -> m !! k = None.
Proof.
  intros Hr Hno. destruct (m !! k) as [v|] eqn:Hk; [|done].
  apply Hr in Hk as (i & Hi & _). by apply Hno in Hi.
Qed.

Lemma repr_present o m i k : repr o m -> occ o i k -> m !! k = Some (val_at o i).
Proof. intros Hr Hi. apply Hr. by exists i. Qed.

Section Update.
Context (o : jello_object) (m : gmap Z Z) (Hwf : wf o) (Hr : repr o m).

Lemma at_zset {A} (d : A) l i x j :
  zlen l = o_cap o -> 0 <= i < o_cap o ->
  zget d (l @[i := x]) j = if decide (i = j) then x else zget d l j.
Proof.
  intros Hl Hi. unfold zget. rewrite znth_zset by lia. by case_decide.
Qed.

(** A new entry in a free slot of its probe path. *)
Section Put.
Context (k v t1 : Z) (Habs : forall i, ~ occ o i k) (Hfree : free_at o k t1).
Local Abbreviation idx := (probe o k t1).
Local Abbreviation o' := (with_len (with_slot o idx k OCCUPIED v) (u32 (o_len o + 1))).

Lemma put_state j : state_at o' j = if decide (idx = j) then OCCUPIED else state_at o j.
Proof. apply at_zset; [apply wf_states; done | by apply probe_range]. Qed.

Lemma put_key j : key_at o' j = if decide (idx = j) then k else key_at o j.
Proof. apply at_zset; [apply wf_keys; done | by apply probe_range]. Qed.

Lemma put_val j : val_at o' j = if decide (idx = j) then v else val_at o j.
Proof. apply at_zset; [apply wf_vals; done | by apply probe_range]. Qed.

Lemma put_occ j k' : occ o' j k' <-> (j = idx /\ k' = k) \/ (j <> idx /\ occ o j k').
Proof.
  unfold occ. rewrite put_state, put_key. pose proof (probe_range o Hwf k t1). cbn [o_cap with_len with_slot].
  case_decide; subst; intuition congruence.
Qed.

Lemma put_wf : wf o' /\ repr o' (<[k := v]> m) /\ o_cap o' = o_cap o /\
  used o' <= used o + 1 /\ o_len o' = o_len o + 1.
Proof.
  pose proof (cap_bounds o Hwf) as Hcap. pose proof (probe_range o Hwf k t1) as Hidx.
  pose proof (count_state_nonneg is_occ (o_states o)) as Hcnt.
  rewrite (wf_states _ Hwf), <- (wf_len _ Hwf) in Hcnt.
  destruct Hfree as (Ht1 & Hnocc & Hpath).
  assert (Hlen : u32 (o_len o + 1) = o_len o + 1).
  { apply wrapU_id. unfold is_u. change (2 ^ 32) with (16 * 2 ^ 28). lia. }
  pose proof (state_at_lookup o Hwf idx Hidx) as Hst.
  split; [|split; [|split; [done|split]]].
  - split; cbn [o_cap o_keys o_vals o_states o_len with_len with_slot];
      rewrite ?zlen_zset; try (apply Hwf).
    + rewrite Hlen, (count_state_zset _ _ _ _ _ Hst), (wf_len _ Hwf).
      assert (is_occ (state_at o idx) = false) as -> by (by apply bool_decide_false).
      change (is_occ OCCUPIED) with true. cbn iota. lia.
    + intros i j k'. rewrite !put_occ. intros [[-> ->]|[Hi Hi']] [[-> Hk]|[Hj Hj']]; try done.
      * by apply Habs in Hj'.
      * subst. by apply Habs in Hi'.
      * by eapply (wf_uniq _ Hwf).
    + intros t k' Ht. change (probe o' k' ?t) with (probe o k' t). rewrite put_occ.
      intros Hocc t' Ht'. rewrite put_state. case_decide; [done|].
      destruct Hocc as [[Heq ->]|[_ Hocc]].
      * apply (probe_inj o) in Heq; [subst; by apply Hpath | done | done].
      * by apply (wf_probe _ Hwf t k').
  - intros k' v'. setoid_rewrite put_occ.
    destruct (decide (k' = k)) as [->|Hne].
    + rewrite lookup_insert_eq. split.
      * intros [= <-]. exists idx. split; [by left|]. rewrite put_val. by case_decide.
      * intros (i & [[-> _]|[_ Hi]] & <-); [|by apply Habs in Hi].
        rewrite put_val. by case_decide.
    + rewrite lookup_insert_ne by done. rewrite (Hr k' v'). split.
      * intros (i & Hi & <-). exists i.
        assert (i <> idx) by (intros ->; destruct Hi as (_ & ? & _); done).
        split; [by right|]. rewrite put_val. by case_decide.
      * intros (i & [[_ ?]|[Hii Hi]] & <-); [done|]. exists i. split; [done|].
        rewrite put_val. by case_decide.
  - unfold used. cbn [o_states with_len with_slot].
    rewrite (count_state_zset _ _ _ _ _ Hst).
    change (not_empty OCCUPIED) with true. destruct (not_empty _); cbn iota; lia.
  - cbn. exact Hlen.
Qed.
End Put.

(** Writing the value of an entry. *)
Lemma with_val_wf i k v : occ o i k ->
  wf (with_val o i v) /\ repr (with_val o i v) (<[k := v]> m) /\
  o_cap (with_val o i v) = o_cap o /\ used (with_val o i v) = used o.
Proof.
  intros Hi. pose proof Hi as (Hrng & _ & _).
  assert (Hocc : forall j k', occ (with_val o i v) j k' <-> occ o j k') by done.
  assert (Hval : forall j, val_at (with_val o i v) j = if decide (i = j) then v else val_at o j).
  { intros j. apply at_zset; [apply wf_vals; done | done]. }
  split; [|split; [|done]].
  - destruct Hwf as [Hp Hk Hv Hst Hl Hu Hpr].
    split; try done. cbn [o_vals with_val o_cap]. by rewrite zlen_zset.
  - intros k' v'. setoid_rewrite Hocc. destruct (decide (k' = k)) as [->|Hne].
    + rewrite lookup_insert_eq. split.
      * intros [= ->]. exists i. split; [done|]. rewrite Hval. by case_decide.
      * intros (j & Hj & <-). rewrite Hval. case_decide; [done|].
        destruct (wf_uniq _ Hwf i j k Hi Hj). done.
    + rewrite lookup_insert_ne by done. rewrite (Hr k' v').
      split; intros (j & Hj & <-); exists j; (split; [done|]); rewrite Hval; case_decide;
        try done; subst; destruct Hi as (_ & _ & <-), Hj as (_ & _ & <-); done.
Qed.

(** A tombstone for an entry. *)
Lemma tomb_wf i k : occ o i k ->
  let o' := with_len (with_state o i TOMB) (u32 (o_len o - 1)) in
  wf o' /\ repr o' (delete k m) /\ used o' = used o.
Proof.
  intros Hi o'. pose proof Hi as (Hrng & Hsi & Hki). pose proof (cap_bounds o Hwf) as Hcap.
  pose proof (state_at_lookup o Hwf i Hrng) as Hst. rewrite Hsi in Hst.
  assert (Hstate : forall j, state_at o' j = if decide (i = j) then TOMB else state_at o j).
  { intros j. apply at_zset; [apply wf_states; done | done]. }
  assert (Hocc : forall j k', occ o' j k' <-> j <> i /\ occ o j k').
  { intros j k'. unfold occ. rewrite Hstate. change (key_at o' j) with (key_at o j).
    change (o_cap o') with (o_cap o). case_decide; subst; intuition congruence. }
  pose proof (count_state_zset is_occ _ _ _ TOMB Hst) as Hcnt.
  change (is_occ OCCUPIED) with true in Hcnt. change (is_occ TOMB) with false in Hcnt.
  cbn iota in Hcnt.
  pose proof (count_state_nonneg is_occ ((o_states o) @[i := TOMB])) as Hnn.
  rewrite Hcnt, zlen_zset, (wf_states _ Hwf), <- (wf_len _ Hwf) in Hnn.
  assert (Hlen : u32 (o_len o - 1) = o_len o - 1).
  { apply wrapU_id. unfold is_u. change (2 ^ 32) with (16 * 2 ^ 28). lia. }
  split; [|split].
  - destruct Hwf as [Hp Hk Hv Hsts Hl Hu Hpr].
    split; cbn [o_cap o_keys o_vals o_states o_len with_len with_state o']; rewrite ?zlen_zset;
      try done.
    + unfold o'. cbn [o_len with_len o_states with_state]. rewrite Hlen, Hcnt, Hl. lia.
    + intros a b k'. rewrite !Hocc. intros [_ Ha] [_ Hb]. by eapply Hu.
    + intros t k' Ht. change (probe o' k' ?t) with (probe o k' t). rewrite Hocc.
      intros [_ Hj] t' Ht'. rewrite Hstate. case_decide; [done|]. by apply (Hpr t k').
  - intros k' v'. setoid_rewrite Hocc. change (val_at o') with (val_at o).
    destruct (decide (k' = k)) as [->|Hne].
    + rewrite lookup_delete_eq. split; [done|]. intros (j & [Hj1 Hj2] & _).
      destruct Hj1. by eapply (wf_uniq _ Hwf).
    + rewrite lookup_delete_ne by done. rewrite (Hr k' v').
      split; [|intros (j & [_ ?] & ?); by exists j].
      intros (j & Hj & <-). exists j. split; [|done]. split; [|done]. intros ->.
      destruct Hi as (_ & _ & <-), Hj as (_ & _ & <-). done.
  - unfold used, o'. cbn [o_states with_len with_state].
    rewrite (count_state_zset _ _ _ _ _ Hst).
    change (not_empty OCCUPIED) with true. change (not_empty TOMB) with true. lia.
Qed.
End Update.

(** ** Fresh tables, growth *)

Lemma fresh_wf junk o inline cap :
  (exists p, 3 <= p <= 28 /\ cap = 2 ^ p) ->
  let o' := with_len (bind_fresh_table junk o inline cap) 0 in
  wf o' /\ repr o' ∅ /\ used o' = 0.
Proof.
  intros (p & Hp & ->) o'. assert (0 <= 2 ^ p) by (apply Z.pow_nonneg; lia).
  assert (Hs : forall i, state_at o' i = EMPTY).
  { intros i. unfold state_at, zget. destruct (o_states o' @! i) eqn:Hi; [|done].
    unfold znth in Hi. case_decide; [|done]. by apply lookup_replicate_1 in Hi as [-> _]. }
  assert (Hno : forall i k, ~ occ o' i k).
  { intros i k (_ & Hocc & _). by rewrite Hs in Hocc. }
  split; [|split].
  - split; try (cbn; by apply zlen_replicate).
    + by exists p.
    + change (0 = count_state is_occ (replicate (Z.to_nat (2 ^ p)) EMPTY)).
      by rewrite count_state_replicate.
    + intros i j k H1. by apply Hno in H1.
    + intros t k _ H1. by apply Hno in H1.
  - intros k v. rewrite lookup_empty. split; [done|]. intros (i & Hi & _). by apply Hno in Hi.
  - change (count_state not_empty (replicate (Z.to_nat (2 ^ p)) EMPTY) = 0).
    by rewrite count_state_replicate.
Qed.

(** The number of entries still to move from slot [i] on. *)
Definition live_from (o : jello_object) (i : Z) : Z :=
  count_state is_occ (drop (Z.to_nat i) (o_states o)).

Lemma live_from_step o i :
  wf o -> 0 <= i < o_cap o ->
  live_from o i = (if is_occ (state_at o i) then 1 else 0) + live_from o (i + 1).
Proof.
  intros Hwf Hi. pose proof (state_at_lookup o Hwf i Hi) as Hl. unfold live_from, znth in *.
  rewrite decide_True in Hl by lia. rewrite (drop_S _ _ _ Hl), count_state_cons.
  by replace (Z.to_nat (i + 1)) with (S (Z.to_nat i)) by lia.
Qed.

(** The entries of the slots before [i]. *)
Definition repr_upto (old : jello_object) (i : Z) (mi : gmap Z Z) : Prop :=
  forall k v, mi !! k = Some v <-> exists j, j < i /\ occ old j k /\ val_at old j = v.

Lemma rehash_loop_spec fuel old i n o mi :
  wf old -> 0 <= i -> i + Z.of_nat n = o_cap old ->
  wf o -> repr o mi -> repr_upto old i mi -> o_cap old < o_cap o ->
  (Z.to_nat (o_cap o) <= fuel)%nat -> used o <= i ->
  o_len o + live_from old i = o_len old -> used o = o_len o ->
  exists o' m, rehash_loop fuel old o i n = Some o' /\ wf o' /\ repr o' m /\
    repr_upto old (o_cap old) m /\ o_len o' = o_len old /\ o_cap o' = o_cap o /\
    used o' = o_len o' /\ o_type_id o' = o_type_id o /\ o_proto o' = o_proto o.
Proof.
  intros Hold. revert i o mi. induction n as [|n IH];
    intros i o mi Hi Hn Hwf Hr Hup Hcap Hf Hu Hlen Hul; cbn [rehash_loop].
  - assert (i = o_cap old) as -> by lia. exists o, mi. split_and!; try done.
    unfold live_from in Hlen. rewrite drop_ge in Hlen; [cbn in Hlen; lia|].
    pose proof (wf_states _ Hold). unfold zlen in *. lia.
  - rewrite (live_from_step old i Hold) in Hlen by lia.
    destruct (decide (state_at old i = OCCUPIED)) as [Hs|Hs].
    2:{ rewrite bool_decide_false by done. cbn [negb].
        unfold is_occ in Hlen. rewrite bool_decide_false in Hlen by done.
        apply (IH (i + 1) o mi); try done; try lia.
        intros k v. rewrite (Hup k v). split; intros (j & Hj & Hocc & Hv); exists j.
        - split; [lia | done].
        - split; [|done]. destruct (decide (j = i)) as [->|]; [|lia].
          by destruct Hocc as (_ & ? & _). }
    rewrite bool_decide_true by done. cbn [negb].
    unfold is_occ in Hlen. rewrite bool_decide_true in Hlen by done.
    assert (Hocc : occ old i (key_at old i)) by (split; [lia | done]).
    assert (Habs : forall j, ~ occ o j (key_at old i)).
    { intros j Hj. pose proof (repr_present _ _ _ _ Hr Hj) as Hm.
      apply Hup in Hm as (j' & Hj' & Hocc' & _).
      pose proof (wf_uniq _ Hold _ _ _ Hocc Hocc'). lia. }
    destruct (find_slot_spec fuel o (key_at old i) Hwf) as (o1 & found & slot & -> & Hsame & Ho1 & Hres);
      [unfold has_room; lia | done |].
    destruct found; [by apply Habs in Hres|]. rewrite (Ho1 eq_refl). clear o1 Hsame Ho1.
    destruct Hres as [_ (t1 & Heq & Hfree)]. cbn in Heq. subst slot.
    cbn [mbind option_bind].
    destruct (put_wf o mi Hwf Hr (key_at old i) (val_at old i) t1 Habs Hfree)
      as (Hwf' & Hr' & Hcap' & Hu' & Hl').
    cbn [snd] in *. change (o_len (with_slot o ?a ?b ?c ?d)) with (o_len o).
    pose proof (count_state_le is_occ not_empty) as Hle.
    set (o' := with_len (with_slot o (probe o (key_at old i) t1) (key_at old i) OCCUPIED
      (val_at old i)) (u32 (o_len o + 1))) in *.
    assert (o_len o' <= used o').
    { rewrite (wf_len _ Hwf'). apply Hle. by intros []. }
    edestruct (IH (i + 1) o' (<[key_at old i := val_at old i]> mi)) as (o2 & m & -> & Hfin);
      try done; try lia.
    2:{ exists o2, m. split; [done|]. rewrite <- Hcap'. exact Hfin. }
    intros k v. destruct (decide (k = key_at old i)) as [->|Hne].
    + rewrite lookup_insert_eq. split.
      * intros [= <-]. exists i. split; [lia | done].
      * intros (j & _ & Hj & <-). by rewrite (wf_uniq _ Hold _ _ _ Hocc Hj).
    + rewrite lookup_insert_ne by done. rewrite (Hup k v).
      split; intros (j & Hj & Hocc' & Hv); exists j; (split; [|done]); [lia|].
      destruct (decide (j = i)) as [->|]; [|lia]. by destruct Hocc' as (_ & _ & <-).
Qed.

Lemma rehash_spec junk fuel o m :
  wf o -> repr o m -> o_cap o <= 2 ^ 27 -> (Z.to_nat (2 * o_cap o) <= fuel)%nat ->
  exists o', rehash junk fuel o (2 * o_cap o) = Some o' /\ wf o' /\ repr o' m /\
    o_len o' = o_len o /\ o_cap o' = 2 * o_cap o /\ used o' = o_len o' /\
    o_type_id o' = o_type_id o /\ o_proto o' = o_proto o.
Proof.
  intros Hwf Hr Hcap Hf. pose proof (cap_bounds o Hwf).
  assert (Hpow : exists p, 3 <= p <= 28 /\ 2 * o_cap o = 2 ^ p).
  { destruct (wf_pow _ Hwf) as (p & Hp & Hc). exists (p + 1).
    assert (p <= 27). { apply (Z.pow_le_mono_r_iff 2); lia. }
    split; [lia|]. rewrite Z.pow_add_r, Hc by lia. lia. }
  destruct (fresh_wf junk o false (2 * o_cap o) Hpow) as (Hwf' & Hr' & Hu').
  unfold rehash.
  destruct (rehash_loop_spec fuel o 0 (Z.to_nat (o_cap o))
    (with_len (bind_fresh_table junk o false (2 * o_cap o)) 0) ∅)
    as (o' & m' & -> & Hw & Hrep & Hup & Hl & Hc & Hu & Ht & Hp);
    try done; try (cbn; lia).
  - intros k v. rewrite lookup_empty. split; [done|]. intros (j & Hj & [? _] & _). lia.
  - by rewrite Hu'.
  - by rewrite (wf_len _ Hwf).
  - assert (Hm : m' = m).
    { apply map_eq. intros k. apply option_eq. intros v. rewrite (Hup k v), (Hr k v).
      split; intros (j & Hj); exists j; [by destruct Hj as (_ & ? & ?)|].
      destruct Hj as [Hj ?]. split; [by destruct Hj as [[? ?] _] | done]. }
    subst m'. eexists. split; [done|]. rewrite <- Hl.
    assert (Hid : same_table o' (jello_object_invalidate_ic (with_len o' (o_len o')))) by done.
    split; [by eapply same_wf|]. split; [by eapply same_repr|]. split_and!; try done.
Qed.

Lemma ensure_cap_spec junk fuel o m :
  wf o -> repr o m -> o_cap o <= 2 ^ 27 -> (Z.to_nat (2 * o_cap o) <= fuel)%nat ->
  exists o', ensure_cap junk fuel o = Some o' /\ wf o' /\ repr o' m /\
    o_len o' = o_len o /\ (o_len o' + 1) * 10 < o_cap o' * 7 /\
    (o' = o \/ (o_cap o' = 2 * o_cap o /\ o_cap o * 7 <= (o_len o + 1) * 10 /\
       used o' = o_len o')) /\
    o_type_id o' = o_type_id o /\ o_proto o' = o_proto o.
Proof.
  intros Hwf Hr Hcap Hf. pose proof (cap_bounds o Hwf). unfold ensure_cap.
  pose proof (count_state_nonneg is_occ (o_states o)) as Hcnt.
  rewrite (wf_states _ Hwf), <- (wf_len _ Hwf) in Hcnt.
  unfold JELLO_OBJECT_LOAD_NUM, JELLO_OBJECT_LOAD_DEN.
  change (2 ^ 28) with (2 * 2 ^ 27) in *.
  assert (2 ^ 32 = 32 * 2 ^ 27) as H32 by done.
  rewrite !wrapU_id by (unfold is_u; rewrite ?wrapU_id; unfold is_u; lia).
  destruct (Z.ltb_spec ((o_len o + 1) * 10) (o_cap o * 7)).
  - exists o. split_and!; try done. by left.
  - rewrite (Z.mul_comm (o_cap o) 2).
    destruct (rehash_spec junk fuel o m Hwf Hr Hcap Hf) as (o' & -> & Hw & Hrep & Hl & Hc & Hu & ? & ?).
    exists o'. split_and!; try done; [lia|]. right. split_and!; done || lia.
Qed.
