(* ===== verification/ObjectThms.v ===== *)
(** * Properties of the object table

    Refinement of the finite map by every operation, histories of operations,
    termination for tables without removals, and the probe that never ends on a
    table whose free slots are all tombstones. *)

From S2P Require Import Prelude CInt Value Object ObjectFacts.

(** ** Operations as steps *)

Inductive obj_op : Set :=
| OSet (k v : Z)
| ORemove (k : Z)
| OClear
| OGet (k : Z)
| OHas (k : Z).

(** What an operation answers its caller. *)
Inductive obj_answer : Set :=
| Nothing
| Value (v : Z)
| Yes (b : bool).

Definition step_obj (junk : Z) (fuel : nat) (o : jello_object) (op : obj_op)
    : option (jello_object * obj_answer) :=
  match op with
  | OSet k v => o' ← jello_object_set junk fuel o k v; Some (o', Nothing)
  | ORemove k => '(o', b) ← jello_object_remove fuel o k; Some (o', Yes b)
  | OClear => Some (jello_object_clear o, Nothing)
  | OGet k => '(o', v) ← jello_object_get fuel o k; Some (o', Value v)
  | OHas k => '(o', b) ← jello_object_has fuel o k; Some (o', Yes b)
  end.

Definition step_map (m : gmap Z Z) (op : obj_op) : gmap Z Z * obj_answer :=
  match op with
  | OSet k v => (<[k := v]> m, Nothing)
  | ORemove k => (delete k m, Yes (bool_decide (is_Some (m !! k))))
  | OClear => (∅, Nothing)
  | OGet k => (m, Value (default jello_make_null (m !! k)))
  | OHas k => (m, Yes (bool_decide (is_Some (m !! k))))
  end.

(** A history on the table and on the map: what is left, and the answers in order. *)
Fixpoint run_obj (junk : Z) (fuel : nat) (o : jello_object) (ops : list obj_op)
    : option (jello_object * list obj_answer) :=
  match ops with
  | [] => Some (o, [])
  | op :: rest =>
    '(o', a) ← step_obj junk fuel o op;
    '(o'', l) ← run_obj junk fuel o' rest; Some (o'', a :: l)
  end.

Fixpoint run_map (m : gmap Z Z) (ops : list obj_op) : gmap Z Z * list obj_answer :=
  match ops with
  | [] => (m, [])
  | op :: rest =>
    let '(m', a) := step_map m op in
    let '(m'', l) := run_map m' rest in (m'', a :: l)
  end.

(** Room for a probe to end, and sizes below 2^27 slots, at a step. *)
Definition roomy (fuel : nat) (o : jello_object) : Prop :=
  used o < o_cap o /\ o_cap o <= 2 ^ 27 /\ (Z.to_nat (2 * o_cap o) <= fuel)%nat.

#[export] Instance roomy_dec fuel o : Decision (roomy fuel o).
Proof. unfold roomy. apply _. Defined.

(** The same before every step of a history. *)
Fixpoint roomy_along (junk : Z) (fuel : nat) (o : jello_object) (ops : list obj_op) : Prop :=
  match ops with
  | [] => True
  | op :: rest =>
      roomy fuel o /\
      match step_obj junk fuel o op with
      | Some (o', _) => roomy_along junk fuel o' rest
      | None => True
      end
  end.

Fixpoint roomy_alongb (junk : Z) (fuel : nat) (o : jello_object) (ops : list obj_op) : bool :=
  match ops with
  | [] => true
  | op :: rest =>
      bool_decide (roomy fuel o) &&
      match step_obj junk fuel o op with
      | Some (o', _) => roomy_alongb junk fuel o' rest
      | None => true
      end
  end.

Lemma roomy_alongb_spec junk fuel o ops :
  roomy_alongb junk fuel o ops = true -> roomy_along junk fuel o ops.
Proof.
  revert o. induction ops as [|op ops IH]; intros o; cbn; [done|]. intros H. bool_hyps.
  split; [done|]. destruct (step_obj _ _ _ _) as [[? ?]|]; auto.
Qed.

(** ** One operation *)

Lemma upsert_spec junk fuel o m k :
  wf o -> repr o m -> o_cap o <= 2 ^ 27 -> (Z.to_nat (2 * o_cap o) <= fuel)%nat ->
  used o < o_cap o \/ o_cap o * 7 <= (o_len o + 1) * 10 ->
  exists o' i, jello_object_upsert junk fuel o k = Some (o', i, bool_decide (is_Some (m !! k))) /\
    wf o' /\ occ o' i k /\ val_at o' i = default jello_make_null (m !! k) /\
    repr o' (<[k := default jello_make_null (m !! k)]> m) /\
    o_len o' = o_len o + (if bool_decide (is_Some (m !! k)) then 0 else 1) /\
    o_len o' * 10 < o_cap o' * 7 /\
    (o_cap o' = o_cap o /\ used o' <= used o + (if bool_decide (is_Some (m !! k)) then 0 else 1)
     \/ o_cap o' = 2 * o_cap o /\ o_cap o * 7 <= (o_len o + 1) * 10 /\ used o' = o_len o').
Proof.
  intros Hwf Hr Hcap Hf Hroom. unfold jello_object_upsert.
  destruct (ensure_cap_spec junk fuel o m Hwf Hr Hcap Hf)
    as (o1 & -> & Hwf1 & Hr1 & Hl1 & Hload & Hcase & _ & _). cbn.
  pose proof (wf_len _ Hwf1) as Hcl. pose proof (count_state_nonneg is_occ (o_states o1)) as Hcn.
  assert (Hroom1 : has_room o1).
  { unfold has_room. destruct Hcase as [->|(Hc & _ & Hu)]; [destruct Hroom; lia | lia]. }
  assert (Hf1 : (Z.to_nat (o_cap o1) <= fuel)%nat).
  { pose proof (cap_bounds o Hwf). destruct Hcase as [->|(-> & _)]; lia. }
  destruct (find_slot_spec fuel o1 k Hwf1 Hroom1 Hf1) as (o2 & found & i & -> & Hsame & Ho2 & Hres).
  cbn. destruct found.
  - cbn in Hres. pose proof (repr_present _ _ _ _ Hr1 Hres) as Hm. rewrite Hm.
    rewrite bool_decide_true by done. cbn [default].
    set (o3 := object_ic_store o2 k i).
    assert (Hs3 : same_table o1 o3) by (etransitivity; [exact Hsame | apply ic_store_same]).
    pose proof Hs3 as (_ & _ & Hlen3 & Hcap3 & _ & _ & Hv3 & _).
    exists o3, i. split; [done|]. split; [by eapply same_wf|]. split; [by eapply (same_occ o1)|].
    split; [unfold val_at; by rewrite Hv3|].
    split; [rewrite insert_id by done; by eapply same_repr|].
    rewrite Hlen3, Hcap3, (same_used _ _ Hs3). split_and!; [lia | lia |].
    destruct Hcase as [->|(? & ? & ?)]; [left; lia | right; lia].
  - rewrite (Ho2 eq_refl). destruct Hres as [Habs (t1 & Heq & Hfree)]. cbn in Heq. subst i.
    rewrite (repr_absent _ _ _ Hr1 Habs). rewrite bool_decide_false by (by intros []). cbn [default].
    destruct (put_wf o1 m Hwf1 Hr1 k jello_make_null t1 Habs Hfree) as (Hw & Hrep & Hc & Hu & Hl).
    pose proof (put_occ o1 Hwf1 k jello_make_null t1 (probe o1 k t1) k) as Hocc.
    pose proof (put_val o1 Hwf1 k jello_make_null t1 (probe o1 k t1)) as Hv.
    rewrite decide_True in Hv by done.
    change (o_len (with_slot o1 ?a ?b ?c ?d)) with (o_len o1) in *.
    set (o' := with_len _ _) in *. exists o', (probe o1 k t1).
    pose proof (count_state_le is_occ not_empty (o_states o')) as Hle.
    split_and!; try done.
    + apply Hocc. by left.
    + lia.
    + lia.
    + destruct Hcase as [->|(? & ? & ?)]; [left; lia | right].
      split_and!; [lia | lia |]. rewrite (wf_len _ Hw) in *. unfold used in *.
      assert (count_state is_occ (o_states o') <= count_state not_empty (o_states o'))
        by (apply Hle; by intros []). lia.
Qed.

Lemma set_spec junk fuel o m k v :
  wf o -> repr o m -> o_cap o <= 2 ^ 27 -> (Z.to_nat (2 * o_cap o) <= fuel)%nat ->
  used o < o_cap o \/ o_cap o * 7 <= (o_len o + 1) * 10 ->
  exists o', jello_object_set junk fuel o k v = Some o' /\ wf o' /\ repr o' (<[k := v]> m) /\
    o_len o' = o_len o + (if bool_decide (is_Some (m !! k)) then 0 else 1) /\
    o_len o' * 10 < o_cap o' * 7 /\
    (o_cap o' = o_cap o /\ used o' <= used o + (if bool_decide (is_Some (m !! k)) then 0 else 1)
     \/ o_cap o' = 2 * o_cap o /\ o_cap o * 7 <= (o_len o + 1) * 10 /\ used o' = o_len o').
Proof.
  intros Hwf Hr Hcap Hf Hroom. unfold jello_object_set.
  destruct (upsert_spec junk fuel o m k Hwf Hr Hcap Hf Hroom)
    as (o' & i & -> & Hw & Hocc & _ & Hrep & Hl & Hload & Hcase). cbn.
  destruct (with_val_wf o' _ Hw Hrep i k v Hocc) as (Hw2 & Hrep2 & Hc2 & Hu2).
  rewrite insert_insert_eq in Hrep2. eexists. split; [done|].
  change (o_len (with_val o' i v)) with (o_len o'). rewrite Hc2, Hu2. done.
Qed.

Lemma get_spec fuel o m k :
  wf o -> repr o m -> has_room o \/ o_cap o = JELLO_OBJECT_INIT_CAP ->
  (Z.to_nat (o_cap o) <= fuel)%nat ->
  exists o', jello_object_get fuel o k = Some (o', default jello_make_null (m !! k)) /\
    jello_object_has fuel o k = Some (o', bool_decide (is_Some (m !! k))) /\ same_table o o'.
Proof.
  intros Hwf Hr Hroom Hf. unfold jello_object_get, jello_object_has.
  destruct (find_occupied_spec fuel o k Hwf Hroom Hf) as (o' & r & -> & Hsame & Hres). cbn.
  exists o'. destruct r as [i|].
  - rewrite (repr_present _ _ _ _ Hr Hres), bool_decide_true by done. cbn. split; [|done].
    unfold val_at. by destruct Hsame as (_ & _ & _ & _ & _ & _ & -> & _).
  - rewrite (repr_absent _ _ _ Hr Hres), bool_decide_false by (by intros []). done.
Qed.

Lemma remove_spec fuel o m k :
  wf o -> repr o m -> has_room o -> (Z.to_nat (o_cap o) <= fuel)%nat ->
  exists o', jello_object_remove fuel o k = Some (o', bool_decide (is_Some (m !! k))) /\
    wf o' /\ repr o' (delete k m) /\ used o' = used o /\ o_cap o' = o_cap o.
Proof.
  intros Hwf Hr Hroom Hf. unfold jello_object_remove.
  destruct (find_slot_spec fuel o k Hwf Hroom Hf) as (o1 & found & i & -> & Hsame & Ho1 & Hres).
  cbn. destruct found; cbn [negb].
  - cbn in Hres. rewrite (repr_present _ _ _ _ Hr Hres), bool_decide_true by done.
    pose proof (same_wf _ _ Hsame Hwf) as Hwf1. pose proof (same_repr _ _ _ Hsame Hr) as Hr1.
    apply (same_occ o o1) in Hres; [|done].
    destruct (tomb_wf o1 m Hwf1 Hr1 i k Hres) as (Hw & Hrep & Hu).
    rewrite (same_used _ _ Hsame) in Hu. pose proof Hsame as (_ & _ & Hln & Hc & _).
    change (o_len (with_state o1 i TOMB)) with (o_len o1).
    set (o2 := with_len _ _) in *.
    assert (Hif : forall b : bool, same_table o2 (if b then jello_object_invalidate_ic o2 else o2)).
    { by intros []. }
    eexists. split; [done|]. split; [eapply same_wf; [apply Hif | done]|].
    split; [eapply same_repr; [apply Hif | done]|].
    split; [rewrite (same_used o2); [done | apply Hif] | case_if; exact Hc].
  - destruct Hres as [Habs _]. rewrite (Ho1 eq_refl). pose proof (repr_absent _ _ _ Hr Habs) as Hk.
    rewrite Hk, bool_decide_false by (by intros []). exists o. rewrite delete_id by done. done.
Qed.

Lemma clear_spec o :
  wf o -> wf (jello_object_clear o) /\ repr (jello_object_clear o) ∅ /\
    used (jello_object_clear o) = 0 /\ o_cap (jello_object_clear o) = o_cap o.
Proof.
  intros Hwf. pose proof (cap_bounds o Hwf). set (o' := jello_object_clear o).
  assert (Hs : forall i, state_at o' i = EMPTY).
  { intros i. unfold state_at, zget. destruct (o_states o' @! i) eqn:Hi; [|done].
    unfold znth in Hi. case_decide; [|done]. by apply lookup_replicate_1 in Hi as [-> _]. }
  assert (Hno : forall i k, ~ occ o' i k).
  { intros i k (_ & Hocc & _). by rewrite Hs in Hocc. }
  assert (Hcz : forall p, p EMPTY = false -> count_state p (o_states o') = 0).
  { intros p Hp. change (o_states o') with (replicate (Z.to_nat (o_cap o)) EMPTY).
    by rewrite count_state_replicate, Hp. }
  split; [split; try apply Hwf | split; [|split]].
  - cbn. apply zlen_replicate. lia.
  - by rewrite (Hcz is_occ).
  - intros i j k H1. by apply Hno in H1.
  - intros t k _ H1. by apply Hno in H1.
  - intros k v. rewrite lookup_empty. split; [done|]. intros (i & Hi & _). by apply Hno in Hi.
  - by apply (Hcz not_empty).
  - done.
Qed.

(** A history, by induction on its steps. *)
Lemma step_spec junk fuel o m op : wf o -> repr o m -> roomy fuel o ->
  exists o', step_obj junk fuel o op = Some (o', (step_map m op).2) /\ wf o' /\ repr o' (step_map m op).1.
Proof.
  intros Hwf Hr (Hu & Hc & Hf).
  assert (Hf' : (Z.to_nat (o_cap o) <= fuel)%nat) by (pose proof (cap_bounds o Hwf); lia).
  destruct op as [k v|k| |k|k]; cbn.
  - destruct (set_spec junk fuel o m k v Hwf Hr Hc Hf ltac:(by left)) as (o' & -> & ? & ? & _). by exists o'.
  - destruct (remove_spec fuel o m k Hwf Hr Hu Hf') as (o' & -> & ? & ? & _). by exists o'.
  - destruct (clear_spec o Hwf) as (? & ? & _). by eexists.
  - destruct (get_spec fuel o m k Hwf Hr ltac:(by left) Hf') as (o' & -> & _ & Hs). exists o'.
    split_and!; [done | by eapply same_wf | by eapply same_repr].
  - destruct (get_spec fuel o m k Hwf Hr ltac:(by left) Hf') as (o' & _ & -> & Hs). exists o'.
    split_and!; [done | by eapply same_wf | by eapply same_repr].
Qed.

Lemma run_spec junk fuel o m ops :
  wf o -> repr o m -> roomy_along junk fuel o ops ->
  exists o', run_obj junk fuel o ops = Some (o', (run_map m ops).2) /\ wf o' /\ repr o' (run_map m ops).1.
Proof.
  revert o m. induction ops as [|op ops IH]; intros o m Hwf Hr Hroom; cbn in *; [by exists o|].
  destruct Hroom as [Hroom Hrest]. destruct (step_spec junk fuel o m op Hwf Hr Hroom) as (o' & E & Hw & Hrep).
  rewrite E in *. cbn. destruct (step_map m op) as [m' a]. cbn in *.
  destruct (IH o' m' Hw Hrep Hrest) as (o'' & -> & ? & ?). cbn. exists o''. by destruct (run_map m' ops).
Qed.

(** ** Properties *)

(** On a table with a free slot, [jello_object_set] ends, keeps the invariant and
    updates exactly the map entry of its key, growing the table included. *)
Theorem object_set_refines junk fuel o m k v :
  wf o -> repr o m -> roomy fuel o ->
  exists o', jello_object_set junk fuel o k v = Some o' /\ wf o' /\ repr o' (<[k := v]> m).
Proof.
  intros Hwf Hr (Hu & Hc & Hf).
  destruct (set_spec junk fuel o m k v Hwf Hr Hc Hf ltac:(by left)) as (o' & ? & ? & ? & _).
  by exists o'.
Qed.

(** Lookups, through the inline cache, the linear scan of small tables or the
    probe, answer what the map says (null and false for an absent key) and leave the
    table unchanged; on the initial capacity they end even without a free slot. *)
Theorem object_get_refines fuel o m k :
  wf o -> repr o m -> has_room o \/ o_cap o = JELLO_OBJECT_INIT_CAP ->
  (Z.to_nat (o_cap o) <= fuel)%nat ->
  exists o', jello_object_get fuel o k = Some (o', default jello_make_null (m !! k)) /\
    jello_object_has fuel o k = Some (o', bool_decide (is_Some (m !! k))) /\
    wf o' /\ repr o' m.
Proof.
  intros Hwf Hr Hroom Hf. destruct (get_spec fuel o m k Hwf Hr Hroom Hf) as (o' & Hg & Hh & Hs).
  exists o'. split_and!; [done.. | by eapply same_wf | by eapply same_repr].
Qed.

(** [jello_object_remove] deletes exactly its key, reports whether it was there,
    and leaves a tombstone: the number of used slots does not go down. *)
Theorem object_remove_refines fuel o m k :
  wf o -> repr o m -> has_room o -> (Z.to_nat (o_cap o) <= fuel)%nat ->
  exists o', jello_object_remove fuel o k = Some (o', bool_decide (is_Some (m !! k))) /\
    wf o' /\ repr o' (delete k m) /\ used o' = used o.
Proof.
  intros Hwf Hr Hroom Hf. destruct (remove_spec fuel o m k Hwf Hr Hroom Hf) as (o' & ? & ? & ? & ? & _).
  by exists o'.
Qed.

(** C9: a whole history of sets, removes, clears, lookups and tests behaves as on a finite
    map: every answer (the value of a lookup, null for an absent key; whether a removed or
    tested key was there) is the map's, and the table left represents the map left.  It
    needs, before each operation, a slot that was never used and at most 2^27 slots. *)
Theorem object_history_refines junk fuel o m ops :
  wf o -> repr o m -> roomy_along junk fuel o ops ->
  exists o', run_obj junk fuel o ops = Some (o', (run_map m ops).2) /\ wf o' /\ repr o' (run_map m ops).1.
Proof. apply run_spec. Qed.

(** A table without tombstones, filled to at most 0.7, of bounded size. *)
Definition dense (o : jello_object) (n : Z) : Prop :=
  used o = o_len o /\ o_len o * 10 < o_cap o * 7 /\ o_len o <= n /\ o_cap o <= 3 * n + 8.

Lemma sets_dense junk fuel o m n (kvs : list (Z * Z)) :
  wf o -> repr o m -> dense o n -> n + zlen kvs <= 2 ^ 24 -> (Z.to_nat (2 ^ 27) <= fuel)%nat ->
  exists o', fst <$> run_obj junk fuel o ((fun p => OSet p.1 p.2) <$> kvs) = Some o' /\ wf o' /\
    repr o' (foldl (fun m p => <[p.1 := p.2]> m) m kvs).
Proof.
  revert o m n. induction kvs as [|[k v] kvs IH]; intros o m n Hwf Hr (Hd & Hload & Hn & Hc) Hlen Hf;
    [by exists o|].
  rewrite zlen_cons in Hlen. pose proof (zlen_nonneg kvs). pose proof (cap_bounds o Hwf).
  change (2 ^ 24) with 16777216 in *. change (2 ^ 27) with 134217728 in *.
  pose proof (wf_len _ Hwf). pose proof (count_state_nonneg is_occ (o_states o)).
  destruct (set_spec junk fuel o m k v Hwf Hr) as (o' & Hset & Hw & Hrep & Hl & Hload' & Hcase);
    [change (2 ^ 27) with 134217728; lia | lia | left; lia |].
  cbn. rewrite Hset. cbn.
  destruct (IH o' (<[k := v]> m) (n + 1)) as (o'' & E & ? & ?); [done | done | | change (2 ^ 24) with 16777216; lia | done |].
  2: { exists o''. split; [|done]. by destruct (run_obj _ _ o' _) as [[? ?]|]. }
  assert (Hle : o_len o' <= used o').
  { rewrite (wf_len _ Hw). apply count_state_le. by intros []. }
  destruct (bool_decide _); unfold dense; destruct Hcase as [(? & ?)|(? & ? & ?)]; lia.
Qed.

(** C28: a fresh object to which properties are only added or overwritten never
    hangs: any sequence of at most 2^24 assignments ends and leaves exactly the last
    value of every key. *)
Theorem object_sets_terminate junk fuel type_id (kvs : list (Z * Z)) :
  zlen kvs <= 2 ^ 24 -> (Z.to_nat (2 ^ 27) <= fuel)%nat ->
  exists o', fst <$> run_obj junk fuel (jello_object_init_empty junk type_id)
      ((fun p => OSet p.1 p.2) <$> kvs) = Some o' /\
    wf o' /\ repr o' (foldl (fun m p => <[p.1 := p.2]> m) ∅ kvs).
Proof.
  intros Hk Hf.
  destruct (fresh_wf junk (mk_object type_id 0 0 0 true [] [] [] 0 0 0 [] []) true 8)
    as (Hw & Hr & Hu); [exists 3; split; [lia | done]|].
  assert (Hs : same_table (with_len (bind_fresh_table junk
    (mk_object type_id 0 0 0 true [] [] [] 0 0 0 [] []) true 8) 0)
    (jello_object_init_empty junk type_id)) by done.
  apply (sets_dense _ _ _ _ 0); [by eapply same_wf | by eapply same_repr | | done | done].
  unfold dense. rewrite (same_used _ _ Hs), Hu. cbn. unfold JELLO_OBJECT_INIT_CAP. lia.
Qed.

Lemma full_no_empty o i : wf o -> used o = o_cap o -> 0 <= i < o_cap o -> state_at o i <> EMPTY.
Proof.
  intros Hwf Hu Hi He. pose proof (state_at_lookup o Hwf i Hi) as Hl. rewrite He in Hl.
  pose proof (count_state_zset not_empty _ _ _ TOMB Hl) as Hz.
  pose proof (count_state_nonneg not_empty ((o_states o) @[i := TOMB])) as Hn.
  rewrite zlen_zset, (wf_states _ Hwf) in Hn. unfold used in Hu. cbn [not_empty] in Hz.
  change (not_empty EMPTY) with false in Hz. change (not_empty TOMB) with true in Hz. cbn iota in Hz. lia.
Qed.

Lemma find_loop_hangs fuel o k i ft :
  wf o -> used o = o_cap o -> (forall j, ~ occ o j k) -> 0 <= i < o_cap o ->
  find_loop fuel o k i ft = None.
Proof.
  intros Hwf Hu Hno. revert i ft. induction fuel as [|fuel IH]; intros i ft Hi; [done|].
  cbn [find_loop].
  assert (0 <= Z.land (u32 (i + 1)) (mask o) < o_cap o).
  { rewrite (mask_mod o Hwf). apply Z.mod_pos_bound. lia. }
  destruct (state_at o i) eqn:Hs.
  - by apply (full_no_empty o i Hwf Hu Hi) in Hs.
  - destruct (Z.eqb_spec (key_at o i) k) as [Hk|]; [|by apply IH].
    exfalso. by apply (Hno i).
  - by apply IH.
Qed.

(** Without a free slot the probe for an absent key never ends: neither a set
    (below the growth threshold) nor a remove of such a key returns, whatever the
    fuel.  Tombstones are not counted by [ensure_cap], so removals lead there. *)
Theorem object_full_hangs junk fuel o k v :
  wf o -> used o = o_cap o -> o_len o <> 0 -> (forall i, ~ occ o i k) ->
  (o_len o + 1) * 10 < o_cap o * 7 ->
  jello_object_set junk fuel o k v = None /\ jello_object_remove fuel o k = None.
Proof.
  intros Hwf Hu Hl Hno Hload. pose proof (cap_bounds o Hwf).
  pose proof (wf_len _ Hwf). pose proof (count_state_nonneg is_occ (o_states o)).
  assert (Hf : find_slot fuel o k = None).
  { unfold find_slot. destruct (Z.eqb_spec (o_len o) 0); [done|].
    rewrite find_loop_hangs; [done | done | done | done |].
    rewrite (mask_mod o Hwf). apply Z.mod_pos_bound. lia. }
  unfold jello_object_set, jello_object_upsert, jello_object_remove, ensure_cap.
  unfold JELLO_OBJECT_LOAD_NUM, JELLO_OBJECT_LOAD_DEN.
  change (2 ^ 28) with 268435456 in *.
  rewrite !wrapU_id by (unfold is_u; rewrite ?wrapU_id; unfold is_u;
    change (2 ^ 32) with 4294967296; lia).
  destruct (Z.ltb_spec ((o_len o + 1) * 10) (o_cap o * 7)); [|lia].
  cbn. by rewrite Hf.
Qed.

(** ** Witnesses: a history that fills a fresh object with tombstones *)

Definition tomb_history : list obj_op :=
  [OSet 1 9; OSet 2 17; ORemove 2; OSet 8 25; ORemove 8; OSet 6 33; ORemove 6; OSet 12 41;
   ORemove 12; OSet 3 49; ORemove 3; OSet 5 57; ORemove 5; OSet 15 65].

Definition fresh_object : jello_object := jello_object_init_empty 0 7.

Definition tomb_object : jello_object :=
  default fresh_object (fst <$> run_obj 0 16 fresh_object tomb_history).

Lemma fresh_object_ok : wf fresh_object /\ repr fresh_object ∅.
Proof.
  destruct (fresh_wf 0 (mk_object 7 0 0 0 true [] [] [] 0 0 0 [] []) true 8) as (Hw & Hr & _);
    [exists 3; split; [lia | done]|].
  split; [by eapply same_wf; [|exact Hw] | by eapply same_repr; [|exact Hr]].
Qed.

Lemma tomb_history_roomy : roomy_along 0 16 fresh_object tomb_history.
Proof. apply roomy_alongb_spec. vm_compute. reflexivity. Qed.

Lemma tomb_object_ok : wf tomb_object /\ repr tomb_object {[ 1 := 9; 15 := 65 ]}.
Proof.
  destruct fresh_object_ok as [Hwf Hr]. unfold tomb_object.
  destruct (run_spec 0 16 fresh_object ∅ tomb_history Hwf Hr tomb_history_roomy)
    as (o' & -> & Hw & Hrep).
  split; [exact Hw|]. cbn [default]. replace ({[ 1 := 9; 15 := 65 ]} : gmap Z Z) with
    (run_map ∅ tomb_history).1; [exact Hrep | by vm_compute].
Qed.

(** The live keys are 1 and 15; the other six slots are tombstones. *)
Lemma tomb_object_absent i : ~ occ tomb_object i 9.
Proof.
  intros Hi. destruct tomb_object_ok as [_ Hr].
  by pose proof (repr_present _ _ _ _ Hr Hi).
Qed.

Lemma object_set_refines_witness :
  exists o', jello_object_set 0 16 fresh_object 5 41 = Some o' /\ wf o' /\
    repr o' (<[5 := 41]> ∅).
Proof.
  apply object_set_refines; [apply fresh_object_ok | apply fresh_object_ok |].
  apply (bool_decide_eq_true_1 (roomy 16 fresh_object)). vm_compute. reflexivity.
Defined.

(** The full table of initial capacity still answers lookups. *)
Lemma object_get_refines_witness :
  let m : gmap Z Z := {[ 1 := 9; 15 := 65 ]} in
  exists o', jello_object_get 8 tomb_object 9 = Some (o', default jello_make_null (m !! 9)) /\
    jello_object_has 8 tomb_object 9 = Some (o', bool_decide (is_Some (m !! 9))) /\
    wf o' /\ repr o' m.
Proof.
  apply (object_get_refines 8 tomb_object {[ 1 := 9; 15 := 65 ]} 9);
    [apply tomb_object_ok | apply tomb_object_ok | right; vm_compute; reflexivity
    | apply Nat.leb_le; vm_compute; reflexivity].
Defined.

Lemma object_remove_refines_witness :
  exists o', jello_object_remove 8 fresh_object 5 =
      Some (o', bool_decide (is_Some ((∅ : gmap Z Z) !! 5))) /\ wf o' /\
    repr o' (delete 5 ∅) /\ used o' = used fresh_object.
Proof.
  apply (object_remove_refines 8 fresh_object ∅ 5);
    [apply fresh_object_ok | apply fresh_object_ok | vm_compute; reflexivity
    | apply Nat.leb_le; vm_compute; reflexivity].
Defined.

Definition asking_history : list obj_op :=
  [OSet 1 9; OSet 2 17; OHas 2; ORemove 2; ORemove 2; OGet 1; OGet 2; OClear; OHas 1].

Example asking_answers : (run_map ∅ asking_history).2 =
  [Nothing; Nothing; Yes true; Yes true; Yes false; Value 9; Value jello_make_null; Nothing; Yes false].
Proof. reflexivity. Qed.

Lemma object_history_refines_witness :
  exists o', run_obj 0 16 fresh_object asking_history =
      Some (o', (run_map ∅ asking_history).2) /\ wf o' /\
    repr o' (run_map ∅ asking_history).1.
Proof.
  apply object_history_refines;
    [apply fresh_object_ok | apply fresh_object_ok | apply roomy_alongb_spec; vm_compute; reflexivity].
Defined.

Lemma object_sets_terminate_witness :
  exists o', fst <$> run_obj 0 (Z.to_nat (2 ^ 27)) (jello_object_init_empty 0 7)
      ((fun p => OSet p.1 p.2) <$> [(1, 9); (2, 17); (1, 25)]) = Some o' /\
    wf o' /\ repr o' (foldl (fun m p => <[p.1 := p.2]> m) ∅ [(1, 9); (2, 17); (1, 25)]).
Proof. apply object_sets_terminate; [vm_compute; discriminate | reflexivity]. Defined.

(** After the history above, storing a new property never returns. *)
Lemma object_full_hangs_witness :
  jello_object_set 0 1000 tomb_object 9 1 = None /\
  jello_object_remove 1000 tomb_object 9 = None.
Proof.
  apply object_full_hangs; [apply tomb_object_ok | vm_compute; reflexivity
    | vm_compute; discriminate | apply tomb_object_absent | vm_compute; reflexivity].
Defined.
