(* ===== verification/Heap.v ===== *)
(** * The garbage-collected heap

    The heap objects of src/src/include/jello.h and the fields of
    [struct jello_vm] the collector (src/src/gc.c) and the constructors
    (src/src/types) keep.  An address is the word a [jello_value] points with. *)

From S2P Require Import Prelude CInt Value Object.

Inductive hobj : Set :=
| HBytes (type_id : Z) (data : list Z)
| HFunction (type_id func_index bound_this : Z) (caps : list Z)
| HFunctionRaw (type_id func_index bound_this ncaps : Z) (raw : list Z)   (* caps_are_raw *)
| HList (type_id head tail : Z)
| HArray (type_id : Z) (data : list Z)
| HObject (o : jello_object)
| HAbstract (type_id payload finalizer : Z)
| HBoxI64 (type_id value : Z)
| HBoxF64 (type_id bits : Z)
| HBoxF32 (type_id bits : Z)
| HBoxF16 (type_id bits : Z)
| HEnum (type_id tag : Z) (fields : list Z).

Definition obj_kind (o : hobj) : jello_obj_kind :=
  match o with
  | HBytes _ _ => JELLO_OBJ_BYTES
  | HFunction _ _ _ _ => JELLO_OBJ_FUNCTION
  | HFunctionRaw _ _ _ _ _ => JELLO_OBJ_FUNCTION
  | HList _ _ _ => JELLO_OBJ_LIST
  | HArray _ _ => JELLO_OBJ_ARRAY
  | HObject _ => JELLO_OBJ_OBJECT
  | HAbstract _ _ _ => JELLO_OBJ_ABSTRACT
  | HBoxI64 _ _ => JELLO_OBJ_BOX_I64
  | HBoxF64 _ _ => JELLO_OBJ_BOX_F64
  | HBoxF32 _ _ => JELLO_OBJ_BOX_F32
  | HBoxF16 _ _ => JELLO_OBJ_BOX_F16
  | HEnum _ _ _ => JELLO_OBJ_ENUM
  end.

Definition obj_type_id (o : hobj) : Z :=
  match o with
  | HBytes t _ | HFunction t _ _ _ | HFunctionRaw t _ _ _ _ | HList t _ _ | HArray t _
  | HAbstract t _ _ | HBoxI64 t _ | HBoxF64 t _ | HBoxF32 t _ | HBoxF16 t _ | HEnum t _ _ => t
  | HObject o => o_type_id o
  end.

(** [jello_gc_hdr] and the object behind it. *)
Record cell : Set := mk_cell {
  c_size : Z;           (* total_size *)
  c_marked : bool;
  c_obj : hobj
}.

Record gc_state : Set := mk_gc {
  cells : gmap Z cell;                    (* the memory of the blocks of gc_objects *)
  gc_objects : list Z;                    (* the linked list, head first *)
  gc_box_free : list (Z * cell);          (* the recycle list, head first *)
  gc_bytes_live : Z;
  gc_next_collect : Z;
  gc_collections : Z;
  gc_freed_objects : Z;
  gc_freelist_hits : Z;
  gc_freelist_misses : Z;
  gc_roots : list Z;
  const_fun_cache : list Z;               (* pointers, 0 is NULL *)
  const_bytes_cache : list Z;
  enum_nullary_by_type : list (option (list Z));  (* 256 slots per table *)
  finalized : list (Z * Z)                (* calls [finalizer(payload)], newest first *)
}.

(** ** Sizes *)

Definition sizeof_gc_hdr : Z := 24.
Definition sizeof_function : Z := 32.
Definition sizeof_list : Z := 24.
Definition sizeof_array : Z := 24.
Definition sizeof_abstract : Z := 24.
Definition sizeof_box : Z := 16.
Definition sizeof_enum : Z := 16.
Definition sizeof_bytes : Z := 12.
Definition sizeof_object : Z := 88.

(** [jello_object_empty_alloc_bytes]. *)
Definition jello_object_empty_alloc_bytes : Z :=
  sizeof_object + object_table_bytes JELLO_OBJECT_INIT_CAP.

(** ** Field updates *)

Definition set_cells (c : gmap Z cell) (g : gc_state) : gc_state :=
  mk_gc c (gc_objects g) (gc_box_free g) (gc_bytes_live g) (gc_next_collect g)
    (gc_collections g) (gc_freed_objects g) (gc_freelist_hits g) (gc_freelist_misses g)
    (gc_roots g) (const_fun_cache g) (const_bytes_cache g) (enum_nullary_by_type g) (finalized g).

Definition set_roots (r : list Z) (g : gc_state) : gc_state :=
  mk_gc (cells g) (gc_objects g) (gc_box_free g) (gc_bytes_live g) (gc_next_collect g)
    (gc_collections g) (gc_freed_objects g) (gc_freelist_hits g) (gc_freelist_misses g)
    r (const_fun_cache g) (const_bytes_cache g) (enum_nullary_by_type g) (finalized g).

Definition set_caches (fc bc : list Z) (ec : list (option (list Z))) (g : gc_state) : gc_state :=
  mk_gc (cells g) (gc_objects g) (gc_box_free g) (gc_bytes_live g) (gc_next_collect g)
    (gc_collections g) (gc_freed_objects g) (gc_freelist_hits g) (gc_freelist_misses g)
    (gc_roots g) fc bc ec (finalized g).

(** The object at an address. *)
Definition obj_at (g : gc_state) (p : Z) : option hobj := c_obj <$> cells g !! p.

(** The pointer a value holds, if any: [jello_is_ptr(v)] and not NULL. *)
Definition ptr_of (v : Z) : option Z :=
  if jello_is_ptr v && negb (v =? 0) then Some v else None.

Definition val_ptrs (l : list Z) : list Z := omap ptr_of l.

Definition nonnull (p : Z) : list Z := if p =? 0 then [] else [p].

(** The values in the occupied slots of a table, in slot order. *)
Definition occupied_vals (o : jello_object) : list Z :=
  omap (fun i => if bool_decide (state_at o i = OCCUPIED) then Some (val_at o i) else None)
    (seqZ 0 (o_cap o)).

(** The addresses [trace_object] hands to [mark_ptr], in its order. *)
Definition children (o : hobj) : list Z :=
  match o with
  | HBytes _ _ | HBoxI64 _ _ | HBoxF64 _ _ | HBoxF32 _ _ | HBoxF16 _ _ | HAbstract _ _ _ => []
  | HList _ head tail => val_ptrs [head] ++ nonnull tail
  | HArray _ data => val_ptrs data
  | HObject o => nonnull (o_proto o) ++ val_ptrs (occupied_vals o)
  | HFunction _ _ bound_this caps => val_ptrs [bound_this] ++ val_ptrs caps
  | HFunctionRaw _ _ bound_this _ _ => val_ptrs [bound_this]
  | HEnum _ _ fields => val_ptrs fields
  end.
