(* ===== verification/Vm.v ===== *)
(** * The state of a virtual machine

    The fields of [struct jello_vm] (src/src/include/jello/internal/vm_internal.h)
    the interpreter works on, in groups, and the monad of the functions that
    change them.  [Panic] is [abort()] (jello_vm_panic), [Crash] is an access
    outside an object (undefined behaviour).

    Pointers: a register frame's [mem] is an offset into [frame_stack] ([None] is
    NULL), so that moving the stack in [realloc] and rebasing the frames is the
    identity; a [const jello_bc_function*] is an index into the functions of the
    running module; a heap pointer is a word of a [jello_value]. *)

From S2P Require Import Prelude CInt Bytecode Value Object Heap.

(** ** Traps and exception handlers *)

Inductive jello_trap_code : Set :=
| JELLO_TRAP_NONE
| JELLO_TRAP_TYPE_MISMATCH
| JELLO_TRAP_BOUNDS
| JELLO_TRAP_NULL_DEREF
| JELLO_TRAP_THROWN
| JELLO_TRAP_STACK_OVERFLOW
| JELLO_TRAP_FUEL
| JELLO_TRAP_LIMIT.

#[export] Instance jello_trap_code_eq_dec : EqDecision jello_trap_code.
Proof. solve_decision. Defined.

Definition code_of_trap (t : jello_trap_code) : Z :=
  match t with
  | JELLO_TRAP_NONE => 0
  | JELLO_TRAP_TYPE_MISMATCH => 1
  | JELLO_TRAP_BOUNDS => 2
  | JELLO_TRAP_NULL_DEREF => 3
  | JELLO_TRAP_THROWN => 4
  | JELLO_TRAP_STACK_OVERFLOW => 5
  | JELLO_TRAP_FUEL => 6
  | JELLO_TRAP_LIMIT => 7
  end.

Record exc_handler : Set := mk_handler {
  h_frame_index : Z;
  h_catch_pc : Z;
  h_dst_reg : Z;
  h_trap_only : bool
}.

Record exc_state : Set := mk_exc {
  exc_handlers : list exc_handler;       (* first exc_handlers_len entries, last is the top *)
  exc_pending : bool;
  exc_payload : Z;
  trap_code : jello_trap_code;
  trap_msg : option string
}.

(** ** Frames *)

Record reg_frame : Set := mk_rf {
  rf_mem : option Z;
  rf_off : list Z;
  rf_nregs : Z;
  rf_total : Z;
  rf_off_shared : bool
}.

Record frame_layout : Set := mk_layout {
  fl_nregs : Z;
  fl_total : Z;
  fl_off : list Z;
  fl_has_pointer_or_dynamic : bool;
  fl_jit_ineligible : bool;
  fl_jit_self_rec : bool
}.

Record call_frame : Set := mk_frame {
  cf_f : Z;
  cf_rf : reg_frame;
  cf_pc : Z;
  cf_caller_dst : Z;
  cf_exc_base : Z;
  cf_has_caller : bool;
  cf_jdll_ret_capture : bool;
  cf_has_pointer_or_dynamic : bool;
  cf_jit_entry_done : bool;
  cf_jit_resume_hint : bool;
  cf_jit_osr_hint : bool;
  cf_jit_return_addr : Z
}.

Record stack_state : Set := mk_stack {
  call_frames : list call_frame;         (* the call_frames_len live ones, last is the top *)
  call_frames_cap : Z;
  call_frames_max : Z;
  frame_stack : list Z;                  (* frame_stack_cap bytes *)
  frame_stack_top : Z;
  frame_layouts : list (option frame_layout);
  frame_layouts_mod : Z                  (* address of the module, 0 is NULL *)
}.

Record limits : Set := mk_limits {
  fuel_limit : Z;
  fuel_remaining : Z;
  max_bytes_len : Z;
  max_array_len : Z
}.

Record jello_vm : Set := mk_vm {
  v_stack : stack_state;
  v_exc : exc_state;
  v_limits : limits;
  v_gc : gc_state;
  spill : list Z;
  running_module : Z        (* address, 0 is NULL *)
}.

(** ** Field updates *)

Definition set_stack (s : stack_state) (vm : jello_vm) : jello_vm :=
  mk_vm s (v_exc vm) (v_limits vm) (v_gc vm) (spill vm) (running_module vm).

Definition set_exc (e : exc_state) (vm : jello_vm) : jello_vm :=
  mk_vm (v_stack vm) e (v_limits vm) (v_gc vm) (spill vm) (running_module vm).

Definition set_limits (l : limits) (vm : jello_vm) : jello_vm :=
  mk_vm (v_stack vm) (v_exc vm) l (v_gc vm) (spill vm) (running_module vm).

Definition set_spill (l : list Z) (vm : jello_vm) : jello_vm :=
  mk_vm (v_stack vm) (v_exc vm) (v_limits vm) (v_gc vm) l (running_module vm).

Definition set_gc (g : gc_state) (vm : jello_vm) : jello_vm :=
  mk_vm (v_stack vm) (v_exc vm) (v_limits vm) g (spill vm) (running_module vm).

Definition set_module (a : Z) (vm : jello_vm) : jello_vm :=
  mk_vm (v_stack vm) (v_exc vm) (v_limits vm) (v_gc vm) (spill vm) a.

Definition set_frames (fs : list call_frame) (s : stack_state) : stack_state :=
  mk_stack fs (call_frames_cap s) (call_frames_max s) (frame_stack s) (frame_stack_top s)
    (frame_layouts s) (frame_layouts_mod s).

Definition set_frames_cap (c : Z) (s : stack_state) : stack_state :=
  mk_stack (call_frames s) c (call_frames_max s) (frame_stack s) (frame_stack_top s)
    (frame_layouts s) (frame_layouts_mod s).

Definition set_mem (l : list Z) (s : stack_state) : stack_state :=
  mk_stack (call_frames s) (call_frames_cap s) (call_frames_max s) l (frame_stack_top s)
    (frame_layouts s) (frame_layouts_mod s).

Definition set_top (t : Z) (s : stack_state) : stack_state :=
  mk_stack (call_frames s) (call_frames_cap s) (call_frames_max s) (frame_stack s) t
    (frame_layouts s) (frame_layouts_mod s).

Definition set_layouts (l : list (option frame_layout)) (md : Z) (s : stack_state) : stack_state :=
  mk_stack (call_frames s) (call_frames_cap s) (call_frames_max s) (frame_stack s)
    (frame_stack_top s) l md.

Definition set_rf (rf : reg_frame) (fr : call_frame) : call_frame :=
  mk_frame (cf_f fr) rf (cf_pc fr) (cf_caller_dst fr) (cf_exc_base fr) (cf_has_caller fr)
    (cf_jdll_ret_capture fr) (cf_has_pointer_or_dynamic fr) (cf_jit_entry_done fr)
    (cf_jit_resume_hint fr) (cf_jit_osr_hint fr) (cf_jit_return_addr fr).

Definition set_pc (pc : Z) (fr : call_frame) : call_frame :=
  mk_frame (cf_f fr) (cf_rf fr) pc (cf_caller_dst fr) (cf_exc_base fr) (cf_has_caller fr)
    (cf_jdll_ret_capture fr) (cf_has_pointer_or_dynamic fr) (cf_jit_entry_done fr)
    (cf_jit_resume_hint fr) (cf_jit_osr_hint fr) (cf_jit_return_addr fr).

(** ** The monad *)

Inductive outcome (A : Type) : Type :=
| Ret (a : A) (vm : jello_vm)
| Panic
| Crash.
Arguments Ret {A} _ _.
Arguments Panic {A}.
Arguments Crash {A}.

Definition M (A : Type) : Type := jello_vm -> outcome A.

#[export] Instance M_ret : MRet M := fun A a vm => Ret a vm.

#[export] Instance M_bind : MBind M := fun A B k m vm =>
  match m vm with
  | Ret a vm' => k a vm'
  | Panic => Panic
  | Crash => Crash
  end.

Definition panic {A} : M A := fun _ => Panic.
Definition crash {A} : M A := fun _ => Crash.

Definition get_stack : M stack_state := fun vm => Ret (v_stack vm) vm.
Definition get_exc : M exc_state := fun vm => Ret (v_exc vm) vm.
Definition get_limits : M limits := fun vm => Ret (v_limits vm) vm.
Definition get_gc : M gc_state := fun vm => Ret (v_gc vm) vm.
Definition put_gc (g : gc_state) : M () := fun vm => Ret () (set_gc g vm).
Definition put_stack (s : stack_state) : M () := fun vm => Ret () (set_stack s vm).
Definition put_exc (e : exc_state) : M () := fun vm => Ret () (set_exc e vm).
Definition put_limits (l : limits) : M () := fun vm => Ret () (set_limits l vm).

(** A read the C code does without a check: undefined when there is nothing. *)
Definition must {A} (o : option A) : M A := fun vm =>
  match o with Some a => Ret a vm | None => Crash end.

(** [if(g) jello_vm_panic();] *)
Definition panic_if (g : bool) : M () := if g then panic else mret ().

(** [for(i = i0; n times; i++) body(i)]. *)
Fixpoint mfor (i : Z) (n : nat) (body : Z -> M ()) : M () :=
  match n with
  | O => mret ()
  | S n' => _ ← body i; mfor (i + 1) n' body
  end.

(** The total-correctness triple: [m] neither aborts nor crashes from [vm] and
    ends in [Q]. *)
Definition wp {A} (m : M A) (vm : jello_vm) (Q : A -> jello_vm -> Prop) : Prop :=
  match m vm with Ret a vm' => Q a vm' | _ => False end.

(** The same, where the process may be aborted (out of memory, a broken
    invariant the code checks). *)
Definition safe {A} (m : M A) (vm : jello_vm) (Q : A -> jello_vm -> Prop) : Prop :=
  match m vm with Ret a vm' => Q a vm' | Panic => True | Crash => False end.

Section wp.
Context {A B : Type}.

Lemma wp_ret (a : A) vm (Q : A -> jello_vm -> Prop) : Q a vm -> wp (mret a) vm Q.
Proof. done. Qed.

Lemma wp_bind (m : M A) (k : A -> M B) vm Q :
  wp m vm (fun a vm' => wp (k a) vm' Q) -> wp (m ≫= k) vm Q.
Proof. unfold wp, mbind, M_bind. destruct (m vm); done. Qed.

Lemma wp_mono (m : M A) vm (P Q : A -> jello_vm -> Prop) :
  wp m vm P -> (forall a vm', P a vm' -> Q a vm') -> wp m vm Q.
Proof. unfold wp. destruct (m vm); eauto. Qed.

Lemma wp_must (o : option A) a vm (Q : A -> jello_vm -> Prop) :
  o = Some a -> Q a vm -> wp (must o) vm Q.
Proof. intros ->. done. Qed.

Lemma safe_bind (m : M A) (k : A -> M B) vm Q :
  safe m vm (fun a vm' => safe (k a) vm' Q) -> safe (m ≫= k) vm Q.
Proof. unfold safe, mbind, M_bind. destruct (m vm); done. Qed.

Lemma safe_mono (m : M A) vm (P Q : A -> jello_vm -> Prop) :
  safe m vm P -> (forall a vm', P a vm' -> Q a vm') -> safe m vm Q.
Proof. unfold safe. destruct (m vm); eauto. Qed.

Lemma wp_safe (m : M A) vm Q : wp m vm Q -> safe m vm Q.
Proof. unfold wp, safe. destruct (m vm); done. Qed.

Lemma wp_inv (m : M A) vm Q : wp m vm Q -> exists a vm', m vm = Ret a vm' /\ Q a vm'.
Proof. unfold wp. destruct (m vm); [eauto | done..]. Qed.

Lemma wp_intro (m : M A) vm Q a vm' : m vm = Ret a vm' -> Q a vm' -> wp m vm Q.
Proof. unfold wp. by intros ->. Qed.
End wp.

Lemma wp_run {A B} (c : M A) (c' : A -> M B) vm a vm' Q :
  c vm = Ret a vm' -> wp (c' a) vm' Q -> wp (c ≫= c') vm Q.
Proof. intros E H. apply wp_bind. unfold wp at 1. by rewrite E. Qed.

Lemma wp_panic_if g vm (Q : () -> jello_vm -> Prop) : g = false -> Q () vm -> wp (panic_if g) vm Q.
Proof. intros ->. done. Qed.

(** The invariant rule of the counting loop. *)
Lemma wp_mfor (I : Z -> jello_vm -> Prop) (body : Z -> M ()) i n vm Q :
  I i vm ->
  (forall j vm', i <= j < i + Z.of_nat n -> I j vm' ->
     wp (body j) vm' (fun _ => I (j + 1))) ->
  (forall vm', I (i + Z.of_nat n) vm' -> Q () vm') ->
  wp (mfor i n body) vm Q.
Proof.
  revert i vm. induction n as [|n IH]; intros i vm H0 Hs He; cbn [mfor].
  - apply wp_ret, He. by rewrite Z.add_0_r.
  - apply wp_bind. eapply wp_mono; [apply Hs; [lia | done]|]. cbn. intros _ vm1 H1.
    apply IH; [done | intros; apply Hs; [lia | done] | intros vm' Hv; apply He].
    by replace (i + Z.of_nat (S n)) with (i + 1 + Z.of_nat n) by lia.
Qed.

(** ** Fuel, traps, spill *)

(** A trap as the hot paths raise it: code, constant message, payload the code. *)
Definition raise_exc (code : jello_trap_code) (msg : string) (payload : Z) (e : exc_state)
    : exc_state :=
  mk_exc (exc_handlers e) true payload code (Some msg).

Definition raise (code : jello_trap_code) (msg : string) : M () :=
  e ← get_exc; put_exc (raise_exc code msg (jello_make_i32 (code_of_trap code)) e).

Definition vm_spill_push (v : Z) : M () := fun vm => Ret () (set_spill (spill vm ++ [v]) vm).

Definition vm_spill_pop : M Z := fun vm =>
  match last (spill vm) with
  | Some v => Ret v (set_spill (take (length (spill vm) - 1) (spill vm)) vm)
  | None => Panic
  end.

(** [jello_vm_clear_trap]. *)
Definition jello_vm_clear_trap : M () :=
  e ← get_exc;
  put_exc (mk_exc (exc_handlers e) (exc_pending e) (exc_payload e) JELLO_TRAP_NONE None).

Definition jello_vm_set_fuel (fuel : Z) : M () :=
  l ← get_limits; put_limits (mk_limits fuel fuel (max_bytes_len l) (max_array_len l)).

Lemma spill_push_pop v vm :
  (_ ← vm_spill_push v; vm_spill_pop) vm = Ret v vm.
Proof.
  unfold mbind, M_bind, vm_spill_push, vm_spill_pop. cbn [spill set_spill].
  rewrite last_snoc, length_app. cbn [length].
  replace (length (spill vm) + 1 - 1)%nat with (length (spill vm)) by lia.
  rewrite take_app_length. by destruct vm.
Qed.
