(* ===== verification/Frame.v ===== *)
(** * Register frames

    Model of src/src/vm/frame.c (layouts, the frame stack, push and release of
    frames) and of the register accessors of src/src/vm/reg.c and
    vm_internal.h. *)

From S2P Require Import Prelude CInt Memory Bytecode Value Vm.

(** ** Registers *)

(** [vm_reg_ptr] as an offset into the frame stack. *)
Definition vm_reg_ptr (rf : reg_frame) (r : Z) : option Z :=
  match rf_mem rf, rf_off rf @! r with
  | Some mem, Some off => Some (mem + off)
  | _, _ => None
  end.

Definition load_reg (n : nat) (rf : reg_frame) (r : Z) : M Z :=
  s ← get_stack; a ← must (vm_reg_ptr rf r); must (mem_load n (frame_stack s) a).

Definition store_reg (n : nat) (rf : reg_frame) (r v : Z) : M () :=
  s ← get_stack; a ← must (vm_reg_ptr rf r); mem ← must (mem_store n (frame_stack s) a v);
  put_stack (set_mem mem s).

Definition vm_load_u32 : reg_frame -> Z -> M Z := load_reg 4.
Definition vm_store_u32 : reg_frame -> Z -> Z -> M () := store_reg 4.

(** [(uint32_t)(int32_t)(int8_t)(v & 0xFFu)] and its 16-bit twin. *)
Definition mask_kind (k : jello_type_kind) (v : Z) : Z :=
  match k with
  | JELLO_T_I8 => u32 (i8 (Z.land v 0xFF))
  | JELLO_T_I16 => u32 (i16 (Z.land v 0xFFFF))
  | _ => v
  end.

Definition vm_store_u32_masked (rf : reg_frame) (r v : Z) (k : jello_type_kind) : M () :=
  vm_store_u32 rf r (mask_kind k v).

Definition vm_load_i32ish (rf : reg_frame) (r : Z) : M Z := v ← vm_load_u32 rf r; mret (i32 v).

Definition vm_load_i64 (rf : reg_frame) (r : Z) : M Z := v ← load_reg 8 rf r; mret (i64 v).
Definition vm_store_i64 (rf : reg_frame) (r v : Z) : M () := store_reg 8 rf r (u64 v).

(** Floats are handled as their IEEE bit patterns. *)
Definition vm_load_f32 : reg_frame -> Z -> M Z := load_reg 4.
Definition vm_store_f32 : reg_frame -> Z -> Z -> M () := store_reg 4.
Definition vm_load_f64 : reg_frame -> Z -> M Z := load_reg 8.
Definition vm_store_f64 : reg_frame -> Z -> Z -> M () := store_reg 8.
Definition vm_load_f16_bits (rf : reg_frame) (r : Z) : M Z :=
  v ← vm_load_u32 rf r; mret (u16 (Z.land v 0xFFFF)).
Definition vm_store_f16_bits (rf : reg_frame) (r bits : Z) : M () := vm_store_u32 rf r bits.
Definition vm_load_val : reg_frame -> Z -> M Z := load_reg 8.
Definition vm_store_val : reg_frame -> Z -> Z -> M () := store_reg 8.
Definition vm_load_ptr : reg_frame -> Z -> M Z := load_reg 8.
Definition vm_store_ptr : reg_frame -> Z -> Z -> M () := store_reg 8.

(** ** Layouts *)

Section Layout.
Context (m : jello_bc_module).

(** [m->types[f->reg_types[r]].kind]. *)
Definition vm_reg_kind (f : jello_bc_function) (r : Z) : option jello_type_kind :=
  match f_reg_types f @! r with
  | Some tid => te_kind <$> m_types m @! tid
  | None => None
  end.

(** [size_t] is 64 bits wide. *)
Definition align_up (x a : Z) : Z := Z.land (u64 (x + (a - 1))) (u64 (Z.lnot (a - 1))).

(** The kinds whose slot holds a value or an object pointer. *)
Definition is_pointer_or_dynamic (k : jello_type_kind) : bool :=
  match k with
  | JELLO_T_DYNAMIC | JELLO_T_BYTES | JELLO_T_LIST | JELLO_T_ARRAY | JELLO_T_OBJECT
  | JELLO_T_FUNCTION | JELLO_T_ABSTRACT | JELLO_T_ENUM => true
  | _ => false
  end.

(** The loop over the registers from [i] on: offsets, total size, has_any. *)
Fixpoint layout_loop (f : jello_bc_function) (i : Z) (n : nat) (total : Z)
  : option (list Z * Z * bool) :=
  match n with
  | O => Some ([], total, false)
  | S n' =>
    k ← vm_reg_kind f i;
    let sz := jello_slot_size k in
    let total := align_up total sz in
    '(offs, t, any) ← layout_loop f (i + 1) n' (u64 (total + sz));
    Some (u32 total :: offs, t, is_pointer_or_dynamic k || any)
  end.

Definition jello_is_native_builtin (fi : Z) : bool := fi <? JELLO_NATIVE_BUILTIN_COUNT.

(** [!native && bidx < m->nfuncs && &m->funcs[bidx] == f]. *)
Definition is_self_index (self fi : Z) : bool :=
  negb (jello_is_native_builtin fi) && (fi - JELLO_NATIVE_BUILTIN_COUNT <? m_nfuncs m) &&
  (fi - JELLO_NATIVE_BUILTIN_COUNT =? self).

(** The backward search of CALLR: the nearest earlier instruction whose [a] is
    the callee register; [rev] holds the instructions before the call, nearest
    first. *)
Fixpoint callr_is_self (self callee_reg : Z) (rev : list jello_insn) : bool :=
  match rev with
  | [] => false
  | w :: rev' =>
    if negb (i_a w =? callee_reg) then callr_is_self self callee_reg rev'
    else (i_op w =? code_of_op JOP_CONST_FUN) && is_self_index self (i_imm w)
  end.

Record jit_scan : Set := mk_scan {
  saw_self : bool;
  saw_try : bool;
  saw_non_self_call : bool;
  saw_jmp_if : bool;
  saw_back_jmp : bool
}.

Definition is_heap_kind (k : jello_type_kind) : bool :=
  match k with
  | JELLO_T_DYNAMIC | JELLO_T_BYTES | JELLO_T_LIST | JELLO_T_ARRAY | JELLO_T_OBJECT
  | JELLO_T_ABSTRACT | JELLO_T_ENUM => true
  | _ => false
  end.

(** One round of the scan that is not left by [break]. *)
Definition jit_scan_insn (self : Z) (heap_regs : bool) (rev : list jello_insn)
    (ins : jello_insn) (s : jit_scan) : jit_scan :=
  let isop o := i_op ins =? code_of_op o in
  let jif := saw_jmp_if s || isop JOP_JMP_IF in
  let bj := saw_back_jmp s || (isop JOP_JMP && (i32 (i_imm ins) <? 0)) in
  let self_call := mk_scan true (saw_try s) (saw_non_self_call s) jif bj in
  let other_call := mk_scan (saw_self s) (saw_try s) true jif bj in
  if isop JOP_TAILCALL || isop JOP_TAILCALLR then other_call else
  if isop JOP_CALL then
    if is_self_index self (i_imm ins) && (i_c ins <=? 16) && negb heap_regs then self_call
  else other_call
  else if isop JOP_CALLR then
    if callr_is_self self (i_b ins) rev && (i_c ins <=? 16) && negb heap_regs then self_call
  else other_call
  else mk_scan (saw_self s) (saw_try s) (saw_non_self_call s) jif bj.

Fixpoint jit_scan_loop (self : Z) (heap_regs : bool) (rev insns : list jello_insn)
    (s : jit_scan) : jit_scan :=
  match insns with
  | [] => s
  | ins :: insns' =>
    if i_op ins =? code_of_op JOP_TRY
    then mk_scan (saw_self s) true (saw_non_self_call s) (saw_jmp_if s) (saw_back_jmp s)
    else jit_scan_loop self heap_regs (ins :: rev) insns'
      (jit_scan_insn self heap_regs rev ins s)
  end.

(** [(jit_ineligible, jit_self_rec)]. *)
Definition jit_flags (self : Z) (f : jello_bc_function) (heap_regs : bool) : bool * bool :=
  let s := jit_scan_loop self heap_regs [] (f_insns f) (mk_scan false false false false false) in
  if saw_try s then (true, false)
  else (false, (saw_self s && negb (saw_non_self_call s)) ||
    (saw_jmp_if s && saw_back_jmp s && negb (saw_non_self_call s) && negb heap_regs)).

Definition compute_layout (fi : Z) (f : jello_bc_function) : option frame_layout :=
  '(offs, total, any) ← layout_loop f 0 (Z.to_nat (f_nregs f)) 0;
  let heap_regs := existsb (fun tid =>
    match m_types m @! tid with Some t => is_heap_kind (te_kind t) | None => false end)
    (take (Z.to_nat (f_nregs f)) (f_reg_types f)) in
  let '(inel, rec) := jit_flags fi f heap_regs in
  Some (mk_layout (f_nregs f) (u32 total) offs any inel rec).

(** [vm_prepare_frame_layouts]: one slot per function, dropped when another
    module is prepared.  [maddr] is the address of [m]. *)
Definition vm_prepare_frame_layouts (maddr : Z) (s : stack_state) : stack_state :=
  if frame_layouts_mod s =? maddr then s
  else set_layouts (replicate (Z.to_nat (m_nfuncs m)) None) maddr s.

Definition vm_get_frame_layout (maddr fi : Z) : M frame_layout :=
  s0 ← get_stack;
  let s := vm_prepare_frame_layouts maddr s0 in
  _ ← put_stack s;
  _ ← panic_if (negb (zlen (frame_layouts s) =? m_nfuncs m));
  _ ← panic_if ((fi <? 0) || (m_nfuncs m <=? fi));
  cached ← must (frame_layouts s @! fi);
  match cached with
  | Some fl => mret fl
  | None =>
    f ← must (m_funcs m @! fi);
    fl ← must (compute_layout fi f);
    _ ← put_stack (set_layouts ((frame_layouts s) @[fi := Some fl]) (frame_layouts_mod s) s);
    mret fl
  end.
End Layout.

(** [vm_free_frame_layouts], as [jello_vm_invalidate_frame_cache] calls it. *)
Definition jello_vm_invalidate_frame_cache : M () :=
  s ← get_stack; put_stack (set_layouts [] 0 s).

(** [vm_type_is_nonptr]. *)
Definition vm_type_is_nonptr (k : jello_type_kind) : bool :=
  match k with
  | JELLO_T_I8 | JELLO_T_I16 | JELLO_T_I32 | JELLO_T_I64 | JELLO_T_F16 | JELLO_T_F32
  | JELLO_T_F64 | JELLO_T_BOOL | JELLO_T_ATOM => true
  | _ => false
  end.
