(* ===== verification/FrameFacts.v ===== *)
(** * Lemmas on layouts and registers

    Offsets are aligned, slots are disjoint; the register accessors as a register
    file. *)

From S2P Require Import Prelude CInt Memory Bytecode Value Object Heap Vm Frame.

(** ** Alignment *)

Lemma land_u64_r x y : is_u 64 x -> Z.land x (u64 y) = Z.land x y.
Proof.
  intros [H0 H1]. apply Z.bits_inj'. intros i Hi. rewrite !Z.land_spec. unfold wrapU.
  destruct (Z.ltb_spec i 64).
  - by rewrite Z.mod_pow2_bits_low by lia.
  - rewrite <- (Z.mod_small x (2 ^ 64)) by lia. by rewrite (Z.mod_pow2_bits_high x) by lia.
Qed.

Lemma align_up_pow x k :
  0 <= k <= 31 -> 0 <= x -> x + 2 ^ k <= 2 ^ 64 ->
  align_up x (2 ^ k) = (x + (2 ^ k - 1)) / 2 ^ k * 2 ^ k.
Proof.
  intros Hk Hx Hb. assert (0 < 2 ^ k) by (apply Z.pow_pos_nonneg; lia).
  unfold align_up. rewrite (wrapU_id 64 (x + _)) by (unfold is_u; lia).
  rewrite land_u64_r by (unfold is_u; lia).
  change (Z.land ?a (Z.lnot ?b)) with (Z.land a (Z.lnot b)).
  rewrite <- Z.ldiff_land. replace (2 ^ k - 1) with (Z.ones k) at 2 by (rewrite Z.ones_equiv; lia).
  rewrite Z.ldiff_ones_r by lia. by rewrite Z.shiftl_mul_pow2, Z.shiftr_div_pow2 by lia.
Qed.

(** [align_up x a] is the least multiple of [a] from [x] on. *)
Lemma align_up_spec x a :
  a = 4 \/ a = 8 -> 0 <= x < 2 ^ 63 ->
  x <= align_up x a < x + a /\ align_up x a mod a = 0.
Proof.
  intros [-> | ->] Hx.
  - change (align_up x 4) with (align_up x (2 ^ 2)). rewrite align_up_pow by lia.
    change (2 ^ 2) with 4. zdiv.
  - change (align_up x 8) with (align_up x (2 ^ 3)). rewrite align_up_pow by lia.
    change (2 ^ 3) with 8. zdiv.
Qed.

(** ** Layouts *)

(** Slots from [start] on, one after the other, each aligned to its size. *)
Fixpoint slots_from (start : Z) (ks : list jello_type_kind) (offs : list Z) (total : Z) : Prop :=
  match ks, offs with
  | [], [] => total = start
  | k :: ks', o :: offs' =>
      start <= o < start + jello_slot_size k /\ o mod jello_slot_size k = 0 /\
      slots_from (o + jello_slot_size k) ks' offs' total
  | _, _ => False
  end.

Definition reg_kinds (m : jello_bc_module) (f : jello_bc_function) (i : Z) (n : nat)
    (ks : list jello_type_kind) : Prop :=
  length ks = n /\ forall j k, ks !! j = Some k -> vm_reg_kind m f (i + Z.of_nat j) = Some k.

Lemma layout_loop_spec m f n : forall i total ks,
  reg_kinds m f i n ks -> 0 <= total -> total + 16 * Z.of_nat n < 2 ^ 32 ->
  exists offs t, layout_loop m f i n total = Some (offs, t, existsb is_pointer_or_dynamic ks) /\
    slots_from total ks offs t.
Proof.
  induction n as [|n IH]; intros i total ks [Hl Hk] H0 Hb.
  - destruct ks; [|done]. by exists [], total.
  - destruct ks as [|k ks]; [done|]. cbn [layout_loop].
    pose proof (Hk 0%nat k eq_refl) as Hk0. rewrite Z.add_0_r in Hk0. rewrite Hk0.
    cbn [mbind option_bind].
    destruct (align_up_spec total (jello_slot_size k) (slot_size_4_8 k)) as [Ha Hm]; [lia|].
    set (o := align_up total (jello_slot_size k)) in *.
    pose proof (slot_size_4_8 k) as Hsz.
    rewrite (wrapU_id 64 (o + _)) by (unfold is_u; lia).
    destruct (IH (i + 1) (o + jello_slot_size k) ks) as (offs & t & E & Hs).
    + split; [cbn in Hl; lia|]. intros j k' Hj. rewrite <- (Hk (S j) k' Hj). f_equal. lia.
    + lia.
    + lia.
    + rewrite E. cbn [mbind option_bind]. eexists (u32 o :: offs), t. split; [done|].
      rewrite (wrapU_id 32) by (unfold is_u; lia). cbn. done.
Qed.

Lemma slots_from_total start ks offs total :
  slots_from start ks offs total -> length offs = length ks /\ start <= total <= start + 16 * zlen ks.
Proof.
  revert start offs. induction ks as [|k ks IH]; intros start [|o offs]; cbn [slots_from]; try done.
  - intros ->. unfold zlen. cbn. lia.
  - intros (H1 & H2 & H3%IH). pose proof (slot_size_4_8 k). rewrite zlen_cons. cbn. lia.
Qed.

Lemma slots_from_lookup start ks offs total i k o :
  slots_from start ks offs total -> ks !! i = Some k -> offs !! i = Some o ->
  start <= o /\ o + jello_slot_size k <= total /\ o mod jello_slot_size k = 0.
Proof.
  revert start offs i. induction ks as [|k0 ks IH]; intros start [|o0 offs] i; cbn [slots_from]; try done.
  intros (H1 & H2 & H3) Hk Ho. pose proof (slots_from_total _ _ _ _ H3) as [_ Ht].
  pose proof (slot_size_4_8 k0).
  destruct i as [|i]; cbn in Hk, Ho; [simplify_eq; lia|].
  destruct (IH _ _ _ H3 Hk Ho). lia.
Qed.

Lemma slots_from_disjoint start ks offs total i j k1 o1 o2 :
  slots_from start ks offs total -> (i < j)%nat ->
  ks !! i = Some k1 -> offs !! i = Some o1 -> offs !! j = Some o2 ->
  o1 + jello_slot_size k1 <= o2.
Proof.
  revert start offs i j. induction ks as [|k0 ks IH]; intros start [|o0 offs] i j; cbn [slots_from]; try done.
  intros (H1 & H2 & H3) Hij Hk Ho1 Ho2.
  destruct j as [|j]; [lia|]. cbn in Ho2. destruct i as [|i]; cbn in Hk, Ho1.
  - simplify_eq. pose proof (slots_from_total _ _ _ _ H3) as [Hl _].
    destruct (ks !! j) as [k2|] eqn:E.
    + by destruct (slots_from_lookup _ _ _ _ _ _ _ H3 E Ho2).
    + apply lookup_lt_Some in Ho2. apply lookup_ge_None_1 in E. lia.
  - eapply IH; [done | | done..]. lia.
Qed.

(** The layout of a function's registers, as a property of the offsets. *)
Record layout_ok (ks : list jello_type_kind) (offs : list Z) (total : Z) : Prop := {
  lo_len : zlen offs = zlen ks;
  lo_total : 0 <= total <= 16 * zlen ks;
  lo_slot : forall r k o, ks @! r = Some k -> offs @! r = Some o ->
    0 <= o /\ o + jello_slot_size k <= total /\ o mod jello_slot_size k = 0;
  lo_disjoint : forall r1 r2 k1 k2 o1 o2, r1 <> r2 ->
    ks @! r1 = Some k1 -> offs @! r1 = Some o1 -> ks @! r2 = Some k2 -> offs @! r2 = Some o2 ->
    o1 + jello_slot_size k1 <= o2 \/ o2 + jello_slot_size k2 <= o1
}.

Lemma znth_inv {A} (l : list A) i x : l @! i = Some x -> exists n, i = Z.of_nat n /\ l !! n = Some x.
Proof. unfold znth. case_decide; [|done]. intros E. exists (Z.to_nat i). split; [lia | done]. Qed.

Lemma slots_layout_ok ks offs total : slots_from 0 ks offs total -> layout_ok ks offs total.
Proof.
  intros H. pose proof (slots_from_total _ _ _ _ H) as [Hl Ht]. constructor.
  - unfold zlen. lia.
  - lia.
  - intros r k o (n & -> & Hk)%znth_inv Ho. rewrite znth_lookup in Ho.
    by apply (slots_from_lookup 0 ks offs total n).
  - intros r1 r2 k1 k2 o1 o2 Hne (n1 & -> & Hk1)%znth_inv Ho1 (n2 & -> & Hk2)%znth_inv Ho2.
    rewrite znth_lookup in Ho1, Ho2. destruct (decide (n1 < n2)%nat).
    + left. by eapply (slots_from_disjoint 0 ks offs total n1 n2).
    + right. eapply (slots_from_disjoint 0 ks offs total n2 n1); [done | lia | done..].
Qed.

(** ** Registers *)

(** A frame of a function with registers of kinds [ks] in a memory. *)
Record rf_ok (mem : list Z) (rf : reg_frame) (ks : list jello_type_kind) : Prop := {
  ro_nregs : rf_nregs rf = zlen ks;
  ro_layout : layout_ok ks (rf_off rf) (rf_total rf);
  ro_mem : forall r, 0 <= r < zlen ks ->
    exists base, rf_mem rf = Some base /\ 0 <= base /\ base + rf_total rf <= zlen mem
}.

(** The address range of a register. *)
Lemma rf_slot mem rf ks r k :
  rf_ok mem rf ks -> ks @! r = Some k ->
  exists a, vm_reg_ptr rf r = Some a /\ 0 <= a /\ a + jello_slot_size k <= zlen mem.
Proof.
  intros [_ HL Hm] Hk. pose proof (znth_Some _ _ _ Hk) as Hr.
  destruct (Hm r Hr) as (base & Hb & H0 & Ht).
  destruct (znth_in_range (rf_off rf) r) as [o Ho]; [rewrite (lo_len _ _ _ HL); lia|].
  destruct (lo_slot _ _ _ HL r k o Hk Ho) as (Ho0 & Ho1 & _).
  exists (base + o). unfold vm_reg_ptr. rewrite Hb, Ho. split; [done|]. lia.
Qed.

Lemma rf_slots_disjoint mem rf ks r1 r2 k1 k2 a1 a2 :
  rf_ok mem rf ks -> r1 <> r2 -> ks @! r1 = Some k1 -> ks @! r2 = Some k2 ->
  vm_reg_ptr rf r1 = Some a1 -> vm_reg_ptr rf r2 = Some a2 ->
  a1 + jello_slot_size k1 <= a2 \/ a2 + jello_slot_size k2 <= a1.
Proof.
  intros [_ HL _] Hne H1 H2. unfold vm_reg_ptr.
  destruct (rf_mem rf); [|done].
  destruct (rf_off rf @! r1) as [o1|] eqn:E1; [|done].
  destruct (rf_off rf @! r2) as [o2|] eqn:E2; [|done].
  intros [= <-] [= <-]. destruct (lo_disjoint _ _ _ HL r1 r2 k1 k2 o1 o2); try done; lia.
Qed.

(** The bits in a register's slot. *)
Definition width_of (k : jello_type_kind) : nat := Z.to_nat (jello_slot_size k).

Definition reg_at (mem : list Z) (rf : reg_frame) (ks : list jello_type_kind) (r : Z) : Z :=
  match ks @! r, vm_reg_ptr rf r with
  | Some k, Some a => default 0 (mem_load (width_of k) mem a)
  | _, _ => 0
  end.

Lemma width_of_slot k : Z.of_nat (width_of k) = jello_slot_size k.
Proof. unfold width_of. destruct (slot_size_4_8 k); lia. Qed.

Section access.
Context (vm : jello_vm) (rf : reg_frame) (ks : list jello_type_kind).
Let mem := frame_stack (v_stack vm).
Context (Hrf : rf_ok mem rf ks).

Lemma load_reg_spec n r k :
  ks @! r = Some k -> n = width_of k -> load_reg n rf r vm = Ret (reg_at mem rf ks r) vm.
Proof.
  intros Hk ->. destruct (rf_slot _ _ _ _ _ Hrf Hk) as (a & Ha & H0 & H1).
  destruct (mem_load_Some (width_of k) mem a) as [v Hv]; [done | by rewrite width_of_slot|].
  unfold load_reg, reg_at. rewrite Ha, Hk.
  unfold mbind, M_bind, get_stack, must. fold mem. by rewrite Hv.
Qed.

Lemma store_reg_spec n r k v :
  ks @! r = Some k -> n = width_of k ->
  exists mem', store_reg n rf r v vm = Ret () (set_stack (set_mem mem' (v_stack vm)) vm) /\
  rf_ok mem' rf ks /\ zlen mem' = zlen mem /\
  reg_at mem' rf ks r = wrapU (8 * jello_slot_size k) v /\
  (forall r', r' <> r -> reg_at mem' rf ks r' = reg_at mem rf ks r').
Proof.
  intros Hk ->. destruct (rf_slot _ _ _ _ _ Hrf Hk) as (a & Ha & H0 & H1).
  destruct (mem_store_Some (width_of k) mem a v) as [mem' Hs]; [done | by rewrite width_of_slot|].
  exists mem'. pose proof (zlen_mem_store _ _ _ _ _ Hs) as Hz. split_and!.
  - unfold store_reg. rewrite Ha. unfold mbind, M_bind, get_stack, must. fold mem. by rewrite Hs.
  - destruct Hrf as [E1 E2 E3]. constructor; [done | done|]. by rewrite Hz.
  - done.
  - unfold reg_at. rewrite Hk, Ha, (mem_load_store_same _ _ _ _ _ Hs). cbn. by rewrite width_of_slot.
  - intros r' Hne. unfold reg_at. destruct (ks @! r') as [k'|] eqn:Hk'; [|done].
    destruct (vm_reg_ptr rf r') as [a'|] eqn:Ha'; [|done].
    rewrite (mem_load_store_other (width_of k') _ _ _ _ _ a' Hs); [done|].
    rewrite !width_of_slot. destruct (rf_slots_disjoint _ _ _ r r' _ _ _ _ Hrf (not_eq_sym Hne) Hk Hk' Ha Ha'); auto.
Qed.
End access.

(** ** Frames of functions *)

(** The frame [rf] of function [f] in the state [vm]. *)
Definition frame_of (m : jello_bc_module) (f : jello_bc_function) (rf : reg_frame)
    (ks : list jello_type_kind) (vm : jello_vm) : Prop :=
  rf_ok (frame_stack (v_stack vm)) rf ks /\
  forall r k, ks @! r = Some k -> vm_reg_kind m f r = Some k.

Definition reg (rf : reg_frame) (ks : list jello_type_kind) (r : Z) (vm : jello_vm) : Z :=
  reg_at (frame_stack (v_stack vm)) rf ks r.

Lemma reg_is_u rf ks r vm k :
  Forall is_byte (frame_stack (v_stack vm)) -> ks @! r = Some k ->
  is_u (8 * jello_slot_size k) (reg rf ks r vm).
Proof.
  intros Hb Hk. unfold reg, reg_at. rewrite Hk.
  assert (H0 : is_u (8 * jello_slot_size k) 0) by (destruct k; split; done).
  destruct (vm_reg_ptr rf r) as [a|]; [|done].
  destruct (mem_load _ _ a) as [v|] eqn:E; [|done]. cbn.
  apply mem_load_is_u in E; [|done]. by rewrite width_of_slot in E.
Qed.
