(* ===== verification/Float.v ===== *)
(** * Floating point

    The C types [float] and [double] on the IEEE targets of the VM: a value is its
    bit pattern; arithmetic is that of the Standard Library's SpecFloat on the
    decoded value, rounded to nearest even.  The bits of a NaN an operation
    produces are not specified by C; they are the parameter [nan].  The
    conversions of src/src/vm/reg.c (binary16) and the checked conversions of
    src/src/vm/box.c. *)

From S2P Require Import Prelude CInt Bytecode Value Object Heap Vm.
From Stdlib Require Import SpecFloat.

(** ** Formats *)

(** Mantissa width, exponent width. *)
Record format : Set := mk_format { mw : Z; ew : Z }.

Definition binary32 : format := mk_format 23 8.
Definition binary64 : format := mk_format 52 11.

Definition f_prec (fm : format) : Z := mw fm + 1.
Definition f_emax (fm : format) : Z := 2 ^ (ew fm - 1).
Definition f_emin (fm : format) : Z := 3 - f_emax fm - f_prec fm.

Definition decode (fm : format) (b : Z) : spec_float :=
  let s := Z.testbit b (mw fm + ew fm) in
  let e := Z.land (Z.shiftr b (mw fm)) (2 ^ ew fm - 1) in
  let m := Z.land b (2 ^ mw fm - 1) in
  if e =? 0 then if m =? 0 then S754_zero s else S754_finite s (Z.to_pos m) (f_emin fm)
  else if e =? 2 ^ ew fm - 1 then if m =? 0 then S754_infinity s else S754_nan
  else S754_finite s (Z.to_pos (m + 2 ^ mw fm)) (e - 1 + f_emin fm).

Definition encode (fm : format) (nan : Z) (x : spec_float) : Z :=
  let sign (s : bool) := if s then 2 ^ (mw fm + ew fm) else 0 in
  match x with
  | S754_zero s => sign s
  | S754_infinity s => sign s + (2 ^ ew fm - 1) * 2 ^ mw fm
  | S754_nan => nan
  | S754_finite s m e =>
      if Z.pos m <? 2 ^ mw fm then sign s + Z.pos m
      else sign s + (e - f_emin fm + 1) * 2 ^ mw fm + (Z.pos m - 2 ^ mw fm)
  end.

(** ** Conversions *)

(** [(float)i], [(double)i]. *)
Definition of_int (fm : format) (z : Z) : spec_float :=
  binary_normalize (f_prec fm) (f_emax fm) z 0 false.

(** [(float)d], [(double)f]. *)
Definition convert (fm : format) (x : spec_float) : spec_float :=
  match x with
  | S754_finite s m e =>
      binary_normalize (f_prec fm) (f_emax fm) (if s then Z.neg m else Z.pos m) e s
  | _ => x
  end.

(** The integer part of a finite value, towards zero. *)
Definition trunc_sf (x : spec_float) : option Z :=
  match x with
  | S754_zero _ => Some 0
  | S754_finite s m e =>
      let n := if 0 <=? e then Z.pos m * 2 ^ e else Z.pos m / 2 ^ (- e) in
      Some (if s then - n else n)
  | _ => None
  end.

(** [(intN_t)x]: undefined when the integer part does not fit. *)
Definition to_int (w : Z) (x : spec_float) : option Z :=
  z ← trunc_sf x; if bool_decide (is_s w z) then Some z else None.

Definition isfinite (x : spec_float) : bool :=
  match x with S754_zero _ | S754_finite _ _ _ => true | _ => false end.

(** ** Arithmetic on bit patterns *)

Section Arith.
Context (fm : format) (nan : Z).

Definition fl2 (op : Z -> Z -> spec_float -> spec_float -> spec_float) (a b : Z) : Z :=
  encode fm nan (op (f_prec fm) (f_emax fm) (decode fm a) (decode fm b)).

Definition fl_add : Z -> Z -> Z := fl2 SFadd.
Definition fl_sub : Z -> Z -> Z := fl2 SFsub.
Definition fl_mul : Z -> Z -> Z := fl2 SFmul.
Definition fl_div : Z -> Z -> Z := fl2 SFdiv.
(** [-x] flips the sign bit. *)
Definition fl_neg (a : Z) : Z := Z.lxor a (2 ^ (mw fm + ew fm)).
Definition fl_eq (a b : Z) : bool := SFeqb (decode fm a) (decode fm b).
Definition fl_lt (a b : Z) : bool := SFltb (decode fm a) (decode fm b).
End Arith.

(** ** binary16 of src/src/vm/reg.c *)

(** [while(!(mant & 0x800000u)) { mant <<= 1; exp--; }]; [fuel] rounds. *)
Fixpoint f16_normalize (fuel : nat) (mant exp : Z) : option (Z * Z) :=
  if negb (Z.land mant 0x800000 =? 0) then Some (mant, exp)
  else match fuel with
       | O => None
       | S n => f16_normalize n (u32 (Z.shiftl mant 1)) (u32 (exp - 1))
       end.

(** [nan32] is the value of [0.0f / 0.0f] times a sign; ten rounds are enough. *)
Definition vm_f16_bits_to_f32 (nan32 : bool -> Z) (bits : Z) : option Z :=
  if Z.land bits 0x7FFF =? 0 then Some (if Z.land bits 0x8000 =? 0 then 0 else 0x80000000) else
  let sign := u32 (Z.shiftl (Z.land bits 0x8000) 16) in
  let exp := Z.land (Z.shiftr bits 10) 0x1F in
  let mant := u32 (Z.shiftl (Z.land bits 0x3FF) 13) in
  let pack (mant exp : Z) := Z.lor (Z.lor sign (u32 (Z.shiftl (u32 (exp + (127 - 15))) 23))) mant in
  if exp =? 0 then
    '(mant, exp) ← f16_normalize 10 mant exp; Some (pack mant (u32 (exp + 1)))
  else if exp =? 31 then
    Some (if mant =? 0 then Z.lor sign 0x7F800000 else nan32 (negb (sign =? 0)))
  else Some (pack mant exp).

Definition vm_f32_to_f16_bits (u : Z) : Z :=
  let sign := Z.land (Z.shiftr u 16) 0x8000 in
  let exp := Z.land (Z.shiftr u 23) 0xFF in
  let mant := Z.land u 0x7FFFFF in
  if exp =? 0xFF then u16 (Z.lor (Z.lor sign 0x7C00) (if mant =? 0 then 0 else 0x200)) else
  if (exp =? 0) && (mant =? 0) then u16 sign else
  let exp16 := i32 (i32 (i32 exp - 127) + 15) in
  if 31 <=? exp16 then u16 (Z.lor sign 0x7C00) else
  if exp16 <=? 0 then u16 sign else
  u16 (Z.lor (Z.lor sign (Z.shiftl exp16 10)) (Z.shiftr mant 13)).

(** ** Checked conversions of src/src/vm/box.c *)

(** [x > c], [x < c] for a double literal [c] that is an integer. *)
Definition f64_of_lit (z : Z) : spec_float := of_int binary64 z.

Definition vm_checked_f64_to_i32 (bits : Z) : M (option Z) :=
  let x := decode binary64 bits in
  if negb (isfinite x) then
    _ ← raise JELLO_TRAP_TYPE_MISMATCH "f64->i32 conversion overflow"; mret None
  else if SFltb (f64_of_lit 2147483647) x || SFltb x (f64_of_lit (-2147483648)) then
    _ ← raise JELLO_TRAP_TYPE_MISMATCH "f64->i32 conversion overflow"; mret None
  else v ← must (to_int 32 x); mret (Some (u32 v)).

Definition vm_checked_f64_to_i64 (bits : Z) : M (option Z) :=
  let x := decode binary64 bits in
  if negb (isfinite x) then
    _ ← raise JELLO_TRAP_TYPE_MISMATCH "f64->i64 conversion overflow"; mret None
  else if SFltb (f64_of_lit 9223372036854775807) x || SFltb x (f64_of_lit (-9223372036854775808))
  then _ ← raise JELLO_TRAP_TYPE_MISMATCH "f64->i64 conversion overflow"; mret None
  else v ← must (to_int 64 x); mret (Some v).
