(* ===== verification/FloatThms.v ===== *)
(** * Conversions of floating-point values *)

From S2P Require Import Prelude CInt Bytecode Value Object Heap Vm Float.
From Stdlib Require Import SpecFloat.

(** ** Bit patterns *)

Lemma land_ones_mod b n : 0 <= n -> Z.land b (2 ^ n - 1) = b mod 2 ^ n.
Proof. intros. replace (2 ^ n - 1) with (Z.ones n) by (rewrite Z.ones_equiv; lia). by apply Z.land_ones. Qed.

(** The three fields of a pattern. *)
Lemma bits_fields fm b :
  0 < mw fm -> 0 < ew fm -> 0 <= b < 2 ^ (mw fm + ew fm + 1) ->
  b = (if Z.testbit b (mw fm + ew fm) then 2 ^ (mw fm + ew fm) else 0) +
      Z.land (Z.shiftr b (mw fm)) (2 ^ ew fm - 1) * 2 ^ mw fm + Z.land b (2 ^ mw fm - 1).
Proof.
  intros Hm He Hb. rewrite !land_ones_mod by lia. rewrite Z.shiftr_div_pow2 by lia.
  assert (0 < 2 ^ mw fm) by (apply Z.pow_pos_nonneg; lia).
  assert (0 < 2 ^ ew fm) by (apply Z.pow_pos_nonneg; lia).
  rewrite (Z.pow_add_r 2 (mw fm) (ew fm)) by lia.
  assert (Hs : b / (2 ^ mw fm * 2 ^ ew fm) = if Z.testbit b (mw fm + ew fm) then 1 else 0).
  { rewrite <- Z.pow_add_r, <- Z.shiftr_div_pow2 by lia.
    assert (Hq : 0 <= Z.shiftr b (mw fm + ew fm) < 2).
    { rewrite Z.shiftr_div_pow2 by lia. rewrite (Z.pow_add_r 2 _ 1) in Hb by lia.
      split; [apply Z.div_pos; lia | apply Z.div_lt_upper_bound; lia]. }
    replace (Z.testbit b (mw fm + ew fm)) with (Z.testbit (Z.shiftr b (mw fm + ew fm)) 0)
      by (rewrite Z.shiftr_spec by lia; f_equal; lia).
    assert (Z.shiftr b (mw fm + ew fm) = 0 \/ Z.shiftr b (mw fm + ew fm) = 1) as [-> | ->] by lia; done. }
  rewrite (Z.div_mod b (2 ^ mw fm)) at 1 by lia.
  rewrite (Z.div_mod (b / 2 ^ mw fm) (2 ^ ew fm)) at 1 by lia.
  rewrite Z.div_div, Hs by lia. destruct (Z.testbit _ _); ring.
Qed.

(** A pattern that is not a NaN is determined by its value. *)
Lemma encode_decode fm nan b :
  0 < mw fm -> 0 < ew fm -> 0 <= b < 2 ^ (mw fm + ew fm + 1) ->
  decode fm b <> S754_nan -> encode fm nan (decode fm b) = b.
Proof.
  intros Hm He Hb Hn. pose proof (bits_fields fm b Hm He Hb) as Hf.
  assert (0 < 2 ^ mw fm) by (apply Z.pow_pos_nonneg; lia).
  assert (Hmant : 0 <= Z.land b (2 ^ mw fm - 1) < 2 ^ mw fm)
    by (rewrite land_ones_mod by lia; apply Z.mod_pos_bound; lia).
  revert Hn. unfold decode.
  set (e := Z.land (Z.shiftr b (mw fm)) (2 ^ ew fm - 1)) in *.
  set (mant := Z.land b (2 ^ mw fm - 1)) in *.
  repeat case_if; bool_hyps; try done; intros _; cbn [encode].
  - lia.
  - rewrite Z2Pos.id by lia. rewrite (proj2 (Z.ltb_lt _ _)) by lia. lia.
  - subst e. lia.
  - rewrite Z2Pos.id by lia. rewrite (proj2 (Z.ltb_ge _ _)) by lia. lia.
Qed.

(** ** Checked conversions *)

Lemma decode_mant fm b s m e :
  0 < mw fm -> decode fm b = S754_finite s m e -> Z.pos m < 2 ^ (mw fm + 1).
Proof.
  intros Hm. unfold decode. assert (0 < 2 ^ mw fm) by (apply Z.pow_pos_nonneg; lia).
  assert (0 <= Z.land b (2 ^ mw fm - 1) < 2 ^ mw fm)
    by (rewrite land_ones_mod by lia; apply Z.mod_pos_bound; lia).
  rewrite Z.pow_add_r by lia.
  repeat case_if; bool_hyps; try done; intros [= <- <- <-]; rewrite Z2Pos.id; lia.
Qed.

(** The magnitude of a truncated value is at most that of a larger float. *)
Lemma trunc_bound m e k c :
  Z.pos m < 2 ^ 53 -> e < - k -> 0 <= k <= 52 -> c = 2 ^ (52 - k) ->
  0 <= (if 0 <=? e then Z.pos m * 2 ^ e else Z.pos m / 2 ^ (- e)) < c.
Proof.
  intros Hm He Hk ->. rewrite (proj2 (Z.leb_gt _ _)) by lia.
  assert (0 < 2 ^ (- e)) by (apply Z.pow_pos_nonneg; lia).
  split; [apply Z.div_pos; lia|]. apply Z.div_lt_upper_bound; [lia|].
  assert (2 ^ 53 <= 2 ^ (- e) * 2 ^ (52 - k)); [|lia].
  rewrite <- Z.pow_add_r by lia. apply Z.pow_le_mono_r; lia.
Qed.

Lemma SFltb_pos m1 e1 m2 e2 :
  SFltb (S754_finite false m1 e1) (S754_finite false m2 e2) = false ->
  e2 < e1 \/ e2 = e1 /\ Z.pos m2 <= Z.pos m1.
Proof.
  unfold SFltb, SFcompare. destruct (Z.compare_spec e1 e2) as [->|?|?]; [|done|by left].
  intros H. right. split; [done|]. change (Pos.compare_cont Eq m1 m2) with (Pos.compare m1 m2) in H.
  destruct (Pos.compare_spec m1 m2); [subst; lia | done | lia].
Qed.

Lemma SFltb_neg m1 e1 m2 e2 :
  SFltb (S754_finite true m1 e1) (S754_finite true m2 e2) = false ->
  e1 < e2 \/ e1 = e2 /\ Z.pos m1 <= Z.pos m2.
Proof.
  unfold SFltb, SFcompare. destruct (Z.compare_spec e1 e2) as [->|?|?]; [|by left|done].
  intros H. right. split; [done|]. change (Pos.compare_cont Eq m1 m2) with (Pos.compare m1 m2) in H.
  destruct (Pos.compare_spec m1 m2); cbn in H; [subst; lia | lia | done].
Qed.

Definition in_range (lo hi : Z) (x : spec_float) : bool :=
  isfinite x && negb (SFltb (f64_of_lit hi) x || SFltb x (f64_of_lit lo)).

(** A double between -2^31 and 2^31 - 1 truncates into [int32_t]. *)
Lemma in_range_i32 b :
  in_range (-2147483648) 2147483647 (decode binary64 b) = true ->
  exists v, to_int 32 (decode binary64 b) = Some v /\ trunc_sf (decode binary64 b) = Some v.
Proof.
  unfold in_range. change (f64_of_lit 2147483647) with (S754_finite false 9007199250546688 (-22)).
  change (f64_of_lit (-2147483648)) with (S754_finite true 4503599627370496 (-21)).
  destruct (decode binary64 b) as [s|s| |s m e] eqn:E; try done.
  { intros _. by exists 0. }
  pose proof (decode_mant binary64 b s m e ltac:(cbn; lia) E) as Hm. change (mw binary64 + 1) with 53 in Hm.
  intros H. apply andb_true_iff in H as [_ H]. apply negb_true_iff, orb_false_iff in H as [H1 H2].
  unfold to_int, trunc_sf. cbn [mbind option_bind].
  set (n := if 0 <=? e then _ else _).
  assert (Hn : is_s 32 (if s then - n else n)).
  { unfold is_s. change (2 ^ (32 - 1)) with 2147483648. destruct s.
    - apply SFltb_neg in H2 as [He|[-> Hle]].
      + pose proof (trunc_bound m e 21 2147483648 Hm ltac:(lia) ltac:(lia) eq_refl). fold n in H. lia.
      + change n with (Z.pos m / 2097152). zdiv.
    - apply SFltb_pos in H1 as [He|[-> Hle]].
      + pose proof (trunc_bound m e 22 1073741824 Hm ltac:(lia) ltac:(lia) eq_refl). fold n in H. lia.
      + change n with (Z.pos m / 4194304). zdiv. }
  rewrite bool_decide_eq_true_2 by done. eauto.
Qed.

(** A double between -2^63 and 2^63 truncates into [int64_t], but for 2^63. *)
Lemma in_range_i64 b :
  in_range (-9223372036854775808) 9223372036854775807 (decode binary64 b) = true ->
  decode binary64 b <> f64_of_lit 9223372036854775808 ->
  exists v, to_int 64 (decode binary64 b) = Some v /\ trunc_sf (decode binary64 b) = Some v.
Proof.
  unfold in_range. change (f64_of_lit 9223372036854775807) with (S754_finite false 4503599627370496 11).
  change (f64_of_lit 9223372036854775808) with (S754_finite false 4503599627370496 11).
  change (f64_of_lit (-9223372036854775808)) with (S754_finite true 4503599627370496 11).
  destruct (decode binary64 b) as [s|s| |s m e] eqn:E; try done.
  { intros _. by exists 0. }
  pose proof (decode_mant binary64 b s m e ltac:(cbn; lia) E) as Hm. change (mw binary64 + 1) with 53 in Hm.
  intros H Hne. apply andb_true_iff in H as [_ H]. apply negb_true_iff, orb_false_iff in H as [H1 H2].
  unfold to_int, trunc_sf. cbn [mbind option_bind].
  set (n := if 0 <=? e then _ else _).
  assert (Hsmall : e < 11 -> 0 <= n < 9223372036854775808).
  { intros He. subst n. destruct (Z.leb_spec 0 e).
    - assert (2 ^ e <= 2 ^ 10) by (apply Z.pow_le_mono_r; lia).
      assert (0 < 2 ^ e) by (apply Z.pow_pos_nonneg; lia). nia.
    - pose proof (trunc_bound m e 0 (2 ^ 52) Hm ltac:(lia) ltac:(lia) eq_refl) as Ht.
      rewrite (proj2 (Z.leb_gt _ _)) in Ht by lia. lia. }
  assert (Hn : is_s 64 (if s then - n else n)).
  { unfold is_s. change (2 ^ (64 - 1)) with 9223372036854775808. destruct s.
    - apply SFltb_neg in H2 as [He|[-> Hle]]; [lia|]. change n with (Z.pos m * 2048). lia.
    - apply SFltb_pos in H1 as [He|[-> Hle]]; [lia|]. change n with (Z.pos m * 2048).
      assert (m <> 4503599627370496%positive) by (intros ->; done). lia. }
  rewrite bool_decide_eq_true_2 by done. eauto.
Qed.

Definition type_mismatch (msg : string) (vm : jello_vm) : jello_vm :=
  set_exc (raise_exc JELLO_TRAP_TYPE_MISMATCH msg (jello_make_i32 1) (v_exc vm)) vm.

(** C38: The conversion of a double to i32 never runs into undefined behaviour: a
    value in [[-2^31, 2^31 - 1]] is truncated towards zero, any other value, an
    infinity or a NaN raises a TypeMismatch trap and stores nothing. *)
Theorem checked_f64_to_i32_spec b vm :
  vm_checked_f64_to_i32 b vm =
    if in_range (-2147483648) 2147483647 (decode binary64 b)
    then Ret (u32 <$> trunc_sf (decode binary64 b)) vm
    else Ret None (type_mismatch "f64->i32 conversion overflow" vm).
Proof.
  unfold vm_checked_f64_to_i32. destruct (in_range _ _ _) eqn:E.
  - destruct (in_range_i32 _ E) as (v & H1 & H2). unfold in_range in E.
    apply andb_true_iff in E as [-> E]. apply negb_true_iff in E. cbn [negb]. rewrite E, H1, H2. done.
  - unfold in_range in E. destruct (isfinite _); [|done]. cbn [andb negb] in *.
    apply negb_false_iff in E. by rewrite E.
Qed.

(** The conversion of a double to i64 truncates values in [[-2^63, 2^63)] and
    traps outside [[-2^63, 2^63]], but lets 2^63 itself reach the C conversion,
    which is undefined there: the literal it is compared with is 2^63 - 1, which
    no double represents. *)
Theorem checked_f64_to_i64_spec b vm :
  vm_checked_f64_to_i64 b vm =
    if in_range (-9223372036854775808) 9223372036854775807 (decode binary64 b) then
      if bool_decide (trunc_sf (decode binary64 b) = Some (2 ^ 63)) then Crash
      else Ret (trunc_sf (decode binary64 b)) vm
    else Ret None (type_mismatch "f64->i64 conversion overflow" vm).
Proof.
  unfold vm_checked_f64_to_i64. destruct (in_range _ _ _) eqn:E.
  - pose proof (in_range_i64 b E) as Hin. unfold in_range in E.
    apply andb_true_iff in E as [-> E]. apply negb_true_iff in E. cbn [negb]. rewrite E.
    destruct (decide (trunc_sf (decode binary64 b) = Some (2 ^ 63))) as [Ht|Ht].
    + rewrite bool_decide_eq_true_2 by done. unfold to_int. by rewrite Ht.
    + rewrite bool_decide_eq_false_2 by done.
      destruct Hin as (v & H1 & H2); [by intros Hd; rewrite Hd in Ht | by rewrite H1, H2].
  - unfold in_range in E. destruct (isfinite _); [|done]. cbn [andb negb] in *.
    apply negb_false_iff in E. by rewrite E.
Qed.

(** The pattern of 2^63. *)
Example checked_f64_to_i64_ub vm : vm_checked_f64_to_i64 0x43E0000000000000 vm = Crash.
Proof. rewrite checked_f64_to_i64_spec. vm_compute. reflexivity. Qed.

(** ** binary16 *)

Definition binary16 : format := mk_format 10 5.

(** The fields of a binary16 pattern. *)
Definition f16_exp (b : Z) : Z := Z.land (Z.shiftr b 10) 0x1F.
Definition f16_mant (b : Z) : Z := Z.land b 0x3FF.
Definition f16_subnormal (b : Z) : bool := (f16_exp b =? 0) && negb (f16_mant b =? 0).
Definition f16_nan (b : Z) : bool := (f16_exp b =? 31) && negb (f16_mant b =? 0).

(** Finite values are compared as multiples of 2^-149. *)
Definition same_float (x y : spec_float) : bool :=
  match x, y with
  | S754_zero s, S754_zero t | S754_infinity s, S754_infinity t => Bool.eqb s t
  | S754_finite s m e, S754_finite t n f =>
      Bool.eqb s t && (-149 <=? e) && (-149 <=? f) && (Z.shiftl (Z.pos m) (e + 149) =? Z.shiftl (Z.pos n) (f + 149))
  | _, _ => false
  end.

(** Equality of the values of a binary32 and a binary16 pattern. *)
Definition same_value (u b : Z) : bool := same_float (decode binary32 u) (decode binary16 b).

(** A pattern from its fields, and back. *)
Definition pack (fm : format) (s e m : Z) : Z := s * 2 ^ (mw fm + ew fm) + e * 2 ^ mw fm + m.

Lemma unpack fm s e m : 0 < mw fm -> 0 < ew fm -> 0 <= s < 2 -> 0 <= e < 2 ^ ew fm -> 0 <= m < 2 ^ mw fm ->
  Z.testbit (pack fm s e m) (mw fm + ew fm) = (s =? 1) /\
  Z.land (Z.shiftr (pack fm s e m) (mw fm)) (2 ^ ew fm - 1) = e /\
  Z.land (pack fm s e m) (2 ^ mw fm - 1) = m.
Proof.
  intros Hm He Hs Hee Hmm. unfold pack. rewrite !land_ones_mod by lia.
  assert (0 < 2 ^ mw fm) by (apply Z.pow_pos_nonneg; lia).
  assert (0 < 2 ^ ew fm) by (apply Z.pow_pos_nonneg; lia).
  rewrite (Z.pow_add_r 2 (mw fm) (ew fm)) by lia. set (x := 2 ^ mw fm) in *. set (y := 2 ^ ew fm) in *.
  assert (Hq : (s * (x * y) + e * x + m) / x = s * y + e).
  { replace (s * (x * y) + e * x + m) with (m + (s * y + e) * x) by ring.
    rewrite Z.div_add, Z.div_small by lia. lia. }
  split_and!.
  - rewrite Z.testbit_odd, Z.shiftr_div_pow2, Z.pow_add_r by lia.
    fold x y. rewrite <- Z.div_div, Hq by lia. replace (s * y + e) with (e + s * y) by ring.
    rewrite Z.div_add, Z.div_small by lia. by assert (s = 0 \/ s = 1) as [-> | ->] by lia.
  - rewrite Z.shiftr_div_pow2 by lia. fold x. rewrite Hq.
    replace (s * y + e) with (e + s * y) by ring. by rewrite Z.mod_add, Z.mod_small by lia.
  - replace (s * (x * y) + e * x + m) with (m + (s * y + e) * x) by ring.
    by rewrite Z.mod_add, Z.mod_small by lia.
Qed.

Lemma land_bit b n : 0 <= n -> Z.land b (2 ^ n) = if Z.testbit b n then 2 ^ n else 0.
Proof.
  intros Hn. apply Z.bits_inj'. intros i Hi. rewrite Z.land_spec, Z.pow2_bits_eqb by lia.
  destruct (Z.eqb_spec n i) as [<-|Hne].
  - rewrite andb_true_r. destruct (Z.testbit b n); [by rewrite Z.pow2_bits_true | by rewrite Z.bits_0].
  - rewrite andb_false_r. destruct (Z.testbit b n); [by rewrite Z.pow2_bits_false | by rewrite Z.bits_0].
Qed.

(** The exponent of a number that is neither subnormal nor a NaN, in binary32. *)
Definition f32_exp_of (e : Z) : Z := if e =? 0 then 0 else if e =? 31 then 255 else e + 112.

Section Fields.
Context (s e m : Z).
Hypothesis Hs : 0 <= s < 2.
Hypothesis He : 0 <= e < 32.
Hypothesis Hm : 0 <= m < 1024.
Hypothesis Hsub : e = 0 -> m = 0.
Hypothesis Hnan : e = 31 -> m = 0.

Abbreviation b16 := (pack binary16 s e m).
Abbreviation b32 := (pack binary32 s (f32_exp_of e) (m * 8192)).

Lemma unpack16 : b16 = s * 32768 + e * 1024 + m /\ Z.land b16 0x8000 = s * 32768 /\
  Z.land (Z.shiftr b16 10) 0x1F = e /\ Z.land b16 0x3FF = m.
Proof.
  destruct (unpack binary16 s e m) as (H1 & H2 & H3); [done..|]. split; [done|]. split; [|done].
  change 0x8000 with (2 ^ 15). rewrite land_bit by lia. change 15 with (mw binary16 + ew binary16). rewrite H1.
  by assert (s = 0 \/ s = 1) as [-> | ->] by lia.
Qed.

Lemma unpack32 : b32 = s * 2147483648 + f32_exp_of e * 8388608 + m * 8192 /\
  Z.land (Z.shiftr b32 16) 0x8000 = s * 32768 /\
  Z.land (Z.shiftr b32 23) 0xFF = f32_exp_of e /\ Z.land b32 0x7FFFFF = m * 8192.
Proof.
  assert (Hx : 0 <= f32_exp_of e < 256) by (unfold f32_exp_of; repeat case_if; lia).
  destruct (unpack binary32 s (f32_exp_of e) (m * 8192)) as (H1 & H2 & H3); [done | done | done | done | cbn; lia|].
  split; [done|]. split; [|done]. change 0x8000 with (2 ^ 15). rewrite land_bit, Z.shiftr_spec by lia.
  change (15 + 16) with (mw binary32 + ew binary32). rewrite H1.
  by assert (s = 0 \/ s = 1) as [-> | ->] by lia.
Qed.

Lemma f16_to_f32_fields nan : vm_f16_bits_to_f32 nan b16 = Some b32.
Proof.
  destruct unpack16 as (E & H1 & H2 & H3). destruct unpack32 as (E32 & _).
  assert (H4 : Z.land b16 0x7FFF = e * 1024 + m).
  { change 0x7FFF with (2 ^ 15 - 1). rewrite land_ones_mod, E by lia. zdiv. }
  unfold vm_f16_bits_to_f32. rewrite H4, H1, H2, H3, E32. unfold f32_exp_of.
  assert (Hsign : u32 (Z.shiftl (s * 32768) 16) = s * 2147483648).
  { rewrite wrapU_id; rewrite Z.shiftl_mul_pow2 by lia; unfold is_u; lia. }
  assert (Hmant : u32 (Z.shiftl m 13) = m * 8192).
  { rewrite wrapU_id; rewrite Z.shiftl_mul_pow2 by lia; unfold is_u; lia. }
  rewrite Hsign, Hmant. destruct (Z.eqb_spec (e * 1024 + m) 0) as [H0|H0].
  - assert (e = 0) as -> by lia. cbn [Z.eqb]. destruct (Z.eqb_spec (s * 32768) 0); f_equal; lia.
  - destruct (Z.eqb_spec e 0) as [->|Hne]; [lia|]. destruct (Z.eqb_spec e 31) as [->|Hn31].
    + rewrite Hnan by done. cbn [Z.mul Z.eqb]. f_equal.
      assert (s = 0 \/ s = 1) as [-> | ->] by lia; done.
    + f_equal. assert (Hexp : u32 (Z.shiftl (u32 (e + (127 - 15))) 23) = Z.shiftl (e + 112) 23).
      { rewrite (wrapU_id 32 (e + _)) by (unfold is_u; lia). rewrite wrapU_id; [f_equal; lia|].
        rewrite Z.shiftl_mul_pow2 by lia. unfold is_u. lia. }
      rewrite Hexp, <- Z.lor_assoc, (Z.lor_comm (Z.shiftl _ _)), (lor_shiftl_add _ _ 23) by lia.
      replace (s * 2147483648) with (Z.shiftl s 31) by (rewrite Z.shiftl_mul_pow2 by lia; lia).
      rewrite Z.lor_comm, lor_shiftl_add, ?Z.shiftl_mul_pow2 by lia. lia.
Qed.

Lemma f32_to_f16_fields : vm_f32_to_f16_bits b32 = b16.
Proof.
  destruct unpack16 as (E & _). destruct unpack32 as (E32 & H1 & H2 & H3).
  unfold vm_f32_to_f16_bits. rewrite H1, H2, H3, E. clear H1 H2 H3. unfold f32_exp_of.
  destruct (Z.eqb_spec e 0) as [->|Hne]; [|destruct (Z.eqb_spec e 31) as [->|Hn31]].
  - rewrite Hsub by done. assert (s = 0 \/ s = 1) as [-> | ->] by lia; done.
  - rewrite Hnan by done. assert (s = 0 \/ s = 1) as [-> | ->] by lia; done.
  - rewrite (proj2 (Z.eqb_neq (e + 112) 0xFF)), (proj2 (Z.eqb_neq (e + 112) 0)) by lia. cbn [andb].
    assert (He16 : i32 (i32 (i32 (e + 112) - 127) + 15) = e)
      by (rewrite (wrapS_id 32 ltac:(lia) (e + 112)), (wrapS_id 32 ltac:(lia) (_ - _)), wrapS_id by (unfold is_s; lia); lia).
    rewrite He16, (proj2 (Z.leb_gt 31 e)), (proj2 (Z.leb_gt e 0)) by lia.
    rewrite Z.shiftr_div_pow2 by lia. change (2 ^ 13) with 8192. rewrite Z.div_mul by lia.
    rewrite <- Z.lor_assoc, (Z.lor_comm (Z.shiftl e 10)), (lor_shiftl_add m e 10) by lia.
    replace (s * 32768) with (Z.shiftl s 15) by (rewrite Z.shiftl_mul_pow2 by lia; lia).
    rewrite Z.lor_comm, lor_shiftl_add, ?Z.shiftl_mul_pow2 by lia. rewrite wrapU_id; [lia|]. unfold is_u. lia.
Qed.

Lemma same_value_fields : same_value b32 b16 = true.
Proof.
  assert (Hx : 0 <= f32_exp_of e < 256) by (unfold f32_exp_of; repeat case_if; lia).
  destruct (unpack binary16 s e m) as (H1 & H2 & H3); [done..|].
  destruct (unpack binary32 s (f32_exp_of e) (m * 8192)) as (K1 & K2 & K3); [done | done | done | done | cbn; lia|].
  unfold same_value, decode. rewrite H1, H2, H3, K1, K2, K3. unfold f32_exp_of.
  change (2 ^ ew binary16 - 1) with 31. change (2 ^ ew binary32 - 1) with 255.
  destruct (Z.eqb_spec e 0) as [->|Hne]; [|destruct (Z.eqb_spec e 31) as [->|Hn31]].
  - rewrite Hsub by done. by destruct (s =? 1).
  - rewrite Hnan by done. by destruct (s =? 1).
  - rewrite (proj2 (Z.eqb_neq (e + 112) 0)), (proj2 (Z.eqb_neq (e + 112) 255)) by lia. cbn [same_float].
    rewrite eqb_reflx. change (f_emin binary32) with (-149). change (f_emin binary16) with (-24).
    rewrite (proj2 (Z.leb_le _ _)), (proj2 (Z.leb_le _ (e - 1 + -24))) by lia. cbn [andb].
    rewrite !Z2Pos.id by (cbn; lia). apply Z.eqb_eq. rewrite !Z.shiftl_mul_pow2 by lia.
    replace (e - 1 + -24 + 149) with (e + 111 + 13) by lia. rewrite (Z.pow_add_r 2 _ 13) by lia.
    replace (e + 112 - 1 + -149 + 149) with (e + 111) by lia. cbn [mw binary32 binary16]. lia.
Qed.
End Fields.

Lemma f16_pack b : is_u 16 b -> exists s, 0 <= s < 2 /\ 0 <= f16_exp b < 32 /\ 0 <= f16_mant b < 1024 /\
  b = pack binary16 s (f16_exp b) (f16_mant b).
Proof.
  intros [Hb0 Hb1]. change (2 ^ 16) with 65536 in Hb1. unfold f16_exp, f16_mant, pack.
  change 0x1F with (2 ^ 5 - 1). change 0x3FF with (2 ^ 10 - 1).
  rewrite !land_ones_mod, Z.shiftr_div_pow2 by lia. exists (b / 32768). cbn [mw ew binary16].
  change (2 ^ (10 + 5)) with 32768. change (2 ^ 10) with 1024. change (2 ^ 5) with 32. zdiv.
Qed.

(** The conversion is exact, whatever NaN it is given. *)
Lemma f16_exact nan b : is_u 16 b -> f16_subnormal b = false -> f16_nan b = false ->
  exists u, vm_f16_bits_to_f32 nan b = Some u /\ same_value u b = true /\ vm_f32_to_f16_bits u = b.
Proof.
  intros Hb Hs Hn. destruct (f16_pack b Hb) as (s & H1 & H2 & H3 & E).
  assert (Hsub : f16_exp b = 0 -> f16_mant b = 0).
  { intros Hz. unfold f16_subnormal in Hs. rewrite Hz in Hs. by apply negb_false_iff, Z.eqb_eq in Hs. }
  assert (Hnan : f16_exp b = 31 -> f16_mant b = 0).
  { intros Hz. unfold f16_nan in Hn. rewrite Hz in Hn. by apply negb_false_iff, Z.eqb_eq in Hn. }
  clear Hs Hn. set (e := f16_exp b) in *. set (m := f16_mant b) in *. clearbody e m. subst b.
  exists (pack binary32 s (f32_exp_of e) (m * 8192)).
  split_and!; [by apply f16_to_f32_fields | by apply same_value_fields | by apply f32_to_f16_fields].
Qed.

(** C37: For every zero, normal number and infinity, [vm_f16_bits_to_f32] gives the
    binary32 pattern of exactly the same value, and [vm_f32_to_f16_bits] of it
    gives the binary16 pattern back. *)
Theorem f16_roundtrip b :
  is_u 16 b -> f16_subnormal b = false -> f16_nan b = false ->
  exists u, vm_f16_bits_to_f32 (fun _ => 0x7FC00000) b = Some u /\
    same_value u b = true /\ vm_f32_to_f16_bits u = b.
Proof.
  intros Hb Hs Hn. destruct (f16_exact (fun _ => 0x7FC00000) b Hb Hs Hn) as (u & H). by exists u.
Qed.

(** 1.5 is 0x3E00. *)
Lemma f16_roundtrip_witness :
  exists u, vm_f16_bits_to_f32 (fun _ => 0x7FC00000) 0x3E00 = Some u /\
    same_value u 0x3E00 = true /\ vm_f32_to_f16_bits u = 0x3E00.
Proof. apply (f16_roundtrip 0x3E00); [done | reflexivity | reflexivity]. Defined.

(** A subnormal with an even exponent once normalised: the implicit bit is not
    masked out of the mantissa and is added to the exponent, so 2 * 2^-24 becomes
    4 * 2^-24. *)
Example f16_subnormal_doubled :
  exists u, vm_f16_bits_to_f32 (fun _ => 0) 2 = Some u /\
    decode binary32 u = convert binary32 (decode binary16 4) /\ same_value u 2 = false.
Proof. eexists. split; [vm_compute; reflexivity | vm_compute; done]. Qed.
