(* ===== verification/FloatExact.v ===== *)
(** * The value of a double

    A finite double is a multiple of 2^-1074; [scaled] is its value times 2^1074.  On
    canonical patterns the comparisons compare these integers, and rounding keeps a
    value that is representable. *)

From Stdlib Require Import SpecFloat.
From S2P Require Import Prelude CInt Bytecode Vm Float FloatThms.

#[local] Open Scope Z_scope.

Abbreviation unit_ := (2 ^ 1074).

Definition scaled (x : spec_float) : option Z :=
  match x with
  | S754_zero _ => Some 0
  | S754_finite s m e => let v := Z.pos m * 2 ^ (e + 1074) in Some (if s then - v else v)
  | _ => None
  end.

Abbreviation digits m := (Z.pos (digits2_pos m)).

Definition canonical (m : positive) (e : Z) : Prop := e = Z.max (digits m + e - 53) (-1074).
#[export] Instance spec_float_eq_dec : EqDecision spec_float.
Proof. solve_decision. Defined.

Definition good (x : spec_float) : Prop := match x with S754_finite _ m e => canonical m e | _ => True end.

Lemma digits_bounds m : 2 ^ (digits m - 1) <= Z.pos m < 2 ^ digits m.
Proof.
  induction m as [m IH|m IH|]; cbn [digits2_pos]; [| |done].
  all: rewrite Pos2Z.inj_succ; replace (Z.succ (digits m) - 1) with (Z.succ (digits m - 1)) by lia;
    rewrite !Z.pow_succ_r by lia; lia.
Qed.

Lemma digits_of m d : 2 ^ (d - 1) <= Z.pos m < 2 ^ d -> digits m = d.
Proof.
  intros [H1 H2]. pose proof (digits_bounds m) as [H3 H4].
  assert (d - 1 < digits m) by (apply (Z.pow_lt_mono_r_iff 2); lia).
  assert (digits m - 1 < d) by (apply (Z.pow_lt_mono_r_iff 2); [lia| |lia];
    destruct (Z.le_gt_cases 0 d); [done | rewrite (Z.pow_neg_r 2 d) in H2 by lia; lia]).
  lia.
Qed.

Lemma digits_le m d : 0 <= d -> Z.pos m < 2 ^ d -> digits m <= d.
Proof.
  intros Hd H. pose proof (digits_bounds m) as [H3 _].
  assert (digits m - 1 < d) by (apply (Z.pow_lt_mono_r_iff 2); lia). lia.
Qed.

Lemma canonical_range m e : canonical m e -> -1074 <= e /\ Z.pos m < 2 ^ 53 /\ (-1074 < e -> 2 ^ 52 <= Z.pos m).
Proof.
  unfold canonical. intros H. pose proof (digits_bounds m) as [H1 H2]. split; [lia|]. split.
  - eapply Z.lt_le_trans; [exact H2|]. apply Z.pow_le_mono_r; lia.
  - intros He. etransitivity; [|exact H1]. apply Z.pow_le_mono_r; lia.
Qed.

(** ** Comparison *)

Lemma canonical_lt m1 e1 m2 e2 : canonical m1 e1 -> canonical m2 e2 -> e1 < e2 ->
  Z.pos m1 * 2 ^ (e1 + 1074) < Z.pos m2 * 2 ^ (e2 + 1074).
Proof.
  intros H1 H2 He. destruct (canonical_range _ _ H1) as (A1 & B1 & _). destruct (canonical_range _ _ H2) as (A2 & _ & C2).
  set (P := 2 ^ (e1 + 1074)). set (K := 2 ^ (e2 - e1 - 1)).
  assert (E : 2 ^ (e2 + 1074) = K * 2 * P).
  { unfold K, P. change 2 with (2 ^ 1) at 3. rewrite <- !Z.pow_add_r by lia. f_equal. lia. }
  rewrite E. assert (0 < P) by (apply Z.pow_pos_nonneg; lia).
  assert (1 <= K) by (change 1 with (2 ^ 0); apply Z.pow_le_mono_r; lia).
  rewrite !Z.mul_assoc. apply Z.mul_lt_mono_pos_r; [done|]. specialize (C2 ltac:(lia)).
  change (2 ^ 53) with (2 ^ 52 * 2) in B1.
  assert (Z.pos m2 * 1 <= Z.pos m2 * K) by (apply Z.mul_le_mono_nonneg_l; lia). lia.
Qed.

Lemma compare_mul a b p : 0 < p -> (a * p ?= b * p) = (a ?= b).
Proof.
  intros Hp. destruct (Z.compare_spec a b) as [->|H|H].
  - by rewrite Z.compare_refl.
  - apply Z.compare_lt_iff. by apply Z.mul_lt_mono_pos_r.
  - apply Z.compare_gt_iff. by apply Z.mul_lt_mono_pos_r.
Qed.

Lemma compare_scaled x y zx zy : good x -> good y -> scaled x = Some zx -> scaled y = Some zy ->
  SFcompare x y = Some (zx ?= zy).
Proof.
  intros Hx Hy. destruct x as [|?| |s1 m1 e1], y as [|?| |s2 m2 e2]; try discriminate; cbn in Hx, Hy |- *;
    intros [= <-] [= <-]; try done.
  - assert (0 < 2 ^ (e2 + 1074)) by (apply Z.pow_pos_nonneg; destruct (canonical_range _ _ Hy); lia).
    f_equal. symmetry. destruct s2; [apply Z.compare_gt_iff | apply Z.compare_lt_iff]; lia.
  - assert (0 < 2 ^ (e1 + 1074)) by (apply Z.pow_pos_nonneg; destruct (canonical_range _ _ Hx); lia).
    f_equal. symmetry. destruct s1; [apply Z.compare_lt_iff | apply Z.compare_gt_iff]; lia.
  - assert (P1 : 0 < 2 ^ (e1 + 1074)) by (apply Z.pow_pos_nonneg; destruct (canonical_range _ _ Hx); lia).
    assert (P2 : 0 < 2 ^ (e2 + 1074)) by (apply Z.pow_pos_nonneg; destruct (canonical_range _ _ Hy); lia).
    f_equal. symmetry. change (Pos.compare_cont Eq m1 m2) with (Pos.compare m1 m2).
    destruct s1, s2; [|apply Z.compare_lt_iff; lia | apply Z.compare_gt_iff; lia|].
    + rewrite <- Z.compare_opp, !Z.opp_involutive.
      destruct (Z.compare_spec e1 e2) as [->|He|He].
      * rewrite <- Pos.compare_antisym. by apply compare_mul.
      * apply Z.compare_gt_iff. by apply canonical_lt.
      * apply Z.compare_lt_iff. by apply canonical_lt.
    + destruct (Z.compare_spec e1 e2) as [->|He|He].
      * by apply compare_mul.
      * apply Z.compare_lt_iff. by apply canonical_lt.
      * apply Z.compare_gt_iff. by apply canonical_lt.
Qed.

Lemma SFeqb_scaled x y zx zy : good x -> good y -> scaled x = Some zx -> scaled y = Some zy ->
  SFeqb x y = (zx =? zy).
Proof. intros. unfold SFeqb. rewrite (compare_scaled x y zx zy) by done. by rewrite Z.eqb_compare. Qed.

Lemma SFltb_scaled x y zx zy : good x -> good y -> scaled x = Some zx -> scaled y = Some zy ->
  SFltb x y = (zx <? zy).
Proof. intros. unfold SFltb. rewrite (compare_scaled x y zx zy) by done. by rewrite Z.ltb_compare. Qed.

(** Doubles that compare equal have the same value. *)
Lemma SFeqb_same x y : SFeqb x y = true -> scaled x = scaled y.
Proof.
  unfold SFeqb, SFcompare. destruct x as [s|[]| |[] m e], y as [t|[]| |[] n f]; try done; cbn [scaled].
  all: destruct (Z.compare_spec e f) as [->|?|?]; [|done..]; change (Pos.compare_cont Eq m n) with (Pos.compare m n);
    destruct (Pos.compare_spec m n) as [->|?|?]; done.
Qed.

(** ** Rounding keeps what is representable *)

Lemma shift_mantissa m d : Z.pos (Pos.iter xO m d) = Z.pos m * 2 ^ Z.pos d /\
  digits (Pos.iter xO m d) = digits m + Z.pos d.
Proof.
  induction d as [|d [IH1 IH2]] using Pos.peano_ind; [split; [cbn; lia | cbn [Pos.iter digits2_pos]; lia]|].
  rewrite Pos.iter_succ. rewrite Pos2Z.inj_xO, IH1. split.
  - rewrite Pos2Z.inj_succ, Z.pow_succ_r by lia. lia.
  - cbn [digits2_pos]. rewrite !Pos2Z.inj_succ. lia.
Qed.

Lemma binary_round_exact s m e : digits m <= 53 -> -1074 <= e -> digits m + e <= 1024 ->
  exists m' e', binary_round 53 1024 s m e = S754_finite s m' e' /\ canonical m' e' /\
    Z.pos m' * 2 ^ (e' + 1074) = Z.pos m * 2 ^ (e + 1074).
Proof.
  intros Hd He Hb. set (e' := Z.max (digits m + e - 53) (-1074)).
  assert (Hal : exists m', shl_align m e (fexp 53 1024 (digits m + e)) = (m', e') /\
            Z.pos m' * 2 ^ (e' + 1074) = Z.pos m * 2 ^ (e + 1074) /\ digits m' + e' = digits m + e).
  { unfold shl_align. change (fexp 53 1024 (digits m + e)) with e'.
    destruct (e' - e) as [|p|p] eqn:E; [|lia|].
    - exists m. by replace e with e' by lia.
    - destruct (shift_mantissa m p) as [H1 H2]. exists (Pos.iter xO m p).
      split; [done|]. rewrite H1, H2. split; [|lia].
      rewrite <- Z.mul_assoc, <- Z.pow_add_r by lia. do 2 f_equal. lia. }
  destruct Hal as (m' & Hal & Hv & Hdig). exists m', e'.
  assert (Hcan : canonical m' e') by (unfold canonical; lia). split; [|done].
  unfold binary_round. rewrite Hal. unfold binary_round_aux.
  assert (Hsh : shr_fexp 53 1024 (Z.pos m') e' loc_Exact = ({| shr_m := Z.pos m'; shr_r := false; shr_s := false |}, e')).
  { unfold shr_fexp. cbn [Zdigits2 shr_record_of_loc]. unfold shr.
    replace (fexp 53 1024 (digits m' + e') - e') with 0; [done|]. unfold fexp. change (emin 53 1024) with (-1074).
    unfold canonical in Hcan. lia. }
  rewrite Hsh. cbn [loc_of_shr_record shr_m round_nearest_even]. rewrite Hsh. cbn [shr_m].
  rewrite (proj2 (Z.leb_le _ _)) by lia. done.
Qed.

Lemma normalize_exact z e : Z.abs z < 2 ^ 53 -> -1074 <= e <= 971 ->
  good (binary_normalize 53 1024 z e false) /\
  scaled (binary_normalize 53 1024 z e false) = Some (z * 2 ^ (e + 1074)).
Proof.
  intros Hz He.
  assert (H : forall s p, Z.pos p < 2 ^ 53 -> good (binary_round 53 1024 s p e) /\
    scaled (binary_round 53 1024 s p e) = Some ((if s then Z.neg p else Z.pos p) * 2 ^ (e + 1074))).
  { intros s p Hp. pose proof (digits_le p 53 ltac:(lia) Hp).
    destruct (binary_round_exact s p e) as (m' & e' & -> & Hc & Hv); [lia..|].
    split; [done|]. cbn [scaled]. rewrite Hv. f_equal. destruct s; lia. }
  destruct z as [|p|p]; [done|apply (H false); lia|apply (H true); lia].
Qed.

(** ** Patterns and conversions *)

Lemma decode_good b : good (decode binary64 b).
Proof.
  pose proof (decode_mant binary64 b) as Hm. unfold good. destruct (decode binary64 b) as [| | |s m e] eqn:E; [done..|].
  specialize (Hm s m e ltac:(cbn; lia) eq_refl). change (mw binary64 + 1) with 53 in Hm.
  revert E. unfold decode, canonical. change (mw binary64) with 52. change (ew binary64) with 11.
  assert (Hl : 0 <= Z.land b (2 ^ 52 - 1) < 2 ^ 52) by (rewrite land_ones_mod by lia; apply Z.mod_pos_bound; lia).
  assert (He : 0 <= Z.land (Z.shiftr b 52) (2 ^ 11 - 1)) by (rewrite land_ones_mod by lia; apply Z.mod_pos_bound; lia).
  repeat case_if; bool_hyps; try done; intros [= <- <- <-].
  - assert (digits (Z.to_pos (Z.land b (2 ^ 52 - 1))) <= 52) by (apply digits_le; [lia | rewrite Z2Pos.id; lia]).
    change (f_emin binary64) with (-1074). lia.
  - rewrite (digits_of _ 53) by (rewrite Z2Pos.id by lia; change (2 ^ 53) with (2 ^ 52 + 2 ^ 52); lia).
    change (f_emin binary64) with (-1074). lia.
Qed.

(** A binary32 or binary16 pattern is converted without rounding. *)
Lemma convert_value fm b : fm = binary32 \/ fm = binary16 -> isfinite (decode fm b) = true ->
  good (convert binary64 (decode fm b)) /\
  scaled (convert binary64 (decode fm b)) = scaled (decode fm b).
Proof.
  intros Hfm. pose proof (decode_mant fm b) as Hm. destruct (decode fm b) as [| | |s m e] eqn:E; try done. intros _.
  assert (Hb : Z.pos m < 2 ^ 24 /\ -149 <= e <= 106).
  { specialize (Hm s m e ltac:(destruct Hfm as [-> | ->]; cbn; lia) eq_refl). revert E Hm. unfold decode.
    assert (0 <= Z.land (Z.shiftr b (mw fm)) (2 ^ ew fm - 1) < 2 ^ ew fm)
      by (rewrite land_ones_mod by (destruct Hfm as [-> | ->]; cbn; lia); apply Z.mod_pos_bound;
          destruct Hfm as [-> | ->]; cbn; lia).
    repeat case_if; bool_hyps; try done; intros [= <- <- <-] Hm; destruct Hfm as [-> | ->];
      unfold f_emin, f_emax, f_prec in *; cbn [mw ew binary32 binary16] in *; lia. }
  destruct Hb as [Hm' He].
  cbn [convert]. change (f_prec binary64) with 53. change (f_emax binary64) with 1024.
  assert (Hs : binary_normalize 53 1024 (if s then Z.neg m else Z.pos m) e s = binary_round 53 1024 s m e) by (by destruct s).
  rewrite Hs. pose proof (digits_le m 24 ltac:(lia) Hm').
  destruct (binary_round_exact s m e) as (m' & e' & -> & Hc & Hv); [lia..|]. split; [done|].
  cbn [scaled]. by rewrite Hv.
Qed.

(** ** Integers as doubles *)

Lemma shr_1_half r : 0 <= shr_m r -> shr_m (shr_1 r) = shr_m r / 2 /\ 0 <= shr_m (shr_1 r).
Proof.
  destruct r as [[|p|p] r s]; cbn [shr_m shr_1]; [done| |lia]. intros _. destruct p as [p|p|]; cbn [shr_m]; [| |done].
  - rewrite (Pos2Z.inj_xI p). zdiv.
  - rewrite (Pos2Z.inj_xO p). zdiv.
Qed.

Lemma shr_iter p r : 0 <= shr_m r ->
  shr_m (SpecFloat.iter_pos shr_1 p r) = shr_m r / 2 ^ Z.pos p /\ 0 <= shr_m (SpecFloat.iter_pos shr_1 p r).
Proof.
  revert r. induction p as [p IH|p IH|]; intros r Hr; cbn [SpecFloat.iter_pos].
  - destruct (shr_1_half r Hr) as [H1 H2]. destruct (IH _ H2) as [H3 H4]. destruct (IH _ H4) as [-> H6].
    split; [|done]. rewrite H3, H1, !Z.div_div by lia. f_equal.
    change 2 with (2 ^ 1) at 1. rewrite <- !Z.pow_add_r by lia. f_equal. lia.
  - destruct (IH _ Hr) as [H3 H4]. destruct (IH _ H4) as [-> H6].
    split; [|done]. rewrite H3, Z.div_div by lia. f_equal. rewrite <- Z.pow_add_r by lia. f_equal. lia.
  - by apply shr_1_half.
Qed.

(** Rounding a mantissa of more than 53 bits: a neighbour of the quotient. *)
Lemma binary_round_long s m n : digits m = 53 + Z.pos n -> Z.pos n <= 11 ->
  exists q m' e', (q = Z.pos m / 2 ^ Z.pos n \/ q = Z.pos m / 2 ^ Z.pos n + 1) /\
    binary_round 53 1024 s m 0 = S754_finite s m' e' /\ 0 <= e' /\ Z.pos m' * 2 ^ e' = q * 2 ^ Z.pos n.
Proof.
  intros Hd Hn. set (r := SpecFloat.iter_pos shr_1 n (Build_shr_record (Z.pos m) false false)).
  destruct (shr_iter n (Build_shr_record (Z.pos m) false false) ltac:(done)) as [Hr _].
  fold r in Hr. cbn [shr_m] in Hr. set (q := round_nearest_even (shr_m r) (loc_of_shr_record r)).
  assert (Hf : forall d x, 52 < d -> 0 <= x <= 100 -> fexp 53 1024 (d + x) = d + x - 53).
  { intros d x H1 H2. unfold fexp, emin. lia. }
  assert (E1 : shr_fexp 53 1024 (Z.pos m) 0 loc_Exact = (r, Z.pos n)).
  { unfold shr_fexp. cbn [Zdigits2 shr_record_of_loc]. rewrite Hd, Hf by lia.
    replace (53 + Z.pos n + 0 - 53 - 0) with (Z.pos n) by lia. cbn [shr]. done. }
  assert (Eb : binary_round 53 1024 s m 0 =
    let '(mrs, e'') := shr_fexp 53 1024 q (Z.pos n) loc_Exact in
    match shr_m mrs with
    | Z0 => S754_zero s
    | Z.pos m0 => if e'' <=? 1024 - 53 then S754_finite s m0 e'' else S754_infinity s
    | Z.neg _ => S754_nan
    end).
  { unfold binary_round. rewrite Hd, Hf by lia. replace (53 + Z.pos n + 0 - 53) with (Z.pos n) by lia.
    change (shl_align m 0 (Z.pos n)) with (m, 0). cbv beta iota. unfold binary_round_aux. by rewrite E1. }
  rewrite Eb. pose proof (digits_bounds m) as Hb. rewrite Hd in Hb.
  assert (P : 0 < 2 ^ Z.pos n) by (apply Z.pow_pos_nonneg; lia).
  assert (Hq0 : 2 ^ 52 <= Z.pos m / 2 ^ Z.pos n < 2 ^ 53).
  { replace (53 + Z.pos n - 1) with (52 + Z.pos n) in Hb by lia. rewrite !Z.pow_add_r in Hb by lia. split.
    - apply Z.div_le_lower_bound; lia.
    - apply Z.div_lt_upper_bound; lia. }
  assert (Hq : q = Z.pos m / 2 ^ Z.pos n \/ q = Z.pos m / 2 ^ Z.pos n + 1).
  { unfold q. rewrite Hr. destruct (loc_of_shr_record r) as [|[]]; cbn [round_nearest_even]; auto. case_if; auto. }
  exists q. assert (Hpos : 2 ^ 52 <= q <= 2 ^ 53) by lia. clearbody q. destruct q as [|p|p]; [lia| |lia].
  unfold shr_fexp. cbn [Zdigits2 shr_record_of_loc]. destruct (decide (p = 2 ^ 53)%positive) as [->|E].
  - rewrite (digits_of _ 54) by done. rewrite Hf by lia. replace (54 + Z.pos n - 53 - Z.pos n) with 1 by lia.
    exists (2 ^ 52)%positive, (Z.pos n + 1). split; [done|]. cbn [shr SpecFloat.iter_pos].
    change (shr_m (shr_1 _)) with (Z.pos (2 ^ 52)). rewrite (proj2 (Z.leb_le _ _)) by lia.
    split; [done|]. split; [lia|]. rewrite Z.pow_add_r by lia.
    change (Z.pos (2 ^ 52)) with (2 ^ 52). change (Z.pos (2 ^ 53)) with (2 ^ 52 * 2). lia.
  - assert (Z.pos p <> 2 ^ 53) by (intros E'; apply E; by injection E').
    rewrite (digits_of p 53) by (change (53 - 1) with 52; lia). rewrite Hf by lia.
    replace (53 + Z.pos n - 53 - Z.pos n) with 0 by lia.
    cbn [shr shr_m]. exists p, (Z.pos n). split; [done|]. rewrite (proj2 (Z.leb_le _ _)) by lia.
    split; [done|]. split; [lia | done].
Qed.

(** An integer of 64 bits becomes a double of an integral value. *)
Lemma of_int_value z : Z.abs z <= 2 ^ 63 ->
  exists w, scaled (of_int binary64 z) = Some (w * unit_) /\ Z.abs w <= 2 ^ 63.
Proof.
  intros Hz. unfold of_int. change (f_prec binary64) with 53. change (f_emax binary64) with 1024.
  destruct (decide (Z.abs z < 2 ^ 53)) as [Hs|Hl].
  { exists z. split; [by apply (normalize_exact z 0) | done]. }
  destruct (decide (Z.abs z = 2 ^ 63)) as [He|He].
  { exists z. split; [|done]. assert (z = 2 ^ 63 \/ z = - 2 ^ 63) as [-> | ->] by lia; by vm_compute. }
  assert (H : forall s p, 2 ^ 53 <= Z.pos p < 2 ^ 63 ->
    exists w, scaled (binary_round 53 1024 s p 0) = Some (w * unit_) /\ Z.abs w <= 2 ^ 63).
  { intros s p Hp. pose proof (digits_bounds p) as Hb.
    assert (53 < digits p) by (apply (Z.pow_lt_mono_r_iff 2); lia).
    pose proof (digits_le p 63 ltac:(lia) ltac:(lia)).
    destruct (digits p - 53) as [|n|n] eqn:En; [lia| |lia].
    destruct (binary_round_long s p n) as (q & m' & e' & Hq & -> & He' & Hv); [lia..|].
    cbn [scaled]. rewrite Z.pow_add_r, Z.mul_assoc, Hv by lia.
    assert (P : 0 < 2 ^ Z.pos n) by (apply Z.pow_pos_nonneg; lia).
    assert (Hd : 2 ^ 63 = 2 ^ (63 - Z.pos n) * 2 ^ Z.pos n) by (rewrite <- Z.pow_add_r by lia; f_equal; lia).
    assert (0 <= Z.pos p / 2 ^ Z.pos n < 2 ^ (63 - Z.pos n)).
    { split; [apply Z.div_pos; lia|]. apply Z.div_lt_upper_bound; lia. }
    assert (0 <= q * 2 ^ Z.pos n <= 2 ^ 63) by nia.
    exists (if s then - (q * 2 ^ Z.pos n) else q * 2 ^ Z.pos n). split; [f_equal; destruct s; lia|].
    destruct s; lia. }
  destruct z as [|p|p]; [lia | apply (H false); lia | apply (H true); lia].
Qed.

(** ** Truncation *)

Lemma unit_split e : -1074 <= e < 0 -> unit_ = 2 ^ (e + 1074) * 2 ^ (- e).
Proof. intros. rewrite <- Z.pow_add_r by lia. f_equal. lia. Qed.

Lemma trunc_scaled x w : good x -> scaled x = Some (w * unit_) -> trunc_sf x = Some w.
Proof.
  destruct x as [s| | |s m e]; try discriminate; cbn [good scaled trunc_sf].
  { intros _ [= H]. f_equal. destruct w; [done | vm_compute in H; discriminate..]. }
  intros Hc. destruct (canonical_range _ _ Hc) as (He & _ & _). intros [= H]. f_equal.
  assert (0 < 2 ^ (e + 1074)) by (apply Z.pow_pos_nonneg; lia).
  assert (Hu : 0 < unit_) by (apply Z.pow_pos_nonneg; lia). set (u := unit_) in *.
  destruct (Z.leb_spec 0 e).
  - rewrite Z.pow_add_r, Z.mul_assoc in H by lia. fold u in H. apply (Z.mul_reg_r _ _ u); destruct s; lia.
  - replace u with (2 ^ (e + 1074) * 2 ^ (- e)) in H by (symmetry; apply unit_split; lia). set (k := 2 ^ (e + 1074)) in *. set (d := 2 ^ (- e)) in *.
    assert (0 < d) by (apply Z.pow_pos_nonneg; lia).
    assert (Hm : Z.pos m = (if s then - w else w) * d) by (apply (Z.mul_reg_r _ _ k); destruct s; lia).
    rewrite Hm, Z.div_mul by lia. destruct s; lia.
Qed.
