(* ===== verification/Gc.v ===== *)
(** * The mark-and-sweep collector

    Model of src/src/gc.c.  The marking loop takes fuel ([None] is a loop that has
    not ended, or a pointer to no object); a failing [malloc] aborts and is not
    modelled. *)

From S2P Require Import Prelude CInt Memory Bytecode Value Object Heap Vm Frame.

Definition GC_BOX_FREE_MAX : Z := 8192.

Definition gc_is_numbox_kind (k : jello_obj_kind) : bool :=
  match k with
  | JELLO_OBJ_BOX_I64 | JELLO_OBJ_BOX_F64 | JELLO_OBJ_BOX_F32 | JELLO_OBJ_BOX_F16 => true
  | _ => false
  end.

Definition gc_is_recyclable_object (o : hobj) : bool :=
  match o with HObject o => o_inline o | _ => false end.

(** ** Temporary roots *)

Definition jello_gc_push_root (v : Z) : M () :=
  g ← get_gc; put_gc (set_roots (gc_roots g ++ [v]) g).

Definition jello_gc_pop_roots (n : Z) : M () :=
  g ← get_gc;
  _ ← panic_if (zlen (gc_roots g) <? n);
  put_gc (set_roots (take (Z.to_nat (zlen (gc_roots g) - n)) (gc_roots g)) g).

(** ** Marking *)

Definition set_marked (b : bool) (c : cell) : cell := mk_cell (c_size c) b (c_obj c).

Definition mark_state : Type := gmap Z cell * list Z.   (* memory, mark stack (top first) *)

Definition mark_ptr (p : Z) (st : mark_state) : option mark_state :=
  if p =? 0 then Some st else
  c ← fst st !! p;
  if c_marked c then Some st else Some (<[p := set_marked true c]> (fst st), p :: snd st).

Fixpoint mark_all (ps : list Z) (st : mark_state) : option mark_state :=
  match ps with
  | [] => Some st
  | p :: ps' => st' ← mark_ptr p st; mark_all ps' st'
  end.

(** [for(;;) { p = ms_pop(&ms); if(!p) break; trace_object(&ms, p); }]. *)
Fixpoint mark_loop (fuel : nat) (st : mark_state) : option (gmap Z cell) :=
  match fuel with
  | O => None
  | S fuel' =>
      match snd st with
      | [] => Some (fst st)
      | p :: stack =>
          c ← fst st !! p;
          st' ← mark_all (children (c_obj c)) (fst st, stack);
          mark_loop fuel' st'
      end
  end.

(** ** Roots *)

Section Roots.
Context (m : jello_bc_module).

(** What the typed registers of a frame hold, in register order. *)
Fixpoint scan_frame_regs (mem : list Z) (f : jello_bc_function) (rf : reg_frame) (r : Z) (n : nat)
  : option (list Z) :=
  match n with
  | O => Some []
  | S n' =>
    k ← vm_reg_kind m f r;
    ps ← (if is_pointer_or_dynamic k
      then a ← vm_reg_ptr rf r; v ← mem_load 8 mem a;
      Some (if bool_decide (k = JELLO_T_DYNAMIC) then val_ptrs [v] else nonnull v)
      else Some []);
    rest ← scan_frame_regs mem f rf (r + 1) n';
    Some (ps ++ rest)
  end.

Definition scan_frame (mem : list Z) (fr : call_frame) : option (list Z) :=
  f ← m_funcs m @! (cf_f fr);
  scan_frame_regs mem f (cf_rf fr) 0 (Z.to_nat (rf_nregs (cf_rf fr))).

Fixpoint scan_typed_frames (mem : list Z) (frames : list call_frame) : option (list Z) :=
  match frames with
  | [] => Some []
  | fr :: frs => ps ← scan_frame mem fr; rest ← scan_typed_frames mem frs; Some (ps ++ rest)
  end.

Definition enum_cache_ptrs (t : option (list Z)) : list Z :=
  match t with Some slots => slots ≫= nonnull | None => [] end.

(** The roots in the order of [jello_gc_collect]. *)
Definition gc_root_ptrs (vm : jello_vm) : option (list Z) :=
  let g := v_gc vm in
  fs ← (if running_module vm =? 0 then Some []
    else scan_typed_frames (frame_stack (v_stack vm)) (call_frames (v_stack vm)));
  Some (val_ptrs (spill vm) ++ val_ptrs (gc_roots g) ++ (const_fun_cache g ≫= nonnull) ++
    (const_bytes_cache g ≫= nonnull) ++ (enum_nullary_by_type g ≫= enum_cache_ptrs) ++ fs).
End Roots.

(** ** Sweeping *)

Record sweep_state : Set := mk_sweep {
  s_cells : gmap Z cell;
  s_free : list (Z * cell);
  s_freed : Z;
  s_live : Z;
  s_finalized : list (Z * Z)
}.

(** [destroy_object]: what leaves a trace is the finalizer of an abstract. *)
Definition destroy_object (o : hobj) (fin : list (Z * Z)) : list (Z * Z) :=
  match o with
  | HAbstract _ payload finalizer => if finalizer =? 0 then fin else (finalizer, payload) :: fin
  | _ => fin
  end.

Definition gc_box_free_push (h : Z) (c : cell) (free : list (Z * cell)) : list (Z * cell) :=
  if GC_BOX_FREE_MAX <=? zlen free then free else (h, set_marked false c) :: free.

(** Clearing an object for the recycle list. *)
Definition drop_fields (o : hobj) : hobj :=
  match o with
  | HObject o =>
      HObject (mk_object (o_type_id o) 0 0 (o_cap o) (o_inline o) (o_keys o) (o_vals o)
        (replicate (Z.to_nat (o_cap o)) EMPTY) (ic_atom o) (ic_slot o) (ic_cap o)
        (ic_poly_atom o) (ic_poly_slot o))
  | _ => o
  end.

Definition sweep_dead (h : Z) (c : cell) (s : sweep_state) : sweep_state :=
  let mem := delete h (s_cells s) in
  if gc_is_numbox_kind (obj_kind (c_obj c)) || gc_is_recyclable_object (c_obj c) then
    mk_sweep mem (gc_box_free_push h (mk_cell (c_size c) (c_marked c) (drop_fields (c_obj c)))
                    (s_free s)) (s_freed s + 1) (s_live s) (s_finalized s)
  else mk_sweep mem (s_free s) (s_freed s + 1) (s_live s) (destroy_object (c_obj c) (s_finalized s)).

Definition sweep_live (h : Z) (c : cell) (s : sweep_state) : sweep_state :=
  mk_sweep (<[h := set_marked false c]> (s_cells s)) (s_free s) (s_freed s) (s_live s + c_size c)
    (s_finalized s).

Fixpoint sweep (objs : list Z) (s : sweep_state) : option (list Z * sweep_state) :=
  match objs with
  | [] => Some ([], s)
  | h :: next =>
      c ← s_cells s !! h;
      if c_marked c then
        '(kept, s') ← sweep next (sweep_live h c s); Some (h :: kept, s')
      else sweep next (sweep_dead h c s)
  end.

(** The next threshold: about twice the live bytes. *)
Definition next_threshold (live : Z) : Z :=
  let grown := if live <? 256 * 1024 then 512 * 1024 else u64 (live * 2) in
  let with_pool := u64 (live + GC_BOX_FREE_MAX * 192) in
  if with_pool <? grown then grown else with_pool.

Definition gc_collect_from (roots : list Z) (g : gc_state) : option gc_state :=
  st ← mark_all roots (cells g, []);
  marked ← mark_loop (S (size (cells g))) st;
  '(kept, s) ← sweep (gc_objects g)
     (mk_sweep marked (gc_box_free g) (gc_freed_objects g) 0 (finalized g));
  Some (mk_gc (s_cells s) kept (s_free s) (s_live s) (next_threshold (s_live s))
     (gc_collections g + 1) (s_freed s) (gc_freelist_hits g) (gc_freelist_misses g)
     (gc_roots g) (const_fun_cache g) (const_bytes_cache g) (enum_nullary_by_type g)
     (s_finalized s)).

Definition jello_gc_collect (m : jello_bc_module) : M () := fun vm =>
  match (roots ← gc_root_ptrs m vm; gc_collect_from roots (v_gc vm)) with
  | Some g => Ret () (set_gc g vm)
  | None => Crash
  end.

(** ** Allocation *)

(** The first block of the recycle list of exactly this size. *)
Fixpoint gc_box_free_pop (total : Z) (free : list (Z * cell))
    : option (Z * cell * list (Z * cell)) :=
  match free with
  | [] => None
  | (h, c) :: free' =>
      if c_size c =? total then Some (h, c, free')
      else '(h', c', rest) ← gc_box_free_pop total free'; Some (h', c', (h, c) :: rest)
  end.

Section Alloc.
Context (malloc : gc_state -> Z -> option Z) (m : jello_bc_module).

(** The block the recycle list or [malloc] gives ([None]: NULL, the process is
    aborted), linked in front of gc_objects;
    [init] is the object its constructor writes there, given what the recycled
    block held. *)
Definition gc_take_block (total : Z) (init : option hobj -> hobj) (g : gc_state)
  : option (Z * gc_state) :=
  match gc_box_free_pop total (gc_box_free g) with
  | Some (h, c, free) =>
    Some (h, mk_gc (<[h := mk_cell total false (init (Some (c_obj c)))]> (cells g)) (h :: gc_objects g)
        free (u64 (gc_bytes_live g + total)) (gc_next_collect g) (gc_collections g)
        (gc_freed_objects g) (gc_freelist_hits g + 1) (gc_freelist_misses g) (gc_roots g)
        (const_fun_cache g) (const_bytes_cache g) (enum_nullary_by_type g) (finalized g))
  | None =>
    h ← malloc g total;
    Some (h, mk_gc (<[h := mk_cell total false (init None)]> (cells g)) (h :: gc_objects g)
        (gc_box_free g) (u64 (gc_bytes_live g + total)) (gc_next_collect g) (gc_collections g)
        (gc_freed_objects g) (gc_freelist_hits g) (gc_freelist_misses g + 1) (gc_roots g)
        (const_fun_cache g) (const_bytes_cache g) (enum_nullary_by_type g) (finalized g))
  end.

Definition jello_gc_alloc_recycled (sz : Z) (init : option hobj -> hobj) : M Z :=
  let total := sizeof_gc_hdr + sz in
  g ← get_gc;
  _ ← (if negb (gc_next_collect g =? 0) && (gc_next_collect g <=? gc_bytes_live g)
    then jello_gc_collect m else mret ());
  g ← get_gc;
  match gc_take_block total init g with
  | Some (h, g') => _ ← put_gc g'; mret h
  | None => panic
  end.

Definition jello_gc_alloc (sz : Z) (o : hobj) : M Z := jello_gc_alloc_recycled sz (fun _ => o).
End Alloc.

(** [jello_gc_init]: the first threshold. *)
Definition jello_gc_init : M () :=
  g ← get_gc;
  if gc_next_collect g =? 0 then
    put_gc (mk_gc (cells g) (gc_objects g) (gc_box_free g) (gc_bytes_live g) (1024 * 1024)
      (gc_collections g) (gc_freed_objects g) (gc_freelist_hits g) (gc_freelist_misses g)
      (gc_roots g) (const_fun_cache g) (const_bytes_cache g) (enum_nullary_by_type g) (finalized g))
  else mret ().

(** The finalizers [jello_gc_shutdown] runs: every object still on the heap. *)
Fixpoint destroy_all (cs : gmap Z cell) (objs : list Z) (fin : list (Z * Z))
    : option (list (Z * Z)) :=
  match objs with
  | [] => Some fin
  | h :: next => c ← cs !! h; destroy_all cs next (destroy_object (c_obj c) fin)
  end.

(** The frame cache and the frame stack are freed with the heap. *)
Definition jello_gc_shutdown : M () :=
  g ← get_gc;
  fin ← must (destroy_all (cells g) (gc_objects g) (finalized g));
  s ← get_stack;
  _ ← put_stack (mk_stack (call_frames s) (call_frames_cap s) (call_frames_max s) [] 0 [] 0);
  _ ← (fun vm => Ret () (set_spill [] vm));
  put_gc (mk_gc ∅ [] [] 0 (gc_next_collect g) (gc_collections g) (gc_freed_objects g)
    (gc_freelist_hits g) (gc_freelist_misses g) [] (const_fun_cache g) (const_bytes_cache g)
    (enum_nullary_by_type g) fin).
