(* ===== verification/GcFacts.v ===== *)
(** * Lemmas on the collector

    Marking reaches exactly the objects reachable from the roots within its fuel;
    sweeping keeps exactly the marked ones. *)

From S2P Require Import Prelude CInt Memory Bytecode Value Object Heap Vm Frame Gc.

(** ** Reachability *)

(** What an object refers to, whatever the order in which the collector looks: a
    value refers to an object when it is a pointer and not NULL. *)
Definition holds (v p : Z) : Prop := v = p /\ jello_is_ptr v = true /\ v <> 0.

Inductive refers : hobj -> Z -> Prop :=
| ref_head t head tail p : holds head p -> refers (HList t head tail) p
| ref_tail t head tail : tail <> 0 -> refers (HList t head tail) tail
| ref_element t data v p : v ∈ data -> holds v p -> refers (HArray t data) p
| ref_field t tag fields v p : v ∈ fields -> holds v p -> refers (HEnum t tag fields) p
| ref_proto o : o_proto o <> 0 -> refers (HObject o) (o_proto o)
| ref_property o i p :
    0 <= i < o_cap o -> state_at o i = OCCUPIED -> holds (val_at o i) p -> refers (HObject o) p
| ref_this t fi this caps p : holds this p -> refers (HFunction t fi this caps) p
| ref_capture t fi this caps v p : v ∈ caps -> holds v p -> refers (HFunction t fi this caps) p
| ref_this_raw t fi this n raw p : holds this p -> refers (HFunctionRaw t fi this n raw) p.

Lemma elem_of_val_ptrs l p : p ∈ val_ptrs l <-> exists v, v ∈ l /\ holds v p.
Proof.
  unfold val_ptrs. rewrite list_elem_of_omap. split; intros (v & Hv & H); exists v; split; try done.
  - unfold ptr_of in H. destruct (jello_is_ptr v) eqn:E, (Z.eqb_spec v 0); try discriminate H.
    injection H as <-. done.
  - destruct H as (<- & Hp & Hz). unfold ptr_of. by rewrite Hp, (proj2 (Z.eqb_neq _ _) Hz).
Qed.

Lemma elem_of_nonnull p q : q ∈ nonnull p <-> p <> 0 /\ q = p.
Proof. unfold nonnull. destruct (Z.eqb_spec p 0); set_solver. Qed.

Lemma elem_of_occupied_vals o v :
  v ∈ occupied_vals o <-> exists i, 0 <= i < o_cap o /\ state_at o i = OCCUPIED /\ val_at o i = v.
Proof.
  unfold occupied_vals. rewrite list_elem_of_omap. setoid_rewrite elem_of_seqZ.
  split; intros (i & Hi & H); exists i; (split; [lia|]).
  - case_bool_decide; [|discriminate H]. by injection H as <-.
  - destruct H as [Hs <-]. by rewrite bool_decide_eq_true_2.
Qed.

(** [trace_object] visits what the object refers to, and nothing else. *)
Lemma elem_of_children o q : q ∈ children o <-> refers o q.
Proof.
  split.
  - destruct o; cbn [children]; repeat setoid_rewrite elem_of_app; repeat setoid_rewrite elem_of_val_ptrs;
      repeat setoid_rewrite elem_of_nonnull; repeat setoid_rewrite elem_of_occupied_vals;
      repeat setoid_rewrite list_elem_of_singleton; rewrite ?elem_of_nil; naive_solver (eauto using refers).
  - destruct 1; cbn [children]; repeat setoid_rewrite elem_of_app; repeat setoid_rewrite elem_of_val_ptrs;
      repeat setoid_rewrite elem_of_nonnull; repeat setoid_rewrite elem_of_occupied_vals;
      repeat setoid_rewrite list_elem_of_singleton; naive_solver.
Qed.

Inductive reachable (cs : gmap Z cell) (roots : list Z) : Z -> Prop :=
| reach_root p : p ∈ roots -> reachable cs roots p
| reach_child p c q :
    reachable cs roots p -> cs !! p = Some c -> refers (c_obj c) q -> reachable cs roots q.

(** No reachable pointer dangles (and none is NULL). *)
Definition no_dangling (cs : gmap Z cell) (roots : list Z) : Prop :=
  forall p, reachable cs roots p -> p <> 0 /\ is_Some (cs !! p).

(** An address [malloc] may return. *)
Definition addr_ok (p : Z) : Prop := 0 < p < 2 ^ 64 /\ p mod 8 = 0.

(** Between collections: the object list and the memory agree, nothing is marked,
    and the recycle list holds other blocks, at most [GC_BOX_FREE_MAX]. *)
Record heap_ok (g : gc_state) : Prop := {
  ho_nodup : NoDup (gc_objects g);
  ho_dom : forall p, p ∈ gc_objects g <-> is_Some (cells g !! p);
  ho_clear : forall p c, cells g !! p = Some c -> c_marked c = false;
  ho_addr : forall p, is_Some (cells g !! p) \/ p ∈ (gc_box_free g).*1 -> addr_ok p;
  ho_free_nodup : NoDup (gc_box_free g).*1;
  ho_free_dom : forall p, p ∈ (gc_box_free g).*1 -> cells g !! p = None;
  ho_free_max : zlen (gc_box_free g) <= GC_BOX_FREE_MAX
}.

(** ** Marking *)

(** The memories differ in mark bits only. *)
Definition same_objs (cs cs' : gmap Z cell) : Prop :=
  forall p, set_marked false <$> cs' !! p = set_marked false <$> cs !! p.

Definition is_marked (cs : gmap Z cell) (p : Z) : Prop :=
  exists c, cs !! p = Some c /\ c_marked c = true.

Definition unmarked (cs : gmap Z cell) : nat :=
  size (filter (fun kv : Z * cell => c_marked kv.2 = false) cs).

Section mark.
Implicit Types cs : gmap Z cell.

Lemma same_objs_refl cs : same_objs cs cs.
Proof. done. Qed.

Lemma same_objs_trans cs1 cs2 cs3 : same_objs cs1 cs2 -> same_objs cs2 cs3 -> same_objs cs1 cs3.
Proof. intros H1 H2 p. by rewrite H2, H1. Qed.

Lemma same_objs_lookup cs cs' p c' :
  same_objs cs cs' -> cs' !! p = Some c' ->
  exists c, cs !! p = Some c /\ c_obj c' = c_obj c /\ c_size c' = c_size c.
Proof.
  intros H E. specialize (H p). rewrite E in H. destruct (cs !! p) as [c|]; [|done].
  cbn in H. exists c. unfold set_marked in H. by simplify_eq.
Qed.

Lemma same_objs_is_Some cs cs' p : same_objs cs cs' -> is_Some (cs' !! p) <-> is_Some (cs !! p).
Proof. intros H. by rewrite <- (fmap_is_Some (set_marked false)), H, fmap_is_Some. Qed.

Lemma same_objs_sym cs cs' : same_objs cs cs' -> same_objs cs' cs.
Proof. intros H p. by rewrite H. Qed.

Lemma unmarked_insert cs p c :
  cs !! p = Some c -> c_marked c = false ->
  unmarked cs = S (unmarked (<[p := set_marked true c]> cs)).
Proof.
  intros E Hc. unfold unmarked. rewrite map_filter_insert_False by done.
  rewrite map_filter_delete.
  assert (Hf : filter (fun kv : Z * cell => c_marked kv.2 = false) cs !! p = Some c)
    by (apply map_lookup_filter_Some; done).
  rewrite map_size_delete_Some by done.
  assert (size (filter (fun kv : Z * cell => c_marked kv.2 = false) cs) <> 0%nat); [|lia].
  apply map_size_ne_0_lookup. by exists p, c.
Qed.

Lemma same_objs_mark cs p c : cs !! p = Some c -> same_objs cs (<[p := set_marked true c]> cs).
Proof.
  intros E q. destruct (decide (p = q)) as [<-|Hn].
  - by rewrite lookup_insert_eq, E.
  - by rewrite lookup_insert_ne.
Qed.

Lemma is_marked_mark cs p c q :
  is_marked (<[p := set_marked true c]> cs) q <-> q = p \/ is_marked cs q.
Proof.
  unfold is_marked. destruct (decide (p = q)) as [<-|Hn].
  - rewrite lookup_insert_eq. split; [by left|]. intros _. by eexists.
  - rewrite lookup_insert_ne by done. split; [by right | intros [->|?]; done].
Qed.

(** What a batch of [mark_ptr] calls does. *)
Lemma mark_all_spec ps cs stack :
  (forall p, p ∈ ps -> p <> 0 /\ is_Some (cs !! p)) ->
  exists cs' new, mark_all ps (cs, stack) = Some (cs', new ++ stack) /\
  same_objs cs cs' /\
  (forall p, is_marked cs' p <-> is_marked cs p \/ p ∈ new) /\
  (forall p, is_marked cs p \/ p ∈ ps <-> is_marked cs p \/ p ∈ new) /\
  (unmarked cs' + length new = unmarked cs)%nat.
Proof.
  revert cs stack. induction ps as [|p ps IH]; intros cs stack Hps; cbn [mark_all].
  - exists cs, []. split_and!; [done | apply same_objs_refl | set_solver | set_solver | cbn; lia].
  - destruct (Hps p) as [Hp0 [c Hc]]; [set_solver|].
    unfold mark_ptr. cbn [fst snd]. rewrite (proj2 (Z.eqb_neq p 0) Hp0), Hc. cbn.
    destruct (c_marked c) eqn:Hm; cbn [mbind option_bind].
    + destruct (IH cs stack) as (cs' & new & E & H1 & H2 & H3 & H4); [set_solver|].
      exists cs', new. split_and!; [done | done | done | | done].
      intros q. rewrite <- H3, elem_of_cons. split; [|naive_solver].
      intros [?|[->|?]]; [by left | left; by exists c | by right].
    + destruct (IH (<[p := set_marked true c]> cs) (p :: stack))
        as (cs' & new & E & H1 & H2 & H3 & H4).
      { intros q Hq. rewrite (same_objs_is_Some cs) by by apply same_objs_mark.
        apply Hps. set_solver. }
      exists cs', (new ++ [p]). rewrite <- app_assoc. split_and!; [done | | | |].
      * eapply same_objs_trans; [by apply same_objs_mark | done].
      * intros q. rewrite H2, is_marked_mark, elem_of_app, list_elem_of_singleton. tauto.
      * intros q. specialize (H3 q). rewrite is_marked_mark in H3.
        rewrite elem_of_app, list_elem_of_singleton, elem_of_cons. tauto.
      * rewrite length_app, (unmarked_insert _ _ _ Hc Hm). cbn. lia.
Qed.

(** The invariant of the marking loop. *)
Record mark_inv (cs0 : gmap Z cell) (roots : list Z) (cs : gmap Z cell) (stack : list Z) : Prop := {
  mi_same : same_objs cs0 cs;
  mi_sound : forall p, is_marked cs p -> reachable cs0 roots p;
  mi_roots : forall p, p ∈ roots -> is_marked cs p;
  mi_stack : forall p, p ∈ stack -> is_marked cs p;
  mi_closed : forall p c q, is_marked cs p -> p ∉ stack -> cs0 !! p = Some c ->
  q ∈ children (c_obj c) -> is_marked cs q
}.

Lemma mark_loop_spec fuel cs0 roots cs stack :
  no_dangling cs0 roots -> mark_inv cs0 roots cs stack ->
  (unmarked cs + length stack < fuel)%nat ->
  exists cs', mark_loop fuel (cs, stack) = Some cs' /\ same_objs cs0 cs' /\
  forall p, is_marked cs' p <-> reachable cs0 roots p.
Proof.
  intros Hnd. revert cs stack. induction fuel as [|fuel IH]; intros cs stack HI Hf; [lia|].
  destruct HI as [Hs Hsound Hroots Hstack Hcl]. cbn [mark_loop fst snd].
  destruct stack as [|p stack].
  - exists cs. split_and!; [done | done|]. intros p. split; [apply Hsound|].
    induction 1 as [p Hp | p c q _ IHp Hc Hq%elem_of_children]; [auto|].
    eapply Hcl; [exact IHp | set_solver | done..].
  - destruct (Hstack p) as (c & Hc & Hm); [set_solver|].
    destruct (same_objs_lookup _ _ _ _ Hs Hc) as (c0 & Hc0 & Ho & _).
    assert (Hrp : reachable cs0 roots p) by (apply Hsound; by exists c).
    rewrite Hc. cbn [mbind option_bind]. rewrite Ho.
    destruct (mark_all_spec (children (c_obj c0)) cs stack) as (cs' & new & E & H1 & H2 & H3 & H4).
    { intros q Hq. rewrite (same_objs_is_Some _ _ _ Hs). apply Hnd. eapply reach_child; [done..|]. by apply elem_of_children. }
    rewrite E. cbn. apply IH.
    + assert (Hmk : forall q, is_marked cs' q <-> is_marked cs q \/ q ∈ children (c_obj c0))
        by (intros q; by rewrite H3, H2).
      constructor.
      * by eapply same_objs_trans.
      * intros q [Hq|Hq]%Hmk; [auto|]. eapply reach_child; [done..|]. by apply elem_of_children.
      * intros q Hq. apply Hmk. auto.
      * intros q [Hq|Hq]%elem_of_app; [apply H2; auto|]. apply Hmk. left. apply Hstack. set_solver.
      * intros q d r Hq Hns Hd Hr. apply Hmk.
        destruct (decide (q = p)) as [->|Hne]; [right; by simplify_eq|]. left.
        rewrite not_elem_of_app in Hns. destruct Hns as [Hn1 Hn2].
        apply H2 in Hq as [Hq|Hq]; [|done]. eapply Hcl; [exact Hq | set_solver | done..].
    + rewrite length_app. cbn in Hf. lia.
Qed.

Lemma unmarked_le cs : (unmarked cs <= size cs)%nat.
Proof. unfold unmarked. apply map_size_filter. Qed.
End mark.

(** Marking as a whole: from a heap with no marks, all and only reachable objects
    are marked, within the fuel [jello_gc_collect] is given. *)
Lemma mark_spec cs roots :
  no_dangling cs roots -> (forall p c, cs !! p = Some c -> c_marked c = false) ->
  exists st marked, mark_all roots (cs, []) = Some st /\
    mark_loop (S (size cs)) st = Some marked /\ same_objs cs marked /\
    forall p, is_marked marked p <-> reachable cs roots p.
Proof.
  intros Hnd Hclear.
  destruct (mark_all_spec roots cs []) as (cs' & new & E & H1 & H2 & H3 & H4).
  { intros p Hp. apply Hnd. by constructor. }
  assert (Hno : forall p, ~ is_marked cs p) by (intros p (c & Hc & Hm); by rewrite (Hclear _ _ Hc) in Hm).
  exists (cs', new ++ []).
  assert (HI : mark_inv cs roots cs' (new ++ [])).
  { rewrite app_nil_r. constructor.
    - done.
    - intros p [?|Hp]%H2; [by exfalso; eapply Hno|].
      constructor. destruct (proj2 (H3 p) (or_intror Hp)) as [?|?]; [by exfalso; eapply Hno | done].
    - intros p Hp. apply H2, H3. by right.
    - intros p Hp. apply H2. by right.
    - intros p c q Hp Hn. apply H2 in Hp as [?|?]; [by exfalso; eapply Hno | done]. }
  destruct (mark_loop_spec (S (size cs)) _ _ _ _ Hnd HI) as (marked & Em & Hs & Hr).
  { rewrite app_nil_r. pose proof (unmarked_le cs). lia. }
  exists marked. done.
Qed.

(** ** Sweeping *)

Definition marked_b (cs : gmap Z cell) (p : Z) : bool :=
  match cs !! p with Some c => c_marked c | None => false end.

Lemma marked_b_spec cs p : marked_b cs p = true <-> is_marked cs p.
Proof.
  unfold marked_b, is_marked. destruct (cs !! p) as [c|]; split.
  - intros. by exists c.
  - by intros (? & [= ->] & ?).
  - done.
  - by intros (? & ? & ?).
Qed.

Definition live_objs (cs : gmap Z cell) (objs : list Z) : list Z :=
  filter (fun p => marked_b cs p = true) objs.

Definition dead_objs (cs : gmap Z cell) (objs : list Z) : list Z :=
  filter (fun p => marked_b cs p = false) objs.

Definition size_at (cs : gmap Z cell) (p : Z) : Z :=
  match cs !! p with Some c => c_size c | None => 0 end.

Definition sum_sizes (cs : gmap Z cell) (objs : list Z) : Z :=
  foldr (fun p n => size_at cs p + n) 0 objs.

(** The finalizer call an object makes when it is destroyed. *)
Definition final_call (cs : gmap Z cell) (p : Z) : option (Z * Z) :=
  match cs !! p with
  | Some (mk_cell _ _ (HAbstract _ payload finalizer)) =>
      if finalizer =? 0 then None else Some (finalizer, payload)
  | _ => None
  end.

Lemma destroy_object_final cs p c fin :
  cs !! p = Some c ->
  destroy_object (c_obj c) fin =
    match final_call cs p with Some x => x :: fin | None => fin end.
Proof.
  intros E. unfold final_call. rewrite E. destruct c as [? ? o]. cbn.
  destruct o; cbn; try done. by case_if.
Qed.

Lemma sweep_dead_finalized cs p c s :
  cs !! p = Some c ->
  s_finalized (sweep_dead p c s) =
    match final_call cs p with Some x => x :: s_finalized s | None => s_finalized s end.
Proof.
  intros E. unfold sweep_dead. case_if; cbn [s_finalized]; [|by apply destroy_object_final].
  unfold final_call. rewrite E. destruct c as [? ? o]. by destruct o.
Qed.

(** Lookups of the maps derived from a memory only depend on its entry at [p]. *)
Lemma lookup_agree cs cs' p :
  cs' !! p = cs !! p ->
  marked_b cs' p = marked_b cs p /\ size_at cs' p = size_at cs p /\
  final_call cs' p = final_call cs p.
Proof. intros E. unfold marked_b, size_at, final_call. by rewrite E. Qed.

Section agree.
Context (cs cs' : gmap Z cell).

Definition agree_on (objs : list Z) : Prop := forall p, p ∈ objs -> cs' !! p = cs !! p.

Lemma agree_on_cons p objs : agree_on (p :: objs) -> cs' !! p = cs !! p /\ agree_on objs.
Proof. intros H. split; [apply H; set_solver | intros q Hq; apply H; set_solver]. Qed.

Lemma objs_agree objs :
  agree_on objs ->
  live_objs cs' objs = live_objs cs objs /\ dead_objs cs' objs = dead_objs cs objs /\
  sum_sizes cs' objs = sum_sizes cs objs /\ omap (final_call cs') objs = omap (final_call cs) objs.
Proof.
  unfold live_objs, dead_objs. induction objs as [|p objs IH]; intros H; [done|].
  apply agree_on_cons in H as [Hp H]. destruct (IH H) as (E1 & E2 & E3 & E4).
  destruct (lookup_agree _ _ _ Hp) as (Hm & Hs & Hf).
  rewrite !filter_cons, E1, E2, Hm. cbn [sum_sizes foldr omap list_omap].
  fold (sum_sizes cs' objs) (sum_sizes cs objs). by rewrite Hs, E3, Hf, E4.
Qed.

Lemma agree_on_sub objs objs' :
  (forall p, p ∈ objs' -> p ∈ objs) -> agree_on objs -> agree_on objs'.
Proof. intros Hs H p Hp. auto. Qed.
End agree.

Lemma live_objs_cons cs h l :
  live_objs cs (h :: l) = if marked_b cs h then h :: live_objs cs l else live_objs cs l.
Proof. unfold live_objs. rewrite filter_cons. by destruct (marked_b cs h). Qed.

Lemma dead_objs_cons cs h l :
  dead_objs cs (h :: l) = if marked_b cs h then dead_objs cs l else h :: dead_objs cs l.
Proof. unfold dead_objs. rewrite filter_cons. by destruct (marked_b cs h). Qed.

Lemma sum_sizes_cons cs p l : sum_sizes cs (p :: l) = size_at cs p + sum_sizes cs l.
Proof. done. Qed.

Lemma size_at_Some cs p c : cs !! p = Some c -> size_at cs p = c_size c.
Proof. unfold size_at. by intros ->. Qed.

(** The result of a sweep, field by field. *)
Record sweep_result (objs : list Z) (s : sweep_state) (kept : list Z) (s' : sweep_state) : Prop := {
  sr_kept : kept = live_objs (s_cells s) objs;
  sr_cells : forall p, s_cells s' !! p =
    if decide (p ∈ objs) then
      if marked_b (s_cells s) p then set_marked false <$> s_cells s !! p else None
    else s_cells s !! p;
  sr_live : s_live s' = s_live s + sum_sizes (s_cells s) kept;
  sr_freed : s_freed s' = s_freed s + zlen (dead_objs (s_cells s) objs);
  sr_final : s_finalized s' =
    reverse (omap (final_call (s_cells s)) (dead_objs (s_cells s) objs)) ++ s_finalized s;
  sr_free_max : zlen (s_free s) <= GC_BOX_FREE_MAX -> zlen (s_free s') <= GC_BOX_FREE_MAX;
  sr_free : forall h, h ∈ (s_free s').*1 -> h ∈ (s_free s).*1 \/ h ∈ dead_objs (s_cells s) objs;
  sr_free_nodup : NoDup (s_free s).*1 -> (forall h, h ∈ (s_free s).*1 -> h ∉ objs) ->
    NoDup (s_free s').*1
}.

Lemma box_free_push_max h c free :
  zlen free <= GC_BOX_FREE_MAX -> zlen (gc_box_free_push h c free) <= GC_BOX_FREE_MAX.
Proof. unfold gc_box_free_push. case_if; [done|]. bool_hyps. rewrite zlen_cons. lia. Qed.

Lemma sweep_dead_fields h c s :
  s_cells (sweep_dead h c s) = delete h (s_cells s) /\ s_live (sweep_dead h c s) = s_live s /\
  s_freed (sweep_dead h c s) = s_freed s + 1 /\
  (zlen (s_free s) <= GC_BOX_FREE_MAX -> zlen (s_free (sweep_dead h c s)) <= GC_BOX_FREE_MAX) /\
  (forall h', h' ∈ (s_free (sweep_dead h c s)).*1 -> h' ∈ (s_free s).*1 \/ h' = h) /\
  (NoDup (s_free s).*1 -> h ∉ (s_free s).*1 -> NoDup (s_free (sweep_dead h c s)).*1).
Proof.
  unfold sweep_dead. case_if; cbn; split_and!; try done; try auto using box_free_push_max.
  - unfold gc_box_free_push. case_if; [auto|]. intros h' [->|?]%elem_of_cons; auto.
  - unfold gc_box_free_push. case_if; [auto|]. intros. by apply NoDup_cons.
Qed.

Lemma marked_b_Some cs p c : cs !! p = Some c -> marked_b cs p = c_marked c.
Proof. unfold marked_b. by intros ->. Qed.

Lemma sweep_spec objs s :
  NoDup objs -> (forall p, p ∈ objs -> is_Some (s_cells s !! p)) ->
  exists kept s', sweep objs s = Some (kept, s') /\ sweep_result objs s kept s'.
Proof.
  revert s. induction objs as [|h objs IH]; intros s Hnd Hin; cbn [sweep].
  - exists [], s. split; [done|]. constructor; try done; try (cbn; lia).
    + change (s_freed s = s_freed s + 0). lia.
    + auto.
  - apply NoDup_cons in Hnd as [Hh Hnd].
    destruct (Hin h) as [c Hc]; [set_solver|]. rewrite Hc. cbn [mbind option_bind].
    pose proof (marked_b_Some _ _ _ Hc) as Hmb.
    destruct (c_marked c) eqn:Hm.
    + destruct (IH (sweep_live h c s) Hnd) as (kept & s' & E & R).
      { intros p Hp. cbn. rewrite lookup_insert_ne by set_solver. apply Hin. set_solver. }
      rewrite E. exists (h :: kept), s'. split; [done|].
      destruct (objs_agree (s_cells s) (s_cells (sweep_live h c s)) objs) as (A1 & A2 & _ & _).
      { intros p Hp. cbn. by rewrite lookup_insert_ne by set_solver. }
      assert (Ha : agree_on (s_cells s) (s_cells (sweep_live h c s)) (live_objs (s_cells s) objs)).
      { intros p [_ Hp]%list_elem_of_filter. cbn. by rewrite lookup_insert_ne by set_solver. }
      destruct (objs_agree _ _ _ Ha) as (_ & _ & A3 & _).
      destruct R as [R1 R2 R3 R4 R5 R6 R7 R8]. constructor; rewrite ?live_objs_cons, ?dead_objs_cons, ?Hmb.
      * by rewrite R1, A1.
      * intros p. rewrite R2. destruct (decide (p = h)) as [->|Hne].
        -- rewrite decide_False by done. rewrite decide_True by set_solver. cbn.
           by rewrite lookup_insert_eq, Hmb, Hc.
        -- destruct (lookup_agree (s_cells s) (s_cells (sweep_live h c s)) p) as (-> & _ & _);
             [cbn; by rewrite lookup_insert_ne|].
           cbn [s_cells sweep_live]. rewrite lookup_insert_ne by done.
           destruct (decide (p ∈ objs)); [rewrite decide_True by set_solver | rewrite decide_False by set_solver]; done.
      * rewrite R3, R1, A1, A3. rewrite sum_sizes_cons, (size_at_Some _ _ _ Hc). cbn [s_live sweep_live]. lia.
      * by rewrite R4, A2.
      * rewrite R5, A2. f_equal. f_equal.
        apply objs_agree. intros p [_ Hp]%list_elem_of_filter. cbn. by rewrite lookup_insert_ne by set_solver.
      * exact R6.
      * rewrite A2 in R7. exact R7.
      * intros Hf Hn. apply R8; [exact Hf|]. intros h' Hh' ?. apply (Hn h' Hh'). set_solver.
    + destruct (sweep_dead_fields h c s) as (F1 & F2 & F3 & F4 & F5 & F6).
      destruct (IH (sweep_dead h c s) Hnd) as (kept & s' & E & R).
      { intros p Hp. rewrite F1, lookup_delete_ne by set_solver. apply Hin. set_solver. }
      rewrite E. exists kept, s'. split; [done|].
      destruct (objs_agree (s_cells s) (s_cells (sweep_dead h c s)) objs) as (A1 & A2 & _ & _).
      { intros p Hp. by rewrite F1, lookup_delete_ne by set_solver. }
      assert (Ha : forall f : list Z, (forall p, p ∈ f -> p ∈ objs) ->
        agree_on (s_cells s) (s_cells (sweep_dead h c s)) f).
      { intros f Hf p Hp%Hf. by rewrite F1, lookup_delete_ne by set_solver. }
      destruct R as [R1 R2 R3 R4 R5 R6 R7 R8]. constructor; rewrite ?live_objs_cons, ?dead_objs_cons, ?Hmb.
      * by rewrite R1, A1.
      * intros p. rewrite R2, F1. destruct (decide (p = h)) as [->|Hne].
        -- rewrite decide_False by done. rewrite decide_True by set_solver.
           by rewrite lookup_delete_eq, Hmb.
        -- rewrite lookup_delete_ne by done.
           destruct (lookup_agree (s_cells s) (s_cells (sweep_dead h c s)) p) as (Hx & _ & _);
             [by rewrite F1, lookup_delete_ne|]. rewrite F1 in Hx. rewrite Hx.
           destruct (decide (p ∈ objs)); [rewrite decide_True by set_solver | rewrite decide_False by set_solver]; done.
      * rewrite R3, F2. f_equal. apply objs_agree, Ha. rewrite R1, A1. intros p [_ ?]%list_elem_of_filter. done.
      * rewrite R4, A2, F3, zlen_cons. lia.
      * rewrite R5, A2.
        rewrite (sweep_dead_finalized (s_cells s) h c s Hc). cbn [omap list_omap].
        destruct (objs_agree _ _ _ (Ha (dead_objs (s_cells s) objs)
          ltac:(by intros p [_ ?]%list_elem_of_filter))) as (_ & _ & _ & ->).
        destruct (final_call (s_cells s) h); [|done].
        by rewrite reverse_cons, <- app_assoc.
      * auto.
      * rewrite A2 in R7. intros h' [H|H]%R7.
        -- apply F5 in H as [H| ->]; [by left | right; apply list_elem_of_here].
        -- right. by apply list_elem_of_further.
      * intros Hf Hn. apply R8.
        -- apply F6; [done|]. intros Hx. apply (Hn h Hx), list_elem_of_here.
        -- intros h' [Hh'| ->]%F5 Hin'; [|done]. apply (Hn h' Hh'). by apply list_elem_of_further.
Qed.

(** ** A whole collection *)

Record collect_result (g : gc_state) (roots : list Z) (g' : gc_state) : Prop := {
  cr_ok : heap_ok g';
  cr_cells : forall p c, cells g' !! p = Some c <-> cells g !! p = Some c /\ reachable (cells g) roots p;
  cr_order : gc_objects g' `sublist_of` gc_objects g;
  cr_live : gc_bytes_live g' = sum_sizes (cells g) (gc_objects g');
  cr_next : gc_next_collect g' = next_threshold (gc_bytes_live g');
  cr_final : exists dead, dead `sublist_of` gc_objects g /\
    (forall p, p ∈ dead <-> p ∈ gc_objects g /\ ~ reachable (cells g) roots p) /\
    finalized g' = reverse (omap (final_call (cells g)) dead) ++ finalized g;
  cr_roots : gc_roots g' = gc_roots g /\ const_fun_cache g' = const_fun_cache g /\
    const_bytes_cache g' = const_bytes_cache g /\
    enum_nullary_by_type g' = enum_nullary_by_type g
}.

Lemma same_objs_size_at cs cs' p : same_objs cs cs' -> size_at cs' p = size_at cs p.
Proof.
  intros H. unfold size_at. specialize (H p).
  destruct (cs' !! p), (cs !! p); cbn in H; try done. unfold set_marked in H. by simplify_eq.
Qed.

Lemma same_objs_final_call cs cs' p : same_objs cs cs' -> final_call cs' p = final_call cs p.
Proof.
  intros H. unfold final_call. specialize (H p).
  destruct (cs' !! p) as [[]|], (cs !! p) as [[]|]; cbn in H; try done.
  unfold set_marked in H. by simplify_eq.
Qed.

Lemma same_objs_sums cs cs' l :
  same_objs cs cs' ->
  sum_sizes cs' l = sum_sizes cs l /\ omap (final_call cs') l = omap (final_call cs) l.
Proof.
  intros H. induction l as [|p l [IH1 IH2]]; [done|].
  rewrite !sum_sizes_cons, (same_objs_size_at _ _ _ H), IH1. cbn.
  rewrite (same_objs_final_call _ _ _ H). split; [done|]. destruct (final_call cs p); by rewrite IH2.
Qed.

Lemma sublist_filter_Z (P : Z -> Prop) `{!forall x, Decision (P x)} (l : list Z) :
  filter P l `sublist_of` l.
Proof. induction l; [done|]. rewrite filter_cons. case_decide; by constructor. Qed.

(** The memory after marking and sweeping. *)
Lemma swept_cells g roots marked s kept :
  heap_ok g -> same_objs (cells g) marked ->
  (forall p, is_marked marked p <-> reachable (cells g) roots p) ->
  (forall p, s_cells s !! p = if decide (p ∈ gc_objects g) then
      if marked_b marked p then set_marked false <$> marked !! p else None else marked !! p) ->
  kept = live_objs marked (gc_objects g) ->
  (forall p c, s_cells s !! p = Some c <->
     cells g !! p = Some c /\ reachable (cells g) roots p) /\
  (forall p, p ∈ kept <-> is_Some (s_cells s !! p)).
Proof.
  intros Hg Hs Hr Hc ->.
  assert (Hcell : forall p c, s_cells s !! p = Some c <->
     cells g !! p = Some c /\ reachable (cells g) roots p).
  { intros p c. rewrite Hc. case_decide as Hp.
    - destruct (marked_b marked p) eqn:Hm.
      + rewrite (Hs p). assert (reachable (cells g) roots p) by (apply Hr, marked_b_spec; done).
        destruct (cells g !! p) as [c0|] eqn:E; cbn; [|naive_solver].
        pose proof (ho_clear g Hg p c0 E). destruct c0; cbn in *; subst. naive_solver.
      + split; [done|]. intros [_ ?%Hr%marked_b_spec]. congruence.
    - rewrite (ho_dom g Hg), <- (same_objs_is_Some _ _ _ Hs) in Hp. split.
      + intros E. exfalso. apply Hp. by eexists.
      + intros [E _]. exfalso. apply Hp. rewrite (same_objs_is_Some _ _ _ Hs). by eexists. }
  split; [done|]. intros p. unfold live_objs. rewrite list_elem_of_filter, marked_b_spec, Hr. split.
  - intros [Hp [c E]%(ho_dom g Hg)]. exists c. by apply Hcell.
  - intros [c [E Hp]%Hcell]. split; [done|]. apply (ho_dom g Hg). by eexists.
Qed.

Lemma collect_spec g roots :
  heap_ok g -> no_dangling (cells g) roots ->
  exists g', gc_collect_from roots g = Some g' /\ collect_result g roots g'.
Proof.
  intros Hg Hnd.
  destruct (mark_spec _ _ Hnd (ho_clear g Hg)) as (st & marked & E1 & E2 & Hs & Hr).
  destruct (sweep_spec (gc_objects g)
    (mk_sweep marked (gc_box_free g) (gc_freed_objects g) 0 (finalized g))) as (kept & s & E3 & R).
  { apply ho_nodup, Hg. }
  { intros p Hp. cbn. rewrite (same_objs_is_Some _ _ _ Hs). by apply (ho_dom g Hg). }
  unfold gc_collect_from. rewrite E1. cbn [mbind option_bind]. rewrite E2. cbn [mbind option_bind].
  rewrite E3. cbn [mbind option_bind]. eexists. split; [done|].
  destruct R as [R1 R2 R3 R4 R5 R6 R7 R8]. cbn [s_cells s_free s_freed s_live s_finalized] in *.
  destruct (swept_cells g roots marked s kept Hg Hs Hr R2 R1) as [Hcell Hkept].
  assert (Hdead : forall p, p ∈ dead_objs marked (gc_objects g) <->
    p ∈ gc_objects g /\ ~ reachable (cells g) roots p).
  { intros p. unfold dead_objs.
    rewrite list_elem_of_filter, <- Hr, <- marked_b_spec, not_true_iff_false. tauto. }
  constructor; cbn; try done.
  - constructor; cbn.
    + rewrite R1. apply NoDup_filter, ho_nodup, Hg.
    + exact Hkept.
    + intros p c [Hp _]%Hcell. by eapply ho_clear.
    + intros p [[c [Hp _]%Hcell]|[Hp|Hp]%R7]; apply (ho_addr g Hg);
        [left; by eexists | by right | left].
      apply Hdead in Hp as [Hp _]. by apply (ho_dom g Hg).
    + apply R8; [apply ho_free_nodup, Hg|]. intros p Hp Hin.
      apply (ho_dom g Hg) in Hin as [c Hc]. by rewrite (ho_free_dom g Hg p Hp) in Hc.
    + intros p Hp. apply eq_None_not_Some. intros [c [Hc Hrp]%Hcell].
      apply R7 in Hp as [Hp|[_ Hp]%Hdead]; [|done]. by rewrite (ho_free_dom g Hg p Hp) in Hc.
    + apply R6, ho_free_max, Hg.
  - rewrite R1. apply sublist_filter_Z.
  - rewrite R3, Z.add_0_l. by apply same_objs_sums.
  - exists (dead_objs marked (gc_objects g)). split_and!; [apply sublist_filter_Z | done|].
    rewrite R5. f_equal. f_equal. by apply same_objs_sums.
Qed.

(** ** Allocation *)

Lemma box_free_pop_spec total free h c rest :
  gc_box_free_pop total free = Some (h, c, rest) ->
  c_size c = total /\ exists l1 l2, free = l1 ++ (h, c) :: l2 /\ rest = l1 ++ l2.
Proof.
  revert rest. induction free as [|[h1 c1] free IH]; intros rest; cbn; [done|].
  destruct (c_size c1 =? total) eqn:E.
  - intros [= <- <- <-]. bool_hyps. split; [done|]. by exists [], free.
  - destruct (gc_box_free_pop total free) as [[[h2 c2] r2]|]; [|done]. cbn.
    intros [= <- <- <-]. destruct (IH _ eq_refl) as (H1 & l1 & l2 & -> & ->).
    split; [done|]. by exists ((h1, c1) :: l1), l2.
Qed.

(** When [malloc] does not return NULL, it returns an address that no block uses. *)
Definition malloc_ok (malloc : gc_state -> Z -> option Z) : Prop :=
  forall g n p, malloc g n = Some p ->
    addr_ok p /\ cells g !! p = None /\ p ∉ (gc_box_free g).*1.

(** Taking a block: the object appears at a fresh address, the others stay. *)
Record take_result (g : gc_state) (p : Z) (g' : gc_state) : Prop := {
  tr_ok : heap_ok g';
  tr_addr : addr_ok p;
  tr_fresh : cells g !! p = None;
  tr_other : forall q, q <> p -> cells g' !! q = cells g !! q;
  tr_objects : gc_objects g' = p :: gc_objects g;
  tr_roots : gc_roots g' = gc_roots g /\ const_fun_cache g' = const_fun_cache g /\
    const_bytes_cache g' = const_bytes_cache g /\
    enum_nullary_by_type g' = enum_nullary_by_type g /\ finalized g' = finalized g
}.

Section take.
Context (malloc : gc_state -> Z -> option Z) (Hmalloc : malloc_ok malloc).

Lemma heap_ok_insert g g' p c :
  heap_ok g -> addr_ok p -> cells g !! p = None -> c_marked c = false ->
  cells g' = <[p := c]> (cells g) -> gc_objects g' = p :: gc_objects g ->
  NoDup (gc_box_free g').*1 -> p ∉ (gc_box_free g').*1 ->
  (forall h, h ∈ (gc_box_free g').*1 -> h ∈ (gc_box_free g).*1) ->
  zlen (gc_box_free g') <= GC_BOX_FREE_MAX -> heap_ok g'.
Proof.
  intros Hg Ha Hn Hm Ec Eo Hnd Hp Hsub Hmax. constructor; rewrite ?Ec, ?Eo.
  - apply NoDup_cons. split; [|apply Hg]. rewrite (ho_dom g Hg), Hn. by intros [? ?].
  - intros q. rewrite elem_of_cons, (ho_dom g Hg), lookup_insert_is_Some. destruct (decide (q = p)); naive_solver.
  - intros q d. rewrite lookup_insert_Some. intros [[<- <-]|[_ ?]]; [done | by eapply (ho_clear g Hg)].
  - intros q. rewrite lookup_insert_is_Some.
    intros [[<-|[_ ?]]|?]; [done | apply (ho_addr g Hg); by left | apply (ho_addr g Hg); auto].
  - done.
  - intros q Hq. rewrite lookup_insert_ne by (intros ->; done). apply (ho_free_dom g Hg). auto.
  - done.
Qed.

Lemma gc_take_block_spec total init g p g' :
  heap_ok g -> gc_take_block malloc total init g = Some (p, g') ->
  take_result g p g' /\ exists old, cells g' !! p = Some (mk_cell total false (init old)).
Proof.
  intros Hg. unfold gc_take_block.
  destruct (gc_box_free_pop total (gc_box_free g)) as [[[h c] rest]|] eqn:E.
  - intros [= <- <-].
    apply box_free_pop_spec in E as (_ & l1 & l2 & Ef & ->).
    assert (Hin : h ∈ (gc_box_free g).*1) by (rewrite Ef, fmap_app, fmap_cons; set_solver).
    pose proof (ho_free_nodup g Hg) as Hnd. rewrite Ef, fmap_app, fmap_cons in Hnd. cbn in Hnd.
    apply NoDup_app in Hnd as (N1 & N2 & N3). apply NoDup_cons in N3 as [N3 N4].
    pose proof (ho_free_dom g Hg h Hin) as Hn.
    assert (Ha : addr_ok h) by (apply (ho_addr g Hg); by right).
    split; [|exists (Some (c_obj c)); cbn; by rewrite lookup_insert_eq].
    constructor; cbn; try done.
    + apply (heap_ok_insert g _ h (mk_cell total false (init (Some (c_obj c))))); cbn; try done; rewrite ?fmap_app.
      * apply NoDup_app. split_and!; [done | | done]. intros q Hq Hq2. apply (N2 q Hq). set_solver.
      * intros [Hq|Hq]%elem_of_app; [|done]. apply (N2 h Hq). set_solver.
      * intros q Hq. rewrite Ef, fmap_app, fmap_cons. set_solver.
      * pose proof (ho_free_max g Hg) as Hmax. rewrite Ef in Hmax.
        autorewrite with zlist in *. lia.
    + intros q Hq. by rewrite lookup_insert_ne.
  - destruct (malloc g total) as [h|] eqn:Em; [|done]. intros [= <- <-].
    destruct (Hmalloc _ _ _ Em) as (Ha & Hn & Hf). split; [|exists None; cbn; by rewrite lookup_insert_eq].
    constructor; cbn; try done.
    + apply (heap_ok_insert g _ h (mk_cell total false (init None))); cbn; try done; apply Hg.
    + intros q Hq. by rewrite lookup_insert_ne.
Qed.
End take.
