(* ===== verification/GcThms.v ===== *)
(** * What the collector guarantees

    The statements on [jello_gc_collect] and [jello_gc_alloc], for the roots
    [gc_root_ptrs] gathers. *)

From S2P Require Import Prelude CInt Memory Bytecode Value Object Heap Vm Frame Gc GcFacts.

(** ** A concrete heap

    A list node at 16 whose head is the bytes at 32, and an abstract at 48 (with
    finalizer 7) and a numeric box at 64 that nothing refers to; the node is spilled. *)

Definition demo_cells : gmap Z cell :=
  <[16 := mk_cell 48 false (HList 1 32 0)]>
  (<[32 := mk_cell 40 false (HBytes 2 [1; 2; 3; 4])]>
  (<[48 := mk_cell 48 false (HAbstract 3 99 7)]>
  (<[64 := mk_cell 40 false (HBoxI64 4 5)]> ∅))).

Definition demo_gc : gc_state :=
  mk_gc demo_cells [64; 48; 32; 16] [] 176 100 0 0 0 0 [] [] [] [] [].

Definition demo_vm : jello_vm :=
  mk_vm (mk_stack [] 0 0 [] 0 [] 0) (mk_exc [] false 4 JELLO_TRAP_NONE None)
    (mk_limits 0 0 0 0) demo_gc [16] 0.

(** A memory allocator: the address above every block in use. *)
Definition bump_malloc (g : gc_state) (n : Z) : option Z :=
  let used := (map_to_list (cells g)).*1 ++ (gc_box_free g).*1 in
  let p := 8 + 8 * foldr Z.max 0 ((fun a => a / 8) <$> used) in
  if p <? 2 ^ 64 then Some p else None.

Lemma demo_heap_ok : heap_ok demo_gc.
Proof.
  constructor; try (apply (bool_decide_eq_true_1 _); vm_compute; reflexivity).
  - intros p. cbn. unfold demo_cells. rewrite !lookup_insert_is_Some. rewrite lookup_empty.
    rewrite !elem_of_cons, elem_of_nil. rewrite is_Some_alt.
    destruct (decide (p = 16)), (decide (p = 32)), (decide (p = 48)), (decide (p = 64)); naive_solver.
  - intros p. cbn. rewrite elem_of_nil. unfold demo_cells. rewrite !lookup_insert_is_Some, lookup_empty.
    unfold addr_ok. intros [[<-|[_ [<-|[_ [<-|[_ [<-|[_ [? [=]]]]]]]]]]|[]]; done.
  - intros p Hp. by apply elem_of_nil in Hp.
Qed.

Lemma demo_reachable p : reachable demo_cells [16] p <-> p = 16 \/ p = 32.
Proof.
  split.
  - induction 1 as [p Hp%list_elem_of_singleton | p c q _ IH Hc Hq]; [by left|].
    destruct IH as [-> | ->]; vm_compute in Hc; injection Hc as <-; apply elem_of_children in Hq; vm_compute in Hq.
    + apply list_elem_of_singleton in Hq. by right.
    + by apply elem_of_nil in Hq.
  - intros [-> | ->]; [constructor; set_solver|].
    eapply (reach_child _ _ 16); [constructor; set_solver | reflexivity | apply elem_of_children; vm_compute; set_solver].
Qed.

Lemma demo_no_dangling : no_dangling demo_cells [16].
Proof. intros p [-> | ->]%demo_reachable; (split; [done | by eexists]). Qed.

Lemma demo_roots : gc_root_ptrs empty_module demo_vm = Some [16].
Proof. vm_compute. reflexivity. Qed.

(** ** Collection *)

Section Collect.
Context (m : jello_bc_module).

(** C5: A collection of a heap without dangling pointers ends (its marking loop
    needs no more than one round per object) and keeps exactly the objects
    reachable from the roots, each unchanged, at its address and in its place of
    the object list; the heap invariant holds again, and the count of live bytes
    is the sum of the kept blocks. *)
Theorem gc_collect_exact vm roots :
  heap_ok (v_gc vm) -> gc_root_ptrs m vm = Some roots -> no_dangling (cells (v_gc vm)) roots ->
  exists g', jello_gc_collect m vm = Ret () (set_gc g' vm) /\ heap_ok g' /\
  (forall p c, cells g' !! p = Some c <->
    cells (v_gc vm) !! p = Some c /\ reachable (cells (v_gc vm)) roots p) /\
  gc_objects g' `sublist_of` gc_objects (v_gc vm) /\
  gc_bytes_live g' = sum_sizes (cells (v_gc vm)) (gc_objects g').
Proof.
  intros Hg Hr Hnd. unfold jello_gc_collect. rewrite Hr. cbn [mbind option_bind].
  destruct (collect_spec _ _ Hg Hnd) as (g' & -> & R). exists g'.
  split; [done|]. destruct R. done.
Qed.

(** C36: A collection runs the finalizer of every unreachable abstract exactly
    once, in the order of the object list, and of no reachable one. *)
Theorem gc_finalizers_once vm roots :
  heap_ok (v_gc vm) -> gc_root_ptrs m vm = Some roots -> no_dangling (cells (v_gc vm)) roots ->
  exists g' dead, jello_gc_collect m vm = Ret () (set_gc g' vm) /\
  dead `sublist_of` gc_objects (v_gc vm) /\
  (forall p, p ∈ dead <-> p ∈ gc_objects (v_gc vm) /\ ~ reachable (cells (v_gc vm)) roots p) /\
  finalized g' = reverse (omap (final_call (cells (v_gc vm))) dead) ++ finalized (v_gc vm).
Proof.
  intros Hg Hr Hnd. unfold jello_gc_collect. rewrite Hr. cbn [mbind option_bind].
  destruct (collect_spec _ _ Hg Hnd) as (g' & -> & R).
  destruct (cr_final _ _ _ R) as (dead & H1 & H2 & H3). by exists g', dead.
Qed.
End Collect.

Lemma gc_collect_exact_witness :
  exists g', jello_gc_collect empty_module demo_vm = Ret () (set_gc g' demo_vm) /\ heap_ok g' /\
    (forall p c, cells g' !! p = Some c <->
       cells demo_gc !! p = Some c /\ reachable demo_cells [16] p) /\
    gc_objects g' `sublist_of` [64; 48; 32; 16] /\
    gc_bytes_live g' = sum_sizes demo_cells (gc_objects g').
Proof.
  apply (gc_collect_exact empty_module demo_vm [16] demo_heap_ok demo_roots demo_no_dangling).
Defined.

Lemma gc_finalizers_once_witness :
  exists g' dead, jello_gc_collect empty_module demo_vm = Ret () (set_gc g' demo_vm) /\
    dead `sublist_of` [64; 48; 32; 16] /\
    (forall p, p ∈ dead <-> p ∈ [64; 48; 32; 16] /\ ~ reachable demo_cells [16] p) /\
    finalized g' = reverse (omap (final_call demo_cells) dead) ++ [].
Proof.
  apply (gc_finalizers_once empty_module demo_vm [16] demo_heap_ok demo_roots demo_no_dangling).
Defined.

(** What the demo collection does: the abstract is finalized, the box recycled. *)
Example demo_collected :
  exists g', gc_collect_from [16] demo_gc = Some g' /\ gc_objects g' = [32; 16] /\
    finalized g' = [(7, 99)] /\ (gc_box_free g').*1 = [64] /\ gc_bytes_live g' = 88.
Proof. eexists. split; [vm_compute; reflexivity|]. vm_compute. done. Qed.

(** ** Allocation *)

(** A list of roots may be put in front of the roots of the VM. *)
Lemma reachable_ext cs cs' roots roots' p :
  (forall q c, reachable cs roots q -> cs !! q = Some c ->
     exists c', cs' !! q = Some c' /\ c_obj c' = c_obj c) ->
  (forall q, q ∈ roots' -> q ∈ roots) ->
  no_dangling cs roots -> reachable cs' roots' p -> reachable cs roots p.
Proof.
  intros Hcs Hr Hnd. induction 1 as [p Hp | p c q _ IH Hc Hq]; [constructor; auto|].
  destruct (Hnd p IH) as (_ & d & Hd). destruct (Hcs p d IH Hd) as (d' & Hd' & Ho).
  rewrite Hc in Hd'. injection Hd' as <-. rewrite Ho in Hq. by eapply reach_child.
Qed.

Section Allocation.
Context (malloc : gc_state -> Z -> option Z) (m : jello_bc_module).

(** The heap an allocation takes its block from: collected or not, what the roots
    reach is as before. *)
Lemma maybe_collect vm roots (b : bool) :
  heap_ok (v_gc vm) -> gc_root_ptrs m vm = Some roots -> no_dangling (cells (v_gc vm)) roots ->
  exists g1, (if b then jello_gc_collect m else mret ()) vm = Ret () (set_gc g1 vm) /\
  heap_ok g1 /\
  forall q c, reachable (cells (v_gc vm)) roots q -> cells (v_gc vm) !! q = Some c ->
  cells g1 !! q = Some c.
Proof.
  intros Hg Hr Hnd. destruct b.
  - unfold jello_gc_collect. rewrite Hr. cbn [mbind option_bind].
    destruct (collect_spec _ _ Hg Hnd) as (g1 & -> & R). exists g1.
    split_and!; [done | apply R|]. intros q c Hq Hc. by apply R.
  - exists (v_gc vm). split_and!; [by destruct vm | done | done].
Qed.

(** The heap with one more object. *)
Record alloc_result (vm : jello_vm) (roots : list Z) (sz : Z) (init : option hobj -> hobj)
    (p : Z) (g' : gc_state) : Prop := {
    ar_ok : heap_ok g';
    ar_addr : addr_ok p;
    ar_fresh : ~ reachable (cells (v_gc vm)) roots p;
    ar_obj : exists old, cells g' !! p = Some (mk_cell (sizeof_gc_hdr + sz) false (init old));
    ar_kept : forall q c, reachable (cells (v_gc vm)) roots q -> cells (v_gc vm) !! q = Some c ->
    cells g' !! q = Some c;
    ar_nd : no_dangling (cells g') (p :: roots)
  }.

Lemma alloc_spec vm roots sz init :
  malloc_ok malloc -> heap_ok (v_gc vm) -> gc_root_ptrs m vm = Some roots ->
  no_dangling (cells (v_gc vm)) roots ->
  (forall old q, refers (init old) q -> reachable (cells (v_gc vm)) roots q) ->
  safe (jello_gc_alloc_recycled malloc m sz init) vm (fun p vm' =>
    exists g', vm' = set_gc g' vm /\ alloc_result vm roots sz init p g').
Proof.
  intros Hm Hg Hr Hnd Hinit. unfold jello_gc_alloc_recycled.
  apply safe_bind. unfold get_gc at 1, safe at 1.
  destruct (maybe_collect vm roots (negb (gc_next_collect (v_gc vm) =? 0) &&
      (gc_next_collect (v_gc vm) <=? gc_bytes_live (v_gc vm))) Hg Hr Hnd) as (g1 & E & Hg1 & Hk).
  apply safe_bind. unfold safe at 1. rewrite E. apply safe_bind. unfold get_gc, safe at 1.
  change (v_gc (set_gc g1 vm)) with g1.
  destruct (gc_take_block malloc (sizeof_gc_hdr + sz) init g1) as [[p g']|] eqn:Et; [|done].
  destruct (gc_take_block_spec malloc Hm _ _ _ _ _ Hg1 Et) as (R & old & Hp).
  cbn. exists g'. split; [by destruct vm|].
  assert (Hold : forall q c, reachable (cells (v_gc vm)) roots q -> cells (v_gc vm) !! q = Some c ->
      q <> p /\ cells g' !! q = Some c).
  { intros q c Hq Hc. pose proof (Hk q c Hq Hc) as H1.
    assert (q <> p) by (intros ->; by rewrite (tr_fresh _ _ _ R) in H1).
    split; [done|]. by rewrite (tr_other _ _ _ R). }
  assert (Hreach : forall q, reachable (cells g') (p :: roots) q ->
      q = p \/ reachable (cells (v_gc vm)) roots q).
  { induction 1 as [q Hq | q c r _ IH Hc Hq].
    - apply elem_of_cons in Hq as [->|?]; [by left | right; by constructor].
    - right. destruct IH as [->|IH].
      + rewrite Hp in Hc. injection Hc as <-. by eapply Hinit.
      + destruct (Hnd q IH) as (_ & d & Hd). destruct (Hold q d IH Hd) as (_ & Hd').
        rewrite Hc in Hd'. injection Hd' as <-. by eapply reach_child. }
  constructor.
  - exact (tr_ok _ _ _ R).
  - exact (tr_addr _ _ _ R).
  - intros Hq. destruct (Hnd p Hq) as (_ & d & Hd). by destruct (Hold p d Hq Hd).
  - by exists old.
  - intros q c Hq Hc. by apply Hold.
  - intros q [->|Hq]%Hreach.
    + split; [|by eexists]. destruct (tr_addr _ _ _ R). lia.
    + destruct (Hnd q Hq) as (? & d & Hd). split; [done|]. destruct (Hold q d Hq Hd). by eexists.
Qed.
End Allocation.

(** C35: An allocation, collecting first when the threshold is reached, aborts only
    for lack of memory; otherwise it returns an aligned address that no live
    object had, with the new object there; everything the roots reached is
    unchanged, and nothing the roots or the new object reach dangles, provided
    the pointers of the new object are reachable from the roots. *)
Theorem gc_alloc_safe malloc m vm roots sz init :
  malloc_ok malloc -> heap_ok (v_gc vm) -> gc_root_ptrs m vm = Some roots ->
  no_dangling (cells (v_gc vm)) roots ->
  (forall old q, refers (init old) q -> reachable (cells (v_gc vm)) roots q) ->
  safe (jello_gc_alloc_recycled malloc m sz init) vm (fun p vm' =>
    exists g', vm' = set_gc g' vm /\ alloc_result vm roots sz init p g').
Proof. apply alloc_spec. Qed.

Lemma foldr_max_ge l x : x ∈ l -> x <= foldr Z.max 0 l.
Proof. induction 1; cbn; lia. Qed.

Lemma bump_malloc_ok : malloc_ok bump_malloc.
Proof.
  intros g n p. unfold bump_malloc. set (used := _ ++ _).
  case_if; [|done]. intros [= <-]. bool_hyps.
  assert (H0 : 0 <= foldr Z.max 0 ((fun a => a / 8) <$> used)) by (generalize ((fun a => a / 8) <$> used) as l; induction l; cbn; lia).
  assert (Hu : forall a, a ∈ used -> a <> 8 + 8 * foldr Z.max 0 ((fun a => a / 8) <$> used)).
  { intros a Ha Heq. apply (list_elem_of_fmap_2 (fun a => a / 8)) in Ha.
    apply foldr_max_ge in Ha. rewrite Heq in Ha at 1.
    revert Ha H0. generalize (foldr Z.max 0 ((fun a => a / 8) <$> used)). intros z. zdiv. }
  split_and!.
  - split; [lia|]. revert H0. generalize (foldr Z.max 0 ((fun a => a / 8) <$> used)). intros z. zdiv.
  - apply eq_None_not_Some. intros [c Hc]. eapply Hu; [|reflexivity].
    apply elem_of_app. left. apply list_elem_of_fmap. eexists (_, c). split; [done|].
    by apply elem_of_map_to_list.
  - intros Hp. eapply Hu; [|reflexivity]. apply elem_of_app. by right.
Qed.

Lemma gc_alloc_safe_witness :
  safe (jello_gc_alloc_recycled bump_malloc empty_module sizeof_list (fun _ => HList 1 32 16)) demo_vm
    (fun p vm' => exists g', vm' = set_gc g' demo_vm /\
       alloc_result demo_vm [16] sizeof_list (fun _ => HList 1 32 16) p g').
Proof.
  apply (gc_alloc_safe bump_malloc empty_module demo_vm [16] sizeof_list (fun _ => HList 1 32 16)
    bump_malloc_ok demo_heap_ok demo_roots demo_no_dangling).
  intros _ q Hq. apply demo_reachable. apply elem_of_children in Hq. vm_compute in Hq. set_solver.
Defined.

(** The demo allocation collects (the threshold is reached) and returns. *)
Example demo_allocated :
  exists vm', jello_gc_alloc_recycled bump_malloc empty_module sizeof_list
    (fun _ => HList 1 32 16) demo_vm = Ret 72 vm' /\ gc_objects (v_gc vm') = [72; 32; 16].
Proof. eexists. split; vm_compute; reflexivity. Qed.

(** ** The threshold *)

(** After a collection with fewer than 2^62 live bytes the threshold is above
    the live bytes, by at least the size of a full recycle list: an allocation
    that follows directly does not collect again. *)
Theorem gc_threshold_progress g roots g' :
  heap_ok g -> no_dangling (cells g) roots -> gc_collect_from roots g = Some g' ->
  0 <= gc_bytes_live g' < 2 ^ 62 ->
  gc_bytes_live g' + GC_BOX_FREE_MAX * 192 <= gc_next_collect g'.
Proof.
  intros Hg Hnd E Hl. destruct (collect_spec _ _ Hg Hnd) as (g2 & E2 & R).
  rewrite E in E2. injection E2 as <-. rewrite (cr_next _ _ _ R). unfold next_threshold.
  rewrite (wrapU_id 64 (gc_bytes_live g' + _)) by (unfold is_u, GC_BOX_FREE_MAX; lia).
  repeat case_if; bool_hyps; lia.
Qed.

Lemma gc_threshold_progress_witness :
  exists g', gc_collect_from [16] demo_gc = Some g' /\
    gc_bytes_live g' + GC_BOX_FREE_MAX * 192 <= gc_next_collect g'.
Proof.
  eexists. split; [vm_compute; reflexivity|].
  eapply (gc_threshold_progress demo_gc [16]);
    [exact demo_heap_ok | exact demo_no_dangling | vm_compute; reflexivity | vm_compute; done].
Defined.
