(* ===== verification/Box.v ===== *)
(** * Boxing

    Model of src/src/types/box.c and of src/src/vm/box.c: the conversion between a
    typed register and a tagged value.  [nan32] and [nan64] are the patterns of
    the NaNs that conversions between [float] and [double] produce. *)

From S2P Require Import Prelude CInt Memory Bytecode Value Object Heap Vm Frame Float Gc.

Section Box.
Context (malloc : gc_state -> Z -> option Z) (m : jello_bc_module) (nan32 nan64 : Z).

Definition gc_alloc (sz : Z) (o : hobj) : M Z := jello_gc_alloc malloc m sz o.

Definition jello_box_i64_new (type_id v : Z) : M Z := gc_alloc sizeof_box (HBoxI64 type_id v).
Definition jello_box_f64_new (type_id v : Z) : M Z := gc_alloc sizeof_box (HBoxF64 type_id v).
Definition jello_box_f32_new (type_id v : Z) : M Z := gc_alloc sizeof_box (HBoxF32 type_id v).
Definition jello_box_f16_new (type_id v : Z) : M Z := gc_alloc sizeof_box (HBoxF16 type_id v).

(** The object a pointer refers to. *)
Definition deref (v : Z) : M hobj := g ← get_gc; must (obj_at g v).

(** [jello_is_box_...(v)], with the payload [jello_as_box_...(v)]. *)
Definition jello_is_box_i64 (v : Z) : M (option Z) :=
  if jello_is_ptr v then
    o ← deref v; mret (match o with HBoxI64 _ x => Some x | _ => None end)
  else mret None.
Definition jello_is_box_f64 (v : Z) : M (option Z) :=
  if jello_is_ptr v then
    o ← deref v; mret (match o with HBoxF64 _ x => Some x | _ => None end)
  else mret None.
Definition jello_is_box_f32 (v : Z) : M (option Z) :=
  if jello_is_ptr v then
    o ← deref v; mret (match o with HBoxF32 _ x => Some x | _ => None end)
  else mret None.
Definition jello_is_box_f16 (v : Z) : M (option Z) :=
  if jello_is_ptr v then
    o ← deref v; mret (match o with HBoxF16 _ x => Some x | _ => None end)
  else mret None.

(** [(float)i], [(float)d], [(double)i], [(double)f] on patterns. *)
Definition f32_of_int (z : Z) : Z := encode binary32 nan32 (of_int binary32 z).
Definition f64_of_int (z : Z) : Z := encode binary64 nan64 (of_int binary64 z).
Definition f32_of_f64 (b : Z) : Z := encode binary32 nan32 (convert binary32 (decode binary64 b)).
Definition f64_of_f32 (b : Z) : Z := encode binary64 nan64 (convert binary64 (decode binary32 b)).

Definition vm_box_from_typed (f : jello_bc_function) (rf : reg_frame) (r : Z) : M Z :=
  k ← must (vm_reg_kind m f r);
  type_id ← must (f_reg_types f @! r);
  match k with
  | JELLO_T_I8 | JELLO_T_I16 | JELLO_T_I32 => v ← vm_load_u32 rf r; mret (jello_make_i32 (i32 v))
  | JELLO_T_F32 => v ← vm_load_f32 rf r; jello_box_f32_new type_id v
  | JELLO_T_F16 => v ← vm_load_f16_bits rf r; jello_box_f16_new type_id v
  | JELLO_T_I64 => v ← vm_load_i64 rf r; jello_box_i64_new type_id v
  | JELLO_T_BOOL => v ← vm_load_u32 rf r; mret (jello_make_bool (negb (v =? 0)))
  | JELLO_T_ATOM => v ← vm_load_u32 rf r; mret (jello_make_atom v)
  | JELLO_T_F64 => v ← vm_load_f64 rf r; jello_box_f64_new type_id v
  | JELLO_T_DYNAMIC => vm_load_val rf r
  | JELLO_T_BYTES | JELLO_T_FUNCTION | JELLO_T_LIST | JELLO_T_ARRAY | JELLO_T_OBJECT
  | JELLO_T_ABSTRACT | JELLO_T_ENUM =>
    p ← vm_load_ptr rf r; mret (if p =? 0 then jello_make_null else p)
  end.

Definition vm_clone_numbox (v : Z) : M Z :=
  if negb (jello_is_ptr v) then mret v else
  o ← deref v;
  match o with
  | HBoxF64 t x => jello_box_f64_new t x
  | HBoxF32 t x => jello_box_f32_new t x
  | HBoxF16 t x => jello_box_f16_new t x
  | HBoxI64 t x => jello_box_i64_new t x
  | _ => mret v
  end.

(** [((jello_box_... * )p)->value = x], the object written back whole. *)
Definition write_obj (p : Z) (o : hobj) : M () :=
  g ← get_gc; c ← must (cells g !! p);
  put_gc (set_cells (<[p := mk_cell (c_size c) (c_marked c) o]> (cells g)) g).

(** The new content of the slot that holds [cur], when the store is done in place. *)
Definition vm_store_num_inplace (f : jello_bc_function) (rf : reg_frame) (src_reg cur : Z)
  : M (option Z) :=
  k ← must (vm_reg_kind m f src_reg);
  match k with
  | JELLO_T_F64 =>
    b ← jello_is_box_f64 cur;
    match b with
    | Some _ => o ← deref cur; v ← vm_load_f64 rf src_reg;
      _ ← write_obj cur (HBoxF64 (obj_type_id o) v); mret (Some cur)
    | None => mret None
    end
  | JELLO_T_F32 =>
    b ← jello_is_box_f32 cur;
    match b with
    | Some _ => o ← deref cur; v ← vm_load_f32 rf src_reg;
      _ ← write_obj cur (HBoxF32 (obj_type_id o) v); mret (Some cur)
    | None => mret None
    end
  | JELLO_T_F16 =>
    b ← jello_is_box_f16 cur;
    match b with
    | Some _ => o ← deref cur; v ← vm_load_f16_bits rf src_reg;
      _ ← write_obj cur (HBoxF16 (obj_type_id o) v); mret (Some cur)
    | None => mret None
    end
  | JELLO_T_I64 =>
    b ← jello_is_box_i64 cur;
    match b with
    | Some _ => o ← deref cur; v ← vm_load_i64 rf src_reg;
      _ ← write_obj cur (HBoxI64 (obj_type_id o) v); mret (Some cur)
    | None => mret None
    end
  | JELLO_T_I8 | JELLO_T_I16 | JELLO_T_I32 =>
    if jello_is_i32 cur then v ← vm_load_u32 rf src_reg; mret (Some (jello_make_i32 (i32 v)))
    else
    b ← jello_is_box_i64 cur;
    match b with
    | Some x => mret (Some (jello_make_i32 (i32 x)))
    | None => mret None
    end
  | _ => mret None
  end.

(** The branches of [vm_store_from_boxed], one per kind of register. *)
Definition store_boxed_i32 (rf : reg_frame) (dst v : Z) : M () :=
  if jello_is_null v then vm_store_u32 rf dst 0 else
  if jello_is_i32 v then vm_store_u32 rf dst (u32 (jello_as_i32 v)) else
  d ← jello_is_box_f64 v;
  match d with
  | Some d => x ← must (to_int 32 (decode binary64 d)); vm_store_u32 rf dst (u32 x)
  | None =>
    b ← jello_is_box_i64 v;
    match b with
    | Some x => vm_store_u32 rf dst (u32 (i32 x))
    | None => panic                     (* unbox_to_i32 *)
    end
  end.

Definition store_boxed_f32 (rf : reg_frame) (dst v : Z) : M () :=
  if jello_is_i32 v then vm_store_f32 rf dst (f32_of_int (jello_as_i32 v)) else
  if jello_is_null v then vm_store_f32 rf dst 0 else
  d ← jello_is_box_f64 v;
  match d with
  | Some d => vm_store_f32 rf dst (f32_of_f64 d)
  | None =>
    b ← jello_is_box_f32 v;
    match b with Some x => vm_store_f32 rf dst x | None => panic end
  end.

Definition store_boxed_f16 (rf : reg_frame) (dst v : Z) : M () :=
  if jello_is_i32 v then
    vm_store_f16_bits rf dst (vm_f32_to_f16_bits (f32_of_int (jello_as_i32 v))) else
  if jello_is_null v then vm_store_f16_bits rf dst 0 else
  d ← jello_is_box_f64 v;
  match d with
  | Some d => vm_store_f16_bits rf dst (vm_f32_to_f16_bits (f32_of_f64 d))
  | None =>
    b ← jello_is_box_f16 v;
    match b with Some x => vm_store_f16_bits rf dst x | None => panic end
  end.

Definition store_boxed_i64 (rf : reg_frame) (dst v : Z) : M () :=
  if jello_is_i32 v then vm_store_i64 rf dst (jello_as_i32 v) else
  if jello_is_null v then vm_store_i64 rf dst 0 else
  d ← jello_is_box_f64 v;
  match d with
  | Some d => x ← must (to_int 64 (decode binary64 d)); vm_store_i64 rf dst x
  | None =>
    b ← jello_is_box_i64 v;
    match b with Some x => vm_store_i64 rf dst x | None => panic end
  end.

Definition store_boxed_f64 (rf : reg_frame) (dst v : Z) : M () :=
  if jello_is_i32 v then vm_store_f64 rf dst (f64_of_int (jello_as_i32 v)) else
  if jello_is_null v then vm_store_f64 rf dst 0 else
  s ← jello_is_box_f32 v;
  match s with
  | Some s => vm_store_f64 rf dst (f64_of_f32 s)
  | None =>
    b ← jello_is_box_f64 v;
    match b with Some x => vm_store_f64 rf dst x | None => panic end
  end.

Definition vm_store_from_boxed (f : jello_bc_function) (rf : reg_frame) (dst v : Z) : M () :=
  k ← must (vm_reg_kind m f dst);
  match k with
  | JELLO_T_I8 | JELLO_T_I16 | JELLO_T_I32 => store_boxed_i32 rf dst v
  | JELLO_T_F32 => store_boxed_f32 rf dst v
  | JELLO_T_F16 => store_boxed_f16 rf dst v
  | JELLO_T_I64 => store_boxed_i64 rf dst v
  | JELLO_T_BOOL =>
    _ ← panic_if (negb (jello_is_bool v));
    vm_store_u32 rf dst (if jello_as_bool v then 1 else 0)
  | JELLO_T_ATOM =>
    _ ← panic_if (negb (jello_is_atom v)); vm_store_u32 rf dst (jello_as_atom v)
  | JELLO_T_F64 => store_boxed_f64 rf dst v
  | JELLO_T_DYNAMIC => v' ← vm_clone_numbox v; vm_store_val rf dst v'
  | JELLO_T_BYTES | JELLO_T_FUNCTION | JELLO_T_LIST | JELLO_T_ARRAY | JELLO_T_OBJECT
  | JELLO_T_ABSTRACT | JELLO_T_ENUM =>
    if jello_is_null v then vm_store_ptr rf dst 0 else
    _ ← panic_if (negb (jello_is_ptr v)); vm_store_ptr rf dst v
  end.
End Box.
