(* ===== verification/BoxThms.v ===== *)
(** * Boxing loses nothing *)

From S2P Require Import Prelude CInt Memory Bytecode Value Object Heap Vm Frame FrameFacts Float Gc GcFacts GcThms Box.

(** ** Typed contents *)

(** The contents boxing can follow: an aligned pointer in a pointer register, a pointer
    to an object in a Dynamic one. *)
Definition boxable (k : jello_type_kind) (g : gc_state) (x : Z) : Prop :=
  match k with
  | JELLO_T_BYTES | JELLO_T_FUNCTION | JELLO_T_LIST | JELLO_T_ARRAY | JELLO_T_OBJECT
  | JELLO_T_ABSTRACT | JELLO_T_ENUM => x mod 8 = 0
  | JELLO_T_DYNAMIC => jello_is_ptr x = true -> is_Some (obj_at g x)
  | _ => True
  end.

Definition is_numbox (o : hobj) : bool :=
  match o with HBoxF64 _ _ | HBoxF32 _ _ | HBoxF16 _ _ | HBoxI64 _ _ => true | _ => false end.

(** What arrives as [y] in the heap [g'] when [x] was sent in the heap [g]: the same
    word; any true bool as 1; the low half of a binary16; for a number in a Dynamic
    register a box with the same contents. *)
Definition arrives (k : jello_type_kind) (g g' : gc_state) (x y : Z) : Prop :=
  match k with
  | JELLO_T_BOOL => y = Z.b2z (negb (x =? 0))
  | JELLO_T_F16 => y = u16 x
  | JELLO_T_DYNAMIC =>
    match (if jello_is_ptr x then obj_at g x else None) with
    | Some o => if is_numbox o then obj_at g' y = Some o else y = x
    | None => y = x
    end
  | _ => y = x
  end.

(** The registers two frames of the same state hold are as before. *)
Lemma reg_set_gc rf ks r g vm : reg rf ks r (set_gc g vm) = reg rf ks r vm.
Proof. done. Qed.

Section Roundtrip.
Context (malloc : gc_state -> Z -> option Z) (m : jello_bc_module) (nan32 nan64 : Z).
Context (Hmalloc : malloc_ok malloc).

Lemma wp_load n f rf ks r k vm Q :
  frame_of m f rf ks vm -> ks @! r = Some k -> n = width_of k ->
  Q (reg rf ks r vm) vm -> wp (load_reg n rf r) vm Q.
Proof.
  intros [Hrf _] Hk Hn HQ. unfold wp. by rewrite (load_reg_spec vm rf ks Hrf n r k Hk Hn).
Qed.

(** Storing [v] leaves its low bits in the slot. *)
Lemma wp_store n f rf ks r k v vm (Q : () -> jello_vm -> Prop) :
  frame_of m f rf ks vm -> ks @! r = Some k -> n = width_of k ->
  (forall vm', frame_of m f rf ks vm' -> reg rf ks r vm' = wrapU (8 * jello_slot_size k) v ->
    (forall r', r' <> r -> reg rf ks r' vm' = reg rf ks r' vm) -> Q () vm') ->
  wp (store_reg n rf r v) vm Q.
Proof.
  intros [Hrf Hks] Hk Hn HQ. unfold wp.
  destruct (store_reg_spec vm rf ks Hrf n r k v Hk Hn) as (mem' & -> & H1 & _ & H2 & H3).
  apply HQ; done.
Qed.

(** The boxes: allocating one and reading it back. *)
Definition heap_good (vm : jello_vm) : Prop :=
  heap_ok (v_gc vm) /\
  exists roots, gc_root_ptrs m vm = Some roots /\ no_dangling (cells (v_gc vm)) roots.

Lemma alloc_box sz o vm (Q : Z -> jello_vm -> Prop) :
  heap_good vm -> children o = [] ->
  (forall p g', p mod 8 = 0 -> obj_at g' p = Some o -> Q p (set_gc g' vm)) ->
  safe (gc_alloc malloc m sz o) vm Q.
Proof.
  intros (Hg & roots & Hr & Hnd) Hc HQ. unfold gc_alloc, jello_gc_alloc.
  eapply safe_mono; [apply (alloc_spec malloc m vm roots); try done|].
  - intros old q Hq%elem_of_children. cbn in Hq. rewrite Hc in Hq. by apply elem_of_nil in Hq.
  - cbn. intros p vm' (g' & -> & R). apply HQ; [apply (ar_addr _ _ _ _ _ _ R)|].
    destruct (ar_obj _ _ _ _ _ _ R) as (old & E). unfold obj_at. by rewrite E.
Qed.

Lemma deref_box g p o vm : obj_at g p = Some o -> deref p (set_gc g vm) = Ret o (set_gc g vm).
Proof. intros E. unfold deref, mbind, M_bind, get_gc, must. cbn. by rewrite E. Qed.

Lemma safe_store n f rf ks r k v vm (Q : () -> jello_vm -> Prop) :
  frame_of m f rf ks vm -> ks @! r = Some k -> n = width_of k ->
  (forall vm', frame_of m f rf ks vm' -> reg rf ks r vm' = wrapU (8 * jello_slot_size k) v ->
    (forall r', r' <> r -> reg rf ks r' vm' = reg rf ks r' vm) -> Q () vm') ->
  safe (store_reg n rf r v) vm Q.
Proof. intros. eapply wp_safe, wp_store; eauto. Qed.

Lemma safe_load n f rf ks r k vm Q :
  frame_of m f rf ks vm -> ks @! r = Some k -> n = width_of k ->
  Q (reg rf ks r vm) vm -> safe (load_reg n rf r) vm Q.
Proof. intros. eapply wp_safe, wp_load; eauto. Qed.

Lemma safe_ret {A} (a : A) vm (Q : A -> jello_vm -> Prop) : Q a vm -> safe (mret a) vm Q.
Proof. done. Qed.

Lemma safe_must {A} (o : option A) a vm (Q : A -> jello_vm -> Prop) :
  o = Some a -> Q a vm -> safe (must o) vm Q.
Proof. intros ->. done. Qed.

(** The box predicates on an allocated box. *)
Lemma is_box_at g p o v0 :
  p mod 8 = 0 -> obj_at g p = Some o -> let vm := set_gc g v0 in
  jello_is_box_i64 p vm = Ret (match o with HBoxI64 _ x => Some x | _ => None end) vm /\
  jello_is_box_f64 p vm = Ret (match o with HBoxF64 _ x => Some x | _ => None end) vm /\
  jello_is_box_f32 p vm = Ret (match o with HBoxF32 _ x => Some x | _ => None end) vm /\
  jello_is_box_f16 p vm = Ret (match o with HBoxF16 _ x => Some x | _ => None end) vm.
Proof.
  intros Hp E vm. destruct (ptr_flags p Hp) as (Ht & _).
  unfold jello_is_box_i64, jello_is_box_f64, jello_is_box_f32, jello_is_box_f16, mbind, M_bind.
  rewrite Ht. unfold vm. by rewrite (deref_box _ _ _ _ E).
Qed.

Lemma safe_run {A B} (c : M A) (c' : A -> M B) vm a vm' Q :
  c vm = Ret a vm' -> safe (c' a) vm' Q -> safe (c ≫= c') vm Q.
Proof. intros E H. apply safe_bind. unfold safe at 1. by rewrite E. Qed.
End Roundtrip.

Lemma wrapU_32_id k x : jello_slot_size k = 4 -> is_u 32 x -> wrapU (8 * jello_slot_size k) x = x.
Proof. intros -> H. by apply wrapU_id. Qed.


Section Claim.
Context (malloc : gc_state -> Z -> option Z) (m : jello_bc_module) (nan32 nan64 : Z).

(** The allocator has a block of [n] bytes, now and after a collection. *)
Definition has_memory (n : Z) (vm : jello_vm) : Prop :=
  forall g, g = v_gc vm \/ jello_gc_collect m vm = Ret () (set_gc g vm) -> is_Some (malloc g n).

Lemma collect_shape vm : jello_gc_collect m vm = Crash \/ exists g, jello_gc_collect m vm = Ret () (set_gc g vm).
Proof. unfold jello_gc_collect. case_match; [right; by eexists | by left]. Qed.

Lemma take_block_some g total init : is_Some (malloc g total) -> is_Some (gc_take_block malloc total init g).
Proof.
  intros [h E]. unfold gc_take_block. destruct (gc_box_free_pop _ _) as [[[? ?] ?]|]; [by eexists|].
  rewrite E. by eexists.
Qed.

Lemma alloc_no_panic sz o vm : has_memory (sizeof_gc_hdr + sz) vm -> gc_alloc malloc m sz o vm <> Panic.
Proof.
  intros Hm. unfold gc_alloc, jello_gc_alloc, jello_gc_alloc_recycled.
  assert (Htake : forall g, is_Some (malloc g (sizeof_gc_hdr + sz)) ->
    (g0 ← get_gc; match gc_take_block malloc (sizeof_gc_hdr + sz) (fun _ => o) g0 with
      | Some (h, g') => _ ← put_gc g'; mret h | None => panic end) (set_gc g vm) <> Panic).
  { intros g Hg. unfold mbind at 1, M_bind, get_gc. cbn. destruct (take_block_some g _ (fun _ => o) Hg) as [[h g'] ->]. done. }
  assert (vm = set_gc (v_gc vm) vm) as E0 by by destruct vm.
  unfold mbind at 1, M_bind at 1, get_gc at 1. cbn beta iota.
  destruct (negb _ && _).
  - destruct (collect_shape vm) as [E | [g E]]; unfold mbind at 1, M_bind at 1; rewrite E; [done|].
    apply Htake, Hm. by right.
  - unfold mbind at 1, M_bind at 1, mret at 1, M_ret at 1. rewrite E0. apply Htake, Hm. by left.
Qed.

Lemma safe_wp {A} (c : M A) vm Q : safe c vm Q -> c vm <> Panic -> wp c vm Q.
Proof. unfold safe, wp. by destruct (c vm). Qed.

Section Boxing.
Context (vm : jello_vm).
Hypothesis Hmalloc : malloc_ok malloc.
Hypothesis Hg : heap_good m vm.
Hypothesis Hm : has_memory (sizeof_gc_hdr + sizeof_box) vm.

Lemma wp_alloc_box o (Q : Z -> jello_vm -> Prop) : children o = [] ->
  (forall p g', p mod 8 = 0 -> is_u 64 p -> obj_at g' p = Some o -> Q p (set_gc g' vm)) ->
  wp (gc_alloc malloc m sizeof_box o) vm Q.
Proof.
  intros Hc HQ. apply safe_wp; [|by apply alloc_no_panic].
  destruct Hg as (Hok & roots & Hr & Hnd). unfold gc_alloc, jello_gc_alloc.
  eapply safe_mono; [apply (alloc_spec malloc m vm roots); try done|].
  - intros old q Hq%elem_of_children. cbn in Hq. rewrite Hc in Hq. by apply elem_of_nil in Hq.
  - cbn. intros p vm' (g' & -> & R). destruct (ar_obj _ _ _ _ _ _ R) as (old & E).
    destruct (ar_addr _ _ _ _ _ _ R) as [Hp1 Hp2].
    apply HQ; [exact Hp2 | unfold is_u; lia |]. unfold obj_at. by rewrite E.
Qed.

(** The steps all kinds share. *)
Ltac load_with H Hs := apply wp_bind; eapply wp_load; [exact H | exact Hs | done |]; cbv beta.
Ltac store_with H Hd := eapply wp_store; [exact H | exact Hd | done |]; intros vm' _ -> _.
(** Box, then enter the store. *)
Ltac through_box :=
  apply wp_alloc_box; [done|]; intros p g' Hp Hpu Ho; eapply wp_run; [done|];
  destruct (ptr_flags p Hp) as (Fp & Fi & Fn & _); destruct (is_box_at g' p _ vm Hp Ho) as (B1 & B2 & B3 & B4).

(** The signed and unsigned images of a word. *)
Lemma u_of_s w x : 0 < w -> is_u w x -> wrapU w (wrapS w x) = x.
Proof. intros Hw Hx. rewrite wrapU_wrapS by done. by apply wrapU_id. Qed.

Context (f1 : jello_bc_function) (rf1 : reg_frame) (ks1 : list jello_type_kind) (src : Z).
Context (f2 : jello_bc_function) (rf2 : reg_frame) (ks2 : list jello_type_kind) (dst : Z).
Context (tid : Z).
Hypothesis Hb : Forall is_byte (frame_stack (v_stack vm)).
Hypothesis H1 : frame_of m f1 rf1 ks1 vm.
Hypothesis H2 : frame_of m f2 rf2 ks2 vm.
Hypothesis Ht : f_reg_types f1 @! src = Some tid.

Abbreviation x := (reg rf1 ks1 src vm).

Lemma wp_store_gc n r k v g (Q : () -> jello_vm -> Prop) :
  ks2 @! r = Some k -> n = width_of k ->
  (forall vm', v_gc vm' = g -> reg rf2 ks2 r vm' = wrapU (8 * jello_slot_size k) v -> Q () vm') ->
  wp (store_reg n rf2 r v) (set_gc g vm) Q.
Proof.
  intros Hk Hn HQ. unfold wp.
  destruct (store_reg_spec (set_gc g vm) rf2 ks2 (proj1 H2) n r k v Hk Hn) as (mem' & -> & E1 & _ & E2 & _). by apply HQ.
Qed.

(** The kinds boxed as i32 immediates. *)
Lemma int_case k : ks2 @! dst = Some k -> is_u 32 x -> (k = JELLO_T_I8 \/ k = JELLO_T_I16 \/ k = JELLO_T_I32) ->
  wp (store_boxed_i32 rf2 dst (jello_make_i32 (i32 x))) vm (fun _ vm' => reg rf2 ks2 dst vm' = x).
Proof.
  intros Hd Hu Hk. unfold store_boxed_i32. destruct (i32_flags (i32 x)) as (F1 & F2 & F3 & F4). rewrite F1, F2, F4.
  eapply wp_store; [exact H2 | exact Hd | by destruct Hk as [-> | [-> | ->]]|]. intros vm' _ -> _.
  rewrite wrapS_idemp by lia. assert (jello_slot_size k = 4) as -> by by destruct Hk as [-> | [-> | ->]].
  rewrite wrapU_idemp by lia. by apply u_of_s.
Qed.

(** The kinds boxed as pointers. *)
Lemma ptr_case k : ks2 @! dst = Some k -> is_u 64 x -> x mod 8 = 0 -> jello_slot_size k = 8 ->
  wp (if jello_is_null (if x =? 0 then jello_make_null else x) then vm_store_ptr rf2 dst 0 else
      _ ← panic_if (negb (jello_is_ptr (if x =? 0 then jello_make_null else x)));
      vm_store_ptr rf2 dst (if x =? 0 then jello_make_null else x)) vm (fun _ vm' => reg rf2 ks2 dst vm' = x).
Proof.
  intros Hd Hu Hc Hk. destruct (ptr_flags x Hc) as (F1 & F2 & F3 & _).
  assert (8%nat = width_of k) as Hw by (unfold width_of; rewrite Hk; done).
  destruct (Z.eqb_spec x 0) as [E0|]; [|rewrite F3, F1; eapply wp_run; [done|]];
    (eapply wp_store; [exact H2 | exact Hd | exact Hw |]); intros vm' _ -> _; rewrite Hk; [by rewrite E0 | by apply wrapU_id].
Qed.

(** The copy of a number held by a Dynamic register. *)
Lemma clone_case : ks2 @! dst = Some JELLO_T_DYNAMIC -> is_u 64 x -> boxable JELLO_T_DYNAMIC (v_gc vm) x ->
  wp (v' ← vm_clone_numbox malloc m x; vm_store_val rf2 dst v') vm (fun _ vm' =>
    match (if jello_is_ptr x then obj_at (v_gc vm) x else None) with
    | Some o => if is_numbox o then obj_at (v_gc vm') (reg rf2 ks2 dst vm') = Some o else reg rf2 ks2 dst vm' = x
    | None => reg rf2 ks2 dst vm' = x
    end).
Proof.
  intros Hd Hu Hc. cbn [boxable] in Hc. unfold vm_clone_numbox.
  destruct (jello_is_ptr x) eqn:Ep; cbn [negb].
  - destruct (Hc eq_refl) as (o & Ho). rewrite Ho. apply wp_bind.
    eapply wp_run; [unfold deref, mbind, M_bind, get_gc, must; by rewrite Ho|].
    destruct (is_numbox o) eqn:En.
    + assert (Hbox : wp (gc_alloc malloc m sizeof_box o) vm (fun p vm' => wp (vm_store_val rf2 dst p) vm'
        (fun _ vm' => obj_at (v_gc vm') (reg rf2 ks2 dst vm') = Some o))).
      { apply wp_alloc_box; [by destruct o|]. intros p g' Hp Hpu Hop. eapply wp_store_gc; [exact Hd | done|].
        intros vm' <- ->. by rewrite wrapU_id. }
      by destruct o.
    + assert (Hsame : wp (mret x) vm (fun p vm' => wp (vm_store_val rf2 dst p) vm' (fun _ vm' => reg rf2 ks2 dst vm' = x))).
      { apply wp_ret. store_with H2 Hd. by apply wrapU_id. }
      by destruct o.
  - apply wp_bind, wp_ret. store_with H2 Hd. by apply wrapU_id.
Qed.

Lemma box_spec k : ks1 @! src = Some k -> ks2 @! dst = Some k -> boxable k (v_gc vm) x ->
  wp (v ← vm_box_from_typed malloc m f1 rf1 src; vm_store_from_boxed malloc m nan32 nan64 f2 rf2 dst v) vm
    (fun _ vm' => arrives k (v_gc vm) (v_gc vm') x (reg rf2 ks2 dst vm')).
Proof.
  intros Hs Hd Hc. pose proof (reg_is_u rf1 ks1 src vm k Hb Hs) as Hu.
  pose proof (proj2 H1 src k Hs) as K1. pose proof (proj2 H2 dst k Hd) as K2.
  apply wp_bind. unfold vm_box_from_typed. rewrite K1, Ht.
  unfold vm_store_from_boxed. rewrite K2. cbn [must].
  eapply wp_run; [done|]. eapply wp_run; [done|].
  assert (Hbox : forall g', frame_of m f2 rf2 ks2 (set_gc g' vm)) by (intros; exact H2).
  destruct k eqn:Ek; cbn [boxable arrives] in *; cbn [jello_slot_size] in Hu.
  - (* BOOL *)
    load_with H1 Hs. apply wp_ret. eapply wp_run; [done|]. destruct (x =? 0); (eapply wp_run; [done|]); by store_with H2 Hd.
  - (* ATOM *)
    load_with H1 Hs. apply wp_ret. eapply wp_run; [done|]. destruct (atom_flags x Hu) as (Fa & Fx & _). rewrite Fa, Fx.
    eapply wp_run; [done|]. store_with H2 Hd. by apply wrapU_id.
  - load_with H1 Hs. apply wp_ret. eapply wp_run; [done|]. eapply int_case; eauto.
  - load_with H1 Hs. apply wp_ret. eapply wp_run; [done|]. eapply int_case; eauto.
  - load_with H1 Hs. apply wp_ret. eapply wp_run; [done|]. eapply int_case; eauto.
  - (* I64 *)
    apply wp_bind. load_with H1 Hs. apply wp_ret. through_box. unfold store_boxed_i64. rewrite Fi, Fn.
    eapply wp_run; [exact B2|]. eapply wp_run; [exact B1|]. store_with (Hbox g') Hd.
    rewrite wrapU_idemp by lia. by apply u_of_s.
  - (* F16 *)
    apply wp_bind. load_with H1 Hs. apply wp_ret. through_box. unfold store_boxed_f16. rewrite Fi, Fn.
    eapply wp_run; [exact B2|]. eapply wp_run; [exact B4|]. store_with (Hbox g') Hd.
    change 0xFFFF with (Z.ones 16). rewrite Z.land_ones by lia. change (x mod 2 ^ 16) with (u16 x).
    assert (is_u 16 (u16 x)) as Hx by (apply wrapU_range; lia).
    rewrite (wrapU_id 16 _ Hx). apply wrapU_id. unfold is_u in *. change (2 ^ 16) with 65536 in *.
    change (2 ^ (8 * jello_slot_size JELLO_T_F16)) with 4294967296. lia.
  - (* F32 *)
    load_with H1 Hs. through_box. unfold store_boxed_f32. rewrite Fi, Fn.
    eapply wp_run; [exact B2|]. eapply wp_run; [exact B3|]. store_with (Hbox g') Hd. by apply wrapU_id.
  - (* F64 *)
    load_with H1 Hs. through_box. unfold store_boxed_f64. rewrite Fi, Fn.
    eapply wp_run; [exact B3|]. eapply wp_run; [exact B2|]. store_with (Hbox g') Hd. by apply wrapU_id.
  - load_with H1 Hs. apply wp_ret. eapply wp_run; [done|]. eapply ptr_case; eauto.
  - load_with H1 Hs. apply wp_ret. eapply wp_run; [done|]. eapply ptr_case; eauto.
  - load_with H1 Hs. apply wp_ret. eapply wp_run; [done|]. eapply ptr_case; eauto.
  - load_with H1 Hs. apply wp_ret. eapply wp_run; [done|]. eapply ptr_case; eauto.
  - load_with H1 Hs. apply wp_ret. eapply wp_run; [done|]. eapply ptr_case; eauto.
  - load_with H1 Hs. apply wp_ret. eapply wp_run; [done|]. eapply ptr_case; eauto.
  - (* DYNAMIC *)
    eapply wp_load; [exact H1 | exact Hs | done|]. cbv beta. eapply wp_run; [done|]. by apply clone_case.
  - load_with H1 Hs. apply wp_ret. eapply wp_run; [done|]. eapply ptr_case; eauto.
Qed.
End Boxing.

End Claim.

(** ** Storing in place *)

(** What [vm_store_num_inplace] does to a slot that holds [cur] (an object [o] if
    it is a pointer) for a register of kind [k] with contents [x]. *)
Inductive inplace : Type :=
| InBox (o' : hobj)      (* the box is overwritten, the slot keeps its word *)
| NewWord (w : Z)        (* the slot gets another word *)
| NotDone.

Definition inplace_spec (k : jello_type_kind) (x cur : Z) (o : option hobj) : inplace :=
  match k, o with
  | JELLO_T_F64, Some (HBoxF64 t _) => InBox (HBoxF64 t x)
  | JELLO_T_F32, Some (HBoxF32 t _) => InBox (HBoxF32 t x)
  | JELLO_T_F16, Some (HBoxF16 t _) => InBox (HBoxF16 t (u16 (Z.land x 0xFFFF)))
  | JELLO_T_I64, Some (HBoxI64 t _) => InBox (HBoxI64 t (i64 x))
  | (JELLO_T_I8 | JELLO_T_I16 | JELLO_T_I32), Some (HBoxI64 _ y) => NewWord (jello_make_i32 (i32 y))
  | (JELLO_T_I8 | JELLO_T_I16 | JELLO_T_I32), _ =>
      if jello_is_i32 cur then NewWord (jello_make_i32 (i32 x)) else NotDone
  | _, _ => NotDone
  end.

Definition inplace_done (d : inplace) (cur : Z) (vm : jello_vm) (res : option Z) (vm' : jello_vm)
    : Prop :=
  match d with
  | InBox o' => res = Some cur /\ obj_at (v_gc vm') cur = Some o' /\
      (forall q, q <> cur -> obj_at (v_gc vm') q = obj_at (v_gc vm) q)
  | NewWord w => res = Some w /\ vm' = vm
  | NotDone => res = None /\ vm' = vm
  end.

Lemma is_box_of vm cur o :
  (if jello_is_ptr cur then obj_at (v_gc vm) cur = o /\ is_Some o else o = None) ->
  jello_is_box_i64 cur vm = Ret (match o with Some (HBoxI64 _ x) => Some x | _ => None end) vm /\
  jello_is_box_f64 cur vm = Ret (match o with Some (HBoxF64 _ x) => Some x | _ => None end) vm /\
  jello_is_box_f32 cur vm = Ret (match o with Some (HBoxF32 _ x) => Some x | _ => None end) vm /\
  jello_is_box_f16 cur vm = Ret (match o with Some (HBoxF16 _ x) => Some x | _ => None end) vm.
Proof.
  unfold jello_is_box_i64, jello_is_box_f64, jello_is_box_f32, jello_is_box_f16, deref, mbind, M_bind,
    get_gc, must. destruct (jello_is_ptr cur); [|by intros ->].
  intros [E [ob ->]]. rewrite E. by destruct ob.
Qed.

Lemma write_obj_spec vm p o o' :
  obj_at (v_gc vm) p = Some o ->
  exists g, write_obj p o' vm = Ret () (set_gc g vm) /\ obj_at g p = Some o' /\
    forall q, q <> p -> obj_at g q = obj_at (v_gc vm) q.
Proof.
  unfold obj_at. destruct (cells (v_gc vm) !! p) as [c|] eqn:E; [|done]. intros _.
  eexists. split; [unfold write_obj, mbind, M_bind, get_gc, must; by rewrite E|]. split.
  - cbn. by rewrite lookup_insert_eq.
  - intros q Hq. cbn. by rewrite lookup_insert_ne.
Qed.

Lemma i32_not_ptr v : jello_is_i32 v = true -> jello_is_ptr v = false.
Proof. unfold jello_is_i32, jello_is_ptr, has_tag. intros H. bool_hyps. by rewrite H. Qed.

(** The store of a number into its matching box. *)
Ltac box_branch HF Hk Hob :=
  match goal with |- wp (_ ← deref ?cur; _) ?vm _ =>
    pose proof (Hob _ eq_refl) as Ecur;
    eapply wp_run; [unfold deref, mbind, M_bind, get_gc, must; rewrite Ecur; reflexivity|]
  end;
  apply wp_bind;
  first [ eapply wp_load; [exact HF | exact Hk | reflexivity |]
        | apply wp_bind; eapply wp_load; [exact HF | exact Hk | reflexivity |]; apply wp_ret ];
  match goal with E : obj_at (v_gc ?vm) ?p = Some _ |- wp (_ ← write_obj ?p ?o'; _) ?vm _ =>
    destruct (write_obj_spec vm p _ o' E) as (g & Ew & Hg1 & Hg2);
    eapply wp_run; [exact Ew|]; apply wp_ret; done
  end.

Ltac box_kind HF Hk Hob B :=
  eapply wp_run; [exact B|]; match goal with o : option hobj |- _ => destruct o as [[]|] end;
  try (by apply wp_ret); box_branch HF Hk Hob.

Ltac int_kind HF Hk Ho B1 :=
  match goal with |- wp (if ?b then _ else _) _ _ => destruct b eqn:? end;
  match goal with
  | E : jello_is_i32 ?cur = true |- _ =>
      rewrite (i32_not_ptr _ E) in Ho; cbn iota in Ho; subst;
      apply wp_bind; eapply wp_load; [exact HF | exact Hk | reflexivity |]; apply wp_ret;
      cbn [inplace_spec]; rewrite E; done
  | E : jello_is_i32 ?cur = false |- _ =>
      eapply wp_run; [exact B1|]; match goal with o : option hobj |- _ => destruct o as [[]|] end;
      apply wp_ret; cbn [inplace_spec]; rewrite ?E; done
  end.

(** Storing a numeric register over an object field or array element without a
    new box: a float or an i64 overwrites the payload of a box of its kind and
    nothing else; an i32 replaces an immediate by its value; every other case is
    left to the caller.  But an i32 stored over a box of an i64 puts the OLD
    number, truncated, into the slot: the value of the register is lost. *)
Theorem store_num_inplace_spec m f rf ks src k cur o vm :
  frame_of m f rf ks vm -> ks @! src = Some k ->
  (if jello_is_ptr cur then obj_at (v_gc vm) cur = o /\ is_Some o else o = None) ->
  wp (vm_store_num_inplace m f rf src cur) vm
    (inplace_done (inplace_spec k (reg rf ks src vm) cur o) cur vm).
Proof.
  intros HF Hk Ho. pose proof (proj2 HF src k Hk) as K.
  destruct (is_box_of vm cur o Ho) as (B1 & B2 & B3 & B4).
  unfold vm_store_num_inplace. rewrite K. eapply wp_run; [done|].
  assert (Hob : forall ob, o = Some ob -> obj_at (v_gc vm) cur = Some ob).
  { intros ob ->. destruct (jello_is_ptr cur); [by destruct Ho | done]. }
  destruct k; try (by apply wp_ret).
  - int_kind HF Hk Ho B1.
  - int_kind HF Hk Ho B1.
  - int_kind HF Hk Ho B1.
  - box_kind HF Hk Hob B1.
  - box_kind HF Hk Hob B4.
  - box_kind HF Hk Hob B3.
  - box_kind HF Hk Hob B2.
Qed.

(** ** A concrete frame

    Two I64 registers and an I32 register; the first holds -5, the last 9. *)

Definition box_module : jello_bc_module :=
  mk_module 1 0 2 [mk_type_entry JELLO_T_I64 0; mk_type_entry JELLO_T_I32 0] 0 [] 0 [] false
    0 [] 0 [] 0 [] [] [] 0 [] 0 0 [].

Definition box_function : jello_bc_function := mk_function 3 0 [0; 0; 1] 0 [] 0 [] 0.
Definition box_rf : reg_frame := mk_rf (Some 0) [0; 8; 16] 3 20 true.
Definition box_kinds : list jello_type_kind := [JELLO_T_I64; JELLO_T_I64; JELLO_T_I32].

Definition box_vm : jello_vm :=
  set_stack (mk_stack [] 0 0 (le_bytes 8 (u64 (-5)) ++ le_bytes 8 0 ++ le_bytes 4 9) 20 [] 0) demo_vm.

Lemma box_frame : frame_of box_module box_function box_rf box_kinds box_vm.
Proof.
  split.
  - constructor; [done | apply slots_layout_ok; vm_compute; repeat split; done|].
    intros r Hr. exists 0. vm_compute. repeat split; discriminate.
  - intros r k (n & -> & Hk)%znth_inv. do 3 (destruct n as [|n]; [by injection Hk as <-|]). done.
Qed.

Lemma box_heap_good : heap_good box_module box_vm.
Proof.
  split; [exact demo_heap_ok|]. exists [16]. split; [reflexivity | exact demo_no_dangling].
Qed.

Lemma box_memory : has_memory bump_malloc box_module (sizeof_gc_hdr + sizeof_box) box_vm.
Proof.
  assert (H : is_Some (bump_malloc (v_gc (match jello_gc_collect box_module box_vm with Ret _ vm => vm | _ => box_vm end))
    (sizeof_gc_hdr + sizeof_box))) by (vm_compute; by eexists).
  intros g [-> | E]; [by vm_compute; eexists|]. rewrite E in H. exact H.
Qed.


(** The register holds 9, the box at 64 holds 5: the slot gets 5. *)
Lemma store_num_inplace_spec_witness :
  wp (vm_store_num_inplace box_module box_function box_rf 2 64) box_vm
    (inplace_done (NewWord (jello_make_i32 5)) 64 box_vm).
Proof.
  apply (store_num_inplace_spec box_module box_function box_rf box_kinds 2 JELLO_T_I32 64
    (Some (HBoxI64 4 5)) box_vm box_frame); [reflexivity|]. split; [reflexivity | by eexists].
Defined.
