(* ===== verification/Types.v ===== *)
(** * Constructors of heap objects

    Model of src/src/types (array.c, bytes.c, enum.c, function.c, list.c,
    abstract.c) and of [jello_object_new] of object.c on the collected heap.  A
    failing [malloc] or [realloc] aborts and is not modelled; [junk] is what fresh
    memory holds. *)

From S2P Require Import Prelude CInt Memory Bytecode Value Object Heap Vm Frame Float Gc Box.

Section Types.
Context (malloc : gc_state -> Z -> option Z) (m : jello_bc_module) (junk : Z).

Abbreviation alloc := (gc_alloc malloc m).

(** ** Bytes, lists, abstracts *)

Definition jello_bytes_new (type_id length : Z) : M Z :=
  alloc (sizeof_bytes + length) (HBytes type_id (replicate (Z.to_nat length) 0)).

Definition jello_list_cons (type_id head tail : Z) : M Z :=
  alloc sizeof_list (HList type_id head tail).

Definition jello_abstract_new_finalized (type_id payload finalizer : Z) : M Z :=
  alloc sizeof_abstract (HAbstract type_id payload finalizer).

Definition jello_abstract_new (type_id payload : Z) : M Z :=
  jello_abstract_new_finalized type_id payload 0.

(** ** Objects *)

Definition jello_object_alloc (type_id : Z) : M Z :=
  jello_gc_alloc_recycled malloc m jello_object_empty_alloc_bytes (fun old =>
    HObject (jello_object_new junk (match old with Some (HObject o) => Some o | _ => None end) type_id)).

(** ** Arrays *)

Definition jello_array_new (type_id length : Z) : M Z :=
  alloc sizeof_array (HArray type_id (replicate (Z.to_nat length) jello_make_null)).

Definition jello_array_default_elem (type_id : Z) : Z :=
  match m_types m @! type_id with
  | Some te =>
    if kind_eqb (te_kind te) JELLO_T_ARRAY then
      match te_kind <$> m_types m @! (te_as te) with
      | Some (JELLO_T_I8 | JELLO_T_I16 | JELLO_T_I32 | JELLO_T_I64) => jello_make_i32 0
      | Some (JELLO_T_F16 | JELLO_T_F32 | JELLO_T_F64) => jello_make_null
      | Some JELLO_T_BOOL => jello_make_bool false
      | _ => jello_make_null
      end
    else jello_make_null
  | None => jello_make_null
  end.

(** The elements after a resize. *)
Definition resize_data (type_id : Z) (data : list Z) (new_len : Z) : list Z :=
  take (Z.to_nat new_len) data ++
  replicate (Z.to_nat (new_len - zlen data)) (jello_array_default_elem type_id).

Definition jello_array_resize (a new_len : Z) : M bool :=
  if a =? 0 then mret false else
  l ← get_limits;
  if negb (max_array_len l =? 0) && (max_array_len l <? new_len) then mret false else
  o ← deref a;
  match o with
  | HArray t data =>
    if new_len =? zlen data then mret true
    else _ ← write_obj a (HArray t (resize_data t data new_len)); mret true
  | _ => crash
  end.

(** ** Enums *)

Definition jello_enum_new (type_id tag : Z) (fields : list Z) : M Z :=
  alloc (sizeof_enum + 8 * zlen fields) (HEnum type_id tag fields).

Definition ENUM_NULLARY_TAGS : Z := 256.

Definition put_enum_cache (ec : list (option (list Z))) : M () :=
  g ← get_gc; put_gc (set_caches (const_fun_cache g) (const_bytes_cache g) ec g).

Definition vm_enum_nullary_cache_clear : M () := put_enum_cache [].

Definition vm_enum_nullary_cache_init (ntypes : Z) : M () :=
  put_enum_cache (replicate (Z.to_nat ntypes) None).

(** The 256 slots of a type, made on first use. *)
Definition enum_nullary_type_table (type_id : Z) : M (option (list Z)) :=
  g ← get_gc;
  if zlen (enum_nullary_by_type g) <=? type_id then mret None else
  t ← must (enum_nullary_by_type g @! type_id);
  match t with
  | Some slots => mret (Some slots)
  | None =>
    let slots := replicate (Z.to_nat ENUM_NULLARY_TAGS) 0 in
    _ ← put_enum_cache ((enum_nullary_by_type g) @[type_id := Some slots]);
    mret (Some slots)
  end.

Definition jello_enum_nullary_intern (type_id tag : Z) : M Z :=
  if ENUM_NULLARY_TAGS <=? tag then jello_enum_new type_id tag [] else
  t ← enum_nullary_type_table type_id;
  match t with
  | None => jello_enum_new type_id tag []
  | Some slots =>
    p ← must (slots @! tag);
    if negb (p =? 0) then mret p else
    e ← jello_enum_new type_id tag [];
    g ← get_gc;
    _ ← put_enum_cache ((enum_nullary_by_type g) @[type_id := Some (slots @[tag := e])]);
    mret e
  end.

(** ** Functions *)

Definition jello_function_new (type_id func_index : Z) : M Z :=
  alloc sizeof_function (HFunction type_id func_index jello_make_null []).

Definition jello_closure_new (type_id func_index : Z) (caps : list Z) : M Z :=
  alloc (sizeof_function + 8 * zlen caps) (HFunction type_id func_index jello_make_null caps).

Definition jello_closure_new_raw (type_id func_index ncaps : Z) (raw : list Z) : M Z :=
  alloc (sizeof_function + zlen raw) (HFunctionRaw type_id func_index jello_make_null ncaps raw).

Definition jello_function_bind_this (type_id f bound_this : Z) : M Z :=
  o ← deref f;
  match o with
  | HFunctionRaw _ fi _ n raw =>
    alloc (sizeof_function + zlen raw) (HFunctionRaw type_id fi bound_this n raw)
  | HFunction _ fi _ caps =>
    alloc (sizeof_function + 8 * zlen caps) (HFunction type_id fi bound_this caps)
  | _ => crash
  end.
End Types.
