(* ===== verification/Ops.v ===== *)
(** * Opcode handlers: context and register updates

    [exec_ctx] and [op_result] of src/src/include/jello/internal/vm_internal.h and
    the laws of register updates the handler theorems share.  A handler gets the
    function, the index of the frame and the register frame ([fr->rf]: a copy is
    as good as the pointer, since moving the frame stack changes no offset). *)

From S2P Require Import Prelude CInt Memory Bytecode Value Vm Frame FrameFacts.

(** [OP_RETURN] carries what the handler has written to [*ctx->out] and, when it is
    captured, to [*ctx->out_exports]: both are written nowhere else. *)
Inductive op_result : Set :=
| OP_CONTINUE
| OP_RETURN (out : Z) (exports : option Z)
| OP_TRAP.

Record exec_ctx : Set := mk_ctx {
  cx_f : jello_bc_function;
  cx_fr : Z;                   (* fr - frames *)
  cx_rf : reg_frame;
  cx_exports : option Z        (* entry_module_idx, None: out_exports is NULL *)
}.

Definition op_handler : Type := exec_ctx -> jello_insn -> M op_result.

(** [(int32_t)(int8_t)ins->c]. *)
Definition imm_c (ins : jello_insn) : Z := i8 (i_c ins).

(** ** Storing a register as a function of the state *)

Definition with_reg (n : nat) (rf : reg_frame) (r v : Z) (vm : jello_vm) : jello_vm :=
  match (a ← vm_reg_ptr rf r; mem_store n (frame_stack (v_stack vm)) a v) with
  | Some mem => set_stack (set_mem mem (v_stack vm)) vm
  | None => vm
  end.

Section Update.
Context (rf : reg_frame) (ks : list jello_type_kind) (vm : jello_vm).
Hypothesis Hrf : rf_ok (frame_stack (v_stack vm)) rf ks.

Lemma load_reg_run n r k :
  ks @! r = Some k -> n = width_of k -> load_reg n rf r vm = Ret (reg rf ks r vm) vm.
Proof. intros. by apply (load_reg_spec vm rf ks Hrf n r k). Qed.

Lemma with_reg_inv n r k v :
  ks @! r = Some k -> n = width_of k ->
  exists a mem', vm_reg_ptr rf r = Some a /\ mem_store n (frame_stack (v_stack vm)) a v = Some mem' /\
  with_reg n rf r v vm = set_stack (set_mem mem' (v_stack vm)) vm.
Proof.
  intros Hk ->. destruct (rf_slot _ _ _ _ _ Hrf Hk) as (a & Ha & H0 & H1).
  destruct (mem_store_Some (width_of k) (frame_stack (v_stack vm)) a v) as [mem' E];
    [done | by rewrite width_of_slot|].
  exists a, mem'. split_and!; [done | done|]. unfold with_reg. rewrite Ha. cbn. by rewrite E.
Qed.

Lemma store_reg_run n r k v :
  ks @! r = Some k -> n = width_of k -> store_reg n rf r v vm = Ret () (with_reg n rf r v vm).
Proof.
  intros Hk Hn. destruct (with_reg_inv n r k v Hk Hn) as (a & mem' & Ha & E & ->).
  unfold store_reg, mbind, M_bind, get_stack, put_stack, must. by rewrite Ha, E.
Qed.

Lemma reg_with_same n r k v :
  ks @! r = Some k -> n = width_of k ->
  reg rf ks r (with_reg n rf r v vm) = wrapU (8 * jello_slot_size k) v.
Proof.
  intros Hk Hn. destruct (with_reg_inv n r k v Hk Hn) as (a & mem' & Ha & E & ->).
  unfold reg, reg_at. cbn. rewrite Hk, Ha, <- Hn.
  rewrite (mem_load_store_same _ _ _ _ _ E). cbn. by rewrite Hn, width_of_slot.
Qed.

Lemma reg_with_other n r k v r' :
  ks @! r = Some k -> n = width_of k -> r' <> r ->
  reg rf ks r' (with_reg n rf r v vm) = reg rf ks r' vm.
Proof.
  intros Hk Hn Hne. destruct (with_reg_inv n r k v Hk Hn) as (a & mem' & Ha & E & ->).
  unfold reg, reg_at. cbn. destruct (ks @! r') as [k'|] eqn:Hk'; [|done].
  destruct (vm_reg_ptr rf r') as [a'|] eqn:Ha'; [|done].
  rewrite (mem_load_store_other _ _ _ _ _ _ _ E); [done|]. rewrite Hn, !width_of_slot.
  exact (rf_slots_disjoint _ _ _ r' r _ _ _ _ Hrf Hne Hk' Hk Ha' Ha).
Qed.
End Update.

(** A register store changes the bytes of the frame stack and nothing else. *)
Lemma with_reg_shape n rf r v vm :
  exists mem', with_reg n rf r v vm = set_stack (set_mem mem' (v_stack vm)) vm /\
    zlen mem' = zlen (frame_stack (v_stack vm)).
Proof.
  unfold with_reg. destruct (vm_reg_ptr rf r) as [a|]; cbn.
  - destruct (mem_store _ _ _ _) as [mem'|] eqn:E.
    + exists mem'. split; [done|]. by eapply zlen_mem_store.
    + exists (frame_stack (v_stack vm)). by destruct vm as [[] ? ? ? ? ?].
  - exists (frame_stack (v_stack vm)). by destruct vm as [[] ? ? ? ? ?].
Qed.

Lemma frame_of_with_reg m f rf ks rf' n r v vm :
  frame_of m f rf ks vm -> frame_of m f rf ks (with_reg n rf' r v vm).
Proof.
  intros [Hrf Hk]. split; [|done]. destruct (with_reg_shape n rf' r v vm) as (mem' & -> & Hz). cbn.
  destruct Hrf as [H1 H2 H3]. constructor; [done..|]. intros r' Hr'.
  destruct (H3 r' Hr') as (b & Hb & H0 & Ht). exists b. by rewrite Hz.
Qed.

(** The registers of [rf] after a handler that writes at most register [a]. *)
Definition writes_reg (rf : reg_frame) (ks : list jello_type_kind) (a x : Z) (vm vm' : jello_vm) : Prop :=
  reg rf ks a vm' = x /\ (forall r, r <> a -> reg rf ks r vm' = reg rf ks r vm) /\
  exists mem', vm' = set_stack (set_mem mem' (v_stack vm)) vm /\
    zlen mem' = zlen (frame_stack (v_stack vm)).

Lemma with_reg_writes m f rf ks vm n r k v :
  frame_of m f rf ks vm -> ks @! r = Some k -> n = width_of k ->
  writes_reg rf ks r (wrapU (8 * jello_slot_size k) v) vm (with_reg n rf r v vm).
Proof.
  intros [Hrf _] Hk Hn. split_and!.
  - by apply reg_with_same.
  - intros r' Hne. by eapply reg_with_other.
  - apply with_reg_shape.
Qed.
