(* ===== verification/ArithOps.v ===== *)
(** * The handlers of src/src/vm/ops/ops_arith.c

    One definition per macro of the file, instantiated as the file does.  Floats
    are bit patterns; [nan32], [nan64] are the patterns of the NaNs that arithmetic
    and conversions produce and [nan16 s] that of [0.0f / 0.0f] times a sign.  A
    division by zero or of the least integer by -1 is undefined ([None]); shifting
    a negative signed integer to the left is taken as on two's complement, which
    is what the supported compilers define. *)

From S2P Require Import Prelude CInt Memory Bytecode Value Vm Frame Float Box FunCheck Ops.

Section Arith.
Context (m : jello_bc_module) (nan32 nan64 : Z) (nan16 : bool -> Z).

(** ** The macros *)

Definition OP_UN_I32_MASKED (expr : Z -> Z) : op_handler := fun ctx ins =>
  k ← must (vm_reg_kind m (cx_f ctx) (i_a ins));
  x ← vm_load_u32 (cx_rf ctx) (i_b ins);
  _ ← vm_store_u32_masked (cx_rf ctx) (i_a ins) (expr x) k;
  mret OP_CONTINUE.

Definition OP_UN_I64 (expr : Z -> Z) : op_handler := fun ctx ins =>
  x ← vm_load_i64 (cx_rf ctx) (i_b ins);
  _ ← vm_store_i64 (cx_rf ctx) (i_a ins) (i64 (expr (u64 x)));
  mret OP_CONTINUE.

Definition OP_UN_F32 (expr : Z -> Z) : op_handler := fun ctx ins =>
  x ← vm_load_f32 (cx_rf ctx) (i_b ins);
  _ ← vm_store_f32 (cx_rf ctx) (i_a ins) (expr x); mret OP_CONTINUE.

Definition OP_UN_F64 (expr : Z -> Z) : op_handler := fun ctx ins =>
  x ← vm_load_f64 (cx_rf ctx) (i_b ins);
  _ ← vm_store_f64 (cx_rf ctx) (i_a ins) (expr x); mret OP_CONTINUE.

Definition op_not_bool : op_handler := fun ctx ins =>
  x ← vm_load_u32 (cx_rf ctx) (i_b ins);
  _ ← vm_store_u32 (cx_rf ctx) (i_a ins) (Z.b2z (x =? 0)); mret OP_CONTINUE.

Definition OP_BIN_I32_MASKED (expr : Z -> Z -> option Z) : op_handler := fun ctx ins =>
  k ← must (vm_reg_kind m (cx_f ctx) (i_a ins));
  a ← vm_load_u32 (cx_rf ctx) (i_b ins);
  b ← vm_load_u32 (cx_rf ctx) (i_c ins);
  v ← must (expr a b);
  _ ← vm_store_u32_masked (cx_rf ctx) (i_a ins) v k;
  mret OP_CONTINUE.

Definition OP_BIN_I32_IMM_MASKED (expr : Z -> Z -> Z) : op_handler := fun ctx ins =>
  k ← must (vm_reg_kind m (cx_f ctx) (i_a ins));
  a ← vm_load_u32 (cx_rf ctx) (i_b ins);
  _ ← vm_store_u32_masked (cx_rf ctx) (i_a ins) (expr a (u32 (imm_c ins))) k;
  mret OP_CONTINUE.

Definition OP_BIN_F32 (expr : Z -> Z -> Z) : op_handler := fun ctx ins =>
  a ← vm_load_f32 (cx_rf ctx) (i_b ins); b ← vm_load_f32 (cx_rf ctx) (i_c ins);
  _ ← vm_store_f32 (cx_rf ctx) (i_a ins) (expr a b); mret OP_CONTINUE.

Definition OP_BIN_F64 (expr : Z -> Z -> Z) : op_handler := fun ctx ins =>
  a ← vm_load_f64 (cx_rf ctx) (i_b ins); b ← vm_load_f64 (cx_rf ctx) (i_c ins);
  _ ← vm_store_f64 (cx_rf ctx) (i_a ins) (expr a b); mret OP_CONTINUE.

Definition load_f16 (rf : reg_frame) (r : Z) : M Z :=
  bits ← vm_load_f16_bits rf r; must (vm_f16_bits_to_f32 nan16 bits).

Definition OP_BIN_F16 (expr : Z -> Z -> Z) : op_handler := fun ctx ins =>
  a ← load_f16 (cx_rf ctx) (i_b ins); b ← load_f16 (cx_rf ctx) (i_c ins);
  _ ← vm_store_f16_bits (cx_rf ctx) (i_a ins) (vm_f32_to_f16_bits (expr a b));
  mret OP_CONTINUE.

Definition OP_BIN_I64 (expr : Z -> Z -> option Z) : op_handler := fun ctx ins =>
  a ← vm_load_i64 (cx_rf ctx) (i_b ins); b ← vm_load_i64 (cx_rf ctx) (i_c ins);
  v ← must (expr (u64 a) (u64 b));
  _ ← vm_store_i64 (cx_rf ctx) (i_a ins) (i64 v); mret OP_CONTINUE.

Definition OP_CMP_I32 (expr : Z -> Z -> bool) : op_handler := fun ctx ins =>
  a ← vm_load_i32ish (cx_rf ctx) (i_b ins); b ← vm_load_i32ish (cx_rf ctx) (i_c ins);
  _ ← vm_store_u32 (cx_rf ctx) (i_a ins) (Z.b2z (expr a b)); mret OP_CONTINUE.

Definition OP_CMP_I32_IMM (expr : Z -> Z -> bool) : op_handler := fun ctx ins =>
  a ← vm_load_i32ish (cx_rf ctx) (i_b ins);
  _ ← vm_store_u32 (cx_rf ctx) (i_a ins) (Z.b2z (expr a (imm_c ins))); mret OP_CONTINUE.

Definition OP_CMP_F32 (expr : Z -> Z -> bool) : op_handler := fun ctx ins =>
  a ← vm_load_f32 (cx_rf ctx) (i_b ins); b ← vm_load_f32 (cx_rf ctx) (i_c ins);
  _ ← vm_store_u32 (cx_rf ctx) (i_a ins) (Z.b2z (expr a b)); mret OP_CONTINUE.

Definition OP_CMP_F64 (expr : Z -> Z -> bool) : op_handler := fun ctx ins =>
  a ← vm_load_f64 (cx_rf ctx) (i_b ins); b ← vm_load_f64 (cx_rf ctx) (i_c ins);
  _ ← vm_store_u32 (cx_rf ctx) (i_a ins) (Z.b2z (expr a b)); mret OP_CONTINUE.

Definition OP_CMP_I64 (expr : Z -> Z -> bool) : op_handler := fun ctx ins =>
  a ← vm_load_i64 (cx_rf ctx) (i_b ins); b ← vm_load_i64 (cx_rf ctx) (i_c ins);
  _ ← vm_store_u32 (cx_rf ctx) (i_a ins) (Z.b2z (expr a b)); mret OP_CONTINUE.

(** ** Integer arithmetic *)

(** [x / y] and [x % y] on [w]-bit signed integers. *)
Definition c_div (w x y : Z) : option Z :=
  if (y =? 0) || ((x =? - 2 ^ (w - 1)) && (y =? -1)) then None else Some (Z.quot x y).
Definition c_rem (w x y : Z) : option Z :=
  if (y =? 0) || ((x =? - 2 ^ (w - 1)) && (y =? -1)) then None else Some (Z.rem x y).

Definition op_add_i32 := OP_BIN_I32_MASKED (fun a b => Some (u32 (a + b))).
Definition op_sub_i32 := OP_BIN_I32_MASKED (fun a b => Some (u32 (a - b))).
Definition op_mul_i32 := OP_BIN_I32_MASKED (fun a b => Some (u32 (a * b))).
Definition op_div_i32 := OP_BIN_I32_MASKED (fun a b => u32 <$> c_div 32 (i32 a) (i32 b)).
Definition op_mod_i32 := OP_BIN_I32_MASKED (fun a b => u32 <$> c_rem 32 (i32 a) (i32 b)).
Definition op_shl_i32 :=
  OP_BIN_I32_MASKED (fun a b => Some (u32 (i32 (Z.shiftl (i32 a) (Z.land b 31))))).
Definition op_shr_i32 := OP_BIN_I32_MASKED (fun a b => Some (u32 (Z.shiftr (i32 a) (Z.land b 31)))).
Definition op_add_i32_imm := OP_BIN_I32_IMM_MASKED (fun a imm => u32 (a + imm)).
Definition op_sub_i32_imm := OP_BIN_I32_IMM_MASKED (fun a imm => u32 (a - imm)).
Definition op_mul_i32_imm := OP_BIN_I32_IMM_MASKED (fun a imm => u32 (a * imm)).

Definition op_add_i64 := OP_BIN_I64 (fun a b => Some (u64 (a + b))).
Definition op_sub_i64 := OP_BIN_I64 (fun a b => Some (u64 (a - b))).
Definition op_mul_i64 := OP_BIN_I64 (fun a b => Some (u64 (a * b))).
Definition op_div_i64 := OP_BIN_I64 (fun a b => c_div 64 (i64 a) (i64 b)).
Definition op_mod_i64 := OP_BIN_I64 (fun a b => c_rem 64 (i64 a) (i64 b)).
Definition op_shl_i64 := OP_BIN_I64 (fun a b => Some (u64 (Z.shiftl a (Z.land b 63)))).
Definition op_shr_i64 := OP_BIN_I64 (fun a b => Some (Z.shiftr (i64 a) (Z.land b 63))).

(** ** Float arithmetic *)

Definition op_add_f16 := OP_BIN_F16 (fl_add binary32 nan32).
Definition op_sub_f16 := OP_BIN_F16 (fl_sub binary32 nan32).
Definition op_mul_f16 := OP_BIN_F16 (fl_mul binary32 nan32).
Definition op_add_f32 := OP_BIN_F32 (fl_add binary32 nan32).
Definition op_sub_f32 := OP_BIN_F32 (fl_sub binary32 nan32).
Definition op_mul_f32 := OP_BIN_F32 (fl_mul binary32 nan32).
Definition op_div_f32 := OP_BIN_F32 (fl_div binary32 nan32).
Definition op_add_f64 := OP_BIN_F64 (fl_add binary64 nan64).
Definition op_sub_f64 := OP_BIN_F64 (fl_sub binary64 nan64).
Definition op_mul_f64 := OP_BIN_F64 (fl_mul binary64 nan64).
Definition op_div_f64 := OP_BIN_F64 (fl_div binary64 nan64).

(** ** Unary, comparisons *)

Definition op_neg_i32 := OP_UN_I32_MASKED (fun x => u32 (0 - x)).
Definition op_neg_i64 := OP_UN_I64 (fun x => u64 (0 - x)).
Definition op_neg_f32 := OP_UN_F32 (fl_neg binary32).
Definition op_neg_f64 := OP_UN_F64 (fl_neg binary64).

Definition op_eq_i32 := OP_CMP_I32 Z.eqb.
Definition op_lt_i32 := OP_CMP_I32 Z.ltb.
Definition op_eq_i32_imm := OP_CMP_I32_IMM Z.eqb.
Definition op_lt_i32_imm := OP_CMP_I32_IMM Z.ltb.
Definition op_eq_i64 := OP_CMP_I64 Z.eqb.
Definition op_lt_i64 := OP_CMP_I64 Z.ltb.
Definition op_eq_f32 := OP_CMP_F32 (fl_eq binary32).
Definition op_lt_f32 := OP_CMP_F32 (fl_lt binary32).
Definition op_eq_f64 := OP_CMP_F64 (fl_eq binary64).
Definition op_lt_f64 := OP_CMP_F64 (fl_lt binary64).

(** ** Conversions *)

Definition op_sext_i64 : op_handler := fun ctx ins =>
  x ← vm_load_u32 (cx_rf ctx) (i_b ins);
  _ ← vm_store_i64 (cx_rf ctx) (i_a ins) (i32 x); mret OP_CONTINUE.

Definition op_sext_i16 : op_handler := fun ctx ins =>
  x ← vm_load_u32 (cx_rf ctx) (i_b ins);
  _ ← vm_store_u32 (cx_rf ctx) (i_a ins) (u32 (i16 (i8 (Z.land x 0xFF)))); mret OP_CONTINUE.

Definition op_trunc_i8 : op_handler := fun ctx ins =>
  x ← vm_load_u32 (cx_rf ctx) (i_b ins);
  _ ← vm_store_u32_masked (cx_rf ctx) (i_a ins) x JELLO_T_I8; mret OP_CONTINUE.

Definition op_trunc_i16 : op_handler := fun ctx ins =>
  x ← vm_load_u32 (cx_rf ctx) (i_b ins);
  _ ← vm_store_u32_masked (cx_rf ctx) (i_a ins) x JELLO_T_I16; mret OP_CONTINUE.

Definition op_i32_from_i64 : op_handler := fun ctx ins =>
  x ← vm_load_i64 (cx_rf ctx) (i_b ins);
  _ ← vm_store_u32 (cx_rf ctx) (i_a ins) (u32 (u64 x)); mret OP_CONTINUE.

Definition op_f64_from_i32 : op_handler := fun ctx ins =>
  x ← vm_load_u32 (cx_rf ctx) (i_b ins);
  _ ← vm_store_f64 (cx_rf ctx) (i_a ins) (f64_of_int nan64 (i32 x)); mret OP_CONTINUE.

Definition op_f64_from_i64 : op_handler := fun ctx ins =>
  x ← vm_load_i64 (cx_rf ctx) (i_b ins);
  _ ← vm_store_f64 (cx_rf ctx) (i_a ins) (f64_of_int nan64 x); mret OP_CONTINUE.

Definition op_f32_from_i32 : op_handler := fun ctx ins =>
  x ← vm_load_u32 (cx_rf ctx) (i_b ins);
  _ ← vm_store_f32 (cx_rf ctx) (i_a ins) (f32_of_int nan32 (i32 x)); mret OP_CONTINUE.

Definition op_f32_from_i64 : op_handler := fun ctx ins =>
  x ← vm_load_i64 (cx_rf ctx) (i_b ins);
  _ ← vm_store_f32 (cx_rf ctx) (i_a ins) (f32_of_int nan32 x); mret OP_CONTINUE.

Definition op_f64_from_f32 : op_handler := fun ctx ins =>
  x ← vm_load_f32 (cx_rf ctx) (i_b ins);
  _ ← vm_store_f64 (cx_rf ctx) (i_a ins) (f64_of_f32 nan64 x); mret OP_CONTINUE.

Definition op_f32_from_f64 : op_handler := fun ctx ins =>
  x ← vm_load_f64 (cx_rf ctx) (i_b ins);
  _ ← vm_store_f32 (cx_rf ctx) (i_a ins) (f32_of_f64 nan32 x); mret OP_CONTINUE.

(** The checked conversions: a failed check has raised the trap; the handler goes
    on and the loop sees [exc_pending]. *)
Definition to_i32_checked (x : Z) (rf : reg_frame) (a : Z) : M op_result :=
  o ← vm_checked_f64_to_i32 x;
  match o with
  | Some v => _ ← vm_store_u32 rf a v; mret OP_CONTINUE
  | None => mret OP_CONTINUE
  end.

Definition to_i64_checked (x : Z) (rf : reg_frame) (a : Z) : M op_result :=
  o ← vm_checked_f64_to_i64 x;
  match o with
  | Some v => _ ← vm_store_i64 rf a v; mret OP_CONTINUE
  | None => mret OP_CONTINUE
  end.

Definition op_i32_from_f64 : op_handler := fun ctx ins =>
  x ← vm_load_f64 (cx_rf ctx) (i_b ins); to_i32_checked x (cx_rf ctx) (i_a ins).

Definition op_i64_from_f64 : op_handler := fun ctx ins =>
  x ← vm_load_f64 (cx_rf ctx) (i_b ins); to_i64_checked x (cx_rf ctx) (i_a ins).

Definition op_i32_from_f32 : op_handler := fun ctx ins =>
  x ← vm_load_f32 (cx_rf ctx) (i_b ins);
  to_i32_checked (f64_of_f32 nan64 x) (cx_rf ctx) (i_a ins).

Definition op_i64_from_f32 : op_handler := fun ctx ins =>
  x ← vm_load_f32 (cx_rf ctx) (i_b ins);
  to_i64_checked (f64_of_f32 nan64 x) (cx_rf ctx) (i_a ins).

Definition op_f16_from_f32 : op_handler := fun ctx ins =>
  x ← vm_load_f32 (cx_rf ctx) (i_b ins);
  _ ← vm_store_f16_bits (cx_rf ctx) (i_a ins) (vm_f32_to_f16_bits x); mret OP_CONTINUE.

Definition op_f32_from_f16 : op_handler := fun ctx ins =>
  x ← load_f16 (cx_rf ctx) (i_b ins);
  _ ← vm_store_f32 (cx_rf ctx) (i_a ins) x; mret OP_CONTINUE.

Definition op_f16_from_i32 : op_handler := fun ctx ins =>
  x ← vm_load_u32 (cx_rf ctx) (i_b ins);
  _ ← vm_store_f16_bits (cx_rf ctx) (i_a ins) (vm_f32_to_f16_bits (f32_of_int nan32 (i32 x)));
  mret OP_CONTINUE.

Definition op_i32_from_f16 : op_handler := fun ctx ins =>
  x ← load_f16 (cx_rf ctx) (i_b ins);
  to_i32_checked (f64_of_f32 nan64 x) (cx_rf ctx) (i_a ins).

(** ** Bitwise *)

Definition op_bitand_i32 := OP_BIN_I32_MASKED (fun a b => Some (Z.land a b)).
Definition op_bitor_i32 := OP_BIN_I32_MASKED (fun a b => Some (Z.lor a b)).
Definition op_bitxor_i32 := OP_BIN_I32_MASKED (fun a b => Some (Z.lxor a b)).

Definition OP_BIT_I64 (expr : Z -> Z -> Z) : op_handler := fun ctx ins =>
  a ← vm_load_i64 (cx_rf ctx) (i_b ins); b ← vm_load_i64 (cx_rf ctx) (i_c ins);
  _ ← vm_store_i64 (cx_rf ctx) (i_a ins) (expr a b); mret OP_CONTINUE.

Definition op_bitand_i64 := OP_BIT_I64 Z.land.
Definition op_bitor_i64 := OP_BIT_I64 Z.lor.
Definition op_bitxor_i64 := OP_BIT_I64 Z.lxor.

(** ** Type introspection *)

(** [op_switch_kind] on the frame; its computation is [FunCheck.op_switch_kind]. *)
Definition set_frame_pc (i pc : Z) : M () :=
  s ← get_stack; fr ← must (call_frames s @! i);
  put_stack (set_frames ((call_frames s) @[i := set_pc pc fr]) s).

Definition op_switch_kind_step : op_handler := fun ctx ins =>
  kind ← vm_load_u32 (cx_rf ctx) (i_a ins);
  s ← get_stack; fr ← must (call_frames s @! (cx_fr ctx));
  match op_switch_kind (f_insns (cx_f ctx)) (f_ninsns (cx_f ctx)) ins (cf_pc fr) kind with
  | Some npc => _ ← set_frame_pc (cx_fr ctx) npc; mret OP_CONTINUE
  | None => panic
  end.

Definition op_case_kind : op_handler := fun _ _ => panic.
End Arith.
