(* ===== verification/ArithThms.v ===== *)
(** * What the integer handlers compute

    The handlers work on unsigned words with masks; their meaning is arithmetic on
    signed integers, reduced to the width of the destination register. *)

From S2P Require Import Prelude CInt Memory Bytecode Value Vm Frame FrameFacts Float Gc GcThms Box BoxThms FunCheck Ops ArithOps.

(** ** Words and signed integers *)

Lemma wrapU_wrapU_le w v x : 0 <= w <= v -> wrapU w (wrapU v x) = wrapU w x.
Proof.
  intros H. unfold wrapU. apply Z.mod_mod_divide.
  exists (2 ^ (v - w)). rewrite <- Z.pow_add_r by lia. f_equal. lia.
Qed.

Lemma wrapS_u32_congr w x y : 1 <= w <= 32 -> u32 x = u32 y -> wrapS w x = wrapS w y.
Proof.
  intros Hw H. apply wrapS_congr.
  rewrite <- (wrapU_wrapU_le w 32 x), <- (wrapU_wrapU_le w 32 y) by lia. by rewrite H.
Qed.

Lemma land_ones_wrap w x : 0 <= w -> Z.land x (2 ^ w - 1) = wrapU w x.
Proof. intros Hw. unfold wrapU. rewrite <- Z.land_ones by done. f_equal. rewrite Z.ones_equiv. lia. Qed.

(** The width a register of the 32-bit family keeps. *)
Definition kind_width (k : jello_type_kind) : Z :=
  match k with JELLO_T_I8 => 8 | JELLO_T_I16 => 16 | _ => 32 end.

Lemma kind_width_range k : 1 <= kind_width k <= 32.
Proof. destruct k; cbn; lia. Qed.

(** A masked store keeps the signed value, reduced to the width. *)
Lemma mask_kind_signed k v : is_u 32 v ->
  is_u 32 (mask_kind k v) /\ i32 (mask_kind k v) = wrapS (kind_width k) v.
Proof.
  intros Hv. assert (Hn : forall w, 0 < w <= 32 ->
    is_u 32 (u32 (wrapS w (Z.land v (2 ^ w - 1)))) /\
    i32 (u32 (wrapS w (Z.land v (2 ^ w - 1)))) = wrapS w v).
  { intros w Hw. rewrite land_ones_wrap, wrapS_wrapU by lia. split; [apply wrapU_range; lia|].
    rewrite wrapS_wrapU. apply wrapS_id; [lia|]. pose proof (wrapS_range w (proj1 Hw) v) as H.
    unfold is_s in *. pose proof (Z.pow_le_mono_r 2 (w - 1) 31 ltac:(lia) ltac:(lia)). lia. }
  unfold mask_kind. destruct k; try done; [apply (Hn 8) | apply (Hn 16)]; lia.
Qed.

Section Bits.
Context (w : Z) (Hw : 0 < w).

Lemma wrapU_bits x i : 0 <= i -> Z.testbit (wrapU w x) i = (i <? w) && Z.testbit x i.
Proof.
  intros Hi. unfold wrapU. destruct (Z.ltb_spec i w).
  - by rewrite Z.mod_pow2_bits_low by lia.
  - by rewrite Z.mod_pow2_bits_high by lia.
Qed.

Lemma wrapU_land x y : wrapU w (Z.land x y) = Z.land (wrapU w x) (wrapU w y).
Proof.
  apply Z.bits_inj'. intros i Hi. rewrite !Z.land_spec, !wrapU_bits, Z.land_spec by done.
  by destruct (i <? w).
Qed.

Lemma wrapU_lor x y : wrapU w (Z.lor x y) = Z.lor (wrapU w x) (wrapU w y).
Proof.
  apply Z.bits_inj'. intros i Hi. rewrite !Z.lor_spec, !wrapU_bits, Z.lor_spec by done.
  by destruct (i <? w).
Qed.

Lemma wrapU_lxor x y : wrapU w (Z.lxor x y) = Z.lxor (wrapU w x) (wrapU w y).
Proof.
  apply Z.bits_inj'. intros i Hi. rewrite !Z.lxor_spec, !wrapU_bits, Z.lxor_spec by done.
  by destruct (i <? w).
Qed.

Lemma wrapU_sub_l x y : wrapU w (wrapU w x - y) = wrapU w (x - y).
Proof. unfold wrapU. apply Zminus_mod_idemp_l. Qed.

Lemma wrapU_sub_r x y : wrapU w (x - wrapU w y) = wrapU w (x - y).
Proof. unfold wrapU. apply Zminus_mod_idemp_r. Qed.
End Bits.

(** ** The meaning of the instructions

    On signed operands [a] and [b] of [w] bits; [None] is undefined behaviour. *)
Definition int_meaning (o : jello_op) (w a b : Z) : option Z :=
  match o with
  | JOP_ADD_I32 | JOP_ADD_I64 => Some (a + b)
  | JOP_SUB_I32 | JOP_SUB_I64 => Some (a - b)
  | JOP_MUL_I32 | JOP_MUL_I64 => Some (a * b)
  | JOP_DIV_I32 | JOP_DIV_I64 =>
      if decide (b = 0 \/ a = - 2 ^ (w - 1) /\ b = -1) then None else Some (Z.quot a b)
  | JOP_MOD_I32 | JOP_MOD_I64 =>
      if decide (b = 0 \/ a = - 2 ^ (w - 1) /\ b = -1) then None else Some (Z.rem a b)
  | JOP_SHL_I32 | JOP_SHL_I64 => Some (a * 2 ^ (b mod w))
  | JOP_SHR_I32 | JOP_SHR_I64 => Some (a / 2 ^ (b mod w))
  | JOP_BITAND_I32 | JOP_BITAND_I64 => Some (Z.land a b)
  | JOP_BITOR_I32 | JOP_BITOR_I64 => Some (Z.lor a b)
  | JOP_BITXOR_I32 | JOP_BITXOR_I64 => Some (Z.lxor a b)
  | _ => None
  end.

Section Thms.
Context (m : jello_bc_module).

Definition i32_handler (o : jello_op) : option op_handler :=
  match o with
  | JOP_ADD_I32 => Some (op_add_i32 m) | JOP_SUB_I32 => Some (op_sub_i32 m)
  | JOP_MUL_I32 => Some (op_mul_i32 m) | JOP_DIV_I32 => Some (op_div_i32 m)
  | JOP_MOD_I32 => Some (op_mod_i32 m) | JOP_SHL_I32 => Some (op_shl_i32 m)
  | JOP_SHR_I32 => Some (op_shr_i32 m) | JOP_BITAND_I32 => Some (op_bitand_i32 m)
  | JOP_BITOR_I32 => Some (op_bitor_i32 m) | JOP_BITXOR_I32 => Some (op_bitxor_i32 m)
  | _ => None
  end.

(** The words of the macros compute the meaning. *)
Lemma c_div_meaning w a b :
  c_div w a b = if decide (b = 0 \/ a = - 2 ^ (w - 1) /\ b = -1) then None else Some (Z.quot a b).
Proof.
  unfold c_div. destruct (Z.eqb_spec b 0) as [->|H0]; cbn [orb].
  - by rewrite decide_True by lia.
  - destruct (Z.eqb_spec a (- 2 ^ (w - 1))), (Z.eqb_spec b (-1)); cbn [andb];
      [rewrite decide_True by lia | rewrite decide_False by lia ..]; done.
Qed.

Lemma c_rem_meaning w a b :
  c_rem w a b = if decide (b = 0 \/ a = - 2 ^ (w - 1) /\ b = -1) then None else Some (Z.rem a b).
Proof.
  unfold c_rem. destruct (Z.eqb_spec b 0) as [->|H0]; cbn [orb].
  - by rewrite decide_True by lia.
  - destruct (Z.eqb_spec a (- 2 ^ (w - 1))), (Z.eqb_spec b (-1)); cbn [andb];
      [rewrite decide_True by lia | rewrite decide_False by lia ..]; done.
Qed.

(** [b & 31], [b & 63] is the signed operand modulo the width. *)
Lemma shift_amount v k x : 0 <= k <= v -> Z.land x (2 ^ k - 1) = wrapS v x mod 2 ^ k.
Proof.
  intros H. rewrite land_ones_wrap by lia. change (wrapS v x mod 2 ^ k) with (wrapU k (wrapS v x)).
  by rewrite <- (wrapU_wrapU_le k v (wrapS v x)), wrapU_wrapS, wrapU_wrapU_le by lia.
Qed.

(** What the i32 macros put through the mask is the meaning, modulo 2^32. *)
Definition i32_word (o : jello_op) (a b : Z) : option Z :=
  match o with
  | JOP_ADD_I32 => Some (u32 (a + b)) | JOP_SUB_I32 => Some (u32 (a - b))
  | JOP_MUL_I32 => Some (u32 (a * b))
  | JOP_DIV_I32 => u32 <$> c_div 32 (i32 a) (i32 b) | JOP_MOD_I32 => u32 <$> c_rem 32 (i32 a) (i32 b)
  | JOP_SHL_I32 => Some (u32 (i32 (Z.shiftl (i32 a) (Z.land b 31))))
  | JOP_SHR_I32 => Some (u32 (Z.shiftr (i32 a) (Z.land b 31)))
  | JOP_BITAND_I32 => Some (Z.land a b) | JOP_BITOR_I32 => Some (Z.lor a b)
  | JOP_BITXOR_I32 => Some (Z.lxor a b) | _ => None
  end.

Lemma i32_handler_word o h : i32_handler o = Some h -> h = OP_BIN_I32_MASKED m (i32_word o).
Proof. destruct o; intros [= <-]; done. Qed.

Lemma i32_word_meaning o h a b : i32_handler o = Some h -> is_u 32 a -> is_u 32 b ->
  match int_meaning o 32 (i32 a) (i32 b) with
  | Some z => exists v, i32_word o a b = Some v /\ is_u 32 v /\ v = u32 z
  | None => i32_word o a b = None
  end.
Proof.
  intros Hh Ha Hb.
  assert (Ea : u32 (i32 a) = a) by (rewrite wrapU_wrapS; by apply wrapU_id).
  assert (Eb : u32 (i32 b) = b) by (rewrite wrapU_wrapS; by apply wrapU_id).
  assert (Hu : forall x, is_u 32 (u32 x)) by (intros x; apply wrapU_range; lia).
  pose proof (shift_amount 32 5 b ltac:(lia)) as Es. change (2 ^ 5) with 32 in Es. change (32 - 1) with 31 in Es.
  assert (0 <= i32 b mod 32 < 32) by (apply Z.mod_pos_bound; lia).
  assert (Hsome : forall v z, v = u32 z -> exists v', Some v = Some v' /\ is_u 32 v' /\ v' = u32 z)
    by (intros v z ->; eexists; split_and!; [done | done | done]).
  destruct o; try done; cbn [i32_word int_meaning]; rewrite ?c_div_meaning, ?c_rem_meaning, ?Es.
  - apply Hsome. by rewrite <- (wrapU_add_l 32 (i32 a)), <- (wrapU_add_r 32 _ (i32 b)), Ea, Eb.
  - apply Hsome. by rewrite <- (wrapU_sub_l 32 (i32 a)), <- (wrapU_sub_r 32 _ (i32 b)), Ea, Eb.
  - apply Hsome. by rewrite <- (wrapU_mul_l 32 (i32 a)), <- (wrapU_mul_r 32 _ (i32 b)), Ea, Eb.
  - case_decide; [done | by apply Hsome].
  - case_decide; [done | by apply Hsome].
  - apply Hsome. by rewrite Z.shiftl_mul_pow2, wrapU_wrapS by lia.
  - apply Hsome. by rewrite Z.shiftr_div_pow2 by lia.
  - apply Hsome. by rewrite wrapU_land, Ea, Eb.
  - apply Hsome. by rewrite wrapU_lor, Ea, Eb.
  - apply Hsome. by rewrite wrapU_lxor, Ea, Eb.
Qed.

(** C39: The i32 arithmetic and bitwise handlers compute on signed integers, reduced
    to the width of the destination register: the register (i8, i16 or i32) gets
    the sum, difference, product, truncated quotient or remainder, shift or bitwise
    combination of the operands' signed values modulo its width, no other register
    changes, and the handler runs into undefined behaviour exactly for a division
    by zero and of -2^31 by -1, which it does not check. *)
Theorem i32_arith_spec o h ctx ins ks vm ka kb kc :
  i32_handler o = Some h -> frame_of m (cx_f ctx) (cx_rf ctx) ks vm ->
  Forall is_byte (frame_stack (v_stack vm)) ->
  ks @! (i_a ins) = Some ka -> ks @! (i_b ins) = Some kb -> ks @! (i_c ins) = Some kc ->
  jello_slot_size ka = 4 -> jello_slot_size kb = 4 -> jello_slot_size kc = 4 ->
  let b := i32 (reg (cx_rf ctx) ks (i_b ins) vm) in
  let c := i32 (reg (cx_rf ctx) ks (i_c ins) vm) in
  match int_meaning o 32 b c with
  | Some z => exists x vm', h ctx ins vm = Ret OP_CONTINUE vm' /\
    writes_reg (cx_rf ctx) ks (i_a ins) x vm vm' /\ i32 x = wrapS (kind_width ka) z
  | None => h ctx ins vm = Crash
  end.
Proof.
  intros Hh HF Hby Ka Kb Kc Sa Sb Sc. cbv zeta.
  pose proof (reg_is_u (cx_rf ctx) ks (i_b ins) vm kb Hby Kb) as Ub. rewrite Sb in Ub.
  pose proof (reg_is_u (cx_rf ctx) ks (i_c ins) vm kc Hby Kc) as Uc. rewrite Sc in Uc.
  pose proof (i32_word_meaning o h _ _ Hh Ub Uc) as HM. rewrite (i32_handler_word o h Hh).
  unfold OP_BIN_I32_MASKED, mbind, M_bind, must.
  rewrite (proj2 HF _ _ Ka).
  unfold vm_load_u32. rewrite (load_reg_run _ _ _ (proj1 HF) 4 _ kb), (load_reg_run _ _ _ (proj1 HF) 4 _ kc)
    by (done || unfold width_of; rewrite ?Sb, ?Sc; done).
  destruct (int_meaning o 32 _ _) as [z|]; [|by rewrite HM].
  destruct HM as (v & -> & Hv & Ez). unfold vm_store_u32_masked, vm_store_u32.
  rewrite (store_reg_run _ _ _ (proj1 HF) 4 _ ka) by (done || unfold width_of; by rewrite Sa).
  destruct (mask_kind_signed ka v Hv) as [Hm Em].
  exists (mask_kind ka v). eexists. split_and!; [done | |].
  - pose proof (with_reg_writes m _ _ ks vm 4 _ ka (mask_kind ka v) HF Ka) as W.
    rewrite Sa, wrapU_id in W by done. apply W. unfold width_of. by rewrite Sa.
  - rewrite Em. apply wrapS_u32_congr; [apply kind_width_range|]. rewrite Ez. by rewrite wrapU_idemp.
Qed.

(** ** i64 *)

Definition i64_handler (o : jello_op) : option op_handler :=
  match o with
  | JOP_ADD_I64 => Some op_add_i64 | JOP_SUB_I64 => Some op_sub_i64
  | JOP_MUL_I64 => Some op_mul_i64 | JOP_DIV_I64 => Some op_div_i64
  | JOP_MOD_I64 => Some op_mod_i64 | JOP_SHL_I64 => Some op_shl_i64
  | JOP_SHR_I64 => Some op_shr_i64 | JOP_BITAND_I64 => Some op_bitand_i64
  | JOP_BITOR_I64 => Some op_bitor_i64 | JOP_BITXOR_I64 => Some op_bitxor_i64
  | _ => None
  end.

(** What the i64 macros store, as a function of the signed operands. *)
Definition i64_value (o : jello_op) (a b : Z) : option Z :=
  match o with
  | JOP_ADD_I64 => Some (i64 (u64 (u64 a + u64 b))) | JOP_SUB_I64 => Some (i64 (u64 (u64 a - u64 b)))
  | JOP_MUL_I64 => Some (i64 (u64 (u64 a * u64 b)))
  | JOP_DIV_I64 => i64 <$> c_div 64 (i64 (u64 a)) (i64 (u64 b))
  | JOP_MOD_I64 => i64 <$> c_rem 64 (i64 (u64 a)) (i64 (u64 b))
  | JOP_SHL_I64 => Some (i64 (u64 (Z.shiftl (u64 a) (Z.land (u64 b) 63))))
  | JOP_SHR_I64 => Some (i64 (Z.shiftr (i64 (u64 a)) (Z.land (u64 b) 63)))
  | JOP_BITAND_I64 => Some (Z.land a b) | JOP_BITOR_I64 => Some (Z.lor a b)
  | JOP_BITXOR_I64 => Some (Z.lxor a b) | _ => None
  end.

Lemma i64_handler_value o h ctx ins vm : i64_handler o = Some h ->
  h ctx ins vm =
  (a ← vm_load_i64 (cx_rf ctx) (i_b ins); b ← vm_load_i64 (cx_rf ctx) (i_c ins);
    v ← must (i64_value o a b);
    _ ← vm_store_i64 (cx_rf ctx) (i_a ins) v; mret OP_CONTINUE) vm.
Proof.
  destruct o; intros [= <-]; try done;
    unfold op_div_i64, op_mod_i64, OP_BIN_I64, mbind, M_bind; cbn [i64_value];
    destruct (vm_load_i64 _ (i_b ins) vm) as [a vm1| |]; try done;
    destruct (vm_load_i64 _ (i_c ins) vm1) as [b vm2| |]; try done.
  - by destruct (c_div 64 _ _).
  - by destruct (c_rem 64 _ _).
Qed.

Lemma i64_value_meaning o h a b : i64_handler o = Some h -> is_s 64 a -> is_s 64 b ->
  match int_meaning o 64 a b with
  | Some z => exists v, i64_value o a b = Some v /\ i64 (u64 v) = i64 z
  | None => i64_value o a b = None
  end.
Proof.
  intros Hh Ha Hb.
  assert (Ea : i64 (u64 a) = a) by (rewrite wrapS_wrapU; by apply wrapS_id).
  assert (Eb : i64 (u64 b) = b) by (rewrite wrapS_wrapU; by apply wrapS_id).
  assert (Es : Z.land (u64 b) 63 = b mod 64).
  { change 63 with (2 ^ 6 - 1). by rewrite (shift_amount 64 6 (u64 b)), Eb by lia. }
  assert (0 <= b mod 64 < 64) by (apply Z.mod_pos_bound; lia).
  assert (Hsome : forall v z, wrapU 64 v = wrapU 64 z ->
      exists v', Some v = Some v' /\ i64 (u64 v') = i64 z)
    by (intros v z E; eexists; split; [done|]; rewrite wrapS_wrapU; by apply wrapS_congr).
  destruct o; try done; cbn [i64_value int_meaning]; rewrite ?c_div_meaning, ?c_rem_meaning, ?Es, ?Ea, ?Eb.
  - apply Hsome. by rewrite wrapU_wrapS, wrapU_idemp, wrapU_add_l, wrapU_add_r.
  - apply Hsome. by rewrite wrapU_wrapS, wrapU_idemp, wrapU_sub_l, wrapU_sub_r.
  - apply Hsome. by rewrite wrapU_wrapS, wrapU_idemp, wrapU_mul_l, wrapU_mul_r.
  - case_decide; [done|]. apply Hsome. by rewrite wrapU_wrapS.
  - case_decide; [done|]. apply Hsome. by rewrite wrapU_wrapS.
  - apply Hsome. by rewrite wrapU_wrapS, wrapU_idemp, Z.shiftl_mul_pow2, wrapU_mul_l by lia.
  - apply Hsome. by rewrite wrapU_wrapS, Z.shiftr_div_pow2 by lia.
  - by apply Hsome.
  - by apply Hsome.
  - by apply Hsome.
Qed.

(** The i64 arithmetic and bitwise handlers compute on signed integers modulo
    2^64, change no other register, and run into undefined behaviour exactly for a
    division by zero and of -2^63 by -1, which they do not check. *)
Theorem i64_arith_spec o h ctx ins ks vm ka kb kc :
  i64_handler o = Some h -> frame_of m (cx_f ctx) (cx_rf ctx) ks vm ->
  ks @! (i_a ins) = Some ka -> ks @! (i_b ins) = Some kb -> ks @! (i_c ins) = Some kc ->
  jello_slot_size ka = 8 -> jello_slot_size kb = 8 -> jello_slot_size kc = 8 ->
  let b := i64 (reg (cx_rf ctx) ks (i_b ins) vm) in
  let c := i64 (reg (cx_rf ctx) ks (i_c ins) vm) in
  match int_meaning o 64 b c with
  | Some z => exists x vm', h ctx ins vm = Ret OP_CONTINUE vm' /\
    writes_reg (cx_rf ctx) ks (i_a ins) x vm vm' /\ i64 x = i64 z
  | None => h ctx ins vm = Crash
  end.
Proof.
  intros Hh HF Ka Kb Kc Sa Sb Sc. cbv zeta. rewrite (i64_handler_value o h ctx ins vm Hh).
  pose proof (i64_value_meaning o h _ _ Hh (wrapS_range 64 ltac:(lia) (reg (cx_rf ctx) ks (i_b ins) vm))
      (wrapS_range 64 ltac:(lia) (reg (cx_rf ctx) ks (i_c ins) vm))) as HM.
  unfold vm_load_i64, mbind, M_bind, must.
  rewrite (load_reg_run _ _ _ (proj1 HF) 8 _ kb) by (done || unfold width_of; by rewrite Sb). cbn.
  rewrite (load_reg_run _ _ _ (proj1 HF) 8 _ kc) by (done || unfold width_of; by rewrite Sc). cbn.
  destruct (int_meaning o 64 _ _) as [z|]; [|by rewrite HM].
  destruct HM as (v & -> & Ez). unfold vm_store_i64.
  rewrite (store_reg_run _ _ _ (proj1 HF) 8 _ ka) by (done || unfold width_of; by rewrite Sa).
  exists (u64 v). eexists. split_and!; [done | | exact Ez].
  pose proof (with_reg_writes m _ _ ks vm 8 _ ka (u64 v) HF Ka) as W.
  rewrite Sa, wrapU_idemp in W by lia. apply W. unfold width_of. by rewrite Sa.
Qed.
End Thms.

(** ** Witnesses

    On the frame of [BoxThms]: registers 0 and 1 are i64 (-5 and 0), register 2 an
    i32 that holds 9. *)

Definition box_ctx : exec_ctx := mk_ctx box_function 0 box_rf None.

Lemma box_bytes : Forall is_byte (frame_stack (v_stack box_vm)).
Proof. by apply (bool_decide_eq_true_1 (Forall is_byte _)); vm_compute. Qed.

(** 9 * 9 in register 2. *)
Lemma i32_arith_spec_witness :
  exists x vm', op_mul_i32 box_module box_ctx (mk_insn 0 2 2 2 0) box_vm = Ret OP_CONTINUE vm' /\
    writes_reg box_rf box_kinds 2 x box_vm vm' /\ i32 x = 81.
Proof.
  exact (i32_arith_spec box_module JOP_MUL_I32 (op_mul_i32 box_module) box_ctx (mk_insn 0 2 2 2 0)
    box_kinds box_vm JELLO_T_I32 JELLO_T_I32 JELLO_T_I32 eq_refl box_frame box_bytes
    eq_refl eq_refl eq_refl eq_refl eq_refl eq_refl).
Defined.

(** -5 / 0. *)
Lemma i64_arith_spec_witness : op_div_i64 box_ctx (mk_insn 0 1 0 1 0) box_vm = Crash.
Proof.
  exact (i64_arith_spec box_module JOP_DIV_I64 op_div_i64 box_ctx (mk_insn 0 1 0 1 0) box_kinds
    box_vm JELLO_T_I64 JELLO_T_I64 JELLO_T_I64 eq_refl box_frame eq_refl eq_refl eq_refl eq_refl
    eq_refl eq_refl).
Defined.
