(* ===== verification/Call.v ===== *)
(** * Calls

    Model of the frame stack and of the frame operations of src/src/vm/frame.c and
    of src/src/vm/call.c.  The frame stack's [realloc] is taken to succeed (it
    aborts otherwise) and to fill the new part with [junk]; [None] of [grow_cap] is
    a growth loop that does not end. *)

From S2P Require Import Prelude CInt Memory Bytecode Value Object Heap Vm Frame Float Gc Box.

Definition FRAME_STACK_INITIAL : Z := 64 * 1024.
Definition VM_FAST_ARG_NARGS_MAX_PUSH : Z := 16.
Definition VM_FAST_ARG_NARGS_MAX_TAIL : Z := 32.
Definition VM_CALL_FRAMES_INITIAL : Z := 64.

(** [while(new_cap < need) new_cap *= 4u;] *)
Fixpoint grow_cap (fuel : nat) (new_cap need : Z) : option Z :=
  if need <=? new_cap then Some new_cap
  else match fuel with O => None | S n => grow_cap n (u32 (new_cap * 4)) need end.

(** ** Functions as heap objects *)

Definition fn_bound_this (fo : hobj) : Z :=
  match fo with HFunction _ _ b _ | HFunctionRaw _ _ b _ _ => b | _ => 0 end.

Definition fn_ncaps (fo : hobj) : Z :=
  match fo with HFunction _ _ _ caps => zlen caps | HFunctionRaw _ _ _ n _ => n | _ => 0 end.

(** [funobj && (funobj->ncaps != 0u || jello_bound_this_is_set(funobj->bound_this))]. *)
Definition fn_is_closure (funobj : option hobj) : bool :=
  match funobj with
  | Some fo => negb (fn_ncaps fo =? 0) || jello_bound_this_is_set (fn_bound_this fo)
  | None => false
  end.

Section Call.
Context (malloc : gc_state -> Z -> option Z) (m : jello_bc_module) (maddr : Z).
Context (nan32 nan64 junk : Z).

Abbreviation store_from_boxed := (vm_store_from_boxed malloc m nan32 nan64).
Abbreviation box_from_typed := (vm_box_from_typed malloc m).

Definition fun_at (fi : Z) : M jello_bc_function := must (m_funcs m @! fi).

Definition kind_of_reg (f : jello_bc_function) (r : Z) : M jello_type_kind := must (vm_reg_kind m f r).

(** ** The frame stack *)

Definition vm_frame_stack_grow (need : Z) : M () :=
  s ← get_stack;
  let cap := zlen (frame_stack s) in
  let target := u32 (frame_stack_top s + need) in
  if target <=? cap then mret () else
  new_cap ← must (grow_cap 16 (if cap =? 0 then FRAME_STACK_INITIAL else u32 (cap * 4)) target);
  put_stack (set_mem (take (Z.to_nat new_cap) (frame_stack s) ++
    replicate (Z.to_nat (new_cap - cap)) junk) s).

Definition vm_frame_stack_bump (sz : Z) : M (option Z) :=
  if sz =? 0 then mret None else
  s ← get_stack;
  _ ← (if zlen (frame_stack s) <? u32 (frame_stack_top s + sz)
    then vm_frame_stack_grow sz else mret ());
  s ← get_stack;
  _ ← put_stack (set_top (u32 (frame_stack_top s + sz)) s);
  mret (Some (frame_stack_top s)).

(** A frame's memory always is in the frame stack: nothing allocates from the
    bucket pool [vm_rf_release] otherwise returns it to. *)
Definition vm_rf_release (rf : reg_frame) : M () :=
  match rf_mem rf with
  | None => mret ()
  | Some mem =>
    s ← get_stack;
    if (0 <=? mem) && (mem <? zlen (frame_stack s))
    then put_stack (set_top (u32 (frame_stack_top s - rf_total rf)) s)
    else crash
  end.

Definition vm_call_frames_reserve : M () :=
  s ← get_stack;
  if VM_CALL_FRAMES_INITIAL <=? call_frames_cap s then mret ()
  else put_stack (set_frames [] (set_frames_cap VM_CALL_FRAMES_INITIAL s)).

(** Doubling the frame array when it is full. *)
Definition frames_grow_if_full : M () :=
  s ← get_stack;
  if zlen (call_frames s) =? call_frames_cap s
  then put_stack (set_frames_cap (if call_frames_cap s =? 0 then 16 else u32 (call_frames_cap s * 2)) s)
  else mret ().

(** [frames[len++] = fr]: outside the array when it is full. *)
Definition push_call_frame (fr : call_frame) : M () :=
  s ← get_stack;
  if zlen (call_frames s) <? call_frames_cap s
  then put_stack (set_frames (call_frames s ++ [fr]) s) else crash.

Definition frame_at (i : Z) : M call_frame := s ← get_stack; must (call_frames s @! i).

Definition set_frame_at (i : Z) (fr : call_frame) : M () :=
  s ← get_stack; put_stack (set_frames ((call_frames s) @[i := fr]) s).

Definition nframes : M Z := s ← get_stack; mret (zlen (call_frames s)).

(** [memmove(mem + dst, mem + src, sz)] on the frame stack. *)
Definition copy_bytes (src dst sz : Z) : M () :=
  s ← get_stack; l ← must (block_read (frame_stack s) src sz);
  mem ← must (block_write (frame_stack s) dst l); put_stack (set_mem mem s).

Definition copy_slot (src_rf : reg_frame) (src : Z) (dst_rf : reg_frame) (dst sz : Z) : M () :=
  a ← must (vm_reg_ptr src_rf src); b ← must (vm_reg_ptr dst_rf dst); copy_bytes a b sz.

(** ** Arguments *)

Definition vm_arg_types_compatible (src_tid dst_tid : Z) : bool :=
  if src_tid =? dst_tid then true else
  if (m_ntypes m <=? src_tid) || (m_ntypes m <=? dst_tid) then false else
  bool_decide (te_kind <$> m_types m @! src_tid = te_kind <$> m_types m @! dst_tid).

Fixpoint fast_args_loop (caller_f callee_f : jello_bc_function) (first_arg dst_base : Z)
    (require_nonptr : bool) (i : Z) (n : nat) : M bool :=
  match n with
  | O => mret true
  | S n' =>
    src_tid ← must (f_reg_types caller_f @! (first_arg + i));
    dst_tid ← must (f_reg_types callee_f @! (dst_base + i));
    if negb (vm_arg_types_compatible src_tid dst_tid) then mret false else
    if require_nonptr then
      k ← kind_of_reg callee_f (dst_base + i);
      if negb (vm_type_is_nonptr k) then mret false
    else fast_args_loop caller_f callee_f first_arg dst_base require_nonptr (i + 1) n'
    else fast_args_loop caller_f callee_f first_arg dst_base require_nonptr (i + 1) n'
  end.

Definition vm_can_use_fast_arg_copy (caller_f callee_f : jello_bc_function)
    (first_arg nargs dst_base : Z) (funobj : option hobj) (require_nonptr : bool) : M bool :=
  if nargs =? 0 then mret false else
  if fn_is_closure funobj then mret false else
  fast_args_loop caller_f callee_f first_arg dst_base require_nonptr 0 (Z.to_nat nargs).

(** Slot by slot, at the width of the callee's register. *)
Definition copy_args (src_rf : reg_frame) (first_arg : Z) (callee_f : jello_bc_function)
    (dst_rf : reg_frame) (nargs : Z) : M () :=
  mfor 0 (Z.to_nat nargs) (fun i =>
    k ← kind_of_reg callee_f i;
    copy_slot src_rf (first_arg + i) dst_rf i (jello_slot_size k)).

Definition vm_copy_arg_strict (caller_f : jello_bc_function) (caller_rf : reg_frame) (src : Z)
    (callee_f : jello_bc_function) (callee_rf : reg_frame) (dst : Z) : M () :=
  src_tid ← must (f_reg_types caller_f @! src);
  dst_tid ← must (f_reg_types callee_f @! dst);
  _ ← panic_if ((m_ntypes m <=? src_tid) || (m_ntypes m <=? dst_tid));
  sk ← kind_of_reg caller_f src;
  dk ← kind_of_reg callee_f dst;
  if (src_tid =? dst_tid) || kind_eqb sk dk then
    copy_slot caller_rf src callee_rf dst (jello_slot_size dk)
  else if kind_eqb sk JELLO_T_DYNAMIC then
    v ← vm_load_val caller_rf src; store_from_boxed callee_f callee_rf dst v
  else if kind_eqb dk JELLO_T_DYNAMIC then
    v ← box_from_typed caller_f caller_rf src; vm_store_val callee_rf dst v
  else panic.

(** [m->features & FEAT_CAP_START && cap_start < nregs ? cap_start : nregs - ncaps]. *)
Definition cap_start_of (f : jello_bc_function) (nregs ncaps : Z) : Z :=
  if has_feature (m_features m) JELLO_BC_FEAT_CAP_START && (f_cap_start f <? nregs)
  then f_cap_start f else u32 (nregs - ncaps).

Fixpoint raw_caps_loop (f : jello_bc_function) (rf : reg_frame) (cap_start : Z) (raw : list Z)
    (i off : Z) (n : nat) : M () :=
  match n with
  | O => mret ()
  | S n' =>
    k ← kind_of_reg f (cap_start + i);
    l ← must (block_read raw off (jello_slot_size k));
    a ← must (vm_reg_ptr rf (cap_start + i));
    s ← get_stack; mem ← must (block_write (frame_stack s) a l);
    _ ← put_stack (set_mem mem s);
    raw_caps_loop f rf cap_start raw (i + 1) (u32 (off + jello_slot_size k)) n'
  end.

Definition store_caps (f : jello_bc_function) (rf : reg_frame) (cap_start : Z) (fo : hobj) : M () :=
  match fo with
  | HFunctionRaw _ _ _ n raw => raw_caps_loop f rf cap_start raw 0 0 (Z.to_nat n)
  | HFunction _ _ _ caps =>
    mfor 0 (length caps) (fun i =>
      v ← must (caps @! i); store_from_boxed f rf (cap_start + i) v)
  | _ => crash
  end.

Definition vm_init_args_and_caps (callee_f : jello_bc_function) (callee_rf : reg_frame)
    (caller_f : jello_bc_function) (caller_rf : reg_frame) (first_arg nargs : Z)
    (funobj : option hobj) : M () :=
  arg_base ← (match funobj with
    | Some fo =>
    if jello_bound_this_is_set (fn_bound_this fo) then
      _ ← panic_if (rf_nregs callee_rf <? 1);
      _ ← store_from_boxed callee_f callee_rf 0 (fn_bound_this fo); mret 1
    else mret 0
    | None => mret 0 end);
  _ ← panic_if (rf_nregs callee_rf <? u32 (arg_base + nargs));
  _ ← mfor 0 (Z.to_nat nargs) (fun i =>
    vm_copy_arg_strict caller_f caller_rf (first_arg + i) callee_f callee_rf (arg_base + i));
  match funobj with
  | Some fo =>
    if fn_ncaps fo =? 0 then mret () else
    _ ← panic_if (rf_nregs callee_rf <? fn_ncaps fo);
    let cap_start := cap_start_of callee_f (rf_nregs callee_rf) (fn_ncaps fo) in
    _ ← panic_if (cap_start <? u32 (arg_base + nargs));
    store_caps callee_f callee_rf cap_start fo
  | None => mret ()
  end.

(** Captures of a direct self-call: copied from the caller's frame. *)
Definition vm_inherit_self_capture_slots (f : jello_bc_function) (dst_rf src_rf : reg_frame)
    (nargs : Z) : M () :=
  if negb (has_feature (m_features m) JELLO_BC_FEAT_CAP_START) then mret () else
  if (f_cap_start f =? 0) || (f_nregs f <=? f_cap_start f) then mret () else
  mfor (f_cap_start f) (Z.to_nat (f_nregs f - f_cap_start f)) (fun r =>
    if r <? nargs then mret () else
    k ← kind_of_reg f r; copy_slot src_rf r dst_rf r (jello_slot_size k)).

(** ** Frames *)

Definition new_rf (fl : frame_layout) (mem : option Z) : reg_frame :=
  mk_rf mem (fl_off fl) (fl_nregs fl) (fl_total fl) true.

Definition new_frame (fi : Z) (fl : frame_layout) (caller_dst exc_base : Z) (has_caller capture : bool)
    (mem : option Z) : call_frame :=
  mk_frame fi (new_rf fl mem) 0 caller_dst exc_base has_caller capture
    (fl_has_pointer_or_dynamic fl) (fl_jit_ineligible fl) false false 0.

(** [memset] to zero and the tagged null in every Dynamic register. *)
Definition init_frame_mem (f : jello_bc_function) (rf : reg_frame) (has_any : bool) : M () :=
  match rf_mem rf with
  | Some base =>
    if negb (rf_total rf =? 0) && has_any then
      s ← get_stack;
      mem ← must (block_write (frame_stack s) base (replicate (Z.to_nat (rf_total rf)) 0));
      _ ← put_stack (set_mem mem s);
      mfor 0 (Z.to_nat (rf_nregs rf)) (fun r =>
        k ← kind_of_reg f r;
        if kind_eqb k JELLO_T_DYNAMIC then vm_store_val rf r jello_make_null else mret ())
    else mret ()
  | None => mret ()
  end.

Definition stack_overflow : M bool :=
  _ ← raise JELLO_TRAP_STACK_OVERFLOW "stack overflow"; mret false.

(** [vm->call_frames_max && vm->call_frames_len >= vm->call_frames_max]. *)
Definition frames_exhausted (s : stack_state) : bool :=
  negb (call_frames_max s =? 0) && (call_frames_max s <=? zlen (call_frames s)).

Definition exc_base_now : M Z := e ← get_exc; mret (zlen (exc_handlers e)).

(** The push of a numeric self-call; [vm_push_self_numeric] is the same with the
    fields of the native return. *)
Definition push_self (fr : call_frame) (f : jello_bc_function) (first_arg nargs caller_dst : Z)
    (jit_return_addr : Z) (jit_entry_done : bool) : M () :=
  mem ← vm_frame_stack_bump (rf_total (cf_rf fr));
  eb ← exc_base_now;
  let rf := mk_rf mem (rf_off (cf_rf fr)) (rf_nregs (cf_rf fr)) (rf_total (cf_rf fr)) true in
  _ ← push_call_frame (mk_frame (cf_f fr) rf 0 caller_dst eb true false false jit_entry_done
      false false jit_return_addr);
  copy_args (cf_rf fr) first_arg f rf nargs.

(** The general push, once there is room for the frame. *)
Definition push_general (callee caller caller_frame_index caller_dst first_arg nargs : Z)
    (funobj : option hobj) (has_caller : bool) : M bool :=
  callee_f ← fun_at callee;
  fl ← vm_get_frame_layout m maddr callee;
  eb ← exc_base_now;
  mem ← vm_frame_stack_bump (fl_total fl);
  let rf := new_rf fl mem in
  _ ← push_call_frame (new_frame callee fl caller_dst eb has_caller false mem);
  _ ← init_frame_mem callee_f rf (fl_has_pointer_or_dynamic fl);
  if negb has_caller then mret true else
  n ← nframes;
  _ ← panic_if (n - 1 <=? caller_frame_index);
  caller_fr ← frame_at caller_frame_index;
  caller_f ← fun_at caller;
  fast ← (if nargs <=? VM_FAST_ARG_NARGS_MAX_PUSH
    then vm_can_use_fast_arg_copy caller_f callee_f first_arg nargs 0 funobj false
    else mret false);
  _ ← (if fast : bool then copy_args (cf_rf caller_fr) first_arg callee_f rf nargs
    else vm_init_args_and_caps callee_f rf caller_f (cf_rf caller_fr) first_arg nargs funobj);
  _ ← (if (caller =? callee) && bool_decide (funobj = None)
    then vm_inherit_self_capture_slots callee_f rf (cf_rf caller_fr) nargs else mret ());
  mret true.

Definition vm_push_frame (callee caller caller_frame_index caller_dst first_arg nargs : Z)
    (funobj : option hobj) (has_caller : bool) : M bool :=
  s ← get_stack;
  if frames_exhausted s then stack_overflow else
  _ ← frames_grow_if_full;
  s ← get_stack;
  _ ← (if zlen (call_frames s) =? 0 then put_stack (set_top 0 s) else mret ());
  callee_f ← fun_at callee;
  let self := has_caller && (caller =? callee) && bool_decide (funobj = None) &&
  (nargs <=? VM_FAST_ARG_NARGS_MAX_PUSH) in
  n ← nframes;
  _ ← panic_if (self && (n <=? caller_frame_index));
  fr0 ← (if self then fr ← frame_at caller_frame_index; mret (Some fr) else mret None);
  match fr0 with
  | Some fr =>
    if negb (cf_has_pointer_or_dynamic fr) then
      _ ← push_self fr callee_f first_arg nargs caller_dst 0 (cf_jit_entry_done fr); mret true
    else push_general callee caller caller_frame_index caller_dst first_arg nargs funobj has_caller
  | None => push_general callee caller caller_frame_index caller_dst first_arg nargs funobj has_caller
  end.

(** The numeric self-call of the hot loop and of the JIT: the caller has checked
    the depth, that the array has room and that the frame holds no pointers. *)
Definition vm_push_self_numeric (fr : call_frame) (first_arg nargs caller_dst jit_return_addr : Z)
    (jit_entry_done : bool) : M () :=
  f ← fun_at (cf_f fr);
  push_self fr f first_arg nargs caller_dst jit_return_addr jit_entry_done.

(** ** Tail calls *)

(** The arguments, read out of the frame before it is released. *)
Fixpoint save_args (f : jello_bc_function) (dst_base : Z) (rf : reg_frame) (first_arg i : Z) (n : nat)
  : M (list (list Z)) :=
  match n with
  | O => mret []
  | S n' =>
    k ← kind_of_reg f (dst_base + i);
    a ← must (vm_reg_ptr rf (first_arg + i));
    s ← get_stack; l ← must (block_read (frame_stack s) a (jello_slot_size k));
    ls ← save_args f dst_base rf first_arg (i + 1) n';
    mret (l :: ls)
  end.

Fixpoint restore_args (rf : reg_frame) (dst : Z) (args : list (list Z)) : M () :=
  match args with
  | [] => mret ()
  | l :: ls =>
    a ← must (vm_reg_ptr rf dst);
    s ← get_stack; mem ← must (block_write (frame_stack s) a l);
    _ ← put_stack (set_mem mem s);
    restore_args rf (dst + 1) ls
  end.

(** The frame of the tail-called function, with the return link of the old one. *)
Definition replaced_frame (fi : Z) (fl : frame_layout) (old : call_frame) (mem : option Z)
  : call_frame :=
  mk_frame fi (new_rf fl mem) 0 (cf_caller_dst old) (cf_exc_base old) (cf_has_caller old)
    (cf_jdll_ret_capture old) (fl_has_pointer_or_dynamic fl) (fl_jit_ineligible fl) false false 0.

(** Where the new frame goes: in the old one's memory when it fits, at its upper
    end, or on the stack once the old one is released. *)
Definition replace_mem (fl : frame_layout) (old : call_frame) (in_place : bool) : M (option Z) :=
  if in_place && (fl_total fl <=? rf_total (cf_rf old)) then
    if fl_total fl <? rf_total (cf_rf old) then
      let delta := rf_total (cf_rf old) - fl_total fl in
      s ← get_stack;
      _ ← put_stack (set_top (u32 (frame_stack_top s - delta)) s);
      mret ((fun b => b + delta) <$> rf_mem (cf_rf old))
  else mret (rf_mem (cf_rf old))
  else _ ← vm_rf_release (cf_rf old); vm_frame_stack_bump (fl_total fl).

Fixpoint box_args (f : jello_bc_function) (rf : reg_frame) (r : Z) (n : nat) : M (list Z) :=
  match n with
  | O => mret []
  | S n' =>
    v ← box_from_typed f rf r;
    _ ← jello_gc_push_root v;
    vs ← box_args f rf (r + 1) n';
    mret (v :: vs)
  end.

Definition vm_replace_frame (callee caller first_arg nargs : Z) (funobj : option hobj) : M bool :=
  n ← nframes;
  _ ← panic_if (n <? 1);
  fr ← frame_at (n - 1);
  callee_f ← fun_at callee; caller_f ← fun_at caller;
  fl ← vm_get_frame_layout m maddr callee;
  let small := nargs <=? VM_FAST_ARG_NARGS_MAX_TAIL in
  typed ← (if small then
      if bool_decide (funobj = None) && (caller =? callee) then mret true
    else vm_can_use_fast_arg_copy caller_f callee_f first_arg nargs 0 funobj false
    else mret false);
  let bound := match funobj with Some fo => fn_bound_this fo | None => 0 end in
  let bound_only := negb (typed : bool) && small && bool_decide (is_Some funobj) &&
  jello_bound_this_is_set bound &&
  match funobj with Some fo => fn_ncaps fo =? 0 | None => false end &&
  (u32 (1 + nargs) <=? f_nregs callee_f) in
  this_only ← (if bound_only
    then vm_can_use_fast_arg_copy caller_f callee_f first_arg nargs 1 None false
    else mret false);
  let dst_base := if this_only : bool then 1 else 0 in
  if typed || this_only then
    args ← save_args callee_f dst_base (cf_rf fr) first_arg 0 (Z.to_nat nargs);
    mem ← replace_mem fl fr true;
    let rf := new_rf fl mem in
    _ ← set_frame_at (n - 1) (replaced_frame callee fl fr mem);
    _ ← init_frame_mem callee_f rf (fl_has_pointer_or_dynamic fl);
    _ ← (if this_only then store_from_boxed callee_f rf 0 bound else mret ());
    _ ← restore_args rf dst_base args;
    mret true
  else
  _ ← panic_if (32 <? nargs);
  args ← box_args caller_f (cf_rf fr) first_arg (Z.to_nat nargs);
  mem ← replace_mem fl fr false;
  let rf := new_rf fl mem in
  _ ← set_frame_at (n - 1) (replaced_frame callee fl fr mem);
  _ ← init_frame_mem callee_f rf (fl_has_pointer_or_dynamic fl);
  _ ← jello_gc_pop_roots nargs;
  let this_set := bool_decide (is_Some funobj) && jello_bound_this_is_set bound in
  _ ← (if this_set then store_from_boxed callee_f rf 0 bound else mret ());
  let arg_base := if this_set then 1 else 0 in
  _ ← mfor 0 (length args) (fun i =>
    v ← must (args @! i); store_from_boxed callee_f rf (arg_base + i) v);
  _ ← match funobj with
  | Some fo =>
    if fn_ncaps fo =? 0 then mret ()
    else store_caps callee_f rf (cap_start_of callee_f (rf_nregs rf) (fn_ncaps fo)) fo
  | None => mret ()
  end;
  mret true.

(** ** Entry from C *)

Definition vm_init_closure_args_from_values (callee_f : jello_bc_function) (callee_rf : reg_frame)
    (fo : hobj) (args : list Z) : M () :=
  let nargs := zlen args in
  arg_base ← (if jello_bound_this_is_set (fn_bound_this fo) then
      _ ← panic_if (rf_nregs callee_rf <? 1);
      _ ← store_from_boxed callee_f callee_rf 0 (fn_bound_this fo); mret 1
    else mret 0);
  _ ← panic_if (rf_nregs callee_rf <? u32 (arg_base + nargs));
  _ ← mfor 0 (length args) (fun i =>
    v ← must (args @! i); store_from_boxed callee_f callee_rf (arg_base + i) v);
  if fn_ncaps fo =? 0 then mret () else
  _ ← panic_if (rf_nregs callee_rf <? fn_ncaps fo);
  let cap_start := cap_start_of callee_f (rf_nregs callee_rf) (fn_ncaps fo) in
  _ ← panic_if (cap_start <? u32 (arg_base + nargs));
  store_caps callee_f callee_rf cap_start fo.

Definition vm_push_frame_entry (callee : Z) (funobj : option hobj) (args : list Z) : M bool :=
  s ← get_stack;
  if frames_exhausted s then stack_overflow else
  callee_f ← fun_at callee;
  _ ← panic_if (f_nregs callee_f <? zlen args);
  _ ← frames_grow_if_full;
  s ← get_stack;
  _ ← (if zlen (call_frames s) =? 0 then put_stack (set_top 0 s) else mret ());
  eb ← exc_base_now;
  fl ← vm_get_frame_layout m maddr callee;
  mem ← vm_frame_stack_bump (fl_total fl);
  let rf := new_rf fl mem in
  _ ← push_call_frame (new_frame callee fl 0 eb false false mem);
  _ ← init_frame_mem callee_f rf (fl_has_pointer_or_dynamic fl);
  _ ← match funobj with
  | Some fo => vm_init_closure_args_from_values callee_f rf fo args
  | None => mfor 0 (length args) (fun i =>
      v ← must (args @! i); store_from_boxed callee_f rf i v)
  end;
  mret true.

Definition vm_push_frame_from_values (callee : Z) (args : list Z) : M bool :=
  vm_push_frame_entry callee None args.

Definition JELLO_FUNC_INDEX_JDLL_PRIM : Z := 0xFFFFFFFE.

(** The bytecode index of a function object, if it is one. *)
Definition bytecode_index (fo : hobj) : option Z :=
  match fo with
  | HFunction _ fi _ _ | HFunctionRaw _ fi _ _ _ =>
    if jello_is_native_builtin fi || (fi =? JELLO_FUNC_INDEX_JDLL_PRIM) then None
    else if m_nfuncs m <=? fi - JELLO_NATIVE_BUILTIN_COUNT then None
    else Some (fi - JELLO_NATIVE_BUILTIN_COUNT)
  | _ => None
  end.

Definition vm_push_frame_closure_from_values (fo : hobj) (args : list Z) : M bool :=
  match bytecode_index fo with
  | Some fi => vm_push_frame_entry fi (Some fo) args
  | None => mret false
  end.
End Call.
