(* ===== verification/Exc.v ===== *)
(** * Traps and exceptions

    Model of src/src/vm/exc.c and of the fuel counter of src/src/vm.c.  The text
    of a stack trace ([vm_capture_uncaught_stack]) only goes to a buffer for the
    embedder and is left out. *)

From Stdlib Require Import String Ascii.
From stdpp Require Import pretty.
From S2P Require Import Prelude CInt Memory Bytecode Value Object Heap Vm Frame Float Gc Box Types Call.

Open Scope string_scope.
Open Scope Z_scope.

(** ** Messages *)

Definition string_of_bytes (l : list Z) : string :=
  fold_right (fun b s => String (ascii_of_nat (Z.to_nat b)) s) EmptyString l.

(** The characters before the first NUL. *)
Fixpoint c_string (l : list Z) : list Z :=
  match l with
  | [] => []
  | b :: l' => if b =? 0 then [] else b :: c_string l'
  end.

Definition bytes_of_string (s : string) : list Z :=
  (fun c => Z.of_nat (nat_of_ascii c)) <$> list_ascii_of_string s.

(** [snprintf(buf, cap, ...)] keeps [cap - 1] characters. *)
Definition snprintf (cap : nat) (s : string) : string := substring 0 (cap - 1) s.

(** What follows the last [c] of [s], if there is one. *)
Fixpoint after_last (c : ascii) (s : string) : option string :=
  match s with
  | EmptyString => None
  | String d s' =>
      match after_last c s' with
      | Some r => Some r
      | None => if Ascii.eqb c d then Some s' else None
      end
  end.

Definition trap_source_basename (path : string) : string :=
  match after_last "/" path with
  | Some r => r
  | None => default path (after_last "\" path)
  end.

Definition trap_msg_has_location (msg : string) : bool := bool_decide (is_Some (index 0 ".jello:" msg)).

Definition format_trap_loc (cap : nat) (file : string) (loc : Z) : string :=
  let line := u16 (Z.land loc 0xFFFF) in
  let col := u16 (Z.shiftr loc 16) in
  snprintf cap (if 0 <? col then file ++ ":" ++ pretty (Z.to_N line) ++ ":" ++ pretty (Z.to_N col) ++ ": "
                else file ++ ":" ++ pretty (Z.to_N line) ++ ": ").

Section Exc.
Context (malloc : gc_state -> Z -> option Z) (m : jello_bc_module) (junk : Z).

(** The prefix of [maybe_prefix_trap_location]; [None]: no prefix is put. *)
Definition trap_location (vm : jello_vm) : option string :=
  if running_module vm =? 0 then None else
  if negb (has_feature (m_features m) JELLO_BC_FEAT_LINE_TABLE) || (m_nsource_files m =? 0) then None else
  fr ← last (call_frames (v_stack vm));
  f ← m_funcs m @! (cf_f fr);
  if negb (f_nlines f =? f_ninsns f) || (cf_pc fr =? 0) then None else
  let pc := u32 (cf_pc fr - 1) in
  if f_nlines f <=? pc then None else
  loc ← f_lines f @! pc;
  if u16 (Z.land loc 0xFFFF) =? 0 then None else
  if m_nsource_files m <=? f_source_file f then None else
  file ← m_source_files m @! (f_source_file f);
  Some (format_trap_loc 512 (trap_source_basename (string_of_bytes (c_string file))) loc).

Definition jello_vm_trap (code : jello_trap_code) (msg : string) : M () := fun vm =>
  let text := if trap_msg_has_location msg then snprintf 512 msg else
  match trap_location vm with Some p => snprintf 512 (p ++ msg) | None => snprintf 512 msg end in
  raise code text vm.

(** [jello_vm_fuel_charge]: false is -1, the trap is raised. *)
Definition jello_vm_fuel_charge : M bool :=
  l ← get_limits;
  if fuel_limit l =? 0 then mret true else
  if fuel_remaining l =? 0 then
    _ ← jello_vm_trap JELLO_TRAP_FUEL "instruction limit exceeded"; mret false
  else
  _ ← put_limits (mk_limits (fuel_limit l) (fuel_remaining l - 1) (max_bytes_len l) (max_array_len l));
  mret true.

(** ** The handler stack, its top last *)

Definition set_handlers (hs : list exc_handler) : M () :=
  e ← get_exc; put_exc (mk_exc hs (exc_pending e) (exc_payload e) (trap_code e) (trap_msg e)).

(** Truncating it to a length already reached. *)
Definition set_handlers_len (n : Z) : M () :=
  e ← get_exc; set_handlers (take (Z.to_nat n) (exc_handlers e)).

Definition vm_exc_push (frame_index catch_pc dst_reg trap_only : Z) : M () :=
  e ← get_exc;
  set_handlers ((exc_handlers e) ++ [mk_handler frame_index catch_pc dst_reg (negb (trap_only =? 0))])%list.

Definition vm_exc_pop : M (option exc_handler) :=
  e ← get_exc;
  match last (exc_handlers e) with
  | None => mret None
  | Some h => _ ← set_handlers (removelast (exc_handlers e)); mret (Some h)
  end.

(** [while(len > 0 && hs[len - 1].frame_index == frame_index) len--]. *)
Fixpoint pop_for_frame (frame_index : Z) (rev_hs : list exc_handler) : list exc_handler :=
  match rev_hs with
  | h :: hs => if h_frame_index h =? frame_index then pop_for_frame frame_index hs else rev_hs
  | [] => []
  end.

Definition vm_exc_pop_for_frame (frame_index : Z) : M () :=
  e ← get_exc; set_handlers (rev (pop_for_frame frame_index (rev (exc_handlers e)))).

(** ** Unwinding *)

(** Releasing and dropping the top frame. *)
Definition drop_top_frame : M () :=
  s ← get_stack;
  fr ← must (last (call_frames s));
  _ ← vm_rf_release (cf_rf fr);
  s ← get_stack; put_stack (set_frames (removelast (call_frames s)) s).

Fixpoint release_frames (rev_frames : list call_frame) : M () :=
  match rev_frames with
  | [] => mret ()
  | fr :: frs => _ ← vm_rf_release (cf_rf fr); release_frames frs
  end.

Definition vm_unwind_all_frames : M () :=
  s ← get_stack;
  _ ← release_frames (rev (call_frames s));
  s ← get_stack; put_stack (set_frames [] (set_frames_cap 0 s)).

(** [while(vm->call_frames_len - 1u > h.frame_index)]; without a frame the length
    wraps and the access is out of range. *)
Fixpoint unwind_to (fuel : nat) (frame_index : Z) : M () :=
  s ← get_stack;
  let idx := u32 (zlen (call_frames s) - 1) in
  if idx <=? frame_index then mret () else
  match fuel with
  | O => crash
  | S fuel' =>
    _ ← vm_exc_pop_for_frame idx; _ ← drop_top_frame; unwind_to fuel' frame_index
  end.

(** ** The payload a handler gets *)

Definition trap_kind_name (code : jello_trap_code) : string :=
  match code with
  | JELLO_TRAP_TYPE_MISMATCH => "TypeMismatch"
  | JELLO_TRAP_BOUNDS => "Bounds"
  | JELLO_TRAP_NULL_DEREF => "NullDeref"
  | JELLO_TRAP_THROWN => "Thrown"
  | JELLO_TRAP_STACK_OVERFLOW => "StackOverflow"
  | JELLO_TRAP_FUEL => "Fuel"
  | JELLO_TRAP_LIMIT => "Limit"
  | JELLO_TRAP_NONE => "Trap"
  end.

Definition thrown_code : Z := code_of_trap JELLO_TRAP_THROWN.

Definition catch_payload_is_user_throw (e : exc_state) : bool :=
  if negb (bool_decide (trap_code e = JELLO_TRAP_THROWN)) then false else
  if negb (jello_is_i32 (exc_payload e)) then true else
  negb (jello_as_i32 (exc_payload e) =? thrown_code).

(** The first type of a kind, 0 if there is none. *)
Fixpoint first_type_id (k : jello_type_kind) (types : list jello_type_entry) (i : Z) : Z :=
  match types with
  | [] => 0
  | t :: ts => if kind_eqb (te_kind t) k then i else first_type_id k ts (i + 1)
  end.

Definition module_object_type_id : Z := first_type_id JELLO_T_OBJECT (m_types m) 0.
Definition module_bytes_type_id : Z := first_type_id JELLO_T_BYTES (m_types m) 0.

Fixpoint find_atom (name : list Z) (atoms : list (list Z)) (i : Z) : option Z :=
  match atoms with
  | [] => None
  | a :: atoms' => if bool_decide (c_string a = name) then Some i else find_atom name atoms' (i + 1)
  end.

Definition vm_module_atom_id_or_default (name : string) (def : Z) : Z :=
  default def (find_atom (bytes_of_string name) (m_atoms m) 0).

Definition JELLO_ATOM_KIND : Z := 2.
Definition JELLO_ATOM_MESSAGE : Z := 3.
Definition JELLO_ATOM_CODE : Z := 4.

(** A bytes object with a text. *)
Definition bytes_of_text (text : string) : M Z :=
  let l := bytes_of_string text in
  p ← jello_bytes_new malloc m module_bytes_type_id (zlen l);
  _ ← write_obj p (HBytes module_bytes_type_id l); mret p.

(** [jello_object_set(o, atom, v)]; a probe of three entries in eight slots ends. *)
Definition payload_set (p atom v : Z) : M () :=
  o ← deref p;
  match o with
  | HObject ob => ob' ← must (jello_object_set junk 64 ob atom v); write_obj p (HObject ob')
  | _ => crash
  end.

Definition vm_wrap_catch_payload : M Z := fun vm =>
  (e ← get_exc;
    if catch_payload_is_user_throw e then mret (exc_payload e) else
    if running_module vm =? 0 then mret (exc_payload e) else
    o ← jello_object_alloc malloc m junk module_object_type_id;
    let kind := if bool_decide (trap_code e = JELLO_TRAP_THROWN) && jello_is_i32 (exc_payload e) &&
    (jello_as_i32 (exc_payload e) =? thrown_code)
    then "Assert" else trap_kind_name (trap_code e) in
    kb ← bytes_of_text kind;
    _ ← payload_set o (vm_module_atom_id_or_default "kind" JELLO_ATOM_KIND) kb;
    _ ← (match trap_msg e with
      | Some msg => mb ← bytes_of_text msg;
      payload_set o (vm_module_atom_id_or_default "message" JELLO_ATOM_MESSAGE) mb
      | None => mret () end);
    _ ← payload_set o (vm_module_atom_id_or_default "code" JELLO_ATOM_CODE)
      (jello_make_i32 (code_of_trap (trap_code e)));
    mret o) vm.

(** ** Dispatch *)

(** The handlers above the first one, from the top, that takes the trap. *)
Fixpoint find_handler (thrown : bool) (rev_hs : list exc_handler)
  : option (exc_handler * list exc_handler) :=
  match rev_hs with
  | [] => None
  | h :: hs => if thrown && h_trap_only h then find_handler thrown hs else Some (h, hs)
  end.

(** True: nothing catches it, every frame is gone ([JELLO_EXEC_TRAP]). *)
Definition vm_exc_dispatch : M bool :=
  e ← get_exc;
  if negb (exc_pending e) then mret false else
  match find_handler (bool_decide (trap_code e = JELLO_TRAP_THROWN)) (rev (exc_handlers e)) with
  | None => _ ← vm_unwind_all_frames; _ ← set_handlers []; mret true
  | Some (h, hs) =>
    _ ← set_handlers (rev hs);
    s ← get_stack;
    _ ← unwind_to (length (call_frames s)) (h_frame_index h);
    s ← get_stack;
    _ ← panic_if (zlen (call_frames s) =? 0);
    target ← frame_at (h_frame_index h);
    _ ← set_frame_at (h_frame_index h) (set_pc (h_catch_pc h) target);
    payload ← vm_wrap_catch_payload;
    _ ← vm_store_val (cf_rf target) (h_dst_reg h) payload;
    e ← get_exc;
    _ ← put_exc (mk_exc (exc_handlers e) false jello_make_null (trap_code e) (trap_msg e));
    _ ← jello_vm_clear_trap;
    mret false
  end.
End Exc.
