(* ===== verification/JdllAbi.v ===== *)
(** * Description files of native libraries

    Model of the pure part of src/src/ffi/jdll_loader.c and of src/src/ffi/jdll_deps.c:
    the parsers of the ABI description of a library and of the dependencies of a module,
    and where a library is looked for.  A C string is the list of its bytes; the
    environment and the files are arguments, allocation may fail at any point.

    The parser of src/src/ffi/jdll_loader.c stays inside the file whatever it holds
    ([parse_abi_memory_safe]) and reads back what the format says ([abi_roundtrip]). *)

From Stdlib Require Import String.
From S2P Require Import Prelude CInt Memory Bytecode Exc.
#[local] Open Scope list_scope.
#[local] Open Scope Z_scope.

(** ** The reader *)

(** [PFail n bad]: 0 after [n] allocations; [bad] when [free_jdll_abi] of what is there
    follows a null pointer. *)
Inductive pres (A : Type) : Type :=
| POk (a : A) (i n : Z)
| PFail (n : Z) (bad : bool)
| PCrash.
Arguments POk {A} _ _ _.
Arguments PFail {A} _ _.
Arguments PCrash {A}.

(** The position [i] and the number of allocations so far. *)
Definition parser (A : Type) : Type := Z -> Z -> pres A.

#[export] Instance parser_ret : MRet parser := fun A a i n => POk a i n.
#[export] Instance parser_bind : MBind parser := fun A B k p i n =>
  match p i n with POk a i' n' => k a i' n' | PFail n' bad => PFail n' bad | PCrash => PCrash end.

Definition reject {A} (bad : bool) : parser A := fun _ n => PFail n bad.
Definition tell : parser Z := fun i n => POk i i n.
Definition seek (i : Z) : parser () := fun _ n => POk () i n.
Definition must_read {A} (o : option A) : parser A := fun i n =>
  match o with Some a => POk a i n | None => PCrash end.

Definition JDLL_ABI_VARARGS_ARITY : Z := 255.
Definition JDLL_ABI_MIXED_VARARGS_ARITY : Z := 254.

Record abi_export : Set := mk_export {
  ae_name : list Z;        (* export_names[e] *)
  ae_sym : list Z;
  ae_ret : Z;
  ae_arity : Z;
  ae_kinds : list Z        (* arg_kinds[e], arg_kind_lens[e] of them *)
}.

Record jdll_abi : Set := mk_abi { abi_library_id : list Z; abi_exports : list abi_export }.

(** "JLYDLLABI1" and "JLYJDLLDEPS1" with their terminators. *)
Definition JDLL_ABI_MAGIC : list Z := bytes_of_string "JLYDLLABI1" ++ [0].
Definition JDLL_DEPS_MAGIC : list Z := bytes_of_string "JLYJDLLDEPS1" ++ [0].

Section Parse.
Context (oom : Z -> bool) (data : list Z).

(** [malloc] or [calloc]: whether it gives memory. *)
Definition alloc : parser bool := fun i n => POk (negb (oom n)) i (n + 1).

(** [if(i + k > blen) return 0;] *)
Definition need (k : Z) : parser () := i ← tell; if zlen data <? u64 (i + k) then reject false else mret ().

Definition rd_u8 : parser Z := i ← tell; b ← must_read (data @! i); _ ← seek (i + 1); mret b.

Definition rd_bytes (k : Z) : parser (list Z) :=
  i ← tell; l ← must_read (block_read data i k); _ ← seek (i + k); mret l.

Definition rd_u32le : parser Z :=
  _ ← need 4;
  b0 ← rd_u8; b1 ← rd_u8; b2 ← rd_u8; b3 ← rd_u8;
  mret (Z.lor (Z.lor (Z.lor b0 (u32 (Z.shiftl b1 8))) (u32 (Z.shiftl b2 16))) (u32 (Z.shiftl b3 24))).

Definition rd_str : parser (list Z) :=
  len ← rd_u32le;
  _ ← need len;
  ok ← alloc;
  if negb (ok : bool) then reject false else rd_bytes len.

(** The magic word at the start. *)
Definition magic_ok (magic : list Z) : bool :=
  negb (zlen data <? zlen magic) && bool_decide (take (length magic) data = magic).

(** ** The ABI of a library *)

Definition rd_arg_kinds (n : Z) : parser (list Z) :=
  ok ← alloc; if negb (ok : bool) then reject false else rd_bytes n.

Definition rd_kinds (arity : Z) : parser (list Z) :=
  if arity =? JDLL_ABI_VARARGS_ARITY then _ ← need 1; rd_arg_kinds 1 else
  if arity =? JDLL_ABI_MIXED_VARARGS_ARITY then
    _ ← need 1; n ← rd_u8;
    if n =? 0 then reject false else _ ← need n; rd_arg_kinds n
  else if arity =? 0 then mret [] else
  ok ← alloc; if negb (ok : bool) then reject false else
  _ ← need arity; rd_bytes arity.

Definition rd_export : parser abi_export :=
  name ← rd_str; sym ← rd_str;
  _ ← need 2; ret ← rd_u8; arity ← rd_u8;
  kinds ← rd_kinds arity;
  mret (mk_export name sym ret arity kinds).

Fixpoint rd_exports (n : nat) : parser (list abi_export) :=
  match n with
  | O => mret []
  | S n' => e ← rd_export; l ← rd_exports n'; mret (e :: l)
  end.

(** The six tables; [free_jdll_abi] reads the symbols and the kinds when the names are there. *)
Definition alloc_tables (n : Z) : parser () :=
  names ← alloc; syms ← alloc; rets ← alloc; arities ← alloc; kinds ← alloc; lens ← alloc;
  if names && syms && rets && arities && kinds && lens then mret ()
  else reject (negb (n =? 0) && names && negb (syms && kinds)).

Definition parse_jdll_abi_bytes : parser jdll_abi :=
  if negb (magic_ok JDLL_ABI_MAGIC) then reject false else
  _ ← seek (zlen JDLL_ABI_MAGIC);
  version ← rd_u32le;
  if negb (version =? 1) then reject false else
  lib ← rd_str;
  n ← rd_u32le;
  _ ← alloc_tables n;
  l ← rd_exports (Z.to_nat n);
  mret (mk_abi lib l).

(** ** The dependencies of a module *)

Fixpoint rd_deps (n : nat) : parser (list (Z * list Z)) :=
  match n with
  | O => mret []
  | S n' => k ← rd_u32le; lib ← rd_str; l ← rd_deps n'; mret ((k, lib) :: l)
  end.

Definition parse_jdll_deps_blob : parser (list (Z * list Z)) :=
  if negb (magic_ok JDLL_DEPS_MAGIC) then reject false else
  _ ← seek (zlen JDLL_DEPS_MAGIC);
  version ← rd_u32le;
  if negb (version =? 1) then reject false else
  n ← rd_u32le;
  if n =? 0 then mret [] else
  ok ← alloc;
  if negb (ok : bool) then reject false else rd_deps (Z.to_nat n).
End Parse.

(** The first byte constant that is a list of dependencies, from [idx] on; the outer
    option: undefined. *)
Fixpoint find_deps (oom : Z -> bool) (m : jello_bc_module) (idx : Z) (k : nat) (n : Z)
    : option (option (list (Z * list Z))) :=
  match k with
  | O => Some None
  | S k' =>
    len ← m_const_bytes_len m @! idx;
    off ← m_const_bytes_off m @! idx;
    blob ← block_read (m_const_bytes_data m) off len;
    match parse_jdll_deps_blob oom blob 0 n with
    | POk deps _ _ => Some (Some deps)
    | PFail n' _ => find_deps oom m (idx + 1) k' n'
    | PCrash => None
    end
  end.

Definition extract_jdll_deps_module (oom : Z -> bool) (m : jello_bc_module) : option (option (list (Z * list Z))) :=
  find_deps oom m 0 (Z.to_nat (m_nconst_bytes m)) 0.

(** ** Where a description is *)

(** [parse_jdll_abi_file] on the content of the file: [None] is undefined. *)
Definition parse_jdll_abi_file (oom : Z -> bool) (data : list Z) : option (option jdll_abi) :=
  if oom 0 then Some None else
  match parse_jdll_abi_bytes oom data 0 1 with
  | POk abi _ _ => Some (Some abi)
  | PFail _ bad => if bad then None else Some None
  | PCrash => None
  end.

(** The description in the library itself: every offset with the magic word is tried. *)
Fixpoint scan_abi (oom : Z -> bool) (data : list Z) (n : Z) : option (option jdll_abi) :=
  if zlen data <? zlen JDLL_ABI_MAGIC then Some None else
  match data with
  | [] => Some None
  | _ :: rest =>
    if negb (magic_ok data JDLL_ABI_MAGIC) then scan_abi oom rest n else
    match parse_jdll_abi_bytes oom data 0 n with
    | POk abi _ _ => Some (Some abi)
    | PFail n' bad => if bad then None else scan_abi oom rest n'
    | PCrash => None
    end
  end.

Definition parse_jdll_abi_embedded (oom : Z -> bool) (data : list Z) : option (option jdll_abi) :=
  if oom 0 then Some None else scan_abi oom data 1.

(** ** Paths *)

Definition SLASH : Z := 47.
Definition COLON : Z := 58.
Definition path_is_sep (c : Z) : bool := c =? SLASH.

(** [path_last_sep]: its index. *)
Fixpoint last_sep (path : list Z) (i : Z) (last : option Z) : option Z :=
  match path with
  | [] => last
  | c :: rest => last_sep rest (i + 1) (if path_is_sep c then Some i else last)
  end.
Definition path_last_sep (path : list Z) : option Z := last_sep path 0 None.

Definition path_join2 (a b : list Z) : list Z :=
  match last a with
  | Some c => if path_is_sep c then a ++ b else a ++ [SLASH] ++ b
  | None => a ++ b
  end.

Definition path_dirname_dup (path : list Z) : list Z :=
  match path_last_sep path with
  | None => bytes_of_string "."
  | Some slash => take (Z.to_nat (if slash =? 0 then 1 else slash)) path
  end.

Section Files.
(** [getenv], and the content of a regular file. *)
Context (getenv : string -> option (list Z)) (file : list Z -> option (list Z)).

Definition path_is_file (path : list Z) : bool := bool_decide (is_Some (file path)).

Definition env_set (name : string) : option (list Z) :=
  match getenv name with Some (c :: l) => Some (c :: l) | _ => None end.

Definition jello_discovery_entry_path (argv_entry : list Z) : list Z :=
  match env_set "JELLO_ENTRY_PATH" with
  | Some env => env
  | None => match argv_entry with [] => bytes_of_string "." | _ => argv_entry end
  end.

(** The parts of a list of paths that are not empty. *)
Fixpoint split_paths (env part : list Z) : list (list Z) :=
  let flush := match part with [] => [] | _ => [part] end in
  match env with
  | [] => flush
  | c :: rest => if c =? COLON then flush ++ split_paths rest [] else split_paths rest (part ++ [c])
  end.

(** Up to twelve directories above: the last separator is cut off each time. *)
Fixpoint parents (n : nat) (cur : list Z) : list (list Z) :=
  match n with
  | O => []
  | S n' =>
    match path_last_sep cur with
    | None => []
    | Some slash =>
      if slash =? 0 then [] else
      let cur := take (Z.to_nat slash) cur in
      path_join2 cur (bytes_of_string "jdll") ::
        (if bool_decide (cur = bytes_of_string ".") then [] else parents n' cur)
    end
  end.

Definition collect_jdll_roots_c (entry_path : list Z) : list (list Z) :=
  let dir := path_dirname_dup entry_path in
  match env_set "JELLO_JDLL_PATH" with Some env => split_paths env [] | None => [] end ++
  [path_join2 dir (bytes_of_string "jdll"); dir] ++ parents 12 dir.

Definition resolve_jdll_key (entry_path key : list Z) : option (list Z) :=
  let rel := take 511 (key ++ bytes_of_string ".jdll") in
  List.find path_is_file ((fun root => path_join2 root rel) <$> collect_jdll_roots_c entry_path).

Definition jello_jdll_resolve_library (entry_path : option (list Z)) (library_id : list Z) : option (list Z) :=
  resolve_jdll_key (default (bytes_of_string ".") entry_path) library_id.

(** [%s.abi] next to the library, or the description in it. *)
Definition load_jdll_abi (oom : Z -> bool) (jdll_path : list Z) : option (option jdll_abi) :=
  match file (take 1023 (jdll_path ++ bytes_of_string ".abi")) with
  | Some data => parse_jdll_abi_file oom data
  | None =>
    match file jdll_path with
    | Some data => parse_jdll_abi_embedded oom data
    | None => Some None
    end
  end.

(** Whether every library a module asks for is found. *)
Definition jello_jdll_preflight_module (oom : Z -> bool) (m : jello_bc_module) (entry_path : option (list Z))
    : option bool :=
  deps ← extract_jdll_deps_module oom m;
  Some (match deps with
    | None => true
    | Some l => forallb (fun d => bool_decide (is_Some (jello_jdll_resolve_library entry_path (c_string d.2)))) l
    end).
End Files.

(** * Reading the description of a library *)

(** ** Memory safety *)

Section Safe.
Context (oom : Z -> bool) (data : list Z).
Context (Hbytes : Forall is_byte data) (Hsize : zlen data < 2 ^ 63).

Definition in_file (i : Z) : Prop := 0 <= i <= zlen data.

(** What a parser does from position [i]: it ends in the file with a result in [Q];
    cleaning up follows a null pointer only after an allocation has failed. *)
Definition safe_at {A} (p : parser A) (Q : A -> Prop) (i : Z) : Prop := forall n,
  match p i n with
  | POk a i' _ => in_file i' /\ Q a
  | PFail _ bad => bad = true -> exists k, oom k = true
  | PCrash => False
  end.

Definition safe_parser {A} (p : parser A) (Q : A -> Prop) : Prop := forall i, in_file i -> safe_at p Q i.

Lemma ps_ret {A} (a : A) (Q : A -> Prop) : Q a -> safe_parser (mret a) Q.
Proof. by intros Ha i H n. Qed.

Lemma ps_reject {A} (Q : A -> Prop) : safe_parser (reject false) Q.
Proof. intros i H n. cbn. discriminate. Qed.

Lemma ps_bind {A B} (p : parser A) (k : A -> parser B) P Q :
  safe_parser p P -> (forall a, P a -> safe_parser (k a) Q) -> safe_parser (p ≫= k) Q.
Proof.
  intros Hp Hk i H n. unfold mbind, parser_bind. specialize (Hp i H n).
  destruct (p i n) as [a i' n'| |]; [destruct Hp as [Hi Ha]; exact (Hk a Ha i' Hi n') | exact Hp..].
Qed.

Lemma ps_alloc : safe_parser (alloc oom) (fun b => b = false -> exists k, oom k = true).
Proof. intros i H n. cbn. split; [done|]. intros E. exists n. by apply negb_false_iff. Qed.

(** Memory, or 0. *)
Lemma ps_allocated {A} (p : parser A) Q i : safe_at p Q i ->
  safe_at (ok ← alloc oom; if negb (ok : bool) then reject false else p) Q i.
Proof. intros Hp n. unfold mbind, parser_bind, alloc. destruct (oom n); cbn; [discriminate | apply Hp]. Qed.

(** The test for [k] more bytes guards the reads of [p]. *)
Lemma ps_need {A} k (p : parser A) Q : is_u 32 k ->
  (forall i, 0 <= i -> i + k <= zlen data -> safe_at p Q i) -> safe_parser (_ ← need data k; p) Q.
Proof.
  unfold is_u. intros Hk Hp i [H1 H2] n. unfold need, tell, mbind, parser_bind. cbn.
  rewrite (wrapU_id 64) by (unfold is_u; lia). destruct (Z.ltb_spec (zlen data) (i + k)); [discriminate|].
  apply Hp; lia.
Qed.

(** One byte of those tested for, and the rest. *)
Lemma ps_u8 {A} k (p : Z -> parser A) Q i : 0 <= k -> 0 <= i -> i + (k + 1) <= zlen data ->
  (forall b i, is_byte b -> 0 <= i -> i + k <= zlen data -> safe_at (p b) Q i) -> safe_at (b ← rd_u8 data; p b) Q i.
Proof.
  intros Hk Hi Hz Hp n. unfold rd_u8, tell, seek, must_read, mbind, parser_bind. cbn.
  destruct (znth_in_range data i) as [b Hb]; [lia|]. rewrite Hb. cbn. apply Hp; [|lia..].
  exact (znth_Forall _ _ _ _ Hbytes Hb).
Qed.

Lemma ps_bytes k i : 0 <= k -> 0 <= i -> i + k <= zlen data -> safe_at (rd_bytes data k) (fun _ => True) i.
Proof.
  intros Hk Hi Hz n. unfold rd_bytes, tell, seek, must_read, mbind, parser_bind. cbn.
  destruct (block_read_is_Some data i k) as (l & -> & _); [lia..|]. cbn. unfold in_file. split; [lia | done].
Qed.

Lemma ps_end {A} (a : A) (Q : A -> Prop) i : Q a -> 0 <= i -> i + 0 <= zlen data -> safe_at (mret a) Q i.
Proof. intros Ha H1 H2 n. cbn. unfold in_file. split; [lia | done]. Qed.

Lemma ps_u32le : safe_parser (rd_u32le data) (is_u 32).
Proof.
  apply ps_need; [done|]. intros i H0 H1.
  apply (ps_u8 3); [lia..|]. intros b0 i0 ? ? ?. apply (ps_u8 2); [lia..|]. intros b1 i1 ? ? ?.
  apply (ps_u8 1); [lia..|]. intros b2 i2 ? ? ?. apply (ps_u8 0); [lia..|]. intros b3 i3 ? ? ?.
  apply ps_end; [|lia..]. rewrite le_word by done. apply (le_value_bound [b0; b1; b2; b3]). by rewrite !Forall_cons, Forall_nil.
Qed.

Lemma ps_str : safe_parser (rd_str oom data) (fun _ => True).
Proof.
  eapply ps_bind; [apply ps_u32le|]. intros len Hlen. apply ps_need; [done|]. intros i H0 H1.
  destruct Hlen as [Hl _]. by apply ps_allocated, ps_bytes.
Qed.

Lemma ps_kind_bytes k : is_u 32 k -> safe_parser (_ ← need data k; rd_arg_kinds oom data k) (fun _ => True).
Proof.
  intros Hk. apply ps_need; [done|]. intros i H0 H1. destruct Hk as [Hk _].
  by apply ps_allocated, ps_bytes.
Qed.

Lemma ps_byte_u32 b : is_byte b -> is_u 32 b.
Proof. unfold is_byte, is_u. lia. Qed.

Lemma ps_kinds arity : is_byte arity -> safe_parser (rd_kinds oom data arity) (fun _ => True).
Proof.
  intros Ha%ps_byte_u32. unfold rd_kinds. destruct (arity =? _); [by apply ps_kind_bytes|].
  destruct (arity =? JDLL_ABI_MIXED_VARARGS_ARITY).
  - apply ps_need; [done|]. intros i H0 H1. apply (ps_u8 0); [lia..|]. intros b i' Hb%ps_byte_u32 H2 H3.
    destruct (b =? 0); [intros n; cbn; discriminate|]. apply ps_kind_bytes; [done|]. unfold in_file. lia.
  - destruct (arity =? 0); [by apply ps_ret|]. intros i Hi. revert i Hi.
    assert (H : safe_parser (_ ← need data arity; rd_bytes data arity) (fun _ => True)).
    { apply ps_need; [done|]. intros i H0 H1. apply ps_bytes; [by destruct Ha | lia..]. }
    intros i Hi. apply ps_allocated. by apply H.
Qed.

Lemma ps_export : safe_parser (rd_export oom data) (fun _ => True).
Proof.
  eapply ps_bind; [apply ps_str|]. intros name _. eapply ps_bind; [apply ps_str|]. intros sym _.
  apply ps_need; [done|]. intros i H0 H1. apply (ps_u8 1); [lia..|]. intros ret i1 _ H2 H3.
  apply (ps_u8 0); [lia..|]. intros arity i2 Ha H4 H5.
  eapply ps_bind; [by apply ps_kinds| |unfold in_file; lia]. intros kinds _. by apply ps_ret.
Qed.

Lemma ps_exports k : safe_parser (rd_exports oom data k) (fun _ => True).
Proof.
  induction k as [|k IH]; cbn [rd_exports]; [by apply ps_ret|].
  eapply ps_bind; [apply ps_export|]. intros e _. eapply ps_bind; [apply IH|]. intros l _. by apply ps_ret.
Qed.

Lemma ps_tables k : safe_parser (alloc_tables oom k) (fun _ => True).
Proof.
  do 6 (eapply ps_bind; [apply ps_alloc|]; intros ? ?). destruct (_ && _) eqn:E; [by apply ps_ret|].
  intros i Hi n. cbn. intros _. repeat match goal with b : bool |- _ => destruct b end; try done; eauto.
Qed.

(** C18: The parser of a library's description, on any bytes and under any pattern of failing
    allocations, reads nothing outside them and ends inside them or rejects them; cleaning
    up after a rejection follows a null pointer only if an allocation has failed. *)
Theorem parse_abi_memory_safe :
  match parse_jdll_abi_bytes oom data 0 0 with
  | POk _ i _ => 0 <= i <= zlen data
  | PFail _ bad => bad = true -> exists k, oom k = true
  | PCrash => False
  end.
Proof.
  enough (H : safe_parser (parse_jdll_abi_bytes oom data) (fun _ => True)).
  { specialize (H 0 ltac:(unfold in_file; pose proof (zlen_nonneg data); lia) 0).
    destruct (parse_jdll_abi_bytes oom data 0 0); [apply H | done..]. }
  unfold parse_jdll_abi_bytes. destruct (magic_ok data JDLL_ABI_MAGIC) eqn:Em; cbn [negb]; [|apply ps_reject].
  intros i Hi. assert (Hm : in_file (zlen JDLL_ABI_MAGIC)).
  { unfold magic_ok in Em. apply andb_true_iff in Em as [Em _]. apply negb_true_iff, Z.ltb_ge in Em.
    unfold in_file. pose proof (zlen_nonneg JDLL_ABI_MAGIC). lia. }
  match goal with |- safe_at (seek ?k ≫= (fun _ => ?p)) _ _ => enough (Hp : safe_parser p (fun _ => True)) by exact (Hp k Hm) end.
  eapply ps_bind; [apply ps_u32le|]. intros version _. destruct (version =? 1); cbn [negb]; [|apply ps_reject].
  eapply ps_bind; [apply ps_str|]. intros lib _. eapply ps_bind; [apply ps_u32le|]. intros n _.
  eapply ps_bind; [apply ps_tables|]. intros _ _. eapply ps_bind; [apply ps_exports|]. intros l _.
  by apply ps_ret.
Qed.
End Safe.

(** ** The format, and reading it back *)

Definition enc_str (s : list Z) : list Z := le_bytes 4 (zlen s) ++ s.

(** The kinds of a mixed export are preceded by their number. *)
Definition enc_export (e : abi_export) : list Z :=
  enc_str (ae_name e) ++ enc_str (ae_sym e) ++ [ae_ret e; ae_arity e] ++
  (if ae_arity e =? JDLL_ABI_MIXED_VARARGS_ARITY then [zlen (ae_kinds e)] else []) ++ ae_kinds e.

Definition enc_abi (abi : jdll_abi) : list Z :=
  JDLL_ABI_MAGIC ++ le_bytes 4 1 ++ enc_str (abi_library_id abi) ++
  le_bytes 4 (zlen (abi_exports abi)) ++ concat (enc_export <$> abi_exports abi).

(** How many kinds an arity comes with. *)
Definition export_ok (e : abi_export) : Prop :=
  is_u 32 (zlen (ae_name e)) /\ is_u 32 (zlen (ae_sym e)) /\ is_u 8 (ae_arity e) /\
  (if ae_arity e =? JDLL_ABI_VARARGS_ARITY then zlen (ae_kinds e) = 1
   else if ae_arity e =? JDLL_ABI_MIXED_VARARGS_ARITY then 1 <= zlen (ae_kinds e) < 256
   else zlen (ae_kinds e) = ae_arity e).

Definition abi_ok (abi : jdll_abi) : Prop :=
  is_u 32 (zlen (abi_library_id abi)) /\ is_u 32 (zlen (abi_exports abi)) /\ Forall export_ok (abi_exports abi).

Section Roundtrip.
Context (data : list Z) (Hsize : zlen data < 2 ^ 63).

Abbreviation no_oom := (fun _ : Z => false).

(** Where the file goes on with [l], the parser reads [l] as [a]. *)
Definition reads {A} (p : parser A) (l : list Z) (a : A) : Prop := forall i n suf,
  0 <= i <= zlen data -> drop (Z.to_nat i) data = l ++ suf -> exists n', p i n = POk a (i + zlen l) n'.

Lemma rt_rest i l suf : 0 <= i <= zlen data -> drop (Z.to_nat i) data = l ++ suf ->
  0 <= i + zlen l <= zlen data /\ drop (Z.to_nat (i + zlen l)) data = suf.
Proof.
  intros Hi H. pose proof (zlen_nonneg l). split.
  - apply (f_equal length) in H. rewrite length_drop, length_app in H. unfold zlen in *. lia.
  - unfold zlen. rewrite Z2Nat.inj_add, Nat2Z.id, <- drop_drop, H by lia. by rewrite drop_app_length.
Qed.

Lemma rt_ret {A} (a : A) : reads (mret a) [] a.
Proof. intros i n suf Hi _. exists n. by rewrite zlen_nil, Z.add_0_r. Qed.

Lemma rt_bind {A B} (p : parser A) (k : A -> parser B) l l' a b :
  reads p l a -> reads (k a) l' b -> reads (p ≫= k) (l ++ l') b.
Proof.
  intros Hp Hk i n suf Hi H. rewrite <- app_assoc in H. destruct (Hp i n _ Hi H) as [n1 E1].
  destruct (rt_rest _ _ _ Hi H) as [Hi' H']. destruct (Hk (i + zlen l) n1 suf Hi' H') as [n2 E2].
  exists n2. unfold mbind, parser_bind. by rewrite E1, E2, zlen_app, Z.add_assoc.
Qed.

Lemma rt_alloc {A} (k : bool -> parser A) l a : reads (k true) l a -> reads (alloc no_oom ≫= k) l a.
Proof. intros Hk i n suf Hi H. destruct (Hk i (n + 1) suf Hi H) as [n' E]. by exists n'. Qed.

Lemma rt_need {A} k (p : parser A) l a : 0 <= k <= zlen l -> k < 2 ^ 32 -> reads p l a -> reads (_ ← need data k; p) l a.
Proof.
  intros Hk Hk' Hp i n suf Hi H. destruct (Hp i n suf Hi H) as [n' E]. exists n'.
  destruct (rt_rest i l suf Hi H) as [Hl _]. unfold need, tell, mbind, parser_bind. cbn.
  rewrite (wrapU_id 64) by (unfold is_u; lia). by destruct (Z.ltb_spec (zlen data) (i + k)); [lia|].
Qed.

Lemma rt_u8 {A} b (k : Z -> parser A) l a : reads (k b) l a -> reads (b ← rd_u8 data; k b) (b :: l) a.
Proof.
  intros Hk. apply (rt_bind _ _ [b] l b); [|done]. intros i n suf Hi H. exists n.
  assert (Hb : data @! i = Some b).
  { apply (f_equal (lookup O)) in H. rewrite lookup_drop, Nat.add_0_r in H. cbn in H.
    rewrite <- (Z2Nat.id i) by lia. by rewrite znth_lookup. }
  unfold rd_u8, tell, seek, must_read, mbind, parser_bind. cbn. by rewrite Hb.
Qed.

Lemma rt_bytes l : reads (rd_bytes data (zlen l)) l l.
Proof.
  intros i n suf Hi H. exists n. destruct (rt_rest i l suf Hi H) as [Hl _].
  unfold rd_bytes, tell, seek, must_read, mbind, parser_bind. cbn. pose proof (zlen_nonneg l).
  rewrite block_read_Some, H by lia. unfold zlen. by rewrite Nat2Z.id, take_app_length.
Qed.

Lemma rt_u32le v : is_u 32 v -> reads (rd_u32le data) (le_bytes 4 v) v.
Proof.
  intros Hv. apply rt_need; [by rewrite zlen_le_bytes | done|].
  pose proof (le_value_bytes 4 v) as E. pose proof (le_bytes_is_byte 4 v) as B. revert E B. cbn [le_bytes].
  intros E B. rewrite !Forall_cons in B. destruct B as (B0 & B1 & B2 & B3 & _).
  do 4 apply rt_u8. rewrite le_word, E by done. rewrite Z.mod_small by exact Hv. apply rt_ret.
Qed.

Lemma rt_str s : is_u 32 (zlen s) -> reads (rd_str no_oom data) (enc_str s) s.
Proof.
  intros Hs. eapply rt_bind; [by apply rt_u32le|]. apply rt_need; [|by destruct Hs|].
  - pose proof (zlen_nonneg s). lia.
  - apply rt_alloc. cbn [negb]. apply rt_bytes.
Qed.

Lemma rt_kinds e : export_ok e -> reads (rd_kinds no_oom data (ae_arity e))
  ((if ae_arity e =? JDLL_ABI_MIXED_VARARGS_ARITY then [zlen (ae_kinds e)] else []) ++ ae_kinds e) (ae_kinds e).
Proof.
  intros (_ & _ & Ha & Hk). unfold rd_kinds. destruct (Z.eqb_spec (ae_arity e) JDLL_ABI_VARARGS_ARITY) as [->|].
  { change (_ =? _) with false at 1. cbn [app]. rewrite <- Hk at 1. apply rt_need; [lia..|].
    unfold rd_arg_kinds. apply rt_alloc. cbn [negb]. rewrite <- Hk. apply rt_bytes. }
  destruct (Z.eqb_spec (ae_arity e) JDLL_ABI_MIXED_VARARGS_ARITY) as [_|].
  { cbn [app]. apply rt_need; [rewrite zlen_cons; lia | done|]. apply rt_u8.
    destruct (Z.eqb_spec (zlen (ae_kinds e)) 0); [lia|]. apply rt_need; [lia..|].
    unfold rd_arg_kinds. apply rt_alloc. apply rt_bytes. }
  cbn [app]. rewrite <- Hk. destruct (Z.eqb_spec (zlen (ae_kinds e)) 0) as [E|].
  - destruct (ae_kinds e); [apply rt_ret | rewrite zlen_cons in E; pose proof (zlen_nonneg l); lia].
  - apply rt_alloc. cbn [negb]. apply rt_need; [pose proof (zlen_nonneg (ae_kinds e)); lia | | apply rt_bytes].
    rewrite Hk. destruct Ha. lia.
Qed.

Lemma rt_export e : export_ok e -> reads (rd_export no_oom data) (enc_export e) e.
Proof.
  intros He. pose proof He as (Hn & Hs & _). unfold enc_export.
  eapply rt_bind; [by apply rt_str|]. eapply rt_bind; [by apply rt_str|].
  apply rt_need; [unfold zlen; rewrite length_app; cbn [length]; lia | done|]. do 2 apply rt_u8.
  rewrite <- (app_nil_r (_ ++ ae_kinds e)). eapply rt_bind; [by apply rt_kinds|].
  destruct e; apply rt_ret.
Qed.

Lemma rt_exports l : Forall export_ok l -> reads (rd_exports no_oom data (length l)) (concat (enc_export <$> l)) l.
Proof.
  induction 1 as [|e l He Hl IH]; cbn [rd_exports length fmap list_fmap concat]; [apply rt_ret|].
  eapply rt_bind; [by apply rt_export|]. rewrite <- (app_nil_r (concat _)).
  eapply rt_bind; [exact IH | apply rt_ret].
Qed.
End Roundtrip.

(** C17: Where memory can be had, the parser reads the description of a library, with anything
    behind it, back as exactly that description: names, symbols, result kinds and the
    argument kinds of fixed, variadic and mixed exports. *)
Theorem abi_roundtrip abi rest : abi_ok abi -> zlen (enc_abi abi ++ rest) < 2 ^ 63 ->
  exists n, parse_jdll_abi_bytes (fun _ => false) (enc_abi abi ++ rest) 0 0 = POk abi (zlen (enc_abi abi)) n.
Proof.
  intros (Hl & Hn & Hx) Hz. set (data := enc_abi abi ++ rest) in *.
  assert (Hm : magic_ok data JDLL_ABI_MAGIC = true).
  { unfold magic_ok, data, enc_abi. rewrite <- !app_assoc. rewrite take_app_length, bool_decide_eq_true_2, andb_true_r by done.
    rewrite zlen_app. apply negb_true_iff, Z.ltb_ge. match goal with |- _ <= _ + ?z => assert (0 <= z) by apply zlen_nonneg end. lia. }
  pose proof (zlen_nonneg data) as Hd. assert (Hmd : zlen JDLL_ABI_MAGIC <= zlen data).
  { unfold magic_ok in Hm. apply andb_true_iff in Hm as [Hm _]. by apply negb_true_iff, Z.ltb_ge in Hm. }
  unfold parse_jdll_abi_bytes. rewrite Hm. cbn [negb].
  match goal with |- exists n, (seek ?k ≫= (fun _ => ?p)) _ _ = _ =>
    assert (Hr : reads data p (drop (length JDLL_ABI_MAGIC) (enc_abi abi)) abi) end.
  { unfold enc_abi. rewrite drop_app_length. eapply rt_bind; [by apply rt_u32le|]. cbn [negb Z.eqb Pos.eqb].
    eapply rt_bind; [by apply rt_str|]. eapply rt_bind; [by apply rt_u32le|].
    unfold alloc_tables. rewrite <- (app_nil_l (concat _)). eapply rt_bind.
    - do 6 apply rt_alloc. cbn. apply rt_ret.
    - unfold zlen at 1. rewrite Nat2Z.id. rewrite <- (app_nil_r (concat _)).
      eapply rt_bind; [by apply rt_exports|]. destruct abi. apply rt_ret. }
  destruct (Hr (zlen JDLL_ABI_MAGIC) 0 rest) as [n E]; [pose proof (zlen_nonneg JDLL_ABI_MAGIC); lia | |].
  - unfold data, zlen. rewrite Nat2Z.id. apply drop_app_le. unfold enc_abi. rewrite length_app. lia.
  - exists n. etransitivity; [exact E|]. f_equal. unfold enc_abi. rewrite drop_app_length, (zlen_app JDLL_ABI_MAGIC). done.
Qed.

Definition sample_abi : jdll_abi :=
  mk_abi (bytes_of_string "std")
    [mk_export (bytes_of_string "md5") (bytes_of_string "jdll_std_md5") 10 1 [10];
     mk_export (bytes_of_string "max") (bytes_of_string "max_all") 5 255 [5];
     mk_export (bytes_of_string "fmt") (bytes_of_string "fmt_all") 10 254 [10; 16]].

Lemma abi_roundtrip_witness : exists n,
  parse_jdll_abi_bytes (fun _ => false) (enc_abi sample_abi ++ [7; 7]) 0 0 = POk sample_abi (zlen (enc_abi sample_abi)) n.
Proof.
  apply (abi_roundtrip sample_abi [7; 7]); [|by vm_compute].
  split; [by vm_compute|]. split; [by vm_compute|]. do 3 (apply Forall_cons; split; [by vm_compute|]). apply Forall_nil_2.
Defined.

Lemma parse_abi_memory_safe_witness :
  match parse_jdll_abi_bytes (fun n => n =? 3) (enc_abi sample_abi) 0 0 with
  | POk _ i _ => 0 <= i <= zlen (enc_abi sample_abi)
  | PFail _ bad => bad = true -> exists k, (k =? 3) = true
  | PCrash => False
  end.
Proof.
  apply (parse_abi_memory_safe (fun n => n =? 3) (enc_abi sample_abi)); [|by vm_compute].
  apply (bool_decide_unpack (Forall is_byte (enc_abi sample_abi))). by vm_compute.
Defined.

(** [free_jdll_abi] after the second of the six tables could not be had reads the symbols
    through the null pointer. *)
Lemma cleanup_follows_null : parse_jdll_abi_file (fun n => n =? 3) (enc_abi sample_abi) = None.
Proof. by vm_compute. Qed.
