(* ===== verification/Natives.v ===== *)
(** * Native builtins

    Model of src/src/vm/ops/ops_builtins.c, ops_macro_host.c and of src/src/vm/math.c: the
    functions bytecode calls by an index below JELLO_NATIVE_BUILTIN_COUNT.  The
    transcendental functions of the C library, [random], [exit], the text of [%g], the
    loader of libraries and the callbacks of the macro host are arguments. *)

From Stdlib Require Import String Ascii SpecFloat.
From stdpp Require Import pretty.
From S2P Require Import Prelude CInt Memory Bytecode Value Object Heap Vm Frame Float Gc Box Types Ops Call Exc.

#[local] Open Scope string_scope.
#[local] Open Scope Z_scope.

(** ** Doubles and integers *)

(** The finite double of an integral magnitude, with a sign. *)
Definition sf_of_mag (s : bool) (n : Z) : spec_float :=
  if n =? 0 then S754_zero s else of_int binary64 (if s then - n else n).

(** [trunc], [floor], [ceil], [round]: [r s m d] is the magnitude of [m / d] rounded. *)
Definition round_with (r : bool -> Z -> Z -> Z) (x : spec_float) : spec_float :=
  match x with
  | S754_finite s m e => if 0 <=? e then x else sf_of_mag s (r s (Z.pos m) (2 ^ (- e)))
  | _ => x
  end.

Definition div_up (m d : Z) : Z := - ((- m) / d).
Definition c_trunc : spec_float -> spec_float := round_with (fun _ m d => m / d).
Definition c_floor : spec_float -> spec_float := round_with (fun s m d => if s then div_up m d else m / d).
Definition c_ceil : spec_float -> spec_float := round_with (fun s m d => if s then m / d else div_up m d).
Definition c_round : spec_float -> spec_float := round_with (fun _ m d => (2 * m + d) / (2 * d)).

Definition is_nan (x : spec_float) : bool := match x with S754_nan => true | _ => false end.
Definition is_inf (x : spec_float) : bool := match x with S754_infinity _ => true | _ => false end.

(** ** Equality of values *)

(** [f64_is_exact_i64(f, &out)]: [None] is undefined behaviour, [Some None] is 0. *)
Definition f64_is_exact_i64 (f : spec_float) : option (option Z) :=
  if negb (isfinite f) then Some None else
  let t := c_trunc f in
  if negb (SFeqb f t) then Some None else
  if SFltb (f64_of_lit (2 ^ 63 - 1)) t || SFltb t (f64_of_lit (- 2 ^ 63)) then Some None else
  z ← to_int 64 t; Some (Some z).

Section Values.
(** The heap, and the NaN of the conversion from binary16. *)
Context (g : gc_state) (nan16 : bool -> Z).

(** The object behind a pointer; [valid v] when reading its header is defined. *)
Definition heap_obj (v : Z) : option hobj := if jello_is_ptr v then obj_at g v else None.
Definition valid (v : Z) : bool := negb (jello_is_ptr v) || bool_decide (is_Some (obj_at g v)).

Definition value_is_numeric (v : Z) : bool :=
  jello_is_i32 v ||
  match heap_obj v with
  | Some (HBoxI64 _ _ | HBoxF64 _ _ | HBoxF32 _ _ | HBoxF16 _ _) => true
  | _ => false
  end.

Definition value_as_f64 (v : Z) : option spec_float :=
  if jello_is_i32 v then Some (of_int binary64 (jello_as_i32 v)) else
  match heap_obj v with
  | Some (HBoxI64 _ x) => Some (of_int binary64 x)
  | Some (HBoxF64 _ b) => Some (decode binary64 b)
  | Some (HBoxF32 _ b) => Some (convert binary64 (decode binary32 b))
  | Some (HBoxF16 _ b) => u ← vm_f16_bits_to_f32 nan16 b; Some (convert binary64 (decode binary32 u))
  | _ => None
  end.

Definition value_as_exact_i64 (v : Z) : option Z :=
  if jello_is_i32 v then Some (jello_as_i32 v) else
  match heap_obj v with Some (HBoxI64 _ x) => Some x | _ => None end.

(** An integer against a value that is none. *)
Definition int_equals (i v : Z) : option bool :=
  match value_as_f64 v with
  | None => Some false
  | Some f =>
    e ← f64_is_exact_i64 f;
    Some (match e with Some j => i =? j | None => SFeqb (of_int binary64 i) f end)
  end.

Definition numeric_values_equal (a b : Z) : option bool :=
  match value_as_exact_i64 a, value_as_exact_i64 b with
  | Some ai, Some bi => Some (ai =? bi)
  | Some ai, None => int_equals ai b
  | None, Some bi => int_equals bi a
  | None, None =>
    match value_as_f64 a, value_as_f64 b with
    | Some af, Some bf => Some (SFeqb af bf)
    | _, _ => Some false
    end
  end.

Definition bytes_content_equal (p q : Z) (a b : list Z) : bool :=
  (p =? q) || ((zlen a =? zlen b) && bool_decide (a = b)).

(** The fields one by one, up to the first that differ. *)
Fixpoint fields_equal (eq : Z -> Z -> option bool) (l k : list Z) : option bool :=
  match l, k with
  | x :: l', y :: k' => r ← eq x y; if r : bool then fields_equal eq l' k' else Some false
  | [], _ => Some true
  | _ :: _, [] => None
  end.

(** [None]: undefined behaviour, or a recursion that does not end. *)
Fixpoint values_equal_upto (fuel : nat) (a b : Z) : option bool :=
  match fuel with
  | O => None
  | S fuel' =>
    if a =? b then Some true else
    if jello_is_null a || jello_is_null b then Some (jello_is_null a && jello_is_null b) else
    if jello_is_bool a || jello_is_bool b then
      Some (jello_is_bool a && jello_is_bool b && Bool.eqb (jello_as_bool a) (jello_as_bool b)) else
    if negb (valid a && valid b) then None else
    if value_is_numeric a || value_is_numeric b then
      if negb (value_is_numeric a) || negb (value_is_numeric b) then Some false
    else numeric_values_equal a b
    else
    if jello_is_atom a || jello_is_atom b then
      Some (jello_is_atom a && jello_is_atom b && (jello_as_atom a =? jello_as_atom b)) else
    match heap_obj a, heap_obj b with
    | Some (HBytes _ x), Some (HBytes _ y) => Some (bytes_content_equal a b x y)
    | Some (HEnum _ ta fa), Some (HEnum _ tb fb) =>
      if negb (ta =? tb) then Some false else
      if negb (zlen fa =? zlen fb) then Some false else
      fields_equal (values_equal_upto fuel') fa fb
    | _, _ => Some false
    end
  end.

(** A recursion deeper than the pairs of objects compares a pair with itself on the
    way to comparing it: it does not end. *)
Definition values_equal (a b : Z) : option bool :=
  let n := size (cells g) in values_equal_upto (S (S (n * n))) a b.
End Values.

(** ** Text of values *)

Definition show_i (z : Z) : string := pretty z.
Definition show_bool (b : bool) : string := if b then "true" else "false".
Definition show_n (z : Z) : string := pretty (Z.to_N z).

Section Natives.
Context (malloc : gc_state -> Z -> option Z) (m : jello_bc_module).
Context (nan32 nan64 junk : Z) (nan16 : bool -> Z).
(** [%g] of a double. *)
Context (show_g : spec_float -> string).

Abbreviation store_from_boxed := (vm_store_from_boxed malloc m nan32 nan64).
Abbreviation box_from_typed := (vm_box_from_typed malloc m).

(** A new byte string with a content. *)
Definition new_bytes (type_id : Z) (l : list Z) : M Z :=
  p ← jello_bytes_new malloc m type_id (zlen l);
  _ ← (if zlen l =? 0 then mret () else write_obj p (HBytes type_id l)); mret p.

(** What is left of a text in a buffer of [size] when a cut text counts as none. *)
Definition or_empty (size : Z) (text : string) : list Z :=
  let l := bytes_of_string text in if size <=? zlen l then [] else l.

Definition dst_type (ctx : exec_ctx) (dst : Z) : M Z := must (f_reg_types (cx_f ctx) @! dst).

Definition text_result (ctx : exec_ctx) (dst size : Z) (text : string) : M () :=
  t ← dst_type ctx dst;
  b ← new_bytes t (or_empty size text);
  vm_store_ptr (cx_rf ctx) dst b.

Definition native_math_sqrt (ctx : exec_ctx) (dst arg : Z) : M () :=
  x ← vm_load_f64 (cx_rf ctx) arg;
  vm_store_f64 (cx_rf ctx) dst
    (encode binary64 nan64 (SFsqrt (f_prec binary64) (f_emax binary64) (decode binary64 x))).

Definition native_i32_to_bytes (ctx : exec_ctx) (dst arg : Z) : M () :=
  x ← vm_load_u32 (cx_rf ctx) arg; text_result ctx dst 16 (show_i (i32 x)).

Definition native_f64_to_bytes (ctx : exec_ctx) (dst arg : Z) : M () :=
  x ← vm_load_f64 (cx_rf ctx) arg; text_result ctx dst 64 (show_g (decode binary64 x)).

Definition native_f64_is_nan (ctx : exec_ctx) (dst arg : Z) : M () :=
  x ← vm_load_f64 (cx_rf ctx) arg;
  vm_store_u32 (cx_rf ctx) dst (Z.b2z (is_nan (decode binary64 x))).

Definition native_f64_is_infinite (ctx : exec_ctx) (dst arg : Z) : M () :=
  x ← vm_load_f64 (cx_rf ctx) arg;
  vm_store_u32 (cx_rf ctx) dst (Z.b2z (is_inf (decode binary64 x))).

(** [%g] of a binary16 box gets the pattern, not the value. *)
Definition number_text (o : hobj) : option string :=
  match o with
  | HBoxF64 _ b => Some (show_g (decode binary64 b))
  | HBoxF32 _ b => Some (show_g (convert binary64 (decode binary32 b)))
  | HBoxF16 _ b => Some (show_g (of_int binary64 b))
  | _ => None
  end.

Definition immediate_text (v : Z) : option string :=
  if jello_is_null v then Some "null" else
  if jello_is_bool v then Some (show_bool (jello_as_bool v)) else
  if jello_is_i32 v then Some (show_i (jello_as_i32 v)) else None.

Definition pointer_text (o : hobj) : string :=
  match o with HEnum _ tag _ => "enum:" ++ show_n tag | _ => "[object]" end.

(** The bytes [value_to_bytes] makes its result of. *)
Definition value_bytes (v : Z) : M (list Z) :=
  match immediate_text v with
  | Some t => mret (or_empty 128 t)
  | None =>
    if jello_is_ptr v then
      o ← deref v;
      mret (match number_text o with
        | Some t => or_empty 128 t
        | None => match o with HBytes _ l => l | _ => or_empty 128 (pointer_text o) end
        end)
    else if jello_is_atom v then
      let aid := jello_as_atom v in
      mret (match (if aid <? m_natoms m then m_atoms m @! aid else None) with
        | Some name => c_string name
        | None => or_empty 128 ("atom:" ++ show_n aid)
        end)
    else mret (or_empty 128 "?")
  end.

Definition value_to_bytes (ctx : exec_ctx) (dst v : Z) : M Z :=
  t ← dst_type ctx dst; l ← value_bytes v; new_bytes t l.

Definition native_std_string (ctx : exec_ctx) (dst arg : Z) : M () :=
  v ← box_from_typed (cx_f ctx) (cx_rf ctx) arg;
  b ← value_to_bytes ctx dst v;
  vm_store_ptr (cx_rf ctx) dst b.

(** [snprintf(buf, bufsz, "\"%.*s\"", n, data)], then the dots of a longer string. *)
Definition quote : string := String "034" EmptyString.

Definition bytes_snippet (size : Z) (l : list Z) : string :=
  let text := quote ++ string_of_bytes (c_string (take 48 l)) ++ quote in
  let w := Z.of_nat (String.length text) in
  snprintf (Z.to_nat size) (text ++ (if (48 <? zlen l) && (w <? size) then "..." else "")).

Definition value_snippet (size : Z) (v : Z) : M string :=
  match immediate_text v with
  | Some t => mret (snprintf (Z.to_nat size) t)
  | None =>
    if jello_is_ptr v then
      o ← deref v;
      mret (match o with
        | HBoxI64 _ x => snprintf (Z.to_nat size) (show_i x)
        | HBytes _ l => bytes_snippet size l
        | _ => snprintf (Z.to_nat size) (default (pointer_text o) (number_text o))
        end)
    else mret (snprintf (Z.to_nat size)
        (if jello_is_atom v then "atom:" ++ show_n (jello_as_atom v) else "?"))
  end.

(** ** Equality *)

Definition equal_now (a b : Z) : M bool := g ← get_gc; must (values_equal g nan16 a b).

Definition box_two (ctx : exec_ctx) (first : Z) : M (Z * Z) :=
  a ← box_from_typed (cx_f ctx) (cx_rf ctx) first;
  b ← box_from_typed (cx_f ctx) (cx_rf ctx) (first + 1); mret (a, b).

Definition native_dyn_eq (ctx : exec_ctx) (ins : jello_insn) (first : Z) : M () :=
  '(a, b) ← box_two ctx first;
  eq ← equal_now a b;
  vm_store_u32 (cx_rf ctx) (i_a ins) (Z.b2z eq).

Definition ends_with_colon_space (l : list Z) : bool :=
  match rev l with 32 :: 58 :: _ => true | _ => false end.

(** [jello_vm_trap(vm, THROWN, vm->trap_msg_buf)]: printing the buffer into itself, undefined
    in C, is taken to leave it alone; with a location in front it overwrites what it reads. *)
Definition trap_from_buffer (text : string) : M () := fun vm =>
  match (if trap_msg_has_location text then None else trap_location m vm) with
  | Some _ => Crash
  | None => raise JELLO_TRAP_THROWN (snprintf 512 text) vm
  end.

(** The text of the message argument, when it is a byte string that is not empty. *)
Definition message_arg (ctx : exec_ctx) (ins : jello_insn) (first : Z) : M (option (list Z)) :=
  if i_c ins <? 3 then mret None else
  v ← box_from_typed (cx_f ctx) (cx_rf ctx) (first + 2);
  if negb (jello_is_ptr v) then mret None else
  o ← deref v;
  mret (match o with HBytes _ [] => None | HBytes _ l => Some l | _ => None end).

Definition native_system_assert_eq (ctx : exec_ctx) (ins : jello_insn) (first : Z) : M () :=
  '(actual, expected) ← box_two ctx first;
  eq ← equal_now actual expected;
  if eq : bool then vm_store_u32 (cx_rf ctx) (i_a ins) 1 else
  a ← value_snippet 128 actual;
  e ← value_snippet 128 expected;
  let what := "expected " ++ e ++ " but got " ++ a in
  msg ← message_arg ctx ins first;
  trap_from_buffer (snprintf 512 (match msg with
    | Some l => string_of_bytes (c_string (take 160 l)) ++ (if ends_with_colon_space l then "" else ": ") ++ what
    | None => what
    end)).

Definition JELLO_ATOM_EQUAL : Z := 5.
Definition JELLO_ATOM_DIFF : Z := 6.

(** [jello_object_set] on an object of the heap. *)
Definition set_property (p atom v : Z) : M () := payload_set junk p atom v.

Definition difference (a b : Z) : M string :=
  ab ← value_snippet 96 a; bb ← value_snippet 96 b;
  mret (snprintf 256 ("expected " ++ bb ++ " but got " ++ ab)).

Definition native_deep_equal (ctx : exec_ctx) (ins : jello_insn) (first : Z) : M () :=
  '(a, b) ← box_two ctx first;
  eq ← equal_now a b;
  diff ← (if (eq : bool) then mret EmptyString else difference a b);
  t ← dst_type ctx (i_a ins);
  o ← jello_object_alloc malloc m junk t;
  let diff_atom := vm_module_atom_id_or_default m "diff" JELLO_ATOM_DIFF in
  _ ← set_property o (vm_module_atom_id_or_default m "equal" JELLO_ATOM_EQUAL) (jello_make_bool eq);
  _ ← (if (eq : bool) then set_property o diff_atom jello_make_null else
    d ← new_bytes (module_bytes_type_id m) (bytes_of_string diff);
    set_property o diff_atom d);
  vm_store_ptr (cx_rf ctx) (i_a ins) o.

(** ** Mathematics *)

(** [isnan(x) || isinf(x) || x == 0.0 || x == -0.0]. *)
Definition to_uint32_zero (x : spec_float) : bool :=
  match x with S754_finite _ _ _ => false | _ => true end.

Definition jello_to_uint32 (x : spec_float) : option Z :=
  if to_uint32_zero x then Some 0 else
  if SFltb x (f64_of_lit 0) then z ← to_int 64 x; Some (u32 z) else
  if negb (SFltb x (f64_of_lit 4294967296)) then Some 0xFFFFFFFF else
  z ← trunc_sf x; Some (u32 z).

(** [__builtin_clz]. *)
Definition jello_clz32 (bits : Z) : Z := if bits =? 0 then 32 else 31 - Z.log2 bits.

Definition fl (x : spec_float) : Z := encode binary64 nan64 x.
Definition unfl (b : Z) : spec_float := decode binary64 b.
Definition lit (z : Z) : Z := fl (of_int binary64 z).

(** [random()]. *)
Context (random : M Z).

Definition jello_math_random : M Z :=
  r ← random; mret (fl_div binary64 nan64 (lit r) (lit (2 ^ 31))).

(** The arguments from the second on. *)
Fixpoint minmax_loop (rf : reg_frame) (is_max : bool) (r : Z) (n : nat) (acc : Z) : M Z :=
  match n with
  | O => mret acc
  | S n' =>
    x ← vm_load_f64 rf r;
    if is_nan (unfl x) then mret x else
    let better := if is_max then fl_lt binary64 acc x else fl_lt binary64 x acc in
    minmax_loop rf is_max (r + 1) n' (if better then x else acc)
  end.

Definition jello_math_variadic_minmax (rf : reg_frame) (nargs first empty : Z) (is_max : bool) : M Z :=
  if nargs =? 0 then mret empty else
  acc ← vm_load_f64 rf first;
  if is_nan (unfl acc) then mret acc
  else minmax_loop rf is_max (first + 1) (Z.to_nat (nargs - 1)) acc.

(** [fabs]. *)
Definition c_fabs (b : Z) : Z := Z.land b (2 ^ 63 - 1).

(** The functions of <math.h> whose results C leaves to the implementation. *)
Inductive libm1 : Set :=
| CBRT | EXP | EXPM1 | LOG | LOG1P | LOG10 | LOG2 | SIN | COS | TAN | ASIN | ACOS | ATAN
| SINH | ASINH | COSH | ACOSH | TANH | ATANH.
Inductive libm2 : Set := POW | ATAN2 | HYPOT.
Context (call1 : libm1 -> Z -> Z) (call2 : libm2 -> Z -> Z -> Z).

(** The largest magnitude; [inl x]: an argument is the NaN [x]. *)
Fixpoint hypot_max (rf : reg_frame) (r : Z) (n : nat) (mx : Z) : M (Z + Z) :=
  match n with
  | O => mret (inr mx)
  | S n' =>
    x ← vm_load_f64 rf r;
    if is_nan (unfl x) then mret (inl x) else
    let ax := c_fabs x in
    hypot_max rf (r + 1) n' (if fl_lt binary64 mx ax then ax else mx)
  end.

Fixpoint hypot_sum (rf : reg_frame) (mx r : Z) (n : nat) (sum : Z) : M Z :=
  match n with
  | O => mret sum
  | S n' =>
    x ← vm_load_f64 rf r;
    let scaled := fl_div binary64 nan64 x mx in
    hypot_sum rf mx (r + 1) n' (fl_add binary64 nan64 sum (fl_mul binary64 nan64 scaled scaled))
  end.

Definition c_sqrt (b : Z) : Z := fl (SFsqrt (f_prec binary64) (f_emax binary64) (unfl b)).

Definition jello_math_hypot (rf : reg_frame) (nargs first : Z) : M Z :=
  if nargs =? 0 then mret 0 else
  if nargs =? 1 then
    x ← vm_load_f64 rf first; mret (if is_nan (unfl x) then x else c_fabs x)
  else if nargs =? 2 then
    x ← vm_load_f64 rf first; y ← vm_load_f64 rf (first + 1); mret (call2 HYPOT x y)
  else
  mx ← hypot_max rf first (Z.to_nat nargs) 0;
  match mx with
  | inl x => mret x
  | inr mx =>
    if fl_eq binary64 mx 0 then mret 0 else
    sum ← hypot_sum rf mx first (Z.to_nat nargs) 0;
    mret (fl_mul binary64 nan64 mx (c_sqrt sum))
  end.

Definition jello_math_sign (x : Z) : Z :=
  if is_nan (unfl x) then nan64 else
  if fl_eq binary64 x 0 then x else
  if fl_lt binary64 0 x then lit 1 else lit (-1).

(** JELLO_NATIVE_BUILTIN_MATH_ABS to JELLO_NATIVE_BUILTIN_MATH_SIGN, from 12 on. *)
Inductive math_fn : Set :=
| M_ABS | M_CEIL | M_FLOOR | M_ROUND | M_TRUNC | M_1 (f : libm1) | M_POW | M_ATAN2
| M_MAX | M_MIN | M_RANDOM | M_CLZ32 | M_FROUND | M_HYPOT | M_IMUL | M_SIGN.

Definition JELLO_NATIVE_BUILTIN_MATH_ABS : Z := 12.
Definition JELLO_NATIVE_BUILTIN_MATH_SIGN : Z := 45.

Definition all_math_fns : list math_fn :=
  [M_ABS; M_CEIL; M_FLOOR; M_ROUND; M_TRUNC; M_1 CBRT; M_1 EXP; M_1 EXPM1; M_1 LOG; M_1 LOG1P; M_1 LOG10;
    M_1 LOG2; M_POW; M_1 SIN; M_1 COS; M_1 TAN; M_1 ASIN; M_1 ACOS; M_1 ATAN; M_ATAN2; M_1 SINH; M_1 ASINH;
    M_1 COSH; M_1 ACOSH; M_1 TANH; M_1 ATANH; M_MAX; M_MIN; M_RANDOM; M_CLZ32; M_FROUND; M_HYPOT; M_IMUL;
    M_SIGN].

(** The double a function answers; [x] is the first argument. *)
Definition math_result (rf : reg_frame) (nargs first : Z) (fn : math_fn) (x : Z) : M Z :=
  let inf (s : bool) := fl (S754_infinity s) in
  match fn with
  | M_ABS => mret (c_fabs x)
  | M_CEIL => mret (fl (c_ceil (unfl x)))
  | M_FLOOR => mret (fl (c_floor (unfl x)))
  | M_ROUND => mret (fl (c_round (unfl x)))
  | M_TRUNC => mret (fl (c_trunc (unfl x)))
  | M_1 f => mret (call1 f x)
  | M_POW => y ← vm_load_f64 rf (first + 1); mret (call2 POW x y)
  | M_ATAN2 => x' ← vm_load_f64 rf first; y ← vm_load_f64 rf (first + 1); mret (call2 ATAN2 x' y)
  | M_MAX => jello_math_variadic_minmax rf nargs first (inf true) true
  | M_MIN => jello_math_variadic_minmax rf nargs first (inf false) false
  | M_RANDOM => jello_math_random
  | M_FROUND => mret (f64_of_f32 nan64 (f32_of_f64 nan32 x))
  | M_HYPOT => jello_math_hypot rf nargs first
  | M_SIGN => mret (jello_math_sign x)
  | M_CLZ32 | M_IMUL => panic
  end.

Definition jello_invoke_math_native (ctx : exec_ctx) (ins : jello_insn) (fi first : Z) : M () :=
  let rf := cx_rf ctx in
  x ← vm_load_f64 rf first;
  match all_math_fns @! (fi - JELLO_NATIVE_BUILTIN_MATH_ABS) with
  | None => panic
  | Some M_CLZ32 =>
    bits ← must (jello_to_uint32 (unfl x)); vm_store_u32 rf (i_a ins) (jello_clz32 bits)
  | Some M_IMUL =>
    a ← vm_load_u32 rf first; b ← vm_load_u32 rf (first + 1);
    let p := i32 a * i32 b in
    if bool_decide (is_s 32 p) then vm_store_u32 rf (i_a ins) (u32 p) else crash
  | Some fn => y ← math_result rf (i_c ins) first fn x; vm_store_f64 rf (i_a ins) y
  end.

(** ** The macro host *)

(** The callbacks: the result code, and what they write to [out_id]. *)
Inductive macro_call : Set :=
| jello_rust_macro_emit (frag_id : Z)
| jello_rust_macro_show (frag_id : Z)
| jello_rust_macro_parse (src kind : list Z)
| jello_rust_macro_gensym (prefix : list Z)
| jello_rust_macro_quote (template_idx : Z)
| jello_rust_macro_splice (frag_id : Z)
| jello_rust_macro_param (param_idx : Z)
| jello_rust_macro_emit_all (frag_id : Z).
Context (macro_host : macro_call -> M (Z * Z)).

Definition load_bytes_arg (rf : reg_frame) (r : Z) : M (option (list Z)) :=
  v ← vm_load_val rf r;
  if negb (jello_is_ptr v) then mret None else
  o ← deref v; mret (match o with HBytes _ l => Some l | _ => None end).

Definition load_i32_arg (rf : reg_frame) (r : Z) : M Z := x ← vm_load_u32 rf r; mret (i32 x).

(** A byte string that is there and not empty, or the default. *)
Definition text_arg (given : bool) (rf : reg_frame) (r : Z) (def : string) : M (list Z) :=
  if negb given then mret (bytes_of_string def) else
  b ← load_bytes_arg rf r;
  mret (match b with Some (x :: l) => (x :: l)%list | _ => bytes_of_string def end).

(** What is asked of the host; [inl]: the message of the trap. *)
Definition macro_request (rf : reg_frame) (op nargs arg0 : Z) : M (string + macro_call) :=
  let need (msg : string) (k : M (string + macro_call)) := if nargs <? 1 then mret (inl msg) else k in
  match op with
  | 0 => need "Macro.emit expects fragment id"
    (x ← load_i32_arg rf arg0; mret (inr (jello_rust_macro_emit x)))
  | 1 => need "Macro.show expects fragment id"
    (x ← load_i32_arg rf arg0; mret (inr (jello_rust_macro_show x)))
  | 2 => need "Macro.parse expects source"
    (src ← load_bytes_arg rf arg0;
      match src with
      | None => mret (inl "Macro.parse source must be Bytes")
      | Some src => kind ← text_arg (2 <=? nargs) rf (arg0 + 1) "auto";
        mret (inr (jello_rust_macro_parse src kind))
      end)
  | 3 => prefix ← text_arg (1 <=? nargs) rf arg0 "tmp"; mret (inr (jello_rust_macro_gensym prefix))
  | 4 => need "Macro.__quote expects template index"
    (x ← load_i32_arg rf arg0; mret (inr (jello_rust_macro_quote (u32 x))))
  | 5 => need "Macro.__splice expects fragment id"
    (x ← load_i32_arg rf arg0; mret (inr (jello_rust_macro_splice x)))
  | 6 => need "Macro.__param expects index"
    (x ← load_i32_arg rf arg0; mret (inr (jello_rust_macro_param (u32 x))))
  | 7 => need "Macro.emit_all expects fragment id"
    (x ← load_i32_arg rf arg0; mret (inr (jello_rust_macro_emit_all x)))
  | _ => mret (inl "unknown macro host op")
  end.

(** Whether the callback is given [&out_id]. *)
Definition has_out (c : macro_call) : bool :=
  match c with
  | jello_rust_macro_emit _ | jello_rust_macro_show _ | jello_rust_macro_emit_all _ => false
  | _ => true
  end.

Definition jello_invoke_macro_host_native (ctx : exec_ctx) (ins : jello_insn) (first : Z) : M () :=
  let rf := cx_rf ctx in
  op ← load_i32_arg rf first;
  let nargs := if 1 <=? i_c ins then i_c ins - 1 else 0 in
  req ← macro_request rf (u32 op) nargs (first + 1);
  match req with
  | inl msg => jello_vm_trap m JELLO_TRAP_THROWN msg
  | inr c =>
    '(rc, out) ← macro_host c;
    if rc <? 0 then jello_vm_trap m JELLO_TRAP_THROWN "macro host trap"
    else vm_store_u32 rf (i_a ins) (u32 (if has_out c then out else 0))
  end.

(** ** Arguments of the program, initialisation of libraries, exit *)

(** [exit(code)], [vm->program_argv] and [jello_jdll_fill_exports(ctx, exports, key)]. *)
Context (exit : Z -> M ()) (program_argv : list (list Z)) (fill_exports : exec_ctx -> Z -> Z -> M bool).

Definition native_system_exit (ctx : exec_ctx) (ins : jello_insn) (first : Z) : M () :=
  if 1 <=? i_c ins then code ← vm_load_u32 (cx_rf ctx) first; exit (i32 code) else exit 123.

(** The list is built from its end. *)
Fixpoint args_list (list_type bytes_type : Z) (rev_argv : list (list Z)) (tail : Z) : M Z :=
  match rev_argv with
  | [] => mret tail
  | s :: rest =>
    b ← new_bytes bytes_type (c_string s);
    tail ← jello_list_cons malloc m list_type b tail;
    args_list list_type bytes_type rest tail
  end.

Definition native_system_args (ctx : exec_ctx) (dst : Z) : M () :=
  t ← dst_type ctx dst;
  match (if m_ntypes m <=? t then None else m_types m @! t) with
  | Some te =>
    if kind_eqb (te_kind te) JELLO_T_LIST then
      tail ← args_list t (te_as te) (rev program_argv) 0;
      vm_store_ptr (cx_rf ctx) dst tail
    else panic
  | None => panic
  end.

Definition native_jdll_init (ctx : exec_ctx) (ins : jello_insn) (first : Z) : M () :=
  ok ← fill_exports ctx first (first + 1);
  if negb (ok : bool) then mret () else
  v ← box_from_typed (cx_f ctx) (cx_rf ctx) first;
  store_from_boxed (cx_f ctx) (cx_rf ctx) (i_a ins) v.

(** ** The dispatcher *)

Definition jello_invoke_native_builtin (ctx : exec_ctx) (ins : jello_insn) (fi first : Z) : M () :=
  if JELLO_NATIVE_BUILTIN_COUNT <=? fi then panic else
  match fi with
  | 0 => native_math_sqrt ctx (i_a ins) first
  | 1 => native_system_exit ctx ins first
  | 2 => native_i32_to_bytes ctx (i_a ins) first
  | 3 => native_f64_to_bytes ctx (i_a ins) first
  | 4 => native_f64_is_nan ctx (i_a ins) first
  | 5 => native_f64_is_infinite ctx (i_a ins) first
  | 6 => native_std_string ctx (i_a ins) first
  | 7 => native_jdll_init ctx ins first
  | 8 => native_system_args ctx (i_a ins)
  | 9 => native_system_assert_eq ctx ins first
  | 10 => native_dyn_eq ctx ins first
  | 11 => native_deep_equal ctx ins first
  | _ =>
    if (JELLO_NATIVE_BUILTIN_MATH_ABS <=? fi) && (fi <=? JELLO_NATIVE_BUILTIN_MATH_SIGN)
    then jello_invoke_math_native ctx ins fi first
    else if fi =? 46 then jello_invoke_macro_host_native ctx ins first else panic
  end.
End Natives.
