(* ===== verification/NativeThms.v ===== *)
(** * Equality of values

    [values_equal] decides equality of what values denote ([values_equal_decides]):
    numbers by mathematical value whatever their width or format, byte strings by
    content, enums by tag and fields. *)

From Stdlib Require Import SpecFloat.
From S2P Require Import Prelude CInt Memory Bytecode Value Object Heap Vm Frame Float FloatThms FloatExact Gc Box Types Ops Call Exc Natives.

#[local] Open Scope list_scope.
#[local] Open Scope Z_scope.

(** ** Doubles that are integers *)

Lemma trunc_spec f v : good f -> scaled f = Some v ->
  SFeqb f (c_trunc f) = (v mod unit_ =? 0) /\
  (v mod unit_ = 0 -> good (c_trunc f) /\ scaled (c_trunc f) = Some v).
Proof.
  assert (Hu : 0 < unit_) by (apply Z.pow_pos_nonneg; lia).
  destruct f as [s| | |s m e]; try discriminate; intros Hg Hs; cbn [c_trunc round_with].
  { injection Hs as <-. by rewrite Z.mod_0_l by lia. }
  destruct (canonical_range _ _ Hg) as (He & Hm & _).
  destruct (Z.leb_spec 0 e) as [He0|He0].
  - assert (v mod unit_ = 0) as ->.
    { cbn in Hs. injection Hs as <-. rewrite Z.pow_add_r, Z.mul_assoc by lia. destruct s.
      - rewrite <- Z.mul_opp_l. by apply Z.mod_mul, Z.neq_sym, Z.lt_neq.
      - by apply Z.mod_mul, Z.neq_sym, Z.lt_neq. }
    split; [|done]. rewrite (SFeqb_scaled _ _ v v) by done. by rewrite Z.eqb_refl.
  - set (d := 2 ^ (- e)). set (k := 2 ^ (e + 1074)). set (n := Z.pos m / d).
    assert (Hd : 1 < d) by (apply (Z.pow_gt_1 2); lia).
    assert (Hk : 0 < k) by (apply Z.pow_pos_nonneg; lia).
    assert (Hv : v = (if s then - Z.pos m else Z.pos m) * k) by (injection Hs as <-; fold k; destruct s; lia).
    assert (Hsplit : unit_ = k * d) by (apply unit_split; lia). clearbody d k.
    assert (Hn : 0 <= n <= Z.pos m) by (split; [apply Z.div_pos; lia | apply Z.div_le_upper_bound; nia]).
    assert (Hval : good (sf_of_mag s n) /\ scaled (sf_of_mag s n) = Some ((if s then - n else n) * unit_)).
    { unfold sf_of_mag. destruct (Z.eqb_spec n 0) as [->|Hn0]; [by destruct s|].
      apply (normalize_exact (if s then - n else n) 0); destruct s; lia. }
    destruct Hval as [Hg' Hs'].
    assert (Heq : SFeqb (S754_finite s m e) (sf_of_mag s n) = (v mod unit_ =? 0) /\
                  (v mod unit_ = 0 -> v = (if s then - n else n) * unit_)).
    { rewrite (SFeqb_scaled _ _ _ _ Hg Hg' Hs Hs'), Hv, Hsplit.
      rewrite (Z.mul_comm k d), Z.mul_mod_distr_r by lia.
      assert (Hdm : Z.pos m = d * n + Z.pos m mod d) by (apply Z.div_mod; lia).
      assert (Hr : 0 <= Z.pos m mod d < d) by (apply Z.mod_pos_bound; lia).
      assert (Hmod : (if s then - Z.pos m else Z.pos m) mod d = 0 <-> Z.pos m = n * d).
      { destruct s; [|lia]. split; intros H.
        - apply Z.mod_opp_l_z in H; [|lia]. rewrite Z.opp_involutive in H. lia.
        - apply Z.mod_opp_l_z; lia. }
      split.
      - apply eq_true_iff_eq. rewrite !Z.eqb_eq. split.
        + intros H. assert (Z.pos m = n * d) as H1%Hmod; [|rewrite H1; lia].
          apply (Z.mul_reg_r _ _ k); [lia|]. destruct s; lia.
        + intros H. assert ((if s then - Z.pos m else Z.pos m) mod d = 0) as ->%Hmod by nia. destruct s; lia.
      - intros H. assert ((if s then - Z.pos m else Z.pos m) mod d = 0) as ->%Hmod by nia. destruct s; lia. }
    destruct Heq as [-> Himp]. split; [done|]. intros H. split; [done|]. rewrite Hs'. f_equal. symmetry. by apply Himp.
Qed.

Abbreviation max64 := 9223372036854775808.

(** An integral double in the range of int64_t is that integer; 2^63 is undefined. *)
Lemma f64_is_exact_spec f v : good f -> scaled f = Some v ->
  f64_is_exact_i64 f =
    if (v mod unit_ =? 0) && (- max64 <=? v / unit_) && (v / unit_ <=? max64)
    then if v / unit_ =? max64 then None else Some (Some (v / unit_))
    else Some None.
Proof.
  intros Hg Hs. assert (Hu : 0 < unit_) by (apply Z.pow_pos_nonneg; lia).
  assert (Hfin : isfinite f = true) by (by destruct f). destruct (trunc_spec f v Hg Hs) as [Heq Ht].
  unfold f64_is_exact_i64. rewrite Hfin, Heq. cbn [negb]. destruct (Z.eqb_spec (v mod unit_) 0) as [H0|]; [|done].
  destruct (Ht H0) as [Hgt Hst]. cbn [negb andb].
  assert (Hlo : scaled (f64_of_lit (- 2 ^ 63)) = Some (- max64 * unit_)) by (by vm_compute).
  assert (Hhi : scaled (f64_of_lit (2 ^ 63 - 1)) = Some (max64 * unit_)) by (by vm_compute).
  assert (Glo : good (f64_of_lit (- 2 ^ 63))) by (by vm_compute).
  assert (Ghi : good (f64_of_lit (2 ^ 63 - 1))) by (by vm_compute).
  rewrite (SFltb_scaled _ _ _ _ Ghi Hgt Hhi Hst), (SFltb_scaled _ _ _ _ Hgt Glo Hst Hlo).
  set (w := v / unit_). assert (Hv : v = w * unit_) by (unfold w; rewrite (Z.div_mod v unit_) at 1 by lia; lia).
  assert (Hw : trunc_sf (c_trunc f) = Some w) by (apply trunc_scaled; [done | by rewrite Hst, Hv]).
  clearbody w. clear Hs Heq Ht H0 Hst. set (u := unit_) in *. clearbody u. subst v.
  destruct (Z.leb_spec (- max64) w), (Z.leb_spec w max64); cbn [andb].
  - rewrite (proj2 (Z.ltb_ge _ _)), (proj2 (Z.ltb_ge _ _)) by nia. cbn [orb]. unfold to_int. rewrite Hw.
    cbn [mbind option_bind]. destruct (Z.eqb_spec w max64) as [->|]; [done|].
    rewrite bool_decide_eq_true_2; [done|]. unfold is_s. change (2 ^ (64 - 1)) with max64. lia.
  - by rewrite (proj2 (Z.ltb_lt _ _)) by nia.
  - rewrite (proj2 (Z.ltb_lt (w * u) _)) by nia. by rewrite orb_true_r.
  - by rewrite (proj2 (Z.ltb_lt _ _)) by nia.
Qed.

(** ** What a value denotes *)

Inductive number : Set :=
| Fin (v : Z)        (* the value times 2^1074 *)
| Inf (negative : bool).

#[warnings="-register-all"]
    Inductive dval : Set :=
| DNull
| DBool (b : bool)
| DNum (x : number)
| DAtom (a : Z)
| DBytes (l : list Z)
| DEnum (tag : Z) (fields : list dval)
| DRef (p : Z).      (* an object with an identity *)

#[export] Instance number_eq_dec : EqDecision number.
Proof. solve_decision. Defined.

#[export] Instance dval_eq_dec : EqDecision dval.
Proof.
  refine (fix go x y := let _ : EqDecision dval := @go in
    match x, y return Decision (x = y) with
    | DNull, DNull => left eq_refl
    | DBool b, DBool c => cast_if (decide (b = c))
    | DNum u, DNum v => cast_if (decide (u = v))
    | DAtom u, DAtom v => cast_if (decide (u = v))
    | DBytes u, DBytes v => cast_if (decide (u = v))
    | DEnum s u, DEnum t v => cast_if_and (decide (s = t)) (decide (u = v))
    | DRef u, DRef v => cast_if (decide (u = v))
    | _, _ => right _
    end); congruence.
Defined.

(** A NaN is no number; 2^63 among the doubles is left out, see [float_2_63]. *)
Definition float_num (x : spec_float) : option number :=
  match x with
  | S754_infinity s => Some (Inf s)
  | _ => v ← scaled x; if v =? max64 * unit_ then None else Some (Fin v)
  end.

Definition number_of (o : hobj) : option number :=
  match o with
  | HBoxI64 _ x => if bool_decide (is_s 64 x) then Some (Fin (x * unit_)) else None
  | HBoxF64 _ b => float_num (decode binary64 b)
  | HBoxF32 _ b => float_num (decode binary32 b)
  | HBoxF16 _ b =>
      if negb (bool_decide (is_u 16 b)) || f16_subnormal b then None else float_num (decode binary16 b)
  | _ => None
  end.

Section Denote.
Context (g : gc_state).

(** [None]: a number without a value, a dangling pointer, more than [fuel] levels. *)
Fixpoint denote (fuel : nat) (v : Z) : option dval :=
  match fuel with
  | O => None
  | S fuel' =>
    if jello_is_null v then Some DNull else
    if jello_is_bool v then Some (DBool (jello_as_bool v)) else
    if jello_is_i32 v then Some (DNum (Fin (jello_as_i32 v * unit_))) else
    if jello_is_atom v then Some (DAtom (jello_as_atom v)) else
    o ← heap_obj g v;
    match o with
    | HBoxI64 _ _ | HBoxF64 _ _ | HBoxF32 _ _ | HBoxF16 _ _ => DNum <$> number_of o
    | HBytes _ l => Some (DBytes l)
    | HEnum _ tag fs => DEnum tag <$> mapM (denote fuel') fs
    | _ => Some (DRef v)
    end
  end.
End Denote.

(** ** Numbers *)

Lemma same_float_num x y : same_float x y = true -> float_num x = float_num y.
Proof.
  destruct x as [s|s| |s m e], y as [t|t| |t n f]; try discriminate; cbn [same_float]; [done|..].
  { by intros ->%eqb_prop. }
  intros [[[->%eqb_prop He%Z.leb_le]%andb_true_iff Hf%Z.leb_le]%andb_true_iff Hv%Z.eqb_eq]%andb_true_iff.
  rewrite !Z.shiftl_mul_pow2 in Hv by lia. unfold float_num. cbn [scaled]. replace (e + 1074) with (e + 149 + 925) by lia.
  replace (f + 1074) with (f + 149 + 925) by lia. rewrite !(Z.pow_add_r 2 _ 925), !Z.mul_assoc by lia. by rewrite Hv.
Qed.

Lemma float_num_finite x v : float_num x = Some (Fin v) ->
  scaled x = Some v /\ v <> max64 * unit_ /\ isfinite x = true.
Proof.
  unfold float_num. destruct x as [s|s| |s m e]; try discriminate.
  all: destruct (scaled _) as [w|]; cbn [mbind option_bind]; [|discriminate]; case_if; [discriminate|];
    intros [= <-]; split_and!; [done | by apply Z.eqb_neq | done].
Qed.

Lemma float_num_inf x s : float_num x = Some (Inf s) -> x = S754_infinity s.
Proof.
  unfold float_num. destruct x as [t|t| |t m e]; cbn [scaled mbind option_bind]; try discriminate.
  - by intros [= ->].
  - by destruct (_ =? 9223372036854775808 * _).
Qed.

Lemma float_num_convert fm b x : fm = binary32 \/ fm = binary16 ->
  float_num (decode fm b) = Some x -> float_num (convert binary64 (decode fm b)) = Some x.
Proof.
  intros Hfm. pose proof (convert_value fm b Hfm) as Hc. unfold float_num.
  destruct (decode fm b) as [s|s| |s m e]; try done. destruct Hc as [_ Hs]; [done|]. rewrite <- Hs.
  destruct (convert binary64 _); done.
Qed.

Section Equal.
Context (g : gc_state) (nan16 : bool -> Z).

(** The number as the equality sees it: an integer, or a double. *)
Inductive num_rel (v : Z) : number -> Prop :=
| rel_int i : value_as_exact_i64 g v = Some i -> - max64 <= i < max64 -> num_rel v (Fin (i * unit_))
| rel_float f x : value_as_exact_i64 g v = None -> value_as_f64 g nan16 v = Some f -> good f ->
  float_num f = Some x -> num_rel v x.

(** An object that is a number is seen as the number it holds. *)
Lemma number_rel v o x : jello_is_i32 v = false -> heap_obj g v = Some o -> number_of o = Some x -> num_rel v x.
Proof.
  intros Hi Ho Hx.
  assert (Hint : value_as_exact_i64 g v = match o with HBoxI64 _ i => Some i | _ => None end)
    by (unfold value_as_exact_i64; rewrite Hi, Ho; by destruct o).
  destruct o; try discriminate; cbn [number_of] in Hx.
  - revert Hx. case_bool_decide as Hs; [|done]. intros [= <-]. apply (rel_int v _ Hint). exact Hs.
  - eapply (rel_float v _ x Hint); [unfold value_as_f64; by rewrite Hi, Ho | apply decode_good | done].
  - destruct (decode binary32 bits) as [s|s| |s m e] eqn:E; try discriminate.
    + eapply (rel_float v _ x Hint); [unfold value_as_f64; by rewrite Hi, Ho | by rewrite E.. ].
    + eapply (rel_float v _ x Hint); [unfold value_as_f64; by rewrite Hi, Ho | by rewrite E.. ].
    + eapply (rel_float v _ x Hint); [unfold value_as_f64; by rewrite Hi, Ho| |].
      * by apply (convert_value binary32); [left | rewrite E].
      * apply float_num_convert; [by left | by rewrite E].
  - destruct (negb _ || _) eqn:Eb; [discriminate|]. apply orb_false_iff in Eb as [Hu Hsub].
    apply negb_false_iff, bool_decide_eq_true in Hu.
    destruct (f16_nan bits) eqn:Hn.
    { exfalso. revert Hx Hn. clear. unfold f16_nan, f16_exp, f16_mant, decode.
      change (mw binary16) with 10. change (2 ^ ew binary16 - 1) with 0x1F. change (2 ^ 10 - 1) with 0x3FF.
      intros Hx [H1%Z.eqb_eq H2]%andb_true_iff. rewrite H1 in Hx. cbn [Z.eqb Pos.eqb] in Hx.
      apply negb_true_iff in H2. by rewrite H2 in Hx. }
    destruct (f16_exact nan16 bits Hu Hsub Hn) as (u & Eu & Hc & _). unfold same_value in Hc.
    eapply (rel_float v _ x Hint); [unfold value_as_f64; rewrite Hi, Ho, Eu; reflexivity| |].
    + destruct (decode binary32 u) as [| | |s m e] eqn:E; [done..|].
      rewrite <- E. by apply (convert_value binary32); [left | rewrite E].
    + apply float_num_convert; [by left|]. by rewrite (same_float_num _ _ Hc).
Qed.

(** ** Numbers are compared by value *)

Abbreviation num_equal := (numeric_values_equal g nan16).

Lemma fin_eq v w : bool_decide (Fin v = Fin w) = (v =? w).
Proof. destruct (Z.eqb_spec v w) as [->|]; [by rewrite bool_decide_eq_true | apply bool_decide_eq_false; congruence]. Qed.

Lemma unit_pos : 0 < unit_.
Proof. by apply Z.pow_pos_nonneg. Qed.

Lemma int_equals_spec i v f x : - max64 <= i < max64 ->
  value_as_f64 g nan16 v = Some f -> good f -> float_num f = Some x ->
  int_equals g nan16 i v = Some (bool_decide (Fin (i * unit_) = x)).
Proof.
  intros Hi Hv Hg Hx. unfold int_equals. rewrite Hv.
  destruct (of_int_value i) as (w & Hw & Hwb); [change (2 ^ 63) with max64; lia|]. change (2 ^ 63) with max64 in Hwb.
  destruct x as [v'|s].
  - destruct (float_num_finite _ _ Hx) as (Hs & H63 & Hf). rewrite (f64_is_exact_spec f v' Hg Hs), fin_eq.
    pose proof unit_pos as Hu. set (u := unit_) in *. clearbody u.
    assert (Hdm : v' = u * (v' / u) + v' mod u) by (apply Z.div_mod; lia).
    assert (Hr : 0 <= v' mod u < u) by (by apply Z.mod_pos_bound).
    destruct (_ && _ && _) eqn:E.
    + apply andb_true_iff in E as [[H0%Z.eqb_eq H1%Z.leb_le]%andb_true_iff H2%Z.leb_le].
      destruct (Z.eqb_spec (v' / u) max64); [nia|]. cbn [mbind option_bind]. f_equal.
      apply eq_true_iff_eq. rewrite !Z.eqb_eq. split; nia.
    + cbn [mbind option_bind]. f_equal.
      assert (Hne : forall k, - max64 <= k <= max64 -> v' <> k * u).
      { intros k Hk ->. rewrite Z.mod_mul, Z.div_mul in E by lia.
        apply andb_false_iff in E as [[E|E]%andb_false_iff|E]; [done|..]; apply Z.leb_gt in E; lia. }
      rewrite (proj2 (Z.eqb_neq (i * u) v')) by (intros Heq; apply (Hne i); lia).
      destruct (SFeqb (of_int binary64 i) f) eqn:Eq; [|done]. exfalso.
      apply (Hne w); [lia|]. assert (Some v' = Some (w * u)) as [= ->]; [|done].
      rewrite <- Hs, <- Hw. symmetry. by apply SFeqb_same.
  - apply float_num_inf in Hx as ->.
    cbn [f64_is_exact_i64 isfinite negb mbind option_bind]. f_equal. rewrite bool_decide_eq_false_2 by discriminate.
    destruct (of_int binary64 i); try done; by destruct s.
Qed.

Lemma float_equal_spec f h x y : good f -> good h -> float_num f = Some x -> float_num h = Some y ->
  SFeqb f h = bool_decide (x = y).
Proof.
  intros Hf Hh Hx Hy. destruct x as [v|s], y as [w|t].
  - destruct (float_num_finite _ _ Hx) as (H1 & _). destruct (float_num_finite _ _ Hy) as (H2 & _).
    by rewrite (SFeqb_scaled f h v w), fin_eq.
  - rewrite bool_decide_eq_false_2 by discriminate. apply float_num_inf in Hy as ->.
    apply float_num_finite in Hx as (_ & _ & Hx). destruct f; try done; by destruct t.
  - rewrite bool_decide_eq_false_2 by discriminate. apply float_num_inf in Hx as ->.
    apply float_num_finite in Hy as (_ & _ & Hy). by destruct h, s.
  - apply float_num_inf in Hx as ->. apply float_num_inf in Hy as ->. by destruct s, t.
Qed.

Lemma numeric_equal_spec a b x y : num_rel a x -> num_rel b y -> num_equal a b = Some (bool_decide (x = y)).
Proof.
  intros [i Hia Hib|f x' Hfa Hfb Hfc Hfd] [j Hja Hjb|h y' Hha Hhb Hhc Hhd]; unfold numeric_values_equal;
    rewrite ?Hia, ?Hfa, ?Hja, ?Hha.
  - rewrite fin_eq. f_equal. pose proof unit_pos. apply eq_true_iff_eq. rewrite !Z.eqb_eq. split; [by intros ->|].
    intros H1. apply (Z.mul_reg_r _ _ unit_); [lia | done].
  - by apply (int_equals_spec i b h).
  - rewrite (int_equals_spec j a f x') by done. f_equal. apply bool_decide_ext. split; congruence.
  - rewrite Hfb, Hhb. f_equal. by apply float_equal_spec.
Qed.

(** ** Any value *)

Definition not_boolean (v : Z) : Prop := jello_is_null v = false /\ jello_is_bool v = false.

(** A denotation and the tests [values_equal] makes. *)
Inductive view (n : nat) (v : Z) : dval -> Prop :=
| view_null : jello_is_null v = true -> view n v DNull
| view_bool : jello_is_null v = false -> jello_is_bool v = true -> view n v (DBool (jello_as_bool v))
| view_num x : not_boolean v -> valid g v = true -> value_is_numeric g v = true -> num_rel v x -> view n v (DNum x)
| view_atom : not_boolean v -> valid g v = true -> value_is_numeric g v = false -> jello_is_atom v = true ->
  view n v (DAtom (jello_as_atom v))
| view_obj o d : not_boolean v -> valid g v = true -> value_is_numeric g v = false -> jello_is_atom v = false ->
  heap_obj g v = Some o -> shape n v o d -> view n v d
with shape (n : nat) (v : Z) : hobj -> dval -> Prop :=
| shape_bytes t l : shape n v (HBytes t l) (DBytes l)
| shape_enum t tag fs ds : mapM (denote g n) fs = Some ds -> shape n v (HEnum t tag fs) (DEnum tag ds)
| shape_ref o : (forall t l, o <> HBytes t l) -> (forall t k fs, o <> HEnum t k fs) -> shape n v o (DRef v).

Lemma denote_view n v d : denote g (S n) v = Some d -> view n v d.
Proof.
  cbn [denote]. destruct (jello_is_null v) eqn:Hn; [intros [= <-]; by constructor|].
  destruct (jello_is_bool v) eqn:Hb; [intros [= <-]; by constructor|].
  assert (Hnb : not_boolean v) by done. destruct (jello_is_i32 v) eqn:Hi.
  { intros [= <-]. assert (Hp : jello_is_ptr v = false).
    { unfold jello_is_ptr, jello_is_i32, has_tag in *. apply Z.eqb_eq in Hi. by rewrite Hi. }
    apply view_num; [done | by unfold valid; rewrite Hp | by unfold value_is_numeric; rewrite Hi|].
    apply rel_int; [by unfold value_as_exact_i64; rewrite Hi|]. unfold jello_as_i32.
    pose proof (wrapS_range 32 ltac:(lia) (u32 (Z.shiftr v 3))) as H. unfold is_s in H. change (2 ^ (32 - 1)) with 2147483648 in H. lia. }
  destruct (jello_is_atom v) eqn:Ha.
  { intros [= <-]. assert (Hp : jello_is_ptr v = false).
    { unfold jello_is_ptr, jello_is_atom, has_tag in *. apply Z.eqb_eq in Ha. by rewrite Ha. }
    apply view_atom; [done | by unfold valid; rewrite Hp | by unfold value_is_numeric, heap_obj; rewrite Hi, Hp | done]. }
  destruct (heap_obj g v) as [o|] eqn:Ho; [|done]. cbn [mbind option_bind].
  assert (Hv : valid g v = true).
  { unfold valid. unfold heap_obj in Ho. destruct (jello_is_ptr v); [|done]. rewrite Ho. by apply bool_decide_eq_true_2. }
  assert (Hnum : value_is_numeric g v = match o with HBoxI64 _ _ | HBoxF64 _ _ | HBoxF32 _ _ | HBoxF16 _ _ => true | _ => false end).
  { unfold value_is_numeric. rewrite Hi, Ho. by destruct o. }
  destruct o.
  all: lazymatch goal with
    | |- context [number_of ?o] =>
      destruct (number_of o) as [x|] eqn:Hx; [intros [= <-] | discriminate];
      exact (view_num n v x Hnb Hv Hnum (number_rel v o x Hi Ho Hx))
    | |- context [mapM] =>
      intros (ds & Hds & ->)%fmap_Some; apply (view_obj _ _ _ _ Hnb Hv Hnum Ha Ho), shape_enum, Hds
    | |- _ =>
      intros [= <-]; apply (view_obj _ _ _ _ Hnb Hv Hnum Ha Ho);
      first [apply shape_bytes | apply shape_ref; discriminate]
    end.
Qed.

(** The levels of enums in a value. *)
Fixpoint height (d : dval) : nat :=
  match d with DEnum _ fs => S (foldr Nat.max O (map height fs)) | _ => O end.

Lemma height_field tag fs i d : fs !! i = Some d -> (height d < height (DEnum tag fs))%nat.
Proof. intros H%(list_elem_of_lookup_2 fs). cbn. induction H as [|? ? ? ? IH]; cbn; lia. Qed.

Lemma max_height ds : foldr Nat.max O (map height ds) = O \/
  exists i e, ds !! i = Some e /\ foldr Nat.max O (map height ds) = height e.
Proof.
  induction ds as [|d ds IH]; [by left|]. cbn [map foldr]. right.
  destruct (Nat.max_spec (height d) (foldr Nat.max O (map height ds))) as [[Hlt ->]|[_ ->]]; [|by exists O, d].
  destruct IH as [Hz|(i & e & Hi & He)]; [lia | by exists (S i), e].
Qed.

(** More fuel changes nothing. *)
Lemma denote_mono n : forall k v d, denote g n v = Some d -> (n <= k)%nat -> denote g k v = Some d.
Proof.
  induction n as [|n IH]; intros [|k] v d H Hle; try done; [lia|]. revert H. cbn [denote].
  repeat case_if; try done. destruct (heap_obj g v) as [o|]; [|done]. cbn [mbind option_bind]. destruct o; try done.
  intros (ds & Hds & ->)%fmap_Some. apply fmap_Some. exists ds. split; [|done].
  apply mapM_Some in Hds. apply mapM_Some. eapply Forall2_impl; [exact Hds|]. intros x e He. apply (IH k x e He). lia.
Qed.

Lemma denote_unique n k v d e : denote g n v = Some d -> denote g k v = Some e -> d = e.
Proof.
  intros H1%(denote_mono n (Nat.max n k)) H2%(denote_mono k (Nat.max n k)); [congruence | lia..].
Qed.

Lemma fields_equal_spec eq (l k : list Z) (ds es : list dval) : length ds = length l -> length es = length k ->
  length l = length k ->
  (forall i x y d e, l !! i = Some x -> k !! i = Some y -> ds !! i = Some d -> es !! i = Some e ->
    eq x y = Some (bool_decide (d = e))) ->
  fields_equal eq l k = Some (bool_decide (ds = es)).
Proof.
  revert k ds es. induction l as [|x l IH]; intros [|y k] [|d ds] [|e es] H1 H2 H3 Heq; try discriminate; [done|].
  cbn [fields_equal]. rewrite (Heq O x y d e) by done. cbn [mbind option_bind]. case_bool_decide as Hde.
  - rewrite (IH k ds es); [|by injection H1 | by injection H2 | by injection H3 | intros i; apply (Heq (S i))].
    f_equal. apply bool_decide_ext. split; [by intros -> ; subst | by intros [= _ ->]].
  - f_equal. symmetry. apply bool_decide_eq_false. congruence.
Qed.

(** [values_equal] decides equality of denotations when its fuel exceeds the height. *)
Lemma values_equal_upto_spec F : forall a b n m da db, denote g n a = Some da -> denote g m b = Some db ->
  (height da < F)%nat -> values_equal_upto g nan16 F a b = Some (bool_decide (da = db)).
Proof.
  induction F as [|F IH]; intros a b [|n] [|m] da db Ha Hb Hh; try discriminate; [lia|].
  cbn [values_equal_upto]. destruct (Z.eqb_spec a b) as [Hab|Hab].
  { subst b. by rewrite bool_decide_eq_true_2 by exact (denote_unique _ _ _ _ _ Ha Hb). }
  apply denote_view in Ha, Hb.
  destruct Ha as [Ha1|Ha1 Ha2|x [Ha1 Ha2] Ha3 Ha4 Ha5|[Ha1 Ha2] Ha3 Ha4 Ha5|o da [Ha1 Ha2] Ha3 Ha4 Ha5 Ha6 Ha7],
    Hb as [Hb1|Hb1 Hb2|y [Hb1 Hb2] Hb3 Hb4 Hb5|[Hb1 Hb2] Hb3 Hb4 Hb5|o' db [Hb1 Hb2] Hb3 Hb4 Hb5 Hb6 Hb7];
    try destruct Ha7 as [t l|t tag fs ds Hfs|o Hob Hoe]; try destruct Hb7 as [t' l'|t' tag' fs' ds' Hfs'|o' Hob' Hoe'];
    rewrite ?Ha1, ?Hb1, ?Ha2, ?Hb2, ?Ha3, ?Hb3, ?Ha4, ?Hb4, ?Ha5, ?Hb5, ?Ha6, ?Hb6; cbn [orb andb negb];
    try (f_equal; symmetry; by apply bool_decide_eq_false).
  - f_equal. destruct (jello_as_bool a), (jello_as_bool b); by symmetry; (apply bool_decide_eq_true || apply bool_decide_eq_false).
  - rewrite (numeric_equal_spec a b x y) by done. f_equal. apply bool_decide_ext. split; congruence.
  - f_equal. apply eq_true_iff_eq. rewrite Z.eqb_eq, bool_decide_eq_true. split; congruence.
  - f_equal. unfold bytes_content_equal. rewrite (proj2 (Z.eqb_neq a b) Hab). cbn [orb].
    apply eq_true_iff_eq. rewrite andb_true_iff, !bool_decide_eq_true, Z.eqb_eq. split; [intros [_ ->]; done|].
    by intros [= ->].
  - destruct o'; try done; [by destruct (Hob' type_id data)|..]; f_equal; symmetry; by apply bool_decide_eq_false.
  - apply mapM_Some in Hfs, Hfs'. pose proof (Forall2_length _ _ _ Hfs) as L. pose proof (Forall2_length _ _ _ Hfs') as L'.
    destruct (Z.eqb_spec tag tag') as [<-|]; cbn [negb]; [|f_equal; symmetry; apply bool_decide_eq_false; congruence].
    unfold zlen. destruct (Z.eqb_spec (Z.of_nat (length fs)) (Z.of_nat (length fs'))); cbn [negb].
    2: { f_equal. symmetry. apply bool_decide_eq_false. intros [= ->]. lia. }
    rewrite (fields_equal_spec _ fs fs' ds ds'); [|lia..|].
    + f_equal. apply bool_decide_ext. split; congruence.
    + intros i v w d d' Hv Hw Hd He. apply (IH v w n m d d').
      * exact (Forall2_lookup_lr _ _ _ _ _ _ Hfs Hv Hd).
      * exact (Forall2_lookup_lr _ _ _ _ _ _ Hfs' Hw He).
      * pose proof (height_field tag ds i d Hd). lia.
  - destruct o'; try done; f_equal; try (symmetry; by apply bool_decide_eq_false). by destruct (Hoe' type_id tag0 fields).
  - destruct o; try done; f_equal; try (symmetry; by apply bool_decide_eq_false). by destruct (Hob type_id data).
  - destruct o; try done; f_equal; try (symmetry; by apply bool_decide_eq_false). by destruct (Hoe type_id tag fields).
  - rewrite bool_decide_eq_false_2 by congruence.
    destruct o; try done; [by destruct (Hob type_id data) | by destruct (Hoe type_id tag fields)].
Qed.

(** The enums on a longest path through a value are different objects. *)
Lemma denote_path n : forall v d, denote g n v = Some d ->
  exists l, NoDup l /\ length l = height d /\
  Forall (fun p => is_Some (cells g !! p) /\ exists k e, denote g k p = Some e /\ (height e <= height d)%nat) l.
Proof.
  induction n as [|n IH]; intros v d H; [done|]. pose proof H as Hd. cbn [denote] in H.
  assert (Hleaf : height d = O -> exists l, NoDup l /\ length l = height d /\
      Forall (fun p => is_Some (cells g !! p) /\ exists k e, denote g k p = Some e /\ (height e <= height d)%nat) l).
  { intros ->. exists []. repeat constructor. }
  destruct (jello_is_null v), (jello_is_bool v), (jello_is_i32 v), (jello_is_atom v);
    try (injection H as <-; by apply Hleaf).
  destruct (heap_obj g v) as [o|] eqn:Ho; [|done].
  cbn [mbind option_bind] in H.
  destruct o; try (injection H as <-; by apply Hleaf); try (apply fmap_Some in H as (x & _ & ->); by apply Hleaf).
  clear Hleaf. apply fmap_Some in H as (ds & Hds & ->). apply mapM_Some in Hds.
  assert (Hv : is_Some (cells g !! v)).
  { unfold heap_obj in Ho. destruct (jello_is_ptr v); [|done]. unfold obj_at in Ho. destruct (cells g !! v); [by eexists | discriminate]. }
  destruct (max_height ds) as [Hz|(i & e & Hi & He)].
  - exists [v]. cbn [height]. rewrite Hz. split_and!; [apply NoDup_singleton | done|]. constructor; [|constructor].
    split; [done|]. exists (S n), (DEnum tag ds). split; [exact Hd|]. cbn [height]. lia.
  - destruct (Forall2_lookup_r _ _ _ _ _ Hds Hi) as (w & Hw & Hwe).
    destruct (IH _ _ Hwe) as (l & Hnd & Hlen & Hl). exists (v :: l). cbn [height length]. rewrite He. split_and!.
    + apply NoDup_cons. split; [|done]. intros Hin. rewrite Forall_forall in Hl.
      destruct (Hl v Hin) as (_ & k & e' & He' & Hle). rewrite (denote_unique _ _ _ _ _ He' Hd) in Hle.
      pose proof (height_field tag ds i e Hi). lia.
    + lia.
    + constructor; [split; [done|]; exists (S n), (DEnum tag ds); split; [exact Hd|]; cbn [height]; lia|].
      eapply Forall_impl; [exact Hl|]. intros p (Hp & k & e' & H1 & H2). split; [done|]. exists k, e'. split; [done|]. lia.
Qed.

Lemma height_cells n v d : denote g n v = Some d -> (height d <= size (cells g))%nat.
Proof.
  intros H. destruct (denote_path n v d H) as (l & Hnd & <- & Hl).
  rewrite <- (size_dom (D := gset Z)), <- (size_list_to_set (C := gset Z) l Hnd). apply subseteq_size.
  intros p Hp%elem_of_list_to_set. rewrite Forall_forall in Hl. apply elem_of_dom. by apply Hl.
Qed.
End Equal.

(** C15: [values_equal] decides equality of what two values denote, and always ends for
    them: numbers by their exact mathematical value whatever their format (an i32, an
    int64_t, a binary64, binary32 or binary16), byte strings by their content, enums by tag
    and fields at any depth, everything else by identity. The values it is about are those
    that denote something: no NaN, no double 2^63, no subnormal of binary16, whose
    conversion doubles it, no enum inside itself. *)
Theorem values_equal_decides g nan16 n m a b da db : denote g n a = Some da -> denote g m b = Some db ->
  values_equal g nan16 a b = Some (bool_decide (da = db)).
Proof.
  intros Ha Hb. apply (values_equal_upto_spec g nan16 _ a b n m); [done..|].
  pose proof (height_cells g n a da Ha). nia.
Qed.

(** Two copies of an enum with a string and a number, the number in two formats. *)
Definition sample_gc : gc_state :=
  let box o := mk_cell 64 false o in
  mk_gc (list_to_map [(8, box (HBytes 0 [104; 105])); (16, box (HBytes 0 [104; 105]));
    (24, box (HBoxF64 0 0x4004000000000000)); (32, box (HBoxF32 0 0x40200000));
    (40, box (HEnum 0 2 [8; 24; 4])); (48, box (HEnum 0 2 [16; 32; 4]));
    (56, box (HBoxF64 0 0x43E0000000000000));
    (64, box (HBoxF64 0 0x7FF8000000000000)); (72, box (HBoxF64 0 0x7FF8000000000000));
    (80, box (HEnum 0 1 [88])); (88, box (HEnum 0 1 [80]))])
    [] [] 0 0 0 0 0 0 [] [] [] [] [].

Definition sample_dval : dval := DEnum 2 [DBytes [104; 105]; DNum (Fin (5 * 2 ^ 1073)); DNull].

Lemma values_equal_decides_witness :
  denote sample_gc 2 40 = Some sample_dval /\ denote sample_gc 2 48 = Some sample_dval /\
  values_equal sample_gc (fun _ => 0) 40 48 = Some (bool_decide (sample_dval = sample_dval)).
Proof.
  assert (Ha : denote sample_gc 2 40 = Some sample_dval) by (by vm_compute).
  assert (Hb : denote sample_gc 2 48 = Some sample_dval) by (by vm_compute).
  split; [exact Ha|]. split; [exact Hb|].
  exact (values_equal_decides sample_gc (fun _ => 0) 2 2 40 48 sample_dval sample_dval Ha Hb).
Defined.

(** A double 2^63 passes the test [t > (double)INT64_MAX] and its conversion to int64_t
    is undefined: comparing it with any integer is. *)
Lemma float_2_63 : numeric_values_equal sample_gc (fun _ => 0) (jello_make_i32 1) 56 = None.
Proof. by vm_compute. Qed.

(** A NaN equals itself and differs from a copy. *)
Lemma nan_equals_itself : values_equal sample_gc (fun _ => 0) 64 64 = Some true /\
  values_equal sample_gc (fun _ => 0) 64 72 = Some false.
Proof. by vm_compute. Qed.

(** Two enums inside each other compare for ever. *)
Lemma cyclic_enums_do_not_end fuel : values_equal_upto sample_gc (fun _ => 0) fuel 80 88 = None.
Proof.
  set (eq := values_equal_upto sample_gc (fun _ => 0)).
  enough (H : eq fuel 80 88 = None /\ eq fuel 88 80 = None) by apply H.
  induction fuel as [|fuel [IH1 IH2]]; [done|].
  assert (E1 : eq (S fuel) 80 88 = fields_equal (eq fuel) [88] [80]) by reflexivity.
  assert (E2 : eq (S fuel) 88 80 = fields_equal (eq fuel) [80] [88]) by reflexivity.
  rewrite E1, E2. cbn [fields_equal]. by rewrite IH1, IH2.
Qed.
