(* ===== verification/CoreOps.v ===== *)
(** * Control, constant and dynamic-value handlers

    Model of src/src/vm/ops/ops_control.c, ops_const.c and ops_box.c.
    [vm->jdll_call_out] is NULL: only the foreign function interface, which is not
    modelled, sets it. *)

From Stdlib Require Import String.
From S2P Require Import Prelude CInt Memory Bytecode Value Object Heap Vm Frame Float Gc Box Types FunCheck Ops ArithOps Call Exc.

Open Scope string_scope.
Open Scope Z_scope.

Section Core.
Context (malloc : gc_state -> Z -> option Z) (m : jello_bc_module) (maddr : Z).
Context (nan32 nan64 junk : Z).

Abbreviation store_from_boxed := (vm_store_from_boxed malloc m nan32 nan64).
Abbreviation box_from_typed := (vm_box_from_typed malloc m).
Abbreviation trap := (jello_vm_trap m).

Definition trap_continue (code : jello_trap_code) (msg : string) : M op_result :=
  _ ← trap code msg; mret OP_CONTINUE.

(** The frame of the context, as it is now. *)
Definition ctx_frame (ctx : exec_ctx) : M call_frame := frame_at (cx_fr ctx).

(** ** ops_control.c *)

Definition op_nop : op_handler := fun _ _ => mret OP_CONTINUE.

Definition op_jmp : op_handler := fun ctx ins =>
  fr ← ctx_frame ctx;
  match branch_npc ins (cf_pc fr) (f_ninsns (cx_f ctx)) with
  | None => panic
  | Some npc =>
    ok ← (if i32 (i_imm ins) <? 0 then jello_vm_fuel_charge m else mret true);
    if ok : bool then _ ← set_frame_pc (cx_fr ctx) npc; mret OP_CONTINUE else mret OP_TRAP
  end.

Definition op_jmp_if : op_handler := fun ctx ins =>
  cond ← vm_load_u32 (cx_rf ctx) (i_a ins);
  if cond =? 0 then mret OP_CONTINUE else
  fr ← ctx_frame ctx;
  match branch_npc ins (cf_pc fr) (f_ninsns (cx_f ctx)) with
  | None => panic
  | Some npc => _ ← set_frame_pc (cx_fr ctx) npc; mret OP_CONTINUE
  end.

(** The trap of a failed assertion, its message in front when there is one. *)
Definition assert_trap (msg : string) : M op_result :=
  _ ← raise JELLO_TRAP_THROWN msg; mret OP_TRAP.

Definition op_assert : op_handler := fun ctx ins =>
  cond ← vm_load_u32 (cx_rf ctx) (i_a ins);
  if negb (cond =? 0) then mret OP_CONTINUE else
  e ← get_exc;
  _ ← put_exc (mk_exc (exc_handlers e) true (jello_make_i32 thrown_code) JELLO_TRAP_THROWN (trap_msg e));
  if i_c ins =? 1 then
    msgv ← box_from_typed (cx_f ctx) (cx_rf ctx) (i_b ins);
    (* a null Bytes register is boxed as the tagged null *)
    o ← (if jello_is_ptr msgv then o ← deref msgv; mret (Some o) else mret None);
    match o with
    | Some (HBytes _ data) =>
      if 0 <? zlen data then
        assert_trap (snprintf 512 (string_of_bytes (c_string (take 160 data)) ++ "assertion failed"))
      else assert_trap "assertion failed"
    | _ => assert_trap "assertion failed"
    end
  else assert_trap "assertion failed".

Definition op_try : op_handler := fun ctx ins =>
  n ← nframes;
  fr ← ctx_frame ctx;
  match branch_npc ins (cf_pc fr) (f_ninsns (cx_f ctx)) with
  | None => panic
  | Some catch_pc => _ ← vm_exc_push (u32 (n - 1)) catch_pc (i_a ins) (i_b ins); mret OP_CONTINUE
  end.

Definition op_endtry : op_handler := fun _ _ =>
  n ← nframes;
  top ← vm_exc_pop;
  match top with
  | None => panic
  | Some h => _ ← panic_if (negb (h_frame_index h =? u32 (n - 1))); mret OP_CONTINUE
  end.

Definition op_throw : op_handler := fun ctx ins =>
  payload ← vm_load_val (cx_rf ctx) (i_a ins);
  e ← get_exc;
  _ ← put_exc (mk_exc (exc_handlers e) true payload JELLO_TRAP_THROWN (Some "unhandled throw"));
  mret OP_TRAP.

(** [if(fr->exc_base > vm->exc_handlers_len) panic; vm->exc_handlers_len = fr->exc_base;]. *)
Definition leave_frame_handlers (fr : call_frame) : M () :=
  e ← get_exc;
  _ ← panic_if (zlen (exc_handlers e) <? cf_exc_base fr);
  set_handlers_len (cf_exc_base fr).

(** [vm_rf_release(vm, &fr->rf); vm->call_frames_len--;]. *)
Definition pop_frame : M () := drop_top_frame.

(** Boxing the result, dropping the frame and storing into the caller. *)
Definition return_boxed (ctx : exec_ctx) (caller : call_frame) (dst r : Z) : M () :=
  ret ← box_from_typed (cx_f ctx) (cx_rf ctx) r;
  _ ← pop_frame;
  cf ← fun_at m (cf_f caller);
  store_from_boxed cf (cf_rf caller) dst ret.

(** [*ctx->out_exports], when the context asks for it. *)
Definition return_exports (ctx : exec_ctx) : M (option Z) :=
  match cx_exports ctx with
  | Some idx =>
    if negb (idx =? UINT32_MAX) && (idx <? f_nregs (cx_f ctx))
    then v ← box_from_typed (cx_f ctx) (cx_rf ctx) idx; mret (Some v) else mret None
  | None => mret None
  end.

(** Dropping the first frame and with it every cache and table of the run. *)
Definition drop_outermost : M () :=
  _ ← pop_frame;
  s ← get_stack; _ ← put_stack (set_frames [] (set_frames_cap 0 s));
  g ← get_gc; _ ← put_gc (set_caches [] [] [] g);
  set_handlers [].

Definition op_ret : op_handler := fun ctx ins =>
  fr ← ctx_frame ctx;
  _ ← leave_frame_handlers fr;
  if negb (cf_has_caller fr) then
    ret ← box_from_typed (cx_f ctx) (cx_rf ctx) (i_a ins);
    ex ← return_exports ctx;
    _ ← drop_outermost;
    mret (OP_RETURN ret ex) else
  n ← nframes;
  _ ← panic_if (n <? 2);
  caller ← frame_at (n - 2);
  caller_f ← fun_at m (cf_f caller);
  ret_tid ← must (f_reg_types (cx_f ctx) @! (i_a ins));
  dst_tid ← must (f_reg_types caller_f @! (cf_caller_dst fr));
  if dst_tid =? ret_tid then
    k ← must (te_kind <$> m_types m @! ret_tid);
    _ ← copy_slot (cx_rf ctx) (i_a ins) (cf_rf caller) (cf_caller_dst fr) (jello_slot_size k);
    _ ← pop_frame; mret OP_CONTINUE
  else _ ← return_boxed ctx caller (cf_caller_dst fr) (i_a ins); mret OP_CONTINUE.

(** ** ops_const.c *)

Definition op_mov : op_handler := fun ctx ins =>
  k ← must (vm_reg_kind m (cx_f ctx) (i_a ins));
  _ ← copy_slot (cx_rf ctx) (i_b ins) (cx_rf ctx) (i_a ins) (jello_slot_size k);
  mret OP_CONTINUE.

Definition op_const_i8_imm : op_handler := fun ctx ins =>
  _ ← vm_store_u32 (cx_rf ctx) (i_a ins) (u32 (imm_c ins)); mret OP_CONTINUE.

Definition op_const_i32 : op_handler := fun ctx ins =>
  _ ← vm_store_u32 (cx_rf ctx) (i_a ins) (i_imm ins); mret OP_CONTINUE.

Definition op_const_i64 : op_handler := fun ctx ins =>
  v ← must (m_const_i64 m @! (i_imm ins));
  _ ← vm_store_i64 (cx_rf ctx) (i_a ins) v; mret OP_CONTINUE.

Definition op_const_f16 : op_handler := fun ctx ins =>
  _ ← vm_store_f16_bits (cx_rf ctx) (i_a ins) (u16 (Z.land (i_imm ins) 0xFFFF)); mret OP_CONTINUE.

Definition op_const_bool : op_handler := fun ctx ins =>
  _ ← vm_store_u32 (cx_rf ctx) (i_a ins) (Z.land (i_c ins) 1); mret OP_CONTINUE.

Definition op_const_atom : op_handler := fun ctx ins =>
  _ ← vm_store_u32 (cx_rf ctx) (i_a ins) (i_imm ins); mret OP_CONTINUE.

Definition op_const_null : op_handler := fun ctx ins =>
  _ ← vm_store_val (cx_rf ctx) (i_a ins) jello_make_null; mret OP_CONTINUE.

Definition op_const_f32 : op_handler := fun ctx ins =>
  _ ← vm_store_f32 (cx_rf ctx) (i_a ins) (i_imm ins); mret OP_CONTINUE.

Definition op_const_f64 : op_handler := fun ctx ins =>
  v ← must (m_const_f64 m @! (i_imm ins));
  _ ← vm_store_f64 (cx_rf ctx) (i_a ins) v; mret OP_CONTINUE.

Definition op_const_bytes : op_handler := fun ctx ins =>
  let idx := i_imm ins in
  g ← get_gc;
  if zlen (const_bytes_cache g) <=? idx then
    if m_nconst_bytes m <=? idx then trap_continue JELLO_TRAP_BOUNDS "const_bytes out of range"
  else panic
  else
  b ← must (const_bytes_cache g @! idx);
  p ← (if b =? 0 then
      len ← must (m_const_bytes_len m @! idx);
      off ← must (m_const_bytes_off m @! idx);
      type_id ← must (f_reg_types (cx_f ctx) @! (i_a ins));
      p ← jello_bytes_new malloc m type_id len;
      data ← (if 0 <? len then must (block_read (m_const_bytes_data m) off len) else mret []);
      _ ← (if 0 <? len then write_obj p (HBytes type_id data) else mret ());
      g ← get_gc;
      _ ← put_gc (set_caches (const_fun_cache g) ((const_bytes_cache g) @[idx := p])
          (enum_nullary_by_type g) g);
      mret p
    else mret b);
  _ ← vm_store_ptr (cx_rf ctx) (i_a ins) p; mret OP_CONTINUE.

Definition op_const_fun : op_handler := fun ctx ins =>
  g ← get_gc;
  _ ← panic_if (zlen (const_fun_cache g) <=? i_imm ins);
  fn ← must (const_fun_cache g @! (i_imm ins));
  p ← (if fn =? 0 then
      type_id ← must (f_reg_types (cx_f ctx) @! (i_a ins));
      p ← jello_function_new malloc m type_id (i_imm ins);
      g ← get_gc;
      _ ← put_gc (set_caches ((const_fun_cache g) @[i_imm ins := p]) (const_bytes_cache g)
          (enum_nullary_by_type g) g);
      mret p
    else mret fn);
  _ ← vm_store_ptr (cx_rf ctx) (i_a ins) p; mret OP_CONTINUE.

(** ** ops_box.c *)

Definition op_to_dyn : op_handler := fun ctx ins =>
  v ← box_from_typed (cx_f ctx) (cx_rf ctx) (i_b ins);
  _ ← vm_store_val (cx_rf ctx) (i_a ins) v; mret OP_CONTINUE.

Definition from_dyn_int_value (v : Z) : M (option Z) :=
  if jello_is_i32 v then mret (Some (u32 (jello_as_i32 v))) else
  b ← jello_is_box_i64 v;
  mret (match b with Some x => Some (u32 x) | None => None end).

Definition op_from_dyn_i8 : op_handler := fun ctx ins =>
  v ← vm_load_val (cx_rf ctx) (i_b ins);
  x ← from_dyn_int_value v;
  match x with
  | None => trap_continue JELLO_TRAP_TYPE_MISMATCH "from_dyn_i8 type mismatch"
  | Some x => _ ← vm_store_u32_masked (cx_rf ctx) (i_a ins) x JELLO_T_I8; mret OP_CONTINUE
  end.

Definition op_from_dyn_i16 : op_handler := fun ctx ins =>
  v ← vm_load_val (cx_rf ctx) (i_b ins);
  x ← from_dyn_int_value v;
  match x with
  | None => trap_continue JELLO_TRAP_TYPE_MISMATCH "from_dyn_i16 type mismatch"
  | Some x => _ ← vm_store_u32_masked (cx_rf ctx) (i_a ins) x JELLO_T_I16; mret OP_CONTINUE
  end.

Definition op_from_dyn_i32 : op_handler := fun ctx ins =>
  v ← vm_load_val (cx_rf ctx) (i_b ins);
  x ← from_dyn_int_value v;
  match x with
  | None => trap_continue JELLO_TRAP_TYPE_MISMATCH "from_dyn_i32 type mismatch"
  | Some x => _ ← vm_store_u32 (cx_rf ctx) (i_a ins) x; mret OP_CONTINUE
  end.

Definition op_from_dyn_i64 : op_handler := fun ctx ins =>
  v ← vm_load_val (cx_rf ctx) (i_b ins);
  if jello_is_i32 v then
    _ ← vm_store_i64 (cx_rf ctx) (i_a ins) (jello_as_i32 v); mret OP_CONTINUE
  else
  b ← jello_is_box_i64 v;
  match b with
  | None => trap_continue JELLO_TRAP_TYPE_MISMATCH "from_dyn_i64 type mismatch"
  | Some x => _ ← vm_store_i64 (cx_rf ctx) (i_a ins) x; mret OP_CONTINUE
  end.

Definition op_from_dyn_f16 : op_handler := fun ctx ins =>
  v ← vm_load_val (cx_rf ctx) (i_b ins);
  b ← jello_is_box_f16 v;
  match b with
  | None => trap_continue JELLO_TRAP_TYPE_MISMATCH "from_dyn_f16 type mismatch"
  | Some x => _ ← vm_store_f16_bits (cx_rf ctx) (i_a ins) x; mret OP_CONTINUE
  end.

Definition op_from_dyn_f32 : op_handler := fun ctx ins =>
  v ← vm_load_val (cx_rf ctx) (i_b ins);
  if jello_is_i32 v then
    _ ← vm_store_f32 (cx_rf ctx) (i_a ins) (f32_of_int nan32 (jello_as_i32 v)); mret OP_CONTINUE
  else
  b ← jello_is_box_f32 v;
  match b with
  | None => trap_continue JELLO_TRAP_TYPE_MISMATCH "from_dyn_f32 type mismatch"
  | Some x => _ ← vm_store_f32 (cx_rf ctx) (i_a ins) x; mret OP_CONTINUE
  end.

Definition op_from_dyn_f64 : op_handler := fun ctx ins =>
  v ← vm_load_val (cx_rf ctx) (i_b ins);
  if jello_is_i32 v then
    _ ← vm_store_f64 (cx_rf ctx) (i_a ins) (f64_of_int nan64 (jello_as_i32 v)); mret OP_CONTINUE
  else if jello_is_null v then
    _ ← vm_store_f64 (cx_rf ctx) (i_a ins) 0; mret OP_CONTINUE
  else
  b ← jello_is_box_f64 v;
  match b with
  | None => trap_continue JELLO_TRAP_TYPE_MISMATCH "from_dyn_f64 type mismatch"
  | Some x => _ ← vm_store_f64 (cx_rf ctx) (i_a ins) x; mret OP_CONTINUE
  end.

Definition op_from_dyn_bool : op_handler := fun ctx ins =>
  v ← vm_load_val (cx_rf ctx) (i_b ins);
  if negb (jello_is_bool v) then trap_continue JELLO_TRAP_TYPE_MISMATCH "from_dyn_bool type mismatch" else
  _ ← vm_store_u32 (cx_rf ctx) (i_a ins) (Z.b2z (jello_as_bool v)); mret OP_CONTINUE.

Definition op_from_dyn_atom : op_handler := fun ctx ins =>
  v ← vm_load_val (cx_rf ctx) (i_b ins);
  if negb (jello_is_atom v) then trap_continue JELLO_TRAP_TYPE_MISMATCH "from_dyn_atom type mismatch" else
  _ ← vm_store_u32 (cx_rf ctx) (i_a ins) (jello_as_atom v); mret OP_CONTINUE.

Definition op_from_dyn_ptr : op_handler := fun ctx ins =>
  v ← vm_load_val (cx_rf ctx) (i_b ins);
  dk ← must (vm_reg_kind m (cx_f ctx) (i_a ins));
  let want := vm_expected_obj_kind_for_typed_ptr dk in
  if want =? 0 then trap_continue JELLO_TRAP_TYPE_MISMATCH "from_dyn_ptr dst not pointer-kind" else
  if jello_is_null v then _ ← vm_store_ptr (cx_rf ctx) (i_a ins) 0; mret OP_CONTINUE else
  if negb (jello_is_ptr v) then trap_continue JELLO_TRAP_TYPE_MISMATCH "from_dyn_ptr type mismatch" else
  o ← deref v;
  if negb (code_of_obj_kind (obj_kind o) =? want)
  then trap_continue JELLO_TRAP_TYPE_MISMATCH "from_dyn_ptr kind mismatch" else
  _ ← vm_store_ptr (cx_rf ctx) (i_a ins) v; mret OP_CONTINUE.

Definition op_spill_push : op_handler := fun ctx ins =>
  v ← box_from_typed (cx_f ctx) (cx_rf ctx) (i_a ins); _ ← vm_spill_push v; mret OP_CONTINUE.

Definition op_spill_pop : op_handler := fun ctx ins =>
  v ← vm_spill_pop; _ ← store_from_boxed (cx_f ctx) (cx_rf ctx) (i_a ins) v; mret OP_CONTINUE.

Definition op_physeq : op_handler := fun ctx ins =>
  vb ← box_from_typed (cx_f ctx) (cx_rf ctx) (i_b ins);
  vc ← box_from_typed (cx_f ctx) (cx_rf ctx) (i_c ins);
  _ ← vm_store_u32 (cx_rf ctx) (i_a ins) (Z.b2z (vb =? vc)); mret OP_CONTINUE.

(** [vm_kindof_dynamic] on the heap: a pointer's kind is read from the object. *)
Definition kindof (v : Z) : M Z :=
  if jello_is_ptr v && negb (jello_is_null v) then
    o ← deref v; mret (vm_kindof_dynamic (fun _ => code_of_obj_kind (obj_kind o)) v)
  else mret (vm_kindof_dynamic (fun _ => 0) v).

Definition op_kindof : op_handler := fun ctx ins =>
  v ← vm_load_val (cx_rf ctx) (i_b ins);
  k ← kindof v; _ ← vm_store_u32 (cx_rf ctx) (i_a ins) k; mret OP_CONTINUE.
End Core.
