(* ===== verification/CallOps.v ===== *)
(** * Call and closure handlers

    Model of src/src/vm/ops/ops_call.c.  The native builtins and the primitives of
    loaded libraries are arguments ([native], [jdll_prim]).  The trace output under
    [JELLO_TRACE_CLOSURE] is left out. *)

From Stdlib Require Import String Ascii.
From stdpp Require Import pretty.
From S2P Require Import Prelude CInt Memory Bytecode Value Object Heap Vm Frame Float Gc Box Types Ops Call Exc CoreOps.

Open Scope string_scope.
Open Scope Z_scope.

(** [%zx]. *)
Fixpoint hex_digits (fuel : nat) (x : Z) (acc : string) : string :=
  let d := x mod 16 in
  let c := ascii_of_nat (Z.to_nat (if d <? 10 then 48 + d else 87 + d)) in
  match fuel with
  | O => acc
  | S fuel' => if x <? 16 then String c acc else hex_digits fuel' (x / 16) (String c acc)
  end.

Definition show_hex (x : Z) : string := hex_digits 16 x EmptyString.
Definition show_u (x : Z) : string := pretty (Z.to_N x).

Definition jello_is_jdll_prim (fi : Z) : bool := fi =? JELLO_FUNC_INDEX_JDLL_PRIM.

Section CallOps.
Context (malloc : gc_state -> Z -> option Z) (m : jello_bc_module) (maddr : Z).
Context (nan32 nan64 junk : Z).
(** [jello_invoke_native_builtin(ctx, ins, func_index, first)] and
    [jello_jdll_invoke_prim(ctx, ins, fn, first)]. *)
Context (native : exec_ctx -> jello_insn -> Z -> Z -> M ()).
Context (jdll_prim : exec_ctx -> jello_insn -> Z -> Z -> M bool).

Abbreviation store_from_boxed := (vm_store_from_boxed malloc m nan32 nan64).
Abbreviation box_from_typed := (vm_box_from_typed malloc m).
Abbreviation push_frame := (vm_push_frame malloc m maddr nan32 nan64 junk).
Abbreviation replace_frame := (vm_replace_frame malloc m maddr nan32 nan64 junk).

(** ** Closures *)

(** Whether no captured register holds a pointer, and the bytes they take: the
    scan ends at the first that does. *)
Fixpoint scan_caps (f : jello_bc_function) (r : Z) (n : nat) (size : Z) : M (bool * Z) :=
  match n with
  | O => mret (true, size)
  | S n' =>
    k ← must (vm_reg_kind m f r);
    if negb (vm_type_is_nonptr k) then mret (false, size)
    else scan_caps f (r + 1) n' (u32 (size + jello_slot_size k))
  end.

(** The bytes of the captured registers, one after the other. *)
Fixpoint raw_caps (f : jello_bc_function) (rf : reg_frame) (r : Z) (n : nat) : M (list Z) :=
  match n with
  | O => mret []
  | S n' =>
    k ← must (vm_reg_kind m f r);
    a ← must (vm_reg_ptr rf r);
    s ← get_stack; l ← must (block_read (frame_stack s) a (jello_slot_size k));
    ls ← raw_caps f rf (r + 1) n';
    mret (l ++ ls)%list
  end.

Definition RAW_CAPS_MAX : Z := 256.

Definition op_closure : op_handler := fun ctx ins =>
  type_id ← must (f_reg_types (cx_f ctx) @! (i_a ins));
  let ncaps := i_c ins in
  '(all_nonptr, raw_cap_size) ← scan_caps (cx_f ctx) (i_b ins) (Z.to_nat ncaps) 0;
  clo ← (if (all_nonptr : bool) && (0 <? ncaps) && (raw_cap_size <=? RAW_CAPS_MAX) then
      raw ← raw_caps (cx_f ctx) (cx_rf ctx) (i_b ins) (Z.to_nat ncaps);
      jello_closure_new_raw malloc m type_id (i_imm ins) ncaps raw
    else
    caps ← box_args malloc m (cx_f ctx) (cx_rf ctx) (i_b ins) (Z.to_nat ncaps);
    clo ← jello_closure_new malloc m type_id (i_imm ins) caps;
    _ ← jello_gc_pop_roots ncaps; mret clo);
  _ ← vm_store_ptr (cx_rf ctx) (i_a ins) clo; mret OP_CONTINUE.

Definition op_bind_this : op_handler := fun ctx ins =>
  base ← vm_load_ptr (cx_rf ctx) (i_b ins);
  _ ← panic_if (base =? 0);
  o ← deref base;
  _ ← panic_if (negb (bool_decide (obj_kind o = JELLO_OBJ_FUNCTION)));
  thisv ← box_from_typed (cx_f ctx) (cx_rf ctx) (i_c ins);
  _ ← jello_gc_push_root thisv;
  type_id ← must (f_reg_types (cx_f ctx) @! (i_a ins));
  bound ← jello_function_bind_this malloc m type_id base thisv;
  _ ← jello_gc_pop_roots 1;
  _ ← vm_store_ptr (cx_rf ctx) (i_a ins) bound; mret OP_CONTINUE.

(** ** Calls *)

(** The bytecode function of a call index, and the check of the arguments. *)
Definition callee_of (ctx : exec_ctx) (fi first na : Z) : M Z :=
  let bytecode_idx := u32 (fi - JELLO_NATIVE_BUILTIN_COUNT) in
  _ ← panic_if (m_nfuncs m <=? bytecode_idx);
  _ ← panic_if (rf_nregs (cx_rf ctx) <? u32 (first + na));
  mret bytecode_idx.

Definition frame_fun (ctx : exec_ctx) : M Z := fr ← ctx_frame ctx; mret (cf_f fr).

(** A failed push has raised its trap: both answers go on. *)
Definition push_call (ctx : exec_ctx) (ins : jello_insn) (fi first : Z) (fn : option hobj)
  : M bool :=
  callee ← callee_of ctx fi first (i_c ins);
  caller ← frame_fun ctx;
  n ← nframes;
  push_frame callee caller (u32 (n - 1)) (i_a ins) first (i_c ins) fn true.

Definition tail_call (ctx : exec_ctx) (ins : jello_insn) (fi first : Z) (fn : option hobj)
  : M bool :=
  callee ← callee_of ctx fi first (i_c ins);
  caller ← frame_fun ctx;
  replace_frame callee caller first (i_c ins) fn.

Definition op_call : op_handler := fun ctx ins =>
  ok ← jello_vm_fuel_charge m;
  if negb (ok : bool) then mret OP_TRAP else
  let fi := i_imm ins in
  if jello_is_native_builtin fi then _ ← native ctx ins fi (i_b ins); mret OP_CONTINUE else
  _ ← push_call ctx ins fi (i_b ins) None; mret OP_CONTINUE.

(** [fn->func_index]. *)
Definition fn_func_index (fo : hobj) : Z :=
  match fo with HFunction _ fi _ _ | HFunctionRaw _ fi _ _ _ => fi | _ => 0 end.

(** The function object in the callee register; [None]: the trap is raised. *)
Definition callee_object (v : Z) (what : string) (not_ptr : M string) : M (option hobj) :=
  if negb (jello_is_ptr v) || jello_is_null v then
    msg ← not_ptr; _ ← jello_vm_trap m JELLO_TRAP_TYPE_MISMATCH msg; mret None
  else
  o ← deref v;
  if negb (bool_decide (obj_kind o = JELLO_OBJ_FUNCTION)) then
    _ ← jello_vm_trap m JELLO_TRAP_TYPE_MISMATCH (what ++ " callee not a function"); mret None
  else mret (Some o).

(** ["func=%u pc=%u reg=%u"]: where the failing call is. *)
Definition call_site (ctx : exec_ctx) (ins : jello_insn) : M string :=
  fr ← ctx_frame ctx;
  let pc := if 0 <? cf_pc fr then cf_pc fr - 1 else 0 in
  mret ("func=" ++ show_u (cf_f fr) ++ " pc=" ++ show_u pc ++ " reg=" ++ show_u (i_b ins)).

Definition op_callr : op_handler := fun ctx ins =>
  ok ← jello_vm_fuel_charge m;
  if negb (ok : bool) then mret OP_TRAP else
  v ← vm_load_val (cx_rf ctx) (i_b ins);
  if jello_is_ptr v && negb (jello_is_null v) && (v =? 0) then
    trap_continue m JELLO_TRAP_TYPE_MISMATCH "callr callee is null"
  else
  o ← callee_object v "callr"
  (site ← call_site ctx ins;
    mret (snprintf 128 ("callr callee not a function (" ++ site ++ " val=0x" ++ show_hex v ++ ")")));
  match o with
  | None => mret OP_CONTINUE
  | Some fn =>
    let fi := fn_func_index fn in
    if jello_is_jdll_prim fi then _ ← jdll_prim ctx ins v (i_imm ins); mret OP_CONTINUE else
    if jello_is_native_builtin fi then _ ← native ctx ins fi (i_imm ins); mret OP_CONTINUE else
    _ ← push_call ctx ins fi (i_imm ins) (Some fn); mret OP_CONTINUE
  end.

(** The return that follows a native tail call.  The first frame is dropped, but
    the frame array, the caches and the handlers stay. *)
Definition return_native (ctx : exec_ctx) (ins : jello_insn) : M op_result :=
  fr ← ctx_frame ctx;
  _ ← leave_frame_handlers fr;
  if negb (cf_has_caller fr) then
    ret ← box_from_typed (cx_f ctx) (cx_rf ctx) (i_a ins);
    _ ← pop_frame; mret (OP_RETURN ret None)
  else
  n ← nframes;
  _ ← panic_if (n <? 2);
  caller ← frame_at (n - 2);
  _ ← return_boxed malloc m nan32 nan64 ctx caller (cf_caller_dst fr) (i_a ins);
  mret OP_CONTINUE.

Definition op_tailcall : op_handler := fun ctx ins =>
  let fi := i_imm ins in
  if jello_is_native_builtin fi then _ ← native ctx ins fi (i_b ins); return_native ctx ins else
  _ ← tail_call ctx ins fi (i_b ins) None; mret OP_CONTINUE.

Definition op_tailcallr : op_handler := fun ctx ins =>
  v ← vm_load_val (cx_rf ctx) (i_b ins);
  o ← callee_object v "tailcallr"
  (site ← call_site ctx ins;
    mret (snprintf 128 ("tailcallr callee not a function (" ++ site ++ ")")));
  match o with
  | None => mret OP_CONTINUE
  | Some fn =>
    let fi := fn_func_index fn in
    if jello_is_jdll_prim fi then
      ok ← jdll_prim ctx ins v (i_imm ins);
      if negb (ok : bool) then mret OP_CONTINUE else return_native ctx ins
    else
    if jello_is_native_builtin fi then
      _ ← native ctx ins fi (i_imm ins); return_native ctx ins else
    _ ← tail_call ctx ins fi (i_imm ins) (Some fn); mret OP_CONTINUE
  end.
End CallOps.
