(* ===== verification/ContainerOps.v ===== *)
(** * Array, list and enum handlers

    Model of src/src/vm/ops/ops_array.c, ops_list.c and ops_enum.c.  A
    pointer register whose object has another kind than the handler expects is
    undefined behaviour here: the handlers do not look at the kind. *)

From Stdlib Require Import String.
From S2P Require Import Prelude CInt Memory Bytecode Value Object Heap Vm Frame Float Gc Box Types Ops Call Exc CoreOps.

Open Scope string_scope.
Open Scope Z_scope.

(** [((jello_array * )p)->...] and its twins. *)
Definition as_array (p : Z) : M (Z * list Z) :=
  o ← deref p; match o with HArray t d => mret (t, d) | _ => crash end.
Definition as_list (p : Z) : M (Z * Z) :=
  o ← deref p; match o with HList _ h t => mret (h, t) | _ => crash end.
Definition as_bytes (p : Z) : M (list Z) :=
  o ← deref p; match o with HBytes _ d => mret d | _ => crash end.

Definition in_range {A} (l : list A) (i : Z) : bool := (0 <=? i) && (i <? zlen l).

(** [a->data[i] = v]. *)
Definition array_store (p i v : Z) : M () :=
  '(t, d) ← as_array p;
  if in_range d i then write_obj p (HArray t (d @[i := v])) else crash.

(** [b->data[off ...] = l]. *)
Definition bytes_store (p off : Z) (l : list Z) : M () :=
  o ← deref p;
  match o with
  | HBytes t d => d' ← must (block_write d off l); write_obj p (HBytes t d')
  | _ => crash
  end.

(** [limit && limit < n]. *)
Definition exceeds (limit n : Z) : bool := negb (limit =? 0) && (limit <? n).

Section Containers.
Context (malloc : gc_state -> Z -> option Z) (m : jello_bc_module) (nan32 nan64 : Z).

Abbreviation store_from_boxed := (vm_store_from_boxed malloc m nan32 nan64).
Abbreviation box_from_typed := (vm_box_from_typed malloc m).
Abbreviation trap := (trap_continue m).

(** ** Arrays *)

Definition array_elem_kind (f : jello_bc_function) (arr_reg : Z) : option jello_type_kind :=
  match vm_reg_kind m f arr_reg with
  | Some JELLO_T_ARRAY =>
    tid ← f_reg_types f @! arr_reg;
    te ← m_types m @! tid;
    te_kind <$> m_types m @! (te_as te)
  | _ => None
  end.

(** Whether a freshly made array of the type is filled with the integer 0. *)
Definition fills_i32 (type_id : Z) : bool :=
  match m_types m @! type_id with
  | Some te =>
    kind_eqb (te_kind te) JELLO_T_ARRAY &&
    match te_kind <$> m_types m @! (te_as te) with
    | Some (JELLO_T_I8 | JELLO_T_I16 | JELLO_T_I32) => true
    | _ => false
    end
  | None => false
  end.

Definition op_array_new : op_handler := fun ctx ins =>
  len ← vm_load_u32 (cx_rf ctx) (i_b ins);
  l ← get_limits;
  if exceeds (max_array_len l) len then trap JELLO_TRAP_LIMIT "array_new length exceeds limit" else
  type_id ← must (f_reg_types (cx_f ctx) @! (i_a ins));
  a ← jello_array_new malloc m type_id len;
  _ ← (if negb (len =? 0) && fills_i32 type_id
    then write_obj a (HArray type_id (replicate (Z.to_nat len) (jello_make_i32 0)))
    else mret ());
  _ ← vm_store_ptr (cx_rf ctx) (i_a ins) a; mret OP_CONTINUE.

Definition op_array_len : op_handler := fun ctx ins =>
  a ← vm_load_ptr (cx_rf ctx) (i_b ins);
  if a =? 0 then trap JELLO_TRAP_NULL_DEREF "array_len on null" else
  '(_, d) ← as_array a;
  _ ← vm_store_u32 (cx_rf ctx) (i_a ins) (zlen d); mret OP_CONTINUE.

(** [dst is F64 && the elements are F64]. *)
Definition f64_elements (ctx : exec_ctx) (dst arr : Z) : bool :=
  bool_decide (vm_reg_kind m (cx_f ctx) dst = Some JELLO_T_F64) &&
  bool_decide (array_elem_kind (cx_f ctx) arr = Some JELLO_T_F64).

(** [fast]: a double goes straight from the box to the register. *)
Definition array_get_with (fast : bool) : op_handler := fun ctx ins =>
  a ← vm_load_ptr (cx_rf ctx) (i_b ins);
  if a =? 0 then trap JELLO_TRAP_NULL_DEREF "array_get on null" else
  idx ← vm_load_u32 (cx_rf ctx) (i_c ins);
  '(_, d) ← as_array a;
  if zlen d <=? idx then trap JELLO_TRAP_BOUNDS "array_get index out of bounds" else
  v ← must (d @! idx);
  b ← (if fast then jello_is_box_f64 v else mret None);
  match b with
  | Some x => _ ← vm_store_f64 (cx_rf ctx) (i_a ins) x; mret OP_CONTINUE
  | None => _ ← store_from_boxed (cx_f ctx) (cx_rf ctx) (i_a ins) v; mret OP_CONTINUE
  end.

Definition op_array_get : op_handler := fun ctx ins =>
  array_get_with (f64_elements ctx (i_a ins) (i_b ins)) ctx ins.

(** The value a register stores into a container: boxed, and a number held by a
    Dynamic register copied. *)
Definition box_for_store (f : jello_bc_function) (rf : reg_frame) (r : Z) : M Z :=
  v ← box_from_typed f rf r;
  k ← must (vm_reg_kind m f r);
  if kind_eqb k JELLO_T_DYNAMIC then vm_clone_numbox malloc m v else mret v.

Definition array_set_with (fast : bool) : op_handler := fun ctx ins =>
  a ← vm_load_ptr (cx_rf ctx) (i_b ins);
  if a =? 0 then trap JELLO_TRAP_NULL_DEREF "array_set on null" else
  idx ← vm_load_u32 (cx_rf ctx) (i_c ins);
  '(_, d) ← as_array a;
  if zlen d <=? idx then trap JELLO_TRAP_BOUNDS "array_set index out of bounds" else
  slot ← must (d @! idx);
  b ← (if fast then jello_is_box_f64 slot else mret None);
  match b with
  | Some _ =>
    o ← deref slot;
    x ← vm_load_f64 (cx_rf ctx) (i_a ins);
    _ ← write_obj slot (HBoxF64 (obj_type_id o) x); mret OP_CONTINUE
  | None =>
    n ← vm_store_num_inplace m (cx_f ctx) (cx_rf ctx) (i_a ins) slot;
    match n with
    | Some w => _ ← array_store a idx w; mret OP_CONTINUE
    | None =>
      v ← box_for_store (cx_f ctx) (cx_rf ctx) (i_a ins);
      _ ← array_store a idx v; mret OP_CONTINUE
    end
  end.

Definition op_array_set : op_handler := fun ctx ins =>
  array_set_with (f64_elements ctx (i_a ins) (i_b ins)) ctx ins.

(** [for(i < src->length) out->data[base + i] = clone(src->data[i])]. *)
Definition clone_elems (src out base : Z) (n : nat) : M () :=
  mfor 0 n (fun i =>
    '(_, d) ← as_array src;
    x ← must (d @! i);
    v ← vm_clone_numbox malloc m x;
    array_store out (base + i) v).

Definition op_array_concat2 : op_handler := fun ctx ins =>
  x ← vm_load_ptr (cx_rf ctx) (i_b ins);
  if x =? 0 then trap JELLO_TRAP_NULL_DEREF "array_concat2 on null lhs" else
  y ← vm_load_ptr (cx_rf ctx) (i_c ins);
  if y =? 0 then trap JELLO_TRAP_NULL_DEREF "array_concat2 on null rhs" else
  '(tx, dx) ← as_array x;
  '(ty, dy) ← as_array y;
  let total := zlen dx + zlen dy in
  if UINT32_MAX <? total then trap JELLO_TRAP_BOUNDS "array_concat2 length overflow" else
  l ← get_limits;
  if exceeds (max_array_len l) total then trap JELLO_TRAP_LIMIT "array_concat2 length exceeds limit" else
  type_id ← must (f_reg_types (cx_f ctx) @! (i_a ins));
  if negb (tx =? type_id) || negb (ty =? type_id)
  then trap JELLO_TRAP_TYPE_MISMATCH "array_concat2 type mismatch" else
  out ← jello_array_new malloc m type_id total;
  _ ← jello_gc_push_root out;
  _ ← clone_elems x out 0 (length dx);
  _ ← clone_elems y out (zlen dx) (length dy);
  _ ← vm_store_ptr (cx_rf ctx) (i_a ins) out;
  _ ← jello_gc_pop_roots 1; mret OP_CONTINUE.

Definition op_array_resize : op_handler := fun ctx ins =>
  a ← vm_load_ptr (cx_rf ctx) (i_b ins);
  if a =? 0 then trap JELLO_TRAP_NULL_DEREF "array_resize on null" else
  new_len ← vm_load_u32 (cx_rf ctx) (i_c ins);
  ok ← jello_array_resize m a new_len;
  if ok : bool then mret OP_CONTINUE else trap JELLO_TRAP_LIMIT "array_resize failed".

(** ** Lists *)

Definition op_list_nil : op_handler := fun ctx ins =>
  _ ← vm_store_ptr (cx_rf ctx) (i_a ins) 0; mret OP_CONTINUE.

Definition op_list_cons : op_handler := fun ctx ins =>
  head ← box_for_store (cx_f ctx) (cx_rf ctx) (i_b ins);
  _ ← jello_gc_push_root head;
  tail ← vm_load_ptr (cx_rf ctx) (i_c ins);
  type_id ← must (f_reg_types (cx_f ctx) @! (i_a ins));
  node ← jello_list_cons malloc m type_id head tail;
  _ ← jello_gc_pop_roots 1;
  _ ← vm_store_ptr (cx_rf ctx) (i_a ins) node; mret OP_CONTINUE.

Definition op_list_head : op_handler := fun ctx ins =>
  node ← vm_load_ptr (cx_rf ctx) (i_b ins);
  if node =? 0 then trap JELLO_TRAP_NULL_DEREF "list_head on nil" else
  '(head, _) ← as_list node;
  _ ← store_from_boxed (cx_f ctx) (cx_rf ctx) (i_a ins) head; mret OP_CONTINUE.

Definition op_list_tail : op_handler := fun ctx ins =>
  node ← vm_load_ptr (cx_rf ctx) (i_b ins);
  if node =? 0 then trap JELLO_TRAP_NULL_DEREF "list_tail on nil" else
  '(_, tail) ← as_list node;
  _ ← vm_store_ptr (cx_rf ctx) (i_a ins) tail; mret OP_CONTINUE.

Definition op_list_is_nil : op_handler := fun ctx ins =>
  p ← vm_load_ptr (cx_rf ctx) (i_b ins);
  _ ← vm_store_u32 (cx_rf ctx) (i_a ins) (Z.b2z (p =? 0)); mret OP_CONTINUE.

(** ** Enums *)

(** The fields are boxed one after the other, none of them a root yet. *)
Fixpoint box_fields (f : jello_bc_function) (rf : reg_frame) (r : Z) (n : nat) : M (list Z) :=
  match n with
  | O => mret []
  | S n' =>
    _ ← panic_if (f_nregs f <=? r);
    v ← box_from_typed f rf r;
    vs ← box_fields f rf (r + 1) n';
    mret (v :: vs)
  end.

Definition op_enum_new : op_handler := fun ctx ins =>
  type_id ← must (f_reg_types (cx_f ctx) @! (i_a ins));
  let tag := i_imm ins in
  e ← (if i_c ins =? 0 then jello_enum_nullary_intern malloc m type_id tag
    else
    fields ← box_fields (cx_f ctx) (cx_rf ctx) (i_b ins) (Z.to_nat (i_c ins));
    jello_enum_new malloc m type_id tag fields);
  _ ← vm_store_ptr (cx_rf ctx) (i_a ins) e; mret OP_CONTINUE.

Definition op_enum_tag : op_handler := fun ctx ins =>
  e ← vm_load_ptr (cx_rf ctx) (i_b ins);
  if e =? 0 then trap JELLO_TRAP_NULL_DEREF "enum_tag on null" else
  o ← deref e;
  match o with
  | HEnum _ tag _ => _ ← vm_store_u32 (cx_rf ctx) (i_a ins) tag; mret OP_CONTINUE
  | _ => trap JELLO_TRAP_TYPE_MISMATCH "enum_tag on non-enum"
  end.

Definition op_enum_get : op_handler := fun ctx ins =>
  e ← vm_load_ptr (cx_rf ctx) (i_b ins);
  if e =? 0 then trap JELLO_TRAP_NULL_DEREF "enum_get on null" else
  o ← deref e;
  match o with
  | HEnum _ _ fields =>
    idx ← vm_load_u32 (cx_rf ctx) (i_c ins);
    if zlen fields <=? idx then trap JELLO_TRAP_BOUNDS "enum_get index out of bounds" else
    v ← must (fields @! idx);
    _ ← store_from_boxed (cx_f ctx) (cx_rf ctx) (i_a ins) v; mret OP_CONTINUE
  | _ => trap JELLO_TRAP_TYPE_MISMATCH "enum_get on non-enum"
  end.
End Containers.
