(* ===== verification/BytesOps.v ===== *)
(** * Bytes handlers

    Model of src/src/vm/ops/ops_bytes.c, on a little-endian machine.  The compiler's
    byte-swap builtins are those the file defines for compilers without them. *)

From Stdlib Require Import String.
From S2P Require Import Prelude CInt Memory Bytecode Value Object Heap Vm Frame Float Gc Box Types Ops Call Exc CoreOps ContainerOps.

Open Scope string_scope.
Open Scope Z_scope.

Section Bytes.
Context (malloc : gc_state -> Z -> option Z) (m : jello_bc_module).

Abbreviation trap := (trap_continue m).

Definition op_bytes_new : op_handler := fun ctx ins =>
  len ← vm_load_u32 (cx_rf ctx) (i_b ins);
  l ← get_limits;
  if exceeds (max_bytes_len l) len then trap JELLO_TRAP_LIMIT "bytes_new length exceeds limit" else
  type_id ← must (f_reg_types (cx_f ctx) @! (i_a ins));
  b ← jello_bytes_new malloc m type_id len;
  _ ← vm_store_ptr (cx_rf ctx) (i_a ins) b; mret OP_CONTINUE.

Definition op_bytes_len : op_handler := fun ctx ins =>
  b ← vm_load_ptr (cx_rf ctx) (i_b ins);
  if b =? 0 then trap JELLO_TRAP_NULL_DEREF "bytes_len on null" else
  d ← as_bytes b;
  _ ← vm_store_u32 (cx_rf ctx) (i_a ins) (zlen d); mret OP_CONTINUE.

Definition op_bytes_eq : op_handler := fun ctx ins =>
  a ← vm_load_ptr (cx_rf ctx) (i_b ins);
  b ← vm_load_ptr (cx_rf ctx) (i_c ins);
  eq ← (if a =? b then mret true
    else if negb (a =? 0) && negb (b =? 0) then
      da ← as_bytes a; db ← as_bytes b; mret (bool_decide (da = db))
    else mret false);
  _ ← vm_store_u32 (cx_rf ctx) (i_a ins) (Z.b2z eq); mret OP_CONTINUE.

Definition op_bytes_get_u8 : op_handler := fun ctx ins =>
  b ← vm_load_ptr (cx_rf ctx) (i_b ins);
  if b =? 0 then trap JELLO_TRAP_NULL_DEREF "bytes_get_u8 on null" else
  idx ← vm_load_u32 (cx_rf ctx) (i_c ins);
  d ← as_bytes b;
  if zlen d <=? idx then trap JELLO_TRAP_BOUNDS "bytes_get_u8 index out of bounds" else
  x ← must (d @! idx);
  _ ← vm_store_u32 (cx_rf ctx) (i_a ins) x; mret OP_CONTINUE.

Definition op_bytes_set_u8 : op_handler := fun ctx ins =>
  b ← vm_load_ptr (cx_rf ctx) (i_b ins);
  if b =? 0 then trap JELLO_TRAP_NULL_DEREF "bytes_set_u8 on null" else
  idx ← vm_load_u32 (cx_rf ctx) (i_c ins);
  d ← as_bytes b;
  if zlen d <=? idx then trap JELLO_TRAP_BOUNDS "bytes_set_u8 index out of bounds" else
  v ← vm_load_u32 (cx_rf ctx) (i_a ins);
  if 255 <? v then trap JELLO_TRAP_BOUNDS "bytes_set_u8 value out of range" else
  _ ← bytes_store b idx [u8 v]; mret OP_CONTINUE.

(** ** Concatenation and bitwise operations *)

Definition op_bytes_concat2 : op_handler := fun ctx ins =>
  x ← vm_load_ptr (cx_rf ctx) (i_b ins);
  if x =? 0 then trap JELLO_TRAP_NULL_DEREF "bytes_concat2 on null lhs" else
  y ← vm_load_ptr (cx_rf ctx) (i_c ins);
  if y =? 0 then trap JELLO_TRAP_NULL_DEREF "bytes_concat2 on null rhs" else
  dx ← as_bytes x; dy ← as_bytes y;
  let total := zlen dx + zlen dy in
  if UINT32_MAX <? total then trap JELLO_TRAP_BOUNDS "bytes_concat2 length overflow" else
  l ← get_limits;
  if exceeds (max_bytes_len l) total then trap JELLO_TRAP_LIMIT "bytes_concat2 length exceeds limit" else
  type_id ← must (f_reg_types (cx_f ctx) @! (i_a ins));
  outb ← jello_bytes_new malloc m type_id total;
  _ ← jello_gc_push_root outb;
  dx ← as_bytes x; _ ← bytes_store outb 0 dx;
  dy ← as_bytes y; _ ← bytes_store outb (zlen dx) dy;
  _ ← vm_store_ptr (cx_rf ctx) (i_a ins) outb;
  _ ← jello_gc_pop_roots 1; mret OP_CONTINUE.

(** The length of all parts from the total so far; [None]: the trap is raised. *)
Fixpoint concat_total (parts : list Z) (total : Z) : M (option Z) :=
  match parts with
  | [] => mret (Some total)
  | pv :: parts' =>
    if jello_is_null pv then
      _ ← trap JELLO_TRAP_NULL_DEREF "bytes_concat_many element is null"; mret None else
    if negb (jello_is_ptr pv) then
      _ ← trap JELLO_TRAP_TYPE_MISMATCH "bytes_concat_many element not bytes"; mret None else
    o ← deref pv;
    match o with
    | HBytes _ d =>
      let total := total + zlen d in
      if UINT32_MAX <? total then
        _ ← trap JELLO_TRAP_BOUNDS "bytes_concat_many length overflow"; mret None
      else concat_total parts' total
    | _ => _ ← trap JELLO_TRAP_TYPE_MISMATCH "bytes_concat_many element not bytes"; mret None
    end
  end.

Fixpoint copy_parts (outb : Z) (parts : list Z) (w : Z) : M () :=
  match parts with
  | [] => mret ()
  | p :: parts' =>
    d ← as_bytes p;
    _ ← bytes_store outb w d;
    copy_parts outb parts' (u32 (w + zlen d))
  end.

Definition op_bytes_concat_many : op_handler := fun ctx ins =>
  parts ← vm_load_ptr (cx_rf ctx) (i_b ins);
  if parts =? 0 then trap JELLO_TRAP_NULL_DEREF "bytes_concat_many on null" else
  '(_, d) ← as_array parts;
  total ← concat_total d 0;
  match total with
  | None => mret OP_CONTINUE
  | Some total =>
    l ← get_limits;
    if exceeds (max_bytes_len l) total
    then trap JELLO_TRAP_LIMIT "bytes_concat_many length exceeds limit" else
    type_id ← must (f_reg_types (cx_f ctx) @! (i_a ins));
    outb ← jello_bytes_new malloc m type_id total;
    _ ← jello_gc_push_root outb;
    '(_, d) ← as_array parts;
    _ ← copy_parts outb d 0;
    _ ← vm_store_ptr (cx_rf ctx) (i_a ins) outb;
    _ ← jello_gc_pop_roots 1; mret OP_CONTINUE
  end.

Definition op_bytes_bitwise2 (name : string) (binop : Z -> Z -> Z) : op_handler := fun ctx ins =>
  x ← vm_load_ptr (cx_rf ctx) (i_b ins);
  if x =? 0 then trap JELLO_TRAP_NULL_DEREF (name ++ " on null lhs") else
  y ← vm_load_ptr (cx_rf ctx) (i_c ins);
  if y =? 0 then trap JELLO_TRAP_NULL_DEREF (name ++ " on null rhs") else
  dx ← as_bytes x; dy ← as_bytes y;
  if negb (zlen dx =? zlen dy)
  then trap JELLO_TRAP_BOUNDS "bytes bitwise operands must have equal length" else
  l ← get_limits;
  if exceeds (max_bytes_len l) (zlen dx) then trap JELLO_TRAP_LIMIT (name ++ " length exceeds limit") else
  type_id ← must (f_reg_types (cx_f ctx) @! (i_a ins));
  outb ← jello_bytes_new malloc m type_id (zlen dx);
  _ ← jello_gc_push_root outb;
  dx ← as_bytes x; dy ← as_bytes y;
  _ ← bytes_store outb 0 (zip_with (fun a b => u8 (binop a b)) dx dy);
  _ ← vm_store_ptr (cx_rf ctx) (i_a ins) outb;
  _ ← jello_gc_pop_roots 1; mret OP_CONTINUE.

Definition bytes_and (a b : Z) : Z := u8 (Z.land a b).
Definition bytes_or (a b : Z) : Z := u8 (Z.lor a b).
Definition bytes_xor (a b : Z) : Z := u8 (Z.lxor a b).

Definition op_bytes_bitand2 := op_bytes_bitwise2 "bytes_bitand2" bytes_and.
Definition op_bytes_bitor2 := op_bytes_bitwise2 "bytes_bitor2" bytes_or.
Definition op_bytes_bitxor2 := op_bytes_bitwise2 "bytes_bitxor2" bytes_xor.

(** ** Numbers in byte strings *)

Definition jello_bswap16 (x : Z) : Z := u16 (Z.lor (Z.shiftr x 8) (Z.shiftl x 8)).
Definition jello_bswap32 (x : Z) : Z :=
  Z.lor (Z.lor (Z.lor (u32 (Z.shiftl (Z.land x 0x000000FF) 24)) (u32 (Z.shiftl (Z.land x 0x0000FF00) 8)))
      (Z.shiftr (Z.land x 0x00FF0000) 8)) (Z.shiftr (Z.land x 0xFF000000) 24).

Definition bytes_load (ctx : exec_ctx) (reg : Z) (null_msg : string) : M (option Z) :=
  b ← vm_load_ptr (cx_rf ctx) reg;
  if b =? 0 then _ ← trap JELLO_TRAP_NULL_DEREF null_msg; mret None else mret (Some b).

Definition bytes_off (ctx : exec_ctx) (reg : Z) : M Z :=
  v ← vm_load_u32 (cx_rf ctx) reg; mret (i32 v).

Definition bytes_rw_ok (b off width : Z) (align_msg : string) : M bool :=
  if (off <? 0) || negb (u32 off mod width =? 0) then
    _ ← trap JELLO_TRAP_BOUNDS align_msg; mret false else
  d ← as_bytes b;
  if zlen d <? u32 (u32 off + width) then
    _ ← trap JELLO_TRAP_BOUNDS "bytes read/write offset out of bounds"; mret false
  else mret true.

(** [memcpy(&v, p, n)]. *)
Definition read_le (p : list Z) : Z := le_value p.
Definition read_u16_le := read_le.
Definition read_u16_be (p : list Z) : Z := jello_bswap16 (read_u16_le p).
Definition read_u32_le := read_le.
Definition read_u32_be (p : list Z) : Z := jello_bswap32 (read_u32_le p).
Definition write_u16_le (v : Z) : list Z := le_bytes 2 v.
Definition write_u16_be (v : Z) : list Z := le_bytes 2 (jello_bswap16 v).
Definition write_u32_le (v : Z) : list Z := le_bytes 4 v.
Definition write_u32_be (v : Z) : list Z := le_bytes 4 (jello_bswap32 v).

(** The checked access the handlers share: [k b off] when it is allowed. *)
Definition with_bytes (name align : string) (width : Z) (k : exec_ctx -> jello_insn -> Z -> Z -> M op_result)
  : op_handler := fun ctx ins =>
  b ← bytes_load ctx (i_b ins) (name ++ " on null");
  match b with
  | None => mret OP_CONTINUE
  | Some b =>
    off ← bytes_off ctx (i_c ins);
    ok ← bytes_rw_ok b off width (name ++ align);
    if negb (ok : bool) then mret OP_CONTINUE else k ctx ins b off
  end.

Definition aligned2 : string := " requires 2-byte aligned offset".
Definition aligned4 : string := " requires 4-byte aligned offset".

(** [v = read(b->data + off)] into register [a] with [store]. *)
Definition read_into (width : Z) (read : list Z -> Z) (store : reg_frame -> Z -> Z -> M ())
    (ctx : exec_ctx) (ins : jello_insn) (b off : Z) : M op_result :=
  d ← as_bytes b;
  p ← must (block_read d off width);
  _ ← store (cx_rf ctx) (i_a ins) (read p); mret OP_CONTINUE.

(** [write(b->data + off, register a)]. *)
Definition write_from (write : Z -> list Z) (load : reg_frame -> Z -> M Z)
    (ctx : exec_ctx) (ins : jello_insn) (b off : Z) : M op_result :=
  v ← load (cx_rf ctx) (i_a ins);
  _ ← bytes_store b off (write v); mret OP_CONTINUE.

Definition DEF_BYTES_READ_U16 (name : string) (READ_FN : list Z -> Z) : op_handler :=
  with_bytes name aligned2 2 (read_into 2 READ_FN vm_store_u32).
Definition DEF_BYTES_READ_U32 (name : string) (READ_FN : list Z -> Z) : op_handler :=
  with_bytes name aligned4 4 (read_into 4 READ_FN vm_store_u32).
Definition DEF_BYTES_WRITE_U16 (name : string) (WRITE_FN : Z -> list Z) : op_handler :=
  with_bytes name aligned2 2 (write_from (fun v => WRITE_FN (u16 v)) vm_load_u32).
Definition DEF_BYTES_WRITE_U32 (name : string) (WRITE_FN : Z -> list Z) : op_handler :=
  with_bytes name aligned4 4 (write_from WRITE_FN vm_load_u32).

Definition op_bytes_read_u16_le := DEF_BYTES_READ_U16 "bytes_read_u16_le" read_u16_le.
Definition op_bytes_read_u16_be := DEF_BYTES_READ_U16 "bytes_read_u16_be" read_u16_be.
Definition op_bytes_read_u32_le := DEF_BYTES_READ_U32 "bytes_read_u32_le" read_u32_le.
Definition op_bytes_read_u32_be := DEF_BYTES_READ_U32 "bytes_read_u32_be" read_u32_be.

Definition op_bytes_read_i32_le :=
  with_bytes "bytes_read_i32_le" aligned4 4 (read_into 4 (fun p => u32 (i32 (read_le p))) vm_store_u32).
Definition op_bytes_read_i32_be :=
  with_bytes "bytes_read_i32_be" aligned4 4 (read_into 4 (fun p => u32 (i32 (read_u32_be p))) vm_store_u32).
Definition op_bytes_read_f32_le :=
  with_bytes "bytes_read_f32_le" aligned4 4 (read_into 4 read_le vm_store_f32).
Definition op_bytes_read_f32_be :=
  with_bytes "bytes_read_f32_be" aligned4 4 (read_into 4 read_u32_be vm_store_f32).

Definition op_bytes_write_u16_le := DEF_BYTES_WRITE_U16 "bytes_write_u16_le" write_u16_le.
Definition op_bytes_write_u16_be := DEF_BYTES_WRITE_U16 "bytes_write_u16_be" write_u16_be.
Definition op_bytes_write_u32_le := DEF_BYTES_WRITE_U32 "bytes_write_u32_le" write_u32_le.
Definition op_bytes_write_u32_be := DEF_BYTES_WRITE_U32 "bytes_write_u32_be" write_u32_be.

Definition op_bytes_write_i32_le :=
  with_bytes "bytes_write_i32_le" aligned4 4
    (write_from (fun v => le_bytes 4 (u32 (i32 v))) vm_load_u32).
Definition op_bytes_write_i32_be :=
  with_bytes "bytes_write_i32_be" aligned4 4
    (write_from (fun v => le_bytes 4 (jello_bswap32 (u32 (i32 v)))) vm_load_u32).
Definition op_bytes_write_f32_le :=
  with_bytes "bytes_write_f32_le" aligned4 4 (write_from (le_bytes 4) vm_load_f32).
Definition op_bytes_write_f32_be :=
  with_bytes "bytes_write_f32_be" aligned4 4 (write_from write_u32_be vm_load_f32).
End Bytes.
