(* ===== verification/ObjOps.v ===== *)
(** * Object handlers

    Model of src/src/vm/ops/ops_obj.c and of [jello_object_slot] and
    [jello_object_copy] of src/src/types/object.c on the heap.  A probe gets fuel for
    twice the slots of its table, enough whenever it ends at all; one that does not
    end (every slot used, [ObjectThms.object_full_hangs]) is counted as [Crash]. *)

From Stdlib Require Import String.
From S2P Require Import Prelude CInt Memory Bytecode Value Object Heap Vm Frame Float Gc Box Types Ops Call Exc CoreOps ContainerOps.

Open Scope string_scope.
Open Scope Z_scope.

Section Objects.
Context (malloc : gc_state -> Z -> option Z) (m : jello_bc_module) (nan32 nan64 junk : Z).

Abbreviation store_from_boxed := (vm_store_from_boxed malloc m nan32 nan64).
Abbreviation box_from_typed := (vm_box_from_typed malloc m).
Abbreviation trap := (trap_continue m).

Definition as_object (p : Z) : M jello_object :=
  o ← deref p; match o with HObject ob => mret ob | _ => crash end.

Definition put_object (p : Z) (ob : jello_object) : M () := write_obj p (HObject ob).

Definition probe_fuel (ob : jello_object) : nat := Z.to_nat (2 * o_cap ob).

(** The table functions on the object at [p], which they may change. *)
Definition obj_get (p atom : Z) : M Z :=
  ob ← as_object p;
  '(ob', v) ← must (jello_object_get (probe_fuel ob) ob atom);
  _ ← put_object p ob'; mret v.

Definition obj_get_slot (p slot atom : Z) : M Z :=
  ob ← as_object p;
  '(ob', v) ← must (jello_object_get_slot (probe_fuel ob) ob slot atom);
  _ ← put_object p ob'; mret v.

Definition obj_has (p atom : Z) : M bool :=
  ob ← as_object p;
  '(ob', b) ← must (jello_object_has (probe_fuel ob) ob atom);
  _ ← put_object p ob'; mret b.

(** [jello_object_slot], with what the slot holds. *)
Definition jello_object_slot (p atom : Z) : M (option Z) :=
  ob ← as_object p;
  '(ob', r) ← must (find_occupied_slot (probe_fuel ob) ob atom);
  _ ← put_object p ob';
  mret (val_at ob' <$> r).

Definition obj_upsert (p atom : Z) : M (Z * bool) :=
  ob ← as_object p;
  '(ob', i, existed) ← must (jello_object_upsert junk (probe_fuel ob) ob atom);
  _ ← put_object p ob'; mret (i, existed).

Definition obj_set_slot (p slot atom : Z) : M (Z * bool) :=
  ob ← as_object p;
  '(ob', i, existed) ← must (jello_object_set_slot junk (probe_fuel ob) ob slot atom);
  _ ← put_object p ob'; mret (i, existed).

(** [*slot = v]. *)
Definition slot_store (p i v : Z) : M () := ob ← as_object p; put_object p (with_val ob i v).

(** ** The handlers by atom *)

Definition op_obj_new : op_handler := fun ctx ins =>
  type_id ← must (f_reg_types (cx_f ctx) @! (i_a ins));
  o ← jello_object_alloc malloc m junk type_id;
  _ ← vm_store_ptr (cx_rf ctx) (i_a ins) o; mret OP_CONTINUE.

Definition op_obj_has_atom : op_handler := fun ctx ins =>
  o ← vm_load_ptr (cx_rf ctx) (i_b ins);
  if o =? 0 then trap JELLO_TRAP_NULL_DEREF "obj_has_atom on null" else
  has ← obj_has o (i_imm ins);
  _ ← vm_store_u32 (cx_rf ctx) (i_a ins) (Z.b2z has); mret OP_CONTINUE.

Definition obj_update_proto_cache (o v : Z) : M () :=
  if negb (m_proto_enabled m) then mret () else
  p ← (if jello_is_ptr v && negb (v =? 0) then
      ob ← deref v;
      mret (if bool_decide (obj_kind ob = JELLO_OBJ_OBJECT) then v else 0)
    else mret 0);
  ob ← as_object o; put_object o (with_proto ob p).

(** The walk along the prototypes, [n] more steps allowed; [None]: the trap is
    raised, [Some None]: the chain ends without the atom. *)
Fixpoint proto_chain (n : nat) (cur atom : Z) : M (option (option Z)) :=
  s ← jello_object_slot cur atom;
  match s with
  | Some v => mret (Some (Some v))
  | None =>
    ob ← as_object cur;
    if o_proto ob =? 0 then mret (Some None) else
    match n with
    | O => _ ← jello_vm_trap m JELLO_TRAP_BOUNDS "prototype chain too deep"; mret None
    | S n' => proto_chain n' (o_proto ob) atom
    end
  end.

(** [steps > 1024] stops the walk after the step numbered 1025. *)
Definition PROTO_STEPS : nat := 1025.

(** False: the trap is raised. *)
Definition chain_get (f : jello_bc_function) (rf : reg_frame) (dst o atom : Z) : M bool :=
  r ← proto_chain PROTO_STEPS o atom;
  match r with
  | None => mret false
  | Some v => _ ← store_from_boxed f rf dst (default jello_make_null v); mret true
  end.

(** The stores that skip the conversion: a number of the register's own kind. *)
Definition store_same_kind (f : jello_bc_function) (rf : reg_frame) (dst v : Z) : M bool :=
  k ← must (vm_reg_kind m f dst);
  match k with
  | JELLO_T_I8 | JELLO_T_I16 | JELLO_T_I32 =>
    if jello_is_i32 v then _ ← vm_store_u32 rf dst (u32 (jello_as_i32 v)); mret true
    else mret false
  | JELLO_T_F64 =>
    b ← jello_is_box_f64 v;
    match b with Some x => _ ← vm_store_f64 rf dst x; mret true | None => mret false end
  | JELLO_T_F32 =>
    b ← jello_is_box_f32 v;
    match b with Some x => _ ← vm_store_f32 rf dst x; mret true | None => mret false end
  | JELLO_T_I64 =>
    b ← jello_is_box_i64 v;
    match b with Some x => _ ← vm_store_i64 rf dst x; mret true | None => mret false end
  | _ => mret false
  end.

Definition vm_obj_get_atom_typed (f : jello_bc_function) (rf : reg_frame)
    (dst obj_reg atom_id slot_hint : Z) : M bool :=
  o ← vm_load_ptr rf obj_reg;
  if o =? 0 then _ ← jello_vm_trap m JELLO_TRAP_NULL_DEREF "obj_get_atom on null"; mret false else
  ob ← as_object o;
  if negb (m_proto_enabled m) || (atom_id =? JELLO_ATOM___PROTO__) || (o_proto ob =? 0) then
    v ← obj_get_slot o slot_hint atom_id;
    done ← store_same_kind f rf dst v;
    if done : bool then mret true else _ ← store_from_boxed f rf dst v; mret true
  else chain_get f rf dst o atom_id.

(** What [obj_set] does with the slot it has found or made. *)
Definition set_in_slot (f : jello_bc_function) (rf : reg_frame) (val_reg o atom_id : Z)
    (i : Z) (existed : bool) : M () :=
  ob ← as_object o;
  n ← (if existed && negb (atom_id =? JELLO_ATOM___PROTO__)
    then vm_store_num_inplace m f rf val_reg (val_at ob i) else mret None);
  match n with
  | Some w => slot_store o i w
  | None =>
    v ← box_for_store malloc m f rf val_reg;
    _ ← slot_store o i v;
    if atom_id =? JELLO_ATOM___PROTO__ then obj_update_proto_cache o v else mret ()
  end.

Definition vm_obj_set_atom_typed (f : jello_bc_function) (rf : reg_frame)
    (val_reg obj_reg atom_id slot_hint : Z) : M bool :=
  o ← vm_load_ptr rf obj_reg;
  if o =? 0 then _ ← jello_vm_trap m JELLO_TRAP_NULL_DEREF "obj_set_atom on null"; mret false else
  '(i, existed) ← obj_set_slot o slot_hint atom_id;
  _ ← set_in_slot f rf val_reg o atom_id i existed; mret true.

Definition op_obj_get_atom : op_handler := fun ctx ins =>
  _ ← vm_obj_get_atom_typed (cx_f ctx) (cx_rf ctx) (i_a ins) (i_b ins) (i_imm ins) (i_c ins);
  mret OP_CONTINUE.

Definition op_obj_set_atom : op_handler := fun ctx ins =>
  _ ← vm_obj_set_atom_typed (cx_f ctx) (cx_rf ctx) (i_a ins) (i_b ins) (i_imm ins) (i_c ins);
  mret OP_CONTINUE.

(** ** The handlers with an atom register *)

Definition op_obj_get : op_handler := fun ctx ins =>
  o ← vm_load_ptr (cx_rf ctx) (i_b ins);
  _ ← panic_if (o =? 0);
  atom_id ← vm_load_u32 (cx_rf ctx) (i_c ins);
  if m_natoms m <=? atom_id then trap JELLO_TRAP_BOUNDS "obj_get atom id out of range" else
  if negb (m_proto_enabled m) || (atom_id =? JELLO_ATOM___PROTO__) then
    v ← obj_get o atom_id;
    _ ← store_from_boxed (cx_f ctx) (cx_rf ctx) (i_a ins) v; mret OP_CONTINUE
  else _ ← chain_get (cx_f ctx) (cx_rf ctx) (i_a ins) o atom_id; mret OP_CONTINUE.

Definition op_obj_set : op_handler := fun ctx ins =>
  o ← vm_load_ptr (cx_rf ctx) (i_b ins);
  _ ← panic_if (o =? 0);
  atom_id ← vm_load_u32 (cx_rf ctx) (i_c ins);
  if m_natoms m <=? atom_id then trap JELLO_TRAP_BOUNDS "obj_set atom id out of range" else
  '(i, existed) ← obj_upsert o atom_id;
  _ ← set_in_slot (cx_f ctx) (cx_rf ctx) (i_a ins) o atom_id i existed; mret OP_CONTINUE.

Definition op_obj_has : op_handler := fun ctx ins =>
  o ← vm_load_ptr (cx_rf ctx) (i_b ins);
  if o =? 0 then trap JELLO_TRAP_NULL_DEREF "obj_has on null" else
  atom_id ← vm_load_u32 (cx_rf ctx) (i_c ins);
  if m_natoms m <=? atom_id then trap JELLO_TRAP_BOUNDS "obj_has atom id out of range" else
  has ← obj_has o atom_id;
  _ ← vm_store_u32 (cx_rf ctx) (i_a ins) (Z.b2z has); mret OP_CONTINUE.

Definition op_obj_remove : op_handler := fun ctx ins =>
  o ← vm_load_ptr (cx_rf ctx) (i_b ins);
  if o =? 0 then trap JELLO_TRAP_NULL_DEREF "obj_remove on null" else
  atom_id ← vm_load_u32 (cx_rf ctx) (i_c ins);
  if m_natoms m <=? atom_id then trap JELLO_TRAP_BOUNDS "obj_remove atom id out of range" else
  ob ← as_object o;
  '(ob', removed) ← must (jello_object_remove (probe_fuel ob) ob atom_id);
  _ ← put_object o ob';
  _ ← vm_store_u32 (cx_rf ctx) (i_a ins) (Z.b2z removed); mret OP_CONTINUE.

Definition op_obj_clear : op_handler := fun ctx ins =>
  o ← vm_load_ptr (cx_rf ctx) (i_b ins);
  if o =? 0 then trap JELLO_TRAP_NULL_DEREF "obj_clear on null" else
  ob ← as_object o; _ ← put_object o (jello_object_clear ob); mret OP_CONTINUE.

(** ** Copy and keys *)

Fixpoint copy_slots (src dst i : Z) (n : nat) : M () :=
  match n with
  | O => mret ()
  | S n' =>
    so ← as_object src;
    _ ← (if bool_decide (state_at so i = OCCUPIED) then
        v ← vm_clone_numbox malloc m (val_at so i);
        dob ← as_object dst;
        dob' ← must (jello_object_set junk (probe_fuel dob) dob (key_at so i) v);
        put_object dst dob'
      else mret ());
    copy_slots src dst (i + 1) n'
  end.

(** The copy is no root while its boxes are allocated. *)
Definition jello_object_copy_heap (src : Z) : M Z :=
  so ← as_object src;
  dst ← jello_object_alloc malloc m junk (o_type_id so);
  _ ← copy_slots src dst 0 (Z.to_nat (o_cap so));
  so ← as_object src; dob ← as_object dst;
  _ ← put_object dst (with_proto dob (o_proto so));
  mret dst.

Definition op_obj_copy : op_handler := fun ctx ins =>
  src ← vm_load_ptr (cx_rf ctx) (i_b ins);
  if src =? 0 then trap JELLO_TRAP_NULL_DEREF "obj_copy on null" else
  dst ← jello_object_copy_heap src;
  _ ← vm_store_ptr (cx_rf ctx) (i_a ins) dst; mret OP_CONTINUE.

(** The list of keys so far is no root while the next node is allocated. *)
Fixpoint keys_list (o list_type_id tail i : Z) (n : nat) : M Z :=
  match n with
  | O => mret tail
  | S n' =>
    ob ← as_object o;
    tail ← (if bool_decide (state_at ob i = OCCUPIED)
      then jello_list_cons malloc m list_type_id (jello_make_atom (key_at ob i)) tail
      else mret tail);
    keys_list o list_type_id tail (i + 1) n'
  end.

Definition op_obj_keys : op_handler := fun ctx ins =>
  o ← vm_load_ptr (cx_rf ctx) (i_b ins);
  if o =? 0 then trap JELLO_TRAP_NULL_DEREF "obj_keys on null" else
  list_type_id ← must (f_reg_types (cx_f ctx) @! (i_a ins));
  ob ← as_object o;
  tail ← keys_list o list_type_id 0 0 (Z.to_nat (o_cap ob));
  _ ← vm_store_ptr (cx_rf ctx) (i_a ins) tail; mret OP_CONTINUE.
End Objects.
