(* ===== verification/Jdll.v ===== *)
(** * Calling native libraries

    Model of src/src/ffi/jdll_marshal.c, of the arguments in jdll_callback.c and of
    [jello_jdll_fill_exports] of jdll_loader.c, with [vm_push_frame_jello_call] of
    src/src/vm/frame.c.  A primitive of a library is foreign code ([export]); it works in
    the monad [P], which adds the failure a primitive reports to the machine.

    [check_bytes_guards]: the check a primitive makes before it reads its argument as a
    byte string is enough.  [arity_overflows], [missing_argument] and
    [unchecked_dynamic]: what happens without one. *)

From Stdlib Require Import String.
From S2P Require Import Prelude CInt Memory Bytecode Value Object Heap Vm Frame Float Gc GcThms Box BoxThms Types Ops Call Exc JdllAbi ObjOps.
#[local] Open Scope string_scope.
#[local] Open Scope list_scope.
#[local] Open Scope Z_scope.

(** ** Contexts *)

(** [jdlo_ctx]; [failed] and [fail_msg] are the state of [P]. *)
Record jdlo_ctx : Set := mk_jdlo {
  jc_x : exec_ctx;
  jc_dst_reg : Z;
  jc_first_arg_reg : Z;
  jc_nargs : Z;
  jc_caller_frame_idx : Z
}.

Definition jc_caller_f (c : jdlo_ctx) : jello_bc_function := cx_f (jc_x c).

(** [None]: not failed. *)
Definition P (A : Type) : Type := option string -> M (A * option string).

#[export] Instance P_ret : MRet P := fun A a e => mret (a, e).
#[export] Instance P_bind : MBind P := fun A B k p e => '(a, e) ← p e; k a e.

Definition liftP {A} (p : M A) : P A := fun e => a ← p; mret (a, e).
Definition has_failed : P bool := fun e => mret (bool_decide (is_Some e), e).

Definition jdl_fail (msg : option string) : P () := fun _ => mret ((), Some (default "jdll error" msg)).

(** [jdl_caller_rf]: the caller's registers, if its frame is still there. *)
Definition jdl_caller_rf (c : jdlo_ctx) : P (option reg_frame) :=
  s ← liftP get_stack; mret (cf_rf <$> (call_frames s @! (jc_caller_frame_idx c))).

Section Jdll.
Context (malloc : gc_state -> Z -> option Z) (m : jello_bc_module) (maddr : Z).
Context (nan32 nan64 junk : Z) (nan16 : bool -> Z).

Abbreviation store_from_boxed := (vm_store_from_boxed malloc m nan32 nan64).
Abbreviation box_from_typed := (vm_box_from_typed malloc m).

(** ** Arguments *)

(** The guard of every [jdl_arg_...]: [def] for a bad argument. *)
Definition with_arg {A} (c : jdlo_ctx) (index : Z) (def : A) (k : reg_frame -> Z -> P A) : P A :=
  failed ← has_failed;
  rf ← jdl_caller_rf c;
  match rf with
  | Some rf =>
    if (failed : bool) || (index <? 0) || (jc_nargs c <=? u32 index) then mret def
    else k rf (u32 (jc_first_arg_reg c + index))
  | None => mret def
  end.

Definition arg_word {A} (c : jdlo_ctx) (index : Z) (def : A) (load : reg_frame -> Z -> M Z) (cast : Z -> A) : P A :=
  with_arg c index def (fun rf r => v ← liftP (load rf r); mret (cast v)).

Definition jdl_arg_count (c : jdlo_ctx) : Z := i32 (jc_nargs c).
Definition jdl_arg_bool (c : jdlo_ctx) (index : Z) : P Z := arg_word c index 0 vm_load_u32 i32.
Definition jdl_arg_i8 (c : jdlo_ctx) (index : Z) : P Z := arg_word c index 0 vm_load_u32 i8.
Definition jdl_arg_i16 (c : jdlo_ctx) (index : Z) : P Z := arg_word c index 0 vm_load_u32 i16.
Definition jdl_arg_i32 (c : jdlo_ctx) (index : Z) : P Z := arg_word c index 0 vm_load_u32 i32.
Definition jdl_arg_i64 (c : jdlo_ctx) (index : Z) : P Z := arg_word c index 0 vm_load_i64 id.
Definition jdl_arg_f32 (c : jdlo_ctx) (index : Z) : P Z := arg_word c index 0 vm_load_f32 id.
Definition jdl_arg_f64 (c : jdlo_ctx) (index : Z) : P Z := arg_word c index 0 vm_load_f64 id.
Definition jdl_arg_atom (c : jdlo_ctx) (index : Z) : P Z := arg_word c index 0 vm_load_u32 id.

Definition jdl_arg_f16 (c : jdlo_ctx) (index : Z) : P Z :=
  with_arg c index 0 (fun rf r =>
    b ← liftP (vm_load_f16_bits rf r); liftP (must (vm_f16_bits_to_f32 nan16 b))).

(** The byte string a pointer register holds, read as one whatever it points to. *)
Definition bytes_at (p : Z) : M (list Z) :=
  o ← deref p; match o with HBytes _ l => mret l | _ => crash end.

(** [b->data], as the address of [b]; 0 is NULL. *)
Definition jdl_arg_bytes_data (c : jdlo_ctx) (index : Z) : P Z := arg_word c index 0 vm_load_ptr id.

Definition jdl_arg_bytes_len (c : jdlo_ctx) (index : Z) : P Z :=
  with_arg c index 0 (fun rf r =>
    p ← liftP (vm_load_ptr rf r);
    if p =? 0 then mret 0 else l ← liftP (bytes_at p); mret (zlen l)).

Definition jdl_arg_object (c : jdlo_ctx) (index : Z) : P Z := arg_word c index 0 vm_load_ptr id.
Definition jdl_arg_list (c : jdlo_ctx) (index : Z) : P Z := arg_word c index 0 vm_load_ptr id.

(** The header kind of a tagged value that is a pointer. *)
Definition jello_obj_kind_is (k : jello_obj_kind) (v : Z) : M bool :=
  if negb (jello_is_ptr v) then mret false else o ← deref v; mret (bool_decide (obj_kind o = k)).

(** A pointer in a typed register; from a Dynamic one only to an object of the kind. *)
Definition arg_of_kind (k : jello_obj_kind) (c : jdlo_ctx) (index : Z) : P Z :=
  with_arg c index 0 (fun rf r =>
    rk ← liftP (must (vm_reg_kind m (jc_caller_f c) r));
    if kind_eqb rk JELLO_T_DYNAMIC then
      v ← liftP (vm_load_val rf r);
      ok ← liftP (jello_obj_kind_is k v);
      mret (if ok : bool then v else 0)
    else liftP (vm_load_ptr rf r)).

Definition jdl_arg_array : jdlo_ctx -> Z -> P Z := arg_of_kind JELLO_OBJ_ARRAY.
Definition jdl_arg_abstract : jdlo_ctx -> Z -> P Z := arg_of_kind JELLO_OBJ_ABSTRACT.

Definition jdl_arg_abstract_payload (c : jdlo_ctx) (index : Z) : P Z :=
  a ← jdl_arg_abstract c index;
  if a =? 0 then mret 0 else
  o ← liftP (deref a);
  match o with HAbstract _ payload _ => mret payload | _ => liftP crash end.

Definition jdl_arg_value (c : jdlo_ctx) (index : Z) : P Z :=
  with_arg c index jello_make_null (fun rf r => liftP (box_from_typed (jc_caller_f c) rf r)).

(** ** Tests of boxed values *)

Definition jdl_is_null : Z -> bool := jello_is_null.
Definition jdl_is_bool : Z -> bool := jello_is_bool.
Definition jdl_is_i32 : Z -> bool := jello_is_i32.
Definition jdl_is_atom : Z -> bool := jello_is_atom.
Definition jdl_is_i64 : Z -> M bool := jello_obj_kind_is JELLO_OBJ_BOX_I64.
Definition jdl_is_f64 : Z -> M bool := jello_obj_kind_is JELLO_OBJ_BOX_F64.
Definition jdl_is_f32 : Z -> M bool := jello_obj_kind_is JELLO_OBJ_BOX_F32.
Definition jdl_is_f16 : Z -> M bool := jello_obj_kind_is JELLO_OBJ_BOX_F16.
Definition jdl_is_bytes : Z -> M bool := jello_obj_kind_is JELLO_OBJ_BYTES.
Definition jdl_is_object : Z -> M bool := jello_obj_kind_is JELLO_OBJ_OBJECT.
Definition jdl_is_array : Z -> M bool := jello_obj_kind_is JELLO_OBJ_ARRAY.
Definition jdl_is_list : Z -> M bool := jello_obj_kind_is JELLO_OBJ_LIST.
Definition jdl_is_abstract : Z -> M bool := jello_obj_kind_is JELLO_OBJ_ABSTRACT.
Definition jdl_is_fun : Z -> M bool := jello_obj_kind_is JELLO_OBJ_FUNCTION.

Definition jdl_as_fun (v : Z) : M Z := ok ← jdl_is_fun v; mret (if ok : bool then v else 0).
Definition jdl_arg_fun (c : jdlo_ctx) (index : Z) : P Z := v ← jdl_arg_value c index; liftP (jdl_as_fun v).

(** The common shape of the checks: a failure already reported stays. *)
Definition check_arg (test : Z -> M bool) (msg : string) (c : jdlo_ctx) (index : Z) : P () :=
  failed ← has_failed;
  if (failed : bool) then mret () else
  v ← jdl_arg_value c index;
  ok ← liftP (test v);
  if (ok : bool) then mret () else jdl_fail (Some msg).

Definition jdl_check_bool : jdlo_ctx -> Z -> P () := check_arg (fun v => mret (jdl_is_bool v)) "expected bool".
Definition jdl_check_i32 : jdlo_ctx -> Z -> P () := check_arg (fun v => mret (jdl_is_i32 v)) "expected i32".
Definition jdl_check_i64 : jdlo_ctx -> Z -> P () := check_arg jdl_is_i64 "expected i64".
Definition jdl_check_bytes : jdlo_ctx -> Z -> P () := check_arg jdl_is_bytes "expected bytes".
Definition jdl_check_fun : jdlo_ctx -> Z -> P () := check_arg jdl_is_fun "expected function".
Definition jdl_check_object : jdlo_ctx -> Z -> P () := check_arg jdl_is_object "expected object".
Definition jdl_check_abstract : jdlo_ctx -> Z -> P () := check_arg jdl_is_abstract "expected abstract handle".

(** ** Results *)

(** The guard of every [jdl_return_...]: nothing after a failure. *)
Definition with_dst (c : jdlo_ctx) (k : reg_frame -> P ()) : P () :=
  failed ← has_failed;
  rf ← jdl_caller_rf c;
  match rf with Some rf => if (failed : bool) then mret () else k rf | None => mret () end.

Definition return_word (store : reg_frame -> Z -> Z -> M ()) (c : jdlo_ctx) (v : Z) : P () :=
  with_dst c (fun rf => liftP (store rf (jc_dst_reg c) v)).

Definition jdl_return_bool (c : jdlo_ctx) (v : Z) : P () := return_word vm_store_u32 c (if v =? 0 then 0 else 1).
Definition jdl_return_i8 (c : jdlo_ctx) (v : Z) : P () :=
  return_word (fun rf r x => vm_store_u32_masked rf r x JELLO_T_I8) c (u8 v).
Definition jdl_return_i16 (c : jdlo_ctx) (v : Z) : P () :=
  return_word (fun rf r x => vm_store_u32_masked rf r x JELLO_T_I16) c (u16 v).
Definition jdl_return_i32 (c : jdlo_ctx) (v : Z) : P () := return_word vm_store_u32 c (u32 v).
Definition jdl_return_i64 : jdlo_ctx -> Z -> P () := return_word vm_store_i64.
Definition jdl_return_f16 (c : jdlo_ctx) (v : Z) : P () := return_word vm_store_f16_bits c (vm_f32_to_f16_bits v).
Definition jdl_return_f32 : jdlo_ctx -> Z -> P () := return_word vm_store_f32.
Definition jdl_return_f64 : jdlo_ctx -> Z -> P () := return_word vm_store_f64.
Definition jdl_return_atom : jdlo_ctx -> Z -> P () := return_word vm_store_u32.
Definition jdl_return_object : jdlo_ctx -> Z -> P () := return_word vm_store_ptr.
Definition jdl_return_array : jdlo_ctx -> Z -> P () := return_word vm_store_ptr.
Definition jdl_return_list : jdlo_ctx -> Z -> P () := return_word vm_store_ptr.

(** A tagged value into a Dynamic register, a pointer into any other. *)
Definition store_pointer (c : jdlo_ctx) (rf : reg_frame) (v p : Z) : P () :=
  k ← liftP (must (vm_reg_kind m (jc_caller_f c) (jc_dst_reg c)));
  liftP (if kind_eqb k JELLO_T_DYNAMIC then vm_store_val rf (jc_dst_reg c) v
    else vm_store_ptr rf (jc_dst_reg c) p).

Definition dst_type_id (c : jdlo_ctx) : P Z := liftP (must (f_reg_types (jc_caller_f c) @! (jc_dst_reg c))).

(** [data] are the bytes behind the pointer, [None] is NULL. *)
Definition jdl_return_bytes_copy (c : jdlo_ctx) (data : option (list Z)) (len : Z) : P () :=
  with_dst c (fun rf =>
    t ← dst_type_id c;
    b ← liftP (jello_bytes_new malloc m t len);
    _ ← (if len =? 0 then mret () else
      match data with
      | Some l => x ← liftP (must (block_read l 0 len)); liftP (write_obj b (HBytes t x))
      | None => mret ()
      end);
    liftP (vm_store_ptr rf (jc_dst_reg c) b)).

Definition jdl_return_abstract (c : jdlo_ctx) (payload fin : Z) : P () :=
  with_dst c (fun rf =>
    t ← dst_type_id c;
    a ← liftP (jello_abstract_new_finalized malloc m t payload fin);
    store_pointer c rf a a).

Definition jdl_return_null (c : jdlo_ctx) : P () := with_dst c (fun rf => store_pointer c rf jello_make_null 0).

Definition jdl_return_value (c : jdlo_ctx) (v : Z) : P () :=
  with_dst c (fun rf => liftP (store_from_boxed (jc_caller_f c) rf (jc_dst_reg c) v)).

(** The finalizer runs now, and not again. *)
Definition jdl_close_abstract (c : jdlo_ctx) (index : Z) : P () :=
  failed ← has_failed;
  if (failed : bool) then mret () else
  a ← jdl_arg_abstract c index;
  if a =? 0 then mret () else
  o ← liftP (deref a);
  match o with
  | HAbstract t payload fin => liftP (
    g ← get_gc;
    _ ← (if fin =? 0 then mret () else put_gc (mk_gc (cells g) (gc_objects g) (gc_box_free g) (gc_bytes_live g)
      (gc_next_collect g) (gc_collections g) (gc_freed_objects g) (gc_freelist_hits g) (gc_freelist_misses g)
      (gc_roots g) (const_fun_cache g) (const_bytes_cache g) (enum_nullary_by_type g)
      ((fin, payload) :: finalized g)));
    write_obj a (HAbstract t 0 0))
  | _ => liftP crash
  end.

(** ** Objects, arrays and roots *)

Definition jdl_obj_has_atom (o atom_id : Z) : M bool := if o =? 0 then mret false else obj_has o atom_id.
Definition jdl_obj_get_atom (o atom_id : Z) : M Z := if o =? 0 then mret jello_make_null else obj_get o atom_id.

Definition jdl_obj_set_atom (o atom_id v : Z) : P () :=
  failed ← has_failed;
  if (failed : bool) || (o =? 0) then mret () else liftP (payload_set junk o atom_id v).

Definition array_at (a : Z) : M (list Z) :=
  o ← deref a; match o with HArray _ l => mret l | _ => crash end.
Definition jdl_array_len (a : Z) : M Z := if a =? 0 then mret 0 else l ← array_at a; mret (zlen l).
Definition jdl_array_get (a index : Z) : M Z :=
  if a =? 0 then mret jello_make_null else
  l ← array_at a; mret (if zlen l <=? index then jello_make_null else zget jello_make_null l index).

Definition jdl_gc_root (v : Z) : P () :=
  failed ← has_failed; if (failed : bool) then mret () else liftP (jello_gc_push_root v).
Definition jdl_gc_release (count : Z) : P () := if count =? 0 then mret () else liftP (jello_gc_pop_roots count).

(** ** The call of a primitive *)

(** [jdll_prim_caps], the raw captures of the function object: pointers are words. *)
Record jdll_prim_caps : Set := mk_caps {
  pc_fn : Z;
  pc_ret_kind : Z;
  pc_arity : Z;
  pc_arg_kinds : list Z;      (* 8 bytes *)
  pc_library_id : Z;
  pc_export_name : Z;
  pc_export_sym : Z
}.

Definition sizeof_caps : Z := 48.

(** The structure in memory; the padding before the pointers is not read. *)
Definition caps_bytes (c : jdll_prim_caps) : list Z :=
  le_bytes 8 (pc_fn c) ++ [pc_ret_kind c; pc_arity c] ++ pc_arg_kinds c ++ replicate 6 0 ++
  le_bytes 8 (pc_library_id c) ++ le_bytes 8 (pc_export_name c) ++ le_bytes 8 (pc_export_sym c).

Definition caps_of (raw : list Z) : option jdll_prim_caps :=
  fn ← mem_load 8 raw 0; ret ← raw @! 8; arity ← raw @! 9; kinds ← block_read raw 10 8;
  lib ← mem_load 8 raw 24; name ← mem_load 8 raw 32; sym ← mem_load 8 raw 40;
  Some (mk_caps fn ret arity kinds lib name sym).

Definition jdl_arg_kind_compatible (want got : Z) : bool :=
  (want =? got) || (want =? code_of_kind JELLO_T_DYNAMIC) || (got =? code_of_kind JELLO_T_DYNAMIC) ||
  ((want =? code_of_kind JELLO_T_FUNCTION) &&
    ((got =? code_of_kind JELLO_T_FUNCTION) || (got =? code_of_kind JELLO_T_DYNAMIC))) ||
  ((want =? code_of_kind JELLO_T_ABSTRACT) &&
    ((got =? code_of_kind JELLO_T_ABSTRACT) || (got =? code_of_kind JELLO_T_DYNAMIC))).

(** Registers [i], [i + 1], ... against the kinds [want i]; a read past either array is undefined. *)
Fixpoint args_compatible (c : jdlo_ctx) (want : Z -> option Z) (i : Z) (n : nat) : P bool :=
  match n with
  | O => mret true
  | S n' =>
    w ← liftP (must (want i));
    got ← liftP (must (vm_reg_kind m (jc_caller_f c) (u32 (jc_first_arg_reg c + i))));
    if negb (jdl_arg_kind_compatible w (code_of_kind got)) then
      _ ← jdl_fail (Some "jdll arg type mismatch"); mret false
    else args_compatible c want (i + 1) n'
  end.

Definition jdl_validate_args (c : jdlo_ctx) (caps : jdll_prim_caps) : P bool :=
  let kinds := pc_arg_kinds caps in
  if pc_arity caps =? JDLL_ABI_VARARGS_ARITY then
    args_compatible c (fun _ => kinds @! 0) 0 (Z.to_nat (jc_nargs c))
  else if pc_arity caps =? JDLL_ABI_MIXED_VARARGS_ARITY then
    nfixed ← liftP (must (kinds @! 0));
    elem ← liftP (must (kinds @! (nfixed + 1)));
    if jc_nargs c <? nfixed then _ ← jdl_fail (Some "jdll arg count mismatch"); mret false else
  ok ← args_compatible c (fun i => kinds @! (1 + i)) 0 (Z.to_nat nfixed);
  if negb (ok : bool) then mret false else
  args_compatible c (fun _ => Some elem) nfixed (Z.to_nat (jc_nargs c - nfixed))
  else args_compatible c (fun i => kinds @! i) 0 (Z.to_nat (pc_arity caps)).

(** The code of a library at an address, and the text of a C string. *)
Context (export : Z -> jdlo_ctx -> P ()) (text_at : Z -> string).

Definition text_or (p : Z) : string := if p =? 0 then "?" else text_at p.

(** "jdll library.export: message". *)
Definition prim_trap (caps : jdll_prim_caps) (msg : option string) : M bool :=
  _ ← jello_vm_trap m JELLO_TRAP_TYPE_MISMATCH (snprintf 512
    ("jdll " ++ text_or (pc_library_id caps) ++ "." ++ text_or (pc_export_name caps) ++ ": " ++
      default "jdll trap" msg)%string);
  mret false.

(** The captures of a function object [v], when it has the raw captures of a primitive. *)
Definition prim_caps (v : Z) : M (option jdll_prim_caps) :=
  if v =? 0 then mret None else
  o ← deref v;
  match o with
  | HFunctionRaw _ _ _ _ raw =>
    if zlen raw <? sizeof_caps then mret None else c ← must (caps_of raw); mret (Some c)
  | HFunction _ _ _ _ => mret None
  | _ => crash
  end.

Definition jello_jdll_invoke_prim (ctx : exec_ctx) (ins : jello_insn) (fn first_arg_reg : Z) : M bool :=
  caps ← prim_caps fn;
  match caps with
  | None => _ ← jello_vm_trap m JELLO_TRAP_TYPE_MISMATCH "invalid jdll function"; mret false
  | Some caps =>
    if pc_fn caps =? 0 then _ ← jello_vm_trap m JELLO_TRAP_TYPE_MISMATCH "null jdll export"; mret false else
    let jc := mk_jdlo ctx (i_a ins) first_arg_reg (i_c ins) (cx_fr ctx) in
    '(ok, e) ← jdl_validate_args jc caps None;
    if negb (ok : bool) then prim_trap caps e else
    '(_, e) ← export (pc_fn caps) jc None;
    match e with Some _ => prim_trap caps e | None => mret true end
  end.

(** ** The exports of a library *)

(** [dlopen], with the text of its error; [dlsym], 0 for a missing symbol; [strdup], 0 when
    there is no memory; [getenv] and files as in [JdllAbi]. *)
Context (dlopen : list Z -> Z + string) (dlsym : Z -> list Z -> Z) (strdup : list Z -> Z).
Context (getenv : string -> option (list Z)) (file : list Z -> option (list Z)) (oom : Z -> bool).
Context (entry_path : option (list Z)).

Definition mismatch (msg : string) : M bool := _ ← jello_vm_trap m JELLO_TRAP_TYPE_MISMATCH msg; mret false.

Definition MIXED_SHORT : string := "mixed varargs needs fixed prefix + elem types".
Definition MIXED_LONG : string := "mixed varargs fixed prefix too long (max 6)".

(** The eight bytes of [arg_kinds]; [inl] is a trap, [None] a copy past them. *)
Definition caps_kinds (e : abi_export) : option (string + list Z) :=
  let fill (l : list Z) := l ++ replicate (8 - length l) 0 in
  let kinds := ae_kinds e in
  if ae_arity e =? JDLL_ABI_VARARGS_ARITY then Some (inr (fill (take 1 kinds))) else
  if ae_arity e =? JDLL_ABI_MIXED_VARARGS_ARITY then
    let ntypes := zlen kinds in
    if ntypes <? 2 then Some (inl MIXED_SHORT) else
  if 6 <? ntypes - 1 then Some (inl MIXED_LONG) else
  Some (inr (fill ((ntypes - 1) :: kinds)))
  else if zlen kinds <=? 8 then Some (inr (fill kinds)) else None.

(** One function object per export whose name is an atom of the module. *)
Fixpoint fill_exports (exports handle lib_id : Z) (key : string) (l : list abi_export) : M bool :=
  match l with
  | [] => mret true
  | e :: rest =>
    match find_atom (c_string (ae_name e)) (m_atoms m) 0 with
    | None => fill_exports exports handle lib_id key rest
    | Some atom_id =>
      let fn := dlsym handle (c_string (ae_sym e)) in
      let name := string_of_bytes (c_string (ae_name e)) in
      if fn =? 0 then
        mismatch (snprintf 512 ("jdll '" ++ key ++ "': missing symbol " ++ string_of_bytes (c_string (ae_sym e)))%string)
      else
      let export_name := strdup (c_string (ae_name e)) in
      let export_sym := strdup (c_string (ae_sym e)) in
      if (export_name =? 0) || (export_sym =? 0) then mismatch "jdll init: oom" else
      kinds ← must (caps_kinds e);
      match kinds with
      | inl why => mismatch (snprintf 384 ("jdll '" ++ key ++ "': export '" ++ name ++ "' " ++ why)%string)
      | inr kinds =>
        let caps := mk_caps fn (ae_ret e) (ae_arity e) kinds lib_id export_name export_sym in
        fv ← jello_closure_new_raw malloc m 10 JELLO_FUNC_INDEX_JDLL_PRIM 0 (caps_bytes caps);
        _ ← jello_gc_push_root fv;
        _ ← payload_set junk exports atom_id fv;
        _ ← jello_gc_pop_roots 1;
        fill_exports exports handle lib_id key rest
      end
    end
  end.

Definition jello_jdll_fill_exports (ctx : exec_ctx) (exports_reg key_reg : Z) : M bool :=
  exports ← vm_load_ptr (cx_rf ctx) exports_reg;
  keyb ← vm_load_ptr (cx_rf ctx) key_reg;
  if (exports =? 0) || (keyb =? 0) then mismatch "jdll init: bad args" else
  kb ← bytes_at keyb;
  let key := c_string (take 255 kb) in
  let keys := string_of_bytes key in
  match resolve_jdll_key getenv file (default (bytes_of_string ".") entry_path) key with
  | None => mismatch (snprintf 320 ("jdll '" ++ keys ++ "' not found")%string)
  | Some path =>
    abi ← must (load_jdll_abi file oom path);
    match abi with
    | None => mismatch (snprintf 320 ("jdll '" ++ keys ++ "': ABI missing or invalid")%string)
    | Some abi =>
      match dlopen path with
      | inr err => mismatch (snprintf 512 ("jdll '" ++ keys ++ "': " ++ snprintf 384 err)%string)
      | inl handle =>
        let lib_id := strdup (c_string (abi_library_id abi)) in
        if lib_id =? 0 then mismatch "jdll init: oom"
        else fill_exports exports handle lib_id keys (abi_exports abi)
      end
    end
  end.

(** ** Calls back into bytecode *)

(** [vm_push_frame_jello_call]: unlike the entries from C the frame has a caller, whose
    loop it returns to, and may hand its result to [jdll_call_out]. *)
Definition vm_push_frame_jello_call (fn : Z) (bound_this : Z) (args : list Z) (capture : bool) : M bool :=
  if fn =? 0 then mret false else
  fo ← deref fn;
  match bytecode_index m fo with
  | None => mret false
  | Some callee =>
    callee_f ← fun_at m callee;
    let bound := jello_bound_this_is_set bound_this in
    call_fn ← (if bound then jello_function_bind_this malloc m (obj_type_id fo) fn bound_this else mret fn);
    s ← get_stack;
    if frames_exhausted s then stack_overflow else
    _ ← frames_grow_if_full;
    eb ← exc_base_now;
    fl ← vm_get_frame_layout m maddr callee;
    mem ← vm_frame_stack_bump junk (fl_total fl);
    let rf := new_rf fl mem in
    _ ← push_call_frame (new_frame callee fl 0 eb true capture mem);
    _ ← init_frame_mem m callee_f rf (fl_has_pointer_or_dynamic fl);
    _ ← (if bound then jello_gc_push_root call_fn else mret ());
    call_fo ← deref call_fn;
    _ ← vm_init_closure_args_from_values malloc m nan32 nan64 callee_f rf call_fo args;
    _ ← (if bound then jello_gc_pop_roots 1 else mret ());
    mret true
  end.
End Jdll.

(** * What the interface to native libraries promises *)

(** ** Runs *)

Lemma M_bind_Ret {A B} (p : M A) (k : A -> M B) vm b vm2 : (p ≫= k) vm = Ret b vm2 ->
  exists a vm1, p vm = Ret a vm1 /\ k a vm1 = Ret b vm2.
Proof. unfold mbind, M_bind. destruct (p vm) as [a vm1| |]; [eauto | done..]. Qed.

(** A new object is where the allocation says. *)
Lemma gc_alloc_obj malloc m sz o vm p vm' : gc_alloc malloc m sz o vm = Ret p vm' -> obj_at (v_gc vm') p = Some o.
Proof.
  unfold gc_alloc, jello_gc_alloc, jello_gc_alloc_recycled. intros H.
  apply M_bind_Ret in H as (g & vm1 & [= <- <-] & H). apply M_bind_Ret in H as (u & vm2 & _ & H).
  apply M_bind_Ret in H as (g & vm3 & [= <- <-] & H).
  destruct (gc_take_block _ _ _ _) as [[h g']|] eqn:E; [|done].
  apply M_bind_Ret in H as (u' & vm4 & Hput & [= <- <-]). unfold put_gc in Hput. injection Hput as _ Hvm. rewrite <- Hvm. cbn [v_gc set_gc].
  unfold gc_take_block in E. destruct (gc_box_free_pop _ _) as [[[h' c] free]|].
  - injection E as <- <-. unfold obj_at. cbn [cells]. by rewrite lookup_insert_eq.
  - destruct (malloc _ _) as [h'|]; [|done]. injection E as <- <-. unfold obj_at. cbn [cells]. by rewrite lookup_insert_eq.
Qed.

(** A word with a tag bit is no pointer. *)
Lemma tagged_not_ptr x t i : 0 <= i < 3 -> Z.testbit t i = true -> jello_is_ptr (Z.lor x t) = false.
Proof.
  intros Hi Ht. unfold jello_is_ptr, has_tag, JELLO_TAG_PTR. apply Z.eqb_neq. intros H.
  apply (f_equal (fun z => Z.testbit z i)) in H. rewrite Z.land_spec, Z.lor_spec, Ht, orb_true_r, Z.bits_0 in H.
  change 7 with (Z.ones 3) in H. rewrite Z.ones_spec_low in H by lia. done.
Qed.

Lemma load_reg_same n rf r vm w vm' : load_reg n rf r vm = Ret w vm' -> vm' = vm.
Proof.
  unfold load_reg. intros H. apply M_bind_Ret in H as (s & vm1 & [= <- <-] & H).
  apply M_bind_Ret in H as (a & vm1 & Ha & H). unfold must in *. destruct (vm_reg_ptr rf r); [|done]. injection Ha as -> <-.
  destruct (mem_load _ _ _); [|done]. by injection H.
Qed.

Section Checks.
Context (malloc : gc_state -> Z -> option Z) (m : jello_bc_module).

Definition is_bytes_obj (o : hobj) : Prop := exists t l, o = HBytes t l.

(** What boxing a register gives, when it is a byte string: what the register holds. *)
Lemma boxed_bytes f rf r vm v vm' t l : vm_box_from_typed malloc m f rf r vm = Ret v vm' ->
  jello_is_ptr v = true -> obj_at (v_gc vm') v = Some (HBytes t l) ->
  vm' = vm /\ vm_load_ptr rf r vm = Ret v vm.
Proof.
  unfold vm_box_from_typed. intros H Hp Ho.
  apply M_bind_Ret in H as (k & vm1 & Hk & H). unfold must in Hk. destruct (vm_reg_kind m f r); [|done].
  injection Hk as -> <-. apply M_bind_Ret in H as (ty & vm1 & Ht & H). unfold must in Ht.
  destruct (f_reg_types f @! r); [|done]. injection Ht as -> <-.
  assert (Hbox : forall vm0 sz o, gc_alloc malloc m sz o vm0 = Ret v vm' -> obj_kind o <> JELLO_OBJ_BYTES -> False).
  { intros vm0 sz o Ha Hk. apply gc_alloc_obj in Ha. rewrite Ha in Ho. injection Ho as ->. by apply Hk. }
  assert (Hnot : forall w, jello_is_ptr (jello_make_i32 w) = false /\ jello_is_ptr (jello_make_atom w) = false /\
    forall b, jello_is_ptr (jello_make_bool b) = false).
  { intros w. split_and!; [| |intros b]; [apply (tagged_not_ptr _ _ 0) | apply (tagged_not_ptr _ _ 1) | apply (tagged_not_ptr _ _ 0)];
      done || lia. }
  destruct k; try (pose proof (load_reg_same 8 rf r vm v vm' H); by subst vm');
    apply M_bind_Ret in H as (w & vm1 & Hw & H);
    try (exfalso; apply (Hbox _ _ _ H); discriminate);
    try (injection H as <- <-; exfalso; destruct (Hnot w) as (H1 & H2 & H3); destruct (Hnot (i32 w)) as (H4 & _); congruence);
    try (injection H as <- <-; pose proof (load_reg_same _ _ _ _ _ _ Hw); subst vm1; destruct (w =? 0); done).
Qed.

(** The register an argument is in, when the guard lets it pass. *)
Definition arg_register (c : jdlo_ctx) (i : Z) (vm : jello_vm) : option (reg_frame * Z) :=
  fr ← call_frames (v_stack vm) @! (jc_caller_frame_idx c);
  if (i <? 0) || (jc_nargs c <=? u32 i) then None else Some (cf_rf fr, u32 (jc_first_arg_reg c + i)).

Lemma with_arg_run {A} c i (def : A) k vm : with_arg c i def k None vm =
  match arg_register c i vm with Some (rf, r) => k rf r None vm | None => Ret (def, None) vm end.
Proof.
  unfold with_arg, arg_register, jdl_caller_rf, has_failed, liftP, get_stack.
  unfold mbind, mret, P_bind, P_ret, M_bind, M_ret. cbn beta iota. unfold mbind, mret, M_bind, M_ret. cbn beta iota.
  destruct (call_frames (v_stack vm) @! (jc_caller_frame_idx c)) as [fr|]; [|reflexivity].
  cbn [fmap option_fmap option_map option_bind bool_decide is_Some_dec orb].
  destruct (i <? 0), (jc_nargs c <=? u32 i); reflexivity.
Qed.

(** C16: When [jdl_check_bytes] of an argument reports nothing, the argument is a byte string:
    its length and its bytes are then read from that object, whatever the kind of the
    register the caller passed, and nothing else has changed. *)
Theorem check_bytes_guards c i vm vm' : obj_at (v_gc vm) 0 = None ->
  jdl_check_bytes malloc m c i None vm = Ret ((), None) vm' ->
  vm' = vm /\ exists p t l, obj_at (v_gc vm) p = Some (HBytes t l) /\
    jdl_arg_bytes_data c i None vm = Ret (p, None) vm /\ jdl_arg_bytes_len c i None vm = Ret (zlen l, None) vm.
Proof.
  intros Hnull H. unfold jdl_check_bytes, check_arg, jdl_arg_value in H.
  apply M_bind_Ret in H as ([failed e] & vm1 & [= <- <- <-] & H). cbn beta iota in H.
  apply M_bind_Ret in H as ([v e] & vm1 & Hv & H). cbn beta iota in H. rewrite with_arg_run in Hv.
  assert (Hchk : jello_is_ptr v = true /\ vm' = vm1 /\ exists t l, obj_at (v_gc vm1) v = Some (HBytes t l)).
  { apply M_bind_Ret in H as ([b e'] & vm2 & Hb & H). apply M_bind_Ret in Hb as (b' & vm3 & Hb & Hr).
    injection Hr as <- <- <-. unfold jdl_is_bytes, jello_obj_kind_is in Hb. destruct b'; [|discriminate H].
    injection H as _ <-. destruct (jello_is_ptr v); [|discriminate Hb]. cbn [negb] in Hb.
    apply M_bind_Ret in Hb as (o & vm4 & Hd & Hb). injection Hb as Hb <-.
    unfold deref, get_gc, must, mbind, M_bind in Hd. destruct (obj_at (v_gc vm1) v) as [o'|] eqn:Ho; [|discriminate Hd].
    injection Hd as -> <-. split_and!; [done..|]. apply bool_decide_eq_true in Hb.
    destruct o; try discriminate Hb. by exists type_id, data. }
  destruct Hchk as (Hp & -> & t & l & Ho). unfold jdl_arg_bytes_data, jdl_arg_bytes_len, arg_word. rewrite !with_arg_run.
  destruct (arg_register c i vm) as [[rf r]|]; [|by injection Hv as <- _ _].
  apply M_bind_Ret in Hv as (v' & vm2 & Hv & Hr). injection Hr as -> <- ->.
  destruct (boxed_bytes _ _ _ _ _ _ _ _ Hv Hp Ho) as [-> Hl]. split; [done|]. exists v, t, l. split; [exact Ho|].
  assert (Hv0 : (v =? 0) = false) by (apply Z.eqb_neq; intros ->; congruence).
  assert (Hlift : forall A (k : Z -> P A), (p ← liftP (vm_load_ptr rf r); k p) None vm = k v None vm).
  { intros A k. unfold liftP, mbind, P_bind, mbind, M_bind. by rewrite Hl. }
  split; (etransitivity; [apply (Hlift _ _)|]); [done|]. rewrite Hv0. unfold bytes_at, deref, get_gc, must, liftP.
  unfold mbind, P_bind, mbind, M_bind. cbn beta iota. by rewrite Ho.
Qed.
End Checks.

(** ** The captures of a primitive *)

Definition caps_ok (c : jdll_prim_caps) : Prop :=
  is_u 64 (pc_fn c) /\ zlen (pc_arg_kinds c) = 8 /\
  is_u 64 (pc_library_id c) /\ is_u 64 (pc_export_name c) /\ is_u 64 (pc_export_sym c).

Lemma load_at raw o pre x suf : raw = pre ++ le_bytes 8 x ++ suf -> zlen pre = o -> is_u 64 x ->
  mem_load 8 raw o = Some x.
Proof.
  intros -> <- Hx. unfold mem_load. change (Z.of_nat 8) with (zlen (le_bytes 8 x)). rewrite read_middle.
  cbn [fmap option_fmap option_map]. f_equal. rewrite le_value_bytes. by apply Z.mod_small.
Qed.

(** What the loader puts into a function object is what a call takes out of it. *)
Lemma caps_roundtrip c : caps_ok c -> caps_of (caps_bytes c) = Some c /\ zlen (caps_bytes c) = sizeof_caps.
Proof.
  destruct c as [fn ret arity kinds lib name sym]. intros (Hf & Hk & Hl & Hn & Hs). cbn [pc_fn pc_arg_kinds pc_library_id pc_export_name pc_export_sym] in *.
  unfold caps_of, caps_bytes. cbn [pc_fn pc_arg_kinds pc_library_id pc_export_name pc_export_sym pc_ret_kind pc_arity].
  assert (Z8 : forall x, zlen (le_bytes 8 x) = 8) by (intros x; apply zlen_le_bytes).
  set (A := le_bytes 8 fn). set (B := [ret; arity]). set (Z6 := replicate 6 0). set (raw := A ++ B ++ _).
  assert (Zn : forall a b : list Z, zlen (a ++ b) = zlen a + zlen b) by (intros; apply zlen_app).
  assert (Zs : zlen A = 8 /\ zlen B = 2 /\ zlen Z6 = 6) by (split_and!; [apply Z8 | done | done]). destruct Zs as (ZA & ZB & ZZ).
  assert (E0 : mem_load 8 raw 0 = Some fn) by (by eapply (load_at raw 0 [])).
  assert (E8 : raw @! 8 = Some ret /\ raw @! 9 = Some arity).
  { unfold raw. rewrite !znth_app_r by (rewrite ZA; lia). by rewrite ZA. }
  assert (E10 : block_read raw 10 8 = Some kinds).
  { rewrite <- Hk. unfold raw. rewrite app_assoc. change 10 with (8 + 2). rewrite <- ZA, <- ZB, <- Zn. apply read_middle. }
  assert (E24 : mem_load 8 raw 24 = Some lib).
  { apply (load_at raw 24 (A ++ B ++ kinds ++ Z6) lib (le_bytes 8 name ++ le_bytes 8 sym)); [|by rewrite !Zn, ZA, ZB, ZZ, Hk | done].
    unfold raw. by rewrite <- !app_assoc. }
  assert (E32 : mem_load 8 raw 32 = Some name).
  { apply (load_at raw 32 (A ++ B ++ kinds ++ Z6 ++ le_bytes 8 lib) name (le_bytes 8 sym)); [|by rewrite !Zn, ZA, ZB, ZZ, Hk, Z8 | done].
    unfold raw. by rewrite <- !app_assoc. }
  assert (E40 : mem_load 8 raw 40 = Some sym).
  { apply (load_at raw 40 (A ++ B ++ kinds ++ Z6 ++ le_bytes 8 lib ++ le_bytes 8 name) sym []);
      [|by rewrite !Zn, ZA, ZB, ZZ, Hk, !Z8 | done].
    unfold raw. by rewrite <- !app_assoc, app_nil_r. }
  destruct E8 as [E8 E9]. rewrite E0, E8, E9, E10, E24, E32, E40. split; [done|].
  unfold raw. by rewrite !Zn, ZA, ZB, ZZ, Hk, !Z8.
Qed.

(** ** Where the interface trusts a library *)

(** An export with nine or more fixed arguments: the copy into the eight bytes of
    [arg_kinds] goes past them. *)
Lemma arity_overflows malloc m junk dlsym strdup exports handle lib_id key e rest atom_id vm :
  8 < zlen (ae_kinds e) -> ae_arity e <> JDLL_ABI_VARARGS_ARITY -> ae_arity e <> JDLL_ABI_MIXED_VARARGS_ARITY ->
  find_atom (c_string (ae_name e)) (m_atoms m) 0 = Some atom_id ->
  dlsym handle (c_string (ae_sym e)) <> 0 -> strdup (c_string (ae_name e)) <> 0 -> strdup (c_string (ae_sym e)) <> 0 ->
  fill_exports malloc m junk dlsym strdup exports handle lib_id key (e :: rest) vm = Crash.
Proof.
  intros Hk Hv Hm Ha Hs H1 H2. cbn [fill_exports]. rewrite Ha.
  apply Z.eqb_neq in Hs, H1, H2, Hv, Hm. rewrite Hs, H1, H2. cbn [orb].
  assert (caps_kinds e = None) as ->; [|done].
  unfold caps_kinds. rewrite Hv, Hm. by rewrite (proj2 (Z.leb_gt _ _) Hk).
Qed.

(** A function with one Dynamic register, which holds the i32 5. *)
Definition dyn_fun : jello_bc_function := mk_function 1 0 [0] 1 [mk_insn (code_of_op JOP_RET) 0 0 0 0] 0 [] 0.
Definition dyn_module : jello_bc_module :=
  mk_module 1 0 1 [mk_type_entry JELLO_T_DYNAMIC 0] 0 [] 0 [] false 0 [] 0 [] 0 [] [] [] 1 [dyn_fun] 0 0 [].
Definition dyn_rf : reg_frame := mk_rf (Some 0) [0] 1 8 true.
Definition dyn_frame : call_frame := mk_frame 0 dyn_rf 1 0 0 false false true true false false 0.

(** The byte string "hi" is at address 8; [w] is the word of the register. *)
Definition dyn_vm (w : Z) : jello_vm :=
  set_gc (set_cells {[8 := mk_cell 64 false (HBytes 0 [104; 105])]} (v_gc demo_vm))
    (set_stack (mk_stack [dyn_frame] 16 0 (le_bytes 8 w) 8 [] 0) demo_vm).

(** A call with the register as its only argument. *)
Definition dyn_call : jdlo_ctx := mk_jdlo (mk_ctx dyn_fun 0 dyn_rf None) 0 0 1 0.

Lemma check_bytes_guards_witness :
  obj_at (v_gc (dyn_vm 8)) 0 = None /\
  jdl_check_bytes (fun _ _ => None) dyn_module dyn_call 0 None (dyn_vm 8) = Ret ((), None) (dyn_vm 8) /\
  exists p t l, obj_at (v_gc (dyn_vm 8)) p = Some (HBytes t l) /\
    jdl_arg_bytes_data dyn_call 0 None (dyn_vm 8) = Ret (p, None) (dyn_vm 8) /\
    jdl_arg_bytes_len dyn_call 0 None (dyn_vm 8) = Ret (zlen l, None) (dyn_vm 8).
Proof.
  assert (H0 : obj_at (v_gc (dyn_vm 8)) 0 = None) by (by vm_compute).
  assert (H : jdl_check_bytes (fun _ _ => None) dyn_module dyn_call 0 None (dyn_vm 8) = Ret ((), None) (dyn_vm 8)) by (by vm_compute).
  split; [exact H0|]. split; [exact H|].
  exact (proj2 (check_bytes_guards (fun _ _ => None) dyn_module dyn_call 0 (dyn_vm 8) (dyn_vm 8) H0 H)).
Defined.

(** A Dynamic register passes for any kind of argument: without the check a primitive reads
    the tagged word of an i32 as the address of a byte string. *)
Lemma unchecked_dynamic :
  jdl_arg_kind_compatible (code_of_kind JELLO_T_BYTES) (code_of_kind JELLO_T_DYNAMIC) = true /\
  jdl_arg_bytes_len dyn_call 0 None (dyn_vm (jello_make_i32 5)) = Crash /\
  jdl_check_bytes (fun _ _ => None) dyn_module dyn_call 0 None (dyn_vm (jello_make_i32 5))
  = Ret ((), Some "expected bytes"%string) (dyn_vm (jello_make_i32 5)).
Proof. by vm_compute. Qed.

(** The arguments of a fixed arity are looked at without asking how many were passed: with
    one argument for two the kind of a register behind the last is read. *)
Lemma missing_argument :
  jdl_validate_args dyn_module dyn_call (mk_caps 16 3 2 [16; 16; 0; 0; 0; 0; 0; 0] 0 0 0) None (dyn_vm 8) = Crash.
Proof. by vm_compute. Qed.
