(* ===== verification/Exec.v ===== *)
(** * The interpreter

    Model of src/src/vm/ops/dispatch.c, src/src/vm/ops/exec_loop.c and
    src/src/vm/interp.c, built without the JIT (src/src/jit/jit_disabled.c) and with
    NDEBUG.  [exec_step] is one turn of the loop; the loop takes fuel, and [None] is
    a run that has not ended. *)

From Stdlib Require Import String.
From S2P Require Import Prelude CInt Memory Bytecode Value Object Heap Vm Frame Float Gc Box Types Ops ArithOps Call Exc CoreOps CallOps ContainerOps BytesOps ObjOps.

Open Scope string_scope.
Open Scope Z_scope.

(** What [vm_exec_loop] returns; [out] and [exports] are what it has written to
    [*ctx->out] and [*ctx->out_exports]. *)
Inductive exec_result : Set :=
| JELLO_EXEC_OK (out exports : option Z)
| JELLO_EXEC_TRAP.

Section Exec.
Context (malloc : gc_state -> Z -> option Z) (m : jello_bc_module) (maddr : Z).
Context (nan32 nan64 junk : Z) (nan16 : bool -> Z).
Context (native : exec_ctx -> jello_insn -> Z -> Z -> M ()).
Context (jdll_prim : exec_ctx -> jello_insn -> Z -> Z -> M bool).

(** ** dispatch.c *)

Definition op_dispatch : op_handler := fun ctx ins =>
  match op_of_code (i_op ins) with
  | Some JOP_NOP => op_nop ctx ins
  | Some JOP_RET => op_ret malloc m nan32 nan64 ctx ins
  | Some JOP_JMP => op_jmp m ctx ins
  | Some JOP_JMP_IF => op_jmp_if ctx ins
  | Some JOP_MOV => op_mov m ctx ins
  | Some JOP_TRY => op_try ctx ins
  | Some JOP_ENDTRY => op_endtry ctx ins
  | Some JOP_THROW => op_throw ctx ins
  | Some JOP_ASSERT => op_assert malloc m ctx ins
  | Some JOP_CALL => op_call malloc m maddr nan32 nan64 junk native ctx ins
  | Some JOP_CALLR => op_callr malloc m maddr nan32 nan64 junk native jdll_prim ctx ins
  | Some JOP_TAILCALL => op_tailcall malloc m maddr nan32 nan64 junk native ctx ins
  | Some JOP_TAILCALLR => op_tailcallr malloc m maddr nan32 nan64 junk native jdll_prim ctx ins
  | Some JOP_CONST_FUN => op_const_fun malloc m ctx ins
  | Some JOP_CLOSURE => op_closure malloc m ctx ins
  | Some JOP_BIND_THIS => op_bind_this malloc m ctx ins
  | Some JOP_CONST_I32 => op_const_i32 ctx ins
  | Some JOP_CONST_I8_IMM => op_const_i8_imm ctx ins
  | Some JOP_CONST_BOOL => op_const_bool ctx ins
  | Some JOP_CONST_NULL => op_const_null ctx ins
  | Some JOP_CONST_ATOM => op_const_atom ctx ins
  | Some JOP_CONST_F16 => op_const_f16 ctx ins
  | Some JOP_CONST_F32 => op_const_f32 ctx ins
  | Some JOP_CONST_I64 => op_const_i64 m ctx ins
  | Some JOP_CONST_F64 => op_const_f64 m ctx ins
  | Some JOP_CONST_BYTES => op_const_bytes malloc m ctx ins
  | Some JOP_BYTES_CONCAT2 => op_bytes_concat2 malloc m ctx ins
  | Some JOP_BYTES_CONCAT_MANY => op_bytes_concat_many malloc m ctx ins
  | Some JOP_ADD_I32 => op_add_i32 m ctx ins
  | Some JOP_SUB_I32 => op_sub_i32 m ctx ins
  | Some JOP_MUL_I32 => op_mul_i32 m ctx ins
  | Some JOP_DIV_I32 => op_div_i32 m ctx ins
  | Some JOP_MOD_I32 => op_mod_i32 m ctx ins
  | Some JOP_SHL_I32 => op_shl_i32 m ctx ins
  | Some JOP_SHR_I32 => op_shr_i32 m ctx ins
  | Some JOP_ADD_I32_IMM => op_add_i32_imm m ctx ins
  | Some JOP_SUB_I32_IMM => op_sub_i32_imm m ctx ins
  | Some JOP_MUL_I32_IMM => op_mul_i32_imm m ctx ins
  | Some JOP_ADD_I64 => op_add_i64 ctx ins
  | Some JOP_SUB_I64 => op_sub_i64 ctx ins
  | Some JOP_MUL_I64 => op_mul_i64 ctx ins
  | Some JOP_DIV_I64 => op_div_i64 ctx ins
  | Some JOP_MOD_I64 => op_mod_i64 ctx ins
  | Some JOP_SHL_I64 => op_shl_i64 ctx ins
  | Some JOP_SHR_I64 => op_shr_i64 ctx ins
  | Some JOP_ADD_F16 => op_add_f16 nan32 nan16 ctx ins
  | Some JOP_SUB_F16 => op_sub_f16 nan32 nan16 ctx ins
  | Some JOP_MUL_F16 => op_mul_f16 nan32 nan16 ctx ins
  | Some JOP_ADD_F32 => op_add_f32 nan32 ctx ins
  | Some JOP_SUB_F32 => op_sub_f32 nan32 ctx ins
  | Some JOP_MUL_F32 => op_mul_f32 nan32 ctx ins
  | Some JOP_DIV_F32 => op_div_f32 nan32 ctx ins
  | Some JOP_ADD_F64 => op_add_f64 nan64 ctx ins
  | Some JOP_SUB_F64 => op_sub_f64 nan64 ctx ins
  | Some JOP_MUL_F64 => op_mul_f64 nan64 ctx ins
  | Some JOP_DIV_F64 => op_div_f64 nan64 ctx ins
  | Some JOP_NEG_I32 => op_neg_i32 m ctx ins
  | Some JOP_NEG_I64 => op_neg_i64 ctx ins
  | Some JOP_NEG_F32 => op_neg_f32 ctx ins
  | Some JOP_NEG_F64 => op_neg_f64 ctx ins
  | Some JOP_NOT_BOOL => op_not_bool ctx ins
  | Some JOP_EQ_I32 => op_eq_i32 ctx ins
  | Some JOP_LT_I32 => op_lt_i32 ctx ins
  | Some JOP_EQ_I32_IMM => op_eq_i32_imm ctx ins
  | Some JOP_LT_I32_IMM => op_lt_i32_imm ctx ins
  | Some JOP_EQ_I64 => op_eq_i64 ctx ins
  | Some JOP_LT_I64 => op_lt_i64 ctx ins
  | Some JOP_EQ_F32 => op_eq_f32 ctx ins
  | Some JOP_LT_F32 => op_lt_f32 ctx ins
  | Some JOP_EQ_F64 => op_eq_f64 ctx ins
  | Some JOP_LT_F64 => op_lt_f64 ctx ins
  | Some JOP_SEXT_I64 => op_sext_i64 ctx ins
  | Some JOP_SEXT_I16 => op_sext_i16 ctx ins
  | Some JOP_TRUNC_I8 => op_trunc_i8 ctx ins
  | Some JOP_TRUNC_I16 => op_trunc_i16 ctx ins
  | Some JOP_I32_FROM_I64 => op_i32_from_i64 ctx ins
  | Some JOP_F64_FROM_I32 => op_f64_from_i32 nan64 ctx ins
  | Some JOP_I32_FROM_F64 => op_i32_from_f64 ctx ins
  | Some JOP_F64_FROM_I64 => op_f64_from_i64 nan64 ctx ins
  | Some JOP_I64_FROM_F64 => op_i64_from_f64 ctx ins
  | Some JOP_F32_FROM_I32 => op_f32_from_i32 nan32 ctx ins
  | Some JOP_I32_FROM_F32 => op_i32_from_f32 nan64 ctx ins
  | Some JOP_F64_FROM_F32 => op_f64_from_f32 nan64 ctx ins
  | Some JOP_F32_FROM_F64 => op_f32_from_f64 nan32 ctx ins
  | Some JOP_F32_FROM_I64 => op_f32_from_i64 nan32 ctx ins
  | Some JOP_I64_FROM_F32 => op_i64_from_f32 nan64 ctx ins
  | Some JOP_F16_FROM_F32 => op_f16_from_f32 ctx ins
  | Some JOP_F32_FROM_F16 => op_f32_from_f16 nan16 ctx ins
  | Some JOP_F16_FROM_I32 => op_f16_from_i32 nan32 ctx ins
  | Some JOP_I32_FROM_F16 => op_i32_from_f16 nan64 nan16 ctx ins
  | Some JOP_TO_DYN => op_to_dyn malloc m ctx ins
  | Some JOP_FROM_DYN_I8 => op_from_dyn_i8 m ctx ins
  | Some JOP_FROM_DYN_I16 => op_from_dyn_i16 m ctx ins
  | Some JOP_FROM_DYN_I32 => op_from_dyn_i32 m ctx ins
  | Some JOP_FROM_DYN_I64 => op_from_dyn_i64 m ctx ins
  | Some JOP_FROM_DYN_F16 => op_from_dyn_f16 m ctx ins
  | Some JOP_FROM_DYN_F32 => op_from_dyn_f32 m nan32 ctx ins
  | Some JOP_FROM_DYN_F64 => op_from_dyn_f64 m nan64 ctx ins
  | Some JOP_FROM_DYN_BOOL => op_from_dyn_bool m ctx ins
  | Some JOP_FROM_DYN_ATOM => op_from_dyn_atom m ctx ins
  | Some JOP_FROM_DYN_PTR => op_from_dyn_ptr m ctx ins
  | Some JOP_SPILL_PUSH => op_spill_push malloc m ctx ins
  | Some JOP_SPILL_POP => op_spill_pop malloc m nan32 nan64 ctx ins
  | Some JOP_PHYSEQ => op_physeq malloc m ctx ins
  | Some JOP_KINDOF => op_kindof ctx ins
  | Some JOP_SWITCH_KIND => op_switch_kind_step ctx ins
  | Some JOP_CASE_KIND => op_case_kind ctx ins
  | Some JOP_LIST_NIL => op_list_nil ctx ins
  | Some JOP_LIST_CONS => op_list_cons malloc m ctx ins
  | Some JOP_LIST_HEAD => op_list_head malloc m nan32 nan64 ctx ins
  | Some JOP_LIST_TAIL => op_list_tail m ctx ins
  | Some JOP_LIST_IS_NIL => op_list_is_nil ctx ins
  | Some JOP_ARRAY_NEW => op_array_new malloc m ctx ins
  | Some JOP_ARRAY_LEN => op_array_len m ctx ins
  | Some JOP_ARRAY_GET => op_array_get malloc m nan32 nan64 ctx ins
  | Some JOP_ARRAY_SET => op_array_set malloc m ctx ins
  | Some JOP_BYTES_NEW => op_bytes_new malloc m ctx ins
  | Some JOP_BYTES_LEN => op_bytes_len m ctx ins
  | Some JOP_BYTES_GET_U8 => op_bytes_get_u8 m ctx ins
  | Some JOP_BYTES_SET_U8 => op_bytes_set_u8 m ctx ins
  | Some JOP_OBJ_NEW => op_obj_new malloc m junk ctx ins
  | Some JOP_OBJ_HAS_ATOM => op_obj_has_atom m ctx ins
  | Some JOP_OBJ_GET_ATOM => op_obj_get_atom malloc m nan32 nan64 ctx ins
  | Some JOP_OBJ_SET_ATOM => op_obj_set_atom malloc m junk ctx ins
  | Some JOP_OBJ_GET => op_obj_get malloc m nan32 nan64 ctx ins
  | Some JOP_OBJ_SET => op_obj_set malloc m junk ctx ins
  | Some JOP_ARRAY_CONCAT2 => op_array_concat2 malloc m ctx ins
  | Some JOP_ARRAY_RESIZE => op_array_resize m ctx ins
  | Some JOP_OBJ_HAS => op_obj_has m ctx ins
  | Some JOP_OBJ_REMOVE => op_obj_remove m ctx ins
  | Some JOP_OBJ_CLEAR => op_obj_clear m ctx ins
  | Some JOP_OBJ_COPY => op_obj_copy malloc m junk ctx ins
  | Some JOP_OBJ_KEYS => op_obj_keys malloc m ctx ins
  | Some JOP_ENUM_NEW => op_enum_new malloc m ctx ins
  | Some JOP_ENUM_TAG => op_enum_tag m ctx ins
  | Some JOP_ENUM_GET => op_enum_get malloc m nan32 nan64 ctx ins
  | Some JOP_BITAND_I32 => op_bitand_i32 m ctx ins
  | Some JOP_BITAND_I64 => op_bitand_i64 ctx ins
  | Some JOP_BYTES_BITAND2 => op_bytes_bitand2 malloc m ctx ins
  | Some JOP_BITOR_I32 => op_bitor_i32 m ctx ins
  | Some JOP_BITOR_I64 => op_bitor_i64 ctx ins
  | Some JOP_BITXOR_I32 => op_bitxor_i32 m ctx ins
  | Some JOP_BITXOR_I64 => op_bitxor_i64 ctx ins
  | Some JOP_BYTES_BITOR2 => op_bytes_bitor2 malloc m ctx ins
  | Some JOP_BYTES_BITXOR2 => op_bytes_bitxor2 malloc m ctx ins
  | Some JOP_BYTES_READ_U16_LE => op_bytes_read_u16_le m ctx ins
  | Some JOP_BYTES_READ_U16_BE => op_bytes_read_u16_be m ctx ins
  | Some JOP_BYTES_READ_U32_LE => op_bytes_read_u32_le m ctx ins
  | Some JOP_BYTES_READ_U32_BE => op_bytes_read_u32_be m ctx ins
  | Some JOP_BYTES_READ_I32_LE => op_bytes_read_i32_le m ctx ins
  | Some JOP_BYTES_READ_I32_BE => op_bytes_read_i32_be m ctx ins
  | Some JOP_BYTES_READ_F32_LE => op_bytes_read_f32_le m ctx ins
  | Some JOP_BYTES_READ_F32_BE => op_bytes_read_f32_be m ctx ins
  | Some JOP_BYTES_WRITE_U16_LE => op_bytes_write_u16_le m ctx ins
  | Some JOP_BYTES_WRITE_U16_BE => op_bytes_write_u16_be m ctx ins
  | Some JOP_BYTES_WRITE_U32_LE => op_bytes_write_u32_le m ctx ins
  | Some JOP_BYTES_WRITE_U32_BE => op_bytes_write_u32_be m ctx ins
  | Some JOP_BYTES_WRITE_I32_LE => op_bytes_write_i32_le m ctx ins
  | Some JOP_BYTES_WRITE_I32_BE => op_bytes_write_i32_be m ctx ins
  | Some JOP_BYTES_WRITE_F32_LE => op_bytes_write_f32_le m ctx ins
  | Some JOP_BYTES_WRITE_F32_BE => op_bytes_write_f32_be m ctx ins
  | Some JOP_BYTES_EQ => op_bytes_eq ctx ins
  | None => panic
  end.

(** ** The opcodes [vm_exec_loop] handles itself *)

(** [break] is [OP_CONTINUE], [goto CHECK_EXC] is [OP_TRAP]. *)
Definition hot_ret : op_handler := fun ctx ins =>
  fr ← ctx_frame ctx;
  _ ← leave_frame_handlers fr;
  if negb (cf_has_caller fr) then
    ret ← vm_box_from_typed malloc m (cx_f ctx) (cx_rf ctx) (i_a ins);
    _ ← drop_outermost;
    mret (OP_RETURN ret None) else
  n ← nframes;
  _ ← panic_if (n <? 2);
  caller ← frame_at (n - 2);
  caller_f ← fun_at m (cf_f caller);
  ret_tid ← must (f_reg_types (cx_f ctx) @! (i_a ins));
  same ← (if cf_f caller =? cf_f fr then mret true
    else dst_tid ← must (f_reg_types caller_f @! (cf_caller_dst fr)); mret (dst_tid =? ret_tid));
  if same : bool then
    k ← must (te_kind <$> m_types m @! ret_tid);
    _ ← copy_slot (cx_rf ctx) (i_a ins) (cf_rf caller) (cf_caller_dst fr) (jello_slot_size k);
    _ ← pop_frame; mret OP_CONTINUE
  else _ ← return_boxed malloc m nan32 nan64 ctx caller (cf_caller_dst fr) (i_a ins); mret OP_CONTINUE.

(** [k == JELLO_T_I32 ? store : masked store]. *)
Definition hot_store (rf : reg_frame) (r v : Z) (k : jello_type_kind) : M op_result :=
  _ ← (if kind_eqb k JELLO_T_I32 then vm_store_u32 rf r v else vm_store_u32_masked rf r v k);
  mret OP_CONTINUE.

Definition hot_bin_i32 (expr : Z -> Z -> Z) : op_handler := fun ctx ins =>
  k ← must (vm_reg_kind m (cx_f ctx) (i_a ins));
  a ← vm_load_u32 (cx_rf ctx) (i_b ins); b ← vm_load_u32 (cx_rf ctx) (i_c ins);
  hot_store (cx_rf ctx) (i_a ins) (expr a b) k.

(** A sum of [int32_t]: undefined outside its range. *)
Definition c_int32 (x : Z) : option Z := if (- 2 ^ 31 <=? x) && (x <? 2 ^ 31) then Some x else None.

Definition hot_imm_i32 (expr : Z -> Z -> option Z) : op_handler := fun ctx ins =>
  k ← must (vm_reg_kind m (cx_f ctx) (i_a ins));
  a ← vm_load_u32 (cx_rf ctx) (i_b ins);
  v ← must (expr a (imm_c ins));
  hot_store (cx_rf ctx) (i_a ins) v k.

Definition hot_call : op_handler := fun ctx ins =>
  ok ← jello_vm_fuel_charge m;
  if negb (ok : bool) then mret OP_TRAP else
  let fi := i_imm ins in
  if jello_is_native_builtin fi then _ ← native ctx ins fi (i_b ins); mret OP_CONTINUE else
  callee ← callee_of m ctx fi (i_b ins) (i_c ins);
  fr ← ctx_frame ctx;
  s ← get_stack;
  if (callee =? cf_f fr) && negb (cf_has_pointer_or_dynamic fr) && (i_c ins <=? 16) &&
  negb (frames_exhausted s) then
    _ ← frames_grow_if_full;
    fr ← ctx_frame ctx;
    _ ← vm_push_self_numeric m junk fr (i_b ins) (i_c ins) (i_a ins) 0 (cf_jit_entry_done fr);
    mret OP_CONTINUE
  else
  n ← nframes;
  ok ← vm_push_frame malloc m maddr nan32 nan64 junk callee (cf_f fr) (u32 (n - 1)) (i_a ins)
    (i_b ins) (i_c ins) None true;
  mret (if ok : bool then OP_CONTINUE else OP_TRAP).

(** The function object of the indirect calls; [None]: the trap is raised. *)
Definition hot_callee (v : Z) (msg : string) : M (option hobj) :=
  if negb (jello_is_ptr v) || jello_is_null v then
    _ ← jello_vm_trap m JELLO_TRAP_TYPE_MISMATCH msg; mret None else
  o ← (if v =? 0 then mret None else o ← deref v; mret (Some o));
  match o with
  | Some o =>
    if bool_decide (obj_kind o = JELLO_OBJ_FUNCTION) then mret (Some o)
    else _ ← jello_vm_trap m JELLO_TRAP_TYPE_MISMATCH msg; mret None
  | None => _ ← jello_vm_trap m JELLO_TRAP_TYPE_MISMATCH msg; mret None
  end.

Definition ok_or_trap (ok : bool) : op_result := if ok then OP_CONTINUE else OP_TRAP.

Definition hot_callr : op_handler := fun ctx ins =>
  ok ← jello_vm_fuel_charge m;
  if negb (ok : bool) then mret OP_TRAP else
  v ← vm_load_val (cx_rf ctx) (i_b ins);
  o ← hot_callee v "callr callee not a function";
  match o with
  | None => mret OP_TRAP
  | Some fn =>
    let fi := fn_func_index fn in
    if jello_is_jdll_prim fi then ok ← jdll_prim ctx ins v (i_imm ins); mret (ok_or_trap ok) else
    if jello_is_native_builtin fi then _ ← native ctx ins fi (i_imm ins); mret OP_CONTINUE else
    ok ← push_call malloc m maddr nan32 nan64 junk ctx ins fi (i_imm ins) (Some fn);
    mret (ok_or_trap ok)
  end.

Definition hot_tailcall : op_handler := fun ctx ins =>
  let fi := i_imm ins in
  if jello_is_native_builtin fi then
    _ ← native ctx ins fi (i_b ins); return_native malloc m nan32 nan64 ctx ins
  else
  ok ← tail_call malloc m maddr nan32 nan64 junk ctx ins fi (i_b ins) None;
  mret (ok_or_trap ok).

Definition hot_tailcallr : op_handler := fun ctx ins =>
  v ← vm_load_val (cx_rf ctx) (i_b ins);
  o ← hot_callee v "tailcallr callee not a function";
  match o with
  | None => mret OP_TRAP
  | Some fn =>
    let fi := fn_func_index fn in
    if jello_is_jdll_prim fi then
      ok ← jdll_prim ctx ins v (i_imm ins);
      if negb (ok : bool) then mret OP_TRAP else return_native malloc m nan32 nan64 ctx ins
    else if jello_is_native_builtin fi then
      _ ← native ctx ins fi (i_imm ins); return_native malloc m nan32 nan64 ctx ins
    else
    ok ← tail_call malloc m maddr nan32 nan64 junk ctx ins fi (i_imm ins) (Some fn);
    mret (ok_or_trap ok)
  end.

(** [f64_fast] of the array opcodes. *)
Definition hot_f64_fast (ctx : exec_ctx) (dst arr : Z) : bool :=
  bool_decide (vm_reg_kind m (cx_f ctx) dst = Some JELLO_T_F64) &&
  match f_reg_types (cx_f ctx) @! arr with
  | Some arr_tid =>
    match m_types m @! arr_tid with
    | Some te => kind_eqb (te_kind te) JELLO_T_ARRAY &&
      bool_decide (te_kind <$> m_types m @! (te_as te) = Some JELLO_T_F64)
    | None => false
    end
  | None => false
  end.

Definition hot_obj_get_atom : op_handler := fun ctx ins =>
  ok ← vm_obj_get_atom_typed malloc m nan32 nan64 (cx_f ctx) (cx_rf ctx) (i_a ins) (i_b ins)
    (i_imm ins) (i_c ins);
  mret (ok_or_trap ok).

Definition hot_obj_set_atom : op_handler := fun ctx ins =>
  ok ← vm_obj_set_atom_typed malloc m junk (cx_f ctx) (cx_rf ctx) (i_a ins) (i_b ins)
    (i_imm ins) (i_c ins);
  mret (ok_or_trap ok).

(** The cases of the [switch], in its groups.  A case that repeats the text of the
    handler of the opcode, or calls it, uses its definition. *)
Definition hot_control (op : jello_op) : option op_handler :=
  match op with
  | JOP_RET => Some hot_ret
  | JOP_JMP => Some (op_jmp m)
  | JOP_JMP_IF => Some op_jmp_if
  | JOP_MOV => Some (op_mov m)
  | JOP_ASSERT => Some (op_assert malloc m)
  | JOP_CALL => Some hot_call
  | JOP_CALLR => Some hot_callr
  | JOP_TAILCALL => Some hot_tailcall
  | JOP_TAILCALLR => Some hot_tailcallr
  | _ => None
  end.

Definition hot_constants (op : jello_op) : option op_handler :=
  match op with
  | JOP_CONST_FUN => Some (op_const_fun malloc m)
  | JOP_CONST_I32 => Some op_const_i32
  | JOP_CONST_I8_IMM => Some op_const_i8_imm
  | JOP_CONST_BOOL => Some op_const_bool
  | JOP_CONST_NULL => Some op_const_null
  | JOP_CONST_F64 => Some (op_const_f64 m)
  | JOP_CONST_BYTES => Some (op_const_bytes malloc m)
  | _ => None
  end.

Definition hot_bytes (op : jello_op) : option op_handler :=
  match op with
  | JOP_BYTES_CONCAT2 => Some (op_bytes_concat2 malloc m)
  | JOP_BYTES_CONCAT_MANY => Some (op_bytes_concat_many malloc m)
  | JOP_BYTES_BITAND2 => Some (op_bytes_bitand2 malloc m)
  | JOP_BYTES_BITOR2 => Some (op_bytes_bitor2 malloc m)
  | JOP_BYTES_BITXOR2 => Some (op_bytes_bitxor2 malloc m)
  | JOP_BYTES_NEW => Some (op_bytes_new malloc m)
  | JOP_BYTES_LEN => Some (op_bytes_len m)
  | JOP_BYTES_GET_U8 => Some (op_bytes_get_u8 m)
  | JOP_BYTES_SET_U8 => Some (op_bytes_set_u8 m)
  | JOP_BYTES_EQ => Some op_bytes_eq
  | _ => None
  end.

Definition hot_ints (op : jello_op) : option op_handler :=
  match op with
  | JOP_ADD_I32 => Some (hot_bin_i32 (fun a b => u32 (a + b)))
  | JOP_SUB_I32 => Some (hot_bin_i32 (fun a b => u32 (a - b)))
  | JOP_MUL_I32 => Some (hot_bin_i32 (fun a b => u32 (a * b)))
  | JOP_ADD_I32_IMM => Some (hot_imm_i32 (fun a imm => u32 <$> c_int32 (i32 a + imm)))
  | JOP_SUB_I32_IMM => Some (hot_imm_i32 (fun a imm => u32 <$> c_int32 (i32 a - imm)))
  | JOP_MUL_I32_IMM => Some (hot_imm_i32 (fun a imm => Some (u32 (a * u32 imm))))
  | _ => None
  end.

Definition hot_floats_and_tests (op : jello_op) : option op_handler :=
  match op with
  | JOP_ADD_F64 => Some (op_add_f64 nan64)
  | JOP_SUB_F64 => Some (op_sub_f64 nan64)
  | JOP_MUL_F64 => Some (op_mul_f64 nan64)
  | JOP_DIV_F64 => Some (op_div_f64 nan64)
  | JOP_NOT_BOOL => Some op_not_bool
  | JOP_EQ_I32 => Some op_eq_i32
  | JOP_LT_I32 => Some op_lt_i32
  | JOP_EQ_I32_IMM => Some op_eq_i32_imm
  | JOP_LT_I32_IMM => Some op_lt_i32_imm
  | JOP_EQ_F64 => Some op_eq_f64
  | JOP_LT_F64 => Some op_lt_f64
  | _ => None
  end.

Definition hot_containers (op : jello_op) : option op_handler :=
  match op with
  | JOP_ARRAY_NEW => Some (op_array_new malloc m)
  | JOP_ARRAY_LEN => Some (op_array_len m)
  | JOP_ARRAY_GET => Some (fun ctx ins =>
      array_get_with malloc m nan32 nan64 (hot_f64_fast ctx (i_a ins) (i_b ins)) ctx ins)
  | JOP_ARRAY_SET => Some (fun ctx ins =>
      array_set_with malloc m (hot_f64_fast ctx (i_a ins) (i_b ins)) ctx ins)
  | JOP_OBJ_NEW => Some (op_obj_new malloc m junk)
  | JOP_OBJ_GET_ATOM => Some hot_obj_get_atom
  | JOP_OBJ_SET_ATOM => Some hot_obj_set_atom
  | _ => None
  end.

Definition hot_case (op : jello_op) : option op_handler :=
  foldr (fun (g : jello_op -> option op_handler) rest =>
    match g op with Some h => Some h | None => rest end) None
  [hot_control; hot_constants; hot_bytes; hot_ints; hot_floats_and_tests; hot_containers].

Definition hot_dispatch : op_handler := fun ctx ins =>
  match op_of_code (i_op ins) with
  | Some op =>
    match hot_case op with
    | Some h => h ctx ins
    | None => op_dispatch ctx ins
    end
  | None => op_dispatch ctx ins
  end.

(** ** One turn of the loop *)

Section Loop.
(** [min_call_frames] and [out_exports] of the context; [dispatch] is
    [hot_dispatch], or [op_dispatch] under [JELLOVM_REFERENCE_INTERP]. *)
Context (dispatch : op_handler) (min_frames : Z) (exports : option Z).

(** The hooks of the JIT do nothing and nothing is compiled. *)
Definition jit_hook (i : Z) (fr : call_frame) : M call_frame :=
  if (cf_pc fr =? 0) && negb (cf_jit_entry_done fr) then
    let fr' := mk_frame (cf_f fr) (cf_rf fr) (cf_pc fr) (cf_caller_dst fr) (cf_exc_base fr)
      (cf_has_caller fr) (cf_jdll_ret_capture fr) (cf_has_pointer_or_dynamic fr) true
      (cf_jit_resume_hint fr) (cf_jit_osr_hint fr) (cf_jit_return_addr fr) in
    _ ← set_frame_at i fr'; mret fr'
  else mret fr.

(** What a handler's answer means to the loop. *)
Definition next (r : op_result) : option exec_result :=
  match r with
  | OP_RETURN out ex => Some (JELLO_EXEC_OK (Some out) ex)
  | OP_CONTINUE | OP_TRAP => None
  end.

Definition exec_insn (i : Z) : M (option exec_result) :=
  fr ← frame_at i;
  f ← fun_at m (cf_f fr);
  fr ← jit_hook i fr;
  ins ← must (f_insns f @! (cf_pc fr));
  _ ← set_frame_at i (set_pc (u32 (cf_pc fr + 1)) fr);
  r ← dispatch (mk_ctx f i (cf_rf fr) exports) ins;
  mret (next r).

Definition exec_step : M (option exec_result) :=
  n ← nframes;
  if negb (min_frames =? 0) && (n <=? min_frames) then mret (Some (JELLO_EXEC_OK None None)) else
  stop ← vm_exc_dispatch malloc m junk;
  if stop : bool then mret (Some JELLO_EXEC_TRAP) else
  n ← nframes;
  if n =? 0 then
    s ← get_stack; _ ← put_stack (set_frames [] (set_frames_cap 0 s));
    mret (Some (JELLO_EXEC_OK (Some jello_make_null) None))
  else exec_insn (n - 1).

Fixpoint exec_loop (fuel : nat) : M (option exec_result) :=
  match fuel with
  | O => mret None
  | S fuel' =>
    r ← exec_step;
    match r with
    | Some res => mret (Some res)
    | None => exec_loop fuel'
    end
  end.
End Loop.

Definition vm_exec_loop (min_frames : Z) (exports : option Z) (fuel : nat) : M (option exec_result) :=
  exec_loop hot_dispatch min_frames exports fuel.

(** ** interp.c *)

Definition vm_capture_trap_stack : M () := vm_unwind_all_frames.

Definition set_spill_len0 : M () := fun vm => Ret () (set_spill [] vm).
Definition set_running (a : Z) : M () := fun vm => Ret () (set_module a vm).

(** [*out] is the result: a root during the last collection. *)
Definition vm_finish_exec (out : Z) : M () :=
  _ ← vm_unwind_all_frames;
  _ ← set_spill_len0;
  if jello_is_null out then jello_gc_collect m else
  _ ← jello_gc_push_root out;
  _ ← jello_gc_collect m;
  jello_gc_pop_roots 1.

(** The fresh start the three entries share. *)
Definition reset_run : M () :=
  l ← get_limits;
  _ ← put_limits (mk_limits (fuel_limit l) (fuel_limit l) (max_bytes_len l) (max_array_len l));
  s ← get_stack; _ ← put_stack (set_frames [] (set_frames_cap 0 s));
  g ← get_gc;
  _ ← put_gc (set_caches
      (if m_nfuncs m =? 0 then [] else replicate (Z.to_nat (JELLO_NATIVE_BUILTIN_COUNT + m_nfuncs m)) 0)
      (replicate (Z.to_nat (m_nconst_bytes m)) 0) [] g);
  _ ← vm_enum_nullary_cache_init (m_ntypes m);
  e ← get_exc;
  _ ← put_exc (mk_exc [] false jello_make_null (trap_code e) (trap_msg e));
  vm_call_frames_reserve.

Definition exec_entry (fuel : nat) (entry : Z) (exports : option Z) : M (option exec_result) :=
  _ ← reset_run;
  pushed ← vm_push_frame malloc m maddr nan32 nan64 junk entry entry 0 0 0 0 None false;
  if pushed : bool then vm_exec_loop 0 exports fuel else mret (Some JELLO_EXEC_TRAP).

(** The end of a run: [None] has not come to it. *)
Definition finish (r : option exec_result) : M (option exec_result) :=
  match r with
  | None => mret None
  | Some JELLO_EXEC_TRAP => _ ← vm_capture_trap_stack; _ ← set_running 0; mret r
  | Some (JELLO_EXEC_OK out _) =>
    _ ← vm_finish_exec (default jello_make_null out); _ ← set_running 0; mret r
  end.

Definition jello_vm_exec_status_exports (fuel : nat) (exports : option Z) : M (option exec_result) :=
  _ ← panic_if (m_nfuncs m <=? m_entry m);
  _ ← jello_vm_clear_trap;
  _ ← jello_gc_init;
  _ ← set_running maddr;
  r ← exec_entry fuel (m_entry m) exports;
  finish r.

Definition jello_vm_exec_status (fuel : nat) : M (option exec_result) :=
  jello_vm_exec_status_exports fuel None.

Definition jello_vm_exec_status_chunk (fuel : nat) (entry : Z) (args : list Z) (exports : option Z)
  : M (option exec_result) :=
  _ ← panic_if (m_nfuncs m <=? entry);
  _ ← jello_vm_clear_trap;
  _ ← jello_gc_init;
  _ ← set_running maddr;
  _ ← reset_run;
  pushed ← vm_push_frame_from_values malloc m maddr nan32 nan64 junk entry args;
  if pushed : bool then r ← vm_exec_loop 0 exports fuel; finish r
  else _ ← set_running 0; mret (Some JELLO_EXEC_TRAP).

Definition jello_vm_exec_status_closure (fuel : nat) (fn : Z) (args : list Z) : M (option exec_result) :=
  _ ← jello_vm_clear_trap;
  _ ← jello_gc_init;
  _ ← set_running maddr;
  _ ← reset_run;
  fo ← deref fn;
  pushed ← vm_push_frame_closure_from_values malloc m maddr nan32 nan64 junk fo args;
  if pushed : bool then r ← vm_exec_loop 0 None fuel; finish r
  else _ ← set_running 0; mret (Some JELLO_EXEC_TRAP).

(** [jello_vm_exec]: the value of the run. *)
Definition jello_vm_exec (fuel : nat) : M (option Z) :=
  r ← jello_vm_exec_status fuel;
  match r with
  | None => mret None
  | Some JELLO_EXEC_TRAP => panic
  | Some (JELLO_EXEC_OK out _) => mret (Some (default jello_make_null out))
  end.
End Exec.
