(* ===== verification/Accesses.v ===== *)
(** * The register accesses of the handlers

    A handler as a function of the register frame it is given, taken apart into its
    accesses: [touches P c] says that [c] uses the frame only through loads and stores of
    [n] bytes at registers [r] with [P r n].  What a handler does without the frame (heap,
    collector, frames, handlers) is free, and so are the native builtins and library
    primitives it hands the frame to; the arguments of a call are copied by the push of the
    callee's frame. *)

From S2P Require Import Prelude CInt Memory Bytecode Check CheckFacts FunCheck Loader LoaderSpec LoaderThms Value Object Heap Vm Frame Float Gc Box BoxThms Types Ops ArithOps Call Exc CoreOps CallOps ContainerOps BytesOps ObjOps Exec.
#[local] Open Scope list_scope.
#[local] Open Scope Z_scope.

Definition with_rf (ctx : exec_ctx) (rf : reg_frame) : exec_ctx := mk_ctx (cx_f ctx) (cx_fr ctx) rf (cx_exports ctx).

Section Touches.
Context (native : exec_ctx -> jello_insn -> Z -> Z -> M ()).
Context (jdll_prim : exec_ctx -> jello_insn -> Z -> Z -> M bool).
Context (P : Z -> Z -> Prop).

Inductive touches : forall A : Type, (reg_frame -> M A) -> Prop :=
| t_free A (c : Z -> M A) : touches A (fun rf => c (rf_nregs rf))
| t_load n r : P r (Z.of_nat n) -> touches Z (fun rf => load_reg n rf r)
| t_store n r v : P r (Z.of_nat n) -> touches () (fun rf => store_reg n rf r v)
| t_read A n r (k : reg_frame -> list Z -> M A) : P r n -> (forall l, touches A (fun rf => k rf l)) ->
  touches A (fun rf => a ← must (vm_reg_ptr rf r); s ← get_stack; l ← must (block_read (frame_stack s) a n); k rf l)
| t_copy n r r' : P r n -> P r' n -> touches () (fun rf => copy_slot rf r rf r' n)
| t_copy_to n r rf' r' : P r n -> touches () (fun rf => copy_slot rf r rf' r' n)
| t_bind A B (c : reg_frame -> M A) (k : reg_frame -> A -> M B) :
  touches A c -> (forall a, touches B (fun rf => k rf a)) -> touches B (fun rf => c rf ≫= k rf)
| t_native ctx ins fi first : touches () (fun rf => native (with_rf ctx rf) ins fi first)
| t_prim ctx ins v first : touches bool (fun rf => jdll_prim (with_rf ctx rf) ins v first).

(** What [touches] means: frames that agree on the registers it allows are the same to
    the computation. *)
Lemma touches_local A c rf1 rf2 :
  touches A c -> rf_nregs rf1 = rf_nregs rf2 ->
  (forall r n, P r n -> vm_reg_ptr rf1 r = vm_reg_ptr rf2 r) ->
  (forall ctx ins fi first vm, native (with_rf ctx rf1) ins fi first vm = native (with_rf ctx rf2) ins fi first vm) ->
  (forall ctx ins v first vm, jdll_prim (with_rf ctx rf1) ins v first vm = jdll_prim (with_rf ctx rf2) ins v first vm) ->
  forall vm, c rf1 vm = c rf2 vm.
Proof.
  intros H Hn HP Hnat Hprim. induction H as [A c|n r Hr|n r v Hr|A n r k Hr _ IH|n r r' Hr Hr'|n r rf' r' Hr|A B c k _ IHc _ IHk|ctx ins fi first|ctx ins v first]; intros vm.
  - by rewrite Hn.
  - unfold load_reg, mbind, M_bind. by rewrite (HP _ _ Hr).
  - unfold store_reg, mbind, M_bind. by rewrite (HP _ _ Hr).
  - unfold mbind, M_bind. rewrite (HP _ _ Hr). destruct (must _ vm); [|done..]. cbn.
    destruct (must _ vm0); [|done..]. apply IH.
  - unfold copy_slot. by rewrite (HP _ _ Hr), (HP _ _ Hr').
  - unfold copy_slot. by rewrite (HP _ _ Hr).
  - unfold mbind, M_bind. rewrite IHc. destruct (c rf2 vm); [apply IHk | done..].
  - apply Hnat.
  - apply Hprim.
Qed.

(** ** Derived rules *)

Lemma t_const A (c : M A) : touches A (fun _ => c).
Proof. apply (t_free A (fun _ => c)). Qed.

(** The continuation of a read that cannot fail only matters for what is read. *)
Lemma t_must A B (o : option A) (k : reg_frame -> A -> M B) :
  (forall a, o = Some a -> touches B (fun rf => k rf a)) -> touches B (fun rf => must o ≫= k rf).
Proof. destruct o as [a|]; intros H; [exact (H a eq_refl) | apply (t_const B (fun _ => Crash))]. Qed.

Lemma t_ret A B (a : A) (k : reg_frame -> A -> M B) :
  touches B (fun rf => k rf a) -> touches B (fun rf => mret a ≫= k rf).
Proof. exact id. Qed.

Lemma t_panic_if A (g : bool) (k : reg_frame -> () -> M A) :
  (g = false -> touches A (fun rf => k rf ())) -> touches A (fun rf => panic_if g ≫= k rf).
Proof. destruct g; intros H; [apply (t_const A (fun _ => Panic)) | exact (H eq_refl)]. Qed.
End Touches.

(** Register [r] of [f] exists and its slot has [n] bytes. *)
Definition slot_of (m : jello_bc_module) (f : jello_bc_function) (r n : Z) : Prop :=
  exists k, vm_reg_kind m f r = Some k /\ jello_slot_size k = n.

Definition reg_exists (m : jello_bc_module) (f : jello_bc_function) (r : Z) : Prop := is_Some (vm_reg_kind m f r).

(** The registers that hold the arguments of a call. *)
Definition call_args (o : jello_op) (ins : jello_insn) : list Z :=
  let args first := (fun i => first + Z.of_nat i) <$> seq 0 (Z.to_nat (i_c ins)) in
  match o with
  | JOP_CALL | JOP_TAILCALL => args (i_b ins)
  | JOP_CALLR | JOP_TAILCALLR => args (i_imm ins)
  | _ => []
  end.

(** Splits a computation into accesses; what remains are the side conditions. *)
Ltac touch1 :=
  lazymatch goal with
  | |- touches _ _ _ _ (fun _ => ?c) => exact (t_const _ _ _ _ c)
  | |- touches _ _ _ _ (fun rf => load_reg ?n rf ?r) => apply t_load
  | |- touches _ _ _ _ (load_reg _ _ _) => apply t_load
  | |- touches _ _ _ _ (fun rf => store_reg ?n rf ?r ?v) => apply t_store
  | |- touches _ _ _ _ (fun rf => must (vm_reg_ptr rf ?r) ≫= _) => apply t_read; [|intros ?]
  | |- touches _ _ _ _ (fun rf => must ?o ≫= @?k rf) => apply (t_must _ _ _ _ _ o k); intros ? ?
  | |- touches ?nat ?prim ?P _ (fun rf => panic_if (rf_nregs rf <? ?n) ≫= @?k rf) =>
    apply (t_bind nat prim P _ _ (fun rf => panic_if (rf_nregs rf <? n)) k); [|intros ?]
  | |- touches _ _ _ _ (fun rf => panic_if ?g ≫= @?k rf) => apply (t_panic_if _ _ _ _ g k); intros ?
  | |- touches _ _ _ _ (fun rf => panic_if (rf_nregs rf <? ?n)) => exact (t_free _ _ _ _ (fun x => panic_if (x <? n)))
  | |- touches _ _ _ _ (fun rf => mret ?a ≫= @?k rf) => apply (t_ret _ _ _ _ _ a k)
  | |- touches _ _ _ _ (fun rf => (if ?b then _ else _) ≫= _) => destruct b eqn:?
  | |- touches _ _ _ _ (fun rf => @mbind _ _ _ _ (@?k rf) (@?c rf)) => apply (t_bind _ _ _ _ _ c k); [|intros ?]
  | |- touches _ _ _ _ (fun rf => if ?b then _ else _) => destruct b eqn:?
  | |- touches _ _ _ _ (fun rf => match ?x with _ => _ end) => destruct x eqn:?
  | |- touches _ _ _ _ (fun rf => let x := ?v in _) => cbv zeta
  | |- touches ?native _ _ _ (fun rf => ?native (with_rf _ rf) _ _ _) => apply t_native
  | |- touches _ ?prim _ _ (fun rf => ?prim (with_rf _ rf) _ _ _) => apply t_prim
  end.

(** Unfolded: the register accessors and the typed loads of the handlers. *)
Ltac unfold_access :=
  cbv beta delta [vm_load_u32 vm_store_u32 vm_store_u32_masked vm_load_i32ish vm_load_i64 vm_store_i64
    vm_load_f32 vm_store_f32 vm_load_f64 vm_store_f64 vm_load_f16_bits vm_store_f16_bits vm_load_val vm_store_val
    vm_load_ptr vm_store_ptr load_f16 bytes_load bytes_off read_into write_from] in *;
  cbn [cx_f cx_rf cx_fr cx_exports with_rf] in *.

Section Handlers.
Context (malloc : gc_state -> Z -> option Z) (m : jello_bc_module) (maddr : Z).
Context (nan32 nan64 junk : Z) (nan16 : bool -> Z).
Context (native : exec_ctx -> jello_insn -> Z -> Z -> M ()).
Context (jdll_prim : exec_ctx -> jello_insn -> Z -> Z -> M bool).
Context (f : jello_bc_function).

Abbreviation P := (slot_of m f).
Abbreviation T := (touches native jdll_prim P _).

Lemma slot_intro r n k : vm_reg_kind m f r = Some k -> jello_slot_size k = n -> P r n.
Proof. by exists k. Qed.

Lemma touch_box r : reg_exists m f r -> T (fun rf => vm_box_from_typed malloc m f rf r).
Proof.
  intros [k Hk]. unfold vm_box_from_typed.
  cbv beta delta [vm_load_u32 vm_load_f32 vm_load_f16_bits vm_load_i64 vm_load_f64 vm_load_val vm_load_ptr].
  repeat touch1; (eapply slot_intro; [eassumption | reflexivity]).
Qed.

Lemma touch_store_boxed r v : reg_exists m f r -> T (fun rf => vm_store_from_boxed malloc m nan32 nan64 f rf r v).
Proof.
  intros [k Hk]. unfold vm_store_from_boxed.
  cbv beta delta [store_boxed_i32 store_boxed_f32 store_boxed_f16 store_boxed_i64 store_boxed_f64 vm_store_u32
    vm_store_f32 vm_store_f16_bits vm_store_u32 vm_store_i64 vm_store_f64 vm_store_val vm_store_ptr].
  repeat touch1; (eapply slot_intro; [eassumption | reflexivity]).
Qed.

Lemma touch_numbox_store r cur : reg_exists m f r -> T (fun rf => vm_store_num_inplace m f rf r cur).
Proof.
  intros [k Hk]. unfold vm_store_num_inplace. unfold_access.
  repeat touch1; (eapply slot_intro; [eassumption | reflexivity]).
Qed.

Lemma touch_box_for_store r : reg_exists m f r -> T (fun rf => box_for_store malloc m f rf r).
Proof. intros H. unfold box_for_store. touch1; [by apply touch_box | repeat touch1]. Qed.

Lemma touch_store_same_kind r v : reg_exists m f r -> T (fun rf => store_same_kind m f rf r v).
Proof.
  intros [k Hk]. unfold store_same_kind. unfold_access.
  repeat touch1; (eapply slot_intro; [eassumption | reflexivity]).
Qed.

Lemma touch_chain_get r o atom : reg_exists m f r -> T (fun rf => chain_get malloc m nan32 nan64 f rf r o atom).
Proof. intros H. unfold chain_get. repeat touch1. by apply touch_store_boxed. Qed.

Lemma touch_set_in_slot r o atom i e : reg_exists m f r -> T (fun rf => set_in_slot malloc m f rf r o atom i e).
Proof. intros H. unfold set_in_slot. repeat touch1; first [by apply touch_numbox_store | by apply touch_box_for_store]. Qed.

(** *** Ranges of registers *)

Definition range_exists (first : Z) (n : nat) : Prop := forall i, 0 <= i < Z.of_nat n -> reg_exists m f (first + i).

Lemma range_cons first n : range_exists first (S n) -> reg_exists m f first /\ range_exists (first + 1) n.
Proof.
  intros H. split; [replace first with (first + 0) by lia; apply H; lia|].
  intros i Hi. replace (first + 1 + i) with (first + (1 + i)) by lia. apply H. lia.
Qed.

Lemma touch_raw_caps n first : range_exists first n -> T (fun rf => raw_caps m f rf first n).
Proof.
  revert first. induction n as [|n IH]; intros first H; cbn [raw_caps]; [touch1|].
  apply range_cons in H as [_ H]. repeat touch1; [by eapply slot_intro | by apply IH].
Qed.

Lemma touch_box_args n first : range_exists first n -> T (fun rf => box_args malloc m f rf first n).
Proof.
  revert first. induction n as [|n IH]; intros first H; cbn [box_args]; [touch1|].
  apply range_cons in H as [H0 H]. repeat touch1; [by apply touch_box | by apply IH].
Qed.

Lemma touch_box_fields n first : range_exists first n -> T (fun rf => box_fields malloc m f rf first n).
Proof.
  revert first. induction n as [|n IH]; intros first H; cbn [box_fields]; [touch1|].
  apply range_cons in H as [H0 H]. repeat touch1; [by apply touch_box | by apply IH].
Qed.

End Handlers.

(** ** The handlers *)

Section Dispatch.
Context (malloc : gc_state -> Z -> option Z) (m : jello_bc_module) (maddr : Z).
Context (nan32 nan64 junk : Z) (nan16 : bool -> Z).
Context (native : exec_ctx -> jello_insn -> Z -> Z -> M ()).
Context (jdll_prim : exec_ctx -> jello_insn -> Z -> Z -> M bool).
Context (ctx : exec_ctx) (ins : jello_insn).

Abbreviation f := (cx_f ctx).
Abbreviation P := (slot_of m f).
Abbreviation T := (touches native jdll_prim P _).

Definition reg_access (x : access) : Prop :=
  match x with
  | Width r n => P r n
  | Slot r => reg_exists m f r
  end.

Lemma range_access first n : Forall reg_access (reg_range first n) -> range_exists m f first (Z.to_nat n).
Proof.
  unfold reg_range. rewrite Forall_fmap, Forall_forall. intros H i Hi. specialize (H (Z.to_nat i)). cbn in H.
  replace (first + i) with (first + Z.of_nat (Z.to_nat i)) by lia. apply H, elem_of_seq. lia.
Qed.

Ltac unfold_op :=
  cbv beta iota delta [
    OP_UN_I32_MASKED OP_UN_I64 OP_UN_F32 OP_UN_F64 op_not_bool OP_BIN_I32_MASKED OP_BIN_I32_IMM_MASKED OP_BIN_F32
      OP_BIN_F64 OP_BIN_F16 OP_BIN_I64 OP_CMP_I32 OP_CMP_I32_IMM OP_CMP_F32 OP_CMP_F64 OP_CMP_I64 op_add_i32
      op_sub_i32 op_mul_i32 op_div_i32 op_mod_i32 op_shl_i32 op_shr_i32 op_add_i32_imm op_sub_i32_imm
      op_mul_i32_imm op_add_i64 op_sub_i64 op_mul_i64 op_div_i64 op_mod_i64 op_shl_i64 op_shr_i64 op_add_f16
      op_sub_f16 op_mul_f16 op_add_f32 op_sub_f32 op_mul_f32 op_div_f32 op_add_f64 op_sub_f64 op_mul_f64
      op_div_f64 op_neg_i32 op_neg_i64 op_neg_f32 op_neg_f64 op_eq_i32 op_lt_i32 op_eq_i32_imm op_lt_i32_imm
      op_eq_i64 op_lt_i64 op_eq_f32 op_lt_f32 op_eq_f64 op_lt_f64 op_sext_i64 op_sext_i16 op_trunc_i8 op_trunc_i16
      op_i32_from_i64 op_f64_from_i32 op_f64_from_i64 op_f32_from_i32 op_f32_from_i64 op_f64_from_f32
      op_f32_from_f64 op_i32_from_f64 op_i64_from_f64 op_i32_from_f32 op_i64_from_f32 op_f16_from_f32
      op_f32_from_f16 op_f16_from_i32 op_i32_from_f16 op_bitand_i32 op_bitor_i32 op_bitxor_i32 OP_BIT_I64
      op_bitand_i64 op_bitor_i64 op_bitxor_i64 op_switch_kind_step op_case_kind op_nop op_jmp op_jmp_if op_assert
      op_try op_endtry op_throw op_ret op_mov op_const_i8_imm op_const_i32 op_const_i64 op_const_f16 op_const_bool
      op_const_atom op_const_null op_const_f32 op_const_f64 op_const_bytes op_const_fun op_to_dyn op_from_dyn_i8
      op_from_dyn_i16 op_from_dyn_i32 op_from_dyn_i64 op_from_dyn_f16 op_from_dyn_f32 op_from_dyn_f64
      op_from_dyn_bool op_from_dyn_atom op_from_dyn_ptr op_spill_push op_spill_pop op_physeq op_kindof op_closure
      op_bind_this op_call op_callr op_tailcall op_tailcallr op_array_new op_array_len op_array_get op_array_set
      op_array_concat2 op_array_resize op_list_nil op_list_cons op_list_head op_list_tail op_list_is_nil
      op_enum_new op_enum_tag op_enum_get op_bytes_new op_bytes_len op_bytes_eq op_bytes_get_u8 op_bytes_set_u8
      op_bytes_concat2 op_bytes_concat_many op_bytes_bitwise2 op_bytes_bitand2 op_bytes_bitor2 op_bytes_bitxor2
      DEF_BYTES_READ_U16 DEF_BYTES_READ_U32 DEF_BYTES_WRITE_U16 DEF_BYTES_WRITE_U32 op_bytes_read_u16_le
      op_bytes_read_u16_be op_bytes_read_u32_le op_bytes_read_u32_be op_bytes_read_i32_le op_bytes_read_i32_be
      op_bytes_read_f32_le op_bytes_read_f32_be op_bytes_write_u16_le op_bytes_write_u16_be op_bytes_write_u32_le
      op_bytes_write_u32_be op_bytes_write_i32_le op_bytes_write_i32_be op_bytes_write_f32_le
      op_bytes_write_f32_be op_obj_new op_obj_has_atom op_obj_get_atom op_obj_set_atom op_obj_get op_obj_set
      op_obj_has op_obj_remove op_obj_clear op_obj_copy op_obj_keys with_bytes to_i32_checked to_i64_checked
      array_get_with array_set_with vm_obj_get_atom_typed vm_obj_set_atom_typed return_boxed return_exports
      return_native push_call tail_call callee_of ctx_frame frame_fun call_site callee_object f64_elements
  ];
  unfold_access.

Ltac touch_side :=
  solve [ assumption | by apply touch_box | by apply touch_store_boxed | by apply touch_numbox_store
    | by apply touch_box_for_store | by apply touch_store_same_kind | by apply touch_chain_get
    | by apply touch_set_in_slot | by apply touch_raw_caps | by apply touch_box_args | by apply touch_box_fields
    | by apply t_copy_to; eapply slot_intro ].

Hypothesis Hexports : forall i, cx_exports ctx = Some i -> i < f_nregs f -> reg_exists m f i.

(** The types a return compares give the kind of its register. *)
Lemma ret_kind r tid k : f_reg_types f @! r = Some tid -> te_kind <$> m_types m @! tid = Some k -> vm_reg_kind m f r = Some k.
Proof. unfold vm_reg_kind. by intros ->. Qed.

Lemma f64_register r (b : bool) : bool_decide (vm_reg_kind m f r = Some JELLO_T_F64) && b = true -> P r 8.
Proof.
  intros [H%bool_decide_eq_true _]%andb_true_iff. by eapply slot_intro.
Qed.

Lemma touch_dispatch o (slot : Z -> Z) :
  op_of_code (i_op ins) = Some o -> Forall reg_access (accesses slot o ins) ->
  (o = JOP_MOV -> forall k, vm_reg_kind m f (i_a ins) = Some k -> slot (i_a ins) = jello_slot_size k) ->
  T (fun rf => op_dispatch malloc m maddr nan32 nan64 junk nan16 native jdll_prim (with_rf ctx rf) ins).
Proof.
  intros Ho Ha Hmov. unfold op_dispatch. rewrite Ho.
  destruct o; cbn [accesses] in Ha; repeat (apply Forall_cons in Ha as [? Ha]); cbn [reg_access] in *;
    try apply range_access in Ha.
  all: unfold_op; repeat touch1; try touch_side.
  - bool_hyps. apply touch_box. eapply Hexports; [done | lia].
  - apply t_copy_to. eapply slot_intro; [by eapply ret_kind | done].
  - destruct H as (k & Hk & E), H0 as (k' & Hk' & E'). rewrite (Hmov eq_refl k Hk) in E'.
    assert (a = k) as -> by congruence. apply t_copy; by eapply slot_intro.
  - destruct (i_c ins =? 1); [|done]. by apply Forall_cons in Ha as [? _]; apply touch_box.
  - by eapply f64_register.
  - by eapply f64_register.
Qed.

Lemma call_args_exist o (slot : Z -> Z) r :
  Forall reg_access (accesses slot o ins) -> r ∈ call_args o ins -> reg_exists m f r.
Proof.
  assert (Hrange : forall first n, Forall reg_access (reg_range first n) ->
    r ∈ (fun i => first + Z.of_nat i) <$> seq 0 (Z.to_nat n) -> reg_exists m f r).
  { intros first n H%range_access (i & -> & Hi%elem_of_seq)%list_elem_of_fmap. apply H. lia. }
  intros Ha Hr. destruct o; try by apply elem_of_nil in Hr.
  all: cbn [accesses call_args] in Ha, Hr; repeat (apply Forall_cons in Ha as [_ Ha]); by eapply Hrange.
Qed.
End Dispatch.

(** ** What the checker allows *)

Section Accepted.
Context (junk_type : jello_type_entry) (junk_tid : Z) (m : jello_bc_module) (f : jello_bc_function).
Hypothesis Htw : tables_wf m (f_reg_types f) (f_nregs f).

Abbreviation slot := (fun r => slot_size junk_type m (reg_type junk_tid (f_reg_types f) r)).

Lemma slot_reg_kind r : 0 <= r < f_nregs f -> exists k, vm_reg_kind m f r = Some k /\ jello_slot_size k = slot r.
Proof.
  intros Hr. rewrite (tw_regs _ _ _ Htw) in Hr. destruct (znth_in_range _ _ Hr) as [t Ht].
  pose proof (znth_Forall _ _ _ _ (tw_reg_types _ _ _ Htw) Ht) as Hb. cbv beta in Hb.
  rewrite (tw_types _ _ _ Htw) in Hb. destruct (znth_in_range _ _ Hb) as [te Hte].
  exists (te_kind te). unfold vm_reg_kind, slot_size, type_at, reg_type.
  by rewrite Ht, (zget_Some _ _ _ _ Ht), Hte, (zget_Some _ _ _ _ Hte).
Qed.

Lemma access_ok_reg x : access_ok (f_nregs f) slot x ->
  match x with Width r n => slot_of m f r n | Slot r => reg_exists m f r end.
Proof.
  destruct x as [r n|r]; cbn [access_ok]; [intros [Hr <-] | intros Hr]; destruct (slot_reg_kind r Hr) as (k & Hk & E);
    [by exists k | by exists k].
Qed.
End Accepted.

(** C2: the checker makes the frame memory-safe: when it accepts an instruction, the
    handler uses its register frame only to load, store and copy whole slots of registers
    of the function, and the registers the arguments of a call are copied from exist.
    What a native builtin or a library primitive does with the frame it is handed is not
    the checker's and not covered. *)
Theorem handler_accesses malloc maddr nan32 nan64 junk nan16 native jdll_prim junk_type junk_tid m ctx ins pc nfuncs :
  tables_wf m (f_reg_types (cx_f ctx)) (f_nregs (cx_f ctx)) -> insn_wf ins -> f_nregs (cx_f ctx) <= 256 ->
  is_ok (jello_bc_validate_insn junk_type junk_tid m (f_reg_types (cx_f ctx)) ins (f_nregs (cx_f ctx)) pc
    (f_ninsns (cx_f ctx)) nfuncs) = true ->
  (forall i, cx_exports ctx = Some i -> 0 <= i) ->
  touches native jdll_prim (slot_of m (cx_f ctx)) op_result
    (fun rf => op_dispatch malloc m maddr nan32 nan64 junk nan16 native jdll_prim (with_rf ctx rf) ins) /\
  (forall o r, op_of_code (i_op ins) = Some o -> r ∈ call_args o ins -> reg_exists m (cx_f ctx) r).
Proof.
  intros Htw Hwf Hn Hok Hex. destruct (accepted_opcode _ _ _ _ _ _ _ _ _ Hok) as [o Ho].
  pose proof (insn_accesses_ok _ _ _ _ _ _ _ _ _ _ Hwf Hn Ho Hok) as Ha. cbv zeta in Ha.
  assert (Ha' : Forall (reg_access m ctx)
    (accesses (fun r => slot_size junk_type m (reg_type junk_tid (f_reg_types (cx_f ctx)) r)) o ins)).
  { eapply Forall_impl; [exact Ha|]. intros x. by apply access_ok_reg. }
  split; [|intros o' r Ho' Hr; assert (o' = o) as -> by congruence; by eapply call_args_exist].
  eapply touch_dispatch; [|exact Ho | exact Ha' |].
  - intros i Hi Hlt. destruct (slot_reg_kind junk_type junk_tid m (cx_f ctx) Htw i) as (k & Hk & _); [|by exists k].
    specialize (Hex i Hi). lia.
  - intros -> k Hk. apply Forall_cons in Ha as [[Hr _] _].
    destruct (slot_reg_kind junk_type junk_tid m (cx_f ctx) Htw (i_a ins) Hr) as (k' & Hk' & <-). congruence.
Qed.

(** A tail call of function 0 with the argument in [r1], through [r0]. *)
Definition acc_module : jello_bc_module :=
  mk_module 1 0 2 [mk_type_entry JELLO_T_I32 0; mk_type_entry JELLO_T_ARRAY 0] 0 [] 0 [] false 0 [] 0 [] 0 [] [] [] 1 [] 0 0 [].
Definition acc_insn : jello_insn := insn_of JOP_TAILCALL 0 1 1 0.
Definition acc_ctx : exec_ctx :=
  mk_ctx (mk_function 3 0 [0; 1; 0] 1 [acc_insn] 0 [] 0) 0 (mk_rf None [] 0 0 true) None.

Lemma handler_accesses_witness :
  touches (fun _ _ _ _ => mret ()) (fun _ _ _ _ => mret true) (slot_of acc_module (cx_f acc_ctx)) op_result
    (fun rf => op_dispatch (fun _ _ => None) acc_module 8 0 0 0 (fun _ => 0) (fun _ _ _ _ => mret ())
      (fun _ _ _ _ => mret true) (with_rf acc_ctx rf) acc_insn) /\
  (forall o r, op_of_code (i_op acc_insn) = Some o -> r ∈ call_args o acc_insn -> reg_exists acc_module (cx_f acc_ctx) r).
Proof.
  apply (handler_accesses _ _ _ _ _ _ _ _ (mk_type_entry JELLO_T_BOOL 0) 0 _ _ _ 0 1); [|by vm_compute | done | by vm_compute | done].
  split; [done | done | |]; repeat constructor; vm_compute; done.
Defined.

