(* ===== verification/CallFacts.v ===== *)
(** * Lemmas on the frame stack *)

From S2P Require Import Prelude CInt Memory Bytecode Value Object Heap Vm Frame FrameFacts Float Gc Box Call.

(** ** Memories that agree below an address *)

Definition agree_below (n : Z) (mem mem' : list Z) : Prop :=
  zlen mem <= zlen mem' /\ forall i, i < n -> mem' @! i = mem @! i.

Lemma agree_below_refl n mem : agree_below n mem mem.
Proof. by split. Qed.

Lemma agree_below_trans n m1 m2 m3 : agree_below n m1 m2 -> agree_below n m2 m3 -> agree_below n m1 m3.
Proof. intros [H1 H2] [H3 H4]. split; [lia|]. intros i Hi. by rewrite H4, H2. Qed.

Lemma agree_below_le n n' mem mem' : n <= n' -> agree_below n' mem mem' -> agree_below n mem mem'.
Proof. intros Hn [H1 H2]. split; [done|]. intros i Hi. apply H2. lia. Qed.

Lemma agree_below_load n mem mem' k a :
  agree_below n mem mem' -> 0 <= a -> a + Z.of_nat k <= n -> n <= zlen mem ->
  mem_load k mem' a = mem_load k mem a.
Proof.
  intros [H1 H2] Ha Hk Hn. unfold mem_load. f_equal. apply block_read_ext; try lia.
  intros i Hi. apply H2. lia.
Qed.

Lemma block_write_agree mem o l mem' : block_write mem o l = Some mem' -> agree_below o mem mem'.
Proof.
  intros H. split; [rewrite (zlen_block_write _ _ _ _ H); lia|].
  intros i Hi. rewrite (block_write_nth _ _ _ _ _ H). by rewrite decide_False by lia.
Qed.

(** The registers of a frame that lies below [n] keep their contents. *)
Lemma reg_at_agree n mem mem' rf ks r :
  rf_ok mem rf ks -> agree_below n mem mem' -> n <= zlen mem ->
  (forall base, rf_mem rf = Some base -> base + rf_total rf <= n) ->
  reg_at mem' rf ks r = reg_at mem rf ks r.
Proof.
  intros Hrf Ha Hn Hb. unfold reg_at.
  destruct (ks @! r) as [k|] eqn:Hk; [|done].
  destruct (rf_slot _ _ _ _ _ Hrf Hk) as (a & Hp & H0 & _). rewrite Hp.
  rewrite (agree_below_load n mem mem'); [done | done | done | | done].
  rewrite width_of_slot. destruct Hrf as [_ HL _].
  unfold vm_reg_ptr in Hp. destruct (rf_mem rf) as [base|] eqn:Em; [|done].
  destruct (rf_off rf @! r) as [o|] eqn:Eo; [|done]. injection Hp as <-.
  destruct (lo_slot _ _ _ HL r k o Hk Eo) as (_ & H1 & _). specialize (Hb base eq_refl). lia.
Qed.

Lemma rf_ok_agree mem mem' rf ks : zlen mem <= zlen mem' -> rf_ok mem rf ks -> rf_ok mem' rf ks.
Proof.
  intros Hz [H1 H2 H3]. constructor; [done | done|]. intros r Hr.
  destruct (H3 r Hr) as (b & ? & ? & ?). exists b. split_and!; [done | done | lia].
Qed.

(** ** Growing the stack *)

(** The capacities the stack goes through: 64 KiB times powers of four. *)
Definition cap_ok (cap : Z) : Prop := cap = 0 \/ exists j, 0 <= j <= 7 /\ cap = 2 ^ (16 + 2 * j).

Lemma cap_step j : 0 <= j < 7 -> u32 (2 ^ (16 + 2 * j) * 4) = 2 ^ (16 + 2 * (j + 1)).
Proof.
  intros Hj. replace (16 + 2 * (j + 1)) with (16 + 2 * j + 2) by lia. rewrite (Z.pow_add_r 2 (16 + 2 * j) 2) by lia.
  change (2 ^ 2) with 4. apply wrapU_id.
  assert (2 ^ (16 + 2 * j) <= 2 ^ 28) by (apply Z.pow_le_mono_r; lia).
  assert (0 < 2 ^ (16 + 2 * j)) by (apply Z.pow_pos_nonneg; lia). unfold is_u. lia.
Qed.

Lemma grow_cap_spec fuel j need :
  0 <= j <= 7 -> 7 - j <= Z.of_nat fuel -> need <= 2 ^ 30 ->
  exists j', 0 <= j' <= 7 /\ j <= j' /\ grow_cap fuel (2 ^ (16 + 2 * j)) need = Some (2 ^ (16 + 2 * j')) /\
    need <= 2 ^ (16 + 2 * j').
Proof.
  revert j. induction fuel as [|fuel IH]; intros j Hj Hf Hn.
  - assert (j = 7) as -> by lia. exists 7. cbn [grow_cap]. change (2 ^ (16 + 2 * 7)) with (2 ^ 30).
    rewrite (proj2 (Z.leb_le _ _) Hn). split_and!; [lia | lia | lia | done | done].
  - cbn [grow_cap]. case_if; bool_hyps.
    + exists j. split_and!; [lia | lia | lia | done | done].
    + assert (j <> 7) by (intros ->; change (2 ^ (16 + 2 * 7)) with (2 ^ 30) in *; lia).
      rewrite cap_step by lia.
      destruct (IH (j + 1)) as (j' & ? & ? & ? & ?); [lia | lia | done|].
      exists j'. split_and!; [lia | lia | lia | done | done].
Qed.

(** The state with another stack memory and top. *)
Definition with_mem (mem : list Z) (vm : jello_vm) : jello_vm :=
  set_stack (set_mem mem (v_stack vm)) vm.

Lemma zlen_take_le {A} (l : list A) n : 0 <= n -> zlen (take (Z.to_nat n) l) = Z.min n (zlen l).
Proof. intros. unfold zlen. rewrite length_take. lia. Qed.

Section bump.
Context (junk : Z).

Lemma bump_spec vm sz :
  let s := v_stack vm in
  cap_ok (zlen (frame_stack s)) -> 0 <= frame_stack_top s <= zlen (frame_stack s) ->
  0 < sz -> frame_stack_top s + sz <= 2 ^ 30 ->
  exists mem, vm_frame_stack_bump junk sz vm =
  Ret (Some (frame_stack_top s)) (set_stack (set_top (frame_stack_top s + sz) (set_mem mem s)) vm) /\
  cap_ok (zlen mem) /\ frame_stack_top s + sz <= zlen mem /\
  agree_below (zlen (frame_stack s)) (frame_stack s) mem.
Proof.
  intros s Hcap Htop Hsz Hmax. unfold vm_frame_stack_bump.
  destruct (Z.eqb_spec sz 0); [lia|]. unfold mbind, M_bind, get_stack. cbn beta iota. fold s.
  assert (Hu : u32 (frame_stack_top s + sz) = frame_stack_top s + sz) by (apply wrapU_id; unfold is_u; lia).
  rewrite Hu. destruct (Z.ltb_spec (zlen (frame_stack s)) (frame_stack_top s + sz)) as [Hlt|Hge].
  - unfold vm_frame_stack_grow, mbind, M_bind, get_stack. cbn beta iota. fold s. rewrite Hu.
    destruct (Z.leb_spec (frame_stack_top s + sz) (zlen (frame_stack s))); [lia|].
    assert (exists new_cap, grow_cap 16 (if zlen (frame_stack s) =? 0 then FRAME_STACK_INITIAL
        else u32 (zlen (frame_stack s) * 4)) (frame_stack_top s + sz) = Some new_cap /\ cap_ok new_cap /\
        frame_stack_top s + sz <= new_cap) as (nc & Hg & Hnc & Hle).
    { destruct Hcap as [-> | (j & Hj & Ej)].
      - destruct (grow_cap_spec 16 0 (frame_stack_top s + sz)) as (j' & ? & ? & E & ?); [lia | lia | lia|].
        exists (2 ^ (16 + 2 * j')). split_and!; [exact E | right; eauto | done].
      - assert (0 < 2 ^ (16 + 2 * j)) by (apply Z.pow_pos_nonneg; lia). rewrite Ej.
        destruct (Z.eqb_spec (2 ^ (16 + 2 * j)) 0); [lia|].
        assert (j <> 7) by (intros ->; change (2 ^ (16 + 2 * 7)) with (2 ^ 30) in *; lia).
        rewrite cap_step by lia.
        destruct (grow_cap_spec 16 (j + 1) (frame_stack_top s + sz)) as (j' & ? & ? & E & ?); [lia | lia | lia|].
        exists (2 ^ (16 + 2 * j')). split_and!; [exact E | right; eauto | done]. }
    rewrite Hg. cbn beta iota. unfold must, put_stack. cbn.
    assert (Htake : take (Z.to_nat nc) (frame_stack s) = frame_stack s)
      by (apply take_ge; unfold zlen in *; lia).
    rewrite Htake, Hu. eexists. split; [reflexivity|].
    assert (Hz : zlen (frame_stack s ++ replicate (Z.to_nat (nc - zlen (frame_stack s))) junk) = nc).
    { rewrite zlen_app, zlen_replicate by lia. lia. }
    rewrite Hz. split; [done|]. split; [done|]. split; [rewrite Hz; lia|].
    intros i Hi. by rewrite znth_app_l.
  - exists (frame_stack s). unfold mret, M_ret, put_stack. cbn.
    fold s. rewrite Hu. assert (set_mem (frame_stack s) s = s) as -> by (generalize s; by intros []).
    split; [done|]. split; [done|]. split; [lia | apply agree_below_refl].
Qed.
End bump.

(** ** Copying registers into a new frame *)

(** [vm'] differs from [vm] in stack memory from [base] on only. *)
Definition writes_above (base : Z) (vm vm' : jello_vm) : Prop :=
  exists mem, vm' = with_mem mem vm /\ zlen mem = zlen (frame_stack (v_stack vm)) /\
    agree_below base (frame_stack (v_stack vm)) mem.

Lemma writes_above_refl base vm : writes_above base vm vm.
Proof.
  exists (frame_stack (v_stack vm)). split; [by destruct vm as [[] ? ? ? ? ?]|].
  split; [done | apply agree_below_refl].
Qed.

Lemma writes_above_trans base vm1 vm2 vm3 :
  writes_above base vm1 vm2 -> writes_above base vm2 vm3 -> writes_above base vm1 vm3.
Proof.
  intros (m2 & -> & Z2 & A2) (m3 & -> & Z3 & A3). exists m3.
  split; [by destruct vm1 as [[] ? ? ? ? ?]|]. cbn in *. split; [lia|]. by eapply agree_below_trans.
Qed.

Lemma writes_above_le base base' vm vm' :
  base <= base' -> writes_above base' vm vm' -> writes_above base vm vm'.
Proof. intros Hb (mem & ? & ? & ?). exists mem. split_and!; [done | done|]. by eapply agree_below_le. Qed.

Lemma block_writes_above base o l mem' vm :
  base <= o -> block_write (frame_stack (v_stack vm)) o l = Some mem' ->
  writes_above base vm (with_mem mem' vm).
Proof.
  intros Hb H. exists mem'. split; [done|]. split; [by eapply zlen_block_write|].
  eapply agree_below_le; [done | by eapply block_write_agree].
Qed.

(** A frame below [base] in the state is untouched. *)
Definition frame_below (base : Z) (rf : reg_frame) (vm : jello_vm) : Prop :=
  base <= zlen (frame_stack (v_stack vm)) /\
  forall b, rf_mem rf = Some b -> b + rf_total rf <= base.

Lemma frame_of_writes m f rf ks base vm vm' :
  frame_of m f rf ks vm -> writes_above base vm vm' -> frame_of m f rf ks vm'.
Proof.
  intros [H1 H2] (mem & -> & Hz & _). split; [|done]. eapply rf_ok_agree; [|done]. cbn. lia.
Qed.

Lemma reg_writes m f rf ks r base vm vm' :
  frame_of m f rf ks vm -> frame_below base rf vm -> writes_above base vm vm' ->
  reg rf ks r vm' = reg rf ks r vm.
Proof.
  intros [H1 _] [Hb1 Hb2] (mem & -> & Hz & Ha). unfold reg. cbn. by eapply reg_at_agree.
Qed.

Lemma frame_below_writes base rf vm vm' :
  frame_below base rf vm -> writes_above base vm vm' -> frame_below base rf vm'.
Proof. intros [H1 H2] (mem & -> & Hz & _). split; [cbn; lia | done]. Qed.

Section copy.
Context (m : jello_bc_module).

Lemma slot_addr f rf ks r k vm base :
  frame_of m f rf ks vm -> rf_mem rf = Some base -> ks @! r = Some k ->
  exists a, vm_reg_ptr rf r = Some a /\ base <= a /\ 0 <= a /\
  a + jello_slot_size k <= zlen (frame_stack (v_stack vm)).
Proof.
  intros [Hrf _] Hb Hk. destruct (rf_slot _ _ _ _ _ Hrf Hk) as (a & Ha & H0 & H1).
  exists a. split_and!; try done. destruct Hrf as [_ HL _]. unfold vm_reg_ptr in Ha.
  rewrite Hb in Ha. destruct (rf_off rf @! r) as [o|] eqn:Eo; [|done]. injection Ha as <-.
  destruct (lo_slot _ _ _ HL r k o Hk Eo). lia.
Qed.

Lemma copy_slot_spec f1 rf1 ks1 f2 rf2 ks2 r1 r2 k1 k2 base vm :
  frame_of m f1 rf1 ks1 vm -> frame_of m f2 rf2 ks2 vm -> rf_mem rf2 = Some base ->
  ks1 @! r1 = Some k1 -> ks2 @! r2 = Some k2 -> jello_slot_size k1 = jello_slot_size k2 ->
  wp (copy_slot rf1 r1 rf2 r2 (jello_slot_size k2)) vm (fun _ vm' =>
    writes_above base vm vm' /\ reg rf2 ks2 r2 vm' = reg rf1 ks1 r1 vm /\
    forall r, r <> r2 -> reg rf2 ks2 r vm' = reg rf2 ks2 r vm).
Proof.
  intros H1 H2 Hb K1 K2 Hsz. pose proof (slot_size_4_8 k2) as S2.
  destruct (rf_slot _ _ _ _ _ (proj1 H1) K1) as (a1 & P1 & A1 & B1).
  destruct (slot_addr _ _ _ _ _ _ _ H2 Hb K2) as (a2 & P2 & C2 & A2 & B2).
  set (mem := frame_stack (v_stack vm)) in *.
  destruct (block_read_is_Some mem a1 (jello_slot_size k2)) as (l & El & Zl); [lia.. |].
  assert (exists mem', block_write mem a2 l = Some mem') as [mem' Ew]
    by (eexists; apply block_write_Some; lia).
  eapply wp_run; [by rewrite P1|]. eapply wp_run; [by rewrite P2|].
  unfold copy_bytes. eapply wp_run; [done|]. eapply wp_run; [fold mem; by rewrite El|].
  eapply wp_run; [fold mem; by rewrite Ew|]. unfold wp, put_stack. cbn beta iota.
  split; [|split].
  - by apply (block_writes_above base a2 l).
  - unfold reg, reg_at. rewrite K1, K2, P1, P2. cbn [with_mem v_stack set_stack set_mem frame_stack].
    fold mem. unfold mem_load. rewrite !width_of_slot, Hsz, El.
    rewrite <- Zl, (block_read_write_same _ _ _ _ Ew). done.
  - intros r Hr. unfold reg, reg_at. cbn [with_mem v_stack set_stack set_mem frame_stack]. fold mem.
    destruct (ks2 @! r) as [k|] eqn:K; [|done].
    destruct (vm_reg_ptr rf2 r) as [a|] eqn:P; [|done]. unfold mem_load. f_equal. f_equal.
    rewrite width_of_slot. eapply block_read_write_other; [done | destruct (slot_size_4_8 k); lia|].
    destruct (rf_slots_disjoint _ _ _ r r2 k k2 a a2 (proj1 H2) Hr K K2 P P2); lia.
Qed.

Lemma copy_args_spec f1 rf1 ks1 f2 rf2 ks2 first n base vm :
  frame_of m f1 rf1 ks1 vm -> frame_of m f2 rf2 ks2 vm -> rf_mem rf2 = Some base ->
  frame_below base rf1 vm -> 0 <= n ->
  (forall i, 0 <= i < n -> exists k1 k2, ks1 @! (first + i) = Some k1 /\ ks2 @! i = Some k2 /\
    jello_slot_size k1 = jello_slot_size k2) ->
  wp (copy_args m rf1 first f2 rf2 n) vm (fun _ vm' =>
    writes_above base vm vm' /\
    (forall i, 0 <= i < n -> reg rf2 ks2 i vm' = reg rf1 ks1 (first + i) vm) /\
    (forall r, n <= r -> reg rf2 ks2 r vm' = reg rf2 ks2 r vm)).
Proof.
  intros H1 H2 Hb Hbelow Hn Hk. unfold copy_args.
  apply (wp_mfor (fun i vm' => writes_above base vm vm' /\
      (forall j, 0 <= j < i -> reg rf2 ks2 j vm' = reg rf1 ks1 (first + j) vm) /\
      (forall r, i <= r -> reg rf2 ks2 r vm' = reg rf2 ks2 r vm))).
  - split; [apply writes_above_refl|]. split; [lia | done].
  - intros i vm' Hi (HW & HA & HR). destruct (Hk i) as (k1 & k2 & K1 & K2 & Hs); [lia|].
    eapply wp_run; [unfold kind_of_reg; by rewrite (proj2 H2 i k2 K2)|].
    eapply wp_mono; [eapply (copy_slot_spec f1 rf1 ks1 f2 rf2 ks2 (first + i) i k1 k2 base);
        [by eapply frame_of_writes | by eapply frame_of_writes | done..]|].
    cbn. intros _ vm2 (HW2 & HE & HO). split; [by eapply writes_above_trans|]. split.
    + intros j Hj. destruct (decide (j = i)) as [->|Hne].
      * rewrite HE. by eapply reg_writes.
      * rewrite HO by done. apply HA. lia.
    + intros r Hr. rewrite HO by lia. apply HR. lia.
  - intros vm' (HW & HA & HR). split; [done|].
    split; intros; [apply HA | apply HR]; lia.
Qed.

(** ** Clearing a new frame *)

Lemma le_value_zeros n : le_value (replicate n 0) = 0.
Proof. induction n; [done|]. cbn [replicate le_value]. by rewrite IHn. Qed.

Lemma mem_load_zeros k mem o n mem' a :
  block_write mem o (replicate (Z.to_nat n) 0) = Some mem' -> 0 <= n ->
  o <= a -> a + Z.of_nat k <= o + n -> mem_load k mem' a = Some 0.
Proof.
  intros Hw Hn Ha Hb. pose proof (zlen_block_write _ _ _ _ Hw) as Hz.
  pose proof (block_write_inv _ _ _ _ Hw) as (H0 & H1 & _). rewrite zlen_replicate in H1 by done.
  destruct (block_read_is_Some mem' a (Z.of_nat k)) as (l & El & Zl); [lia.. |].
  unfold mem_load. rewrite El. cbn. f_equal.
  assert (l = replicate k 0) as ->; [|apply le_value_zeros].
  apply znth_ext. intros i. destruct (decide (0 <= i < Z.of_nat k)).
  - rewrite (block_read_nth _ _ _ _ _ El) by done. rewrite (block_write_nth _ _ _ _ _ Hw).
    rewrite zlen_replicate by done. rewrite decide_True by lia. rewrite znth_replicate by lia.
    rewrite <- (Nat2Z.id k). by rewrite znth_replicate.
  - rewrite (proj2 (znth_None l i)) by lia. symmetry. apply znth_None.
    unfold zlen. rewrite length_replicate. lia.
Qed.

(** The contents of a fresh register: the tagged null, or zero. *)
Definition initial_reg (k : jello_type_kind) : Z :=
  if kind_eqb k JELLO_T_DYNAMIC then jello_make_null else 0.

Lemma init_frame_mem_spec f rf ks base vm :
  frame_of m f rf ks vm -> rf_mem rf = Some base -> 0 <= base ->
  base + rf_total rf <= zlen (frame_stack (v_stack vm)) -> 0 < rf_total rf ->
  wp (init_frame_mem m f rf true) vm (fun _ vm' =>
    writes_above base vm vm' /\
    forall r k, ks @! r = Some k -> reg rf ks r vm' = initial_reg k).
Proof.
  intros HF Hb H0 Ht Hpos. unfold init_frame_mem. rewrite Hb.
  rewrite (proj2 (Z.eqb_neq _ _)) by lia. cbn [negb andb].
  set (mem := frame_stack (v_stack vm)) in *.
  assert (exists mem', block_write mem base (replicate (Z.to_nat (rf_total rf)) 0) = Some mem')
    as [mem' Ew] by (eexists; apply block_write_Some; [done | rewrite zlen_replicate; lia]).
  eapply wp_run; [done|]. eapply wp_run; [fold mem; by rewrite Ew|]. eapply wp_run; [done|].
  fold (with_mem mem' vm). pose proof (block_writes_above base base _ _ vm ltac:(lia) Ew) as HW0.
  assert (HF' : frame_of m f rf ks (with_mem mem' vm)) by by eapply frame_of_writes.
  rewrite (ro_nregs _ _ _ (proj1 HF)).
  apply (wp_mfor (fun i vm' => writes_above base vm vm' /\
      forall r k, ks @! r = Some k -> reg rf ks r vm' = if r <? i then initial_reg k else 0)).
  - split; [done|]. intros r k Hk. pose proof (znth_Some _ _ _ Hk).
    destruct (Z.ltb_spec r 0); [lia|]. unfold reg, reg_at. rewrite Hk.
    destruct (slot_addr _ _ _ _ _ _ _ HF' Hb Hk) as (a & Ha & Hba & _). rewrite Ha.
    change (frame_stack (v_stack (with_mem mem' vm))) with mem'.
    rewrite (mem_load_zeros (width_of k) _ _ _ _ a Ew); [done | lia | done|].
    rewrite width_of_slot. destruct HF as [[_ HL _] _]. unfold vm_reg_ptr in Ha. rewrite Hb in Ha.
    destruct (rf_off rf @! r) as [o|] eqn:Eo; [|done]. injection Ha as <-.
    destruct (lo_slot _ _ _ HL r k o Hk Eo). lia.
  - intros i vm' Hi (HW & HR).
    destruct (znth_in_range ks i) as [k Hk]; [lia|].
    eapply wp_run; [unfold kind_of_reg; by rewrite (proj2 HF i k Hk)|].
    assert (HFi : frame_of m f rf ks vm') by exact (frame_of_writes _ _ _ _ _ _ _ HF HW).
    destruct (kind_eqb k JELLO_T_DYNAMIC) eqn:Ek.
    + apply kind_eqb_eq in Ek as ->.
      destruct (store_reg_spec vm' rf ks (proj1 HFi) 8 i JELLO_T_DYNAMIC jello_make_null Hk eq_refl)
        as (mem2 & E & _ & Hz & Hreg & Hoth).
      unfold wp, vm_store_val. rewrite E. split.
      * eapply writes_above_trans; [done|]. eexists. split; [reflexivity|]. split; [done|].
        unfold store_reg in E. destruct (slot_addr _ _ _ _ _ _ _ HFi Hb Hk) as (a & Ha & Hba & _).
        unfold mbind, M_bind, get_stack, must, put_stack in E. rewrite Ha in E.
        destruct (mem_store 8 _ a jello_make_null) as [mem3|] eqn:Es; [|done].
        injection E as ->.
        eapply agree_below_le; [exact Hba | by eapply block_write_agree].
      * intros r k' Hk'. unfold reg. cbn [v_stack set_stack set_mem frame_stack].
        destruct (decide (r = i)) as [->|Hne].
        -- rewrite Hreg. rewrite Hk in Hk'. injection Hk' as <-.
          rewrite (proj2 (Z.ltb_lt i (i + 1))) by lia. done.
        -- rewrite Hoth by done. fold (reg rf ks r vm'). rewrite (HR r k' Hk').
          destruct (Z.ltb_spec r i), (Z.ltb_spec r (i + 1)); done || lia.
    + apply wp_ret. split; [done|]. intros r k' Hk'. rewrite (HR r k' Hk').
      destruct (Z.ltb_spec r i), (Z.ltb_spec r (i + 1)); try done; try lia.
      assert (r = i) as -> by lia. rewrite Hk in Hk'. injection Hk' as <-. unfold initial_reg. by rewrite Ek.
  - intros vm' (HW & HR). split; [done|]. intros r k Hk. rewrite (HR r k Hk).
    pose proof (znth_Some _ _ _ Hk). rewrite (proj2 (Z.ltb_lt _ _)) by lia. done.
Qed.
End copy.

(** ** Layouts of functions, and their cache *)

(** The kinds of the registers of a function. *)
Record function_regs (m : jello_bc_module) (f : jello_bc_function) (ks : list jello_type_kind)
    : Prop := {
  fr_len : zlen ks = f_nregs f;
  fr_kind : forall r k, ks @! r = Some k -> vm_reg_kind m f r = Some k;
  fr_max : f_nregs f <= 256
}.

Lemma function_regs_unique m f ks1 ks2 :
  function_regs m f ks1 -> function_regs m f ks2 -> ks1 = ks2.
Proof.
  intros [L1 K1 _] [L2 K2 _]. apply znth_ext. intros r.
  destruct (ks1 @! r) as [k1|] eqn:E1, (ks2 @! r) as [k2|] eqn:E2.
  - pose proof (K1 _ _ E1). pose proof (K2 _ _ E2). congruence.
  - apply znth_None in E2. apply znth_Some in E1. lia.
  - apply znth_None in E1. apply znth_Some in E2. lia.
  - done.
Qed.

(** No slot ends beyond eight bytes per register. *)
Lemma slots_total_8 i start ks offs total :
  slots_from start ks offs total -> 0 <= i -> start <= 8 * i -> total <= 8 * (i + zlen ks).
Proof.
  revert i start offs. induction ks as [|k ks IH]; intros i start [|o offs]; cbn [slots_from]; try done.
  - intros -> ? ?. unfold zlen. cbn. lia.
  - intros (H1 & H2 & H3) Hi Hs. rewrite zlen_cons.
    replace (i + (zlen ks + 1)) with (i + 1 + zlen ks) by lia. eapply IH; [done | lia|].
    destruct (slot_size_4_8 k) as [E|E]; rewrite E in *; zdiv.
Qed.

Lemma compute_layout_spec m fi f ks :
  function_regs m f ks ->
  exists fl, compute_layout m fi f = Some fl /\ fl_nregs fl = zlen ks /\
    layout_ok ks (fl_off fl) (fl_total fl) /\ 0 <= fl_total fl <= 8 * zlen ks /\
    fl_has_pointer_or_dynamic fl = existsb is_pointer_or_dynamic ks.
Proof.
  intros [HL HK HM]. pose proof (zlen_nonneg ks).
  destruct (layout_loop_spec m f (Z.to_nat (f_nregs f)) 0 0 ks) as (offs & t & E & Hs).
  - split; [unfold zlen in *; lia|]. intros j k Hj. apply HK. by rewrite Z.add_0_l, znth_lookup.
  - lia.
  - lia.
  - pose proof (slots_total_8 0 0 ks offs t Hs ltac:(lia) ltac:(lia)) as Ht.
    pose proof (slots_layout_ok _ _ _ Hs) as HLo. pose proof (lo_total _ _ _ HLo).
    unfold compute_layout. rewrite E. cbn [mbind option_bind].
    destruct (jit_flags _ _ _ _) as [inel rec]. eexists. split; [done|]. cbn.
    rewrite (wrapU_id 32 t) by (unfold is_u; lia). split_and!; [lia | done | lia | lia | done].
Qed.

(** Every cached layout is the layout of its function. *)
Definition layouts_ok (m : jello_bc_module) (maddr : Z) (s : stack_state) : Prop :=
  frame_layouts_mod s = maddr ->
  zlen (frame_layouts s) = m_nfuncs m /\
  forall fi f fl, m_funcs m @! fi = Some f -> frame_layouts s @! fi = Some (Some fl) ->
    compute_layout m fi f = Some fl.

Lemma get_layout_spec m maddr fi f fl vm :
  m_nfuncs m = zlen (m_funcs m) -> m_funcs m @! fi = Some f -> compute_layout m fi f = Some fl ->
  layouts_ok m maddr (v_stack vm) ->
  exists l md, vm_get_frame_layout m maddr fi vm =
      Ret fl (set_stack (set_layouts l md (v_stack vm)) vm) /\
    layouts_ok m maddr (set_layouts l md (v_stack vm)).
Proof.
  intros Hn Hf Hfl Hok. pose proof (znth_Some _ _ _ Hf) as Hfi. unfold vm_get_frame_layout.
  unfold mbind, M_bind, get_stack, put_stack, panic_if, must. cbn beta iota.
  set (s := vm_prepare_frame_layouts m maddr (v_stack vm)).
  assert (Hs : frame_layouts_mod s = maddr /\ zlen (frame_layouts s) = m_nfuncs m /\
     (exists l md, s = set_layouts l md (v_stack vm)) /\
     forall fi f fl, m_funcs m @! fi = Some f -> frame_layouts s @! fi = Some (Some fl) ->
       compute_layout m fi f = Some fl).
  { subst s. unfold vm_prepare_frame_layouts. case_if; bool_hyps.
    - destruct (Hok Heqb) as [H1 H2]. split; [done|]. split; [done|]. split; [|done].
      exists (frame_layouts (v_stack vm)), (frame_layouts_mod (v_stack vm)).
      by destruct (v_stack vm).
    - cbn. split; [done|]. pose proof (zlen_nonneg (m_funcs m)).
      rewrite zlen_replicate by lia. split; [done|]. split; [by eexists _, _|].
      intros fi' f' fl' Hf'. apply znth_Some in Hf'. by rewrite znth_replicate by lia. }
  destruct Hs as (Hmd & Hz & (l & md & Es) & Hc). rewrite Hz, Z.eqb_refl. cbn [negb].
  rewrite (proj2 (Z.ltb_ge fi 0)), (proj2 (Z.leb_gt _ _)) by lia. cbn [orb].
  destruct (znth_in_range (frame_layouts s) fi) as [c Ec]; [lia|]. rewrite Ec.
  destruct c as [fl'|].
  - pose proof (Hc _ _ _ Hf Ec) as E. rewrite Hfl in E. injection E as <-.
    exists l, md. rewrite <- Es. split; [done|]. intros _. done.
  - rewrite Hf. rewrite Hfl. cbn.
    eexists _, _. split; [rewrite Es; reflexivity|].
    intros _. cbn. rewrite Es in Hz, Hc, Ec. cbn in Hz, Hc, Ec.
    rewrite zlen_zset. split; [done|]. intros fi' f' fl' Hf' Hl'.
    destruct (decide (fi = fi')) as [<-|Hne].
    + rewrite znth_zset_eq in Hl' by lia. injection Hl' as <-. rewrite Hf in Hf'. by injection Hf' as <-.
    + rewrite znth_zset_ne in Hl' by done. by eapply Hc.
Qed.
