(* ===== verification/CallThms.v ===== *)
(** * What a call guarantees

    The frames of a running program tile the frame stack; a call adds a frame
    above them that holds the arguments, and touches no register of another. *)

From S2P Require Import Prelude CInt Memory Bytecode Value Object Heap Vm Frame FrameFacts Float Gc Box Call CallFacts.

Section Tile.
Context (m : jello_bc_module).

(** A frame whose memory starts at [base]. *)
Definition frame_wf (mem : list Z) (base : Z) (fr : call_frame) : Prop :=
  exists f ks, m_funcs m @! (cf_f fr) = Some f /\ function_regs m f ks /\
  rf_ok mem (cf_rf fr) ks /\ 0 <= rf_total (cf_rf fr) <= 8 * zlen ks /\
  rf_mem (cf_rf fr) = (if rf_total (cf_rf fr) =? 0 then None else Some base) /\
  cf_has_pointer_or_dynamic fr = existsb is_pointer_or_dynamic ks.

(** The frames lie one above the other, from [base] to [top]. *)
Fixpoint tiled (mem : list Z) (base : Z) (frames : list call_frame) (top : Z) : Prop :=
  match frames with
  | [] => base = top
  | fr :: frs => frame_wf mem base fr /\ tiled mem (base + rf_total (cf_rf fr)) frs top
  end.

Record stack_wf (maddr : Z) (s : stack_state) : Prop := {
  sw_cap : cap_ok (zlen (frame_stack s));
  sw_top : 0 <= frame_stack_top s <= zlen (frame_stack s);
  sw_tiled : tiled (frame_stack s) 0 (call_frames s) (frame_stack_top s);
  sw_layouts : layouts_ok m maddr s
}.

Lemma tiled_app mem base frs1 frs2 top :
  tiled mem base (frs1 ++ frs2) top <->
  exists mid, tiled mem base frs1 mid /\ tiled mem mid frs2 top.
Proof.
  revert base. induction frs1 as [|fr frs IH]; intros base; cbn [app tiled].
  - split; [intros H; by exists base | by intros (? & -> & ?)].
  - rewrite IH. split.
    + intros (? & mid & ? & ?). by exists mid.
    + intros (mid & [? ?] & ?). split; [done|]. by exists mid.
Qed.

Lemma tiled_le mem base frs top : tiled mem base frs top -> base <= top.
Proof.
  revert base. induction frs as [|fr frs IH]; intros base; cbn [tiled]; [lia|].
  intros [(f & ks & _ & _ & _ & Ht & _) H%IH]. lia.
Qed.

(** Where a frame of a tiled stack lies. *)
Lemma tiled_frame mem base frs top fr :
  tiled mem base frs top -> fr ∈ frs ->
  exists b, frame_wf mem b fr /\ base <= b /\ b + rf_total (cf_rf fr) <= top.
Proof.
  intros H Hin. revert base H. induction Hin as [fr frs | fr fr' frs Hin IH]; intros base [Hf Ht].
  - exists base. split; [done|]. pose proof (tiled_le _ _ _ _ Ht). lia.
  - destruct (IH _ Ht) as (b & Hb & H1 & H2). exists b. destruct Hf as (? & ? & _ & _ & _ & ? & _).
    split; [done|]. lia.
Qed.

Lemma tiled_agree mem mem' base frs top :
  zlen mem <= zlen mem' -> tiled mem base frs top -> tiled mem' base frs top.
Proof.
  intros Hz. revert base. induction frs as [|fr frs IH]; intros base; cbn [tiled]; [done|].
  intros [(f & ks & H1 & H2 & H3 & H4 & H5 & H6) Ht]. split; [|by apply IH].
  exists f, ks. split_and!; try done; try lia. by eapply rf_ok_agree.
Qed.

(** The registers of a frame, whatever its function. *)
Definition regs_of (fr : call_frame) (ks : list jello_type_kind) (r : Z) (vm : jello_vm) : Z :=
  reg (cf_rf fr) ks r vm.

Definition frame_fun (fr : call_frame) (f : jello_bc_function) (ks : list jello_type_kind) : Prop :=
  m_funcs m @! (cf_f fr) = Some f /\ function_regs m f ks.

(** No register of a frame of [frs] differs between the two states. *)
Definition same_registers (frs : list call_frame) (vm vm' : jello_vm) : Prop :=
  forall fr f ks r, fr ∈ frs -> frame_fun fr f ks -> regs_of fr ks r vm' = regs_of fr ks r vm.

Lemma same_registers_agree maddr vm vm' :
  stack_wf maddr (v_stack vm) ->
  agree_below (frame_stack_top (v_stack vm)) (frame_stack (v_stack vm)) (frame_stack (v_stack vm')) ->
  same_registers (call_frames (v_stack vm)) vm vm'.
Proof.
  intros Hs Ha fr f ks r Hin [Hf Hk].
  destruct (tiled_frame _ _ _ _ _ (sw_tiled _ _ Hs) Hin) as (b & (f' & ks' & Hf' & Hk' & Hrf & Ht & Hb & _) & _ & Htop).
  rewrite Hf in Hf'. injection Hf' as <-. rewrite <- (function_regs_unique _ _ _ _ Hk Hk') in Hrf.
  unfold regs_of, reg. eapply reg_at_agree; [done | done | apply Hs|].
  intros base. rewrite Hb. case_if; [done|]. intros [= <-]. lia.
Qed.

Lemma frame_of_wf vm base fr f ks :
  frame_wf (frame_stack (v_stack vm)) base fr -> frame_fun fr f ks -> frame_of m f (cf_rf fr) ks vm.
Proof.
  intros (f' & ks' & H1 & H2 & H3 & _) [H4 H5]. rewrite H4 in H1. injection H1 as <-.
  rewrite <- (function_regs_unique _ _ _ _ H5 H2) in H3. split; [done|]. apply H5.
Qed.

(** ** The common part of a push *)

Context (maddr junk : Z).

Lemma bump_frame vm total :
  stack_wf maddr (v_stack vm) -> 0 <= total -> frame_stack_top (v_stack vm) + total <= 2 ^ 30 ->
  exists mem, vm_frame_stack_bump junk total vm =
  Ret (if total =? 0 then None else Some (frame_stack_top (v_stack vm)))
    (set_stack (set_top (frame_stack_top (v_stack vm) + total) (set_mem mem (v_stack vm))) vm) /\
  cap_ok (zlen mem) /\ frame_stack_top (v_stack vm) + total <= zlen mem /\
  agree_below (zlen (frame_stack (v_stack vm))) (frame_stack (v_stack vm)) mem.
Proof.
  intros Hs H0 Hm. destruct (Z.eqb_spec total 0) as [->|Hne].
  - exists (frame_stack (v_stack vm)). split_and!.
    + unfold vm_frame_stack_bump. cbn. rewrite Z.add_0_r. by destruct vm as [[] ? ? ? ? ?].
    + apply Hs.
    + pose proof (sw_top _ _ Hs). lia.
    + apply agree_below_refl.
  - apply bump_spec; [apply Hs | apply Hs | lia | done].
Qed.

(** The state after the memory is taken and the frame recorded. *)
Definition entered (vm : jello_vm) (mem : list Z) (fr : call_frame) : jello_vm :=
  set_stack (set_frames (call_frames (v_stack vm) ++ [fr])
      (set_top (frame_stack_top (v_stack vm) + rf_total (cf_rf fr)) (set_mem mem (v_stack vm)))) vm.

Lemma entered_wf vm mem fr vm' :
  stack_wf maddr (v_stack vm) ->
  cap_ok (zlen mem) -> frame_stack_top (v_stack vm) + rf_total (cf_rf fr) <= zlen mem ->
  agree_below (zlen (frame_stack (v_stack vm))) (frame_stack (v_stack vm)) mem ->
  frame_wf mem (frame_stack_top (v_stack vm)) fr ->
  writes_above (frame_stack_top (v_stack vm)) (entered vm mem fr) vm' ->
  stack_wf maddr (v_stack vm') /\ same_registers (call_frames (v_stack vm)) vm vm' /\
  call_frames (v_stack vm') = call_frames (v_stack vm) ++ [fr] /\
  v_exc vm' = v_exc vm /\ v_gc vm' = v_gc vm.
Proof.
  intros Hs Hcap Htop Ha Hfr (mem' & -> & Hz & Ha'). cbn in Hz, Ha'.
  pose proof (sw_top _ _ Hs) as Ht0.
  assert (H0t : 0 <= rf_total (cf_rf fr)) by (destruct Hfr as (? & ? & _ & _ & _ & ? & _); lia).
  assert (Hall : agree_below (frame_stack_top (v_stack vm)) (frame_stack (v_stack vm)) mem').
  { eapply agree_below_trans; [|exact Ha']. eapply agree_below_le; [|exact Ha]. lia. }
  split; [|split; [by eapply (same_registers_agree maddr vm) | done]].
  constructor; cbn.
  - by rewrite Hz.
  - lia.
  - apply tiled_app. exists (frame_stack_top (v_stack vm)). split.
    + eapply tiled_agree; [|apply Hs]. destruct Hall; lia.
    + cbn [tiled]. split; [|done]. destruct Hfr as (f & ks & H1 & H2 & H3 & H4 & H5 & H6).
      exists f, ks. split_and!; try done; try lia. eapply rf_ok_agree; [|done]. lia.
  - apply Hs.
Qed.

(** ** Fast arguments *)

Definition args_compatible (caller_f callee_f : jello_bc_function) (first nargs : Z) : Prop :=
  forall i, 0 <= i < nargs -> exists s d, f_reg_types caller_f @! (first + i) = Some s /\
  f_reg_types callee_f @! i = Some d /\ vm_arg_types_compatible m s d = true.

Lemma fast_args_loop_true caller_f callee_f first vm i n :
  0 <= i -> args_compatible caller_f callee_f first (i + Z.of_nat n) ->
  fast_args_loop m caller_f callee_f first 0 false i n vm = Ret true vm.
Proof.
  revert i. induction n as [|n IH]; intros i Hi Ha; cbn [fast_args_loop]; [done|].
  destruct (Ha i) as (s & d & H1 & H2 & H3); [lia|].
  unfold mbind, M_bind, must. rewrite H1, Z.add_0_l, H2, H3. cbn [negb].
  apply IH; [lia|]. by replace (i + 1 + Z.of_nat n) with (i + Z.of_nat (S n)) by lia.
Qed.

Lemma compatible_kinds caller_f callee_f first nargs ks1 ks2 i :
  function_regs m caller_f ks1 -> function_regs m callee_f ks2 ->
  args_compatible caller_f callee_f first nargs ->
  0 <= first -> first + nargs <= zlen ks1 -> nargs <= zlen ks2 -> 0 <= i < nargs ->
  exists k, ks1 @! (first + i) = Some k /\ ks2 @! i = Some k.
Proof.
  intros F1 F2 Ha Hf L1 L2 Hi.
  destruct (znth_in_range ks1 (first + i)) as [k1 E1]; [lia|].
  destruct (znth_in_range ks2 i) as [k2 E2]; [lia|].
  exists k1. split; [done|]. rewrite E2. f_equal.
  destruct (Ha i Hi) as (s & d & H1 & H2 & H3).
  pose proof (fr_kind _ _ _ F1 _ _ E1) as K1. pose proof (fr_kind _ _ _ F2 _ _ E2) as K2.
  unfold vm_reg_kind in K1, K2. rewrite H1 in K1. rewrite H2 in K2.
  unfold vm_arg_types_compatible in H3. destruct (Z.eqb_spec s d) as [->|]; [congruence|].
  destruct (_ || _)%bool; [done|]. apply bool_decide_eq_true_1 in H3. congruence.
Qed.

(** ** Pushing a frame *)

Context (malloc : gc_state -> Z -> option Z) (nan32 nan64 : Z).

(** What a call from [caller_fr] leaves. *)
Record call_result (vm : jello_vm) (caller_fr : call_frame) (ks_caller ks : list jello_type_kind)
    (callee caller_dst first nargs : Z) (vm' : jello_vm) (fr : call_frame) : Prop := {
    ca_wf : stack_wf maddr (v_stack vm');
    ca_frames : call_frames (v_stack vm') = call_frames (v_stack vm) ++ [fr];
    ca_fun : cf_f fr = callee /\ cf_pc fr = 0 /\ cf_caller_dst fr = caller_dst /\
    cf_has_caller fr = true /\ cf_exc_base fr = zlen (exc_handlers (v_exc vm));
    ca_args : forall i, 0 <= i < nargs ->
    regs_of fr ks i vm' = regs_of caller_fr ks_caller (first + i) vm;
    ca_init : existsb is_pointer_or_dynamic ks = true ->
    forall r k, nargs <= r -> ks @! r = Some k -> regs_of fr ks r vm' = initial_reg k;
    ca_others : same_registers (call_frames (v_stack vm)) vm vm';
    ca_rest : v_exc vm' = v_exc vm /\ v_gc vm' = v_gc vm
  }.

(** The frame record of a function with layout [fl] or of a caller of the same
    function. *)
Lemma new_frame_wf callee f ks mem top off total nregs b dst eb hc cap jd jr jo ja :
  m_funcs m @! callee = Some f -> function_regs m f ks -> layout_ok ks off total ->
  nregs = zlen ks -> 0 <= total <= 8 * zlen ks -> 0 <= top -> top + total <= zlen mem ->
  b = existsb is_pointer_or_dynamic ks ->
  frame_wf mem top (mk_frame callee (mk_rf (if total =? 0 then None else Some top) off nregs total true)
      0 dst eb hc cap b jd jr jo ja).
Proof.
  intros Hf Hk HL Hn Ht H0 Hm Hb. exists f, ks. cbn. split_and!; try done; try lia.
  constructor; cbn; [done | done|]. intros r Hr. destruct (Z.eqb_spec total 0) as [E|E].
  - destruct (znth_in_range ks r Hr) as [k Ek].
    destruct (znth_in_range off r) as [o Eo]; [rewrite (lo_len _ _ _ HL); lia|].
    destruct (lo_slot _ _ _ HL r k o Ek Eo). pose proof (slot_size_4_8 k). lia.
  - exists top. split_and!; [done | lia | lia].
Qed.

(** Frames taken from [vm] are found again in the state with one frame more. *)
Lemma caller_below vm mem fr caller_fr f ks :
  stack_wf maddr (v_stack vm) -> caller_fr ∈ call_frames (v_stack vm) ->
  frame_fun caller_fr f ks ->
  agree_below (zlen (frame_stack (v_stack vm))) (frame_stack (v_stack vm)) mem ->
  frame_of m f (cf_rf caller_fr) ks (entered vm mem fr) /\
  frame_below (frame_stack_top (v_stack vm)) (cf_rf caller_fr) (entered vm mem fr) /\
  forall r, regs_of caller_fr ks r (entered vm mem fr) = regs_of caller_fr ks r vm.
Proof.
  intros Hs Hin HF Ha. destruct (tiled_frame _ _ _ _ _ (sw_tiled _ _ Hs) Hin) as (b & Hw & H0 & Ht).
  pose proof (frame_of_wf vm b caller_fr f ks Hw HF) as Hof. pose proof (sw_top _ _ Hs).
  split; [|split].
  - split; [|apply Hof]. eapply rf_ok_agree; [|apply Hof]. apply Ha.
  - split; [cbn; destruct Ha; lia|]. intros b'. destruct Hw as (? & ? & _ & _ & _ & _ & Hb & _).
    rewrite Hb. case_if; [done|]. intros [= <-]. lia.
  - intros r. unfold regs_of, reg. cbn. eapply reg_at_agree; [apply Hof | exact Ha | lia |].
    intros b'. destruct Hw as (? & ? & _ & _ & _ & _ & Hb & _). rewrite Hb. case_if; [done|].
    intros [= <-]. lia.
Qed.

(** The copy of the arguments into a frame that was just entered. *)
Lemma enter_and_copy vm vm1 mem fr caller_fr caller_f ks1 callee_f ks2 first nargs :
  stack_wf maddr (v_stack vm) -> caller_fr ∈ call_frames (v_stack vm) ->
  frame_fun caller_fr caller_f ks1 -> frame_fun fr callee_f ks2 ->
  cap_ok (zlen mem) -> frame_stack_top (v_stack vm) + rf_total (cf_rf fr) <= zlen mem ->
  agree_below (zlen (frame_stack (v_stack vm))) (frame_stack (v_stack vm)) mem ->
  frame_wf mem (frame_stack_top (v_stack vm)) fr ->
  writes_above (frame_stack_top (v_stack vm)) (entered vm mem fr) vm1 ->
  args_compatible caller_f callee_f first nargs ->
  0 <= first -> first + nargs <= zlen ks1 -> 0 <= nargs <= zlen ks2 ->
  (existsb is_pointer_or_dynamic ks2 = true -> forall r k, ks2 @! r = Some k ->
    regs_of fr ks2 r vm1 = initial_reg k) ->
  cf_pc fr = 0 -> cf_has_caller fr = true -> cf_exc_base fr = zlen (exc_handlers (v_exc vm)) ->
  wp (copy_args m (cf_rf caller_fr) first callee_f (cf_rf fr) nargs) vm1 (fun _ vm' =>
    call_result vm caller_fr ks1 ks2 (cf_f fr) (cf_caller_dst fr) first nargs vm' fr).
Proof.
  intros Hs Hin F1 F2 Hcap Htop Ha Hw HW Hargs Hf L1 L2 Hinit E1 E2 E3.
  destruct (caller_below vm mem fr caller_fr caller_f ks1 Hs Hin F1 Ha) as (C1 & C2 & C3).
  assert (Hof : frame_of m callee_f (cf_rf fr) ks2 (entered vm mem fr))
    by (exact (frame_of_wf (entered vm mem fr) _ fr callee_f ks2 Hw F2)).
  assert (Hdone : forall vm', writes_above (frame_stack_top (v_stack vm)) vm1 vm' ->
      (forall i, 0 <= i < nargs -> regs_of fr ks2 i vm' = regs_of caller_fr ks1 (first + i) vm1) ->
      (forall r, nargs <= r -> regs_of fr ks2 r vm' = regs_of fr ks2 r vm1) ->
      call_result vm caller_fr ks1 ks2 (cf_f fr) (cf_caller_dst fr) first nargs vm' fr).
  { intros vm' HW' HA HR.
    destruct (entered_wf vm mem fr vm' Hs Hcap Htop Ha Hw ltac:(by eapply writes_above_trans))
      as (R1 & R2 & R3 & R4 & R5).
    constructor; try done.
    - intros i Hi. rewrite HA by done. rewrite <- C3. unfold regs_of. by eapply reg_writes.
    - intros He r k Hr Hk. rewrite HR by done. by apply Hinit. }
  destruct (decide (nargs = 0)) as [->|Hn].
  { apply wp_ret. apply Hdone; [apply writes_above_refl | lia | done]. }
  assert (Hmem : rf_mem (cf_rf fr) = Some (frame_stack_top (v_stack vm))).
  { destruct (ro_mem _ _ _ (proj1 Hof) 0) as (b & Hb & _); [lia|].
    destruct Hw as (? & ? & _ & _ & _ & _ & Hb' & _). rewrite Hb' in Hb |- *. by case_if. }
  eapply wp_mono; [apply (copy_args_spec m caller_f (cf_rf caller_fr) ks1 callee_f (cf_rf fr) ks2
      first nargs (frame_stack_top (v_stack vm)))|].
  - by eapply frame_of_writes.
  - by eapply frame_of_writes.
  - done.
  - by eapply frame_below_writes.
  - lia.
  - intros i Hi. destruct (compatible_kinds caller_f callee_f first nargs ks1 ks2 i (proj2 F1)
    (proj2 F2) Hargs) as (k & K1 & K2); try done; try lia. by exists k, k.
  - cbn. intros _ vm' (HW' & HA & HR). apply Hdone; [done | exact HA | exact HR].
Qed.

(** A call the interpreter may make, from the frame at [idx]. *)
Record call_ok (vm : jello_vm) (callee caller idx first nargs : Z) (caller_fr : call_frame)
    (caller_f callee_f : jello_bc_function) (ks1 ks2 : list jello_type_kind) : Prop := {
    co_wf : stack_wf maddr (v_stack vm);
    co_nfuncs : m_nfuncs m = zlen (m_funcs m);
    co_caller : call_frames (v_stack vm) @! idx = Some caller_fr;
    co_caller_fun : cf_f caller_fr = caller /\ frame_fun caller_fr caller_f ks1;
    co_callee_fun : m_funcs m @! callee = Some callee_f /\ function_regs m callee_f ks2;
    co_args : args_compatible caller_f callee_f first nargs;
    co_range : 0 <= first /\ first + nargs <= zlen ks1 /\ 0 <= nargs <= zlen ks2;
    co_nargs : nargs <= VM_FAST_ARG_NARGS_MAX_PUSH;
    co_cap : caller <> callee \/ has_feature (m_features m) JELLO_BC_FEAT_CAP_START = false;
    co_depth : frames_exhausted (v_stack vm) = false;
    co_room : frame_stack_top (v_stack vm) + 2048 <= 2 ^ 30
  }.

Lemma call_ok_in vm callee caller idx first nargs caller_fr caller_f callee_f ks1 ks2 :
  call_ok vm callee caller idx first nargs caller_fr caller_f callee_f ks1 ks2 ->
  caller_fr ∈ call_frames (v_stack vm).
Proof.
  intros H. pose proof (co_caller _ _ _ _ _ _ _ _ _ _ _ H) as (n & -> & Hn)%znth_inv.
  by eapply list_elem_of_lookup_2.
Qed.

(** Recording a frame when the array has room. *)
Lemma push_call_frame_run fr vm :
  zlen (call_frames (v_stack vm)) < call_frames_cap (v_stack vm) ->
  push_call_frame fr vm = Ret () (set_stack (set_frames (call_frames (v_stack vm) ++ [fr]) (v_stack vm)) vm).
Proof.
  intros H. unfold push_call_frame, mbind, M_bind, get_stack, put_stack. cbn.
  by rewrite (proj2 (Z.ltb_lt _ _)).
Qed.

Lemma push_self_spec vm callee idx first nargs caller_dst ja caller_fr f ks :
  call_ok vm callee callee idx first nargs caller_fr f f ks ks ->
  zlen (call_frames (v_stack vm)) < call_frames_cap (v_stack vm) ->
  cf_has_pointer_or_dynamic caller_fr = false ->
  wp (push_self m junk caller_fr f first nargs caller_dst ja (cf_jit_entry_done caller_fr)) vm
    (fun _ vm' => exists fr, call_result vm caller_fr ks ks callee caller_dst first nargs vm' fr).
Proof.
  intros H Hcap Hnp. pose proof (call_ok_in _ _ _ _ _ _ _ _ _ _ _ H) as Hin.
  destruct H as [Hs _ _ [Hcf HF] [Hf Hk] Hargs (R1 & R2 & R3) _ _ _ Hroom].
  destruct (tiled_frame _ _ _ _ _ (sw_tiled _ _ Hs) Hin) as (b & Hw & _ & _).
  destruct Hw as (f' & ks' & Hf' & Hk' & Hrf & Ht & _ & Hp).
  rewrite Hcf, Hf in Hf'. injection Hf' as <-.
  rewrite <- (function_regs_unique _ _ _ _ Hk Hk') in *.
  pose proof (fr_len _ _ _ Hk). pose proof (fr_max _ _ _ Hk).
  pose proof (sw_top _ _ Hs).
  unfold push_self. set (total := rf_total (cf_rf caller_fr)) in *.
  destruct (bump_frame vm total Hs) as (mem & E & Hc & Htop & Ha); [lia | lia|].
  eapply wp_run; [exact E|]. eapply wp_run; [done|].
  eapply wp_run; [by apply push_call_frame_run|].
  set (fr := mk_frame _ _ _ _ _ _ _ _ _ _ _ _).
  eapply wp_mono; [apply (enter_and_copy vm (entered vm mem fr) mem fr caller_fr f ks f ks first nargs)|].
  all: try done.
  - eapply (new_frame_wf (cf_f caller_fr) f ks mem _ (rf_off (cf_rf caller_fr)) total);
      [by rewrite Hcf | done | apply Hrf | apply Hrf | lia | lia | lia | congruence].
  - apply writes_above_refl.
  - intros Hx. congruence.
  - cbn. intros _ vm' HR. exists fr. by rewrite Hcf in HR.
Qed.

(** Clearing the new frame, when it holds pointers. *)
Lemma init_step vm mem fr f ks :
  frame_wf mem (frame_stack_top (v_stack vm)) fr -> frame_fun fr f ks ->
  0 <= frame_stack_top (v_stack vm) -> frame_stack_top (v_stack vm) + rf_total (cf_rf fr) <= zlen mem ->
  wp (init_frame_mem m f (cf_rf fr) (cf_has_pointer_or_dynamic fr)) (entered vm mem fr) (fun _ vm' =>
    writes_above (frame_stack_top (v_stack vm)) (entered vm mem fr) vm' /\
    (existsb is_pointer_or_dynamic ks = true ->
      forall r k, ks @! r = Some k -> regs_of fr ks r vm' = initial_reg k)).
Proof.
  intros Hw HF H0 Ht. pose proof (frame_of_wf (entered vm mem fr) _ fr f ks Hw HF) as Hof.
  destruct Hw as (f' & ks' & Hf & Hk & Hrf & Htot & Hmem & Hp).
  destruct HF as [Hf2 Hk2]. rewrite Hf2 in Hf. injection Hf as <-.
  rewrite <- (function_regs_unique _ _ _ _ Hk2 Hk) in *. rewrite Hp.
  destruct (existsb is_pointer_or_dynamic ks) eqn:Ep.
  - assert (Hpos : 0 < rf_total (cf_rf fr)).
    { apply existsb_exists in Ep as (k & Hin & _). apply list_elem_of_In, list_elem_of_lookup in Hin as [n Hn].
      assert (Ek : ks @! (Z.of_nat n) = Some k) by by rewrite znth_lookup.
      pose proof (znth_Some _ _ _ Ek) as Hr.
      destruct (znth_in_range (rf_off (cf_rf fr)) (Z.of_nat n)) as [o Eo];
        [rewrite (lo_len _ _ _ (ro_layout _ _ _ Hrf)); lia|].
      destruct (lo_slot _ _ _ (ro_layout _ _ _ Hrf) _ _ _ Ek Eo). pose proof (slot_size_4_8 k). lia. }
    rewrite (proj2 (Z.eqb_neq _ _)) in Hmem by lia.
    eapply wp_mono; [by apply (init_frame_mem_spec m f (cf_rf fr) ks (frame_stack_top (v_stack vm)))|].
    cbn. intros _ vm' [H1 H2]. done.
  - assert (E : init_frame_mem m f (cf_rf fr) false (entered vm mem fr) = Ret () (entered vm mem fr)).
    { unfold init_frame_mem. destruct (rf_mem (cf_rf fr)); [|done]. by rewrite andb_false_r. }
    unfold wp. rewrite E. split; [apply writes_above_refl | done].
Qed.

(** A result does not depend on the layout cache or the size of the frame array. *)
Lemma call_result_stack vm s1 caller_fr ks1 ks2 callee dst first nargs vm' fr :
  call_frames s1 = call_frames (v_stack vm) -> frame_stack s1 = frame_stack (v_stack vm) ->
  call_result (set_stack s1 vm) caller_fr ks1 ks2 callee dst first nargs vm' fr ->
  call_result vm caller_fr ks1 ks2 callee dst first nargs vm' fr.
Proof.
  intros E1 E2 [R1 R2 R3 R4 R5 R6 R7]. cbn in *. unfold regs_of, reg in *. cbn in *.
  rewrite E1 in R2, R6. constructor; try done.
  - intros i Hi. unfold regs_of, reg. rewrite R4 by done. by rewrite E2.
  - intros fr' f ks r Hin HF. pose proof (R6 fr' f ks r Hin HF) as E. unfold regs_of, reg in E |- *.
    cbn in E. by rewrite E, E2.
Qed.

Lemma push_general_spec vm callee caller idx first nargs caller_dst caller_fr caller_f callee_f ks1 ks2 :
  call_ok vm callee caller idx first nargs caller_fr caller_f callee_f ks1 ks2 ->
  zlen (call_frames (v_stack vm)) < call_frames_cap (v_stack vm) ->
  wp (push_general malloc m maddr nan32 nan64 junk callee caller idx caller_dst first nargs None true) vm
    (fun b vm' => b = true /\
    exists fr, call_result vm caller_fr ks1 ks2 callee caller_dst first nargs vm' fr).
Proof.
  intros H Hcap. pose proof (call_ok_in _ _ _ _ _ _ _ _ _ _ _ H) as Hin.
  destruct H as [Hs Hnf Hidx [Hcf HF] [Hf Hk] Hargs (R1 & R2 & R3) Hmax Hcs _ Hroom].
  pose proof (fr_len _ _ _ Hk). pose proof (fr_max _ _ _ Hk). pose proof (sw_top _ _ Hs).
  destruct (compute_layout_spec m callee callee_f ks2 Hk) as (fl & Efl & Hn & HL & Ht & Hp).
  destruct (get_layout_spec m maddr callee callee_f fl vm Hnf Hf Efl (sw_layouts _ _ Hs))
    as (l & md & El & Hlok).
  unfold push_general. eapply wp_run; [unfold fun_at; by rewrite Hf|].
  eapply wp_run; [exact El|]. eapply wp_run; [done|].
  set (vm1 := set_stack (set_layouts l md (v_stack vm)) vm).
  assert (Hs1 : stack_wf maddr (v_stack vm1)) by (constructor; [apply Hs | apply Hs | apply Hs | done]).
  destruct (bump_frame vm1 (fl_total fl) Hs1) as (mem & E & Hc & Htop & Ha); [lia | cbn; lia|].
  eapply wp_run; [exact E|]. eapply wp_run; [by apply push_call_frame_run|].
  change (frame_stack_top (v_stack vm1)) with (frame_stack_top (v_stack vm)) in *.
  set (mo := if fl_total fl =? 0 then None else Some (frame_stack_top (v_stack vm))).
  set (fr := new_frame callee fl caller_dst _ true false mo).
  match goal with |- wp ?c ?st ?Q => change (wp c (entered vm1 mem fr) Q) end.
  assert (Hw : frame_wf mem (frame_stack_top (v_stack vm1)) fr).
  { eapply (new_frame_wf callee callee_f ks2 mem _ (fl_off fl) (fl_total fl)); try done; cbn; lia. }
  assert (HF2 : frame_fun fr callee_f ks2) by done.
  apply wp_bind. eapply wp_mono; [apply (init_step vm1 mem fr callee_f ks2); [exact Hw | exact HF2 | cbn; lia | exact Htop]|].
  intros _ vm2 [HW Hinit]. cbn [negb].
  assert (Hfr2 : call_frames (v_stack vm2) = call_frames (v_stack vm) ++ [fr]) by (by destruct HW as (? & -> & _)).
  pose proof (znth_Some _ _ _ Hidx) as Hir.
  assert (En : nframes vm2 = Ret (zlen (call_frames (v_stack vm)) + 1) vm2).
  { unfold nframes, mbind, M_bind, mret, M_ret, get_stack. by rewrite Hfr2, zlen_app. }
  eapply wp_run; [exact En|].
  eapply wp_run; [unfold panic_if; rewrite (proj2 (Z.leb_gt _ _)) by lia; done|].
  eapply wp_run; [unfold frame_at; unfold mbind, M_bind, get_stack; rewrite Hfr2, znth_app_l by lia; rewrite Hidx; done|].
  eapply wp_run; [unfold fun_at; rewrite <- Hcf, (proj1 HF); done|].
  rewrite (proj2 (Z.leb_le _ _) Hmax).
  assert (Hpost : forall vm', call_result vm1 caller_fr ks1 ks2 callee caller_dst first nargs vm' fr ->
      wp (_ ← ((if (caller =? callee) && bool_decide (@None hobj = None)
        then vm_inherit_self_capture_slots m callee_f (new_rf fl mo) (cf_rf caller_fr) nargs
        else mret ()) : M ()); mret true) vm'
      (fun b vm'' => b = true /\ exists fr, call_result vm caller_fr ks1 ks2 callee caller_dst first nargs vm'' fr)).
  { intros vm' HR. eapply wp_run.
    - destruct Hcs as [Hne|Hoff].
      + by rewrite (proj2 (Z.eqb_neq _ _) Hne).
      + case_if; [|done]. unfold vm_inherit_self_capture_slots. by rewrite Hoff.
    - apply wp_ret. split; [done|]. exists fr. by eapply (call_result_stack vm (v_stack vm1)). }
  assert (Hcopy : wp (copy_args m (cf_rf caller_fr) first callee_f (cf_rf fr) nargs) vm2 (fun _ vm' =>
      call_result vm1 caller_fr ks1 ks2 callee caller_dst first nargs vm' fr)).
  { by apply (enter_and_copy vm1 vm2 mem fr caller_fr caller_f ks1 callee_f ks2 first nargs). }
  destruct (Z.eqb_spec nargs 0) as [->|Hn0].
  - eapply wp_run; [done|]. cbn beta iota.
    eapply wp_run; [|apply Hpost; exact Hcopy].
    unfold vm_init_args_and_caps, mbind, M_bind, mret, M_ret, panic_if. cbn.
    assert (0 <= zlen ks2) by (unfold zlen; lia). change (u32 (0 + 0)) with 0.
    by rewrite (proj2 (Z.ltb_ge _ _)) by (rewrite Hn; lia).
  - eapply wp_run.
    { unfold vm_can_use_fast_arg_copy. rewrite (proj2 (Z.eqb_neq _ _) Hn0). cbn [fn_is_closure].
      apply fast_args_loop_true; [lia|]. by rewrite Z.add_0_l, Z2Nat.id by lia. }
    apply wp_bind. eapply wp_mono; [exact Hcopy|]. cbn beta. intros _ vm' HR. by apply Hpost.
Qed.

(** Growing the array of frames changes nothing else. *)
Lemma grow_if_full_run vm :
  zlen (call_frames (v_stack vm)) <= call_frames_cap (v_stack vm) < 2 ^ 31 ->
  exists c, frames_grow_if_full vm = Ret () (set_stack (set_frames_cap c (v_stack vm)) vm) /\
  zlen (call_frames (v_stack vm)) < c.
Proof.
  intros H. pose proof (zlen_nonneg (call_frames (v_stack vm))).
  unfold frames_grow_if_full, mbind, M_bind, get_stack.
  destruct (Z.eqb_spec (zlen (call_frames (v_stack vm))) (call_frames_cap (v_stack vm))) as [E|E].
  - eexists. split; [done|]. destruct (Z.eqb_spec (call_frames_cap (v_stack vm)) 0); [lia|].
    unfold u32. rewrite Z.mod_small by lia. lia.
  - exists (call_frames_cap (v_stack vm)). split; [by destruct vm as [[] ? ? ? ? ?] | lia].
Qed.

Lemma call_ok_grown c vm callee caller idx first nargs caller_fr caller_f callee_f ks1 ks2 :
  call_ok vm callee caller idx first nargs caller_fr caller_f callee_f ks1 ks2 ->
  call_ok (set_stack (set_frames_cap c (v_stack vm)) vm) callee caller idx first nargs caller_fr caller_f callee_f ks1 ks2.
Proof. intros [[] ?]. by constructor. Qed.

(** C6: A call the bytecode can make -- the arguments are registers of the calling
    frame whose types the callee's first registers have, at most 16 of them, with
    no function object and no captures to inherit, and there is room -- pushes a
    frame and returns true: the callee's frame lies above every other frame and the
    frames again tile the stack, it starts at pc 0 with the caller's destination
    and the current handler depth, its first registers hold the arguments, its
    other registers hold zero or the null value where the function has references,
    and no register of any frame already on the stack changes. *)
Theorem push_frame_call vm callee caller idx caller_dst first nargs caller_fr caller_f callee_f ks1 ks2 :
  call_ok vm callee caller idx first nargs caller_fr caller_f callee_f ks1 ks2 ->
  zlen (call_frames (v_stack vm)) <= call_frames_cap (v_stack vm) < 2 ^ 31 ->
  wp (vm_push_frame malloc m maddr nan32 nan64 junk callee caller idx caller_dst first nargs None true) vm
    (fun b vm' => b = true /\
    exists fr, call_result vm caller_fr ks1 ks2 callee caller_dst first nargs vm' fr).
Proof.
  intros H Harr. destruct (grow_if_full_run vm Harr) as (c & E1 & Hcap).
  pose proof (call_ok_grown c _ _ _ _ _ _ _ _ _ _ _ H) as H1.
  set (vm1 := set_stack (set_frames_cap c (v_stack vm)) vm) in *.
  pose proof (znth_Some _ _ _ (co_caller _ _ _ _ _ _ _ _ _ _ _ H1)) as Hidx.
  assert (Hback : forall vm' fr, call_result vm1 caller_fr ks1 ks2 callee caller_dst first nargs vm' fr ->
      call_result vm caller_fr ks1 ks2 callee caller_dst first nargs vm' fr)
    by (intros vm' fr; by apply call_result_stack).
  assert (Hgen : wp (push_general malloc m maddr nan32 nan64 junk callee caller idx caller_dst first nargs None true) vm1
      (fun b vm' => b = true /\ exists fr, call_result vm caller_fr ks1 ks2 callee caller_dst first nargs vm' fr)).
  { eapply wp_mono; [by apply (push_general_spec vm1 callee caller idx first nargs caller_dst caller_fr caller_f callee_f ks1 ks2)|].
    intros b vm' [Hb [fr Hr]]. split; [done|]. exists fr. by apply Hback. }
  unfold vm_push_frame. eapply wp_run; [done|]. rewrite (co_depth _ _ _ _ _ _ _ _ _ _ _ H).
  eapply wp_run; [exact E1|]. eapply wp_run; [done|].
  rewrite (proj2 (Z.eqb_neq (zlen (call_frames (v_stack vm1))) 0)) by lia.
  eapply wp_run; [done|]. eapply wp_run; [unfold fun_at; by rewrite (proj1 (co_callee_fun _ _ _ _ _ _ _ _ _ _ _ H))|].
  eapply wp_run; [done|].
  eapply wp_run; [unfold panic_if; rewrite (proj2 (Z.leb_gt (zlen (call_frames (v_stack vm1))) idx)) by lia; by rewrite andb_false_r|].
  cbn [andb]. destruct (Z.eqb_spec caller callee) as [->|Hne]; cbn [andb]; [|by eapply wp_run].
  rewrite (bool_decide_eq_true_2 _ eq_refl), (proj2 (Z.leb_le _ _) (co_nargs _ _ _ _ _ _ _ _ _ _ _ H)).
  eapply wp_run.
  { unfold frame_at, mbind, M_bind, get_stack. cbn. by rewrite (co_caller _ _ _ _ _ _ _ _ _ _ _ H). }
  cbn beta iota. destruct (cf_has_pointer_or_dynamic caller_fr) eqn:Ep; [exact Hgen|]. cbn [negb].
  pose proof (co_caller_fun _ _ _ _ _ _ _ _ _ _ _ H1) as [Hcf [F1 K1]]. rewrite Hcf in F1.
  pose proof (co_callee_fun _ _ _ _ _ _ _ _ _ _ _ H1) as [F2 K2].
  rewrite F1 in F2. injection F2 as <-. rewrite <- (function_regs_unique _ _ _ _ K1 K2) in *.
  apply wp_bind. eapply wp_mono; [by apply (push_self_spec vm1 callee idx first nargs caller_dst 0 caller_fr caller_f ks1)|].
  intros _ vm' [fr Hr]. apply wp_ret. split; [done|]. exists fr. by apply Hback.
Qed.
End Tile.

(** ** A concrete call *)

(** Two functions over one i32 type: the first has three registers, the second two. *)
Definition call_module : jello_bc_module :=
  mk_module 1 0 1 [mk_type_entry JELLO_T_I32 0] 0 [] 0 [] false 0 [] 0 [] 0 [] [] [] 2
    [mk_function 3 0 [0; 0; 0] 0 [] 0 [] 0; mk_function 2 0 [0; 0] 0 [] 0 [] 0] 0 0 [].

Definition call_fun (fi : Z) : jello_bc_function :=
  if fi =? 0 then mk_function 3 0 [0; 0; 0] 0 [] 0 [] 0 else mk_function 2 0 [0; 0] 0 [] 0 [] 0.

Definition call_gc : gc_state := mk_gc ∅ [] [] 0 0 0 0 0 0 [] [] [] [] [].

(** A running first function, on a frame stack of [n] bytes. *)
Definition call_frame0 : call_frame :=
  mk_frame 0 (mk_rf (Some 0) [0; 4; 8] 3 12 true) 0 0 0 false false false false false false 0.

Definition call_vm (mem : list Z) : jello_vm :=
  mk_vm (mk_stack [call_frame0] 64 0 mem 12 [None; None] 8) (mk_exc [] false 4 JELLO_TRAP_NONE None)
    (mk_limits 0 0 0 0) call_gc [] 0.

Lemma call_regs (fi : Z) n : 0 <= fi < 2 -> n = (if (fi =? 0)%Z then 3 else 2)%nat ->
  frame_fun call_module (mk_frame fi (mk_rf None [] 0 0 true) 0 0 0 false false false false false false 0)
    (call_fun fi) (replicate n JELLO_T_I32).
Proof.
  intros Hfi ->. assert (fi = 0 \/ fi = 1) as [-> | ->] by lia; (split; [done|]);
    (constructor; [done | | cbn; lia]); intros r k (i & -> & Hi)%znth_inv;
    do 3 (destruct i as [|i]; [cbn in Hi; try discriminate Hi; injection Hi as <-; reflexivity|]);
    discriminate Hi.
Qed.

Lemma call_vm_ok mem : zlen mem = 65536 ->
  call_ok call_module 8 (call_vm mem) 1 0 0 1 2 call_frame0 (call_fun 0) (call_fun 1)
    (replicate 3 JELLO_T_I32) (replicate 2 JELLO_T_I32).
Proof.
  intros Hm. pose proof (call_regs 0 3 ltac:(lia) eq_refl) as [F0 K0].
  pose proof (call_regs 1 2 ltac:(lia) eq_refl) as [F1 K1].
  constructor; try done; try (cbn; lia).
  - constructor; cbn.
    + right. exists 0. by rewrite Hm.
    + lia.
    + split; [|done]. exists (call_fun 0), (replicate 3 JELLO_T_I32). split_and!; try done.
      constructor; [done | | intros r Hr; exists 0; cbn; split_and!; [done | lia | lia]].
      destruct (compute_layout_spec call_module 0 (call_fun 0) _ K0) as (fl & E & _ & HL & _).
      vm_compute in E. injection E as <-. exact HL.
    + intros _. split; [done|]. intros fi f fl _ H. cbn in H.
      apply znth_inv in H as ([|[|?]] & _ & H); discriminate H.
  - intros i Hi. assert (i = 0 \/ i = 1) as [-> | ->] by lia; by exists 0, 0.
Qed.

Definition call_mem : list Z := replicate (Z.to_nat 65536) 7.

Lemma call_mem_len : zlen call_mem = 65536.
Proof. unfold zlen, call_mem. rewrite length_replicate. lia. Qed.

(** Registers 1 and 2 of the first function passed to the second. *)
Lemma push_frame_call_witness :
  wp (vm_push_frame (fun _ _ => None) call_module 8 0 0 0 1 0 0 5 1 2 None true) (call_vm call_mem)
    (fun b vm' => b = true /\
       exists fr, call_result call_module 8 (call_vm call_mem) call_frame0 (replicate 3 JELLO_T_I32)
         (replicate 2 JELLO_T_I32) 1 5 1 2 vm' fr).
Proof.
  apply (push_frame_call call_module 8 0 (fun _ _ => None) 0 0 (call_vm call_mem) 1 0 0 5 1 2
    call_frame0 (call_fun 0) (call_fun 1)).
  - apply call_vm_ok, call_mem_len.
  - change (1 <= 64 < 2 ^ 31). lia.
Defined.

(** ** Tail calls into a smaller frame *)

(** A tail call with fast arguments into a smaller frame puts the frame at the
    upper end of the memory of the old one but lowers the top of the frame stack,
    which grows upwards: the next frame, unless it and the new one are so small
    that both fit beside each other, overlaps the frame that is running. *)
Theorem tail_call_shrink_overlaps junk vm fl old base n :
  rf_mem (cf_rf old) = Some base -> 0 <= base ->
  base + rf_total (cf_rf old) = frame_stack_top (v_stack vm) ->
  0 < fl_total fl < rf_total (cf_rf old) -> rf_total (cf_rf old) < 2 * fl_total fl + n ->
  0 < n -> frame_stack_top (v_stack vm) + n <= zlen (frame_stack (v_stack vm)) < 2 ^ 32 ->
  wp (p ← replace_mem junk fl old true; q ← vm_frame_stack_bump junk n; mret (p, q)) vm
    (fun '(p, q) _ => exists a b, p = Some a /\ q = Some b /\ b < a + fl_total fl /\ a < b + n).
Proof.
  intros Hb H0 Ht Hl Ho Hn Hc. unfold replace_mem, vm_frame_stack_bump, wp.
  rewrite (proj2 (Z.leb_le _ _)), (proj2 (Z.ltb_lt _ _)), (proj2 (Z.eqb_neq n 0)) by lia.
  cbn [andb]. unfold mbind, M_bind, mret, M_ret, get_stack, put_stack. cbn.
  rewrite (wrapU_id 32 (_ - _)) by (unfold is_u; lia). rewrite Hb. cbn.
  replace (frame_stack_top (v_stack vm) - (rf_total (cf_rf old) - fl_total fl)) with (base + fl_total fl) by lia.
  rewrite wrapU_id by (unfold is_u; lia). rewrite (proj2 (Z.ltb_ge _ _)) by lia. cbn.
  eexists _, _. split_and!; [done | done | lia | lia].
Qed.

Lemma tail_call_shrink_overlaps_witness :
  wp (p ← replace_mem 0 (mk_layout 2 8 [0; 4] false false false) call_frame0 true;
      q ← vm_frame_stack_bump 0 12; mret (p, q)) (call_vm call_mem)
    (fun '(p, q) _ => exists a b, p = Some a /\ q = Some b /\ b < a + 8 /\ a < b + 12).
Proof.
  apply (tail_call_shrink_overlaps 0 (call_vm call_mem) (mk_layout 2 8 [0; 4] false false false)
    call_frame0 0 12); [done | lia | done | by split | done | done |].
  change (12 + 12 <= zlen call_mem < 2 ^ 32). rewrite call_mem_len. lia.
Defined.
