(* ===== verification/ExecThms.v ===== *)
(** * The hot paths of the interpreter loop

    [vm_exec_loop] repeats the handlers of the frequent opcodes in its own switch.
    Here: where the two agree, and a program that fuel does not stop. *)

From Stdlib Require Import String.
From S2P Require Import Prelude CInt Memory Bytecode Value Object Heap Vm Frame FrameFacts FunCheck Float Gc GcThms Box BoxThms Types Ops ArithOps ArithThms Call Exc CoreOps CallOps ContainerOps BytesOps ObjOps Exec.

Open Scope Z_scope.

(** What the loop sees of a handler's outcome. *)
Definition outcome_next (o : outcome op_result) : outcome (option exec_result) :=
  match o with
  | Ret r vm => Ret (next r) vm
  | Panic => Panic
  | Crash => Crash
  end.

(** ** Computations that look the same to the loop *)

Lemma bind_agree {A} (c : M A) (k1 k2 : A -> M op_result) vm :
  (forall a vm', c vm = Ret a vm' -> outcome_next (k1 a vm') = outcome_next (k2 a vm')) ->
  outcome_next ((c ≫= k1) vm) = outcome_next ((c ≫= k2) vm).
Proof. unfold mbind, M_bind. destruct (c vm) eqn:E; intros H; [by apply H | done..]. Qed.

Lemma bind_bind {A B C} (c : M A) (k : A -> M B) (h : B -> M C) vm :
  ((c ≫= k) ≫= h) vm = (c ≫= (fun a => k a ≫= h)) vm.
Proof. unfold mbind, M_bind. by destruct (c vm). Qed.

Lemma bind_eq {A B} (c : M A) (k1 k2 : A -> M B) vm :
  (forall a vm', c vm = Ret a vm' -> k1 a vm' = k2 a vm') -> (c ≫= k1) vm = (c ≫= k2) vm.
Proof. unfold mbind, M_bind. destruct (c vm) eqn:E; intros H; [by apply H | done..]. Qed.

Lemma bind_run {A B} (c : M A) (k : A -> M B) vm a vm' : c vm = Ret a vm' -> (c ≫= k) vm = k a vm'.
Proof. unfold mbind, M_bind. by intros ->. Qed.

Lemma bind_must {A B} (o : option A) (k : A -> M B) vm :
  (must o ≫= k) vm = match o with Some a => k a vm | None => Crash end.
Proof. by destruct o. Qed.

Lemma bind_stack {B} (k : stack_state -> M B) vm : (get_stack ≫= k) vm = k (v_stack vm) vm.
Proof. done. Qed.

Lemma bind_ret {A B} (a : A) (k : A -> M B) vm : (mret a ≫= k) vm = k a vm.
Proof. done. Qed.

(** The trailing answer of a handler does not matter unless it returns. *)
Lemma tail_agree {A} (c : M A) (r1 r2 : A -> op_result) vm :
  (forall a, next (r1 a) = next (r2 a)) ->
  outcome_next ((c ≫= (fun a => mret (r1 a))) vm) = outcome_next ((c ≫= (fun a => mret (r2 a))) vm).
Proof. intros H. apply bind_agree. intros a vm' _. cbn. by rewrite H. Qed.

(** ** Values a computation reads without changing the state *)

Lemma load_reg_state n rf r vm :
  load_reg n rf r vm =
  match (a ← vm_reg_ptr rf r; mem_load n (frame_stack (v_stack vm)) a) with
  | Some v => Ret v vm
  | None => Crash
  end.
Proof.
  unfold load_reg, mbind, M_bind, option_bind, get_stack, must.
  destruct (vm_reg_ptr rf r); [|done]. by destruct (mem_load _ _ _).
Qed.

Lemma bind_load {B} n rf r (k : Z -> M B) vm :
  (load_reg n rf r ≫= k) vm =
  match (a ← vm_reg_ptr rf r; mem_load n (frame_stack (v_stack vm)) a) with
  | Some v => k v vm
  | None => Crash
  end.
Proof. unfold mbind at 1, M_bind. rewrite load_reg_state. by destruct (_ ≫= _). Qed.

Lemma bind_frame_at {B} i (k : call_frame -> M B) vm :
  (frame_at i ≫= k) vm =
  match call_frames (v_stack vm) @! i with Some fr => k fr vm | None => Crash end.
Proof. unfold frame_at. rewrite bind_bind, bind_stack, bind_must. done. Qed.

Lemma bind_nframes {B} (k : Z -> M B) vm :
  (nframes ≫= k) vm = k (zlen (call_frames (v_stack vm))) vm.
Proof. done. Qed.

Lemma leave_handlers_stack fr vm vm' :
  leave_frame_handlers fr vm = Ret () vm' -> v_stack vm' = v_stack vm.
Proof.
  unfold leave_frame_handlers, panic_if, set_handlers_len, set_handlers, mbind, M_bind, get_exc, put_exc.
  by destruct (_ <? _); intros [= <-].
Qed.

Lemma fuel_charge_state m b vm vm' :
  jello_vm_fuel_charge m vm = Ret b vm' -> v_stack vm' = v_stack vm /\ v_gc vm' = v_gc vm.
Proof.
  unfold jello_vm_fuel_charge, mbind, M_bind, get_limits, put_limits, mret, M_ret.
  destruct (_ =? 0); [by intros [= _ <-]|]. destruct (_ =? 0).
  - unfold jello_vm_trap, raise, mbind, M_bind, get_exc, put_exc.
    by intros [= _ <-].
  - by intros [= _ <-].
Qed.

Section Hot.
Context (malloc : gc_state -> Z -> option Z) (m : jello_bc_module) (maddr : Z).
Context (nan32 nan64 junk : Z) (nan16 : bool -> Z).
Context (native : exec_ctx -> jello_insn -> Z -> Z -> M ()).
Context (jdll_prim : exec_ctx -> jello_insn -> Z -> Z -> M bool).

Abbreviation hot := (hot_dispatch malloc m maddr nan32 nan64 junk nan16 native jdll_prim).
Abbreviation cold := (op_dispatch malloc m maddr nan32 nan64 junk nan16 native jdll_prim).

(** The context of the top frame. *)
Definition top_ctx (ctx : exec_ctx) (vm : jello_vm) : Prop :=
  cx_fr ctx = zlen (call_frames (v_stack vm)) - 1 /\ zlen (call_frames (v_stack vm)) < 2 ^ 32.

(** A register that holds a pointer to a function object. *)
Definition holds_function (rf : reg_frame) (r : Z) (vm : jello_vm) : Prop :=
  exists a v o, vm_reg_ptr rf r = Some a /\ mem_load 8 (frame_stack (v_stack vm)) a = Some v /\
  jello_is_ptr v = true /\ v <> 0 /\ obj_at (v_gc vm) v = Some o /\ obj_kind o = JELLO_OBJ_FUNCTION.

(** The return does not go to a frame of the same function with a destination of
    another type. *)
Definition typed_return (ctx : exec_ctx) (ins : jello_insn) (vm : jello_vm) : Prop :=
  forall fr caller f, call_frames (v_stack vm) @! (cx_fr ctx) = Some fr ->
  call_frames (v_stack vm) @! (zlen (call_frames (v_stack vm)) - 2) = Some caller ->
  m_funcs m @! (cf_f caller) = Some f -> cf_f caller = cf_f fr ->
  exists t, f_reg_types f @! (cf_caller_dst fr) = Some t /\
  f_reg_types (cx_f ctx) @! (i_a ins) = Some t.

(** The immediate sum stays in the range of [int32_t]. *)
Definition imm_in_range (op : Z -> Z -> Z) (ctx : exec_ctx) (ins : jello_insn) (vm : jello_vm) : Prop :=
  forall a v, vm_reg_ptr (cx_rf ctx) (i_b ins) = Some a ->
  mem_load 4 (frame_stack (v_stack vm)) a = Some v ->
  - 2 ^ 31 <= op (i32 v) (imm_c ins) < 2 ^ 31.

(** Where the hot path is meant to do what the handler does. *)
Definition hot_ok (ctx : exec_ctx) (ins : jello_insn) (vm : jello_vm) : Prop :=
  match op_of_code (i_op ins) with
  | Some JOP_RET => cx_exports ctx = None /\ typed_return ctx ins vm
  | Some JOP_CALL => top_ctx ctx vm
  | Some (JOP_CALLR | JOP_TAILCALLR) => holds_function (cx_rf ctx) (i_b ins) vm
  | Some JOP_ADD_I32_IMM => imm_in_range Z.add ctx ins vm
  | Some JOP_SUB_I32_IMM => imm_in_range Z.sub ctx ins vm
  | _ => True
  end.

(** ** Opcode by opcode *)

Lemma hot_store_eq rf r v k :
  hot_store rf r v k = (_ ← vm_store_u32_masked rf r v k; mret OP_CONTINUE).
Proof. unfold hot_store. destruct (kind_eqb k JELLO_T_I32) eqn:E; [|done]. by destruct k. Qed.

Lemma hot_bin_agrees expr ctx ins vm :
  hot_bin_i32 m expr ctx ins vm = OP_BIN_I32_MASKED m (fun a b => Some (expr a b)) ctx ins vm.
Proof.
  unfold hot_bin_i32, OP_BIN_I32_MASKED, mbind, M_bind.
  destruct (must _ vm) as [k vm1| |]; [|done..]. destruct (vm_load_u32 _ _ vm1) as [a vm2| |]; [|done..].
  destruct (vm_load_u32 _ _ vm2) as [b vm3| |]; [|done..]. cbn. by rewrite hot_store_eq.
Qed.

Lemma hot_imm_agrees (op : Z -> Z -> Z) ctx ins vm :
  (forall a i, u32 (op (i32 a) i) = u32 (op a (u32 i))) -> imm_in_range op ctx ins vm ->
  hot_imm_i32 m (fun a imm => u32 <$> c_int32 (op (i32 a) imm)) ctx ins vm =
  OP_BIN_I32_IMM_MASKED m (fun a imm => u32 (op a imm)) ctx ins vm.
Proof.
  intros Hop Hr. unfold hot_imm_i32, OP_BIN_I32_IMM_MASKED, vm_load_u32.
  rewrite !bind_must. destruct (vm_reg_kind _ _ _) as [k|]; [|done]. rewrite !bind_load.
  destruct (vm_reg_ptr _ _) as [a|] eqn:Ea; [|done]. cbn.
  destruct (mem_load 4 _ a) as [v|] eqn:Ev; [|done].
  specialize (Hr a v Ea Ev). unfold c_int32.
  rewrite (proj2 (Z.leb_le (- 2 ^ 31) _)), (proj2 (Z.ltb_lt _ (2 ^ 31))) by lia.
  cbn [andb fmap option_fmap option_map]. by rewrite bind_must, hot_store_eq, Hop.
Qed.

Lemma hot_mul_imm_agrees ctx ins vm :
  hot_imm_i32 m (fun a imm => Some (u32 (a * u32 imm))) ctx ins vm = op_mul_i32_imm m ctx ins vm.
Proof.
  unfold hot_imm_i32, op_mul_i32_imm, OP_BIN_I32_IMM_MASKED.
  apply bind_eq. intros k vm1 _. apply bind_eq. intros a vm2 _. by rewrite bind_must, hot_store_eq.
Qed.

Lemma f64_fast_agrees ctx dst arr : hot_f64_fast m ctx dst arr = f64_elements m ctx dst arr.
Proof.
  unfold hot_f64_fast, f64_elements, array_elem_kind, vm_reg_kind. f_equal.
  destruct (f_reg_types (cx_f ctx) @! arr) as [t|]; [|done].
  destruct (m_types m @! t) as [te|] eqn:Et; [|done]. cbn. rewrite Et. cbn.
  by destruct (te_kind te).
Qed.

Lemma hot_ret_agrees ctx ins vm :
  cx_exports ctx = None -> typed_return ctx ins vm ->
  hot_ret malloc m nan32 nan64 ctx ins vm = op_ret malloc m nan32 nan64 ctx ins vm.
Proof.
  intros Hex Ht. unfold hot_ret, op_ret, return_exports, ctx_frame. rewrite Hex.
  rewrite !bind_frame_at. destruct (_ @! (cx_fr ctx)) as [fr|] eqn:Efr; [|done].
  apply bind_eq. intros [] vm1 E%leave_handlers_stack. destruct (negb _); [done|].
  rewrite !bind_nframes, E. apply bind_eq. intros [] vm2 E2.
  assert (v_stack vm2 = v_stack vm) as E'. { revert E2. unfold panic_if. by case_match; intros [= <-]. }
  rewrite !bind_frame_at, E'. destruct (_ @! (_ - 2)) as [caller|] eqn:Ec; [|done].
  unfold fun_at. rewrite !bind_must. destruct (m_funcs m @! (cf_f caller)) as [f|] eqn:Ef; [|done].
  rewrite !bind_must. destruct (f_reg_types (cx_f ctx) @! _) as [rt|] eqn:Ert; [|done].
  destruct (cf_f caller =? cf_f fr) eqn:Eq.
  - rewrite bind_ret, bind_must. apply Z.eqb_eq in Eq.
    destruct (Ht fr caller f Efr Ec Ef Eq) as (t & -> & Et).
    rewrite Ert in Et. injection Et as ->. by rewrite bind_must, Z.eqb_refl, bind_must.
  - rewrite bind_bind, !bind_must. by destruct (f_reg_types f @! _).
Qed.

Lemma hot_callee_function rf r vm :
  holds_function rf r vm ->
  exists v o, (forall (k : Z -> M op_result) vm', v_stack vm' = v_stack vm ->
    (load_reg 8 rf r ≫= k) vm' = k v vm') /\
  jello_is_ptr v = true /\ jello_is_null v = false /\ v <> 0 /\
  obj_kind o = JELLO_OBJ_FUNCTION /\
  (forall (k : hobj -> M (option hobj)) vm', v_gc vm' = v_gc vm -> (deref v ≫= k) vm' = k o vm').
Proof.
  intros (a & v & o & Ha & Hv & Hp & H0 & Ho & Hk). exists v, o. split_and!; try done.
  - intros k vm' E. rewrite bind_load, E, Ha. cbn. by rewrite Hv.
  - revert Hp. unfold jello_is_ptr, jello_is_null, has_tag. intros ->%Z.eqb_eq. done.
  - intros k vm' E. unfold deref. rewrite bind_bind. unfold mbind at 1, M_bind, get_gc.
    by rewrite bind_must, E, Ho.
Qed.

Lemma callees_agree v o msg what msg' vm :
  jello_is_ptr v = true -> jello_is_null v = false -> v <> 0 -> obj_kind o = JELLO_OBJ_FUNCTION ->
  (forall (k : hobj -> M (option hobj)), (deref v ≫= k) vm = k o vm) ->
  hot_callee m v msg vm = Ret (Some o) vm /\ callee_object m v what msg' vm = Ret (Some o) vm.
Proof.
  intros Hp Hn H0 Hk Hd. unfold hot_callee, callee_object. rewrite Hp, Hn. cbn [negb orb].
  rewrite (proj2 (Z.eqb_neq v 0) H0). rewrite bind_bind, Hd, Hd, !bind_ret.
  by rewrite Hk, !bool_decide_eq_true_2 by done.
Qed.

Lemma next_ok_or_trap ok : next (ok_or_trap ok) = None.
Proof. by destruct ok. Qed.

(** A push or a native call that fails has raised its trap. *)
Lemma ok_tail_agree (c : M bool) vm :
  outcome_next ((c ≫= (fun ok => mret (ok_or_trap ok))) vm) =
  outcome_next ((c ≫= (fun _ => mret OP_CONTINUE)) vm).
Proof. apply tail_agree. intros ok. by rewrite next_ok_or_trap. Qed.

(** Both dispatchers charge fuel first. *)
Lemma charge_agree (k1 k2 : M op_result) vm :
  (forall vm', v_stack vm' = v_stack vm -> v_gc vm' = v_gc vm ->
    outcome_next (k1 vm') = outcome_next (k2 vm')) ->
  outcome_next ((ok ← jello_vm_fuel_charge m; if negb (ok : bool) then mret OP_TRAP else k1) vm) =
  outcome_next ((ok ← jello_vm_fuel_charge m; if negb (ok : bool) then mret OP_TRAP else k2) vm).
Proof.
  intros H. apply bind_agree. intros ok vm' E. destruct (fuel_charge_state _ _ _ _ E) as [Es Eg].
  destruct ok; [by apply H | done].
Qed.

Lemma callr_agrees ctx ins vm :
  holds_function (cx_rf ctx) (i_b ins) vm ->
  outcome_next (hot_callr malloc m maddr nan32 nan64 junk native jdll_prim ctx ins vm) =
  outcome_next (op_callr malloc m maddr nan32 nan64 junk native jdll_prim ctx ins vm).
Proof.
  intros Hf. destruct (hot_callee_function _ _ _ Hf) as (v & o & Hl & Hp & Hn & H0 & Ho & Hd).
  unfold hot_callr, op_callr, vm_load_val. apply charge_agree. intros vm' Es Eg.
  rewrite !Hl by done. rewrite Hp, Hn, (proj2 (Z.eqb_neq v 0) H0). cbn [negb andb].
  edestruct callees_agree as [E1 E2]; [done.. | intros; by apply Hd|].
  rewrite (bind_run _ _ _ _ _ E1), (bind_run _ _ _ _ _ E2). cbn.
  repeat case_match; [apply ok_tail_agree | done | apply ok_tail_agree].
Qed.

Lemma tailcall_agrees ctx ins vm :
  outcome_next (hot_tailcall malloc m maddr nan32 nan64 junk native ctx ins vm) =
  outcome_next (op_tailcall malloc m maddr nan32 nan64 junk native ctx ins vm).
Proof. unfold hot_tailcall, op_tailcall. case_match; [done | apply ok_tail_agree]. Qed.

Lemma tailcallr_agrees ctx ins vm :
  holds_function (cx_rf ctx) (i_b ins) vm ->
  outcome_next (hot_tailcallr malloc m maddr nan32 nan64 junk native jdll_prim ctx ins vm) =
  outcome_next (op_tailcallr malloc m maddr nan32 nan64 junk native jdll_prim ctx ins vm).
Proof.
  intros Hf. destruct (hot_callee_function _ _ _ Hf) as (v & o & Hl & Hp & Hn & H0 & Ho & Hd).
  unfold hot_tailcallr, op_tailcallr, vm_load_val. rewrite !Hl by done.
  edestruct callees_agree as [E1 E2]; [done.. | intros; by apply Hd|].
  rewrite (bind_run _ _ _ _ _ E1), (bind_run _ _ _ _ _ E2). cbn.
  repeat case_match; [|done | apply ok_tail_agree].
  apply bind_agree. intros ok vm' _. by destruct ok.
Qed.

(** ** Direct calls *)

Lemma grow_if_full_stack vm vm' :
  frames_grow_if_full vm = Ret () vm' ->
  call_frames (v_stack vm') = call_frames (v_stack vm) /\
  call_frames_max (v_stack vm') = call_frames_max (v_stack vm).
Proof.
  unfold frames_grow_if_full. rewrite bind_stack. case_match; unfold put_stack, mret, M_ret; by intros [= <-].
Qed.

(** The numeric self-call of the loop is the one of [vm_push_frame]. *)
Lemma self_push_agrees fr callee dst first na vm :
  let n := zlen (call_frames (v_stack vm)) in
  call_frames (v_stack vm) @! (n - 1) = Some fr -> callee = cf_f fr -> na <= 16 ->
  cf_has_pointer_or_dynamic fr = false -> frames_exhausted (v_stack vm) = false ->
  outcome_next ((_ ← frames_grow_if_full; fr ← frame_at (n - 1);
    _ ← vm_push_self_numeric m junk fr first na dst 0 (cf_jit_entry_done fr);
    mret OP_CONTINUE) vm) =
  outcome_next ((_ ← vm_push_frame malloc m maddr nan32 nan64 junk callee (cf_f fr) (n - 1) dst
      first na None true; mret OP_CONTINUE) vm).
Proof.
  intros n Hfr -> Hna Hnp Hex. assert (0 <= n - 1) by by apply znth_Some in Hfr as [??].
  unfold vm_push_frame. rewrite bind_bind, bind_stack, Hex, bind_bind.
  apply bind_agree. intros [] vm' E%grow_if_full_stack. destruct E as [Ef Em].
  rewrite bind_frame_at, bind_bind, bind_stack, Ef, Hfr.
  rewrite (proj2 (Z.eqb_neq (zlen _) 0)) by lia. rewrite bind_bind, bind_ret, bind_bind.
  unfold vm_push_self_numeric. rewrite bind_bind. unfold fun_at. rewrite !bind_must.
  destruct (m_funcs m @! (cf_f fr)) as [f|]; [|done].
  rewrite Z.eqb_refl, bool_decide_eq_true_2 by done. unfold VM_FAST_ARG_NARGS_MAX_PUSH.
  rewrite (proj2 (Z.leb_le na 16) Hna). cbn [andb].
  rewrite bind_bind, bind_nframes, Ef, (proj2 (Z.leb_gt (zlen _) (n - 1))) by lia.
  rewrite bind_bind. unfold panic_if. rewrite bind_ret, bind_bind, bind_bind, bind_frame_at, Ef, Hfr, bind_ret, Hnp.
  cbn [negb]. rewrite bind_bind. by apply bind_agree.
Qed.

Lemma call_agrees ctx ins vm :
  top_ctx ctx vm ->
  outcome_next (hot_call malloc m maddr nan32 nan64 junk native ctx ins vm) =
  outcome_next (op_call malloc m maddr nan32 nan64 junk native ctx ins vm).
Proof.
  intros [Hc Hn]. unfold hot_call, op_call. apply charge_agree. intros vm' Es Eg.
  destruct (jello_is_native_builtin _); [done|].
  unfold push_call. rewrite bind_bind. apply bind_agree. intros callee vm1 E1.
  assert (v_stack vm1 = v_stack vm') as E1'.
  { revert E1. unfold callee_of, panic_if. by repeat case_match; intros [= _ <-]. }
  unfold frame_fun, ctx_frame. rewrite !bind_bind, !bind_frame_at, E1', Es.
  destruct (_ @! (cx_fr ctx)) as [fr|] eqn:Efr; [|done].
  rewrite bind_ret, bind_stack, bind_bind, bind_nframes, E1', Es.
  assert (Hu : u32 (zlen (call_frames (v_stack vm)) - 1) = zlen (call_frames (v_stack vm)) - 1).
  { apply wrapU_id. unfold is_u. apply znth_Some in Efr. lia. }
  case_if.
  - bool_hyps. rewrite Hc. pose proof (self_push_agrees fr callee (i_a ins) (i_b ins) (i_c ins) vm1) as Hs.
    cbv zeta in Hs. rewrite Hc in Efr. rewrite E1', Es in Hs. rewrite Hu. by apply Hs.
  - rewrite bind_nframes, E1', Es. apply ok_tail_agree.
Qed.

(** ** All opcodes *)

Lemma hot_case_cases op h :
  hot_case malloc m maddr nan32 nan64 junk native jdll_prim op = Some h ->
  forall ctx ins vm, op_of_code (i_op ins) = Some op -> hot_ok ctx ins vm ->
  outcome_next (h ctx ins vm) = outcome_next (cold ctx ins vm).
Proof.
  intros Hh ctx ins vm Ho Hok. unfold hot_ok in Hok. unfold op_dispatch. rewrite Ho in *.
  destruct op; cbn in Hh; try discriminate Hh; injection Hh as <-; try reflexivity.
  - destruct Hok. f_equal. by apply hot_ret_agrees.
  - by apply call_agrees.
  - by apply callr_agrees.
  - apply tailcall_agrees.
  - by apply tailcallr_agrees.
  - f_equal. apply hot_bin_agrees.
  - f_equal. apply hot_bin_agrees.
  - f_equal. apply hot_bin_agrees.
  - f_equal. apply (hot_imm_agrees Z.add); [|done]. intros a i.
    by rewrite <- wrapU_add_l, wrapU_wrapS, wrapU_add_l, wrapU_add_r.
  - f_equal. apply (hot_imm_agrees Z.sub); [|done]. intros a i.
    change (u32 (i32 a - i)) with ((i32 a - i) mod 2 ^ 32). rewrite <- Zminus_mod_idemp_l.
    change (i32 a mod 2 ^ 32) with (u32 (i32 a)). rewrite wrapU_wrapS. unfold wrapU.
    by rewrite Zminus_mod_idemp_l, Zminus_mod_idemp_r.
  - f_equal. apply hot_mul_imm_agrees.
  - by rewrite f64_fast_agrees.
  - by rewrite f64_fast_agrees.
  - apply ok_tail_agree.
  - apply ok_tail_agree.
Qed.

(** C12: the hot paths of [vm_exec_loop] do to the state, and answer the loop, what the
    handlers of the opcodes do, calls and tail calls included, where the state is
    one the hot path is made for: no export capture and no return to a frame of the
    same function with a destination of another type ([RET]), an immediate sum
    in the range of [int32_t], and a function object behind the register of an
    indirect call. *)
Theorem hot_dispatch_agrees ctx ins vm :
  hot_ok ctx ins vm -> outcome_next (hot ctx ins vm) = outcome_next (cold ctx ins vm).
Proof.
  intros H. unfold hot_dispatch. destruct (op_of_code (i_op ins)) as [op|] eqn:Eo; [|done].
  destruct (hot_case _ _ _ _ _ _ _ _ op) as [h|] eqn:Eh; [|done]. by eapply hot_case_cases.
Qed.
End Hot.

(** 9 + 5 in register 2 of the demonstration frame. *)
Lemma hot_dispatch_agrees_witness :
  let native := fun (_ : exec_ctx) (_ : jello_insn) (_ _ : Z) => mret (M := M) () in
  let jdll := fun (_ : exec_ctx) (_ : jello_insn) (_ _ : Z) => mret (M := M) true in
  let ins := mk_insn (code_of_op JOP_ADD_I32_IMM) 2 2 5 0 in
  outcome_next (hot_dispatch bump_malloc box_module 8 0 0 0 (fun _ => 0) native jdll box_ctx ins box_vm) =
  outcome_next (op_dispatch bump_malloc box_module 8 0 0 0 (fun _ => 0) native jdll box_ctx ins box_vm).
Proof.
  cbv zeta. apply hot_dispatch_agrees. intros a v Ha Hv. vm_compute in Ha. injection Ha as <-.
  vm_compute in Hv. injection Hv as <-. vm_compute. split; [discriminate | reflexivity].
Defined.

(** ** Fuel *)

Section Fuel.
Context (malloc : gc_state -> Z -> option Z) (m : jello_bc_module) (maddr : Z).
Context (nan32 nan64 junk : Z) (nan16 : bool -> Z).
Context (native : exec_ctx -> jello_insn -> Z -> Z -> M ()).
Context (jdll_prim : exec_ctx -> jello_insn -> Z -> Z -> M bool).

(** The top frame is at a [JMP_IF] to itself whose register is not zero. *)
Record spinning (vm : jello_vm) : Prop := {
  sp_pending : exc_pending (v_exc vm) = false;
  sp_run : exists fr f ins a v,
  call_frames (v_stack vm) @! (zlen (call_frames (v_stack vm)) - 1) = Some fr /\
  (cf_jit_entry_done fr = true \/ cf_pc fr <> 0) /\
  m_funcs m @! (cf_f fr) = Some f /\ f_insns f @! (cf_pc fr) = Some ins /\
  cf_pc fr < f_ninsns f < 2 ^ 31 /\
  op_of_code (i_op ins) = Some JOP_JMP_IF /\ i32 (i_imm ins) = -1 /\
  vm_reg_ptr (cf_rf fr) (i_a ins) = Some a /\ mem_load 4 (frame_stack (v_stack vm)) a = Some v /\ v <> 0
}.

Abbreviation step :=
  (exec_step malloc m junk (hot_dispatch malloc m maddr nan32 nan64 junk nan16 native jdll_prim)).

Lemma zset_zset {A} (l : list A) i x y : l @[i := x] @[i := y] = l @[i := y].
Proof. unfold zset. case_decide; [by rewrite list_insert_insert_eq | done]. Qed.

Lemma set_frame_at_run i fr vm :
  set_frame_at i fr vm =
  Ret () (set_stack (set_frames ((call_frames (v_stack vm)) @[i := fr]) (v_stack vm)) vm).
Proof. done. Qed.

Lemma spin_once exports vm : spinning vm -> step 0 exports vm = Ret None vm.
Proof.
  intros [Hp (fr & f & ins & a & v & Hfr & Hj & Hf & Hi & Hpc & Ho & Him & Ha & Hv & H0)].
  assert (Hn : 0 <= zlen (call_frames (v_stack vm)) - 1) by by apply znth_Some in Hfr as [??].
  assert (Hpc0 : 0 <= cf_pc fr) by by apply znth_Some in Hi as [??].
  unfold exec_step. rewrite bind_nframes. cbn [negb andb Z.eqb].
  unfold vm_exc_dispatch at 1. rewrite bind_bind. unfold mbind at 1, M_bind, get_exc. rewrite Hp. cbn [negb].
  rewrite bind_ret, bind_nframes, (proj2 (Z.eqb_neq (zlen _) 0)) by lia.
  unfold exec_insn. rewrite bind_frame_at, Hfr. unfold fun_at. rewrite bind_must, Hf.
  assert (jit_hook (zlen (call_frames (v_stack vm)) - 1) fr vm = Ret fr vm) as Ej.
  { unfold jit_hook. destruct Hj as [-> | H]; [by rewrite andb_false_r|].
    by rewrite (proj2 (Z.eqb_neq _ 0) H). }
  rewrite (bind_run _ _ _ _ _ Ej), bind_must, Hi.
  rewrite (bind_run _ _ _ _ _ (set_frame_at_run _ _ _)).
  unfold hot_dispatch. rewrite Ho. cbn [hot_case foldr hot_control].
  unfold op_jmp_if, vm_load_u32. rewrite bind_bind, bind_load. cbn [v_stack set_stack set_frames frame_stack cx_rf].
  rewrite Ha. cbn [mbind option_bind]. rewrite Hv, (proj2 (Z.eqb_neq v 0) H0).
  unfold ctx_frame. rewrite bind_bind, bind_frame_at. cbn [v_stack set_stack set_frames call_frames cx_fr].
  rewrite znth_zset_eq by lia. cbn [cf_pc set_pc cx_f].
  assert (Hs : forall x, 0 <= x < 2 ^ 31 -> u32 x = x /\ i32 x = x).
  { intros x Hx. split; [apply wrapU_id; unfold is_u; lia | apply wrapS_id; unfold is_s; cbn; lia]. }
  assert (Eb : branch_npc ins (u32 (cf_pc fr + 1)) (f_ninsns f) = Some (cf_pc fr)).
  { unfold branch_npc. rewrite Him. destruct (Hs (cf_pc fr + 1) ltac:(lia)) as [-> ->].
    replace (cf_pc fr + 1 + -1) with (cf_pc fr) by lia.
    destruct (Hs (cf_pc fr) ltac:(lia)) as [E ->]. destruct (Hs (f_ninsns f) ltac:(lia)) as [_ ->].
    rewrite (proj2 (Z.ltb_ge (cf_pc fr) 0)), (proj2 (Z.ltb_ge (f_ninsns f) (cf_pc fr))) by lia.
    cbn [orb]. by rewrite E. }
  rewrite Eb. unfold set_frame_pc. rewrite !bind_bind, bind_stack, bind_bind, bind_must.
  cbn [v_stack set_stack set_frames call_frames]. rewrite znth_zset_eq by lia.
  unfold put_stack, mbind, M_bind, mret, M_ret. cbn [next]. f_equal.
  destruct vm as [[frs ? ? ? ? ? ?] ? ? ? ? ?]. unfold set_stack, set_frames. cbn in *. f_equal. f_equal.
  rewrite zset_zset. apply zset_id. rewrite Hfr. f_equal. by destruct fr.
Qed.

(** The instruction limit does not bound the run: whatever fuel is left, a
    conditional jump to itself keeps the loop going for any number of turns, in the
    same state. *)
Theorem fuel_does_not_bound_run exports vm n :
  spinning vm ->
  vm_exec_loop malloc m maddr nan32 nan64 junk nan16 native jdll_prim 0 exports n vm = Ret None vm.
Proof.
  intros Hs. unfold vm_exec_loop. induction n as [|n IH]; [done|]. cbn [exec_loop].
  rewrite (bind_run _ _ _ _ _ (spin_once exports vm Hs)). exact IH.
Qed.
End Fuel.

(** One unit of fuel left, register 0 not zero, the jump at pc 1. *)
Definition spin_module : jello_bc_module :=
  mk_module 1 0 1 [mk_type_entry JELLO_T_BOOL 0] 0 [] 0 [] false 0 [] 0 [] 0 [] [] [] 1
    [mk_function 1 0 [0] 2 [mk_insn (code_of_op JOP_CONST_BOOL) 0 0 1 0;
                            mk_insn (code_of_op JOP_JMP_IF) 0 0 0 (u32 (-1))] 0 [] 0] 0 0 [].

Definition spin_vm : jello_vm :=
  mk_vm (mk_stack [mk_frame 0 (mk_rf (Some 0) [0] 1 4 true) 1 0 0 false false false true false false 0]
           64 0 [1; 0; 0; 0] 4 [None] 8)
    (mk_exc [] false 4 JELLO_TRAP_NONE None) (mk_limits 1 1 0 0) (v_gc box_vm) [] 8.

Lemma fuel_does_not_bound_run_witness :
  vm_exec_loop (fun _ _ => None) spin_module 8 0 0 0 (fun _ => 0) (fun _ _ _ _ => mret ())
    (fun _ _ _ _ => mret true) 0 None (Z.to_nat 1000000000) spin_vm = Ret None spin_vm.
Proof.
  apply fuel_does_not_bound_run. split; [reflexivity|].
  exists (mk_frame 0 (mk_rf (Some 0) [0] 1 4 true) 1 0 0 false false false true false false 0).
  eexists _, _, 0, 1. split_and!; try reflexivity; [by left | lia].
Defined.
