(* ===== verification/StepThms.v ===== *)
(** * Accepted instructions do not leave their frame

    The composition of loader, checker and interpreter: a register instruction of a
    loaded module neither aborts nor has undefined behaviour on a frame of its
    function, and changes nothing but its destination register. *)

From S2P Require Import Prelude CInt Memory Bytecode Check CheckFacts FunCheck Loader LoaderSpec LoaderFacts LoaderThms Value Object Heap Vm Frame FrameFacts Float FloatThms Gc GcThms Box BoxThms Types Ops ArithOps Call CallFacts Exc CoreOps CallOps ContainerOps BytesOps ObjOps Exec.

(** The instructions that work on registers and constants only: no heap, no
    branch, no division, no conversion to i64. *)
Definition register_only (o : jello_op) : bool :=
  match o with
  | JOP_NOP | JOP_MOV
  | JOP_CONST_I32 | JOP_CONST_I8_IMM | JOP_CONST_BOOL | JOP_CONST_NULL | JOP_CONST_ATOM
  | JOP_CONST_F16 | JOP_CONST_F32 | JOP_CONST_I64 | JOP_CONST_F64
  | JOP_ADD_I32 | JOP_SUB_I32 | JOP_MUL_I32 | JOP_SHL_I32 | JOP_SHR_I32
  | JOP_ADD_I32_IMM | JOP_SUB_I32_IMM | JOP_MUL_I32_IMM
  | JOP_ADD_I64 | JOP_SUB_I64 | JOP_MUL_I64 | JOP_SHL_I64 | JOP_SHR_I64
  | JOP_ADD_F16 | JOP_SUB_F16 | JOP_MUL_F16
  | JOP_ADD_F32 | JOP_SUB_F32 | JOP_MUL_F32 | JOP_DIV_F32
  | JOP_ADD_F64 | JOP_SUB_F64 | JOP_MUL_F64 | JOP_DIV_F64
  | JOP_NEG_I32 | JOP_NEG_I64 | JOP_NEG_F32 | JOP_NEG_F64 | JOP_NOT_BOOL
  | JOP_EQ_I32 | JOP_LT_I32 | JOP_EQ_I32_IMM | JOP_LT_I32_IMM | JOP_EQ_I64 | JOP_LT_I64
  | JOP_EQ_F32 | JOP_LT_F32 | JOP_EQ_F64 | JOP_LT_F64
  | JOP_SEXT_I64 | JOP_SEXT_I16 | JOP_TRUNC_I8 | JOP_TRUNC_I16 | JOP_I32_FROM_I64
  | JOP_F64_FROM_I32 | JOP_F64_FROM_I64 | JOP_F32_FROM_I32 | JOP_F64_FROM_F32
  | JOP_F32_FROM_F64 | JOP_F32_FROM_I64 | JOP_F16_FROM_F32 | JOP_F32_FROM_F16 | JOP_F16_FROM_I32
  | JOP_BITAND_I32 | JOP_BITAND_I64 | JOP_BITOR_I32 | JOP_BITOR_I64 | JOP_BITXOR_I32 | JOP_BITXOR_I64
  | JOP_LIST_NIL | JOP_LIST_IS_NIL => true
  | _ => false
  end.

Lemma f16_normalize_total n : forall mant exp, 2 ^ 23 <= mant * 2 ^ Z.of_nat n -> 0 <= mant < 2 ^ 24 ->
  is_Some (f16_normalize n mant exp).
Proof.
  induction n as [|n IH]; intros mant exp Hlo Hhi; cbn [f16_normalize];
    change 0x800000 with (2 ^ 23); rewrite land_bit by lia; destruct (Z.testbit mant 23) eqn:Hb; try by eexists.
  - apply Z.testbit_false in Hb; [|lia]. assert (mant / 2 ^ 23 = 1) as E; [|by rewrite E in Hb].
    symmetry. apply (Z.div_unique_pos _ _ _ (mant - 2 ^ 23)); lia.
  - apply Z.testbit_false in Hb; [|lia]. assert (mant < 2 ^ 23).
    { destruct (Z_lt_le_dec mant (2 ^ 23)); [done|]. assert (mant / 2 ^ 23 = 1) as E; [|by rewrite E in Hb].
      symmetry. apply (Z.div_unique_pos _ _ _ (mant - 2 ^ 23)); lia. }
    rewrite Z.shiftl_mul_pow2, (wrapU_id 32) by (unfold is_u; lia). apply IH; [|lia].
    rewrite Nat2Z.inj_succ, Z.pow_succ_r in Hlo by lia. lia.
Qed.

(** The conversion of a binary16 pattern always ends. *)
Lemma f16_total nan16 b : is_u 16 b -> exists x, vm_f16_bits_to_f32 nan16 b = Some x.
Proof.
  intros Hb. unfold vm_f16_bits_to_f32. destruct (Z.eqb_spec (Z.land b 0x7FFF) 0) as [|Hz]; [by eexists|].
  destruct (Z.eqb_spec (Z.land (Z.shiftr b 10) 0x1F) 0) as [He|]; [|case_if; by eexists]. change 0x7FFF with (2 ^ 15 - 1) in Hz. change 0x1F with (2 ^ 5 - 1) in He.
  change 0x3FF with (2 ^ 10 - 1). rewrite land_ones_mod in Hz, He by lia. rewrite land_ones_mod by lia.
  rewrite Z.shiftr_div_pow2 in He by lia. unfold is_u in Hb.
  change (2 ^ 15) with (2 ^ 10 * 2 ^ 5) in Hz. rewrite Z.rem_mul_r, He in Hz by lia.
  assert (Hm : 0 < b mod 2 ^ 10 < 2 ^ 10) by (pose proof (Z.mod_pos_bound b (2 ^ 10)); lia).
  revert Hm. generalize (b mod 2 ^ 10). intros m Hm.
  rewrite (Z.shiftl_mul_pow2 m 13), (wrapU_id 32 (m * 2 ^ 13)) by (unfold is_u; lia).
  destruct (f16_normalize_total 10 (m * 2 ^ 13) (Z.land (Z.shiftr b 10) 31)) as [[x e] ->]; [lia..|]. by eexists.
Qed.

(** The word a register holds becomes a 16-bit pattern. *)
Lemma f16_some nan16 v : is_Some (vm_f16_bits_to_f32 nan16 (u16 v)).
Proof. destruct (f16_total nan16 (u16 v)) as [x ->]; [by apply wrapU_range | by eexists]. Qed.

#[local] Hint Resolve f16_some : core.

Section Step.
Context (m : jello_bc_module) (f : jello_bc_function) (rf : reg_frame) (ks : list jello_type_kind).

(** What a register instruction does: at most register [a] changes. *)
Definition only_reg (a : Z) (vm vm' : jello_vm) : Prop :=
  frame_of m f rf ks vm' /\ (forall r, r <> a -> reg rf ks r vm' = reg rf ks r vm) /\
  exists mem, vm' = set_stack (set_mem mem (v_stack vm)) vm /\ zlen mem = zlen (frame_stack (v_stack vm)).

Definition steps (a : Z) (vm : jello_vm) (r : op_result) (vm' : jello_vm) : Prop :=
  r = OP_CONTINUE /\ only_reg a vm vm'.

Lemma steps_same a vm : frame_of m f rf ks vm -> steps a vm OP_CONTINUE vm.
Proof.
  intros H. split; [done|]. split; [done|]. split; [done|]. exists (frame_stack (v_stack vm)). by destruct vm as [[] ? ? ? ? ?].
Qed.

Lemma wp_store_step n k a v vm (Q : () -> jello_vm -> Prop) :
  frame_of m f rf ks vm -> ks @! a = Some k -> n = width_of k ->
  (forall vm', only_reg a vm vm' -> Q () vm') -> wp (store_reg n rf a v) vm Q.
Proof.
  intros H Hk Hn HQ. unfold wp. rewrite (store_reg_run _ _ _ (proj1 H) n a k v Hk Hn). apply HQ.
  destruct (with_reg_writes m f rf ks vm n a k v H Hk Hn) as (_ & H1 & H2).
  split_and!; [by apply frame_of_with_reg | done | done].
Qed.

(** An access of [n] bytes the checker allows. *)
Definition reg_width (r n : Z) : Prop := exists k, ks @! r = Some k /\ jello_slot_size k = n.

Lemma wp_load_w n r vm (Q : Z -> jello_vm -> Prop) :
  frame_of m f rf ks vm -> reg_width r (Z.of_nat n) -> (forall x, Q x vm) -> wp (load_reg n rf r) vm Q.
Proof.
  intros H (k & Hk & Hn) HQ. eapply wp_load; [done | done | | apply HQ].
  unfold width_of. rewrite Hn. lia.
Qed.

Lemma wp_store_w n r v vm (Q : () -> jello_vm -> Prop) :
  frame_of m f rf ks vm -> reg_width r (Z.of_nat n) ->
  (forall vm', only_reg r vm vm' -> Q () vm') -> wp (store_reg n rf r v) vm Q.
Proof.
  intros H (k & Hk & Hn) HQ. eapply wp_store_step; eauto. unfold width_of. rewrite Hn. lia.
Qed.

Lemma wp_kind r vm n (Q : jello_type_kind -> jello_vm -> Prop) :
  frame_of m f rf ks vm -> reg_width r n -> (forall k, ks @! r = Some k -> Q k vm) ->
  wp (must (vm_reg_kind m f r)) vm Q.
Proof. intros [_ H] (k & Hk & _) HQ. rewrite (H r k Hk). by apply HQ. Qed.

Lemma wp_must_some {A} (o : option A) vm (Q : A -> jello_vm -> Prop) :
  is_Some o -> (forall x, Q x vm) -> wp (must o) vm Q.
Proof. intros [x ->] HQ. apply HQ. Qed.
End Step.

(** Running a handler: reads leave the state, the store ends it. *)
Ltac step_handler :=
  repeat lazymatch goal with
  | |- wp (mret _) _ _ => apply wp_ret
  | |- wp (load_reg _ _ _) _ _ =>
      eapply wp_load_w; [eassumption | eassumption |]; cbv beta; intros ?
  | |- wp (store_reg _ _ _ _) _ _ =>
      eapply wp_store_w; [eassumption | eassumption |]; cbv beta; intros ? ?
  | |- wp (must (vm_reg_kind _ _ _)) _ _ =>
      eapply wp_kind; [eassumption | eassumption |]; cbv beta; intros ? ?
  | |- wp (must _) _ _ => apply wp_must_some; [solve [eauto | by eexists] |]; cbv beta; intros ?
  | |- wp (_ ≫= _) _ _ => apply wp_bind
  end.

Section Handlers.
Context (malloc : gc_state -> Z -> option Z) (m : jello_bc_module) (maddr : Z).
Context (nan32 nan64 junk : Z) (nan16 : bool -> Z).
Context (native : exec_ctx -> jello_insn -> Z -> Z -> M ()).
Context (jdll_prim : exec_ctx -> jello_insn -> Z -> Z -> M bool).
Context (f : jello_bc_function) (rf : reg_frame) (ks : list jello_type_kind) (ctx : exec_ctx).
Context (ins : jello_insn) (vm : jello_vm).
Hypothesis Hf : cx_f ctx = f.
Hypothesis Hrf : cx_rf ctx = rf.
Hypothesis HF : frame_of m f rf ks vm.
Hypothesis Hbytes : Forall is_byte (frame_stack (v_stack vm)).

(** The accesses of the checker, on the frame. *)
Definition frame_access (x : access) : Prop :=
  match x with
  | Width r n => reg_width ks r n
  | Slot r => exists k, ks @! r = Some k
  end.

Abbreviation done_in h := (wp (h ctx ins) vm (steps m f rf ks (i_a ins) vm)).

Ltac unfold_handler :=
  cbv beta iota delta [
    op_nop op_const_i32 op_const_i8_imm op_const_bool op_const_null op_const_atom
      op_const_f16 op_const_f32 op_const_i64 op_const_f64 op_add_i32 op_sub_i32 op_mul_i32
      op_shl_i32 op_shr_i32 op_add_i32_imm op_sub_i32_imm op_mul_i32_imm op_add_i64 op_sub_i64
      op_mul_i64 op_shl_i64 op_shr_i64 op_add_f16 op_sub_f16 op_mul_f16 op_add_f32 op_sub_f32
      op_mul_f32 op_div_f32 op_add_f64 op_sub_f64 op_mul_f64 op_div_f64 op_neg_i32 op_neg_i64
      op_neg_f32 op_neg_f64 op_not_bool op_eq_i32 op_lt_i32 op_eq_i32_imm op_lt_i32_imm
      op_eq_i64 op_lt_i64 op_eq_f32 op_lt_f32 op_eq_f64 op_lt_f64 op_sext_i64 op_sext_i16
      op_trunc_i8 op_trunc_i16 op_i32_from_i64 op_f64_from_i32 op_f64_from_i64 op_f32_from_i32
      op_f64_from_f32 op_f32_from_f64 op_f32_from_i64 op_f16_from_f32 op_f32_from_f16
      op_f16_from_i32 op_bitand_i32 op_bitand_i64 op_bitor_i32 op_bitor_i64 op_bitxor_i32
      op_bitxor_i64 op_list_nil op_list_is_nil OP_UN_I32_MASKED OP_UN_I64 OP_UN_F32 OP_UN_F64
      OP_BIN_I32_MASKED OP_BIN_I32_IMM_MASKED OP_BIN_F32 OP_BIN_F64 OP_BIN_F16 OP_BIN_I64
      OP_CMP_I32 OP_CMP_I32_IMM OP_CMP_F32 OP_CMP_F64 OP_CMP_I64 OP_BIT_I64 load_f16
      vm_store_u32_masked vm_load_u32 vm_store_u32 vm_load_i32ish vm_load_i64 vm_store_i64
      vm_load_f32 vm_store_f32 vm_load_f64 vm_store_f64 vm_load_f16_bits vm_store_f16_bits
      vm_load_val vm_store_val vm_load_ptr vm_store_ptr].

Lemma register_insn_safe o (slot : Z -> Z) :
  op_of_code (i_op ins) = Some o -> register_only o = true ->
  Forall frame_access (accesses slot o ins) ->
  (o = JOP_MOV -> forall k, ks @! (i_a ins) = Some k -> slot (i_a ins) = jello_slot_size k) ->
  (o = JOP_CONST_I64 -> is_Some (m_const_i64 m @! (i_imm ins))) ->
  (o = JOP_CONST_F64 -> is_Some (m_const_f64 m @! (i_imm ins))) ->
  done_in (op_dispatch malloc m maddr nan32 nan64 junk nan16 native jdll_prim).
Proof.
  intros Ho Hr Ha Hmov Hi64 Hf64. unfold op_dispatch. rewrite Ho.
  destruct o; try discriminate Hr; clear Hr; cbn [accesses] in Ha;
    repeat (apply Forall_cons in Ha as [? Ha]); cbn [frame_access] in *;
    try (unfold_handler; rewrite ?Hf, ?Hrf; step_handler; first [done | by apply steps_same]).
  destruct H as (k & Hk & Hs), H0 as (k' & Hk' & Hs'). rewrite (Hmov eq_refl k Hk) in Hs'.
  unfold op_mov. rewrite Hf, Hrf. apply wp_bind.
  apply (wp_must _ k); [by apply HF|]. apply wp_bind.
  destruct (ro_mem _ _ _ (proj1 HF) (i_a ins)) as (base & Hb & _); [by apply znth_Some in Hk|].
  eapply wp_mono; [by apply (copy_slot_spec m f rf ks f rf ks (i_b ins) (i_a ins) k' k base vm)|].
  cbv beta. intros [] vm' (W & _ & Ho'). apply wp_ret. split; [done|]. split; [by eapply frame_of_writes|].
  split; [done|]. destruct W as (mem & -> & Hz & _). by exists mem.
Qed.
End Handlers.

(** ** From the file to the step *)

Section Loaded.
Context (junk_type : jello_type_entry) (junk_tid : Z) (m : jello_bc_module).
Context (f : jello_bc_function) (ks : list jello_type_kind).
Hypothesis Hm : module_ok junk_type junk_tid m.
Hypothesis Hf : function_ok junk_type junk_tid m f.
Hypothesis Hks : function_regs m f ks.

Abbreviation slot := (fun r => slot_size junk_type m (reg_type junk_tid (f_reg_types f) r)).

Lemma slot_kind r : 0 <= r < f_nregs f -> exists k, ks @! r = Some k /\ slot r = jello_slot_size k.
Proof.
  intros Hr. destruct (znth_in_range ks r) as [k Hk]; [rewrite (fr_len _ _ _ Hks); lia|].
  exists k. split; [done|]. pose proof (fr_kind _ _ _ Hks r k Hk) as H. revert H.
  unfold vm_reg_kind, slot_size, type_at, reg_type.
  destruct (f_reg_types f @! r) as [t|] eqn:Et; [|done]. rewrite (zget_Some _ _ _ _ Et).
  destruct (m_types m @! t) as [te|] eqn:Ete; [|done]. rewrite (zget_Some _ _ _ _ Ete).
  by intros [= ->].
Qed.

Lemma access_frame x : access_ok (f_nregs f) slot x -> frame_access ks x.
Proof.
  destruct x as [r n|r]; cbn [access_ok frame_access]; [intros [Hr <-] | intros Hr];
    destruct (slot_kind r Hr) as (k & Hk & Hs); exists k; auto.
Qed.

Lemma const_index o pc ins :
  insn_ok junk_type junk_tid m f pc ins -> op_of_code (i_op ins) = Some o ->
  (o = JOP_CONST_I64 -> is_Some (m_const_i64 m @! (i_imm ins))) /\
  (o = JOP_CONST_F64 -> is_Some (m_const_f64 m @! (i_imm ins))).
Proof.
  intros [Hwf Hok] Ho. destruct Hwf as (_ & _ & _ & _ & Him). unfold is_u in Him.
  destruct (mo_ni64 _ _ _ Hm) as [_ Hi], (mo_nf64 _ _ _ Hm) as [_ Hd].
  unfold jello_bc_validate_insn in Hok. rewrite Ho in Hok.
  split; intros ->; cbn -[Z.leb] in Hok; accepted Hok; bool_hyps; apply znth_is_Some; lia.
Qed.
End Loaded.

(** C3: a module read from a file runs its register instructions without undefined
    behaviour: on a frame of the function the handler ends, goes on, keeps the
    frame and changes no register but its destination and nothing else of the
    virtual machine.  The register instructions ([register_only]) are the moves, the
    constants that are immediates or in the number tables, sums, differences, products,
    shifts and bit operations, float quotients, negation, numeric comparisons and the
    conversions that cannot trap.  Integer quotients and remainders are not among them
    (a zero divisor and INT_MIN / -1 are undefined behaviour), nor the conversions of
    floats to integers, which may trap, nor what boxes or follows a reference. *)
Theorem loaded_insn_runs junk_type junk_tid junk_byte oom data r m f pc ins o
    malloc maddr nan32 nan64 junk nan16 native jdll_prim ctx rf ks vm :
  Forall is_byte data -> zlen data <= UINT32_MAX ->
  jello_bc_read junk_type junk_tid junk_byte oom data false = Returned r (Some m) -> is_ok r = true ->
  f ∈ m_funcs m -> f_insns f @! pc = Some ins ->
  op_of_code (i_op ins) = Some o -> register_only o = true ->
  cx_f ctx = f -> cx_rf ctx = rf -> function_regs m f ks -> frame_of m f rf ks vm ->
  wp (op_dispatch malloc m maddr nan32 nan64 junk nan16 native jdll_prim ctx ins) vm
    (steps m f rf ks (i_a ins) vm).
Proof.
  intros Hb Hs Hr Hok Hf Hins Ho Hreg Hcf Hcr Hks HF.
  pose proof (read_spec junk_type junk_tid junk_byte oom data Hb Hs) as H. rewrite Hr in H.
  destruct H as [[_ Hm] | [H _]]; [|apply is_ok_inv in Hok; congruence].
  pose proof (mo_funcs _ _ _ Hm) as Hfs. rewrite Forall_forall in Hfs.
  pose proof (Hfs f Hf) as Hfok. pose proof (fo_insns _ _ _ _ Hfok pc ins Hins) as Hi.
  set (slot := fun r => slot_size junk_type m (reg_type junk_tid (f_reg_types f) r)).
  assert (Ha : Forall (access_ok (f_nregs f) slot) (accesses slot o ins))
    by (eapply insn_accesses_ok; [apply Hi | apply Hfok | done | apply Hi]).
  eapply (register_insn_safe _ _ _ _ _ _ _ _ _ _ _ _ _ _ _ Hcf Hcr HF o slot Ho Hreg).
  - eapply Forall_impl; [exact Ha|]. intros x. by apply access_frame.
  - intros -> k Hk. destruct (slot_kind junk_type junk_tid m f ks Hks (i_a ins)) as (k' & Hk' & Es).
    { rewrite <- (fr_len _ _ _ Hks). by apply znth_Some in Hk. }
    rewrite Hk in Hk'. injection Hk' as ->. exact Es.
  - by eapply const_index.
  - by eapply const_index.
Qed.

(** ** Witness: the [sext] of the demonstration file, from register 0 to 1. *)

Definition step_rf : reg_frame := mk_rf (Some 0) [0; 8] 2 16 true.
Definition step_kinds : list jello_type_kind := [JELLO_T_I32; JELLO_T_I64].

Definition step_vm : jello_vm :=
  set_stack (mk_stack [] 0 0 (le_bytes 4 (u32 (-3)) ++ replicate 12 0) 16 [] 0) box_vm.

Lemma step_regs : function_regs demo_full demo_fun step_kinds.
Proof.
  constructor; [done | | done].
  intros r k (n & -> & Hk)%znth_inv. do 2 (destruct n as [|n]; [by injection Hk as <-|]). done.
Qed.

Lemma step_frame : frame_of demo_full demo_fun step_rf step_kinds step_vm.
Proof.
  split; [|apply step_regs].
  constructor; [done | apply slots_layout_ok; vm_compute; repeat split; done|].
  intros r Hr. exists 0. vm_compute. repeat split; discriminate.
Qed.

Lemma loaded_insn_runs_witness :
  wp (op_dispatch (fun _ _ => None) demo_full 8 0 0 0 (fun _ => 0) (fun _ _ _ _ => mret ())
        (fun _ _ _ _ => mret true) (mk_ctx demo_fun 0 step_rf None) (insn_of JOP_SEXT_I64 1 0 0 0)) step_vm
    (steps demo_full demo_fun step_rf step_kinds 1 step_vm).
Proof.
  eapply (loaded_insn_runs junk_entry 0 0 no_oom demo_bytes ok demo_full demo_fun 1);
    [apply demo_bytes_ok | apply demo_bytes_ok | exact demo_loads | reflexivity | apply list_elem_of_here
    | reflexivity | reflexivity | reflexivity | reflexivity | reflexivity | exact step_regs | exact step_frame].
Defined.
