(* ===== verification/ExcThms.v ===== *)
(** * Exceptions: who catches, and what is left of the stack

    [vm_exc_dispatch] on a stack whose frames tile the frame stack: the innermost
    handler that takes the trap gets control in its frame, every frame above is
    gone with its memory and its handlers, every frame below is untouched. *)

From S2P Require Import Prelude CInt Memory Bytecode Value Object Heap Vm Frame FrameFacts Float Gc Box Types Ops Call CallFacts CallThms Exc ExecThms.

#[local] Open Scope list_scope.
#[local] Open Scope Z_scope.

(** ** The choice of the handler *)

Definition declines (thrown : bool) (h : exc_handler) : bool := thrown && h_trap_only h.

Lemma find_handler_spec thrown below h skipped :
  Forall (fun h' => declines thrown h' = true) skipped -> declines thrown h = false ->
  find_handler thrown (rev (below ++ h :: skipped)) = Some (h, rev below).
Proof.
  intros Hs Hh. rewrite rev_app_distr. cbn [rev]. rewrite <- app_assoc. cbn [app].
  assert (forall l tl, Forall (fun h' => declines thrown h' = true) l ->
    find_handler thrown (rev l ++ tl) = find_handler thrown tl) as Hskip.
  { induction l as [|x l IH] using rev_ind; intros tl Hl; [done|].
    rewrite rev_app_distr. cbn [rev app find_handler]. apply Forall_app in Hl as [Hl Hx].
    apply Forall_cons in Hx as [Hx _]. unfold declines in Hx. rewrite Hx. by apply IH. }
  rewrite Hskip by done. cbn [find_handler]. unfold declines in Hh. by rewrite Hh.
Qed.

Lemma find_handler_none thrown hs :
  Forall (fun h => declines thrown h = true) hs -> find_handler thrown (rev hs) = None.
Proof.
  induction hs as [|x l IH] using rev_ind; intros Hl; [done|]. rewrite rev_app_distr.
  cbn [rev app find_handler]. apply Forall_app in Hl as [Hl Hx].
  apply Forall_cons in Hx as [Hx _]. unfold declines in Hx. rewrite Hx. by apply IH.
Qed.

(** Handlers of frames further down stay. *)
Lemma pop_for_frame_below i hs :
  Forall (fun h => h_frame_index h < i) hs -> rev (pop_for_frame i (rev hs)) = hs.
Proof.
  intros H. apply Forall_rev in H. destruct (rev hs) as [|h l] eqn:E; cbn [pop_for_frame].
  - by rewrite <- (rev_involutive hs), E.
  - apply Forall_cons in H as [H _]. rewrite (proj2 (Z.eqb_neq _ _)) by lia.
    by rewrite <- E, rev_involutive.
Qed.

(** ** Unwinding *)

Section Unwind.
Context (m : jello_bc_module) (maddr : Z).

(** The state with other frames and handlers. *)
Definition with_handlers (hs : list exc_handler) (e : exc_state) : exc_state :=
  mk_exc hs (exc_pending e) (exc_payload e) (trap_code e) (trap_msg e).

Definition unwound (frs : list call_frame) (top : Z) (hs : list exc_handler) (vm : jello_vm) : jello_vm :=
  set_exc (with_handlers hs (v_exc vm)) (set_stack (set_frames frs (set_top top (v_stack vm))) vm).

Lemma cap_ok_max cap : cap_ok cap -> 0 <= cap <= 2 ^ 30.
Proof.
  intros [-> | (j & Hj & ->)]; [lia|]. split; [apply Z.pow_nonneg; lia|].
  apply Z.pow_le_mono_r; lia.
Qed.

(** Releasing the topmost of tiled frames gives its memory back. *)
Lemma rf_release_run vm frs fr :
  cap_ok (zlen (frame_stack (v_stack vm))) ->
  tiled m (frame_stack (v_stack vm)) 0 (frs ++ [fr]) (frame_stack_top (v_stack vm)) ->
  frame_stack_top (v_stack vm) <= zlen (frame_stack (v_stack vm)) ->
  exists mid, tiled m (frame_stack (v_stack vm)) 0 frs mid /\ 0 <= mid <= frame_stack_top (v_stack vm) /\
  vm_rf_release (cf_rf fr) vm = Ret () (set_stack (set_top mid (v_stack vm)) vm).
Proof.
  intros Hcap Ht Htop. apply tiled_app in Ht as (mid & Hfrs & [Hfr Hend]). cbn [tiled] in Hend.
  pose proof (tiled_le _ _ _ _ _ Hfrs). destruct Hfr as (f & ks & _ & _ & Hrf & Htot & Hmem & _).
  exists mid. split; [done|]. split; [lia|]. unfold vm_rf_release. rewrite Hmem.
  destruct (Z.eqb_spec (rf_total (cf_rf fr)) 0) as [E|E].
  - replace mid with (frame_stack_top (v_stack vm)) by lia. by destruct vm as [[] ? ? ? ? ?].
  - rewrite bind_stack. rewrite (proj2 (Z.leb_le 0 mid)), (proj2 (Z.ltb_lt mid _)) by lia. cbn [andb].
    unfold put_stack. f_equal. f_equal. f_equal. rewrite <- Hend.
    replace (mid + rf_total (cf_rf fr) - rf_total (cf_rf fr)) with mid by lia.
    pose proof (cap_ok_max _ Hcap). apply wrapU_id. unfold is_u. lia.
Qed.

Lemma drop_top_run vm frs fr :
  stack_wf m maddr (v_stack vm) -> call_frames (v_stack vm) = frs ++ [fr] ->
  exists mid, stack_wf m maddr (set_frames frs (set_top mid (v_stack vm))) /\
  drop_top_frame vm = Ret () (set_stack (set_frames frs (set_top mid (v_stack vm))) vm).
Proof.
  intros [Hcap Htop Ht Hl] E. rewrite E in Ht.
  destruct (rf_release_run vm frs fr Hcap Ht ltac:(lia)) as (mid & Hfrs & Hmid & Er).
  exists mid. split; [constructor; cbn; [done | lia | done | exact Hl]|].
  unfold drop_top_frame. rewrite bind_stack, E, last_snoc, bind_must, (bind_run _ _ _ _ _ Er), bind_stack.
  unfold put_stack. cbn. by rewrite E, removelast_last.
Qed.

(** The index of the top frame, as the loop computes it. *)
Lemma top_index vm n :
  zlen (call_frames (v_stack vm)) = n + 1 -> 0 <= n -> n + 1 < 2 ^ 32 ->
  u32 (zlen (call_frames (v_stack vm)) - 1) = n.
Proof. intros -> H0 H1. rewrite wrapU_id; [lia | unfold is_u; lia]. Qed.

Lemma unwind_to_stop fuel vm n :
  u32 (zlen (call_frames (v_stack vm)) - 1) = n -> unwind_to fuel n vm = Ret () vm.
Proof. intros E. destruct fuel; cbn [unwind_to]; by rewrite bind_stack, E, Z.leb_refl. Qed.

Lemma unwound_self vm : unwound (call_frames (v_stack vm)) (frame_stack_top (v_stack vm)) (exc_handlers (v_exc vm)) vm = vm.
Proof. by destruct vm as [[] [] ? ? ? ?]. Qed.

Lemma unwound_stack frs top hs vm : v_stack (unwound frs top hs vm) = set_frames frs (set_top top (v_stack vm)).
Proof. done. Qed.

(** Down to frame [zlen frs], whose handlers and those below stay. *)
Lemma unwind_to_run fuel vm frs target above :
  stack_wf m maddr (v_stack vm) -> call_frames (v_stack vm) = frs ++ target :: above ->
  zlen (call_frames (v_stack vm)) < 2 ^ 32 -> (length above <= fuel)%nat ->
  Forall (fun h => h_frame_index h <= zlen frs) (exc_handlers (v_exc vm)) ->
  exists top, stack_wf m maddr (set_frames (frs ++ [target]) (set_top top (v_stack vm))) /\
  unwind_to fuel (zlen frs) vm = Ret () (unwound (frs ++ [target]) top (exc_handlers (v_exc vm)) vm).
Proof.
  revert vm fuel. induction above as [|fr above' IH] using rev_ind; intros vm fuel Hw E Hn Hf Hb;
    pose proof (zlen_nonneg frs).
  - exists (frame_stack_top (v_stack vm)). rewrite <- E, unwound_self. split; [by destruct vm as [[] ? ? ? ? ?]|].
    apply unwind_to_stop, top_index; rewrite E in *; rewrite zlen_app, zlen_cons, zlen_nil in *; lia.
  - pose proof (zlen_nonneg above').
    assert (El : zlen (call_frames (v_stack vm)) = zlen frs + zlen above' + 1 + 1).
    { rewrite E, zlen_app, zlen_cons, zlen_app, zlen_cons, zlen_nil. lia. }
    rewrite length_app in Hf. destruct fuel as [|fuel]; [cbn in Hf; lia|]. cbn [unwind_to].
    rewrite bind_stack, (top_index _ _ El) by lia. rewrite (proj2 (Z.leb_gt _ _)) by lia.
    assert (Ep : vm_exc_pop_for_frame (zlen frs + zlen above' + 1) vm = Ret () vm).
    { unfold vm_exc_pop_for_frame, set_handlers, mbind, M_bind, get_exc, put_exc.
      rewrite pop_for_frame_below by (eapply Forall_impl; [exact Hb|]; cbn; lia).
      by destruct vm as [? [] ? ? ? ?]. }
    rewrite (bind_run _ _ _ _ _ Ep).
    replace (frs ++ target :: above' ++ [fr]) with ((frs ++ target :: above') ++ [fr]) in E
      by by rewrite <- app_assoc.
    destruct (drop_top_run vm _ _ Hw E) as (mid & Hw' & Ed). rewrite (bind_run _ _ _ _ _ Ed).
    set (vm1 := set_stack _ vm). destruct (IH vm1 fuel) as (top & Hw2 & E2); try done.
    + cbn [vm1 v_stack set_stack call_frames set_frames]. rewrite zlen_app, zlen_cons. lia.
    + cbn in Hf. lia.
    + by exists top.
Qed.

(** Every frame gone. *)
Lemma release_frames_run vm frs :
  cap_ok (zlen (frame_stack (v_stack vm))) ->
  tiled m (frame_stack (v_stack vm)) 0 frs (frame_stack_top (v_stack vm)) ->
  frame_stack_top (v_stack vm) <= zlen (frame_stack (v_stack vm)) ->
  release_frames (rev frs) vm = Ret () (set_stack (set_top 0 (v_stack vm)) vm).
Proof.
  revert vm. induction frs as [|fr frs IH] using rev_ind; intros vm Hcap Ht Htop.
  - cbn in *. rewrite Ht. by destruct vm as [[] ? ? ? ? ?].
  - rewrite rev_app_distr. cbn [rev app release_frames].
    destruct (rf_release_run vm frs fr Hcap Ht Htop) as (mid & Hfrs & Hmid & Er).
    rewrite (bind_run _ _ _ _ _ Er). set (vm1 := set_stack _ vm).
    by rewrite (IH vm1) by (done || cbn; lia).
Qed.

(** ** Dispatch *)

Context (malloc : gc_state -> Z -> option Z) (junk : Z).

Definition is_throw (vm : jello_vm) : bool := bool_decide (trap_code (v_exc vm) = JELLO_TRAP_THROWN).

Lemma wrap_user_throw vm :
  catch_payload_is_user_throw (v_exc vm) = true ->
  vm_wrap_catch_payload malloc m junk vm = Ret (exc_payload (v_exc vm)) vm.
Proof. intros H. unfold vm_wrap_catch_payload, mbind, M_bind, get_exc. by rewrite H. Qed.

(** A store into an 8-byte register of the topmost frame. *)
Lemma store_top_reg vm frs fr f ks r k v :
  stack_wf m maddr (v_stack vm) -> call_frames (v_stack vm) = frs ++ [fr] ->
  frame_fun m fr f ks -> ks @! r = Some k -> jello_slot_size k = 8 ->
  exists vm', store_reg 8 (cf_rf fr) r v vm = Ret () vm' /\
  stack_wf m maddr (v_stack vm') /\ call_frames (v_stack vm') = frs ++ [fr] /\
  regs_of fr ks r vm' = u64 v /\ (forall r', r' <> r -> regs_of fr ks r' vm' = regs_of fr ks r' vm) /\
  same_registers m frs vm vm' /\ v_exc vm' = v_exc vm /\ v_gc vm' = v_gc vm.
Proof.
  intros [Hcap Htop Ht Hl] E [Hf Hks] Hk Hsz. rewrite E in Ht.
  apply tiled_app in Ht as (base & Hfrs & [Hfw Habove]).
  pose proof (tiled_le _ _ _ _ _ Hfrs) as Hb0. pose proof (tiled_le _ _ _ _ _ Habove) as Hb1.
  pose proof Hfw as (f' & ks' & Hf' & Hks' & Hrf & Htot & Hmem & Hptr).
  rewrite Hf in Hf'. injection Hf' as <-. rewrite <- (function_regs_unique _ _ _ _ Hks Hks') in *. clear ks' Hks'.
  assert (HF : frame_of m f (cf_rf fr) ks vm) by (split; [exact Hrf | apply Hks]).
  assert (Hw : 8%nat = width_of k) by (unfold width_of; by rewrite Hsz).
  destruct (with_reg_writes m f (cf_rf fr) ks vm 8 r k v HF Hk Hw) as (R1 & R2 & _).
  destruct (with_reg_inv (cf_rf fr) ks vm Hrf 8 r k v Hk Hw) as (addr & mem & Ea & Em & E4).
  eexists. split; [by apply (store_reg_run (cf_rf fr) ks vm Hrf 8 r k)|]. rewrite E4 in *.
  assert (Hz : zlen mem = zlen (frame_stack (v_stack vm))) by (by eapply zlen_mem_store in Em).
  assert (Hbase : rf_mem (cf_rf fr) = Some base).
  { rewrite Hmem. destruct (Z.eqb_spec (rf_total (cf_rf fr)) 0); [|done].
    unfold vm_reg_ptr in Ea. by rewrite Hmem in Ea. }
  destruct (slot_addr m f (cf_rf fr) ks r k vm base HF Hbase Hk) as (addr' & Ea' & Hlo & _).
  rewrite Ea in Ea'. injection Ea' as <-. split_and!; try done.
  - constructor; cbn; rewrite ?Hz; try done. rewrite E.
    eapply (tiled_agree m (frame_stack (v_stack vm))); [lia|]. apply tiled_app. by exists base.
  - unfold regs_of. cbn in R1 |- *. rewrite R1, Hsz. done.
  - set (vm0 := set_stack (set_frames frs (set_top base (v_stack vm))) vm).
    apply (same_registers_agree m maddr vm0); [constructor; cbn; try done; lia|].
    eapply agree_below_le; [exact Hlo | by eapply block_write_agree].
Qed.

(** The pc of a frame is not part of its layout. *)
Lemma set_pc_stack_wf vm frs fr top pc :
  stack_wf m maddr (set_frames (frs ++ [fr]) (set_top top (v_stack vm))) ->
  stack_wf m maddr (set_frames (frs ++ [set_pc pc fr]) (set_top top (v_stack vm))).
Proof.
  intros [H1 H2 H3 H4]. constructor; try done. cbn in *. apply tiled_app in H3 as (mid & H3 & H5).
  apply tiled_app. by exists mid.
Qed.

(** What the catching frame finds. *)
Record caught (vm : jello_vm) (frs : list call_frame) (target : call_frame) (ks : list jello_type_kind)
    (below : list exc_handler) (h : exc_handler) (vm' : jello_vm) : Prop := {
    ca_frames : call_frames (v_stack vm') = frs ++ [set_pc (h_catch_pc h) target];
    ca_stack : stack_wf m maddr (v_stack vm');
    ca_exc : v_exc vm' = mk_exc below false jello_make_null JELLO_TRAP_NONE None;
    ca_payload : regs_of target ks (h_dst_reg h) vm' = u64 (exc_payload (v_exc vm));
    ca_regs : forall r, r <> h_dst_reg h -> regs_of target ks r vm' = regs_of target ks r vm;
    ca_others : same_registers m frs vm vm';
    ca_heap : v_gc vm' = v_gc vm
  }.

(** A thrown value that looks like the payload of a failed assertion: the number
    [JELLO_TRAP_THROWN]. *)
Definition looks_like_assert (v : Z) : bool := jello_is_i32 v && (jello_as_i32 v =? thrown_code).

Lemma user_throw e : trap_code e = JELLO_TRAP_THROWN -> looks_like_assert (exc_payload e) = false ->
  catch_payload_is_user_throw e = true.
Proof.
  unfold catch_payload_is_user_throw, looks_like_assert. intros -> H. rewrite bool_decide_eq_true_2 by done. cbn [negb].
  destruct (jello_is_i32 _); cbn in *; [by rewrite H | done].
Qed.

(** C7: a thrown value other than the number [JELLO_TRAP_THROWN] (which the handler
    takes for a failed assertion, [thrown_four_replaced]) is caught by the innermost
    handler that is not for traps only: control continues at its catch pc in its frame,
    the value is in its register and no other register of that frame has changed; the
    frames above are gone with their memory, the frames below and their handlers are as
    before; nothing is pending any more. *)
Theorem exc_dispatch_catches vm frs target above below h skipped f ks k :
  stack_wf m maddr (v_stack vm) -> call_frames (v_stack vm) = frs ++ target :: above ->
  zlen (call_frames (v_stack vm)) < 2 ^ 32 ->
  exc_pending (v_exc vm) = true -> trap_code (v_exc vm) = JELLO_TRAP_THROWN ->
  looks_like_assert (exc_payload (v_exc vm)) = false ->
  exc_handlers (v_exc vm) = below ++ h :: skipped ->
  Forall (fun h' => h_trap_only h' = true) skipped -> h_trap_only h = false ->
  h_frame_index h = zlen frs -> Forall (fun h' => h_frame_index h' <= zlen frs) below ->
  frame_fun m target f ks -> ks @! (h_dst_reg h) = Some k -> jello_slot_size k = 8 ->
  wp (vm_exc_dispatch malloc m junk) vm (fun stop vm' => stop = false /\ caught vm frs target ks below h vm').
Proof.
  intros Hw E Hn Hp Hcode Hpay Hh Hskip Htrap Hi Hbelow Hff Hk Hsz. pose proof (user_throw _ Hcode Hpay) as Hu.
  assert (Hthrow : bool_decide (trap_code (v_exc vm) = JELLO_TRAP_THROWN) = true).
  { revert Hu. unfold catch_payload_is_user_throw. by destruct (bool_decide _). }
  unfold vm_exc_dispatch. eapply wp_run; [reflexivity|]. rewrite Hp, Hh. cbn [negb].
  rewrite Hthrow, find_handler_spec; [|by eapply Forall_impl; [exact Hskip | unfold declines; cbn; intros ? ->] | done].
  rewrite rev_involutive. eapply wp_run; [reflexivity|]. cbn [v_exc].
  set (vm1 := set_exc _ vm). eapply wp_run; [reflexivity|].
  destruct (unwind_to_run (length (call_frames (v_stack vm1))) vm1 frs target above) as (top & Hw1 & Eu);
    [exact Hw | exact E | exact Hn | cbn; rewrite E, length_app; cbn; lia | exact Hbelow|].
  rewrite Hi. eapply wp_run; [exact Eu|]. set (vm2 := unwound _ _ _ vm1). eapply wp_run; [reflexivity|].
  assert (E2 : call_frames (v_stack vm2) = frs ++ [target]) by done. pose proof (zlen_nonneg frs).
  eapply wp_run; [rewrite E2, zlen_app, zlen_cons, zlen_nil, (proj2 (Z.eqb_neq _ 0)) by lia; reflexivity|].
  assert (Et : call_frames (v_stack vm2) @! (zlen frs) = Some target).
  { rewrite E2, znth_app_r by lia. by rewrite Z.sub_diag. }
  eapply wp_run. { unfold frame_at. rewrite bind_stack, Et. reflexivity. }
  eapply wp_run; [reflexivity|]. set (vm3 := set_stack _ vm2).
  assert (E3 : call_frames (v_stack vm3) = frs ++ [set_pc (h_catch_pc h) target]).
  { cbn [vm3 v_stack set_stack set_frames call_frames]. rewrite E2. unfold zset.
    rewrite decide_True by lia. unfold zlen. rewrite Nat2Z.id.
    by rewrite insert_app_r_alt, Nat.sub_diag by lia. }
  eapply wp_run; [apply wrap_user_throw; exact Hu|].
  assert (Hw3 : stack_wf m maddr (v_stack vm3)).
  { assert (v_stack vm3 = set_frames (frs ++ [set_pc (h_catch_pc h) target]) (set_top top (v_stack vm))) as ->
    by by rewrite <- E3. by apply set_pc_stack_wf. }
  destruct (store_top_reg vm3 frs _ f ks (h_dst_reg h) k (exc_payload (v_exc vm)) Hw3 E3 Hff Hk Hsz)
    as (vm4 & Es & Hw4 & E4 & R1 & R2 & R3 & X4 & G4).
  eapply wp_run; [exact Es|]. eapply wp_run; [reflexivity|]. eapply wp_run; [reflexivity|].
  eapply wp_run; [reflexivity|]. apply wp_ret. split; [done|].
  constructor; cbn; rewrite ?X4; try done.
Qed.

(** C30: a thrown value nobody catches, because there is no handler or every handler is
    for traps only, empties the VM: dispatch tells the loop to stop, no frame,
    handler or frame memory is left, and the exception stays pending for the caller. *)
Theorem exc_dispatch_uncaught vm :
  stack_wf m maddr (v_stack vm) -> exc_pending (v_exc vm) = true ->
  Forall (fun h => declines (is_throw vm) h = true) (exc_handlers (v_exc vm)) ->
  wp (vm_exc_dispatch malloc m junk) vm (fun stop vm' => stop = true /\
    call_frames (v_stack vm') = [] /\ frame_stack_top (v_stack vm') = 0 /\
    frame_stack (v_stack vm') = frame_stack (v_stack vm) /\ v_exc vm' = with_handlers [] (v_exc vm) /\
    v_gc vm' = v_gc vm).
Proof.
  intros [Hcap Htop Ht _] Hp Hh. unfold vm_exc_dispatch. eapply wp_run; [reflexivity|].
  rewrite Hp. cbn [negb]. fold (is_throw vm). rewrite (find_handler_none _ _ Hh).
  eapply wp_run.
  { unfold vm_unwind_all_frames. rewrite bind_stack, (bind_run _ _ _ _ _ (release_frames_run _ _ Hcap Ht (proj2 Htop))).
    rewrite bind_stack. reflexivity. }
  eapply wp_run; [reflexivity|]. by apply wp_ret.
Qed.
End Unwind.

(** ** A concrete throw *)

(** Two activations of a function with one Dynamic register; the first has a handler,
    the second one that is for traps only; the value 7 has been thrown. *)
Definition exc_fun : jello_bc_function := mk_function 1 0 [0] 0 [] 0 [] 0.

Definition exc_module : jello_bc_module :=
  mk_module 1 0 1 [mk_type_entry JELLO_T_DYNAMIC 0] 0 [] 0 [] false 0 [] 0 [] 0 [] [] [] 1 [exc_fun] 0 0 [].

Definition exc_frame (base : Z) : call_frame :=
  mk_frame 0 (mk_rf (Some base) [0] 1 8 true) 0 0 0 false false true false false false 0.

Definition exc_thrown : exc_state :=
  mk_exc [mk_handler 0 9 0 false; mk_handler 1 4 0 true] true (jello_make_i32 7) JELLO_TRAP_THROWN None.

Definition exc_vm (mem : list Z) : jello_vm :=
  mk_vm (mk_stack [exc_frame 0; exc_frame 8] 64 0 mem 16 [None] 8) exc_thrown (mk_limits 0 0 0 0) call_gc [] 0.

Lemma exc_kinds : function_regs exc_module exc_fun [JELLO_T_DYNAMIC].
Proof.
  constructor; [done | | cbn; lia]. intros r k (i & -> & Hi)%znth_inv.
  destruct i as [|i]; [injection Hi as <-; reflexivity | discriminate Hi].
Qed.

Lemma exc_vm_wf mem : zlen mem = 65536 -> stack_wf exc_module 8 (v_stack (exc_vm mem)).
Proof.
  intros Hm. constructor; cbn.
  - right. exists 0. by rewrite Hm.
  - lia.
  - assert (forall base, 0 <= base <= 8 -> frame_wf exc_module mem base (exc_frame base)) as Hfr.
    { intros base Hb. exists exc_fun, [JELLO_T_DYNAMIC]. split_and!; try done.
      - exact exc_kinds.
      - constructor; [done | | intros r Hr; exists base; cbn; split_and!; [done | lia | lia]].
        destruct (compute_layout_spec exc_module 0 exc_fun _ exc_kinds) as (fl & E & _ & HL & _).
        vm_compute in E. injection E as <-. exact HL. }
    split; [apply Hfr; lia|]. split; [apply (Hfr 8); lia | done].
  - intros _. split; [done|]. intros fi f fl _ H. cbn in H.
    apply znth_inv in H as ([|?] & _ & H); discriminate H.
Qed.

Lemma exc_dispatch_catches_witness :
  wp (vm_exc_dispatch (fun _ _ => None) exc_module 0) (exc_vm call_mem) (fun stop vm' => stop = false /\
    caught exc_module 8 (exc_vm call_mem) [] (exc_frame 0) [JELLO_T_DYNAMIC] [] (mk_handler 0 9 0 false) vm').
Proof.
  apply (exc_dispatch_catches exc_module 8 (fun _ _ => None) 0 (exc_vm call_mem) [] (exc_frame 0) [exc_frame 8] []
    (mk_handler 0 9 0 false) [mk_handler 1 4 0 true] exc_fun [JELLO_T_DYNAMIC] JELLO_T_DYNAMIC);
    try reflexivity; try exact (exc_vm_wf _ call_mem_len); try (by repeat constructor).
  split; [reflexivity | exact exc_kinds].
Defined.

(** The thrown number 4 does not arrive: the handler gets an object instead. *)
Definition exc_vm_four (mem : list Z) : jello_vm :=
  set_module 8 (set_exc (mk_exc [mk_handler 0 9 0 false] true (jello_make_i32 4) JELLO_TRAP_THROWN None) (exc_vm mem)).

Definition next_address (g : gc_state) (_ : Z) : option Z := Some (4096 * (1 + Z.of_nat (size (cells g)))).

Lemma thrown_four_replaced :
  match vm_exc_dispatch next_address exc_module 0 (exc_vm_four call_mem) with
  | Ret stop vm' =>
    let v := regs_of (exc_frame 0) [JELLO_T_DYNAMIC] 0 vm' in
    stop = false /\ v <> jello_make_i32 4 /\ (obj_kind <$> obj_at (v_gc vm') v) = Some JELLO_OBJ_OBJECT
  | _ => False
  end.
Proof. vm_compute. split_and!; [reflexivity | discriminate | reflexivity]. Qed.

Definition exc_vm_uncaught (mem : list Z) : jello_vm :=
  set_exc (mk_exc [mk_handler 1 4 0 true] true (jello_make_i32 7) JELLO_TRAP_THROWN None) (exc_vm mem).

Lemma exc_dispatch_uncaught_witness :
  wp (vm_exc_dispatch (fun _ _ => None) exc_module 0) (exc_vm_uncaught call_mem) (fun stop vm' => stop = true /\
    call_frames (v_stack vm') = [] /\ frame_stack_top (v_stack vm') = 0 /\
    frame_stack (v_stack vm') = frame_stack (v_stack (exc_vm_uncaught call_mem)) /\
    v_exc vm' = with_handlers [] (v_exc (exc_vm_uncaught call_mem)) /\ v_gc vm' = v_gc (exc_vm_uncaught call_mem)).
Proof.
  apply (exc_dispatch_uncaught exc_module 8 (fun _ _ => None) 0 (exc_vm_uncaught call_mem));
    [exact (exc_vm_wf _ call_mem_len) | reflexivity | by repeat constructor].
Defined.
