(* ===== verification/Channel.v ===== *)
(** * Channels between threads

    Model of src/src/thread/channel.c: messages as cells that own their bytes, the
    ring buffer, the critical sections of send, receive and close, the calls on a
    VM, and the threads that go through the mutex.  A critical section runs from
    taking the mutex to giving it up or waiting on a condition, and nothing else
    touches the channel, so it is one step.  [pthread_cond_signal] wakes at least
    one waiting thread, a thread may also wake without a signal (POSIX), and a
    woken thread runs its test again.

    Messages come out in the order they went in, whatever the interleaving, if the
    capacity divides 2^32; nobody waits for something that is there; and what
    happens at the wrap of the indices for other capacities. *)

From Stdlib Require Import String.
From S2P Require Import Prelude CInt Memory Bytecode Value Object Heap Vm Frame Gc Box Types Exc.
#[local] Open Scope list_scope.
#[local] Open Scope Z_scope.

(** ** Messages *)

(** [jello_channel_cell]: the kind with the member of the union it selects. *)
Inductive jello_channel_cell : Set :=
| CELL_NULL
| CELL_BOOL (u32 : Z)
| CELL_I32 (u32 : Z)
| CELL_ATOM (u32 : Z)
| CELL_I64 (u64 : Z)
| CELL_F32 (bits : Z)
| CELL_F64 (bits : Z)
| CELL_F16 (u32 : Z)
| CELL_BYTES (data : list Z).

#[export] Instance cell_eq_dec : EqDecision jello_channel_cell.
Proof. solve_decision. Defined.

(** [None]: the pointer leads nowhere. *)
Definition jello_value_is_copy_safe (g : gc_state) (v : Z) : option bool :=
  if jello_is_null v || jello_is_bool v || jello_is_i32 v || jello_is_atom v then Some true else
  if negb (jello_is_ptr v) then Some false else
  o ← obj_at g v;
  Some (match o with
        | HBoxI64 _ _ | HBoxF32 _ _ | HBoxF64 _ _ | HBoxF16 _ _ | HBytes _ _ => true
        | _ => false
        end).

(** [oom n]: [malloc(n)] fails. The inner option is the result 0. *)
Definition channel_cell_from_value (oom : Z -> bool) (g : gc_state) (v : Z)
    : option (option jello_channel_cell) :=
  safe ← jello_value_is_copy_safe g v;
  if negb safe then Some None else
  if jello_is_null v then Some (Some CELL_NULL) else
  if jello_is_bool v then Some (Some (CELL_BOOL (if jello_as_bool v then 1 else 0))) else
  if jello_is_i32 v then Some (Some (CELL_I32 (u32 (jello_as_i32 v)))) else
  if jello_is_atom v then Some (Some (CELL_ATOM (jello_as_atom v))) else
  o ← obj_at g v;
  Some (match o with
        | HBoxI64 _ x => Some (CELL_I64 (u64 x))
        | HBoxF32 _ b => Some (CELL_F32 b)
        | HBoxF64 _ b => Some (CELL_F64 b)
        | HBoxF16 _ b => Some (CELL_F16 b)
        | HBytes _ d => if negb (zlen d =? 0) && oom (zlen d) then None else Some (CELL_BYTES d)
        | _ => None
        end).

Section ToValue.
Context (malloc : gc_state -> Z -> option Z) (m : jello_bc_module).

(** The object made for a message in the receiving VM; every type id is 0. *)
Definition channel_cell_to_value (c : jello_channel_cell) : M Z :=
  match c with
  | CELL_NULL => mret jello_make_null
  | CELL_BOOL u => mret (jello_make_bool (negb (u =? 0)))
  | CELL_I32 u => mret (jello_make_i32 (i32 u))
  | CELL_ATOM u => mret (jello_make_atom u)
  | CELL_I64 u => jello_box_i64_new malloc m 0 (i64 u)
  | CELL_F32 b => jello_box_f32_new malloc m 0 b
  | CELL_F64 b => jello_box_f64_new malloc m 0 b
  | CELL_F16 u => jello_box_f16_new malloc m 0 (u16 u)
  | CELL_BYTES d =>
    b ← jello_bytes_new malloc m 0 (zlen d);
    _ ← (if negb (zlen d =? 0) then write_obj b (HBytes 0 d) else mret ());
    mret b
  end.
End ToValue.

(** ** The ring buffer *)

Record jello_channel : Set := mk_channel {
  ch_cap : Z;
  ch_head : Z;
  ch_tail : Z;
  ch_count : Z;
  ch_closed : bool;
  ch_cells : list jello_channel_cell
}.

Definition JELLO_CHANNEL_DEFAULT_CAP : Z := 64.

(** [None]: an allocation failed (none of the pthread initialisers does). *)
Definition jello_channel_new (oom : Z -> bool) (capacity : Z) : option jello_channel :=
  let capacity := if capacity =? 0 then JELLO_CHANNEL_DEFAULT_CAP else capacity in
  if oom capacity then None else
  Some (mk_channel capacity 0 0 0 false (replicate (Z.to_nat capacity) CELL_NULL)).

Definition channel_slot (ch : jello_channel) (index : Z) : Z := index mod ch_cap ch.

(** What a critical section leads to: waiting on its condition (the mutex is given
    up), or returning. *)
Inductive send_outcome : Set :=
| SendWaits
| SendClosed
| SendDone (ch : jello_channel).

Inductive recv_outcome : Set :=
| RecvWaits
| RecvEmpty
| RecvGot (tmp : jello_channel_cell) (ch : jello_channel).

(** From the lock, or from waking up, to the unlock or the wait. [None]: the slot
    is outside the cells. *)
Definition send_locked (ch : jello_channel) (tmp : jello_channel_cell) : option send_outcome :=
  if negb (ch_closed ch) && (ch_cap ch <=? ch_count ch) then Some SendWaits else
  if ch_closed ch then Some SendClosed else
  let slot := channel_slot ch (ch_tail ch) in
  _ ← ch_cells ch @! slot;
  Some (SendDone (mk_channel (ch_cap ch) (ch_head ch) (u32 (ch_tail ch + 1)) (u32 (ch_count ch + 1))
                    (ch_closed ch) (ch_cells ch)@[slot := tmp])).

Definition channel_recv_locked (ch : jello_channel) (block : bool) : option recv_outcome :=
  if block && (ch_count ch =? 0) && negb (ch_closed ch) then Some RecvWaits else
  if ch_count ch =? 0 then Some RecvEmpty else
  let slot := channel_slot ch (ch_head ch) in
  tmp ← ch_cells ch @! slot;
  Some (RecvGot tmp (mk_channel (ch_cap ch) (u32 (ch_head ch + 1)) (ch_tail ch) (u32 (ch_count ch - 1))
                       (ch_closed ch) (ch_cells ch)@[slot := CELL_NULL])).

(** [None]: already closed, the call returns 0. *)
Definition jello_channel_close (ch : jello_channel) : option jello_channel :=
  if ch_closed ch then None else
  Some (mk_channel (ch_cap ch) (ch_head ch) (ch_tail ch) (ch_count ch) true (ch_cells ch)).

(** ** The calls of a VM that does not have to wait

    [None]: the call waits.  A call from outside a VM ([vm] NULL) only leaves the
    trap out. *)
Section Calls.
Context (malloc : gc_state -> Z -> option Z) (oom : Z -> bool) (m : jello_bc_module).

(** The marshalling before the lock. *)
Definition send_marshal (msg : Z) : M (option jello_channel_cell) :=
  g ← get_gc;
  safe ← must (jello_value_is_copy_safe g msg);
  if negb safe then
    _ ← jello_vm_trap m JELLO_TRAP_TYPE_MISMATCH "channel send: value not copy-safe"; mret None
  else
  c ← must (channel_cell_from_value oom g msg);
  match c with
  | Some tmp => mret (Some tmp)
  | None => _ ← jello_vm_trap m JELLO_TRAP_TYPE_MISMATCH "channel send: marshal failed"; mret None
  end.

Definition jello_channel_send (ch : jello_channel) (msg : Z) : M (option (bool * jello_channel)) :=
  c ← send_marshal msg;
  match c with
  | None => mret (Some (false, ch))
  | Some tmp =>
    r ← must (send_locked ch tmp);
    mret (match r with
      | SendWaits => None
      | SendClosed => Some (false, ch)
      | SendDone ch' => Some (true, ch')
      end)
  end.

(** The value received; allocation does not fail, so neither does the copy. *)
Definition recv_call (ch : jello_channel) (block : bool) : M (option (Z * jello_channel)) :=
  r ← must (channel_recv_locked ch block);
  match r with
  | RecvWaits => mret None
  | RecvEmpty => mret (Some (jello_make_null, ch))
  | RecvGot tmp ch' => v ← channel_cell_to_value malloc m tmp; mret (Some (v, ch'))
  end.

Definition jello_channel_recv (ch : jello_channel) : M (option (Z * jello_channel)) := recv_call ch true.
Definition jello_channel_try_recv (ch : jello_channel) : M (option (Z * jello_channel)) := recv_call ch false.
End Calls.

(** ** Threads *)

Inductive channel_op : Set :=
| OpSend (tmp : jello_channel_cell)
| OpRecv
| OpTryRecv
| OpClose.

(** Outside the channel, about to take the mutex, or waiting on the condition of
    its operation: [not_full] for a send, [not_empty] for a receive. *)
Inductive thread_state : Set :=
| Away
| Ready (o : channel_op)
| Waiting (o : channel_op).

Definition on_not_full (o : channel_op) : bool := match o with OpSend _ => true | _ => false end.
Definition on_not_empty (o : channel_op) : bool := match o with OpRecv => true | _ => false end.

(** [sy_sent] and [sy_received] are history: the messages put into and taken out of
    the ring, oldest first. *)
Record system : Set := mk_system {
  sy_channel : jello_channel;
  sy_threads : list thread_state;
  sy_sent : list jello_channel_cell;
  sy_received : list jello_channel_cell
}.

Definition waits_on (cond : channel_op -> bool) (t : thread_state) : bool :=
  match t with Waiting o => cond o | _ => false end.

Definition wake (cond : channel_op -> bool) (t : thread_state) : thread_state :=
  match t with Waiting o => if cond o then Ready o else t | _ => t end.

(** [pthread_cond_signal]: some of the waiting threads, at least one if there is one. *)
Definition signal (cond : channel_op -> bool) (l l' : list thread_state) : Prop :=
  Forall2 (fun t t' => t' = t \/ t' = wake cond t) l l' /\
  (Exists (fun t => waits_on cond t = true) l ->
   exists i t, l !! i = Some t /\ waits_on cond t = true /\ l' !! i = Some (wake cond t)).

(** [pthread_cond_broadcast]: all of them. *)
Definition broadcast (l : list thread_state) : list thread_state :=
  wake on_not_full <$> (wake on_not_empty <$> l).

Inductive step : system -> system -> Prop :=
| step_call i o ch ts sent recvd :                (* a thread calls *)
    ts !! i = Some Away ->
    step (mk_system ch ts sent recvd) (mk_system ch (<[i := Ready o]> ts) sent recvd)
| step_wakes i o ch ts sent recvd :               (* a wait ends without a signal *)
    ts !! i = Some (Waiting o) ->
    step (mk_system ch ts sent recvd) (mk_system ch (<[i := Ready o]> ts) sent recvd)
| step_send_waits i c ch ts sent recvd :
    ts !! i = Some (Ready (OpSend c)) -> send_locked ch c = Some SendWaits ->
    step (mk_system ch ts sent recvd) (mk_system ch (<[i := Waiting (OpSend c)]> ts) sent recvd)
| step_send_closed i c ch ts sent recvd :
    ts !! i = Some (Ready (OpSend c)) -> send_locked ch c = Some SendClosed ->
    step (mk_system ch ts sent recvd) (mk_system ch (<[i := Away]> ts) sent recvd)
| step_send i c ch ch' ts ts' sent recvd :
    ts !! i = Some (Ready (OpSend c)) -> send_locked ch c = Some (SendDone ch') ->
    signal on_not_empty (<[i := Away]> ts) ts' ->
    step (mk_system ch ts sent recvd) (mk_system ch' ts' (sent ++ [c]) recvd)
| step_recv_waits i ch ts sent recvd :
    ts !! i = Some (Ready OpRecv) -> channel_recv_locked ch true = Some RecvWaits ->
    step (mk_system ch ts sent recvd) (mk_system ch (<[i := Waiting OpRecv]> ts) sent recvd)
| step_recv_empty i o block ch ts sent recvd :
    ts !! i = Some (Ready o) -> (o, block) = (OpRecv, true) \/ (o, block) = (OpTryRecv, false) ->
    channel_recv_locked ch block = Some RecvEmpty ->
    step (mk_system ch ts sent recvd) (mk_system ch (<[i := Away]> ts) sent recvd)
| step_recv i o block c ch ch' ts ts' sent recvd :
    ts !! i = Some (Ready o) -> (o, block) = (OpRecv, true) \/ (o, block) = (OpTryRecv, false) ->
    channel_recv_locked ch block = Some (RecvGot c ch') ->
    signal on_not_full (<[i := Away]> ts) ts' ->
    step (mk_system ch ts sent recvd) (mk_system ch' ts' sent (recvd ++ [c]))
| step_close i ch ch' ts sent recvd :
    ts !! i = Some (Ready OpClose) -> jello_channel_close ch = Some ch' ->
    step (mk_system ch ts sent recvd) (mk_system ch' (broadcast (<[i := Away]> ts)) sent recvd)
| step_close_again i ch ts sent recvd :
    ts !! i = Some (Ready OpClose) -> jello_channel_close ch = None ->
    step (mk_system ch ts sent recvd) (mk_system ch (<[i := Away]> ts) sent recvd).

(** A new channel and threads that have not used it yet. *)
Definition initial (s : system) : Prop :=
  jello_channel_new (fun _ => false) (ch_cap (sy_channel s)) = Some (sy_channel s) /\
  0 < ch_cap (sy_channel s) < 2 ^ 32 /\
  Forall (fun t => t = Away) (sy_threads s) /\ sy_sent s = [] /\ sy_received s = [].

Definition reachable_from (s s' : system) : Prop := rtc step s s'.

#[export] Instance reachable_from_preorder : PreOrder reachable_from.
Proof. change (PreOrder (rtc step)). apply _. Qed.

(** * What a channel guarantees *)

(** ** The ring as a queue *)

Definition slot_value (ch : jello_channel) (i : Z) : jello_channel_cell :=
  zget CELL_NULL (ch_cells ch) ((ch_head ch + i) mod ch_cap ch).

(** The messages in the ring, oldest first. *)
Definition contents (ch : jello_channel) : list jello_channel_cell :=
  slot_value ch <$> seqZ 0 (ch_count ch).

Record ring_ok (ch : jello_channel) : Prop := {
  ro_cap : 0 < ch_cap ch < 2 ^ 32;
  ro_cells : zlen (ch_cells ch) = ch_cap ch;
  ro_head : is_u 32 (ch_head ch);
  ro_count : 0 <= ch_count ch <= ch_cap ch;
  ro_tail : ch_tail ch = u32 (ch_head ch + ch_count ch)
}.

Lemma zlen_contents ch : 0 <= ch_count ch -> zlen (contents ch) = ch_count ch.
Proof. intros. unfold zlen, contents. rewrite length_fmap, length_seqZ. lia. Qed.

(** The wrap of an index does not move it in a ring whose size divides 2^32. *)
Lemma u32_mod x cap : (cap | 2 ^ 32) -> u32 x mod cap = x mod cap.
Proof. intros H. unfold wrapU. by apply Z.mod_mod_divide. Qed.

(** Different positions of the queue are in different slots. *)
Lemma slots_differ h i j cap :
  0 <= i < cap -> 0 <= j < cap -> i <> j -> (h + i) mod cap <> (h + j) mod cap.
Proof.
  intros Hi Hj Hne E. apply Z.cong_iff_ex in E as [k Hk].
  assert (k = 0) by nia. lia.
Qed.

Lemma slot_in_range ch i : ring_ok ch -> 0 <= channel_slot ch i < zlen (ch_cells ch).
Proof. intros H. rewrite (ro_cells _ H). apply Z.mod_pos_bound, H. Qed.

Lemma zget_zset {A} (d : A) l i j x :
  0 <= i < zlen l -> zget d (l @[i := x]) j = if i =? j then x else zget d l j.
Proof.
  intros Hi. unfold zget. destruct (Z.eqb_spec i j) as [->|Hne].
  - by rewrite znth_zset_eq.
  - by rewrite znth_zset_ne.
Qed.

Lemma seqZ_S n : 0 <= n -> seqZ 0 (n + 1) = seqZ 0 n ++ [n].
Proof. intros. rewrite seqZ_app by lia. done. Qed.

(** What a send does to the queue. *)
Lemma send_locked_spec ch c :
  ring_ok ch -> (ch_cap ch | 2 ^ 32) ->
  match send_locked ch c with
  | Some SendWaits => ch_closed ch = false /\ ch_count ch = ch_cap ch
  | Some SendClosed => ch_closed ch = true
  | Some (SendDone ch') => ch_closed ch = false /\ ch_count ch < ch_cap ch /\ ring_ok ch' /\
      ch_cap ch' = ch_cap ch /\ ch_closed ch' = false /\ ch_count ch' = ch_count ch + 1 /\
      contents ch' = contents ch ++ [c]
  | None => False
  end.
Proof.
  intros H Hd. pose proof H as [Hcap Hcells Hh Hc Ht]. unfold send_locked.
  destruct (ch_closed ch) eqn:Ecl; cbn [negb andb]; [done|].
  destruct (Z.leb_spec (ch_cap ch) (ch_count ch)); [split; [done | lia]|].
  destruct (znth_in_range (ch_cells ch) (channel_slot ch (ch_tail ch)) (slot_in_range _ _ H)) as [old ->].
  cbn [mbind option_bind]. unfold channel_slot. rewrite Ht, u32_mod by done.
  rewrite (wrapU_id 32 (ch_count ch + 1)) by (unfold is_u; lia).
  assert (Hs : 0 <= (ch_head ch + ch_count ch) mod ch_cap ch < zlen (ch_cells ch))
    by (rewrite Hcells; apply Z.mod_pos_bound; lia).
  split_and!; try done.
  - constructor; cbn; try done; try lia; [by rewrite zlen_zset|].
    rewrite Z.add_assoc. unfold wrapU. by rewrite Z.add_mod_idemp_l by lia.
  - unfold contents. cbn [ch_count]. rewrite seqZ_S, fmap_app by lia. f_equal.
    + apply list_fmap_ext. intros _ i Hi%list_elem_of_lookup_2%elem_of_seqZ. unfold slot_value. cbn.
      rewrite zget_zset by done. rewrite (proj2 (Z.eqb_neq _ _)); [done|].
      apply slots_differ; lia.
    + cbn. unfold slot_value. cbn. by rewrite zget_zset, Z.eqb_refl by done.
Qed.

(** What a receive does to the queue. *)
Lemma recv_locked_spec ch block :
  ring_ok ch -> (ch_cap ch | 2 ^ 32) ->
  match channel_recv_locked ch block with
  | Some RecvWaits => block = true /\ ch_closed ch = false /\ ch_count ch = 0
  | Some RecvEmpty => ch_count ch = 0 /\ (block = true -> ch_closed ch = true)
  | Some (RecvGot c ch') => 0 < ch_count ch /\ ring_ok ch' /\
      ch_cap ch' = ch_cap ch /\ ch_closed ch' = ch_closed ch /\ ch_count ch' = ch_count ch - 1 /\
      contents ch = c :: contents ch'
  | None => False
  end.
Proof.
  intros H Hd. pose proof H as [Hcap Hcells Hh Hc Ht]. unfold channel_recv_locked.
  destruct (Z.eqb_spec (ch_count ch) 0) as [E0|E0].
  { destruct block, (ch_closed ch); cbn; by split_and!. }
  rewrite andb_false_r. cbn [andb].
  destruct (znth_in_range (ch_cells ch) (channel_slot ch (ch_head ch)) (slot_in_range _ _ H)) as [c Ec].
  rewrite Ec. cbn [mbind option_bind]. rewrite (wrapU_id 32 (ch_count ch - 1)) by (unfold is_u; lia).
  pose proof (slot_in_range _ (ch_head ch) H) as Hs.
  assert (Hv : forall i, 0 <= i < ch_count ch - 1 ->
    slot_value ch (i + 1) = slot_value (mk_channel (ch_cap ch) (u32 (ch_head ch + 1)) (ch_tail ch)
      (ch_count ch - 1) (ch_closed ch) (ch_cells ch)@[channel_slot ch (ch_head ch) := CELL_NULL]) i).
  { intros i Hi. unfold slot_value, channel_slot in *. cbn. rewrite zget_zset by done.
    rewrite <- (Z.add_mod_idemp_l (u32 _)), u32_mod, Z.add_mod_idemp_l by (done || lia).
    replace (ch_head ch + 1 + i) with (ch_head ch + (i + 1)) by lia.
    rewrite (proj2 (Z.eqb_neq _ _)); [done|].
    pose proof (slots_differ (ch_head ch) 0 (i + 1) (ch_cap ch)). rewrite Z.add_0_r in *. lia. }
  split_and!; try done; try lia.
  - constructor; cbn; try done; try lia; [by rewrite zlen_zset | apply wrapU_range; lia|].
    rewrite Ht. unfold wrapU. rewrite Z.add_mod_idemp_l by lia. f_equal. lia.
  - unfold contents. cbn [ch_count]. replace (ch_count ch) with (1 + (ch_count ch - 1)) at 1 by lia.
    rewrite seqZ_app by lia. cbn [fmap list_fmap app seqZ]. change (seqZ 0 1) with [0].
    cbn [fmap list_fmap app]. f_equal.
    + unfold slot_value. rewrite Z.add_0_r. by apply zget_Some.
    + change (0 + 1) with (1 + 0). rewrite <- fmap_add_seqZ, <- list_fmap_compose.
      apply list_fmap_ext. intros _ i Hi%list_elem_of_lookup_2%elem_of_seqZ. cbn.
      rewrite <- Hv by lia. f_equal. lia.
Qed.

Lemma new_ring_ok cap ch : 0 < cap < 2 ^ 32 -> jello_channel_new (fun _ => false) cap = Some ch ->
  ring_ok ch /\ contents ch = [] /\ ch_closed ch = false /\ ch_count ch = 0.
Proof.
  intros Hc. unfold jello_channel_new. rewrite (proj2 (Z.eqb_neq _ _)) by lia. cbn. intros [= <-].
  split_and!; try done. constructor; cbn; try done; try lia; [apply zlen_replicate; lia].
Qed.

(** ** First in, first out *)

Definition fifo (s : system) : Prop :=
  ring_ok (sy_channel s) /\ sy_sent s = sy_received s ++ contents (sy_channel s).

Lemma fifo_step s s' :
  (ch_cap (sy_channel s) | 2 ^ 32) -> fifo s -> step s s' ->
  fifo s' /\ ch_cap (sy_channel s') = ch_cap (sy_channel s).
Proof.
  intros Hd [Hr Hf] Hs. destruct Hs as [| | | |i c ch ch' ts ts' sent recvd Hi E | | |
    i o block c ch ch' ts ts' sent recvd Hi Ho E |i ch ch' ts sent recvd Hi E |]; try (by split).
  - pose proof (send_locked_spec ch c Hr Hd) as S. rewrite E in S. cbn in *.
    destruct S as (_ & _ & Hr' & Hc & _ & _ & Hq). split; [|done]. split; [done|]. cbn.
    by rewrite Hf, Hq, app_assoc.
  - pose proof (recv_locked_spec ch block Hr Hd) as S. rewrite E in S. cbn in *.
    destruct S as (_ & Hr' & Hc & _ & _ & Hq). split; [|done]. split; [done|]. cbn.
    by rewrite Hf, Hq, <- app_assoc.
  - unfold jello_channel_close in E. destruct (ch_closed ch); [done|]. injection E as <-.
    split; [|done]. split; [|done]. destruct Hr. by constructor.
Qed.

Lemma fifo_reachable s s' :
  initial s -> (ch_cap (sy_channel s) | 2 ^ 32) -> reachable_from s s' ->
  fifo s' /\ ch_cap (sy_channel s') = ch_cap (sy_channel s).
Proof.
  intros (Hn & Hc & _ & Hs & Hr) Hd H.
  assert (H0 : fifo s).
  { destruct (new_ring_ok _ _ Hc Hn) as (R & Q & _). split; [done|]. by rewrite Hs, Hr, Q. }
  revert H0 Hd. clear Hn Hc Hs Hr.
  induction H as [s|s s1 s' Hs _ IH]; intros Hf Hd; [done|].
  destruct (fifo_step _ _ Hd Hf Hs) as [Hf' Hc]. rewrite <- Hc. apply IH; [done | by rewrite Hc].
Qed.

(** C10: whatever the threads do and in whatever order they get the mutex, the messages
    that came out of a channel are the first of those that went in, in their order,
    and the rest, at most as many as the capacity, is in the ring; no operation
    leaves the cells.  The capacity divides 2^32, as the default of 64 does. *)
Theorem channel_fifo s s' :
  initial s -> (ch_cap (sy_channel s) | 2 ^ 32) -> reachable_from s s' ->
  sy_sent s' = sy_received s' ++ contents (sy_channel s') /\
  zlen (contents (sy_channel s')) <= ch_cap (sy_channel s) /\
  (forall c, send_locked (sy_channel s') c <> None) /\
  (forall block, channel_recv_locked (sy_channel s') block <> None).
Proof.
  intros Hi Hd H. destruct (fifo_reachable s s' Hi Hd H) as [[Hr Hf] Hc]. rewrite <- Hc in Hd |- *.
  pose proof (ro_count _ Hr). split_and!; [done | rewrite zlen_contents; lia | |].
  - intros c. pose proof (send_locked_spec _ c Hr Hd). by destruct (send_locked _ c).
  - intros b. pose proof (recv_locked_spec _ b Hr Hd). by destruct (channel_recv_locked _ b).
Qed.

(** ** Nobody waits for what is there *)

(** How many threads are in a state. *)
Definition num (P : thread_state -> bool) (ts : list thread_state) : Z :=
  zlen (filter (fun t => P t = true) ts).

Definition ready_for (cond : channel_op -> bool) (t : thread_state) : bool :=
  match t with Ready o => cond o | _ => false end.

Definition one (b : bool) : Z := if b then 1 else 0.

Lemma num_cons P t ts : num P (t :: ts) = one (P t) + num P ts.
Proof.
  unfold num. rewrite filter_cons. destruct (decide (P t = true)) as [E|E].
  - rewrite zlen_cons, E. cbn. lia.
  - destruct (P t); [done|]. cbn. lia.
Qed.

Lemma num_nonneg P ts : 0 <= num P ts.
Proof. apply zlen_nonneg. Qed.

Lemma num_insert P ts i t t' : ts !! i = Some t -> num P (<[i := t']> ts) = num P ts - one (P t) + one (P t').
Proof.
  revert i. induction ts as [|u ts IH]; intros [|i] H; try discriminate H.
  - injection H as ->. change (<[0%nat := t']> (t :: ts)) with (t' :: ts). rewrite !num_cons. lia.
  - change (<[S i := t']> (u :: ts)) with (u :: <[i := t']> ts). rewrite !num_cons, (IH i H). lia.
Qed.

Lemma num_pos P ts i t : ts !! i = Some t -> P t = true -> 0 < num P ts.
Proof.
  revert i. induction ts as [|u ts IH]; intros [|i] H HP; try discriminate H; rewrite num_cons.
  - injection H as ->. rewrite HP. pose proof (num_nonneg P ts). cbn. lia.
  - pose proof (IH i H HP). unfold one. destruct (P u); lia.
Qed.

(** Waking turns waiting threads into ready ones. *)
Lemma wake_num cond t :
  one (ready_for cond (wake cond t)) + one (waits_on cond (wake cond t)) =
    one (ready_for cond t) + one (waits_on cond t) /\
  one (waits_on cond (wake cond t)) = 0.
Proof. destruct t as [|o|o]; cbn; try done. destruct (cond o) eqn:E; cbn; rewrite E; done. Qed.

Lemma num_exists P ts : 0 < num P ts -> Exists (fun t => P t = true) ts.
Proof.
  induction ts as [|t ts IH]; [by intros|]. rewrite num_cons. destruct (P t) eqn:E; intros H.
  - by left.
  - right. apply IH. cbn in H. lia.
Qed.

(** Some threads wake up on [cond]; those on the other condition stay as they are. *)
Lemma woken_num cond l l' :
  Forall2 (fun t t' => t' = t \/ t' = wake cond t) l l' ->
  num (waits_on cond) l' <= num (waits_on cond) l /\
  num (ready_for cond) l' + num (waits_on cond) l' = num (ready_for cond) l + num (waits_on cond) l /\
  (forall cond', (forall o, cond' o = true -> cond o = false) ->
     num (waits_on cond') l' = num (waits_on cond') l /\
     num (ready_for cond') l' = num (ready_for cond') l).
Proof.
  induction 1 as [|t t' l l' Ht _ (I1 & I2 & I3)]; [done|]. rewrite !num_cons.
  destruct (wake_num cond t) as [W1 W2]. split_and!.
  - destruct Ht as [-> | ->]; [lia|]. rewrite W2. unfold one. case_if; lia.
  - destruct Ht as [-> | ->]; lia.
  - intros cond' Hd. destruct (I3 cond' Hd) as [J1 J2]. rewrite !num_cons, J1, J2.
    destruct Ht as [-> | ->]; [done|]. destruct t as [|o|o]; cbn; try done.
    pose proof (Hd o). destruct (cond o) eqn:E; [|done]. cbn.
    destruct (cond' o); [naive_solver | done].
Qed.

(** A signal wakes at least one thread if one waits. *)
Lemma signal_num cond ts ts' :
  signal cond ts ts' -> 0 < num (waits_on cond) ts -> num (waits_on cond) ts' < num (waits_on cond) ts.
Proof.
  intros [HF Hone] H. destruct (Hone (num_exists _ _ H)) as (i & t & Hi & Hw & Hi').
  assert (HF' := HF). eapply (Forall2_insert _ _ _ (wake cond t) (wake cond t) i) in HF'; [|by left].
  rewrite (list_insert_id ts' i) in HF' by done. destruct (woken_num _ _ _ HF') as [Hle _].
  rewrite (num_insert _ _ _ _ _ Hi), Hw in Hle. pose proof (proj2 (wake_num cond t)). unfold one in *. lia.
Qed.

(** What the critical sections do to the count, for any capacity. *)
Definition counted (ch : jello_channel) : Prop :=
  0 < ch_cap ch < 2 ^ 32 /\ 0 <= ch_count ch <= ch_cap ch.

Lemma send_locked_count ch c r : counted ch -> send_locked ch c = Some r ->
  match r with
  | SendWaits => ch_closed ch = false /\ ch_count ch = ch_cap ch
  | SendClosed => ch_closed ch = true
  | SendDone ch' => ch_closed ch' = ch_closed ch /\ ch_closed ch = false /\ ch_cap ch' = ch_cap ch /\
      ch_count ch' = ch_count ch + 1 /\ counted ch'
  end.
Proof.
  intros [Hc Hn]. unfold send_locked. destruct (ch_closed ch) eqn:E; cbn [negb andb].
  { by intros [= <-]. }
  destruct (Z.leb_spec (ch_cap ch) (ch_count ch)); [intros [= <-]; split; [done | lia]|].
  destruct (ch_cells ch @! _); [|done]. cbn [mbind option_bind]. intros [= <-]. unfold counted. cbn.
  rewrite wrapU_id by (unfold is_u; lia). split_and!; done || lia.
Qed.

Lemma recv_locked_count ch block r : counted ch -> channel_recv_locked ch block = Some r ->
  match r with
  | RecvWaits => ch_closed ch = false /\ ch_count ch = 0 /\ block = true
  | RecvEmpty => ch_count ch = 0 /\ (block = true -> ch_closed ch = true)
  | RecvGot _ ch' => ch_closed ch' = ch_closed ch /\ ch_cap ch' = ch_cap ch /\
      ch_count ch' = ch_count ch - 1 /\ counted ch'
  end.
Proof.
  intros [Hc Hn]. unfold channel_recv_locked. destruct (Z.eqb_spec (ch_count ch) 0) as [E0|E0].
  { destruct block, (ch_closed ch); cbn; intros [= <-]; by split_and!. }
  rewrite andb_false_r. cbn [andb]. destruct (ch_cells ch @! _); [|done].
  cbn [mbind option_bind]. intros [= <-]. unfold counted. cbn.
  rewrite wrapU_id by (unfold is_u; lia). split_and!; done || lia.
Qed.

(** Every message in the ring has a thread about to fetch it as long as threads wait
    for messages, and every free slot one about to fill it as long as threads wait
    for slots. *)
Record awake (s : system) : Prop := {
  aw_counted : counted (sy_channel s);
  aw_closed : ch_closed (sy_channel s) = true ->
    num (waits_on on_not_full) (sy_threads s) = 0 /\ num (waits_on on_not_empty) (sy_threads s) = 0;
  aw_recv : 0 < num (waits_on on_not_empty) (sy_threads s) ->
    ch_count (sy_channel s) <= num (ready_for on_not_empty) (sy_threads s);
  aw_send : 0 < num (waits_on on_not_full) (sy_threads s) ->
    ch_cap (sy_channel s) - ch_count (sy_channel s) <= num (ready_for on_not_full) (sy_threads s)
}.

Lemma conds_disjoint o : (on_not_full o = true -> on_not_empty o = false) /\
  (on_not_empty o = true -> on_not_full o = false).
Proof. by destruct o. Qed.

Lemma wake_all_num cond l : num (waits_on cond) (wake cond <$> l) = 0.
Proof.
  induction l as [|t l IH]; [done|]. cbn [fmap list_fmap]. rewrite num_cons, (proj2 (wake_num cond t)). exact IH.
Qed.

Lemma broadcast_num ts :
  num (waits_on on_not_full) (broadcast ts) = 0 /\ num (waits_on on_not_empty) (broadcast ts) = 0.
Proof.
  unfold broadcast. split; [apply wake_all_num|].
  destruct (woken_num on_not_full (wake on_not_empty <$> ts) (wake on_not_full <$> (wake on_not_empty <$> ts)))
    as (_ & _ & H).
  { generalize (wake on_not_empty <$> ts). intros l. induction l; constructor; [by right | done]. }
  destruct (H on_not_empty) as [-> _]; [intros o; by destruct o|]. apply wake_all_num.
Qed.

(** Counts the thread that changed state and does the arithmetic. *)
Ltac count_thread Hi :=
  rewrite ?(num_insert _ _ _ _ _ Hi) in *; cbn [ready_for waits_on on_not_full on_not_empty one] in *.

Ltac count_done Hi :=
  try pose proof (num_pos (waits_on on_not_full) _ _ _ Hi eq_refl);
  try pose proof (num_pos (waits_on on_not_empty) _ _ _ Hi eq_refl);
  try pose proof (num_pos (ready_for on_not_full) _ _ _ Hi eq_refl);
  try pose proof (num_pos (ready_for on_not_empty) _ _ _ Hi eq_refl);
  constructor; cbn [sy_channel sy_threads]; try done; count_thread Hi;
  repeat match goal with
  | |- ch_closed _ = true -> _ => intros ?
  | H : ch_closed ?c = true -> _, H' : ch_closed ?c = true |- _ => specialize (H H')
  end; try congruence; lia.

Lemma awake_step s s' : awake s -> step s s' -> awake s'.
Proof.
  intros [Hcnt Hcl Hr Hs] Hst. destruct Hst as [i o ch ts sent recvd Hi|i o ch ts sent recvd Hi
    |i c ch ts sent recvd Hi E|i c ch ts sent recvd Hi E|i c ch ch' ts ts' sent recvd Hi E Hsig
    |i ch ts sent recvd Hi E|i o b ch ts sent recvd Hi Ho E|i o b c ch ch' ts ts' sent recvd Hi Ho E Hsig
    |i ch ch' ts sent recvd Hi E|i ch ts sent recvd Hi E]; cbn [sy_channel sy_threads] in *.
  - destruct o; count_done Hi.
  - destruct o; count_done Hi.
  - destruct (send_locked_count _ _ _ Hcnt E). count_done Hi.
  - pose proof (send_locked_count _ _ _ Hcnt E). count_done Hi.
  - destruct (send_locked_count _ _ _ Hcnt E) as (C1 & C2 & C3 & C4 & C5).
    pose proof (signal_num _ _ _ Hsig). destruct (woken_num _ _ _ (proj1 Hsig)) as (W1 & W2 & W3).
    destruct (W3 on_not_full) as [W4 W5]; [intros o; by destruct o|]. clear Hsig W3. count_done Hi.
  - destruct (recv_locked_count _ _ _ Hcnt E) as (C1 & C2 & _). count_done Hi.
  - destruct (recv_locked_count _ _ _ Hcnt E) as (C1 & C2).
    destruct Ho as [[= -> ->] | [= -> ->]]; [specialize (C2 eq_refl)|]; count_done Hi.
  - destruct (recv_locked_count _ _ _ Hcnt E) as (C1 & C2 & C3 & C4).
    pose proof (signal_num _ _ _ Hsig). destruct (woken_num _ _ _ (proj1 Hsig)) as (W1 & W2 & W3).
    destruct (W3 on_not_empty) as [W4 W5]; [intros o'; by destruct o'|]. clear Hsig W3.
    rewrite <- C1 in Hcl. pose proof (num_nonneg (waits_on on_not_full) ts'). destruct Ho as [[= -> ->] | [= -> ->]]; count_done Hi.
  - unfold jello_channel_close in E. destruct (ch_closed ch); [done|]. injection E as <-.
    destruct (broadcast_num (<[i := Away]> ts)) as [B1 B2]. constructor; cbn; try done; rewrite ?B1, ?B2; done.
  - count_done Hi.
Qed.

Lemma awake_reachable s s' : initial s -> reachable_from s s' -> awake s'.
Proof.
  intros (Hn & Hc & Ht & _) H.
  assert (H0 : awake s).
  { destruct (new_ring_ok _ _ Hc Hn) as ([Rc _ _ Rn _] & _ & Hcl & _).
    assert (Hz : forall cond, num (waits_on cond) (sy_threads s) = 0).
    { intros cond. revert Ht. generalize (sy_threads s). induction 1 as [|t l Ht _ IH]; [done|].
      rewrite num_cons, IH, Ht. done. }
    constructor; rewrite ?Hz; try done. }
  clear Hn Hc Ht. induction H as [s|s s1 s' Hs _ IH]; [done|]. by apply IH, (awake_step s).
Qed.

(** C11: no wakeup is lost, for any number of threads and any capacity: when a thread
    waits, the channel is not closed; if it waits to receive, every message in the
    ring has a thread that has been woken or has just called to take it; if it waits
    to send, every free slot has one to fill it.  So when every thread that uses the
    channel waits, the ring is empty, or full, respectively. *)
Theorem channel_no_lost_wakeup s s' i o :
  initial s -> reachable_from s s' -> sy_threads s' !! i = Some (Waiting o) ->
  on_not_empty o || on_not_full o = true ->
  ch_closed (sy_channel s') = false /\
  (on_not_empty o = true -> ch_count (sy_channel s') <= num (ready_for on_not_empty) (sy_threads s')) /\
  (on_not_full o = true ->
   ch_cap (sy_channel s') - ch_count (sy_channel s') <= num (ready_for on_not_full) (sy_threads s')).
Proof.
  intros Hi H Hw Ho. destruct (awake_reachable _ _ Hi H) as [_ Hcl Hr Hs].
  pose proof (num_pos (waits_on on_not_full) _ _ _ Hw) as Pf.
  pose proof (num_pos (waits_on on_not_empty) _ _ _ Hw) as Pe. cbn in Pf, Pe.
  split; [|split; intros; [apply Hr, Pe | apply Hs, Pf]; done].
  destruct (ch_closed (sy_channel s')); [|done]. specialize (Hcl eq_refl).
  destruct (on_not_empty o); [specialize (Pe eq_refl); lia|]. destruct (on_not_full o); [specialize (Pf eq_refl); lia|done].
Qed.

(** ** The wrap of the indices *)

(** A channel of capacity [cap] used by one thread. *)
Definition solo (cap : Z) : system :=
  mk_system (mk_channel cap 0 0 0 false (replicate (Z.to_nat cap) CELL_NULL)) [Away] [] [].

(** One thread sends a message and, later, receives one. *)
Lemma solo_send ch ch' c sent recvd :
  send_locked ch c = Some (SendDone ch') ->
  reachable_from (mk_system ch [Away] sent recvd) (mk_system ch' [Away] (sent ++ [c]) recvd).
Proof.
  intros E. eapply rtc_l; [by apply (step_call 0 (OpSend c))|]. eapply rtc_once.
  apply (step_send 0 c); [done | done|]. split; [repeat constructor|].
  intros Hx. apply Exists_exists in Hx as (t & Ht & Hw). apply list_elem_of_singleton in Ht as ->. done.
Qed.

Lemma solo_recv ch ch' c sent recvd :
  channel_recv_locked ch true = Some (RecvGot c ch') ->
  reachable_from (mk_system ch [Away] sent recvd) (mk_system ch' [Away] sent (recvd ++ [c])).
Proof.
  intros E. eapply rtc_l; [by apply (step_call 0 OpRecv)|]. eapply rtc_once.
  apply (step_recv 0 OpRecv true c); [done | by left | done|]. split; [repeat constructor|].
  intros Hx. apply Exists_exists in Hx as (t & Ht & Hw). apply list_elem_of_singleton in Ht as ->. done.
Qed.

Definition three (n : Z) : jello_channel := mk_channel 3 n n 0 false [CELL_NULL; CELL_NULL; CELL_NULL].

Lemma three_index n : n mod 3 = 0 \/ n mod 3 = 1 \/ n mod 3 = 2.
Proof. pose proof (Z.mod_pos_bound n 3). lia. Qed.

Lemma three_send n c : is_u 32 n -> exists cells,
  send_locked (three n) c = Some (SendDone (mk_channel 3 n (u32 (n + 1)) 1 false cells)) /\
  channel_recv_locked (mk_channel 3 n (u32 (n + 1)) 1 false cells) true =
    Some (RecvGot c (mk_channel 3 (u32 (n + 1)) (u32 (n + 1)) 0 false [CELL_NULL; CELL_NULL; CELL_NULL])).
Proof.
  intros Hn. unfold send_locked, channel_recv_locked, channel_slot. cbn -[wrapU].
  destruct (three_index n) as [-> | [-> | ->]]; eexists; (split; [reflexivity|]); reflexivity.
Qed.

(** After [n] messages, each received before the next is sent. *)
Lemma three_rounds n : 0 <= n < 2 ^ 32 -> exists h,
  reachable_from (solo 3) (mk_system (three n) [Away] h h).
Proof.
  intros [H0 H1]. revert H1. pattern n. apply natlike_ind; [| |exact H0].
  - intros _. exists []. apply rtc_refl.
  - intros k Hk IH Hn. destruct IH as [h H]; [lia|].
    destruct (three_send k CELL_NULL) as (cells & Es & Er); [unfold is_u; lia|].
    exists (h ++ [CELL_NULL]). rewrite (wrapU_id 32 (k + 1)) in * by (unfold is_u; lia).
    etrans; [exact H|]. etrans; [by apply solo_send|]. by apply solo_recv.
Qed.

(** With a capacity that does not divide 2^32 the slots change when an index wraps:
    a channel of capacity 3 through which 2^32 - 1 messages have gone puts the next
    two into the same slot; the first of them is lost, the second comes out first,
    and the second receive yields null. *)
Theorem channel_wrap_loses c1 c2 :
  exists h s, reachable_from (solo 3) s /\
    sy_sent s = h ++ [c1; c2] /\ sy_received s = h ++ [c2; CELL_NULL].
Proof.
  destruct (three_rounds (2 ^ 32 - 1)) as [h H]; [lia|]. exists h.
  eexists. split.
  - etrans; [exact H|]. etrans; [eapply (solo_send _ _ c1); reflexivity|].
    etrans; [eapply (solo_send _ _ c2); reflexivity|].
    etrans; [eapply (solo_recv _ _ c2); reflexivity|]. eapply (solo_recv _ _ CELL_NULL). reflexivity.
  - cbn. by rewrite <- !app_assoc.
Qed.

Lemma solo_initial cap : 0 < cap < 2 ^ 32 -> initial (solo cap).
Proof.
  intros H. split_and!; try done; try apply H.
  - cbn. unfold jello_channel_new. by rewrite (proj2 (Z.eqb_neq cap 0)) by lia.
  - by repeat constructor.
Qed.

Lemma channel_fifo_witness :
  exists s', reachable_from (solo 2) s' /\ sy_received s' = [CELL_I32 1] /\
  sy_sent s' = sy_received s' ++ contents (sy_channel s') /\
  zlen (contents (sy_channel s')) <= ch_cap (sy_channel (solo 2)) /\
  (forall c, send_locked (sy_channel s') c <> None) /\
  (forall block, channel_recv_locked (sy_channel s') block <> None).
Proof.
  assert (H : exists s', reachable_from (solo 2) s' /\ sy_received s' = [CELL_I32 1]).
  { eexists. split.
    - etrans; [eapply (solo_send _ _ (CELL_I32 1)); reflexivity|].
      etrans; [eapply (solo_send _ _ (CELL_I32 2)); reflexivity|].
      eapply (solo_recv _ _ (CELL_I32 1)). reflexivity.
    - reflexivity. }
  destruct H as (s' & H & Hr). exists s'. split; [exact H|]. split; [exact Hr|].
  apply (channel_fifo (solo 2) s'); [apply solo_initial; lia | exists (2 ^ 31); reflexivity | exact H].
Defined.

(** Two threads: the first waits to receive, the second has sent and woken it. *)
Definition pair_start : system := mk_system (mk_channel 2 0 0 0 false [CELL_NULL; CELL_NULL]) [Away; Away] [] [].

Definition pair_waiting : system :=
  mk_system (mk_channel 2 0 0 0 false [CELL_NULL; CELL_NULL]) [Waiting OpRecv; Away] [] [].

Lemma pair_runs : reachable_from pair_start pair_waiting.
Proof.
  eapply rtc_l; [by apply (step_call 0 OpRecv)|]. eapply rtc_once. by apply (step_recv_waits 0).
Qed.

Lemma channel_no_lost_wakeup_witness :
  ch_closed (sy_channel pair_waiting) = false /\
  (on_not_empty OpRecv = true ->
   ch_count (sy_channel pair_waiting) <= num (ready_for on_not_empty) (sy_threads pair_waiting)) /\
  (on_not_full OpRecv = true ->
   ch_cap (sy_channel pair_waiting) - ch_count (sy_channel pair_waiting) <=
     num (ready_for on_not_full) (sy_threads pair_waiting)).
Proof.
  apply (channel_no_lost_wakeup pair_start pair_waiting 0 OpRecv);
    [|exact pair_runs | reflexivity | reflexivity].
  split_and!; try done. by repeat constructor.
Defined.
