(* ===== verification/Share.v ===== *)
(** * Values between virtual machines

    Model of src/src/thread/value_copy.c and of the channel handles of
    src/src/thread/channel.c.  A value lives in the heap of its machine, which is
    only read ([src]); its copy is allocated in the machine the monad runs on.  The
    handles of channels ([jello_channel_user]) are memory all machines share: a map
    from their addresses.

    A message sent by one virtual machine is received by another as the same
    immediate, or as a new object of the same kind with the same contents. *)

From Stdlib Require Import String.
From S2P Require Import Prelude CInt Memory Bytecode Value Object Heap Vm Frame FrameFacts Float Gc GcFacts GcThms Box BoxThms Types Ops Call Exc CallOps Exec Channel.
#[local] Open Scope list_scope.
#[local] Open Scope Z_scope.

(** ** Channel handles *)

(** [jello_channel_user]: a live one has the magic word, which is cleared when it is
    freed; no other payload of an abstract starts with it. *)
Record jello_channel_user : Set := mk_user {
  cu_refs : Z;
  cu_channel : Z
}.

Record handles : Set := mk_handles {
  hd_users : gmap Z jello_channel_user;
  hd_channels : gmap Z jello_channel
}.

Definition jello_channel_free (ch : Z) (h : handles) : handles :=
  mk_handles (hd_users h) (delete ch (hd_channels h)).

Definition channel_user_release (u : Z) (h : handles) : handles :=
  match hd_users h !! u with
  | None => h
  | Some r =>
      if cu_refs r =? 0 then h else
      let refs := u32 (cu_refs r - 1) in
      if 0 <? refs then mk_handles (<[u := mk_user refs (cu_channel r)]> (hd_users h)) (hd_channels h) else
      let h := if cu_channel r =? 0 then h else jello_channel_free (cu_channel r) h in
      mk_handles (delete u (hd_users h)) (hd_channels h)
  end.

(** The handle behind an abstract, with its address. [None]: the pointer leads nowhere. *)
Definition channel_user_from_abstract (g : gc_state) (h : handles) (v : Z)
    : option (option (Z * jello_channel_user)) :=
  if negb (jello_is_ptr v) then Some None else
  o ← obj_at g v;
  Some (match o with
        | HAbstract _ payload _ =>
            match hd_users h !! payload with
            | Some r => if cu_channel r =? 0 then None else Some (payload, r)
            | None => None
            end
        | _ => None
        end).

Definition jello_channel_from_abstract (g : gc_state) (h : handles) (v : Z) : option (option Z) :=
  match channel_user_from_abstract g h v with
  | Some (Some (_, r)) => Some (Some (cu_channel r))
  | Some None => Some None
  | None => None
  end.

Definition jello_value_is_thread_shareable (g : gc_state) (h : handles) (v : Z) : option bool :=
  safe ← jello_value_is_copy_safe g v;
  if safe : bool then Some true else
  ch ← jello_channel_from_abstract g h v; Some (bool_decide (is_Some ch)).

Definition jello_value_is_thread_cap_safe (g : gc_state) (h : handles) (v : Z) : option bool :=
  shareable ← jello_value_is_thread_shareable g h v;
  if shareable : bool then Some true else
  if negb (jello_is_ptr v) then Some false else
  o ← obj_at g v;
  Some (match o with
        | HFunction _ _ bound_this caps => (zlen caps =? 0) && negb (jello_bound_this_is_set bound_this)
        | HFunctionRaw _ _ bound_this ncaps _ => (ncaps =? 0) && negb (jello_bound_this_is_set bound_this)
        | _ => false
        end).

(** [fn->caps[0 .. ncaps - 1]] as the check reads them: also where the captures are
    raw bytes. [None]: outside the object. *)
Definition caps_words (o : hobj) : option (list Z) :=
  match o with
  | HFunction _ _ _ caps => Some caps
  | HFunctionRaw _ _ _ ncaps raw => mapM (fun i => mem_load 8 raw (8 * i)) (seqZ 0 ncaps)
  | _ => None
  end.

Fixpoint all_caps_safe (g : gc_state) (h : handles) (caps : list Z) : option bool :=
  match caps with
  | [] => Some true
  | v :: caps' =>
      safe ← jello_value_is_thread_cap_safe g h v;
      if negb safe then Some false else all_caps_safe g h caps'
  end.

Definition jello_function_spawn_caps_ok (g : gc_state) (h : handles) (fn : Z) : option bool :=
  o ← obj_at g fn; caps ← caps_words o; all_caps_safe g h caps.

(** ** Copying *)

Section Copy.
Context (malloc : gc_state -> Z -> option Z) (m : jello_bc_module).

(** [src_g] is the heap [src] lives in. [None]: 0, nothing is copied. *)
Definition jello_value_copy_to_vm (src_g : gc_state) (src : Z) : M (option Z) :=
  safe ← must (jello_value_is_copy_safe src_g src);
  if negb safe then mret None else
  if jello_is_null src || jello_is_bool src || jello_is_i32 src || jello_is_atom src then mret (Some src) else
  o ← must (obj_at src_g src);
  match o with
  | HBoxI64 t x => b ← jello_box_i64_new malloc m t x; mret (Some b)
  | HBoxF32 t x => b ← jello_box_f32_new malloc m t x; mret (Some b)
  | HBoxF64 t x => b ← jello_box_f64_new malloc m t x; mret (Some b)
  | HBoxF16 t x => b ← jello_box_f16_new malloc m t x; mret (Some b)
  | HBytes t d =>
    b ← jello_bytes_new malloc m t (zlen d);
    _ ← (if negb (zlen d =? 0) then write_obj b (HBytes t d) else mret ());
    mret (Some b)
  | _ => mret None
  end.

(** [calloc] of a handle, and the address of [channel_user_finalizer]. *)
Context (new_user : handles -> option Z) (finalizer : Z).

Definition jello_channel_abstract_new (ch : Z) (h : handles) : M (Z * handles) :=
  if ch =? 0 then mret (jello_make_null, h) else
  match new_user h with
  | None => mret (jello_make_null, jello_channel_free ch h)
  | Some u =>
    a ← jello_abstract_new_finalized malloc m 0 u finalizer;
    mret (a, mk_handles (<[u := mk_user 1 ch]> (hd_users h)) (hd_channels h))
  end.

Definition jello_channel_abstract_share (src_g : gc_state) (src : Z) (h : handles)
  : M (option (Z * handles)) :=
  r ← must (channel_user_from_abstract src_g h src);
  match r with
  | None => mret None
  | Some (u, r) =>
    let h := mk_handles (<[u := mk_user (u32 (cu_refs r + 1)) (cu_channel r)]> (hd_users h)) (hd_channels h) in
    a ← jello_abstract_new_finalized malloc m 0 u finalizer;
    mret (Some (a, h))
  end.

(** [jello_value_share_to_vm], given how functions are shared. *)
Definition share_value (share_function : Z -> handles -> M (option (Z * handles)))
    (src_g : gc_state) (src : Z) (h : handles) : M (option (Z * handles)) :=
  ch ← must (jello_channel_from_abstract src_g h src);
  if bool_decide (is_Some ch) then jello_channel_abstract_share src_g src h else
  o ← (if jello_is_ptr src then o ← must (obj_at src_g src); mret (Some o) else mret None);
  match o with
  | Some (HFunction _ _ _ _) | Some (HFunctionRaw _ _ _ _ _) => share_function src h
  | _ => v ← jello_value_copy_to_vm src_g src; mret ((fun v => (v, h)) <$> v)
  end.

(** The captures, one after the other; the copies are only in [caps], which the
    collector does not know. *)
Fixpoint share_caps (share : Z -> handles -> M (option (Z * handles))) (caps : list Z) (h : handles)
  : M (option (list Z * handles)) :=
  match caps with
  | [] => mret (Some ([], h))
  | c :: caps' =>
    r ← share c h;
    match r with
    | None => mret None
    | Some (v, h) =>
      rest ← share_caps share caps' h;
      mret (match rest with Some (vs, h) => Some (v :: vs, h) | None => None end)
    end
  end.

(** The recursion over captured functions; without fuel, as when a closure captures
    itself, the C stack runs out. *)
Fixpoint jello_function_share_to_vm (fuel : nat) (src_g : gc_state) (src : Z) (h : handles)
  : M (option (Z * handles)) :=
  match fuel with
  | O => crash
  | S fuel' =>
    o ← must (obj_at src_g src);
    match o with
    | HFunctionRaw t fi bound_this ncaps raw =>
      if jello_bound_this_is_set bound_this then mret None else
      f ← jello_closure_new_raw malloc m t fi ncaps raw; mret (Some (f, h))
    | HFunction t fi bound_this caps =>
      if jello_bound_this_is_set bound_this then mret None else
      if zlen caps =? 0 then f ← jello_function_new malloc m t fi; mret (Some (f, h)) else
      r ← share_caps (share_value (jello_function_share_to_vm fuel' src_g) src_g) caps h;
      match r with
      | None => mret None
      | Some (vs, h) => f ← jello_closure_new malloc m t fi vs; mret (Some (f, h))
      end
    | _ => crash
    end
  end.

Definition jello_value_share_to_vm (fuel : nat) (src_g : gc_state) (src : Z) (h : handles)
  : M (option (Z * handles)) :=
  share_value (jello_function_share_to_vm fuel src_g) src_g src h.

(** ** Starting and joining a thread *)

(** The checks of [jello_thread_spawn_fn], before the thread is made. *)
Definition jello_thread_spawn_fn (g : gc_state) (h : handles) (fn : Z) (args : list Z) : option bool :=
  o ← obj_at g fn;
  let check bound_this fi :=
  if jello_bound_this_is_set bound_this then Some false else
  caps_ok ← jello_function_spawn_caps_ok g h fn;
  if negb caps_ok then Some false else
  if jello_is_native_builtin fi || jello_is_jdll_prim fi then Some false else
  if m_nfuncs m <=? u32 (fi - JELLO_NATIVE_BUILTIN_COUNT) then Some false else
  (fix all (args : list Z) : option bool :=
    match args with
    | [] => Some true
    | v :: args' =>
      ok ← jello_value_is_thread_shareable g h v;
      if negb ok then Some false else all args'
    end) args in
  match o with
  | HFunction _ fi bound_this _ | HFunctionRaw _ fi bound_this _ _ => check bound_this fi
  | _ => Some false
  end.

(** [thread_apply_parent_limits], without the thread id. *)
Definition thread_apply_parent_limits (parent : limits) : M () :=
  l ← get_limits;
  put_limits (mk_limits (fuel_limit parent) (fuel_remaining l) (max_bytes_len parent) (max_array_len parent)).

(** What a worker leaves in its [jello_thread]. *)
Record thread_result : Set := mk_thread_result {
  tr_status : bool;                      (* JELLO_EXEC_OK *)
  tr_trap_code : jello_trap_code;
  tr_trap_msg : string;
  tr_value : Z
}.

(** What [jello_thread_join] does once the worker is done, for the first join;
    [worker] is the heap of its machine, if it got one. *)
Definition jello_thread_join (t : thread_result) (worker : option gc_state) : M (option Z) :=
  out ← (match tr_status t, worker with
    | true, Some g => jello_value_copy_to_vm g (tr_value t)
    | true, None => crash           (* the message would be read uninitialised *)
    | false, _ => mret None
    end);
  match out with
  | Some v => mret (Some v)
  | None =>
    let msg := if tr_status t then "thread join: result not copy-safe" else tr_trap_msg t in
    _ ← jello_vm_trap m (if bool_decide (tr_trap_code t = JELLO_TRAP_NONE) then JELLO_TRAP_TYPE_MISMATCH
      else tr_trap_code t)
      (if bool_decide (msg = EmptyString) then "thread join failed" else msg)%string;
    mret None
  end.
End Copy.

(** ** The worker *)

Section Worker.
Context (malloc : gc_state -> Z -> option Z) (m : jello_bc_module) (maddr : Z).
Context (nan32 nan64 junk : Z) (nan16 : bool -> Z).
Context (native : exec_ctx -> jello_insn -> Z -> Z -> M ()).
Context (jdll_prim : exec_ctx -> jello_insn -> Z -> Z -> M bool).
Context (new_user : handles -> option Z) (finalizer : Z).

Definition failed (code : jello_trap_code) (msg : string) : thread_result :=
  mk_thread_result false code msg 0.

(** [thread_worker_main] on the new machine; [src_g] is the heap of the parent, which
    does not know of [args] and [fn] either. [None]: the run has not ended. *)
Definition thread_worker_main (depth fuel : nat) (parent : limits) (src_g : gc_state) (fn : Z)
    (args : list Z) (h : handles) : M (option (thread_result * handles)) :=
  _ ← thread_apply_parent_limits parent;
  r ← share_caps (jello_value_share_to_vm malloc m finalizer depth src_g) args h;
  match r with
  | None => mret (Some (failed JELLO_TRAP_TYPE_MISMATCH "thread: arg not copy-safe", h))
  | Some (wargs, h) =>
    r ← jello_function_share_to_vm malloc m finalizer depth src_g fn h;
    match r with
    | None => mret (Some (failed JELLO_TRAP_LIMIT "thread: failed to share closure", h))
    | Some (worker_fn, h) =>
      st ← jello_vm_exec_status_closure malloc m maddr nan32 nan64 junk nan16 native jdll_prim fuel worker_fn wargs;
      match st with
      | None => mret None
      | Some (JELLO_EXEC_OK out _) =>
        mret (Some (mk_thread_result true JELLO_TRAP_NONE EmptyString (default jello_make_null out), h))
      | Some JELLO_EXEC_TRAP =>
        e ← get_exc;
        let msg := default EmptyString (trap_msg e) in
        mret (Some (failed (trap_code e)
            (if bool_decide (msg = EmptyString) then "thread execution trapped" else snprintf 512 msg)%string, h))
      end
    end
  end.
End Worker.

(** * What arrives on the other side *)

(** The tests of [channel_cell_from_value] on an immediate. *)
Lemma immediate_tests w : view_ok w -> (forall a, w <> VPtr a) ->
  let v := encode_view w in
  jello_is_null v = (match w with VNull => true | _ => false end) /\
  jello_is_ptr v = false /\
  jello_is_bool v = (match w with VBool _ => true | _ => false end) /\
  jello_is_i32 v = (match w with VI32 _ => true | _ => false end) /\
  jello_is_atom v = (match w with VAtom _ => true | _ => false end).
Proof.
  intros Hok Hp. unfold jello_is_null, jello_is_bool, jello_is_i32, jello_is_atom, jello_is_ptr, has_tag.
  destruct w as [addr|x|a|b|]; cbn [encode_view view_ok] in *.
  - by destruct (Hp addr).
  - unfold jello_make_i32. by destruct (tag_payload (u32 x) JELLO_TAG_I32) as (_ & -> & _);
      [apply wrapU_range; lia | done|].
  - unfold jello_make_atom. by destruct (tag_payload a JELLO_TAG_ATOM) as (_ & -> & _).
  - by destruct b.
  - done.
Qed.

(** The message an object makes: its contents, with type id 0. *)
Definition as_message (o : hobj) : option hobj :=
  match o with
  | HBoxI64 _ x => Some (HBoxI64 0 x)
  | HBoxF32 _ b => Some (HBoxF32 0 b)
  | HBoxF64 _ b => Some (HBoxF64 0 b)
  | HBoxF16 _ b => Some (HBoxF16 0 b)
  | HBytes _ d => Some (HBytes 0 d)
  | _ => None
  end.

(** The contents have the width of their C type. *)
Definition contents_ok (o : hobj) : Prop :=
  match o with HBoxI64 _ x => is_s 64 x | HBoxF16 _ b => is_u 16 b | _ => True end.

Inductive message (g : gc_state) (v : Z) : Prop :=
| message_immediate w : view_ok w -> (forall a, w <> VPtr a) -> v = encode_view w -> message g v
| message_object o : v mod 8 = 0 -> obj_at g v = Some o -> contents_ok o -> is_Some (as_message o) -> message g v.

(** [v'] in [g'] is what [v] in [g] was: the same word, or a new object. *)
Definition arrives (g : gc_state) (v : Z) (g' : gc_state) (v' : Z) : Prop :=
  if jello_is_ptr v then
    v' mod 8 = 0 /\ exists o o', obj_at g v = Some o /\ as_message o = Some o' /\ obj_at g' v' = Some o'
  else v' = v.

Lemma jello_value_is_copy_safe_spec g v : message g v -> jello_value_is_copy_safe g v = Some true.
Proof.
  intros [w Hok Hp -> | o Hv Ho _ [o' Ho']]; unfold jello_value_is_copy_safe.
  - destruct (immediate_tests w Hok Hp) as (-> & _ & -> & -> & ->).
    destruct w; try done. by destruct (Hp addr).
  - destruct (ptr_flags v Hv) as (-> & -> & -> & -> & ->). cbn [orb negb]. rewrite Ho.
    cbn [mbind option_bind]. by destruct o.
Qed.

Section Roundtrip.
Context (malloc : gc_state -> Z -> option Z) (m : jello_bc_module) (oom : Z -> bool).

(** A new object whose contents are written after it is made. *)
Lemma bytes_arrive t d vm (Q : Z -> jello_vm -> Prop) :
  malloc_ok malloc -> heap_good m vm ->
  (forall p g', p mod 8 = 0 -> obj_at g' p = Some (HBytes t d) -> Q p (set_gc g' vm)) ->
  safe (b ← jello_bytes_new malloc m t (zlen d);
    _ ← (if negb (zlen d =? 0) then write_obj b (HBytes t d) else mret ()); mret b) vm Q.
Proof.
  intros Hm Hg HQ. apply safe_bind. unfold jello_bytes_new.
  eapply alloc_box; [done | exact Hg | done|]. intros p g' Hp Ho.
  destruct (Z.eqb_spec (zlen d) 0) as [E|E]; cbn [negb].
  - eapply safe_run; [reflexivity|]. apply safe_ret, HQ; [done|]. rewrite Ho, E.
    destruct d; [done|]. rewrite zlen_cons in E. pose proof (zlen_nonneg d). lia.
  - unfold obj_at in Ho. destruct (cells g' !! p) as [c|] eqn:Ec; [|done].
    eapply safe_run.
    { unfold write_obj, mbind, M_bind, get_gc, put_gc, must. cbn. rewrite Ec. reflexivity. }
    apply safe_ret. apply (HQ p (set_cells _ g')); [done|]. unfold obj_at. cbn. by rewrite lookup_insert_eq.
Qed.

(** C31: a message arrives: whatever value may be sent is marshalled, and the value the
    receiving machine makes of it (it may collect first) is the same immediate, or a
    new object of the same kind with the same number, bit pattern or bytes; only its
    type id is not kept. *)
Theorem message_roundtrip g v vm :
  malloc_ok malloc -> heap_good m vm -> message g v -> (forall n, oom n = false) ->
  exists c, channel_cell_from_value oom g v = Some (Some c) /\
  safe (channel_cell_to_value malloc m c) vm (fun v' vm' => arrives g v (v_gc vm') v').
Proof.
  intros Hm Hg Hv Hoom. unfold channel_cell_from_value.
  rewrite (jello_value_is_copy_safe_spec _ _ Hv). cbn [mbind option_bind negb]. unfold arrives.
  destruct Hv as [w Hok Hp -> | o Hv Ho Hc [o' Ho']].
  - destruct (immediate_tests w Hok Hp) as (-> & -> & -> & -> & ->).
    destruct w as [addr|x|a|b|]; cbn [encode_view view_ok] in *.
    + by destruct (Hp addr).
    + destruct (i32_flags x) as (_ & _ & _ & ->).
      eexists. split; [done|]. apply safe_ret. unfold jello_make_i32.
      rewrite wrapS_wrapU, wrapS_idemp, wrapU_wrapS by lia. done.
    + destruct (atom_flags a Hok) as (_ & -> & _).
      eexists. split; [done|]. by apply safe_ret.
    + eexists. split; [done|]. apply safe_ret. by destruct b.
    + eexists. split; [done|]. by apply safe_ret.
  - destruct (ptr_flags v Hv) as (-> & -> & -> & -> & ->). rewrite Ho. cbn [mbind option_bind].
    assert (Hbox : forall sz, o' = o' -> children o' = [] ->
        safe (gc_alloc malloc m sz o') vm (fun v' vm' => v' mod 8 = 0 /\
          exists o0 o1, Some o = Some o0 /\ as_message o0 = Some o1 /\ obj_at (v_gc vm') v' = Some o1)).
    { intros sz _ Hch. eapply alloc_box; [done | exact Hg | exact Hch|]. intros p g' Hpp Hop.
      split; [done|]. exists o, o'. done. }
    destruct o; try discriminate Ho'; injection Ho' as <-; cbn [contents_ok] in Hc.
    + rewrite Hoom, andb_false_r. eexists. split; [done|]. cbn [channel_cell_to_value].
      apply bytes_arrive; [done..|]. intros p g' Hpp Hop. split; [done|]. by eexists _, _.
    + eexists. split; [done|]. cbn [channel_cell_to_value]. rewrite wrapS_wrapU, wrapS_id by (lia || done).
      by apply Hbox.
    + eexists. split; [done|]. by apply Hbox.
    + eexists. split; [done|]. by apply Hbox.
    + eexists. split; [done|]. cbn [channel_cell_to_value]. rewrite wrapU_id by done. by apply Hbox.
Qed.
End Roundtrip.

(** ** A concrete message *)

(** The i64 5 boxed in one machine, received by a machine that collects first. *)
Lemma message_roundtrip_witness :
  exists c, channel_cell_from_value (fun _ => false) demo_gc 64 = Some (Some c) /\
    safe (channel_cell_to_value bump_malloc empty_module c) demo_vm
      (fun v' vm' => arrives demo_gc 64 (v_gc vm') v').
Proof.
  apply (message_roundtrip bump_malloc empty_module (fun _ => false) demo_gc 64 demo_vm bump_malloc_ok).
  - split; [exact demo_heap_ok|]. exists [16]. split; [exact demo_roots | exact demo_no_dangling].
  - apply (message_object _ _ (HBoxI64 4 5)); [reflexivity | reflexivity | split; [discriminate | reflexivity]|].
    by eexists.
  - reflexivity.
Defined.
