(* ===== verification/Md5.v ===== *)
(** * The MD5 digest of the standard library

    Model of src/libs/std/crypto/md5.c.  A context keeps the count of bytes, the four
    words of the state and the buffer of an incomplete block; [None] is an access
    outside a buffer.

    [jdll_std_md5] against RFC 1321: padding, then one compression per block of 64
    bytes, with the rounds given by their formulas instead of 64 lines. *)

From S2P Require Import Prelude CInt Memory.
#[local] Open Scope list_scope.
#[local] Open Scope Z_scope.

(** [A, B, C, D]. *)
Definition words4 : Set := Z * Z * Z * Z.

Record md5_context : Set := mk_md5 {
  md_total0 : Z;
  md_total1 : Z;
  md_state : words4;
  md_buffer : list Z
}.

(** [GET_UINT32] and [PUT_UINT32]: little-endian words. *)
Definition GET_UINT32 (b : list Z) (i : Z) : option Z :=
  b0 ← b @! i; b1 ← b @! (i + 1); b2 ← b @! (i + 2); b3 ← b @! (i + 3);
  Some (Z.lor (Z.lor (Z.lor b0 (u32 (Z.shiftl b1 8))) (u32 (Z.shiftl b2 16))) (u32 (Z.shiftl b3 24))).

Definition PUT_UINT32 (n : Z) : list Z :=
  [u8 n; u8 (Z.shiftr n 8); u8 (Z.shiftr n 16); u8 (Z.shiftr n 24)].

(** The content of [buffer] before the first write is [junk]. *)
Definition md5_starts (junk : list Z) : md5_context :=
  mk_md5 0 0 (0x67452301, 0xEFCDAB89, 0x98BADCFE, 0x10325476) junk.

(** ** One block *)

Definition S_ (x n : Z) : Z := Z.lor (u32 (Z.shiftl x n)) (Z.shiftr (Z.land x 0xFFFFFFFF) (32 - n)).

(** The macro [P], on the four variables in the order of its arguments; the result
    is in the order of the next call: [(A, B, C, D)], [(D, A, B, C)], ... *)
Definition P_ (F : Z -> Z -> Z -> Z) (X : list Z) (r : words4) (step : Z * Z * Z) : words4 :=
  let '(a, b, c, d) := r in
  let '(k, s, t) := step in
  let a := u32 (a + u32 (u32 (F b c d + zget 0 X k) + t)) in
  let a := u32 (S_ a s + b) in
  (d, a, b, c).

Definition F1 (x y z : Z) : Z := Z.lxor z (Z.land x (Z.lxor y z)).
Definition F2 (x y z : Z) : Z := Z.lxor y (Z.land z (Z.lxor x y)).
Definition F3 (x y z : Z) : Z := Z.lxor (Z.lxor x y) z.
Definition F4 (x y z : Z) : Z := Z.lxor y (Z.lor x (Z.lxor z UINT32_MAX)).

(** The arguments [k], [s], [t] of the 64 calls of [P]. *)
Definition round1 : list (Z * Z * Z) :=
  [(0, 7, 0xD76AA478); (1, 12, 0xE8C7B756); (2, 17, 0x242070DB); (3, 22, 0xC1BDCEEE);
   (4, 7, 0xF57C0FAF); (5, 12, 0x4787C62A); (6, 17, 0xA8304613); (7, 22, 0xFD469501);
   (8, 7, 0x698098D8); (9, 12, 0x8B44F7AF); (10, 17, 0xFFFF5BB1); (11, 22, 0x895CD7BE);
   (12, 7, 0x6B901122); (13, 12, 0xFD987193); (14, 17, 0xA679438E); (15, 22, 0x49B40821)].

Definition round2 : list (Z * Z * Z) :=
  [(1, 5, 0xF61E2562); (6, 9, 0xC040B340); (11, 14, 0x265E5A51); (0, 20, 0xE9B6C7AA);
   (5, 5, 0xD62F105D); (10, 9, 0x02441453); (15, 14, 0xD8A1E681); (4, 20, 0xE7D3FBC8);
   (9, 5, 0x21E1CDE6); (14, 9, 0xC33707D6); (3, 14, 0xF4D50D87); (8, 20, 0x455A14ED);
   (13, 5, 0xA9E3E905); (2, 9, 0xFCEFA3F8); (7, 14, 0x676F02D9); (12, 20, 0x8D2A4C8A)].

Definition round3 : list (Z * Z * Z) :=
  [(5, 4, 0xFFFA3942); (8, 11, 0x8771F681); (11, 16, 0x6D9D6122); (14, 23, 0xFDE5380C);
   (1, 4, 0xA4BEEA44); (4, 11, 0x4BDECFA9); (7, 16, 0xF6BB4B60); (10, 23, 0xBEBFBC70);
   (13, 4, 0x289B7EC6); (0, 11, 0xEAA127FA); (3, 16, 0xD4EF3085); (6, 23, 0x04881D05);
   (9, 4, 0xD9D4D039); (12, 11, 0xE6DB99E5); (15, 16, 0x1FA27CF8); (2, 23, 0xC4AC5665)].

Definition round4 : list (Z * Z * Z) :=
  [(0, 6, 0xF4292244); (7, 10, 0x432AFF97); (14, 15, 0xAB9423A7); (5, 21, 0xFC93A039);
   (12, 6, 0x655B59C3); (3, 10, 0x8F0CCC92); (10, 15, 0xFFEFF47D); (1, 21, 0x85845DD1);
   (8, 6, 0x6FA87E4F); (15, 10, 0xFE2CE6E0); (6, 15, 0xA3014314); (13, 21, 0x4E0811A1);
   (4, 6, 0xF7537E82); (11, 10, 0xBD3AF235); (2, 15, 0x2AD7D2BB); (9, 21, 0xEB86D391)].

Definition md5_process (data : list Z) (state : words4) : option words4 :=
  X ← mapM (fun i => GET_UINT32 data (i * 4)) (seqZ 0 16);
  let r := fold_left (P_ F1 X) round1 state in
  let r := fold_left (P_ F2 X) round2 r in
  let r := fold_left (P_ F3 X) round3 r in
  let r := fold_left (P_ F4 X) round4 r in
  let '(A, B, C, D) := r in
  let '(s0, s1, s2, s3) := state in
  Some (u32 (s0 + A), u32 (s1 + B), u32 (s2 + C), u32 (s3 + D)).

(** ** Feeding bytes *)

(** [while(length >= 64)], for [n] rounds; the input is the rest of it. *)
Fixpoint md5_blocks (n : nat) (input : list Z) (state : words4) : option (list Z * words4) :=
  match n with
  | O => Some (input, state)
  | S n' => state ← md5_process (take 64 input) state; md5_blocks n' (drop 64 input) state
  end.

Definition md5_update (ctx : md5_context) (input : list Z) (length : Z) : option md5_context :=
  if length =? 0 then Some ctx else
  let left := Z.land (md_total0 ctx) 0x3F in
  let fill := 64 - left in
  let total0 := u32 (md_total0 ctx + length) in
  let total1 := if total0 <? length then u32 (md_total1 ctx + 1) else md_total1 ctx in
  '(buffer, state, input, length, left) ←
    (if negb (left =? 0) && (fill <=? length) then
       head ← block_read input 0 fill;
       buffer ← block_write (md_buffer ctx) left head;
       state ← md5_process buffer (md_state ctx);
       Some (buffer, state, drop (Z.to_nat fill) input, length - fill, 0)
     else Some (md_buffer ctx, md_state ctx, input, length, left));
  '(input, state) ← md5_blocks (Z.to_nat (length / 64)) input state;
  let length := length mod 64 in
  if length =? 0 then Some (mk_md5 total0 total1 state buffer) else
  tail ← block_read input 0 length;
  buffer ← block_write buffer left tail;
  Some (mk_md5 total0 total1 state buffer).

Definition md5_padding : list Z := 0x80 :: replicate 63 0.

Definition md5_finish (ctx : md5_context) : option (list Z) :=
  let last := Z.land (md_total0 ctx) 0x3F in
  let padn := if last <? 56 then 56 - last else 120 - last in
  let low := u32 (Z.shiftl (md_total0 ctx) 3) in
  let high := Z.lor (Z.shiftr (md_total0 ctx) 29) (u32 (Z.shiftl (md_total1 ctx) 3)) in
  let msglen := PUT_UINT32 low ++ PUT_UINT32 high in
  ctx ← md5_update ctx md5_padding padn;
  ctx ← md5_update ctx msglen 8;
  let '(s0, s1, s2, s3) := md_state ctx in
  Some (PUT_UINT32 s0 ++ PUT_UINT32 s1 ++ PUT_UINT32 s2 ++ PUT_UINT32 s3).

(** The primitive: [None] for the data is the null pointer. *)
Definition jdll_std_md5 (junk : list Z) (data : option (list Z)) : option (list Z) :=
  let ctx := md5_starts junk in
  ctx ← (match data with
         | Some d => if zlen d =? 0 then Some ctx else md5_update ctx d (zlen d)
         | None => Some ctx
         end);
  md5_finish ctx.

Example md5_abc :
  jdll_std_md5 (replicate 64 7) (Some [97; 98; 99]) =
  Some [0x90; 0x01; 0x50; 0x98; 0x3c; 0xd2; 0x4f; 0xb0; 0xd6; 0x96; 0x3f; 0x7d; 0x28; 0xe1; 0x7f; 0x72].
Proof. vm_compute. reflexivity. Qed.

(** * The digest is MD5 *)

(** ** RFC 1321 *)

(** [T(i)], the integer part of [2^32 * |sin (i + 1)|]. *)
Definition rfc_T : list Z :=
  [3614090360; 3905402710; 606105819; 3250441966;
   4118548399; 1200080426; 2821735955; 4249261313;
   1770035416; 2336552879; 4294925233; 2304563134;
   1804603682; 4254626195; 2792965006; 1236535329;
   4129170786; 3225465664; 643717713; 3921069994;
   3593408605; 38016083; 3634488961; 3889429448;
   568446438; 3275163606; 4107603335; 1163531501;
   2850285829; 4243563512; 1735328473; 2368359562;
   4294588738; 2272392833; 1839030562; 4259657740;
   2763975236; 1272893353; 4139469664; 3200236656;
   681279174; 3936430074; 3572445317; 76029189;
   3654602809; 3873151461; 530742520; 3299628645;
   4096336452; 1126891415; 2878612391; 4237533241;
   1700485571; 2399980690; 4293915773; 2240044497;
   1873313359; 4264355552; 2734768916; 1309151649;
   4149444226; 3174756917; 718787259; 3951481745].

Definition compl (z : Z) : Z := Z.lxor z UINT32_MAX.

(** The functions F, G, H, I. *)
Definition rfc_f (round x y z : Z) : Z :=
  if round =? 0 then Z.lor (Z.land x y) (Z.land (Z.lnot x) z) else
  if round =? 1 then Z.lor (Z.land x z) (Z.land y (Z.lnot z)) else
  if round =? 2 then Z.lxor (Z.lxor x y) z else
  Z.lxor y (Z.lor x (compl z)).

Definition rfc_k (round i : Z) : Z :=
  if round =? 0 then i mod 16 else
  if round =? 1 then (1 + 5 * i) mod 16 else
  if round =? 2 then (5 + 3 * i) mod 16 else (7 * i) mod 16.

Definition rfc_s (round i : Z) : Z :=
  zget 0 (zget [] [[7; 12; 17; 22]; [5; 9; 14; 20]; [4; 11; 16; 23]; [6; 10; 15; 21]] round) (i mod 4).

(** [X <<< s] on 32-bit words. *)
Definition rotate (x s : Z) : Z := (x * 2 ^ s) mod 2 ^ 32 + x / 2 ^ (32 - s).

Definition rfc_step (X : list Z) (r : words4) (i : Z) : words4 :=
  let '(a, b, c, d) := r in
  let round := i / 16 in
  (d, u32 (b + rotate (u32 (a + rfc_f round b c d + zget 0 X (rfc_k round i) + zget 0 rfc_T i)) (rfc_s round i)), b, c).

Definition add4 (r s : words4) : words4 :=
  let '(a, b, c, d) := r in let '(a', b', c', d') := s in
  (u32 (a + a'), u32 (b + b'), u32 (c + c'), u32 (d + d')).

(** The sixteen little-endian words of a block. *)
Definition block_words (data : list Z) : list Z :=
  (fun i => le_value (take 4 (drop (4 * i) data))) <$> seq 0 16.

Definition compress (data : list Z) (state : words4) : words4 :=
  add4 state (fold_left (rfc_step (block_words data)) (seqZ 0 64) state).

Fixpoint compress_blocks (n : nat) (data : list Z) (state : words4) : words4 :=
  match n with
  | O => state
  | S n' => compress_blocks n' (drop 64 data) (compress (take 64 data) state)
  end.

(** A one, zeros up to 56 bytes modulo 64, and the length in bits. *)
Definition pad (msg : list Z) : list Z :=
  0x80 :: replicate (Z.to_nat ((55 - zlen msg) mod 64)) 0 ++ le_bytes 8 (8 * zlen msg).

Definition rfc_start : words4 := (0x67452301, 0xEFCDAB89, 0x98BADCFE, 0x10325476).

Definition bytes4 (r : words4) : list Z :=
  let '(a, b, c, d) := r in le_bytes 4 a ++ le_bytes 4 b ++ le_bytes 4 c ++ le_bytes 4 d.

Definition md5_rfc (msg : list Z) : list Z :=
  let padded := msg ++ pad msg in
  bytes4 (compress_blocks (length padded / 64) padded rfc_start).

(** ** One step *)

Ltac bitwise :=
  apply Z.bits_inj'; intros ? ?;
  rewrite ?Z.lxor_spec, ?Z.lor_spec, ?Z.land_spec, ?Z.lxor_spec, ?Z.lnot_spec, ?Z.lxor_spec by done;
  repeat match goal with |- context [Z.testbit ?x ?i] => destruct (Z.testbit x i) end; reflexivity.

Lemma F1_spec x y z : F1 x y z = rfc_f 0 x y z.
Proof. unfold F1, rfc_f. cbn [Z.eqb]. bitwise. Qed.

Lemma F2_spec x y z : F2 x y z = rfc_f 1 x y z.
Proof. unfold F2, rfc_f. cbn. bitwise. Qed.

Lemma S_spec x n : is_u 32 x -> 0 <= n <= 32 -> S_ x n = rotate x n.
Proof.
  intros Hx Hn. unfold S_, rotate. change 0xFFFFFFFF with (Z.ones 32).
  rewrite Z.land_ones, (Z.mod_small x) by (done || lia).
  assert (Hs : u32 (Z.shiftl x n) = Z.shiftl (x mod 2 ^ (32 - n)) n).
  { unfold wrapU. rewrite !Z.shiftl_mul_pow2 by lia.
    replace (2 ^ 32) with (2 ^ (32 - n) * 2 ^ n) by (rewrite <- Z.pow_add_r by lia; f_equal; lia).
    apply Z.mul_mod_distr_r; apply Z.pow_nonzero; lia. }
  rewrite Z.lor_comm, Hs, lor_shiftl_add; [| lia |].
  - rewrite <- Z.shiftl_mul_pow2, <- Hs by lia. rewrite Z.shiftr_div_pow2, Z.shiftl_mul_pow2 by lia.
    unfold wrapU. lia.
  - rewrite Z.shiftr_div_pow2 by lia. destruct Hx. split; [apply Z.div_pos; [lia | apply Z.pow_pos_nonneg; lia]|].
    apply Z.div_lt_upper_bound; [apply Z.pow_pos_nonneg; lia|]. rewrite <- Z.pow_add_r by lia.
    by replace (32 - n + n) with 32 by lia.
Qed.

Lemma P_spec F X r i :
  (forall x y z, F x y z = rfc_f (i / 16) x y z) -> 0 <= rfc_s (i / 16) i <= 32 ->
  P_ F X r (rfc_k (i / 16) i, rfc_s (i / 16) i, zget 0 rfc_T i) = rfc_step X r i.
Proof.
  intros HF Hs. destruct r as [[[a b] c] d]. unfold P_, rfc_step. rewrite HF.
  rewrite wrapU_add_l, wrapU_add_r by lia. rewrite S_spec by (try apply wrapU_range; lia).
  rewrite !Z.add_assoc, (Z.add_comm b). done.
Qed.

(** The 64 lines of the source are the formulas of the RFC. *)
Definition line (i : Z) : Z * Z * Z := (rfc_k (i / 16) i, rfc_s (i / 16) i, zget 0 rfc_T i).

Lemma rounds_lines :
  round1 = line <$> seqZ 0 16 /\ round2 = line <$> seqZ 16 16 /\
  round3 = line <$> seqZ 32 16 /\ round4 = line <$> seqZ 48 16.
Proof. by vm_compute. Qed.

Lemma round_spec F X l r :
  Forall (fun i => (forall x y z, F x y z = rfc_f (i / 16) x y z) /\ 0 <= rfc_s (i / 16) i <= 32) l ->
  fold_left (P_ F X) (line <$> l) r = fold_left (rfc_step X) l r.
Proof.
  intros H. revert r. induction H as [|i l [HF Hs] _ IH]; intros r; [done|]. cbn [fmap list_fmap fold_left].
  unfold line at 2. rewrite (P_spec F X r i HF Hs). apply IH.
Qed.

(** All lines of a round belong to it. *)
Lemma round_lines F rd n : n = rd * 16 -> (rd = 0 \/ rd = 1 \/ rd = 2 \/ rd = 3) ->
  (forall x y z, F x y z = rfc_f rd x y z) ->
  Forall (fun i => (forall x y z, F x y z = rfc_f (i / 16) x y z) /\ 0 <= rfc_s (i / 16) i <= 32) (seqZ n 16).
Proof.
  intros -> Hrd HF. apply Forall_forall. intros i Hi%elem_of_seqZ.
  assert (i / 16 = rd) as -> by (symmetry; apply (Z.div_unique _ _ _ (i - rd * 16)); lia). split; [done|].
  pose proof (Z.mod_pos_bound i 4 ltac:(lia)). unfold rfc_s.
  assert (i mod 4 = 0 \/ i mod 4 = 1 \/ i mod 4 = 2 \/ i mod 4 = 3) as Hm by lia.
  destruct Hrd as [-> | [-> | [-> | ->]]], Hm as [-> | [-> | [-> | ->]]]; vm_compute; split; discriminate.
Qed.

Lemma process_spec data state :
  Forall is_byte data -> length data = 64%nat -> md5_process data state = Some (compress data state).
Proof.
  intros Hb Hl. unfold md5_process.
  assert (mapM (fun i => GET_UINT32 data (i * 4)) (seqZ 0 16) = Some (block_words data)) as ->.
  { do 64 (destruct data as [|? data]; [discriminate Hl|]). destruct data; [|discriminate Hl].
    decompose_Forall. cbn -[wrapU Z.shiftl Z.lor le_value]. unfold GET_UINT32, znth.
    cbn -[wrapU Z.shiftl Z.lor le_value]. by rewrite !le_word. }
  cbn [mbind option_bind]. destruct rounds_lines as (-> & -> & -> & ->).
  rewrite (round_spec F1), (round_spec F2), (round_spec F3), (round_spec F4).
  2: by apply (round_lines _ 3); [| lia |]. 2: by apply (round_lines _ 2); [| lia |].
  2: apply (round_lines _ 1); [done | lia | apply F2_spec]. 2: apply (round_lines _ 0); [done | lia | apply F1_spec].
  unfold compress. change (seqZ 0 64) with (seqZ 0 16 ++ seqZ 16 16 ++ seqZ 32 16 ++ seqZ 48 16).
  rewrite !fold_left_app. destruct (fold_left _ (seqZ 48 16) _) as [[[A B] C] D].
  by destruct state as [[[s0 s1] s2] s3].
Qed.

(** ** Feeding bytes in pieces *)

Lemma blocks_spec n input state :
  Forall is_byte input -> (64 * n <= length input)%nat ->
  md5_blocks n input state = Some (drop (64 * n) input, compress_blocks n input state).
Proof.
  revert input state. induction n as [|n IH]; intros input state Hb Hl; [done|]. cbn [md5_blocks compress_blocks].
  rewrite process_spec by (try apply Forall_take; try done; rewrite length_take; lia).
  cbn [mbind option_bind]. rewrite IH by (try apply Forall_drop; try done; rewrite length_drop; lia).
  rewrite drop_drop. do 3 f_equal. lia.
Qed.

(** The state after the whole blocks of [l], and what is left. *)
Definition absorb (l : list Z) (state : words4) : words4 * list Z :=
  (compress_blocks (length l / 64) l state, drop (64 * (length l / 64)) l).

Lemma absorb_small l state : (length l < 64)%nat -> absorb l state = (state, l).
Proof. intros H. unfold absorb. by rewrite Nat.div_small. Qed.

Lemma absorb_block l state : (64 <= length l)%nat ->
  absorb l state = absorb (drop 64 l) (compress (take 64 l) state).
Proof.
  intros H. unfold absorb. rewrite length_drop.
  assert (length l / 64 = S ((length l - 64) / 64))%nat as ->.
  { replace (length l) with (length l - 64 + 1 * 64)%nat at 1 by lia. rewrite Nat.div_add by lia. lia. }
  cbn [compress_blocks]. rewrite drop_drop. do 2 f_equal. lia.
Qed.

Lemma absorb_rest l state : length (snd (absorb l state)) = (length l mod 64)%nat.
Proof.
  unfold absorb. cbn [snd]. rewrite length_drop. pose proof (Nat.div_mod_eq (length l) 64). lia.
Qed.

(** Bytes may be fed in pieces. *)
Lemma absorb_app l x state :
  absorb (l ++ x) state = absorb (snd (absorb l state) ++ x) (fst (absorb l state)).
Proof.
  remember (length l) as n eqn:Hn. revert l state Hn. induction n as [n IH] using lt_wf_ind; intros l state ->.
  destruct (decide (length l < 64)%nat) as [Hs|Hs]; [by rewrite (absorb_small l)|].
  rewrite (absorb_block (l ++ x)) by (rewrite length_app; lia). rewrite (absorb_block l) by lia.
  rewrite drop_app_le, take_app_le by lia. eapply IH; [|reflexivity]. rewrite length_drop. lia.
Qed.

Definition absorbed (msg : list Z) (ctx : md5_context) : Prop :=
  md_total0 ctx = u32 (zlen msg) /\ md_total1 ctx = u32 (zlen msg / 2 ^ 32) /\
  length (md_buffer ctx) = 64%nat /\ Forall is_byte (md_buffer ctx) /\ Forall is_byte msg /\
  absorb msg rfc_start = (md_state ctx, take (length msg mod 64) (md_buffer ctx)).

(** The end of [md5_update]: the blocks of the input and its tail. *)
Definition update_tail (buffer : list Z) (state : words4) (input : list Z) (n left : Z)
    : option (words4 * list Z) :=
  '(input, state) ← md5_blocks (Z.to_nat (n / 64)) input state;
  let n := n mod 64 in
  if n =? 0 then Some (state, buffer) else
  tail ← block_read input 0 n; buffer ← block_write buffer left tail; Some (state, buffer).

Lemma compress_blocks_take k n l state : (64 * k <= n)%nat ->
  compress_blocks k (take n l) state = compress_blocks k l state.
Proof.
  revert n l state. induction k as [|k IH]; intros n l state H; [done|]. cbn [compress_blocks].
  rewrite skipn_firstn_comm, take_take, Nat.min_l by lia. apply IH. lia.
Qed.

(** Writing [x] behind the first [n] bytes of the buffer. *)
Lemma buffer_write buffer n x :
  length buffer = 64%nat -> (n + length x <= 64)%nat ->
  block_write buffer (Z.of_nat n) x = Some (take n buffer ++ x ++ drop (n + length x) buffer) /\
  length (take n buffer ++ x ++ drop (n + length x) buffer) = 64%nat /\
  take (n + length x) (take n buffer ++ x ++ drop (n + length x) buffer) = take n buffer ++ x.
Proof.
  intros Hl Hn. split_and!.
  - unfold block_write, zlen. rewrite Hl, (proj2 (Z.leb_le _ _)), (proj2 (Z.leb_le _ _)) by lia.
    cbn [andb]. rewrite Nat2Z.id. do 4 f_equal. lia.
  - rewrite !length_app, length_take, length_drop. lia.
  - rewrite (app_assoc (take n buffer)), take_app_length'; [done|]. rewrite length_app, length_take. lia.
Qed.

Lemma update_tail_spec buffer state input (n left : nat) :
  length buffer = 64%nat -> Forall is_byte buffer -> Forall is_byte input -> (n <= length input)%nat ->
  (left < 64)%nat -> (left = 0 \/ left + n < 64)%nat ->
  exists state' buffer', update_tail buffer state input (Z.of_nat n) (Z.of_nat left) = Some (state', buffer') /\
    length buffer' = 64%nat /\ Forall is_byte buffer' /\
    absorb (take left buffer ++ take n input) state = (state', take ((left + n) mod 64) buffer').
Proof.
  intros Hl Hb Hi Hn Hleft Hc. unfold update_tail.
  replace (Z.of_nat n / 64) with (Z.of_nat (n / 64)) by (by rewrite Nat2Z.inj_div).
  replace (Z.of_nat n mod 64) with (Z.of_nat (n mod 64)) by (by rewrite Nat2Z.inj_mod). rewrite Nat2Z.id.
  pose proof (Nat.div_mod_eq n 64) as Hd. pose proof (Nat.mod_upper_bound n 64 ltac:(lia)) as Hm.
  set (k := (n / 64)%nat) in *. set (t := (n mod 64)%nat) in *.
  rewrite blocks_spec by (done || lia). cbn [mbind option_bind].
  assert (Ha : absorb (take left buffer ++ take n input) state =
    (compress_blocks k input state, take left buffer ++ take t (drop (64 * k) input))
    /\ ((left + n) mod 64 = left + t)%nat).
  { destruct (decide (left = 0)%nat) as [->|Hne].
    - rewrite take_0. cbn [app Nat.add]. split; [|done]. unfold absorb. rewrite length_take, Nat.min_l by lia. fold k.
      rewrite compress_blocks_take by lia. f_equal. rewrite skipn_firstn_comm. f_equal. lia.
    - assert (k = 0 /\ t = n)%nat as [Ek Et] by lia. rewrite Ek, Et, Nat.mul_0_r, drop_0.
      rewrite absorb_small by (rewrite length_app, !length_take; lia). split; [done|]. apply Nat.mod_small; lia. }
  destruct Ha as [-> ->].
  destruct (Z.eqb_spec (Z.of_nat t) 0) as [Ht|Ht].
  { assert (t = 0)%nat as Et by lia. eexists _, _. split; [done|]. split_and!; try done.
    by rewrite Et, take_0, app_nil_r, Nat.add_0_r. }
  rewrite (block_read_Some _ 0 (Z.of_nat t)) by (try lia; unfold zlen; rewrite length_drop; lia).
  cbn [mbind option_bind]. rewrite drop_0, Nat2Z.id. set (x := take t (drop (64 * k) input)).
  assert (Hx : length x = t) by (unfold x; rewrite length_take, length_drop; lia).
  destruct (buffer_write buffer left x Hl) as (-> & Hl' & Ht'); [lia|]. cbn [mbind option_bind].
  rewrite Hx in *. eexists _, _. split; [done|]. split; [done|]. split; [|by rewrite Ht'].
  rewrite !Forall_app. split_and!; [by apply Forall_take | | by apply Forall_drop].
  unfold x. by apply Forall_take, Forall_drop.
Qed.

Lemma land_63 x : Z.land x 0x3F = x mod 64.
Proof. change 0x3F with (Z.ones 6). by rewrite Z.land_ones by lia. Qed.

(** The two counters are one count of 64 bits. *)
Lemma total_add t n : 0 <= t -> 0 <= n < 2 ^ 32 ->
  let t0 := u32 (u32 t + n) in
  t0 = u32 (t + n) /\ (if t0 <? n then u32 (u32 (t / 2 ^ 32) + 1) else u32 (t / 2 ^ 32)) = u32 ((t + n) / 2 ^ 32).
Proof.
  intros Ht Hn. cbv zeta. rewrite wrapU_add_l by lia. split; [done|].
  unfold wrapU. destruct (Z.ltb_spec ((t + n) mod 2 ^ 32) n) as [H|H].
  - rewrite Z.add_mod_idemp_l by lia. f_equal. change (2 ^ 32) with 4294967296 in *. zdiv.
  - f_equal. change (2 ^ 32) with 4294967296 in *. zdiv.
Qed.

(** A context with a state and a buffer, the counters advanced. *)
Definition updated (ctx : md5_context) (n : Z) (state : words4) (buffer : list Z) : md5_context :=
  let total0 := u32 (md_total0 ctx + n) in
  mk_md5 total0 (if total0 <? n then u32 (md_total1 ctx + 1) else md_total1 ctx) state buffer.

(** [md5_update] is the completion of a started block, then [update_tail]. *)
Lemma update_start ctx input n state buffer :
  n <> 0 -> (Z.land (md_total0 ctx) 63 = 0 \/ n < 64 - Z.land (md_total0 ctx) 63) ->
  update_tail (md_buffer ctx) (md_state ctx) input n (Z.land (md_total0 ctx) 63) = Some (state, buffer) ->
  md5_update ctx input n = Some (updated ctx n state buffer).
Proof.
  intros Hn Hc H. unfold md5_update. rewrite (proj2 (Z.eqb_neq _ _) Hn).
  replace (negb (Z.land (md_total0 ctx) 63 =? 0) && (64 - Z.land (md_total0 ctx) 63 <=? n)) with false.
  2: { destruct Hc as [-> | Hc]; [done|]. rewrite (proj2 (Z.leb_gt _ _) Hc). by rewrite andb_false_r. }
  cbn [mbind option_bind]. revert H. unfold update_tail.
  destruct (md5_blocks _ _ _) as [[i st]|]; [|done]. cbn [mbind option_bind].
  destruct (n mod 64 =? 0); [by intros [= <- <-]|].
  destruct (block_read _ _ _) as [x|]; [|done]. cbn [mbind option_bind].
  destruct (block_write _ _ _) as [b|]; [|done]. cbn [mbind option_bind]. by intros [= <- <-].
Qed.

Lemma update_complete ctx input n head b st state buffer :
  let left := Z.land (md_total0 ctx) 63 in
  n <> 0 -> left <> 0 -> 64 - left <= n ->
  block_read input 0 (64 - left) = Some head -> block_write (md_buffer ctx) left head = Some b ->
  md5_process b (md_state ctx) = Some st ->
  update_tail b st (drop (Z.to_nat (64 - left)) input) (n - (64 - left)) 0 = Some (state, buffer) ->
  md5_update ctx input n = Some (updated ctx n state buffer).
Proof.
  intros left Hn Hl Hf Hr Hw Hp H. unfold md5_update. fold left.
  rewrite (proj2 (Z.eqb_neq _ _) Hn), (proj2 (Z.eqb_neq _ _) Hl), (proj2 (Z.leb_le _ _) Hf). cbn [negb andb].
  rewrite Hr. cbn [mbind option_bind]. rewrite Hw. cbn [mbind option_bind]. rewrite Hp. cbn [mbind option_bind].
  revert H. unfold update_tail.
  destruct (md5_blocks _ _ _) as [[i st']|]; [|done]. cbn [mbind option_bind].
  destruct (_ mod 64 =? 0); [by intros [= <- <-]|].
  destruct (block_read i _ _) as [x|]; [|done]. cbn [mbind option_bind].
  destruct (block_write b _ _) as [b'|]; [|done]. cbn [mbind option_bind]. by intros [= <- <-].
Qed.

Lemma absorbed_updated msg ctx input n state buffer :
  absorbed msg ctx -> Forall is_byte input -> (n <= length input)%nat -> Z.of_nat n < 2 ^ 32 ->
  length buffer = 64%nat -> Forall is_byte buffer ->
  absorb (take (length msg mod 64) (md_buffer ctx) ++ take n input) (md_state ctx) =
    (state, take ((length msg mod 64 + n) mod 64) buffer) ->
  absorbed (msg ++ take n input) (updated ctx (Z.of_nat n) state buffer).
Proof.
  intros (T0 & T1 & _ & _ & Hm & Ha) Hi Hn Hn32 Hl Hb E.
  assert (Hz : zlen (msg ++ take n input) = zlen msg + Z.of_nat n)
    by (rewrite zlen_app; unfold zlen; rewrite length_take; lia).
  pose proof (total_add (zlen msg) (Z.of_nat n) (zlen_nonneg _) ltac:(lia)) as A.
  cbv zeta in A. destruct A as [A0 A1].
  unfold absorbed, updated. rewrite T0, T1, Hz. split_and!; try done.
  - apply Forall_app. split; [done | by apply Forall_take].
  - cbn [md_state md_buffer]. rewrite absorb_app, Ha. cbn [fst snd]. rewrite E. f_equal. f_equal.
    rewrite length_app, length_take, Nat.min_l by lia. by rewrite Nat.Div0.add_mod_idemp_l.
Qed.

Lemma update_spec msg ctx input n :
  absorbed msg ctx -> Forall is_byte input -> (n <= length input)%nat -> Z.of_nat n < 2 ^ 32 ->
  exists ctx', md5_update ctx input (Z.of_nat n) = Some ctx' /\ absorbed (msg ++ take n input) ctx'.
Proof.
  intros Habs Hi Hn Hn32. pose proof Habs as (T0 & T1 & Hl & Hb & Hm & Ha).
  destruct (decide (n = 0)%nat) as [->|Hn0].
  { exists ctx. split; [done|]. by rewrite take_0, app_nil_r. }
  set (left := (length msg mod 64)%nat). pose proof (Nat.mod_upper_bound (length msg) 64 ltac:(lia)) as Hleft.
  assert (Eleft : Z.land (md_total0 ctx) 63 = Z.of_nat left).
  { rewrite land_63, T0. unfold wrapU. rewrite Z.mod_mod_divide by (exists (2 ^ 26); done).
    unfold left, zlen. by rewrite Nat2Z.inj_mod. }
  fold left in Ha, Hleft.
  destruct (decide (left = 0 \/ n < 64 - left)%nat) as [Hc|Hc].
  - destruct (update_tail_spec (md_buffer ctx) (md_state ctx) input n left) as (st & b & E & Hl' & Hb' & Hab);
      [done.. | lia |].
    eexists. split; [apply (update_start ctx input _ st b); rewrite ?Eleft; [lia | lia | exact E]|].
    by apply absorbed_updated.
  - set (fill := (64 - left)%nat).
    set (b := take left (md_buffer ctx) ++ take fill input).
    assert (Hfill : length (take fill input) = fill) by (rewrite length_take; lia).
    assert (Hbl : length b = 64%nat) by (unfold b; rewrite length_app, Hfill, length_take; lia).
    assert (Hbb : Forall is_byte b) by (apply Forall_app; split; by apply Forall_take).
    destruct (update_tail_spec b (compress b (md_state ctx)) (drop fill input) (n - fill) 0)
      as (st & b' & E & Hl' & Hb' & Hab); [done | done | by apply Forall_drop | rewrite length_drop; lia | lia | lia |].
    eexists. split.
    { apply (update_complete ctx input _ (take fill input) b (compress b (md_state ctx)) st b'); rewrite ?Eleft.
      - lia.
      - lia.
      - lia.
      - rewrite (block_read_Some _ 0 _) by (unfold zlen; lia). rewrite drop_0. do 2 f_equal. lia.
      - destruct (buffer_write (md_buffer ctx) left (take fill input) Hl) as (-> & _); [lia|].
        rewrite (drop_ge (md_buffer ctx)) by lia. by rewrite app_nil_r.
      - by apply process_spec.
      - replace (Z.to_nat (64 - Z.of_nat left)) with fill by lia.
        by replace (Z.of_nat n - (64 - Z.of_nat left)) with (Z.of_nat (n - fill)) by lia. }
    apply absorbed_updated; try done. fold left.
    assert (Hsplit : take left (md_buffer ctx) ++ take n input = b ++ take (n - fill) (drop fill input)).
    { unfold b. rewrite <- app_assoc. f_equal. rewrite <- (take_drop fill (take n input)) at 1.
      rewrite take_take, Nat.min_l, skipn_firstn_comm by lia. done. }
    rewrite Hsplit, absorb_block by (rewrite length_app; lia).
    rewrite drop_app_length', take_app_length' by done. rewrite take_0 in Hab. cbn [app Nat.add] in Hab.
    rewrite Hab. do 2 f_equal.
    replace (left + n)%nat with (n - fill + 1 * 64)%nat by lia. by rewrite Nat.Div0.mod_add.
Qed.

(** ** Padding *)

Lemma PUT_UINT32_bytes x : PUT_UINT32 x = le_bytes 4 x.
Proof. unfold PUT_UINT32. cbn [le_bytes]. by rewrite !Z.shiftr_shiftr by lia. Qed.

Lemma le_bytes_mod n x : le_bytes n (x mod 2 ^ (8 * Z.of_nat n)) = le_bytes n x.
Proof.
  rewrite <- le_value_bytes. pose proof (le_bytes_value (le_bytes n x) (le_bytes_is_byte _ _)) as H.
  by rewrite length_le_bytes in H.
Qed.

(** The two words of the length are its 64 bits. *)
Lemma msglen_bytes t0 t1 len :
  0 <= len < 2 ^ 61 -> t0 = u32 len -> t1 = u32 (len / 2 ^ 32) ->
  PUT_UINT32 (u32 (Z.shiftl t0 3)) ++ PUT_UINT32 (Z.lor (Z.shiftr t0 29) (u32 (Z.shiftl t1 3))) =
  le_bytes 8 (8 * len).
Proof.
  intros Hl -> ->. rewrite !PUT_UINT32_bytes. change 8%nat with (4 + 4)%nat.
  rewrite le_bytes_add. change (2 ^ 61) with 2305843009213693952 in Hl. f_equal.
  - rewrite <- (le_bytes_mod 4 (8 * len)). f_equal. unfold wrapU. rewrite Z.shiftl_mul_pow2 by lia.
    change (8 * Z.of_nat 4) with 32. change (2 ^ 3) with 8. rewrite Z.mul_mod_idemp_l, Z.mul_comm by done. done.
  - f_equal. change (8 * Z.of_nat 4) with 32. rewrite !Z.shiftr_div_pow2 by lia. unfold wrapU.
    rewrite (Z.mod_small (len / 2 ^ 32)) by (change (2 ^ 32) with 4294967296; zdiv).
    rewrite (Z.mod_small (Z.shiftl _ _)) by (rewrite Z.shiftl_mul_pow2 by lia; change (2 ^ 32) with 4294967296; change (2 ^ 3) with 8; zdiv).
    rewrite lor_shiftl_add by (try lia; change (2 ^ 32) with 4294967296; change (2 ^ 29) with 536870912; change (2 ^ 3) with 8; zdiv).
    change (2 ^ 32) with 4294967296; change (2 ^ 29) with 536870912; change (2 ^ 3) with 8. zdiv.
Qed.

(** The bytes of the padding that are fed. *)
Lemma padding_bytes len (r : Z) : r = len mod 64 ->
  take (Z.to_nat (if r <? 56 then 56 - r else 120 - r)) md5_padding =
  0x80 :: replicate (Z.to_nat ((55 - len) mod 64)) 0.
Proof.
  intros ->. pose proof (Z.mod_pos_bound len 64 ltac:(lia)) as Hr.
  assert (E : (55 - len) mod 64 = (if len mod 64 <? 56 then 56 - len mod 64 else 120 - len mod 64) - 1).
  { destruct (Z.ltb_spec (len mod 64) 56); zdiv. }
  rewrite E. set (p := if len mod 64 <? 56 then _ else _).
  assert (Hp : 1 <= p <= 64) by (unfold p; case_if; bool_hyps; lia). clearbody p.
  replace (Z.to_nat p) with (S (Z.to_nat (p - 1))) by lia. unfold md5_padding. rewrite firstn_cons.
  by rewrite take_replicate, Nat.min_l by lia.
Qed.

Lemma length_pad msg : ((length msg + length (pad msg)) mod 64 = 0)%nat.
Proof.
  unfold pad. cbn [length]. rewrite length_app, length_replicate, length_le_bytes.
  apply Nat2Z.inj. rewrite Nat2Z.inj_mod. unfold zlen.
  pose proof (Z.mod_pos_bound (55 - Z.of_nat (length msg)) 64 ltac:(lia)).
  rewrite !Nat2Z.inj_add, Nat2Z.inj_succ, Nat2Z.inj_add, Z2Nat.id by lia. zdiv.
Qed.

Lemma padding_is_byte : Forall is_byte md5_padding.
Proof. apply (bool_decide_unpack _). by vm_compute. Qed.

Lemma finish_spec msg ctx :
  absorbed msg ctx -> zlen msg < 2 ^ 61 -> md5_finish ctx = Some (md5_rfc msg).
Proof.
  intros Habs Hlen. pose proof Habs as (T0 & T1 & _ & _ & Hm & _). pose proof (zlen_nonneg msg).
  unfold md5_finish.
  assert (Er : Z.land (md_total0 ctx) 63 = zlen msg mod 64).
  { rewrite land_63, T0. unfold wrapU. by rewrite Z.mod_mod_divide by (exists (2 ^ 26); done). }
  set (padn := if _ <? 56 then _ else _).
  assert (Hp : 1 <= padn <= 64).
  { unfold padn. rewrite Er. pose proof (Z.mod_pos_bound (zlen msg) 64 ltac:(lia)). case_if; bool_hyps; lia. }
  destruct (update_spec msg ctx md5_padding (Z.to_nat padn) Habs padding_is_byte) as (ctx1 & E1 & H1);
    [cbn; lia | lia |].
  rewrite Z2Nat.id in E1 by lia. rewrite E1. cbn [mbind option_bind].
  rewrite (msglen_bytes _ _ (zlen msg)) by (done || lia).
  destruct (update_spec _ ctx1 (le_bytes 8 (8 * zlen msg)) 8 H1) as (ctx2 & E2 & H2);
    [apply le_bytes_is_byte | by rewrite length_le_bytes | lia |].
  change (Z.of_nat 8) with 8 in E2. rewrite E2. cbn [mbind option_bind].
  assert (Hpad : (msg ++ take (Z.to_nat padn) md5_padding) ++ take 8 (le_bytes 8 (8 * zlen msg)) = msg ++ pad msg).
  { rewrite <- app_assoc. f_equal. unfold padn. rewrite (padding_bytes (zlen msg)) by done.
    rewrite take_ge by (by rewrite length_le_bytes). done. }
  rewrite Hpad in H2. destruct H2 as (_ & _ & _ & _ & _ & Ha).
  assert (Hs : md_state ctx2 = compress_blocks (length (msg ++ pad msg) / 64) (msg ++ pad msg) rfc_start)
    by (unfold absorb in Ha; congruence).
  unfold md5_rfc. rewrite <- Hs. destruct (md_state ctx2) as [[[a b] c] d]. by rewrite !PUT_UINT32_bytes.
Qed.

(** C40: the digest is that of RFC 1321 for every message the primitive can be given, and
    the pieces in which the context is fed do not matter. *)
Theorem md5_correct junk msg :
  Forall is_byte msg -> zlen msg < 2 ^ 32 -> Forall is_byte junk -> length junk = 64%nat ->
  jdll_std_md5 junk (Some msg) = Some (md5_rfc msg).
Proof.
  intros Hm Hlen Hj Hl. unfold jdll_std_md5.
  assert (H0 : absorbed [] (md5_starts junk)) by (split_and!; done).
  destruct (Z.eqb_spec (zlen msg) 0) as [E|E]; cbn [mbind option_bind].
  - destruct msg as [|b msg]; [by apply finish_spec|]. rewrite zlen_cons in E. pose proof (zlen_nonneg msg). lia.
  - destruct (update_spec [] _ msg (length msg) H0 Hm) as (ctx & Eu & Ha); [done | done |].
    rewrite firstn_all in Ha. unfold zlen. rewrite Eu. cbn [mbind option_bind].
    apply finish_spec; [done | lia].
Qed.

Lemma md5_correct_witness :
  jdll_std_md5 (replicate 64 7) (Some [97; 98; 99]) = Some (md5_rfc [97; 98; 99]).
Proof.
  apply md5_correct; [apply (bool_decide_unpack _); by vm_compute | reflexivity |
    apply (bool_decide_unpack _); by vm_compute | reflexivity].
Defined.
