(* ===== verification/Unicode.v ===== *)
(** * UTF-8

    Model of src/libs/std/core/unicode.c.  A primitive gets its arguments read
    ([jdl_arg_...]) and answers through [jdl_return_...] or [jdl_fail]; bytes that
    are the null pointer have length 0, so the tests for them never fire.

    The decoder accepts the encodings of the Unicode scalar values, and besides them
    the same bytes with eight added to the first of four.  A text made of scalar
    values is valid, has their number, gives each of them back and is cut between
    them. *)

From Stdlib Require Import String.
From S2P Require Import Prelude CInt Memory.
#[local] Open Scope list_scope.
#[local] Open Scope Z_scope.

(** What a primitive leaves in its context. *)
Inductive jdl_result : Set :=
| jdl_return_bool (b : bool)
| jdl_return_i32 (x : Z)
| jdl_return_bytes_copy (data : list Z)
| jdl_fail (msg : string).

(** ** Code points *)

Definition utf8_len_tbl : list Z := [1; 1; 1; 1; 1; 1; 1; 1; 0; 0; 0; 0; 2; 2; 3; 4].

Definition utf8_char_len (b : Z) : Z := zget 0 utf8_len_tbl (Z.shiftr b 4).

Definition utf8_valid_cp (cp : Z) : bool := (cp <=? 0x10FFFF) && ((cp <? 0xD800) || (0xDFFF <? cp)).

Definition cont (b : Z) : bool := Z.land b 0xC0 =? 0x80.

(** The outer option: a read outside [s]; the inner one: 0, else [cp] and [adv]. *)
Definition utf8_decode_at (s : list Z) (off : Z) : option (option (Z * Z)) :=
  if zlen s <=? off then Some None else
  b0 ← s @! off;
  let n := utf8_char_len b0 in
  if (n <=? 0) || (zlen s <? u32 (off + n)) then Some None else
  let check c least := if c <? least then None else if negb (utf8_valid_cp c) then None else Some (c, n) in
  if n =? 1 then Some (check b0 0) else
  if n =? 2 then
    b1 ← s @! (off + 1);
    if negb (cont b1) then Some None else
    Some (check (Z.lor (Z.shiftl (Z.land b0 0x1F) 6) (Z.land b1 0x3F)) 0x80)
  else if n =? 3 then
    b1 ← s @! (off + 1); b2 ← s @! (off + 2);
    if negb (cont b1) || negb (cont b2) then Some None else
    Some (check (Z.lor (Z.lor (Z.shiftl (Z.land b0 0x0F) 12) (Z.shiftl (Z.land b1 0x3F) 6)) (Z.land b2 0x3F)) 0x800)
  else
    b1 ← s @! (off + 1); b2 ← s @! (off + 2); b3 ← s @! (off + 3);
    if negb (cont b1) || negb (cont b2) || negb (cont b3) then Some None else
    Some (check (Z.lor (Z.lor (Z.lor (Z.shiftl (Z.land b0 0x07) 18) (Z.shiftl (Z.land b1 0x3F) 12))
                          (Z.shiftl (Z.land b2 0x3F) 6)) (Z.land b3 0x3F)) 0x10000).

(** The loops of the file go through at least one byte a turn: fuel for every byte
    is enough. The outer option is a read outside [s], or fuel that ran out. *)
Fixpoint validate_loop (fuel : nat) (s : list Z) (i : Z) : option bool :=
  if zlen s <=? i then Some true else
  match fuel with
  | O => None
  | S fuel' =>
      r ← utf8_decode_at s i;
      match r with None => Some false | Some (_, adv) => validate_loop fuel' s (u32 (i + adv)) end
  end.

Definition utf8_validate_bytes (s : list Z) : option bool := validate_loop (length s) s 0.

Fixpoint count_loop (fuel : nat) (s : list Z) (i n : Z) : option Z :=
  if zlen s <=? i then Some n else
  match fuel with
  | O => None
  | S fuel' =>
      r ← utf8_decode_at s i;
      match r with
      | None => Some UINT32_MAX
      | Some (_, adv) => count_loop fuel' s (u32 (i + adv)) (u32 (n + 1))
      end
  end.

Definition utf8_codepoint_count (s : list Z) : option Z := count_loop (length s) s 0 0.

Definition utf8_encode (cp cap : Z) : option (list Z) :=
  if negb (utf8_valid_cp cp) then None else
  if cp <? 0x80 then if cap <? 1 then None else Some [u8 cp] else
  if cp <? 0x800 then
    if cap <? 2 then None else
    Some [u8 (Z.lor 0xC0 (Z.shiftr cp 6)); u8 (Z.lor 0x80 (Z.land cp 0x3F))]
  else if cp <? 0x10000 then
    if cap <? 3 then None else
    Some [u8 (Z.lor 0xE0 (Z.shiftr cp 12)); u8 (Z.lor 0x80 (Z.land (Z.shiftr cp 6) 0x3F));
          u8 (Z.lor 0x80 (Z.land cp 0x3F))]
  else if cap <? 4 then None else
    Some [u8 (Z.lor 0xF0 (Z.shiftr cp 18)); u8 (Z.lor 0x80 (Z.land (Z.shiftr cp 12) 0x3F));
          u8 (Z.lor 0x80 (Z.land (Z.shiftr cp 6) 0x3F)); u8 (Z.lor 0x80 (Z.land cp 0x3F))].

(** [k] code points on from [i]. *)
Fixpoint advance_loop (k : nat) (s : list Z) (i : Z) : option (option Z) :=
  match k with
  | O => Some (Some i)
  | S k' =>
      r ← utf8_decode_at s i;
      match r with None => Some None | Some (_, adv) => advance_loop k' s (u32 (i + adv)) end
  end.

Definition utf8_byte_offset_at_cp (s : list Z) (cp_index : Z) : option (option Z) :=
  if cp_index <? 0 then Some None else
  r ← advance_loop (Z.to_nat cp_index) s 0;
  Some (match r with Some i => if zlen s <? i then None else Some i | None => None end).

(** ** Primitives *)

Definition jdll_std_unicode_validate (s : list Z) : option jdl_result :=
  b ← utf8_validate_bytes s; Some (jdl_return_bool b).

Definition jdll_std_unicode_length (s : list Z) : option jdl_result :=
  n ← utf8_codepoint_count s;
  Some (if n =? UINT32_MAX then jdl_fail "unicode_length: invalid utf8" else jdl_return_i32 (i32 n)).

Definition jdll_std_unicode_get (s : list Z) (idx : Z) : option jdl_result :=
  if idx <? 0 then Some (jdl_fail "unicode_get: negative index") else
  off ← utf8_byte_offset_at_cp s idx;
  match off with
  | None => Some (jdl_fail "unicode_get: index out of range")
  | Some off =>
      r ← utf8_decode_at s off;
      Some (match r with
            | None => jdl_fail "unicode_get: invalid utf8"
            | Some (cp, _) => jdl_return_i32 (i32 cp)
            end)
  end.

Fixpoint compare_loop (fuel : nat) (a b : list Z) (ia ib : Z) : option jdl_result :=
  match fuel with
  | O => None
  | S fuel' =>
      ha ← (if ia <? zlen a then utf8_decode_at a ia else Some None);
      hb ← (if ib <? zlen b then utf8_decode_at b ib else Some None);
      match ha, hb with
      | None, None => Some (jdl_return_i32 0)
      | None, Some _ => Some (jdl_return_i32 (-1))
      | Some _, None => Some (jdl_return_i32 1)
      | Some (ca, aa), Some (cb, ab) =>
          if negb (ca =? cb) then Some (jdl_return_i32 (if ca <? cb then -1 else 1))
          else compare_loop fuel' a b (u32 (ia + aa)) (u32 (ib + ab))
      end
  end.

Definition jdll_std_unicode_compare (a b : list Z) : option jdl_result :=
  compare_loop (S (length a)) a b 0 0.

Definition jdll_std_unicode_sub (s : list Z) (pos slen : Z) : option jdl_result :=
  if (pos <? 0) || (slen <? 0) then Some (jdl_fail "unicode_sub: negative pos/len") else
  if slen =? 0 then Some (jdl_return_bytes_copy []) else
  start ← utf8_byte_offset_at_cp s pos;
  match start with
  | None => Some (jdl_fail "unicode_sub: pos out of range")
  | Some start =>
      i ← advance_loop (Z.to_nat slen) s start;
      match i with
      | None => Some (jdl_fail "unicode_sub: invalid utf8")
      | Some i =>
          if (i <? start) || (zlen s <? i) then Some (jdl_fail "unicode_sub: slice out of range")
          else d ← block_read s start (i - start); Some (jdl_return_bytes_copy d)
      end
  end.

(** ** Buffers *)

(** [data] is the [cap] bytes of the block, the first [len] written. *)
Record unicode_buf : Set := mk_buf {
  ub_data : list Z;
  ub_len : Z;
  ub_cap : Z;
  ub_chars : Z
}.

Fixpoint grow_loop (fuel : nat) (cap need : Z) : option (option Z) :=
  if need <=? cap then Some (Some cap) else
  match fuel with
  | O => None
  | S fuel' => if 0x7FFFFFFF <? cap then Some None else grow_loop fuel' (u32 (cap * 2)) need
  end.

(** [realloc] keeps the contents; the rest of the new block is [junk]; [oom n] is a
    failing allocation of [n] bytes. *)
Section Buffers.
Context (oom : Z -> bool) (junk : Z).

Definition unicode_buf_grow (b : unicode_buf) (need : Z) : option (option unicode_buf) :=
  if u32 (ub_len b + need) <=? ub_cap b then Some (Some b) else
  cap ← grow_loop 33 (if ub_cap b =? 0 then 8 else ub_cap b) (u32 (ub_len b + need));
  Some (match cap with
    | None => None
    | Some cap =>
    if oom cap then None else
    Some (mk_buf (take (Z.to_nat cap) (ub_data b) ++ replicate (Z.to_nat (cap - zlen (ub_data b))) junk)
        (ub_len b) cap (ub_chars b))
    end).

Definition jdll_std_unicode_from_codepoint (cp : Z) : jdl_result :=
  match utf8_encode (u32 cp) 4 with
  | None => jdl_fail "unicode_from_codepoint: invalid codepoint"
  | Some out => jdl_return_bytes_copy out
  end.

Definition jdll_std_unicode_buf_new (cap : Z) : jdl_result + unicode_buf :=
  if cap <? 0 then inl (jdl_fail "unicode_buf_new: negative capacity") else
  let initial := if cap =? 0 then 8 else cap in
  if oom initial then inl (jdl_fail "unicode_buf_new: out of memory") else
  inr (mk_buf (replicate (Z.to_nat initial) junk) 0 initial 0).

(** The buffer of the abstract, [None] for a null payload. *)
Definition jdll_std_unicode_buf_add (b : option unicode_buf) (cp : Z)
  : option (jdl_result * option unicode_buf) :=
  match b with
  | None => Some (jdl_fail "unicode_buf_add: null buffer", None)
  | Some b =>
    match utf8_encode (u32 cp) 4 with
    | None => Some (jdl_fail "unicode_buf_add: invalid codepoint", Some b)
    | Some out =>
      g ← unicode_buf_grow b (zlen out);
      match g with
      | None => Some (jdl_fail "unicode_buf_add: out of memory", Some b)
      | Some b =>
        data ← block_write (ub_data b) (ub_len b) out;
        Some (jdl_return_bool true,
          Some (mk_buf data (u32 (ub_len b + zlen out)) (ub_cap b) (u32 (ub_chars b + 1))))
      end
    end
  end.

Definition jdll_std_unicode_buf_bytes (b : option unicode_buf) : option jdl_result :=
  match b with
  | None => Some (jdl_fail "unicode_buf_bytes: null buffer")
  | Some b => d ← block_read (ub_data b) 0 (ub_len b); Some (jdl_return_bytes_copy d)
  end.

Definition jdll_std_unicode_buf_length (b : option unicode_buf) : jdl_result :=
  match b with
  | None => jdl_fail "unicode_buf_length: null buffer"
  | Some b => jdl_return_i32 (i32 (ub_chars b))
  end.

Definition jdll_std_unicode_buf_size (b : option unicode_buf) : jdl_result :=
  match b with
  | None => jdl_fail "unicode_buf_size: null buffer"
  | Some b => jdl_return_i32 (i32 (ub_len b))
  end.
End Buffers.

(** * UTF-8: what is accepted, and texts *)

(** ** Encodings *)

Definition scalar (cp : Z) : Prop := 0 <= cp <= 0x10FFFF /\ ~ (0xD800 <= cp <= 0xDFFF).

(** The encoding of a scalar value, by arithmetic. *)
Definition enc (cp : Z) : list Z :=
  if cp <? 0x80 then [cp] else
  if cp <? 0x800 then [192 + cp / 64; 128 + cp mod 64] else
  if cp <? 0x10000 then [224 + cp / 4096; 128 + cp / 64 mod 64; 128 + cp mod 64] else
  [240 + cp / 262144; 128 + cp / 4096 mod 64; 128 + cp / 64 mod 64; 128 + cp mod 64].

(** What the decoder takes for [cp]. *)
Definition taken_for (l : list Z) (cp : Z) : Prop :=
  l = enc cp \/ (0x10000 <= cp /\ exists b r, enc cp = b :: r /\ l = (b + 8) :: r).

Lemma valid_cp_spec cp : 0 <= cp -> utf8_valid_cp cp = true <-> scalar cp.
Proof.
  intros H. unfold utf8_valid_cp, scalar. rewrite andb_true_iff, orb_true_iff, Z.leb_le, !Z.ltb_lt. lia.
Qed.

Lemma lor_high hi n x : 0 <= n -> 0 <= x < 2 ^ n -> Z.lor (Z.shiftl hi n) x = hi * 2 ^ n + x.
Proof. intros. rewrite Z.lor_comm, lor_shiftl_add by done. lia. Qed.

Ltac pow2s := change (2 ^ 3) with 8 in *; change (2 ^ 4) with 16 in *; change (2 ^ 5) with 32 in *;
  change (2 ^ 6) with 64 in *; change (2 ^ 12) with 4096 in *; change (2 ^ 18) with 262144 in *;
  change (2 ^ 8) with 256 in *.

Lemma u8_small x : 0 <= x < 256 -> u8 x = x.
Proof. intros. apply wrapU_id. unfold is_u. by pow2s. Qed.

Lemma tail_byte x : Z.lor 0x80 (Z.land x 0x3F) = 128 + x mod 64.
Proof.
  change 0x3F with (Z.ones 6). rewrite Z.land_ones by lia. pow2s.
  change 0x80 with (Z.shiftl 2 6). rewrite lor_high by (pow2s; lia || apply Z.mod_pos_bound; lia). by pow2s.
Qed.

Lemma utf8_encode_spec cp : scalar cp -> utf8_encode cp 4 = Some (enc cp).
Proof.
  intros H. pose proof H as [Hcp _]. unfold utf8_encode, enc. rewrite (proj2 (valid_cp_spec cp ltac:(lia)) H).
  cbn [negb]. rewrite !tail_byte, !Z.shiftr_div_pow2 by lia. pow2s.
  assert (Hm : forall x, u8 (128 + x mod 64) = 128 + x mod 64)
    by (intros x; pose proof (Z.mod_pos_bound x 64); apply u8_small; lia).
  rewrite !Hm. case_if; bool_hyps; [by rewrite u8_small by lia|].
  case_if; bool_hyps.
  { change 0xC0 with (Z.shiftl 6 5). rewrite lor_high by (pow2s; lia || zdiv). pow2s. by rewrite u8_small by zdiv. }
  case_if; bool_hyps.
  { change 0xE0 with (Z.shiftl 14 4). rewrite lor_high by (pow2s; lia || zdiv). pow2s. by rewrite u8_small by zdiv. }
  change 0xF0 with (Z.shiftl 30 3). rewrite lor_high by (pow2s; lia || zdiv). pow2s. by rewrite u8_small by zdiv.
Qed.

(** ** Decoding the front of a list *)

Definition is_cont (b : Z) : bool := (128 <=? b) && (b <? 192).

Definition accept (c least : Z) (n : nat) : option (Z * nat) :=
  if c <? least then None else if utf8_valid_cp c then Some (c, n) else None.

Definition front (l : list Z) : option (Z * nat) :=
  match l with
  | [] => None
  | b0 :: l =>
      if b0 <? 128 then Some (b0, 1%nat) else
      if b0 <? 192 then None else
      if b0 <? 224 then
        match l with
        | b1 :: _ => if is_cont b1 then accept (b0 mod 32 * 64 + b1 mod 64) 0x80 2 else None
        | _ => None
        end
      else if b0 <? 240 then
        match l with
        | b1 :: b2 :: _ =>
            if is_cont b1 && is_cont b2
            then accept (b0 mod 16 * 4096 + b1 mod 64 * 64 + b2 mod 64) 0x800 3 else None
        | _ => None
        end
      else
        match l with
        | b1 :: b2 :: b3 :: _ =>
            if is_cont b1 && is_cont b2 && is_cont b3
            then accept (b0 mod 8 * 262144 + b1 mod 64 * 4096 + b2 mod 64 * 64 + b3 mod 64) 0x10000 4 else None
        | _ => None
        end
  end.

(** A fact about bytes is checked on the 256 of them. *)
Lemma byte_cases (P : Z -> bool) b : forallb P (seqZ 0 256) = true -> is_byte b -> P b = true.
Proof.
  intros H Hb. rewrite forallb_forall in H. apply H, list_elem_of_In, elem_of_seqZ. unfold is_byte, is_u in Hb. pow2s. lia.
Qed.

Lemma cont_spec b : is_byte b -> cont b = is_cont b.
Proof.
  intros Hb. apply (byte_cases (fun b => Bool.eqb (cont b) (is_cont b))) in Hb; [by apply eqb_prop | by vm_compute].
Qed.

Lemma char_len_spec b : is_byte b ->
  utf8_char_len b = if b <? 128 then 1 else if b <? 192 then 0 else if b <? 224 then 2 else if b <? 240 then 3 else 4.
Proof.
  intros Hb. apply (byte_cases (fun b => utf8_char_len b =?
    (if b <? 128 then 1 else if b <? 192 then 0 else if b <? 224 then 2 else if b <? 240 then 3 else 4))) in Hb; [by apply Z.eqb_eq | by vm_compute].
Qed.

Lemma masks b : Z.land b 0x3F = b mod 64 /\ Z.land b 0x1F = b mod 32 /\ Z.land b 0x0F = b mod 16 /\ Z.land b 0x07 = b mod 8.
Proof.
  change 0x3F with (Z.ones 6). change 0x1F with (Z.ones 5). change 0x0F with (Z.ones 4). change 0x07 with (Z.ones 3).
  by rewrite !Z.land_ones by lia.
Qed.

Lemma lor2 a b : 0 <= b < 64 -> Z.lor (Z.shiftl a 6) b = a * 64 + b.
Proof. intros. by rewrite lor_high by (pow2s; lia). Qed.

Lemma lor3 a b c : 0 <= b < 64 -> 0 <= c < 64 ->
  Z.lor (Z.lor (Z.shiftl a 12) (Z.shiftl b 6)) c = a * 4096 + b * 64 + c.
Proof.
  intros Hb Hc. change 12 with (6 + 6). rewrite <- Z.shiftl_shiftl, <- Z.shiftl_lor, lor2, lor2 by (done || lia). lia.
Qed.

Lemma lor4 a b c d : 0 <= b < 64 -> 0 <= c < 64 -> 0 <= d < 64 ->
  Z.lor (Z.lor (Z.lor (Z.shiftl a 18) (Z.shiftl b 12)) (Z.shiftl c 6)) d = a * 262144 + b * 4096 + c * 64 + d.
Proof.
  intros Hb Hc Hd. change 18 with (12 + 6). change 12 with (6 + 6) at 2.
  rewrite <- !Z.shiftl_shiftl, <- !Z.shiftl_lor by lia. rewrite lor3, lor2 by (done || lia). lia.
Qed.

Lemma accept_check c least n :
  (if c <? least then None else if negb (utf8_valid_cp c) then None else Some (c, Z.of_nat n)) =
  (fun r => (fst r, Z.of_nat (snd r))) <$> accept c least n.
Proof. unfold accept. destruct (c <? least), (utf8_valid_cp c); done. Qed.

(** The bytes from [off] on. *)
Lemma znth_drop (s : list Z) off (i : nat) : 0 <= off -> s @! (off + Z.of_nat i) = drop (Z.to_nat off) s !! i.
Proof.
  intros H. unfold znth. rewrite decide_True by lia. rewrite lookup_drop. f_equal. lia.
Qed.

Lemma decode_front s off :
  Forall is_byte s -> 0 <= off -> off < 2 ^ 32 - 4 ->
  utf8_decode_at s off =
  Some ((fun r => (fst r, Z.of_nat (snd r))) <$> front (drop (Z.to_nat off) s)).
Proof.
  intros Hb H0 H1. unfold utf8_decode_at.
  pose proof (znth_drop s off 0 H0) as E0. pose proof (znth_drop s off 1 H0) as E1.
  pose proof (znth_drop s off 2 H0) as E2. pose proof (znth_drop s off 3 H0) as E3.
  rewrite Z.add_0_r in E0. change (Z.of_nat 1) with 1 in E1. change (Z.of_nat 2) with 2 in E2.
  change (Z.of_nat 3) with 3 in E3. rewrite E0, E1, E2, E3. clear E0 E1 E2 E3.
  assert (Hl : zlen s - off = zlen (drop (Z.to_nat off) s) \/ (zlen s <= off /\ drop (Z.to_nat off) s = [])).
  { destruct (decide (zlen s <= off)); [right; split; [done | apply drop_ge; unfold zlen in *; lia]|].
    left. unfold zlen in *. rewrite length_drop. lia. }
  assert (Hd : Forall is_byte (drop (Z.to_nat off) s)) by by apply Forall_drop.
  destruct (drop (Z.to_nat off) s) as [|b0 l].
  { rewrite (proj2 (Z.leb_le _ _)); [done|]. rewrite zlen_nil in Hl. lia. }
  rewrite (proj2 (Z.leb_gt _ _)) by (rewrite zlen_cons in Hl; pose proof (zlen_nonneg l); destruct Hl as [?|[_ [=]]]; lia).
  destruct Hl as [Hl|[_ [=]]]. apply Forall_cons in Hd as [Hb0 Hd]. cbn [lookup list_lookup mbind option_bind front].
  rewrite (char_len_spec _ Hb0). destruct (masks b0) as (_ & -> & -> & ->).
  assert (Hu : forall n, 0 <= n <= 4 -> (zlen s <? u32 (off + n)) = (zlen (b0 :: l) <? n)).
  { intros n Hn. rewrite wrapU_id by (unfold is_u; lia).
    destruct (Z.ltb_spec (zlen (b0 :: l)) n), (Z.ltb_spec (zlen s) (off + n)); (done || lia). }
  pose proof Hb0 as [Hb0l Hb0u]. pow2s.
  destruct (Z.ltb_spec b0 128); [|destruct (Z.ltb_spec b0 192); [done|destruct (Z.ltb_spec b0 224);
    [|destruct (Z.ltb_spec b0 240)]]]; cbn [Z.leb Z.eqb orb andb Pos.eqb Z.compare];
    rewrite Hu by lia; rewrite zlen_cons; pose proof (zlen_nonneg l).
  - rewrite (proj2 (Z.ltb_ge _ _)) by lia. rewrite (proj2 (Z.ltb_ge _ _)) by lia.
    rewrite (proj2 (valid_cp_spec b0 Hb0l)) by (split; lia). done.
  - destruct l as [|b1 l]; [done|]. rewrite (proj2 (Z.ltb_ge _ _)) by (rewrite zlen_cons; pose proof (zlen_nonneg l); lia).
    apply Forall_cons in Hd as [Hb1 Hd]. cbn [lookup list_lookup mbind option_bind]. rewrite (cont_spec _ Hb1).
    destruct (masks b1) as (-> & _). destruct (is_cont b1); [|done]. cbn [negb].
    rewrite lor2 by (apply Z.mod_pos_bound; lia). by rewrite (accept_check _ 0x80 2).
  - destruct l as [|b1 [|b2 l]]; [done..|].
    rewrite (proj2 (Z.ltb_ge _ _)) by (rewrite !zlen_cons; pose proof (zlen_nonneg l); lia).
    apply Forall_cons in Hd as [Hb1 Hd]. apply Forall_cons in Hd as [Hb2 Hd].
    cbn [lookup list_lookup mbind option_bind]. rewrite (cont_spec _ Hb1), (cont_spec _ Hb2).
    destruct (masks b1) as (-> & _). destruct (masks b2) as (-> & _).
    destruct (is_cont b1), (is_cont b2); try done. cbn [negb orb andb].
    rewrite lor3 by (apply Z.mod_pos_bound; lia). by rewrite (accept_check _ 0x800 3).
  - destruct l as [|b1 [|b2 [|b3 l]]]; [done..|].
    rewrite (proj2 (Z.ltb_ge _ _)) by (rewrite !zlen_cons; pose proof (zlen_nonneg l); lia).
    apply Forall_cons in Hd as [Hb1 Hd]. apply Forall_cons in Hd as [Hb2 Hd]. apply Forall_cons in Hd as [Hb3 Hd].
    cbn [lookup list_lookup mbind option_bind]. rewrite (cont_spec _ Hb1), (cont_spec _ Hb2), (cont_spec _ Hb3).
    destruct (masks b1) as (-> & _). destruct (masks b2) as (-> & _). destruct (masks b3) as (-> & _).
    destruct (is_cont b1), (is_cont b2), (is_cont b3); try done. cbn [negb orb andb].
    rewrite lor4 by (apply Z.mod_pos_bound; lia). by rewrite (accept_check _ 0x10000 4).
Qed.

(** ** What the decoder takes *)

Lemma accept_scalar c least n : scalar c -> least <= c -> accept c least n = Some (c, n).
Proof.
  intros Hs Hl. unfold accept. rewrite (proj2 (Z.ltb_ge _ _)) by lia.
  by rewrite (proj2 (valid_cp_spec c ltac:(destruct Hs; lia)) Hs).
Qed.

Lemma front_complete l cp post : scalar cp -> taken_for l cp -> front (l ++ post) = Some (cp, length l).
Proof.
  intros Hs Ht. pose proof Hs as [Hcp _].
  assert (Hcont : forall x, is_cont (128 + x mod 64) = true).
  { intros x. pose proof (Z.mod_pos_bound x 64). unfold is_cont. rewrite andb_true_iff, Z.leb_le, Z.ltb_lt. lia. }
  assert (Hmod : forall x, (128 + x mod 64) mod 64 = x mod 64) by (intros; zdiv).
  unfold taken_for, enc in Ht. destruct (Z.ltb_spec cp 0x80); [|destruct (Z.ltb_spec cp 0x800); [|destruct (Z.ltb_spec cp 0x10000)]].
  - destruct Ht as [-> | [? _]]; [|lia]. cbn. by rewrite (proj2 (Z.ltb_lt _ _)) by lia.
  - destruct Ht as [-> | [? _]]; [|lia]. cbn [app front length].
    rewrite (proj2 (Z.ltb_ge _ _)), (proj2 (Z.ltb_ge _ _)), (proj2 (Z.ltb_lt _ _)), Hcont by zdiv.
    replace ((192 + cp / 64) mod 32 * 64 + (128 + cp mod 64) mod 64) with cp by zdiv. by apply accept_scalar.
  - destruct Ht as [-> | [? _]]; [|lia]. cbn [app front length].
    rewrite (proj2 (Z.ltb_ge _ _)), (proj2 (Z.ltb_ge _ _)), (proj2 (Z.ltb_ge _ _)), (proj2 (Z.ltb_lt _ _)), !Hcont by zdiv.
    cbn [andb]. rewrite !Hmod. replace (_ + _ + _) with cp by zdiv. by apply accept_scalar.
  - assert (exists b0, (b0 = 240 + cp / 262144 \/ b0 = 248 + cp / 262144) /\
      l = [b0; 128 + cp / 4096 mod 64; 128 + cp / 64 mod 64; 128 + cp mod 64]) as (b0 & Hb0 & ->).
    { destruct Ht as [-> | (_ & b & r & [= <- <-] & ->)]; eexists; (split; [|reflexivity]); lia. }
    cbn [app front length].
    rewrite (proj2 (Z.ltb_ge _ _)), (proj2 (Z.ltb_ge _ _)), (proj2 (Z.ltb_ge _ _)), (proj2 (Z.ltb_ge _ _)), !Hcont by zdiv.
    cbn [andb]. rewrite !Hmod. replace (b0 mod 8) with (cp / 262144) by (destruct Hb0 as [-> | ->]; zdiv).
    replace (_ + _ + _ + _) with cp by zdiv. by apply accept_scalar.
Qed.

Lemma accept_inv c least n r : 0 <= c -> accept c least n = Some r -> r = (c, n) /\ least <= c /\ scalar c.
Proof.
  unfold accept. intros Hc. case_if; [done|]. case_if; [|done]. intros [= <-]. bool_hyps.
  split_and!; [done | done|]. by apply valid_cp_spec.
Qed.

Lemma is_cont_inv b : is_cont b = true -> b = 128 + b mod 64.
Proof. unfold is_cont. rewrite andb_true_iff, Z.leb_le, Z.ltb_lt. intros. zdiv. Qed.

Lemma front_sound l0 cp n : Forall is_byte l0 -> front l0 = Some (cp, n) ->
  scalar cp /\ exists l post, l0 = l ++ post /\ length l = n /\ taken_for l cp.
Proof.
  intros Hb. destruct l0 as [|b0 l0]; [done|]. cbn [front]. apply Forall_cons in Hb as [Hb0 Hb].
  unfold is_byte, is_u in Hb0. pow2s.
  destruct (Z.ltb_spec b0 128).
  { intros [= <- <-]. split; [split; lia|]. exists [b0], l0. split_and!; [done..|]. left. unfold enc.
    by rewrite (proj2 (Z.ltb_lt _ _)) by lia. }
  destruct (Z.ltb_spec b0 192); [done|]. destruct (Z.ltb_spec b0 224).
  { destruct l0 as [|b1 l0]; [done|]. destruct (is_cont b1) eqn:C1; [|done]. apply is_cont_inv in C1.
    intros ([= -> ->] & Hl & Hs)%accept_inv; [|zdiv]. split; [done|]. exists [b0; b1], l0. split_and!; [done..|]. left.
    unfold enc. rewrite (proj2 (Z.ltb_ge _ _)), (proj2 (Z.ltb_lt _ _)) by zdiv. f_equal; [|f_equal]; zdiv. }
  destruct (Z.ltb_spec b0 240).
  { destruct l0 as [|b1 [|b2 l0]]; [done..|]. destruct (is_cont b1) eqn:C1, (is_cont b2) eqn:C2; try done.
    apply is_cont_inv in C1, C2. cbn [andb].
    intros ([= -> ->] & Hl & Hs)%accept_inv; [|zdiv]. split; [done|]. exists [b0; b1; b2], l0. split_and!; [done..|]. left.
    unfold enc. rewrite (proj2 (Z.ltb_ge _ _)), (proj2 (Z.ltb_ge _ _)), (proj2 (Z.ltb_lt _ _)) by zdiv.
    f_equal; [|f_equal; [|f_equal]]; zdiv. }
  destruct l0 as [|b1 [|b2 [|b3 l0]]]; [done..|].
  destruct (is_cont b1) eqn:C1, (is_cont b2) eqn:C2, (is_cont b3) eqn:C3; try done.
  apply is_cont_inv in C1, C2, C3. cbn [andb].
  intros ([= -> ->] & Hl & Hs)%accept_inv; [|zdiv]. split; [done|]. exists [b0; b1; b2; b3], l0. split_and!; [done..|].
  set (cp := _ + _ + _ + _) in *. pose proof Hs as [Hcp _].
  assert (He : enc cp = [240 + b0 mod 8; b1; b2; b3]).
  { unfold enc. rewrite (proj2 (Z.ltb_ge _ _)), (proj2 (Z.ltb_ge _ _)), (proj2 (Z.ltb_ge _ _)) by lia.
    f_equal; [|f_equal; [|f_equal; [|f_equal]]]; unfold cp; zdiv. }
  destruct (Z.ltb_spec b0 248).
  - left. rewrite He. f_equal. zdiv.
  - right. split; [done|]. exists (240 + b0 mod 8), [b1; b2; b3]. split; [done|]. f_equal. zdiv.
Qed.

(** A concatenation of what is taken for scalar values. *)
Inductive taken_text : list Z -> list Z -> Prop :=
| taken_nil : taken_text [] []
| taken_cons l cp s cps : scalar cp -> taken_for l cp -> taken_text s cps -> taken_text (l ++ s) (cp :: cps).

Lemma taken_for_length l cp : taken_for l cp -> (1 <= length l <= 4)%nat.
Proof.
  assert (1 <= length (enc cp) <= 4)%nat by (unfold enc; repeat (case_if; [cbn; lia|]); cbn; lia).
  intros [-> | (_ & b & r & E & ->)]; [done|]. by rewrite E in *.
Qed.

Lemma front_none_taken s cps : front s = None -> taken_text s cps -> s = [].
Proof. intros Hf H. destruct H as [|l cp s cps Hs Ht _]; [done|]. by rewrite (front_complete _ _ _ Hs Ht) in Hf. Qed.

(** ** The loops *)

(** A decoded code point is at the front of what is left. *)
Lemma decode_step s off :
  Forall is_byte s -> 0 <= off <= zlen s -> zlen s < 2 ^ 32 - 4 ->
  exists r, utf8_decode_at s off = Some r /\
    match r with
    | None => front (drop (Z.to_nat off) s) = None
    | Some (cp, n) => scalar cp /\ exists l, taken_for l cp /\ n = zlen l /\ u32 (off + n) = off + n /\
        off + n <= zlen s /\ drop (Z.to_nat off) s = l ++ drop (Z.to_nat (off + n)) s
    end.
Proof.
  intros Hb Ho Hl. eexists. split; [apply decode_front; [done | lia | lia]|].
  destruct (front (drop (Z.to_nat off) s)) as [[cp n]|] eqn:E; cbn; [|done].
  apply front_sound in E as (Hs & l & post & El & <- & Ht); [|by apply Forall_drop].
  assert (Hlen : zlen s - off = zlen l + zlen post).
  { rewrite <- zlen_app, <- El. unfold zlen. rewrite length_drop. unfold zlen in Ho. lia. }
  pose proof (zlen_nonneg l). pose proof (zlen_nonneg post).
  split; [done|]. exists l. split; [done|]. split; [done|]. change (Z.of_nat (length l)) with (zlen l).
  split; [apply wrapU_id; unfold is_u; lia|]. split; [lia|].
  replace (Z.to_nat (off + zlen l)) with (Z.to_nat off + length l)%nat by (unfold zlen; lia).
  rewrite <- drop_drop, El. by rewrite drop_app_length.
Qed.

(** The decomposition is unique. *)
Lemma taken_text_front l cp s cps :
  scalar cp -> taken_for l cp -> taken_text (l ++ s) cps -> exists cps', cps = cp :: cps' /\ taken_text s cps'.
Proof.
  intros Hs Ht H. pose proof (front_complete l cp s Hs Ht) as F. pose proof (taken_for_length _ _ Ht).
  remember (l ++ s) as t eqn:E. destruct H as [|l' cp' s' cps Hs' Ht' H].
  - symmetry in E. apply app_nil in E as [-> ->]. cbn in *. lia.
  - rewrite (front_complete l' cp' s' Hs' Ht') in F. injection F as -> Hl.
    apply app_inj_1 in E as [<- <-]; [|lia]. by exists cps.
Qed.

Lemma validate_loop_spec fuel s i :
  Forall is_byte s -> 0 <= i <= zlen s -> zlen s < 2 ^ 32 - 4 -> (Z.to_nat (zlen s - i) <= fuel)%nat ->
  exists b, validate_loop fuel s i = Some b /\ (b = true <-> exists cps, taken_text (drop (Z.to_nat i) s) cps).
Proof.
  revert i. induction fuel as [|fuel IH]; intros i Hb Hi Hl Hf; cbn [validate_loop].
  - rewrite (proj2 (Z.leb_le _ _)) by lia. exists true. split; [done|]. split; [|done]. intros _. exists [].
    rewrite drop_ge by (unfold zlen in *; lia). constructor.
  - destruct (Z.leb_spec (zlen s) i).
    { exists true. split; [done|]. split; [|done]. intros _. exists []. rewrite drop_ge by (unfold zlen in *; lia). constructor. }
    destruct (decode_step s i Hb Hi Hl) as (r & -> & Hr). cbn [mbind option_bind].
    destruct r as [[cp n]|].
    + destruct Hr as (Hs & l & Ht & -> & -> & Hn & E). pose proof (taken_for_length _ _ Ht) as Hlen.
      destruct (IH (i + zlen l)) as (b & Eb & Hiff); [done | unfold zlen in *; lia.. |]. exists b. split; [done|].
      rewrite Hiff, E. split.
      * intros [cps H1]. exists (cp :: cps). by constructor.
      * intros [cps H1]. destruct (taken_text_front _ _ _ _ Hs Ht H1) as (cps' & _ & H2). by exists cps'.
    + exists false. split; [done|]. split; [done|]. intros [cps H1]. apply (front_none_taken _ _ Hr) in H1.
      apply (f_equal length) in H1. rewrite length_drop in H1. unfold zlen in *. cbn in H1. lia.
Qed.

(** Validation ends and accepts exactly the concatenations of what is taken for
    scalar values: their UTF-8 encodings, and also, which is not UTF-8, the
    encodings of four bytes with 8 added to the first (0xF8 to 0xFC). *)
Theorem utf8_validate_decides s :
  Forall is_byte s -> zlen s < 2 ^ 32 - 4 ->
  exists b, utf8_validate_bytes s = Some b /\ (b = true <-> exists cps, taken_text s cps).
Proof.
  intros Hb Hl. pose proof (zlen_nonneg s).
  destruct (validate_loop_spec (length s) s 0 Hb) as (b & E & Hiff); [lia | done | unfold zlen; lia |]. by exists b.
Qed.

Lemma utf8_validate_decides_witness :
  exists b, utf8_validate_bytes [0xF8; 0x90; 0x80; 0x80] = Some b /\
    (b = true <-> exists cps, taken_text [0xF8; 0x90; 0x80; 0x80] cps).
Proof. apply utf8_validate_decides; [apply (bool_decide_unpack _); by vm_compute | reflexivity]. Defined.

(** ** Texts *)

Lemma to_nat_zlen {A} (l : list A) : Z.to_nat (zlen l) = length l.
Proof. unfold zlen. lia. Qed.

Definition text (cps : list Z) : list Z := mbind enc cps.

Lemma taken_text_text cps : Forall scalar cps -> taken_text (text cps) cps.
Proof.
  induction 1 as [|cp cps Hs _ IH]; [constructor|]. change (text (cp :: cps)) with (enc cp ++ text cps).
  constructor; [done | by left | done].
Qed.

(** [k] code points on. *)
Lemma advance_loop_spec s i s1 s2 cps :
  Forall is_byte s -> 0 <= i <= zlen s -> zlen s < 2 ^ 32 - 4 ->
  drop (Z.to_nat i) s = s1 ++ s2 -> taken_text s1 cps ->
  advance_loop (length cps) s i = Some (Some (i + zlen s1)).
Proof.
  intros Hb Hi Hl E Ht. revert i Hi E. induction Ht as [|l cp s1 cps Hs Ht Hts IH]; intros i Hi E.
  - cbn. by rewrite Z.add_0_r.
  - cbn [length advance_loop]. destruct (decode_step s i Hb Hi Hl) as (r & -> & Hr). cbn [mbind option_bind].
    rewrite <- app_assoc in E.
    pose proof (front_complete l cp (s1 ++ s2) Hs Ht) as F. rewrite <- E in F.
    destruct r as [[cp' n]|].
    + destruct Hr as (Hs' & l' & Ht' & -> & -> & Hn & E').
      rewrite E', (front_complete l' cp' _ Hs' Ht') in F. injection F as -> Hll.
      assert (zlen l' = zlen l) as Hz by (unfold zlen; lia). rewrite Hz in *. pose proof (zlen_nonneg l).
      assert (drop (Z.to_nat (i + zlen l)) s = s1 ++ s2).
      { rewrite E in E'. apply app_inj_1 in E' as [_ <-]; [done | lia]. }
      rewrite IH by (done || lia). rewrite zlen_app. do 2 f_equal. lia.
    + by rewrite Hr in F.
Qed.

Lemma count_loop_spec fuel s i n cps :
  Forall is_byte s -> 0 <= i <= zlen s -> zlen s < 2 ^ 32 - 4 -> (Z.to_nat (zlen s - i) <= fuel)%nat ->
  taken_text (drop (Z.to_nat i) s) cps -> 0 <= n -> n + zlen cps < 2 ^ 32 ->
  count_loop fuel s i n = Some (n + zlen cps).
Proof.
  intros Hb. revert i n cps. induction fuel as [|fuel IH]; intros i n cps Hi Hl Hf Ht Hn Hnc; cbn [count_loop].
  - rewrite (proj2 (Z.leb_le _ _)) by lia. rewrite drop_ge in Ht by (unfold zlen in *; lia).
    inversion Ht as [E|l cp s' cps' Hs Ht' _ E]; [by rewrite zlen_nil, Z.add_0_r|].
    apply app_nil in E as [-> _]. pose proof (taken_for_length _ _ Ht'). cbn in *. lia.
  - destruct (Z.leb_spec (zlen s) i).
    { rewrite drop_ge in Ht by (unfold zlen in *; lia).
      inversion Ht as [E|l cp s' cps' Hs Ht' _ E]; [by rewrite zlen_nil, Z.add_0_r|].
      apply app_nil in E as [-> _]. pose proof (taken_for_length _ _ Ht'). cbn in *. lia. }
    destruct (decode_step s i Hb Hi Hl) as (r & -> & Hr). cbn [mbind option_bind].
    destruct r as [[cp k]|].
    + destruct Hr as (Hs & l & Hl' & -> & -> & Hk & E). rewrite E in Ht.
      destruct (taken_text_front _ _ _ _ Hs Hl' Ht) as (cps' & -> & Ht'). pose proof (taken_for_length _ _ Hl').
      rewrite zlen_cons in *. pose proof (zlen_nonneg cps'). rewrite (wrapU_id 32 (n + 1)) by (unfold is_u; lia).
      rewrite (IH _ _ cps') by (done || unfold zlen in *; lia). f_equal. lia.
    + apply (front_none_taken _ _ Hr) in Ht. apply (f_equal length) in Ht.
      rewrite length_drop in Ht. unfold zlen in *. cbn in Ht. lia.
Qed.

Lemma text_app cps1 cps2 : text (cps1 ++ cps2) = text cps1 ++ text cps2.
Proof. unfold text. by rewrite bind_app. Qed.

Lemma zlen_text cps : zlen cps <= zlen (text cps).
Proof.
  induction cps as [|cp cps IH]; [done|]. change (text (cp :: cps)) with (enc cp ++ text cps).
  rewrite zlen_cons, zlen_app. pose proof (taken_for_length (enc cp) cp (or_introl eq_refl)). unfold zlen at 2. lia.
Qed.

Lemma enc_is_byte cp : scalar cp -> Forall is_byte (enc cp).
Proof.
  intros [Hcp _]. unfold enc, is_byte, is_u. pow2s.
  repeat case_if; bool_hyps; repeat (constructor; [zdiv|]); constructor.
Qed.

Lemma text_is_byte cps : Forall scalar cps -> Forall is_byte (text cps).
Proof.
  induction 1 as [|cp cps Hs _ IH]; [constructor|]. change (text (cp :: cps)) with (enc cp ++ text cps).
  apply Forall_app. split; [by apply enc_is_byte | done].
Qed.

(** The offset of the code point [k]. *)
Lemma offset_spec cps1 cps2 : Forall scalar (cps1 ++ cps2) -> zlen (text (cps1 ++ cps2)) < 2 ^ 32 - 4 ->
  utf8_byte_offset_at_cp (text (cps1 ++ cps2)) (zlen cps1) = Some (Some (zlen (text cps1))).
Proof.
  intros Hs Hl. pose proof (text_is_byte _ Hs) as Hb. pose proof Hs as Hs'. apply Forall_app in Hs' as [Hs1 Hs2].
  unfold utf8_byte_offset_at_cp. rewrite (proj2 (Z.ltb_ge _ _)) by apply zlen_nonneg.
  rewrite (to_nat_zlen cps1).
  rewrite (advance_loop_spec _ 0 (text cps1) (text cps2) cps1); [| done | | done | |].
  - cbn [mbind option_bind]. rewrite Z.add_0_l, (proj2 (Z.ltb_ge _ _)); [done|].
    rewrite text_app, zlen_app. pose proof (zlen_nonneg (text cps2)). lia.
  - pose proof (zlen_nonneg (text (cps1 ++ cps2))). lia.
  - by rewrite text_app.
  - by apply taken_text_text.
Qed.

(** C32: a text of scalar values is what its code points say: it is valid, it has as many
    characters, the character at an index is the code point there, and a substring
    is the text of the code points it spans; the bytes made from each of its code
    points are its encoding. *)
Theorem utf8_text cps :
  Forall scalar cps -> zlen (text cps) < 2 ^ 31 ->
  utf8_validate_bytes (text cps) = Some true /\
  jdll_std_unicode_length (text cps) = Some (jdl_return_i32 (zlen cps)) /\
  (forall k cp, cps @! k = Some cp -> jdll_std_unicode_get (text cps) k = Some (jdl_return_i32 cp)) /\
  (forall cps1 cps2 cps3, cps = cps1 ++ cps2 ++ cps3 ->
   jdll_std_unicode_sub (text cps) (zlen cps1) (zlen cps2) = Some (jdl_return_bytes_copy (text cps2))) /\
  Forall (fun cp => jdll_std_unicode_from_codepoint cp = jdl_return_bytes_copy (enc cp)) cps.
Proof.
  intros Hs Hl. pose proof (text_is_byte _ Hs) as Hb. pose proof (taken_text_text _ Hs) as Ht.
  pose proof (zlen_nonneg (text cps)) as H0. pose proof (zlen_text cps) as Hz. pose proof (zlen_nonneg cps).
  assert (Hl32 : zlen (text cps) < 2 ^ 32 - 4) by lia. split_and!.
  - destruct (validate_loop_spec (length (text cps)) (text cps) 0 Hb) as (b & E & Hiff); [lia | done | unfold zlen; lia |].
    unfold utf8_validate_bytes. rewrite E. f_equal. apply Hiff. by exists cps.
  - unfold jdll_std_unicode_length, utf8_codepoint_count.
    rewrite (count_loop_spec _ _ 0 0 cps) by (done || unfold zlen in *; lia). cbn [mbind option_bind].
    rewrite Z.add_0_l, (proj2 (Z.eqb_neq _ _)) by (unfold UINT32_MAX; lia).
    by rewrite wrapS_id by (unfold is_s; lia).
  - intros k cp Hk. pose proof (znth_Some _ _ _ Hk) as Hr.
    assert (exists cps1 cps2, cps = cps1 ++ cp :: cps2 /\ k = zlen cps1) as (cps1 & cps2 & -> & ->).
    { unfold znth in Hk. rewrite decide_True in Hk by lia. exists (take (Z.to_nat k) cps), (drop (S (Z.to_nat k)) cps).
      split; [by rewrite take_drop_middle|]. unfold zlen in *. rewrite length_take. lia. }
    unfold jdll_std_unicode_get. rewrite (proj2 (Z.ltb_ge _ _)) by lia. rewrite offset_spec by done.
    cbn [mbind option_bind]. apply Forall_app in Hs as [_ Hs]. apply Forall_cons in Hs as [Hcp _].
    rewrite text_app, zlen_app in H0, Hl. rewrite text_app in Hb |- *. pose proof (zlen_nonneg (text (cp :: cps2))).
    rewrite decode_front by (done || apply zlen_nonneg || lia).
    rewrite (to_nat_zlen (text cps1)), drop_app_length.
    change (text (cp :: cps2)) with (enc cp ++ text cps2).
    rewrite (front_complete (enc cp) cp _ Hcp) by by left. cbn. destruct Hcp as [Hcp _].
    by rewrite wrapS_id by (unfold is_s; lia).
  - intros cps1 cps2 cps3 ->. unfold jdll_std_unicode_sub. pose proof (zlen_nonneg cps1). pose proof (zlen_nonneg cps2).
    rewrite !(proj2 (Z.ltb_ge _ _)) by lia. cbn [orb].
    destruct (Z.eqb_spec (zlen cps2) 0) as [E|E].
    { destruct cps2; [done|]. rewrite zlen_cons in E. pose proof (zlen_nonneg cps2). lia. }
    rewrite offset_spec by done. cbn [mbind option_bind]. rewrite (to_nat_zlen cps2).
    apply Forall_app in Hs as [Hs1 Hs]. apply Forall_app in Hs as [Hs2 Hs3].
    rewrite !text_app in *. rewrite !zlen_app in *. pose proof (zlen_nonneg (text cps1)).
    pose proof (zlen_nonneg (text cps2)). pose proof (zlen_nonneg (text cps3)).
    rewrite (advance_loop_spec _ _ (text cps2) (text cps3)) by
      (done || rewrite ?zlen_app; lia || by apply taken_text_text || (by rewrite (to_nat_zlen (text cps1)), drop_app_length)).
    cbn [mbind option_bind]. rewrite ?zlen_app. rewrite !(proj2 (Z.ltb_ge _ _)) by lia. cbn [orb].
    rewrite block_read_Some by (rewrite ?zlen_app; lia). cbn [mbind option_bind]. do 2 f_equal.
    rewrite (to_nat_zlen (text cps1)), drop_app_length.
    replace (Z.to_nat _) with (length (text cps2)) by (unfold zlen; lia). by rewrite take_app_length.
  - eapply Forall_impl; [exact Hs|]. intros cp Hcp. pose proof Hcp as [? _]. unfold jdll_std_unicode_from_codepoint.
    rewrite wrapU_id by (unfold is_u; lia). by rewrite utf8_encode_spec.
Qed.

(** The text of a character of each length. *)
Lemma utf8_text_witness :
  utf8_validate_bytes (text [0x41; 0xE9; 0x20AC; 0x1F600]) = Some true /\
  jdll_std_unicode_length (text [0x41; 0xE9; 0x20AC; 0x1F600]) = Some (jdl_return_i32 4) /\
  (forall k cp, [0x41; 0xE9; 0x20AC; 0x1F600] @! k = Some cp ->
   jdll_std_unicode_get (text [0x41; 0xE9; 0x20AC; 0x1F600]) k = Some (jdl_return_i32 cp)) /\
  (forall cps1 cps2 cps3, [0x41; 0xE9; 0x20AC; 0x1F600] = cps1 ++ cps2 ++ cps3 ->
   jdll_std_unicode_sub (text [0x41; 0xE9; 0x20AC; 0x1F600]) (zlen cps1) (zlen cps2) =
     Some (jdl_return_bytes_copy (text cps2))) /\
  Forall (fun cp => jdll_std_unicode_from_codepoint cp = jdl_return_bytes_copy (enc cp)) [0x41; 0xE9; 0x20AC; 0x1F600].
Proof.
  apply (utf8_text [0x41; 0xE9; 0x20AC; 0x1F600]); [|reflexivity].
  repeat (constructor; [split; lia|]). constructor.
Defined.
