(* ===== verification/Regexp.v ===== *)
(** * Regular expressions

    Model of src/libs/std/core/regexp.c.  PCRE2 is an argument: compiling a pattern,
    matching, and the number of a named group; a match is a result code and the vector of
    offsets.  A match keeps the addresses of its regular expression and of the byte string
    it was found in.  Arguments are read as in [Unicode]; allocation may fail.

    [replace_spec]: for a matcher that answers with ranges inside the byte string, none of
    them empty, [jdll_std_regexp_replace] writes what lies between the matches and, for each
    match, the expanded replacement.  [escape_roundtrip]: escaping makes a pattern of
    literals.  The last section shows what goes wrong with empty matches. *)

From Stdlib Require Import String.
From S2P Require Import Prelude CInt Memory Exc.
#[local] Open Scope list_scope.
#[local] Open Scope Z_scope.

(** ** Results *)

(** [Fail]: [jdl_fail] was called; [OutOfFuel]: a loop has not ended. *)
Inductive rx (A : Type) : Type :=
| Val (a : A) (n : Z)
| Fail (msg : string)
| OutOfFuel
| Undef.
Arguments Val {A} _ _.
Arguments Fail {A} _.
Arguments OutOfFuel {A}.
Arguments Undef {A}.

(** The number of allocations so far. *)
Definition R (A : Type) : Type := Z -> rx A.

#[export] Instance R_ret : MRet R := fun A a n => Val a n.
#[export] Instance R_bind : MBind R := fun A B k p n =>
  match p n with Val a n' => k a n' | Fail msg => Fail msg | OutOfFuel => OutOfFuel | Undef => Undef end.

Definition fail {A} (msg : string) : R A := fun _ => Fail msg.
Definition undef {A} : R A := fun _ => Undef.
Definition out_of_fuel {A} : R A := fun _ => OutOfFuel.
Definition get {A} (o : option A) : R A := fun n => match o with Some a => Val a n | None => Undef end.

Definition REGEXP_MAX_PATTERN_LEN : Z := 8192.
Definition REGEXP_MAX_CAPTURES : Z := 32.

(** Options of pcre2.h and PCRE2_UNSET. *)
Definition PCRE2_ANCHORED : Z := 0x80000000.
Definition PCRE2_CASELESS : Z := 0x8.
Definition PCRE2_DOTALL : Z := 0x20.
Definition PCRE2_EXTENDED : Z := 0x80.
Definition PCRE2_MULTILINE : Z := 0x400.
Definition PCRE2_UNGREEDY : Z := 0x40000.
Definition PCRE2_UTF : Z := 0x80000.
Definition PCRE2_UNSET : Z := 2 ^ 64 - 1.

(** The option a flag stands for: i, m, s, x, U. *)
Definition flag_option (ch : Z) : Z :=
  match ch with
  | 105 => PCRE2_CASELESS
  | 109 => PCRE2_MULTILINE
  | 115 => PCRE2_DOTALL
  | 120 => PCRE2_EXTENDED
  | 85 => PCRE2_UNGREEDY
  | _ => 0
  end.

Definition parse_pcre2_options (flags : list Z) : Z := fold_left (fun opts ch => Z.lor opts (flag_option ch)) flags PCRE2_UTF.

Definition BACKSLASH : Z := 92.
Definition DOLLAR : Z := 36.

(** . ^ $ * + ? { } [ ] \ | ( ) *)
Definition regexp_is_special (ch : Z) : bool :=
  bool_decide (ch ∈ [46; 94; 36; 42; 43; 63; 123; 125; 91; 93; 92; 124; 40; 41]).

Definition is_digit (ch : Z) : bool := (48 <=? ch) && (ch <=? 57).

Section Regexp.
Context {code : Type}.

Record jdll_regexp : Type := mk_regexp {
  re_code : code;
  re_pattern : list Z;
  re_flags : list Z
}.

(** [re] and [hay] are addresses; a capture is its start and its length (its [data] is
    never set). *)
Record jdll_regexp_match : Set := mk_match {
  m_re : Z;
  m_hay : Z;
  m_hay_len : Z;
  m_captures : list (Z * Z)
}.

(** What a primitive answers. *)
Inductive reply : Type :=
| RNull
| RBool (b : bool)
| RI32 (x : Z)
| RBytes (data : list Z)
| RRegexp (re : jdll_regexp)
| RMatch (m : jdll_regexp_match).

(** [pcre2_match code subject start options]: the result code and the vector of offsets. *)
Context (pcre2_compile : list Z -> Z -> option code).
Context (pcre2_match : code -> list Z -> Z -> Z -> Z * list Z).
Context (pcre2_substring_number_from_name : code -> list Z -> Z).
Context (oom : Z -> bool).

Definition alloc : R bool := fun n => Val (negb (oom n)) (n + 1).

Definition alloc_or (msg : string) : R () := ok ← alloc; if (ok : bool) then mret () else fail msg.

(** ** Compiling *)

Definition regexp_compile_bytes (pat flags : list Z) : R jdll_regexp :=
  if REGEXP_MAX_PATTERN_LEN <? zlen pat then fail "regexp_compile: pattern too long" else
  match pcre2_compile pat (parse_pcre2_options flags) with
  | None => fail "regexp_compile: invalid pattern"
  | Some code =>
    _ ← alloc_or "regexp_compile: out of memory";
    _ ← (if zlen pat =? 0 then mret () else alloc_or "regexp_compile: out of memory");
    _ ← (if zlen flags =? 0 then mret () else alloc_or "regexp_compile: out of memory");
    mret (mk_regexp code pat flags)
  end.

Definition jdll_std_regexp_compile (pat flags : list Z) : R reply :=
  re ← regexp_compile_bytes pat flags; mret (RRegexp re).

Definition jdll_std_regexp_source (re : option jdll_regexp) : R reply :=
  match re with None => fail "regexp_source: null handle" | Some re => mret (RBytes (re_pattern re)) end.

Definition jdll_std_regexp_flags (re : option jdll_regexp) : R reply :=
  match re with None => fail "regexp_flags: null handle" | Some re => mret (RBytes (re_flags re)) end.

(** ** Matching *)

Definition regexp_prefix_match (re : option jdll_regexp) (hay : list Z) : R bool :=
  match re with
  | None => mret false
  | Some re =>
    ok ← alloc;
    mret ((ok : bool) && (1 <=? (pcre2_match (re_code re) hay 0 PCRE2_ANCHORED).1))
  end.

(** The captures [i], [i + 1], ... of [n]. *)
Fixpoint read_captures (ovec : list Z) (hay_len i : Z) (n : nat) : R (list (Z * Z)) :=
  match n with
  | O => mret []
  | S n' =>
    start ← get (ovec @! (i * 2)); stop ← get (ovec @! (i * 2 + 1));
    if (start =? PCRE2_UNSET) || (stop =? PCRE2_UNSET) then
      l ← read_captures ovec hay_len (i + 1) n'; mret ((0, 0) :: l)
    else if (stop <? start) || (hay_len <? stop) then fail "regexp match: bad capture range"
    else l ← read_captures ovec hay_len (i + 1) n'; mret ((u32 start, u32 (stop - start)) :: l)
  end.

(** [None]: no match. [re] and [hay] come with their addresses. *)
Definition regexp_run_match (re : option (Z * jdll_regexp)) (hay : Z * list Z) (opts start_offset : Z)
    : R (option jdll_regexp_match) :=
  match re with
  | None => fail "regexp match: null regexp"
  | Some (rp, re) =>
    _ ← alloc_or "regexp match: out of memory";
    let '(rc, ovec) := pcre2_match (re_code re) hay.2 start_offset opts in
    if rc <? 1 then mret None else
    if REGEXP_MAX_CAPTURES <? rc then fail "regexp match: too many captures" else
    _ ← alloc_or "regexp match: out of memory";
    _ ← alloc_or "regexp match: out of memory";
    caps ← read_captures ovec (zlen hay.2) 0 (Z.to_nat rc);
    mret (Some (mk_match rp hay.1 (zlen hay.2) caps))
  end.

Definition match_reply (m : option jdll_regexp_match) : reply :=
  match m with Some m => RMatch m | None => RNull end.

Definition jdll_std_regexp_match_prefix (hay : Z * list Z) (re : option (Z * jdll_regexp)) : R reply :=
  m ← regexp_run_match re hay PCRE2_ANCHORED 0; mret (match_reply m).

Definition jdll_std_regexp_match (hay : Z * list Z) (re : option (Z * jdll_regexp)) : R reply :=
  m ← regexp_run_match re hay 0 0; mret (match_reply m).

Definition jdll_std_regexp_match_prefix_p (hay : list Z) (re : option jdll_regexp) : R reply :=
  b ← regexp_prefix_match re hay; mret (RBool b).

Definition jdll_std_regexp_full_match (hay : list Z) (re : option jdll_regexp) : R reply :=
  b ← regexp_prefix_match re hay;
  match re with
  | Some re =>
    if negb (b : bool) then mret (RBool false) else
    _ ← alloc_or "regexp_full_match: out of memory";
    let '(rc, ovec) := pcre2_match (re_code re) hay 0 PCRE2_ANCHORED in
    if rc <? 1 then mret (RBool false) else
    start ← get (ovec @! 0); stop ← get (ovec @! 1);
    mret (RBool (u64 (stop - start) =? zlen hay))
  | None => mret (RBool false)
  end.

(** ** The parts of a match *)

(** The bytes at an address that are still there, and the regular expressions. *)
Context (bytes_at : Z -> option (list Z)) (regexp_at : Z -> option jdll_regexp).

Definition capture (m : option jdll_regexp_match) (idx : Z) : option (jdll_regexp_match * (Z * Z)) :=
  m ← m; if idx <? 0 then None else c ← m_captures m @! idx; Some (m, c).

Definition capture_count (m : jdll_regexp_match) : Z := zlen (m_captures m).

Definition jdll_std_regexp_match_len (m : option jdll_regexp_match) : reply :=
  RI32 (match capture m 0 with Some (_, (_, len)) => i32 len | None => 0 end).

Definition jdll_std_regexp_capture_count (m : option jdll_regexp_match) : reply :=
  RI32 (match m with Some m => i32 (capture_count m) | None => 0 end).

(** The bytes are read where the match found them. *)
Definition capture_data (c : option (jdll_regexp_match * (Z * Z))) : R reply :=
  match c with
  | None => mret (RBytes [])
  | Some (m, (start, len)) =>
    if (m_hay m =? 0) || (len =? 0) then mret (RBytes []) else
    hay ← get (bytes_at (m_hay m)); l ← get (block_read hay start len); mret (RBytes l)
  end.

Definition jdll_std_regexp_capture_bytes (m : option jdll_regexp_match) (idx : Z) : R reply :=
  capture_data (capture m idx).

Definition jdll_std_regexp_capture_start (m : option jdll_regexp_match) (idx : Z) : reply :=
  RI32 (match capture m idx with Some (_, (start, _)) => i32 start | None => -1 end).

Definition jdll_std_regexp_capture_named (m : option jdll_regexp_match) (name : list Z) : R reply :=
  match m with
  | None => mret (RBytes [])
  | Some m =>
    if m_re m =? 0 then mret (RBytes []) else
    re ← get (regexp_at (m_re m));
    if zlen name =? 0 then mret (RBytes []) else
    _ ← alloc_or "regexp_capture_named: out of memory";
    _ ← (if u32 (zlen name + 1) <? zlen name then undef else mret ());
    capture_data (capture (Some m) (pcre2_substring_number_from_name (re_code re) (c_string name)))
  end.

(** ** Replacing *)

(** [*buf], [*cap] and [*len]. *)
Record out_buf : Set := mk_out { out_data : list Z; out_cap : Z }.

Fixpoint grow_cap (fuel : nat) (new_cap need : Z) : option Z :=
  if need <=? new_cap then Some new_cap else
  match fuel with
  | O => None
  | S fuel' => if UINT32_MAX / 2 <? new_cap then Some (u32 need) else grow_cap fuel' (u32 (new_cap * 2)) need
  end.

(** [None] is 0. *)
Definition regexp_append_bytes (b : out_buf) (data : list Z) : R (option out_buf) :=
  if zlen data =? 0 then mret (Some b) else
  let need := zlen (out_data b) + zlen data in
  if UINT32_MAX <? need then mret None else
  let store (cap : Z) : R (option out_buf) :=
    if cap <? need then undef else mret (Some (mk_out (out_data b ++ data) cap)) in
  if need <=? out_cap b then store (out_cap b) else
  match grow_cap 32 (if out_cap b =? 0 then 64 else out_cap b) need with
  | None => out_of_fuel
  | Some cap => ok ← alloc; if (ok : bool) then store cap else mret None
  end.

Definition regexp_append_capture (rc : Z) (ovec hay : list Z) (group : Z) (b : out_buf) : R (option out_buf) :=
  if u32 rc <=? group then mret (Some b) else
  start ← get (ovec @! (group * 2)); stop ← get (ovec @! (group * 2 + 1));
  if (stop <? start) || (start =? PCRE2_UNSET) || (stop =? PCRE2_UNSET) then mret (Some b) else
  if zlen hay <? stop then mret None else
  l ← get (block_read hay start (u32 (stop - start))); regexp_append_bytes b l.

(** The digits after the first: the number of the group and the bytes left. *)
Fixpoint group_number (group : Z) (repl : list Z) : Z * list Z :=
  match repl with
  | d :: rest =>
    if is_digit d then
      let group := u32 (u32 (group * 10) + (d - 48)) in
      if REGEXP_MAX_CAPTURES <=? group then (group, repl) else group_number group rest
    else (group, repl)
  | [] => (group, [])
  end.

(** [repl] is what is left of the replacement. *)
Fixpoint regexp_append_replacement (fuel : nat) (rc : Z) (ovec hay repl : list Z) (b : out_buf) : R (option out_buf) :=
  match fuel with
  | O => out_of_fuel
  | S fuel' =>
    let go (p : R (option out_buf)) (rest : list Z) :=
      b ← p; match b with None => mret None | Some b => regexp_append_replacement fuel' rc ovec hay rest b end in
    match repl with
    | [] => mret (Some b)
    | c :: d :: rest =>
      if (c =? DOLLAR) && (d =? DOLLAR) then go (regexp_append_bytes b [DOLLAR]) rest else
      if (c =? DOLLAR) && is_digit d then
        let '(group, rest) := group_number (d - 48) rest in
        go (regexp_append_capture rc ovec hay group b) rest
      else go (regexp_append_bytes b [c]) (d :: rest)
    | [c] => go (regexp_append_bytes b [c]) []
    end
  end.

(** The loop over the matches: where it stopped and what was written, [None] before the
    first replacement. *)
Fixpoint replace_loop (fuel : nat) (re : jdll_regexp) (hay repl : list Z) (offset : Z) (b : out_buf) (replaced : bool)
    : R (Z * out_buf * bool) :=
  if zlen hay <? offset then mret (offset, b, replaced) else
  match fuel with
  | O => out_of_fuel
  | S fuel' =>
    let '(rc, ovec) := pcre2_match (re_code re) hay offset 0 in
    if rc <? 1 then mret (offset, b, replaced) else
    if REGEXP_MAX_CAPTURES <? rc then fail "regexp_replace: too many captures" else
    mstart ← get (ovec @! 0); mend ← get (ovec @! 1);
    if (mend <? mstart) || (zlen hay <? mend) || (mstart <? offset) then fail "regexp_replace: bad match range" else
    before ← get (block_read hay offset (u32 (mstart - offset)));
    b ← regexp_append_bytes b before;
    match b with
    | None => fail "regexp_replace: out of memory"
    | Some b =>
      b ← regexp_append_replacement (S (length repl)) rc ovec hay repl b;
      match b with
      | None => fail "regexp_replace: out of memory"
      | Some b =>
        let offset := u32 mend in
        if mstart =? mend then
          if zlen hay <=? offset then mret (offset, b, true)
          else replace_loop fuel' re hay repl (u32 (offset + 1)) b true
        else replace_loop fuel' re hay repl offset b true
      end
    end
  end.

Definition jdll_std_regexp_replace (hay : list Z) (re : option jdll_regexp) (repl : list Z) : R reply :=
  match re with
  | None => fail "regexp_replace: null regexp"
  | Some re =>
    _ ← alloc_or "regexp_replace: out of memory";
    '(offset, b, replaced) ← replace_loop (S (S (length hay))) re hay repl 0 (mk_out [] 0) false;
    if negb replaced then mret (RBytes hay) else
    rest ← get (block_read hay offset (u32 (zlen hay - offset)));
    b ← regexp_append_bytes b rest;
    match b with
    | None => fail "regexp_replace: out of memory"
    | Some b => mret (RBytes (out_data b))
    end
  end.

(** ** Escaping and advancing *)

(** [buf[out++] = x], a write past [cap] bytes being undefined. *)
Fixpoint escape_loop (cap : Z) (data out : list Z) : R (list Z) :=
  match data with
  | [] => mret out
  | c :: rest =>
    let out := out ++ (if regexp_is_special c then [BACKSLASH; c] else [c]) in
    if cap <? zlen out then undef else escape_loop cap rest out
  end.

Definition jdll_std_regexp_escape_literal (data : list Z) : R reply :=
  if zlen data =? 0 then mret (RBytes data) else
  let cap := u32 (u32 (zlen data * 2) + 1) in
  _ ← alloc_or "regexp_escape_literal: out of memory";
  out ← escape_loop cap data []; mret (RBytes out).

Definition jdll_std_regexp_advance (hay : list Z) (m : option jdll_regexp_match) : reply :=
  match capture m 0 with
  | None => RBytes hay
  | Some (_, (_, skip)) => if zlen hay <=? skip then RBytes [] else RBytes (drop (Z.to_nat skip) hay)
  end.
End Regexp.
Arguments jdll_regexp : clear implicits.
Arguments reply : clear implicits.

(** * What the replacement of matches writes *)

(** The bytes from [a] up to [b]. *)
Definition slice (l : list Z) (a b : Z) : list Z := take (Z.to_nat (b - a)) (drop (Z.to_nat a) l).

Lemma slice_read l a b : 0 <= a <= b -> b <= zlen l -> block_read l a (b - a) = Some (slice l a b).
Proof. intros. apply block_read_Some; lia. Qed.

Lemma zlen_slice l a b : 0 <= a <= b -> b <= zlen l -> zlen (slice l a b) = b - a.
Proof. intros. unfold slice, zlen in *. rewrite length_take, length_drop. lia. Qed.

Lemma slice_all l : slice l 0 (zlen l) = l.
Proof. unfold slice, zlen. rewrite Z.sub_0_r, Nat2Z.id, drop_0. by apply firstn_all. Qed.

(** ** What a replacement means *)

Inductive item : Set :=
| Lit (c : Z)
| Group (n : Z).

Definition decimal (ds : list Z) (v : Z) : Z := fold_left (fun v d => v * 10 + (d - 48)) ds v.

Definition starts_with (p : Z -> bool) (l : list Z) : bool := match l with c :: _ => p c | [] => false end.

(** [$$] is a dollar, [$n] with all the digits that follow is group [n] below 32, and
    everything else stands for itself.  Of a number of 32 or more the digits before the one
    that makes it so are dropped, and that one is text. *)
Inductive template : list Z -> list item -> Prop :=
| template_nil : template [] []
| template_dollar rest items : template rest items -> template (DOLLAR :: DOLLAR :: rest) (Lit DOLLAR :: items)
| template_group d ds rest items :
    Forall (fun c => is_digit c = true) (d :: ds) -> starts_with is_digit rest = false ->
    decimal (d :: ds) 0 < REGEXP_MAX_CAPTURES -> template rest items ->
    template (DOLLAR :: d :: ds ++ rest) (Group (decimal (d :: ds) 0) :: items)
| template_large d ds c rest items :
    Forall (fun c => is_digit c = true) (d :: ds) -> is_digit c = true ->
    decimal (d :: ds) 0 < REGEXP_MAX_CAPTURES <= decimal (d :: ds ++ [c]) 0 -> template (c :: rest) items ->
    template (DOLLAR :: d :: ds ++ c :: rest) items
| template_lit c rest items :
    c <> DOLLAR \/ starts_with (fun d => (d =? DOLLAR) || is_digit d) rest = false -> template rest items ->
    template (c :: rest) (Lit c :: items).

(** Every replacement has a meaning. *)
Lemma split_number rest : forall v, 0 <= v < REGEXP_MAX_CAPTURES -> exists ds rest', rest = ds ++ rest' /\
  Forall (fun c => is_digit c = true) ds /\ decimal ds v < REGEXP_MAX_CAPTURES /\
  (starts_with is_digit rest' = false \/
   exists c rest'', rest' = c :: rest'' /\ is_digit c = true /\ REGEXP_MAX_CAPTURES <= decimal (ds ++ [c]) v).
Proof.
  induction rest as [|c rest IH]; intros v Hv.
  { exists [], []. split_and!; [done | constructor | cbn; lia | by left]. }
  destruct (is_digit c) eqn:Hc; [|exists [], (c :: rest); split_and!; [done | constructor | cbn; lia | by left]].
  destruct (Z_lt_le_dec (v * 10 + (c - 48)) REGEXP_MAX_CAPTURES) as [Hlt | Hge].
  - assert (0 <= v * 10 + (c - 48)) by (unfold is_digit in Hc; bool_hyps; lia).
    destruct (IH (v * 10 + (c - 48)) ltac:(lia)) as (ds & rest' & -> & Hds & Hd & Hr).
    exists (c :: ds), rest'. split_and!; [done | by constructor | done | exact Hr].
  - exists [], (c :: rest). split_and!; [done | constructor | cbn; lia |]. right. by exists c, rest.
Qed.

Lemma template_exists repl : exists items, template repl items.
Proof.
  remember (length repl) as n eqn:En. revert repl En. induction (lt_wf n) as [n _ IH]. intros [|c rest] ->.
  { exists []. constructor. }
  assert (Hlit : c <> DOLLAR \/ starts_with (fun d => (d =? DOLLAR) || is_digit d) rest = false ->
    exists items, template (c :: rest) items).
  { intros H. destruct (IH (length rest) ltac:(cbn; lia) rest eq_refl) as [items Hi]. exists (Lit c :: items). by constructor. }
  destruct (Z.eq_dec c DOLLAR) as [-> | Hc]; [|apply Hlit; by left].
  destruct rest as [|d rest]; [apply Hlit; by right|].
  destruct (Z.eqb_spec d DOLLAR) as [-> | Hd].
  { destruct (IH (length rest) ltac:(cbn; lia) rest eq_refl) as [items Hi]. exists (Lit DOLLAR :: items). by constructor. }
  destruct (is_digit d) eqn:Hdd; [|apply Hlit; right; cbn; by rewrite (proj2 (Z.eqb_neq _ _) Hd)].
  assert (Hr : 0 <= d - 48 < REGEXP_MAX_CAPTURES) by (unfold is_digit, REGEXP_MAX_CAPTURES in *; bool_hyps; lia).
  destruct (split_number rest (d - 48) Hr) as (ds & rest' & -> & Hds & Hlt & [Hend | (c & rest'' & -> & Hc & Hge)]).
  - destruct (IH (length rest') ltac:(cbn; rewrite length_app; lia) rest' eq_refl) as [items Hi].
    exists (Group (decimal (d :: ds) 0) :: items). constructor; [by constructor | done | exact Hlt | done].
  - destruct (IH (length (c :: rest'')) ltac:(cbn; rewrite length_app; cbn; lia) (c :: rest'') eq_refl) as [items Hi].
    exists items. apply template_large; [by constructor | done | split; [exact Hlt | exact Hge] | done].
Qed.

(** A group that did not take part in the match is empty. *)
Definition group_text (rc : Z) (ovec hay : list Z) (n : Z) : list Z :=
  match ovec @! (n * 2), ovec @! (n * 2 + 1) with
  | Some s, Some e => if (n <? rc) && negb (s =? PCRE2_UNSET) then slice hay s e else []
  | _, _ => []
  end.

Definition item_text (rc : Z) (ovec hay : list Z) (i : item) : list Z :=
  match i with Lit c => [c] | Group n => group_text rc ovec hay n end.

Definition expand (rc : Z) (ovec hay : list Z) (items : list item) : list Z :=
  flat_map (item_text rc ovec hay) items.

(** What a match sets: the range of each group, inside the byte string, or [PCRE2_UNSET]
    twice. *)
Definition groups_ok (rc : Z) (ovec hay : list Z) : Prop :=
  1 <= rc <= REGEXP_MAX_CAPTURES /\
  forall i, 0 <= i < rc -> exists s e, ovec @! (i * 2) = Some s /\ ovec @! (i * 2 + 1) = Some e /\
    (s = PCRE2_UNSET /\ e = PCRE2_UNSET \/ 0 <= s <= e /\ e <= zlen hay).

Section Matcher.
Context {code : Type} (pcre2_match : code -> list Z -> Z -> Z -> Z * list Z).

(** The matches of [c] in [hay] are in range and not empty. *)
Definition proper_matcher (c : code) (hay : list Z) : Prop :=
  forall offset rc ovec, 0 <= offset <= zlen hay -> pcre2_match c hay offset 0 = (rc, ovec) -> 1 <= rc ->
    groups_ok rc ovec hay /\ exists s e, ovec @! 0 = Some s /\ ovec @! 1 = Some e /\ offset <= s < e /\ e <= zlen hay.

(** The text from [offset] on with its matches replaced. *)
Inductive replaced (c : code) (hay : list Z) (items : list item) : Z -> list Z -> Prop :=
| replaced_end offset rc ovec : pcre2_match c hay offset 0 = (rc, ovec) -> rc < 1 ->
    replaced c hay items offset (slice hay offset (zlen hay))
| replaced_step offset rc ovec s e out : pcre2_match c hay offset 0 = (rc, ovec) -> 1 <= rc ->
    ovec @! 0 = Some s -> ovec @! 1 = Some e -> replaced c hay items e out ->
    replaced c hay items offset (slice hay offset s ++ expand rc ovec hay items ++ out).

Lemma replaced_exists c hay items (H : proper_matcher c hay) f : forall offset,
  0 <= offset <= zlen hay -> zlen hay - offset <= Z.of_nat f -> exists out, replaced c hay items offset out.
Proof.
  induction f as [|f IH]; intros offset Ho Hf;
    destruct (pcre2_match c hay offset 0) as [rc ovec] eqn:E;
    (destruct (Z.lt_ge_cases rc 1); [eexists; by eapply replaced_end|]);
    destruct (H _ _ _ Ho E ltac:(lia)) as (_ & s & e & Hs & He & Hr & Hle); [lia|].
  destruct (IH e) as [out Hout]; [lia | lia|]. eexists. by eapply replaced_step.
Qed.
End Matcher.

Lemma u32_in_range x : 0 <= x <= UINT32_MAX -> u32 x = x.
Proof. intros. apply Z.mod_small. unfold UINT32_MAX in *. lia. Qed.

(** ** The buffer *)

Section Buffer.
Context (oom : Z -> bool).

Definition buf_ok (b : out_buf) : Prop := 0 <= out_cap b <= UINT32_MAX.

Lemma out_cap_spec f : forall c need, 1 <= c <= UINT32_MAX -> 0 <= need <= UINT32_MAX ->
  UINT32_MAX / 2 < c * 2 ^ Z.of_nat f ->
  exists cap, grow_cap (S f) c need = Some cap /\ need <= cap <= UINT32_MAX.
Proof.
  induction f as [|f IH]; intros c need Hc Hn Hf; cbn [grow_cap];
    (destruct (Z.leb_spec need c); [exists c; split; [done | lia]|]);
    change (UINT32_MAX / 2) with 2147483647 in *; unfold UINT32_MAX in *;
    (destruct (Z.ltb_spec 2147483647 c);
      [exists need; split; [f_equal; apply Z.mod_small; lia | lia]|]).
  - change (2 ^ Z.of_nat 0) with 1 in Hf. lia.
  - replace (u32 (c * 2)) with (c * 2) by (symmetry; apply Z.mod_small; lia).
    apply IH; [lia | lia|]. rewrite Nat2Z.inj_succ, Z.pow_succ_r in Hf by lia. lia.
Qed.

(** [p] appends [data] to [b], or memory or the 32-bit length run out. *)
Definition appends (b : out_buf) (data : list Z) (p : R (option out_buf)) : Prop :=
  forall n, match p n with
    | Val (Some b') _ => buf_ok b' /\ out_data b' = out_data b ++ data
    | Val None _ => (exists k, oom k = true) \/ UINT32_MAX < zlen (out_data b ++ data)
    | _ => False
    end.

Lemma append_bytes_ok b data : buf_ok b -> appends b data (regexp_append_bytes oom b data).
Proof.
  intros Hb n. unfold regexp_append_bytes. destruct (Z.eqb_spec (zlen data) 0) as [Hz|Hz].
  { destruct data; [|rewrite zlen_cons in Hz; pose proof (zlen_nonneg data); lia]. cbn. by rewrite app_nil_r. }
  pose proof (zlen_nonneg data). pose proof (zlen_nonneg (out_data b)). cbv zeta.
  destruct (Z.ltb_spec UINT32_MAX (zlen (out_data b) + zlen data)); [cbn; right; rewrite zlen_app; lia|].
  assert (Hs : forall cap m, zlen (out_data b) + zlen data <= cap <= UINT32_MAX ->
    match (if cap <? zlen (out_data b) + zlen data then undef
           else mret (Some (mk_out (out_data b ++ data) cap))) m with
    | Val (Some b') _ => buf_ok b' /\ out_data b' = out_data b ++ data
    | Val None _ => (exists k, oom k = true) \/ UINT32_MAX < zlen (out_data b ++ data)
    | _ => False
    end).
  { intros cap m Hc. destruct (Z.ltb_spec cap (zlen (out_data b) + zlen data)); [lia|]. cbn. unfold buf_ok. cbn.
    split; [lia | done]. }
  destruct (Z.leb_spec (zlen (out_data b) + zlen data) (out_cap b)); [apply Hs; unfold buf_ok in Hb; lia|].
  set (c0 := if out_cap b =? 0 then 64 else out_cap b).
  destruct (out_cap_spec 31 c0 (zlen (out_data b) + zlen data)) as (cap & -> & Hc).
  1-3: unfold buf_ok in Hb; subst c0; destruct (Z.eqb_spec (out_cap b) 0);
    change (UINT32_MAX / 2) with 2147483647; change (2 ^ Z.of_nat 31) with 2147483648; unfold UINT32_MAX in *; lia.
  unfold mbind, R_bind, alloc. destruct (oom n) eqn:E; cbn [negb]; [cbn; left; by exists n | by apply Hs].
Qed.

Lemma appends_ext b d1 d2 p : d1 = d2 -> appends b d1 p -> appends b d2 p.
Proof. by intros ->. Qed.

Lemma appends_bind b d1 d2 p (k : out_buf -> R (option out_buf)) : appends b d1 p ->
  (forall b', buf_ok b' -> out_data b' = out_data b ++ d1 -> appends b' d2 (k b')) ->
  appends b (d1 ++ d2) (b ← p; match b with None => mret None | Some b => k b end).
Proof.
  intros Hp Hk n. specialize (Hp n). unfold mbind, R_bind.
  destruct (p n) as [[b'|] m | msg | |]; try done.
  - destruct Hp as [Hb Hd]. specialize (Hk b' Hb Hd m). rewrite Hd, <- app_assoc in Hk.
    by destruct (k b' m) as [[b''|] m' | msg | |].
  - cbn. destruct Hp as [Hp | Hp]; [by left | right]. rewrite !zlen_app in *. pose proof (zlen_nonneg d2). lia.
Qed.

Lemma append_capture_ok rc ovec hay n b : zlen hay <= UINT32_MAX -> groups_ok rc ovec hay -> 0 <= n -> buf_ok b ->
  appends b (group_text rc ovec hay n) (regexp_append_capture oom rc ovec hay n b).
Proof.
  intros Hh (Hrc & Hg) Hn Hb. unfold regexp_append_capture, group_text.
  assert (Hskip : appends b [] (mret (Some b))) by (intros m; cbn; by rewrite app_nil_r).
  replace (u32 rc) with rc by (symmetry; apply u32_in_range; unfold REGEXP_MAX_CAPTURES, UINT32_MAX in *; lia).
  destruct (Z.leb_spec rc n).
  { rewrite (proj2 (Z.ltb_ge n rc)) by lia. cbn [andb]. by destruct (ovec @! (n * 2)), (ovec @! (n * 2 + 1)). }
  destruct (Hg n) as (s & e & Hs & He & Hse); [lia|]. rewrite Hs, He, (proj2 (Z.ltb_lt n rc)) by lia.
  intros m. unfold mbind, R_bind, get. cbv beta iota zeta.
  destruct Hse as [[-> ->] | [Hse Hle]]; [by rewrite Z.eqb_refl; apply (Hskip m)|].
  assert (HU : UINT32_MAX < PCRE2_UNSET) by reflexivity.
  rewrite (proj2 (Z.ltb_ge e s)), (proj2 (Z.eqb_neq s _)), (proj2 (Z.eqb_neq e _)) by lia. cbn [orb negb andb].
  rewrite (proj2 (Z.ltb_ge (zlen hay) e)) by lia.
  replace (u32 (e - s)) with (e - s) by (symmetry; apply u32_in_range; lia).
  rewrite slice_read by lia. by apply append_bytes_ok.
Qed.

Lemma decimal_ge ds : Forall (fun c => is_digit c = true) ds -> forall v, 0 <= v -> v <= decimal ds v.
Proof.
  induction 1 as [|d ds Hd _ IH]; intros v Hv; [done|]. unfold is_digit in Hd. bool_hyps.
  change (decimal (d :: ds) v) with (decimal ds (v * 10 + (d - 48))).
  specialize (IH (v * 10 + (d - 48))). lia.
Qed.

Lemma group_number_spec ds rest : Forall (fun c => is_digit c = true) ds -> starts_with is_digit rest = false ->
  forall v, 0 <= v -> decimal ds v < REGEXP_MAX_CAPTURES -> group_number v (ds ++ rest) = (decimal ds v, rest).
Proof.
  intros Hds Hr. induction Hds as [|d ds Hd Hds IH]; intros v Hv Hlt; cbn [group_number app].
  { destruct rest as [|c rest]; [done|]. cbn in Hr |- *. by rewrite Hr. }
  change (decimal (d :: ds) v) with (decimal ds (v * 10 + (d - 48))) in *.
  rewrite Hd. unfold is_digit in Hd. bool_hyps.
  pose proof (decimal_ge ds Hds (v * 10 + (d - 48)) ltac:(lia)) as Hge. unfold REGEXP_MAX_CAPTURES in *.
  replace (u32 (u32 (v * 10) + (d - 48))) with (v * 10 + (d - 48))
    by (rewrite !u32_in_range; rewrite ?u32_in_range; unfold UINT32_MAX; lia).
  rewrite (proj2 (Z.leb_gt 32 _)) by lia. apply IH; lia.
Qed.

Lemma group_number_large ds c rest : Forall (fun c => is_digit c = true) ds -> is_digit c = true ->
  forall v, 0 <= v -> decimal ds v < REGEXP_MAX_CAPTURES <= decimal (ds ++ [c]) v ->
  exists g, group_number v (ds ++ c :: rest) = (g, c :: rest) /\ REGEXP_MAX_CAPTURES <= g.
Proof.
  intros Hds Hc. induction Hds as [|d ds Hd Hds IH]; intros v Hv Hlt; cbn [group_number app].
  - change (decimal [] v) with v in Hlt. change (decimal ([] ++ [c]) v) with (v * 10 + (c - 48)) in Hlt.
    rewrite Hc. unfold is_digit in Hc. bool_hyps. unfold REGEXP_MAX_CAPTURES in *.
    replace (u32 (u32 (v * 10) + (c - 48))) with (v * 10 + (c - 48))
      by (rewrite !u32_in_range; rewrite ?u32_in_range; unfold UINT32_MAX; lia).
    rewrite (proj2 (Z.leb_le 32 _)) by lia. eexists. split; [done | lia].
  - change (decimal (d :: ds) v) with (decimal ds (v * 10 + (d - 48))) in Hlt.
    change (decimal ((d :: ds) ++ [c]) v) with (decimal (ds ++ [c]) (v * 10 + (d - 48))) in Hlt.
    rewrite Hd. unfold is_digit in Hd. bool_hyps.
    pose proof (decimal_ge ds Hds (v * 10 + (d - 48)) ltac:(lia)) as Hge. unfold REGEXP_MAX_CAPTURES in *.
    replace (u32 (u32 (v * 10) + (d - 48))) with (v * 10 + (d - 48))
      by (rewrite !u32_in_range; rewrite ?u32_in_range; unfold UINT32_MAX; lia).
    rewrite (proj2 (Z.leb_gt 32 _)) by lia. apply IH; lia.
Qed.

(** There is no such group. *)
Lemma append_capture_large rc ovec hay n b : groups_ok rc ovec hay -> REGEXP_MAX_CAPTURES <= n -> buf_ok b ->
  appends b [] (regexp_append_capture oom rc ovec hay n b).
Proof.
  intros ((Hrc & Hrc') & _) Hn Hb m. unfold regexp_append_capture.
  replace (u32 rc) with rc by (symmetry; apply u32_in_range; unfold REGEXP_MAX_CAPTURES, UINT32_MAX in *; lia).
  rewrite (proj2 (Z.leb_le rc n)) by lia. cbn. by rewrite app_nil_r.
Qed.

Lemma append_replacement_ok rc ovec hay repl items : zlen hay <= UINT32_MAX -> groups_ok rc ovec hay ->
  template repl items -> forall fuel b, (length repl < fuel)%nat -> buf_ok b ->
  appends b (expand rc ovec hay items) (regexp_append_replacement oom fuel rc ovec hay repl b).
Proof.
  intros Hh Hg. induction 1 as [|rest items _ IH|d ds rest items Hds Hr Hlt _ IH|d ds c rest items Hds Hc Hlt _ IH|c rest items Hc _ IH];
    intros [|fuel] b Hf Hb; cbn [length] in Hf; try lia.
  - intros n. cbn. by rewrite app_nil_r.
  - cbn [regexp_append_replacement]. rewrite Z.eqb_refl. cbn [andb].
    apply appends_bind; [by apply append_bytes_ok|]. intros b' Hb' _. apply IH; [lia | done].
  - apply Forall_cons in Hds as [Hd Hds]. cbn [regexp_append_replacement].
    assert ((d =? DOLLAR) = false) as -> by (unfold is_digit, DOLLAR in *; bool_hyps; lia).
    rewrite Z.eqb_refl, Hd. cbn [andb].
    change (decimal (d :: ds) 0) with (decimal ds (d - 48)) in *.
    rewrite group_number_spec by (try done; unfold is_digit in Hd; bool_hyps; lia).
    apply appends_bind.
    + apply append_capture_ok; try done. pose proof (decimal_ge ds Hds (d - 48)).
      unfold is_digit in Hd. bool_hyps. lia.
    + intros b' Hb' _. apply IH; [|done]. rewrite length_app in Hf. lia.
  - apply Forall_cons in Hds as [Hd Hds]. cbn [regexp_append_replacement].
    assert ((d =? DOLLAR) = false) as -> by (unfold is_digit, DOLLAR in *; bool_hyps; lia).
    rewrite Z.eqb_refl, Hd. cbn [andb].
    destruct (group_number_large ds c rest Hds Hc (d - 48)) as (g & -> & Hg32);
      [unfold is_digit in Hd; bool_hyps; lia | exact Hlt |].
    apply (appends_bind b [] (expand rc ovec hay items)); [by apply append_capture_large|].
    intros b' Hb' _. apply IH; [|done]. rewrite length_app in Hf. cbn [length] in *. lia.
  - assert (Hgo : appends b ([c] ++ expand rc ovec hay items)
      (b ← regexp_append_bytes oom b [c];
       match b with None => mret None | Some b => regexp_append_replacement oom fuel rc ovec hay rest b end)).
    { apply appends_bind; [by apply append_bytes_ok|]. intros b' Hb' _. apply IH; [lia | done]. }
    cbn [regexp_append_replacement]. destruct rest as [|d rest]; [done|].
    destruct (Z.eqb_spec c DOLLAR) as [->|]; cbn [andb]; [|done].
    destruct Hc as [|Hc]; [done|]. cbn in Hc. apply orb_false_iff in Hc as [-> ->]. done.
Qed.
End Buffer.

(** ** The loop *)

Section Replace.
Context {code : Type} (pcre2_match : code -> list Z -> Z -> Z -> Z * list Z) (oom : Z -> bool).
Context (re : jdll_regexp code) (hay repl : list Z) (items : list item).
Context (Hlen : zlen hay <= UINT32_MAX) (Hrepl : template repl items).
Context (Hmatch : proper_matcher pcre2_match (re_code re) hay).

Definition no_room (out : list Z) (msg : string) : Prop :=
  msg = "regexp_replace: out of memory"%string /\ ((exists k, oom k = true) \/ UINT32_MAX < zlen out).

(** Behind the loop, what was written and the rest of the bytes are the answer. *)
Lemma replace_loop_ok fuel : forall offset b flag out n, 0 <= offset <= zlen hay ->
  zlen hay - offset < Z.of_nat fuel -> buf_ok b ->
  replaced pcre2_match (re_code re) hay items offset out ->
  match replace_loop pcre2_match oom fuel re hay repl offset b flag n with
  | Val (offset', b', flag') _ => offset <= offset' <= zlen hay /\ buf_ok b' /\
      out_data b ++ out = out_data b' ++ slice hay offset' (zlen hay) /\
      (flag' = false -> flag = false /\ offset' = offset /\ b' = b)
  | Fail msg => no_room (out_data b ++ out) msg
  | _ => False
  end.
Proof.
  induction fuel as [|fuel IH]; intros offset b flag out n Ho Hf Hb Hrep; [lia|]. cbn [replace_loop].
  rewrite (proj2 (Z.ltb_ge (zlen hay) offset)) by lia.
  destruct Hrep as [offset rc ovec E Hrc | offset rc ovec s e out E Hrc Hs He Hrep]; rewrite E.
  { rewrite (proj2 (Z.ltb_lt rc 1)) by lia. cbn. split; [lia | done]. }
  destruct (Hmatch _ _ _ Ho E Hrc) as (Hg & s' & e' & Hs' & He' & Hr & Hle). simplify_eq.
  rewrite (proj2 (Z.ltb_ge rc 1)), (proj2 (Z.ltb_ge REGEXP_MAX_CAPTURES rc)) by (destruct Hg; lia).
  rewrite Hs, He. change (@mbind R R_bind) with (@R_bind). unfold R_bind, get at 1 2.
  rewrite (proj2 (Z.ltb_ge e s)), (proj2 (Z.ltb_ge (zlen hay) e)), (proj2 (Z.ltb_ge s offset)) by lia. cbn [orb].
  rewrite u32_in_range, slice_read by lia. unfold get.
  pose proof (append_bytes_ok oom b (slice hay offset s) Hb n) as H1.
  destruct (regexp_append_bytes oom b (slice hay offset s) n) as [[b1|] n1 | | |]; try done.
  2: { cbn. split; [done|]. destruct H1 as [H1 | H1]; [by left | right]. rewrite !zlen_app in *.
       pose proof (zlen_nonneg (expand rc ovec hay items)). pose proof (zlen_nonneg out). lia. }
  destruct H1 as [Hb1 Hd1].
  pose proof (append_replacement_ok oom rc ovec hay repl items Hlen Hg Hrepl (S (length repl)) b1 ltac:(lia) Hb1 n1) as H2.
  destruct (regexp_append_replacement oom (S (length repl)) rc ovec hay repl b1 n1) as [[b2|] n2 | | |]; try done.
  2: { cbn. split; [done|]. destruct H2 as [H2 | H2]; [by left | right]. rewrite Hd1, !zlen_app in *.
       pose proof (zlen_nonneg out). lia. }
  destruct H2 as [Hb2 Hd2]. rewrite u32_in_range, (proj2 (Z.eqb_neq s e)) by lia.
  specialize (IH e b2 true out n2 ltac:(lia) ltac:(lia) Hb2 Hrep). rewrite Hd2, Hd1, <- !app_assoc in IH.
  destruct (replace_loop pcre2_match oom fuel re hay repl e b2 true n2) as [[[o' b'] f'] n' | msg | |]; try done.
  destruct IH as (Ho' & Hb' & Heq & Hfl). split; [lia|]. split; [done|]. split; [done|].
  intros Hf'. by destruct (Hfl Hf').
Qed.
End Replace.

(** C33: For a regular expression whose matches lie inside the byte string, are not empty and
    have at most 32 groups, and any replacement, replacing ends; it answers the text between
    the matches with the expanded replacement in place of each match, or fails with "out of
    memory", which it does only when memory runs out or the answer has more than 2^32 - 1
    bytes.  [template] says what a replacement stands for, numbers of 32 or more
    included. *)
Theorem replace_spec {code} (pcre2_match : code -> list Z -> Z -> Z -> Z * list Z) oom (re : jdll_regexp code) hay repl n
    (Hlen : zlen hay <= UINT32_MAX) (Hmatch : proper_matcher pcre2_match (re_code re) hay) :
  (exists items, template repl items) /\
  forall items, template repl items -> exists out, replaced pcre2_match (re_code re) hay items 0 out /\
    match jdll_std_regexp_replace pcre2_match oom hay (Some re) repl n with
    | Val r _ => r = RBytes out
    | Fail msg => no_room oom out msg
    | _ => False
    end.
Proof.
  split; [apply template_exists|]. intros items Hrepl.
  destruct (replaced_exists pcre2_match (re_code re) hay items Hmatch (length hay) 0) as [out Hrep];
    [pose proof (zlen_nonneg hay); lia | unfold zlen; lia|].
  exists out. split; [done|]. unfold jdll_std_regexp_replace, alloc_or, alloc, mbind, R_bind.
  destruct (oom n) eqn:E; cbn [negb]; [split; [done | left; by exists n]|]. cbv beta iota delta [mret R_ret].
  pose proof (replace_loop_ok pcre2_match oom re hay repl items Hlen Hrepl Hmatch (S (S (length hay))) 0 (mk_out [] 0)
    false out (n + 1) ltac:(pose proof (zlen_nonneg hay); lia) ltac:(unfold zlen; lia)
    ltac:(unfold buf_ok, UINT32_MAX; cbn; lia) Hrep) as H.
  destruct (replace_loop _ _ _ _ _ _ _ _ _ _) as [[[o b] flag] n' | msg | |]; try done.
  destruct H as (Ho & Hb & Heq & Hflag). cbn [out_data app] in Heq. destruct flag; cbn [negb].
  - rewrite u32_in_range by lia. rewrite slice_read by lia. unfold get.
    pose proof (append_bytes_ok oom b (slice hay o (zlen hay)) Hb n') as H.
    destruct (regexp_append_bytes oom b _ n') as [[b1|] n1 | | |]; try done; rewrite <- Heq in H.
    + by rewrite (proj2 H).
    + cbn. by split.
  - destruct (Hflag eq_refl) as (_ & -> & ->). cbn in Heq. by rewrite Heq, slice_all.
Qed.

(** There is one text with the matches replaced. *)
Lemma replaced_det {code} (pcre2_match : code -> list Z -> Z -> Z -> Z * list Z) c hay items offset out out' :
  replaced pcre2_match c hay items offset out -> replaced pcre2_match c hay items offset out' -> out = out'.
Proof.
  intros H. revert out'. induction H as [offset rc ovec E Hrc | offset rc ovec s e out E Hrc Hs He _ IH];
    intros out' H'; inversion H' as [? ? ? E' | ? ? ? ? ? ? E']; subst; rewrite E in E'; simplify_eq; try done; try lia.
  f_equal. f_equal. by apply IH.
Qed.

(** A matcher that looks for one byte. *)
Fixpoint index_of (c : Z) (l : list Z) (i : Z) : option Z :=
  match l with [] => None | x :: l => if x =? c then Some i else index_of c l (i + 1) end.

Definition match_byte (c : Z) (hay : list Z) (offset options : Z) : Z * list Z :=
  match index_of c (drop (Z.to_nat offset) hay) offset with
  | Some i => (1, [i; i + 1])
  | None => (-1, [])
  end.

(** "xax" with each "a" replaced by "$$<$0>". *)
Lemma replace_spec_witness :
  (exists items, template [36; 36; 60; 36; 48; 62] items) /\
  forall items, template [36; 36; 60; 36; 48; 62] items -> exists out, replaced match_byte 97 [120; 97; 120] items 0 out /\
    match jdll_std_regexp_replace match_byte (fun _ => false) [120; 97; 120] (Some (mk_regexp 97 [97] []))
      [36; 36; 60; 36; 48; 62] 0 with
    | Val r _ => r = RBytes out
    | Fail msg => no_room (fun _ => false) out msg
    | _ => False
    end.
Proof.
  apply (replace_spec match_byte (fun _ => false) (mk_regexp 97 [97] [])); [done|].
  intros offset rc ovec Ho E Hrc.
  assert (Hi : offset = 0 \/ offset = 1 \/ offset = 2 \/ offset = 3) by (change (zlen _) with 3 in Ho; lia).
  destruct Hi as [-> | [-> | [-> | ->]]]; vm_compute in E; injection E as <- <-; try lia; split.
  + split; [done|]. intros i Hi. assert (i = 0) as -> by lia. exists 1, 2. split_and!; try done. right. done.
  + by exists 1, 2.
  + split; [done|]. intros i Hi. assert (i = 0) as -> by lia. exists 1, 2. split_and!; try done. right. done.
  + by exists 1, 2.
Defined.

(** ** Escaping *)

Definition escaped (data : list Z) : list Z :=
  flat_map (fun c => if regexp_is_special c then [BACKSLASH; c] else [c]) data.

(** A pattern of literals: the bytes it stands for. *)
Fixpoint read_literals (pat : list Z) : option (list Z) :=
  match pat with
  | [] => Some []
  | c :: rest =>
    if c =? BACKSLASH then
      match rest with
      | d :: rest => if regexp_is_special d then l ← read_literals rest; Some (d :: l) else None
      | [] => None
      end
    else if regexp_is_special c then None else l ← read_literals rest; Some (c :: l)
  end.

Lemma read_literals_escaped data : read_literals (escaped data) = Some data.
Proof.
  induction data as [|c data IH]; [done|]. unfold escaped. cbn [flat_map]. fold (escaped data).
  destruct (regexp_is_special c) eqn:E; cbn [app read_literals].
  - by rewrite Z.eqb_refl, E, IH.
  - destruct (Z.eqb_spec c BACKSLASH) as [->|]; [done|]. by rewrite E, IH.
Qed.

Lemma zlen_escape_step c out :
  zlen out + 1 <= zlen (out ++ (if regexp_is_special c then [BACKSLASH; c] else [c])) <= zlen out + 2.
Proof. rewrite zlen_app. destruct (regexp_is_special c); unfold zlen; cbn; lia. Qed.

Lemma escape_loop_fits cap data : forall out n, zlen out + 2 * zlen data <= cap ->
  escape_loop cap data out n = Val (out ++ escaped data) n.
Proof.
  induction data as [|c data IH]; intros out n H; cbn [escape_loop]; [cbn; by rewrite app_nil_r|].
  rewrite zlen_cons in H. pose proof (zlen_escape_step c out). pose proof (zlen_nonneg data).
  rewrite (proj2 (Z.ltb_ge cap _)) by lia. rewrite IH by lia. by rewrite <- app_assoc.
Qed.

Lemma escape_loop_overruns cap data : forall out n, zlen out <= cap < zlen out + zlen data ->
  escape_loop cap data out n = Undef.
Proof.
  induction data as [|c data IH]; intros out n H; cbn [escape_loop]; [rewrite zlen_nil in H; lia|].
  rewrite zlen_cons in H. pose proof (zlen_escape_step c out).
  destruct (Z.ltb_spec cap (zlen (out ++ (if regexp_is_special c then [BACKSLASH; c] else [c])))); [done|]. apply IH. lia.
Qed.

(** The escaped form of fewer than 2^31 bytes is written inside the memory reserved for it
    and reads, byte for byte, as the literals it was made of. *)
Theorem escape_roundtrip (oom : Z -> bool) (data : list Z) n (Hlen : zlen data < 2 ^ 31) (Hmem : oom n = false) :
  exists out n', jdll_std_regexp_escape_literal (code := unit) oom data n = Val (RBytes out) n' /\
    read_literals out = Some data.
Proof.
  exists (escaped data). unfold jdll_std_regexp_escape_literal. pose proof (zlen_nonneg data).
  destruct (Z.eqb_spec (zlen data) 0).
  { destruct data; [by exists n|]. rewrite zlen_cons in *. pose proof (zlen_nonneg data). lia. }
  exists (n + 1). split; [|apply read_literals_escaped].
  unfold alloc_or, alloc, mbind, R_bind. rewrite Hmem. cbn [negb mret R_ret].
  rewrite escape_loop_fits; [done|]. rewrite zlen_nil, !u32_in_range; rewrite ?u32_in_range; unfold UINT32_MAX; lia.
Qed.

Lemma escape_roundtrip_witness :
  exists out n', jdll_std_regexp_escape_literal (code := unit) (fun _ => false) [97; 46; 92] 0 = Val (RBytes out) n' /\
    read_literals out = Some [97; 46; 92].
Proof. by apply (escape_roundtrip (fun _ => false) [97; 46; 92] 0). Defined.

(** From 2^31 bytes on the size of the memory wraps, and the bytes are written past its
    end. *)
Lemma escape_overruns {code} (oom : Z -> bool) (data : list Z) n : 2 ^ 31 <= zlen data < UINT32_MAX -> oom n = false ->
  jdll_std_regexp_escape_literal (code := code) oom data n = Undef.
Proof.
  intros Hlen Hmem. unfold jdll_std_regexp_escape_literal, UINT32_MAX in *.
  rewrite (proj2 (Z.eqb_neq _ 0)) by lia. unfold alloc_or, alloc, mbind, R_bind. rewrite Hmem. cbn [negb mret R_ret].
  rewrite escape_loop_overruns; [done|]. rewrite zlen_nil.
  replace (u32 (u32 (zlen data * 2) + 1)) with (zlen data * 2 + 1 - 2 ^ 32); [lia|].
  unfold u32, wrapU. zdiv.
Qed.

(** ** What goes wrong *)

(** A matcher of the empty pattern. *)
Definition match_empty (c : unit) (hay : list Z) (offset options : Z) : Z * list Z := (1, [offset; offset]).

(** The byte at the end of an empty match is lost: "ab" with "-" put between its bytes is
    "---". *)
Lemma empty_match_drops_byte : jdll_std_regexp_replace match_empty (fun _ => false) [97; 98]
  (Some (mk_regexp tt [] [])) [45] 0 = Val (RBytes [45; 45; 45]) 2.
Proof. reflexivity. Qed.

(** A number of two digits that is no group leaves its second digit: "$99" for "a" writes "9". *)
Lemma large_group_leaves_digit : jdll_std_regexp_replace match_byte (fun _ => false) [97]
  (Some (mk_regexp 97 [97] [])) [36; 57; 57] 0 = Val (RBytes [57]) 2.
Proof. reflexivity. Qed.

(** [jdll_std_regexp_advance] drops as many bytes as the match is long, also where the match
    did not start at the first byte. *)
Lemma advance_ignores_start : jdll_std_regexp_advance (code := unit) [120; 97; 98] (Some (mk_match 1 2 3 [(1, 1)])) =
  RBytes [97; 98].
Proof. reflexivity. Qed.
