(* ===== verification/Strutil.v ===== *)
(** * Strings of UTF-16 code units

    Model of src/src/types/strutil.c.  A [uchar*] is the list of the units from the
    pointer to the end of its memory, the terminating 0 included; reading past it is
    [None].  [strtod] and the [snprintf] of floats are C library functions; uprintf
    only prints and is left out.

    UTF-16 text becomes UTF-8 text, inside the buffer; decimal numbers are read back. *)

From Stdlib Require Import String.
From S2P Require Import Prelude CInt Memory Unicode.
#[local] Open Scope list_scope.
#[local] Open Scope Z_scope.

Definition JELLO_UTOD_MAX_PREFIX : nat := 30.
Definition JELLO_UTOI_MAX_DIGITS : nat := 16.

(** ** Lengths, copies, comparison *)

(** The number of UTF-8 bytes; a surrogate skips the next unit, whatever it is. *)
Fixpoint utf8_len_loop (fuel : nat) (str : list Z) (n : Z) : option Z :=
  match fuel with
  | O => None
  | S fuel' =>
      c ← str @! 0;
      let rest := drop 1 str in
      if c =? 0 then Some n else
      if c <? 0x80 then utf8_len_loop fuel' rest (n + 1) else
      if c <? 0x800 then utf8_len_loop fuel' rest (n + 2) else
      if (0xD800 <=? c) && (c <=? 0xDFFF) then
        _ ← rest @! 0; utf8_len_loop fuel' (drop 1 rest) (n + 4)
      else utf8_len_loop fuel' rest (n + 3)
  end.

Definition utostr_utf8_len (str : list Z) : option Z := utf8_len_loop (S (length str)) str 0.

Fixpoint ustrlen (str : list Z) : option Z :=
  match str with
  | [] => None
  | c :: str' => if c =? 0 then Some 0 else n ← ustrlen str'; Some (n + 1)
  end.

Definition ustrdup (str : list Z) : option (list Z) :=
  len ← ustrlen str; block_read str 0 (len + 1).

Fixpoint ucmp (a b : list Z) : option Z :=
  match a, b with
  | ca :: a', cb :: b' =>
      let d := ca - cb in
      if negb (d =? 0) then Some d else if ca =? 0 then Some 0 else ucmp a' b'
  | _, _ => None
  end.

(** ** Numbers *)

Definition is_digit (c : Z) : bool := (48 <=? c) && (c <=? 57).

(** [utoi]'s loop: at most [n] more digits from [p]; the sum, the digits read and the
    position. *)
Fixpoint digits_loop (n : nat) (p : list Z) (acc : Z) (ndigits : Z) : option (Z * Z) :=
  match n with
  | O => Some (acc, ndigits)
  | S n' =>
      c ← p @! 0;
      if negb (is_digit c) then Some (acc, ndigits)
      else digits_loop n' (drop 1 p) (acc * 10 + (c - 48)) (ndigits + 1)
  end.

(** The number and how far [*end] is behind [str]. *)
Definition utoi (str : list Z) : option (Z * Z) :=
  c0 ← str @! 0;
  let sign := (c0 =? 45) || (c0 =? 43) in
  let neg := c0 =? 45 in
  let p := if sign then drop 1 str else str in
  let consumed := if sign then 1 else 0 in
  '(acc, ndigits) ← digits_loop (JELLO_UTOI_MAX_DIGITS - Z.to_nat consumed) p 0 0;
  if ndigits =? 0 then Some (0, 0) else
  Some (i32 (if neg then - acc else acc), consumed + ndigits).

Definition utod_unit (c : Z) : bool :=
  (u32 (c - 48) <=? 9) || (c =? 46) || (c =? 101) || (c =? 69) || (c =? 45) || (c =? 43).

(** The prefix copied for [strtod]. *)
Fixpoint utod_prefix (n : nat) (p : list Z) : option (list Z) :=
  match n with
  | O => Some []
  | S n' =>
      c ← p @! 0;
      if negb (utod_unit c) then Some [] else rest ← utod_prefix n' (drop 1 p); Some (c :: rest)
  end.

(** [strtod s] is the pattern of the number and the bytes of [s] it took; a null
    [str] yields 0.0. *)
Definition utod (strtod : list Z -> Z * Z) (str : option (list Z)) : option (Z * Z) :=
  match str with
  | None => Some (0, 0)
  | Some str =>
      c0 ← str @! 0;
      if negb (utod_unit c0) then Some (0, 0) else
      buf ← utod_prefix JELLO_UTOD_MAX_PREFIX str;
      Some (strtod buf)
  end.

(** Digits of [v], least first, into [tmp]; then reversed. [None]: more than [fuel]
    digits, which would leave [tmp]. *)
Fixpoint digits (fuel : nat) (base : Z) (digit : Z -> Z) (v : Z) : option (list Z) :=
  match fuel with
  | O => None
  | S fuel' =>
      let d := digit (v mod base) in
      let v := v / base in
      if v =? 0 then Some [d] else rest ← digits fuel' base digit v; Some (d :: rest)
  end.

Definition to_digits (fuel : nat) (base : Z) (digit : Z -> Z) (v : Z) : option (list Z) :=
  l ← digits fuel base digit v; Some (rev l).

Definition dec_digit (d : Z) : Z := 48 + d.
Definition hex_digit (upper : bool) (d : Z) : Z :=
  if d <? 10 then 48 + d else (if upper then 65 else 97) + (d - 10).

Definition u32_to_dec (v : Z) : option (list Z) := to_digits 10 10 dec_digit v.
Definition u64_to_dec (v : Z) : option (list Z) := to_digits 20 10 dec_digit v.
Definition u32_to_hex (v : Z) (upper : bool) : option (list Z) := to_digits 8 16 (hex_digit upper) v.
Definition uptr_to_hex (v : Z) (upper : bool) : option (list Z) := to_digits 16 16 (hex_digit upper) v.

(** ** UTF-16 to UTF-8 *)

(** The ASCII prefix: what is written, and where it stops; [room] bytes are left. *)
Fixpoint ascii_loop (room : nat) (str : list Z) : option (list Z * list Z) :=
  match room with
  | O => Some ([], str)
  | S room' =>
      c ← str @! 0;
      if (c =? 0) || (0x80 <=? c) then Some ([], str) else
      '(out, rest) ← ascii_loop room' (drop 1 str); Some (c :: out, rest)
  end.

(** The general loop; [room] is [end - out]. *)
Fixpoint utostr_loop (fuel : nat) (room : Z) (str : list Z) : option (list Z) :=
  if room <=? 0 then Some [] else
  match fuel with
  | O => None
  | S fuel' =>
      c ← str @! 0;
      let str := drop 1 str in
      if c =? 0 then Some [] else
      if c <? 0x80 then rest ← utostr_loop fuel' (room - 1) str; Some (c :: rest) else
      if c <? 0x800 then
        if room <? 2 then Some [] else
        rest ← utostr_loop fuel' (room - 2) str;
        Some (u8 (Z.lor 0xC0 (Z.shiftr c 6)) :: u8 (Z.lor 0x80 (Z.land c 63)) :: rest)
      else if (0xD800 <=? c) && (c <=? 0xDFFF) then
        if room <? 4 then Some [] else
        d ← str @! 0;
        let full := u32 (Z.lor (u32 (Z.shiftl (c - 0xD800) 10)) (u32 (d - 0xDC00)) + 0x10000) in
        rest ← utostr_loop fuel' (room - 4) (drop 1 str);
        Some (u8 (Z.lor 0xF0 (Z.shiftr full 18)) :: u8 (Z.lor 0x80 (Z.land (Z.shiftr full 12) 63)) ::
              u8 (Z.lor 0x80 (Z.land (Z.shiftr full 6) 63)) :: u8 (Z.lor 0x80 (Z.land full 63)) :: rest)
      else
        if room <? 3 then Some [] else
        rest ← utostr_loop fuel' (room - 3) str;
        Some (u8 (Z.lor 0xE0 (Z.shiftr c 12)) :: u8 (Z.lor 0x80 (Z.land (Z.shiftr c 6) 63)) ::
              u8 (Z.lor 0x80 (Z.land c 63)) :: rest)
  end.

(** The bytes written, the final 0 among them, and what is returned. *)
Definition utostr (out_size : Z) (str : list Z) : option (list Z * Z) :=
  if out_size <=? 0 then Some ([], 0) else
  '(ascii, str) ← ascii_loop (Z.to_nat (out_size - 1)) str;
  rest ← utostr_loop (S (length str)) (out_size - 1 - zlen ascii) str;
  let out := ascii ++ rest in
  Some (out ++ [0], zlen out).

(** ** Formatting *)

(** An argument of the list, as [va_arg] takes it. *)
Inductive va : Set :=
| VaStr (s : option (list Z))
| VaInt (v : Z)
| VaInt64 (v : Z)
| VaUint (v : Z)
| VaPtr (v : Z)
| VaDouble (bits : Z).

(** [jello_fatal] ends the process; [None] elsewhere is an access outside a buffer or
    an argument of another type than the format says. *)
Inductive formatted : Set :=
| Formatted (out : list Z)
| Fatal.

(** The units up to the terminator, as far as there is room. *)
Fixpoint copy_str (room : nat) (s : list Z) : option (list Z) :=
  match room with
  | O => Some []
  | S room' => c ← s @! 0; if c =? 0 then Some [] else rest ← copy_str room' (drop 1 s); Some (c :: rest)
  end.

(** [n] bytes of [tmp] as far as there is room. [None]: past the end of [tmp]. *)
Definition append_ascii (room : Z) (tmp : list Z) (n : Z) : option (list Z) :=
  block_read tmp 0 (Z.min n (Z.max 0 room)).

Definition ascii_units (s : string) : list Z :=
  (fun c => Z.of_nat (Ascii.nat_of_ascii c)) <$> list_ascii_of_string s.

Section Format.
(** The text of a double in the formats f and g. *)
Context (format_float : Z -> Z -> list Z).

(** [snprintf(tmp, 64, ...)]: [tmp] gets 63 bytes and a 0, the size returned is that
    of the whole text. *)
Definition snprintf_tmp (t : list Z) : list Z * Z := (take 63 t ++ [0], zlen t).

(** [tmp] and [size]; [None] of the inner option is the fatal error. *)
Definition convert_arg (spec : Z) (is_long : bool) (args : list va)
  : option (option (list Z * Z) * list va) :=
  if spec =? 100 then                                    (* d *)
    match is_long, args with
  | true, VaInt64 v :: args =>
    t ← u64_to_dec (if v <? 0 then u64 (0 - u64 v) else u64 v);
    let t := if v <? 0 then 45 :: t else t in Some (Some (t, zlen t), args)
  | false, VaInt v :: args =>
    t ← u32_to_dec (if v <? 0 then u32 (0 - u32 v) else u32 v);
    let t := if v <? 0 then 45 :: t else t in Some (Some (t, zlen t), args)
  | _, _ => None
  end
  else if (spec =? 102) || (spec =? 103) then            (* f, g *)
    match args with
  | VaDouble b :: args => Some (Some (snprintf_tmp (format_float spec b)), args)
  | _ => None
  end
  else if (spec =? 120) || (spec =? 88) then             (* x, X *)
    match is_long, args with
  | true, VaPtr v :: args => t ← uptr_to_hex v (spec =? 88); Some (Some (t, zlen t), args)
  | false, VaUint v :: args => t ← u32_to_hex v (spec =? 88); Some (Some (t, zlen t), args)
  | _, _ => None
  end
  else Some (None, args).

(** The loop: [room] is [end - out]. *)
Fixpoint format_loop (fuel : nat) (room : Z) (fmt : list Z) (args : list va) : option formatted :=
  if room <=? 0 then Some (Formatted []) else
  match fuel with
  | O => None
  | S fuel' =>
    let emit (out : list Z) (fmt : list Z) (args : list va) : option formatted :=
    r ← format_loop fuel' (room - zlen out) fmt args;
    Some (match r with Formatted l => Formatted (out ++ l) | Fatal => Fatal end) in
    c ← fmt @! 0;
    let fmt := drop 1 fmt in
    if c =? 0 then Some (Formatted []) else
    if negb (c =? 37) then emit [c] fmt args else
    spec ← fmt @! 0;
    let fmt := drop 1 fmt in
    if spec =? 0 then Some (Formatted []) else
    if spec =? 37 then emit [37] fmt args else
    if (spec =? 46) || is_digit spec then Some Fatal else
    '(is_long, spec, fmt) ←
    (if spec =? 108 then s ← fmt @! 0; Some (true, s, drop 1 fmt) else Some (false, spec, fmt));
    if spec =? 0 then Some (Formatted []) else
    if spec =? 115 then                                  (* s *)
      match args with
    | VaStr s :: args =>
      out ← copy_str (Z.to_nat room) (default (ascii_units "(null)" ++ [0]) s); emit out fmt args
    | _ => None
    end
    else
    '(text, args) ← convert_arg spec is_long args;
    match text with
    | None => Some Fatal
    | Some (tmp, size) => out ← append_ascii room tmp size; emit out fmt args
    end
  end.

(** The units written, without the final 0. *)
Definition uvszprintf (out_size : Z) (fmt : list Z) (args : list va) : option formatted :=
  if out_size <=? 0 then Some (Formatted []) else format_loop (S (length fmt)) (out_size - 1) fmt args.

Definition usprintf := uvszprintf.
End Format.

Example format_ld :
  uvszprintf (fun _ _ => []) 32 (ascii_units "x=%ld,%X%%" ++ [0]) [VaInt64 (-12); VaUint 255] =
  Some (Formatted (ascii_units "x=-12,FF%")).
Proof. by vm_compute. Qed.

(** * Strings: what the conversions write *)

(** ** Bounds *)

Lemma ascii_loop_bound room str out rest : ascii_loop room str = Some (out, rest) -> zlen out <= Z.of_nat room.
Proof.
  revert str out rest. induction room as [|room IH]; intros str out rest; cbn [ascii_loop].
  { by intros [= <- <-]. }
  destruct (str @! 0) as [c|]; [|done]. cbn [mbind option_bind].
  case_if; [intros [= <- <-]; rewrite zlen_nil; lia|].
  destruct (ascii_loop room (drop 1 str)) as [[o r]|] eqn:E; [|done]. cbn [mbind option_bind]. intros [= <- <-].
  apply IH in E. rewrite zlen_cons. lia.
Qed.

Lemma utostr_loop_bound fuel room str out : utostr_loop fuel room str = Some out -> zlen out <= Z.max 0 room.
Proof.
  revert room str out. induction fuel as [|fuel IH]; intros room str out; cbn [utostr_loop];
    destruct (Z.leb_spec room 0); try done; try (intros [= <-]; rewrite zlen_nil; lia).
  destruct (str @! 0) as [c|]; [|done]. cbn [mbind option_bind].
  assert (Hend : Some [] = Some out -> zlen out <= Z.max 0 room) by (intros [= <-]; rewrite zlen_nil; lia).
  assert (Hrec : forall k s bs (n := zlen bs), k = n -> n <= room ->
    (rest ← utostr_loop fuel (room - k) s; Some (bs ++ rest)) = Some out -> zlen out <= Z.max 0 room).
  { intros k s bs n -> Hn. destruct (utostr_loop fuel (room - n) s) as [r|] eqn:E; [|done].
    cbn [mbind option_bind]. intros [= <-]. apply IH in E. rewrite zlen_app. fold n. lia. }
  repeat (case_if; [bool_hyps; try done; try (apply (Hrec 1 _ [c]); [done | rewrite zlen_cons, zlen_nil; lia])|]); bool_hyps.
  - apply (Hrec 2 _ [_; _]); [done | rewrite !zlen_cons, zlen_nil; lia].
  - destruct (drop 1 str @! 0) as [d|]; [|done]. cbn [mbind option_bind].
    apply (Hrec 4 _ [_; _; _; _]); [done | rewrite !zlen_cons, zlen_nil; lia].
  - apply (Hrec 3 _ [_; _; _]); [done | rewrite !zlen_cons, zlen_nil; lia].
Qed.

Lemma utostr_bound out_size str out n : utostr out_size str = Some (out, n) -> 0 < out_size ->
  zlen out = n + 1 /\ n < out_size.
Proof.
  unfold utostr. intros H Hs. rewrite (proj2 (Z.leb_gt _ _) Hs) in H.
  destruct (ascii_loop _ str) as [[o rest]|] eqn:E; [|done]. cbn [mbind option_bind] in H.
  destruct (utostr_loop _ _ rest) as [r|] eqn:E2; [|done]. cbn [mbind option_bind] in H. injection H as <- <-.
  apply ascii_loop_bound in E. apply utostr_loop_bound in E2. rewrite !zlen_app, zlen_cons, zlen_nil. lia.
Qed.

(** ** Texts *)

Lemma znth_0 {A} (x : A) l : (x :: l) @! 0 = Some x.
Proof. done. Qed.

(** The UTF-16 units of a code point, and of a text with its terminator and whatever
    follows in memory. *)
Definition utf16_of (cp : Z) : list Z :=
  if cp <? 0x10000 then [cp] else [0xD800 + (cp - 0x10000) / 1024; 0xDC00 + (cp - 0x10000) mod 1024].

Definition utf16 (cps post : list Z) : list Z := mbind utf16_of cps ++ 0 :: post.

(** Code points a string can hold. *)
Definition char (cp : Z) : Prop := scalar cp /\ cp <> 0.

Lemma utf16_cons cp cps post : utf16 (cp :: cps) post = utf16_of cp ++ utf16 cps post.
Proof. unfold utf16. cbn. by rewrite <- app_assoc. Qed.

(** The bytes of the source are the encoding. *)
Lemma encode_bytes cp : scalar cp ->
  (0x80 <= cp < 0x800 -> enc cp = [u8 (Z.lor 0xC0 (Z.shiftr cp 6)); u8 (Z.lor 0x80 (Z.land cp 63))]) /\
  (0x800 <= cp < 0x10000 -> enc cp = [u8 (Z.lor 0xE0 (Z.shiftr cp 12));
     u8 (Z.lor 0x80 (Z.land (Z.shiftr cp 6) 63)); u8 (Z.lor 0x80 (Z.land cp 63))]) /\
  (0x10000 <= cp -> enc cp = [u8 (Z.lor 0xF0 (Z.shiftr cp 18));
     u8 (Z.lor 0x80 (Z.land (Z.shiftr cp 12) 63)); u8 (Z.lor 0x80 (Z.land (Z.shiftr cp 6) 63));
     u8 (Z.lor 0x80 (Z.land cp 63))]).
Proof.
  intros H. pose proof (utf8_encode_spec cp H) as E. pose proof H as [Hcp _]. revert E. unfold utf8_encode.
  rewrite (proj2 (valid_cp_spec cp ltac:(lia)) H). cbn [negb].
  intros E. split_and!; intros Hr; revert E; repeat (case_if; bool_hyps; try lia); intros E; injection E; congruence.
Qed.

Lemma surrogates cp : scalar cp -> 0x10000 <= cp ->
  u32 (Z.lor (u32 (Z.shiftl (0xD800 + (cp - 0x10000) / 1024 - 0xD800) 10))
             (u32 (0xDC00 + (cp - 0x10000) mod 1024 - 0xDC00)) + 0x10000) = cp.
Proof.
  intros [Hcp _] Hl. rewrite !(Z.add_comm _ (_ mod _)), !(Z.add_simpl_l), ?Z.add_simpl_r.
  replace (0xD800 + (cp - 0x10000) / 1024 - 0xD800) with ((cp - 0x10000) / 1024) by lia.
  rewrite (wrapU_id 32 (Z.shiftl _ _)) by (unfold is_u; rewrite Z.shiftl_mul_pow2 by lia; change (2 ^ 10) with 1024; change (2 ^ 32) with 4294967296; zdiv).
  rewrite (wrapU_id 32 (_ mod _)) by (unfold is_u; change (2 ^ 32) with 4294967296; zdiv).
  rewrite lor_high by (change (2 ^ 10) with 1024; zdiv). change (2 ^ 10) with 1024.
  rewrite wrapU_id by (unfold is_u; change (2 ^ 32) with 4294967296; zdiv). zdiv.
Qed.

Lemma utostr_loop_text fuel room cps post :
  Forall char cps -> zlen (text cps) <= room -> (length (utf16 cps post) <= fuel)%nat ->
  utostr_loop fuel room (utf16 cps post) = Some (text cps).
Proof.
  intros Hc. revert fuel room. induction Hc as [|cp cps [Hs Hne] _ IH]; intros fuel room Hr Hf.
  - destruct fuel as [|fuel]; [cbn in Hf; lia|]. cbn. by destruct (room <=? 0).
  - change (text (cp :: cps)) with (enc cp ++ text cps) in *. rewrite utf16_cons in *. rewrite zlen_app in Hr.
    pose proof (taken_for_length (enc cp) cp (or_introl eq_refl)) as He. pose proof (zlen_nonneg (text cps)).
    assert (Hlen : (1 <= length (utf16_of cp))%nat) by (unfold utf16_of; case_if; cbn; lia). rewrite length_app in Hf.
    destruct fuel as [|fuel]; [lia|]. cbn [utostr_loop]. rewrite (proj2 (Z.leb_gt _ _)) by (unfold zlen in *; lia).
    pose proof Hs as [Hcp Hsur]. destruct (encode_bytes cp Hs) as (E2 & E3 & E4).
    assert (Hrec : utostr_loop fuel (room - zlen (enc cp)) (utf16 cps post) = Some (text cps)) by (apply IH; unfold zlen in *; lia).
    unfold utf16_of. destruct (Z.ltb_spec cp 0x10000); cbn [app]; rewrite znth_0; cbn [mbind option_bind].
    + rewrite (proj2 (Z.eqb_neq _ _) Hne).
      change (drop 1 (cp :: utf16 cps post)) with (utf16 cps post).
      destruct (Z.ltb_spec cp 0x80) as [H80|H80].
      { assert (enc cp = [cp]) as Ec by (unfold enc; by rewrite (proj2 (Z.ltb_lt _ _) H80)).
        rewrite Ec in *. change (zlen [cp]) with 1 in Hrec. by rewrite Hrec. }
      destruct (Z.ltb_spec cp 0x800) as [H800|H800].
      { rewrite (E2 ltac:(lia)) in *. change (zlen [_; _]) with 2 in *.
        rewrite (proj2 (Z.ltb_ge _ _)) by lia. by rewrite Hrec. }
      replace ((0xD800 <=? cp) && (cp <=? 0xDFFF)) with false
        by (symmetry; apply andb_false_iff; rewrite Z.leb_gt, Z.leb_gt; lia).
      rewrite (E3 ltac:(lia)) in *. change (zlen [_; _; _]) with 3 in *.
      rewrite (proj2 (Z.ltb_ge _ _)) by lia. by rewrite Hrec.
    + set (hi := 0xD800 + (cp - 0x10000) / 1024). set (lo := 0xDC00 + (cp - 0x10000) mod 1024).
      assert (Hhi : 0xD800 <= hi <= 0xDBFF) by (unfold hi; zdiv).
      rewrite (proj2 (Z.eqb_neq _ _)), !(proj2 (Z.ltb_ge _ _)) by lia.
      rewrite (proj2 (Z.leb_le _ _)), (proj2 (Z.leb_le _ _)) by lia. cbn [andb].
      change (drop 1 (hi :: lo :: utf16 cps post)) with (lo :: utf16 cps post).
      change (drop 1 (lo :: utf16 cps post)) with (utf16 cps post).
      rewrite znth_0. cbn [mbind option_bind].
      rewrite (surrogates cp Hs H0 : u32 (Z.lor (u32 (Z.shiftl (hi - _) _)) (u32 (lo - _)) + _) = cp).
      rewrite (E4 ltac:(lia)) in *. change (zlen [_; _; _; _]) with 4 in *.
      rewrite (proj2 (Z.ltb_ge _ _)) by lia. by rewrite Hrec.
Qed.

Lemma ascii_loop_text room cps post :
  Forall char cps -> zlen (text cps) <= Z.of_nat room ->
  exists cps1 cps2, cps = cps1 ++ cps2 /\ ascii_loop room (utf16 cps post) = Some (text cps1, utf16 cps2 post).
Proof.
  intros Hc. revert room. induction Hc as [|cp cps [Hs Hne] Hc IH]; intros room Hr.
  { exists [], []. split; [done|]. by destruct room. }
  change (text (cp :: cps)) with (enc cp ++ text cps) in Hr. rewrite zlen_app in Hr.
  pose proof (taken_for_length (enc cp) cp (or_introl eq_refl)) as He. pose proof (zlen_nonneg (text cps)).
  destruct room as [|room]; [unfold zlen in *; lia|]. pose proof Hs as [Hcp _].
  assert (Hhead : exists c r, utf16_of cp = c :: r /\ (cp < 0x80 -> c = cp /\ r = []) /\ (0x80 <= cp -> 0x80 <= c)).
  { unfold utf16_of. destruct (Z.ltb_spec cp 0x10000); eexists _, _; (split; [reflexivity|]); (split; [intros; by (done || lia)|]);
      intros; [lia | zdiv]. }
  destruct Hhead as (c & r & Ec & Hlow & Hhigh). rewrite utf16_cons, Ec. cbn [app ascii_loop]. rewrite znth_0.
  cbn [mbind option_bind]. destruct (Z.ltb_spec cp 0x80) as [H80|H80].
  - destruct (Hlow H80) as [-> ->]. rewrite (proj2 (Z.eqb_neq _ _) Hne), (proj2 (Z.leb_gt _ _) H80). cbn [orb].
    destruct (IH room) as (cps1 & cps2 & -> & E); [unfold zlen in *; lia|].
    change (drop 1 (cp :: [] ++ utf16 (cps1 ++ cps2) post)) with (utf16 (cps1 ++ cps2) post). rewrite E.
    cbn [mbind option_bind]. exists (cp :: cps1), cps2. split; [done|]. do 2 f_equal.
    change (text (cp :: cps1)) with (enc cp ++ text cps1). unfold enc. by rewrite (proj2 (Z.ltb_lt _ _) H80).
  - rewrite (proj2 (Z.leb_le _ _) (Hhigh H80)), orb_true_r. exists [], (cp :: cps). split; [done|].
    by rewrite utf16_cons, Ec.
Qed.

Lemma utf8_len_text fuel n cps post :
  Forall char cps -> (length (utf16 cps post) <= fuel)%nat ->
  utf8_len_loop fuel (utf16 cps post) n = Some (n + zlen (text cps)).
Proof.
  intros Hc. revert fuel n. induction Hc as [|cp cps [Hs Hne] _ IH]; intros fuel n Hf.
  { destruct fuel as [|fuel]; [cbn in Hf; lia|]. cbn. by rewrite Z.add_0_r. }
  change (text (cp :: cps)) with (enc cp ++ text cps). rewrite utf16_cons in *. rewrite zlen_app, Z.add_assoc.
  rewrite length_app in Hf. pose proof Hs as [Hcp Hsur].
  assert (Hlen : (1 <= length (utf16_of cp))%nat) by (unfold utf16_of; case_if; cbn; lia).
  destruct fuel as [|fuel]; [lia|]. cbn [utf8_len_loop]. unfold enc, utf16_of.
  destruct (Z.ltb_spec cp 0x10000); cbn [app]; rewrite znth_0; cbn [mbind option_bind].
  - rewrite (proj2 (Z.eqb_neq _ _) Hne). change (drop 1 (cp :: utf16 cps post)) with (utf16 cps post).
    replace ((0xD800 <=? cp) && (cp <=? 0xDFFF)) with false
      by (symmetry; apply andb_false_iff; rewrite Z.leb_gt, Z.leb_gt; lia).
    repeat (case_if; [apply IH; lia|]). apply IH. lia.
  - set (hi := 0xD800 + (cp - 0x10000) / 1024). set (lo := 0xDC00 + (cp - 0x10000) mod 1024).
    assert (Hhi : 0xD800 <= hi <= 0xDBFF) by (unfold hi; zdiv).
    rewrite (proj2 (Z.eqb_neq _ _)), !(proj2 (Z.ltb_ge _ _)) by lia.
    rewrite (proj2 (Z.leb_le _ _)), (proj2 (Z.leb_le _ _)) by lia. cbn [andb].
    change (drop 1 (hi :: lo :: utf16 cps post)) with (lo :: utf16 cps post).
    change (drop 1 (lo :: utf16 cps post)) with (utf16 cps post).
    rewrite znth_0. cbn [mbind option_bind]. apply IH. lia.
Qed.

(** C34: a string of UTF-16 is converted to the UTF-8 of its text when the buffer has room
    for it and a terminator, which is written behind it; the length returned and the one
    computed beforehand are that of the text; and whatever the string, well formed or
    not, what is written, the terminator included, fits the buffer and is one byte longer
    than the length returned. *)
Theorem utostr_text out_size cps post :
  Forall char cps -> zlen (text cps) < out_size ->
  utostr out_size (utf16 cps post) = Some (text cps ++ [0], zlen (text cps)) /\
  utostr_utf8_len (utf16 cps post) = Some (zlen (text cps)) /\
  (forall str out n, utostr out_size str = Some (out, n) -> zlen out = n + 1 /\ n < out_size).
Proof.
  intros Hc Hr. pose proof (zlen_nonneg (text cps)). split_and!.
  - unfold utostr. rewrite (proj2 (Z.leb_gt _ _)) by lia.
    destruct (ascii_loop_text (Z.to_nat (out_size - 1)) cps post Hc) as (cps1 & cps2 & -> & ->); [lia|].
    cbn [mbind option_bind]. apply Forall_app in Hc as [_ Hc]. rewrite text_app, zlen_app in *.
    rewrite utostr_loop_text by (done || lia). cbn [mbind option_bind]. by rewrite zlen_app.
  - unfold utostr_utf8_len. by rewrite utf8_len_text by (done || lia).
  - intros str out n E. eapply utostr_bound; [exact E | lia].
Qed.

Lemma utostr_text_witness :
  utostr 12 (utf16 [0x41; 0x20AC; 0x1F600] [7]) =
    Some (text [0x41; 0x20AC; 0x1F600] ++ [0], zlen (text [0x41; 0x20AC; 0x1F600])) /\
  utostr_utf8_len (utf16 [0x41; 0x20AC; 0x1F600] [7]) = Some (zlen (text [0x41; 0x20AC; 0x1F600])) /\
  (forall str out n, utostr 12 str = Some (out, n) -> zlen out = n + 1 /\ n < 12).
Proof.
  apply (utostr_text 12 [0x41; 0x20AC; 0x1F600] [7]); [|reflexivity].
  repeat (constructor; [split; [split; lia | lia]|]). constructor.
Defined.

(** A lone surrogate at the end of a string takes the terminator with it: the
    conversion goes on in what lies behind. *)
Example lone_surrogate_overreads : utostr 32 [0xD800; 0] = None.
Proof. by vm_compute. Qed.

(** A float of more than 63 characters is read out of a buffer of 64. *)
Example long_float_overreads :
  uvszprintf (fun _ _ => replicate 70 48) 128 [37; 102; 0] [VaDouble 0] = None.
Proof. by vm_compute. Qed.

(** ** Numbers *)

(** The value of decimal digits, most significant first. *)
Definition dec_value (l : list Z) (acc : Z) : Z := fold_left (fun a c => a * 10 + (c - 48)) l acc.

Lemma dec_value_app l1 l2 acc : dec_value (l1 ++ l2) acc = dec_value l2 (dec_value l1 acc).
Proof. apply fold_left_app. Qed.

Lemma digits_spec fuel v : 0 <= v < 10 ^ Z.of_nat fuel -> (0 < fuel)%nat ->
  exists l, digits fuel 10 dec_digit v = Some l /\ (1 <= length l <= fuel)%nat /\
    Forall (fun c => is_digit c = true) l /\ dec_value (rev l) 0 = v.
Proof.
  revert v. induction fuel as [|fuel IH]; intros v Hv Hf; [lia|]. cbn [digits].
  pose proof (Z.mod_pos_bound v 10 ltac:(lia)) as Hm.
  assert (Hd : is_digit (dec_digit (v mod 10)) = true).
  { unfold is_digit, dec_digit. rewrite andb_true_iff, !Z.leb_le. lia. }
  destruct (Z.eqb_spec (v / 10) 0) as [E|E].
  - eexists. split; [done|]. cbn [length]. split; [lia|]. split; [by repeat constructor|].
    unfold dec_value, dec_digit. cbn. zdiv.
  - assert (Hfuel : (0 < fuel)%nat) by (destruct fuel; [cbn in Hv; zdiv | lia]).
    destruct (IH (v / 10)) as (l & -> & Hl & Hall & Hval); [|done|].
    { replace (Z.of_nat (S fuel)) with (Z.of_nat fuel + 1) in Hv by lia. rewrite Z.pow_add_r in Hv by lia.
      change (10 ^ 1) with 10 in Hv. generalize dependent (10 ^ Z.of_nat fuel). intros. zdiv. }
    cbn [mbind option_bind]. eexists. split; [done|]. cbn [length rev]. split; [lia|]. split; [by constructor|].
    rewrite dec_value_app, Hval. unfold dec_value, dec_digit. cbn. zdiv.
Qed.

Lemma digits_loop_spec n l post acc k :
  Forall (fun c => is_digit c = true) l -> (length l < n)%nat ->
  digits_loop n (l ++ 0 :: post) acc k = Some (dec_value l acc, k + zlen l).
Proof.
  intros H. revert n acc k. induction H as [|c l Hc _ IH]; intros n acc k Hn; destruct n as [|n]; cbn in Hn; try lia.
  - cbn. by rewrite Z.add_0_r.
  - cbn [app digits_loop]. rewrite znth_0. cbn [mbind option_bind]. rewrite Hc. cbn [negb].
    change (drop 1 (c :: l ++ 0 :: post)) with (l ++ 0 :: post). rewrite IH by lia. rewrite zlen_cons.
    do 2 f_equal. lia.
Qed.

(** A number is read back from its decimal digits. *)
Lemma utoi_u32_to_dec v post : 0 <= v < 2 ^ 31 ->
  exists t, u32_to_dec v = Some t /\ utoi (t ++ 0 :: post) = Some (v, zlen t).
Proof.
  intros Hv. destruct (digits_spec 10 v) as (l & E & Hl & Hall & Hval); [change (10 ^ Z.of_nat 10) with 10000000000; lia | lia|].
  exists (rev l). unfold u32_to_dec, to_digits. rewrite E. cbn [mbind option_bind]. split; [done|].
  assert (Hall' : Forall (fun c => is_digit c = true) (rev l)) by by apply Forall_rev.
  destruct (rev l) as [|c t] eqn:Er; [apply (f_equal length) in Er; rewrite length_rev in Er; cbn in Er; lia|].
  unfold utoi. cbn [app]. rewrite znth_0. cbn [mbind option_bind].
  apply Forall_cons in Hall' as Hc. destruct Hc as [Hc _]. unfold is_digit in Hc. bool_hyps.
  rewrite !(proj2 (Z.eqb_neq _ _)) by lia. cbn [orb].
  change (c :: t ++ 0 :: post) with ((c :: t) ++ 0 :: post). rewrite digits_loop_spec; [|done|].
  - cbn [mbind option_bind]. rewrite Hval, Z.add_0_l. rewrite (proj2 (Z.eqb_neq _ _)).
    + by rewrite wrapS_id by (unfold is_s; lia).
    + rewrite zlen_cons. pose proof (zlen_nonneg t). lia.
  - rewrite <- Er, length_rev. unfold JELLO_UTOI_MAX_DIGITS. cbn. lia.
Qed.
