(* ===== verification/JitIr.v ===== *)
(** * The intermediate code of the compiler

    Model of src/src/jit/jit_ir.c with the types of jit_impl.h: lowering of a
    bytecode function, with the analyses that find the callee of an indirect call
    and the constants nobody needs.  A [const jello_bc_function*] is its index in
    the module.  [grows n] says that the [realloc] of the instruction array to [n]
    entries succeeds. *)

From Stdlib Require Import String.
From S2P Require Import Prelude CInt Bytecode Vm Frame CallOps.

Open Scope string_scope.
Open Scope Z_scope.

(** ** Types *)

Inductive jello_jit_ir_op : Set :=
| JIR_NOP | JIR_MOV_REG | JIR_LOAD_I32 | JIR_LOAD_I64 | JIR_LOAD_F64 | JIR_LOAD_F32
| JIR_BIN_I32 | JIR_BIN_I64 | JIR_BIN_F32 | JIR_BIN_F64
| JIR_CMP_I32 | JIR_CMP_I64 | JIR_CMP_F32 | JIR_CMP_F64
| JIR_NEG_I32 | JIR_NEG_I64 | JIR_NEG_F64 | JIR_NEG_F32
| JIR_JMP | JIR_JMP_IF | JIR_RET | JIR_SLOW | JIR_CALL_SELF | JIR_CALL_DIRECT | JIR_FUEL_CHECK
| JIR_BYTES_NEW | JIR_BYTES_LEN | JIR_BYTES_EQ | JIR_BYTES_GET_U8 | JIR_BYTES_SET_U8
| JIR_BYTES_READ | JIR_BYTES_WRITE
| JIR_ARRAY_LEN | JIR_ARRAY_GET | JIR_ARRAY_SET | JIR_ARRAY_NEW
| JIR_OBJ_GET_ATOM | JIR_OBJ_SET_ATOM | JIR_OBJ_NEW | JIR_SQRT_F64 | JIR_LOAD_NULL | JIR_ASSERT
| JIR_CONST_BYTES | JIR_CONST_FUN | JIR_CLOSURE | JIR_CONV | JIR_SWITCH | JIR_SWITCH_CASE.

#[export] Instance jello_jit_ir_op_eq_dec : EqDecision jello_jit_ir_op.
Proof. solve_decision. Defined.

Inductive jello_jit_ir_bin : Set :=
| JIR_BIN_ADD | JIR_BIN_SUB | JIR_BIN_MUL | JIR_BIN_SDIV | JIR_BIN_MOD | JIR_BIN_SHL
| JIR_BIN_SHR | JIR_BIN_XOR.

Definition all_bins : list jello_jit_ir_bin :=
  [JIR_BIN_ADD; JIR_BIN_SUB; JIR_BIN_MUL; JIR_BIN_SDIV; JIR_BIN_MOD; JIR_BIN_SHL; JIR_BIN_SHR;
   JIR_BIN_XOR].

Definition code_of_bin (b : jello_jit_ir_bin) : Z :=
  match b with
  | JIR_BIN_ADD => 0 | JIR_BIN_SUB => 1 | JIR_BIN_MUL => 2 | JIR_BIN_SDIV => 3 | JIR_BIN_MOD => 4
  | JIR_BIN_SHL => 5 | JIR_BIN_SHR => 6 | JIR_BIN_XOR => 7
  end.

Inductive jello_jit_ir_cmp : Set := JIR_CMP_EQ | JIR_CMP_LT.

Definition code_of_cmp (c : jello_jit_ir_cmp) : Z :=
  match c with JIR_CMP_EQ => 0 | JIR_CMP_LT => 1 end.

Inductive jello_jit_conv : Set :=
| JIR_CONV_SEXT_I64 | JIR_CONV_SEXT_I16 | JIR_CONV_TRUNC_I8 | JIR_CONV_TRUNC_I16
| JIR_CONV_I32_FROM_I64 | JIR_CONV_F64_FROM_I32 | JIR_CONV_I32_FROM_F64 | JIR_CONV_F64_FROM_I64
| JIR_CONV_I64_FROM_F64 | JIR_CONV_F32_FROM_I32 | JIR_CONV_I32_FROM_F32 | JIR_CONV_F64_FROM_F32
| JIR_CONV_F32_FROM_F64 | JIR_CONV_F32_FROM_I64 | JIR_CONV_I64_FROM_F32.

Definition code_of_conv (c : jello_jit_conv) : Z :=
  match c with
  | JIR_CONV_SEXT_I64 => 0 | JIR_CONV_SEXT_I16 => 1 | JIR_CONV_TRUNC_I8 => 2
  | JIR_CONV_TRUNC_I16 => 3 | JIR_CONV_I32_FROM_I64 => 4 | JIR_CONV_F64_FROM_I32 => 5
  | JIR_CONV_I32_FROM_F64 => 6 | JIR_CONV_F64_FROM_I64 => 7 | JIR_CONV_I64_FROM_F64 => 8
  | JIR_CONV_F32_FROM_I32 => 9 | JIR_CONV_I32_FROM_F32 => 10 | JIR_CONV_F64_FROM_F32 => 11
  | JIR_CONV_F32_FROM_F64 => 12 | JIR_CONV_F32_FROM_I64 => 13 | JIR_CONV_I64_FROM_F32 => 14
  end.

(** [jello_jit_bytes_read_kind] and [jello_jit_bytes_write_kind]: the same order. *)
Inductive jello_jit_bytes_kind : Set :=
| JIT_U16_LE | JIT_U16_BE | JIT_U32_LE | JIT_U32_BE | JIT_I32_LE | JIT_I32_BE
| JIT_F32_LE | JIT_F32_BE.

Definition code_of_bytes_kind (k : jello_jit_bytes_kind) : Z :=
  match k with
  | JIT_U16_LE => 0 | JIT_U16_BE => 1 | JIT_U32_LE => 2 | JIT_U32_BE => 3
  | JIT_I32_LE => 4 | JIT_I32_BE => 5 | JIT_F32_LE => 6 | JIT_F32_BE => 7
  end.

Record jello_jit_ir_insn : Set := mk_ir {
  ir_op : jello_jit_ir_op;
  ir_a : Z;      (* uint16_t *)
  ir_b : Z;      (* uint16_t *)
  ir_c : Z;      (* uint16_t *)
  ir_imm : Z;    (* int32_t *)
  ir_pc : Z      (* uint32_t bc_pc *)
}.

Record jello_jit_ir_func : Set := mk_irf {
  ir_insns : list jello_jit_ir_insn;
  ir_nregs : Z;
  has_slow : bool;
  has_call_slow : bool;
  has_self_call : bool;
  has_direct_call : bool;
  nslow : Z;
  ir_ok : bool;
  reject_reason : option string
}.

Definition set_insns (l : list jello_jit_ir_insn) (ir : jello_jit_ir_func) : jello_jit_ir_func :=
  mk_irf l (ir_nregs ir) (has_slow ir) (has_call_slow ir) (has_self_call ir) (has_direct_call ir)
    (nslow ir) (ir_ok ir) (reject_reason ir).

Definition mark_slow (ir : jello_jit_ir_func) : jello_jit_ir_func :=
  mk_irf (ir_insns ir) (ir_nregs ir) true (has_call_slow ir) (has_self_call ir)
    (has_direct_call ir) (nslow ir) (ir_ok ir) (reject_reason ir).

Definition mark_self_call (ir : jello_jit_ir_func) : jello_jit_ir_func :=
  mk_irf (ir_insns ir) (ir_nregs ir) (has_slow ir) (has_call_slow ir) true
    (has_direct_call ir) (nslow ir) (ir_ok ir) (reject_reason ir).

Definition mark_direct_call (ir : jello_jit_ir_func) : jello_jit_ir_func :=
  mk_irf (ir_insns ir) (ir_nregs ir) (has_slow ir) (has_call_slow ir) (has_self_call ir)
    true (nslow ir) (ir_ok ir) (reject_reason ir).

(** [ir->has_call_slow = 1u] when [call], and [ir->nslow++]. *)
Definition count_slow (call : bool) (ir : jello_jit_ir_func) : jello_jit_ir_func :=
  mk_irf (ir_insns ir) (ir_nregs ir) (has_slow ir) (has_call_slow ir || call) (has_self_call ir)
    (has_direct_call ir) (u32 (nslow ir + 1)) (ir_ok ir) (reject_reason ir).

(** [ir.ok = 0], the reason, and [jello_jit_ir_func_free]. *)
Definition reject (why : string) (ir : jello_jit_ir_func) : jello_jit_ir_func :=
  mk_irf [] (ir_nregs ir) (has_slow ir) (has_call_slow ir) (has_self_call ir)
    (has_direct_call ir) (nslow ir) false (Some why).

Definition accept (ir : jello_jit_ir_func) : jello_jit_ir_func :=
  mk_irf (ir_insns ir) (ir_nregs ir) (has_slow ir) (has_call_slow ir) (has_self_call ir)
    (has_direct_call ir) (nslow ir) true (reject_reason ir).

(** ** Analyses *)

Definition is_op (w : jello_insn) (o : jello_op) : bool := i_op w =? code_of_op o.

Definition nop_insn : jello_insn := mk_insn 0 0 0 0 0.

Definition insn_at (f : jello_bc_function) (pc : Z) : jello_insn := zget nop_insn (f_insns f) pc.

Section Ir.
Context (m : jello_bc_module) (grows : Z -> bool).

Definition no_fun : jello_bc_function := mk_function 0 0 [] 0 [] 0 [] 0.

(** The function [&m->funcs[fi]]. *)
Definition fun_of (fi : Z) : jello_bc_function := zget no_fun (m_funcs m) fi.

Definition insn_is_self_const_fun (fi : Z) (ins : jello_insn) : bool :=
  if negb (is_op ins JOP_CONST_FUN) then false else
  if jello_is_native_builtin (i_imm ins) then false else
  let bidx := u32 (i_imm ins - JELLO_NATIVE_BUILTIN_COUNT) in
  (bidx <? m_nfuncs m) && (bidx =? fi).

(** The backward search for the definition of [cur]: a result of the whole
    analysis, a move from another register (with its position), or nothing. *)
Inductive def_search : Set :=
| Resolved (r : Z)
| Moved (cur : Z) (limit : nat)
| NoDef.

Fixpoint search_def (f : jello_bc_function) (cur : Z) (limit : nat) : def_search :=
  match limit with
  | O => NoDef
  | S j =>
    let w := insn_at f (Z.of_nat j) in
    if negb (i_a w =? cur) then search_def f cur j else
    if is_op w JOP_CONST_FUN || is_op w JOP_CLOSURE then
      if jello_is_native_builtin (i_imm w) || jello_is_jdll_prim (i_imm w) then Resolved (-1) else
    let bi := u32 (i_imm w - JELLO_NATIVE_BUILTIN_COUNT) in
    if m_nfuncs m <=? bi then Resolved (-1) else Resolved (i32 bi)
    else if is_op w JOP_MOV then Moved (i_b w) j
    else Resolved (-1)
  end.

Fixpoint prove_loop (f : jello_bc_function) (depth : nat) (cur : Z) (limit : nat) : Z :=
  match depth with
  | O => -1
  | S d =>
    match search_def f cur limit with
    | Resolved r => r
    | Moved cur' limit' => prove_loop f d cur' limit'
    | NoDef => -1
    end
  end.

Definition prove_reg_bytecode_fun (f : jello_bc_function) (reg before_pc : Z) : Z :=
  prove_loop f 8 reg (Z.to_nat before_pc).

Definition func_needs_captures (bidx : Z) : bool :=
  let want := u32 (bidx + JELLO_NATIVE_BUILTIN_COUNT) in
  existsb (fun g => existsb (fun w =>
    is_op w JOP_CLOSURE && (i_imm w =? want) && (0 <? i_c w)) (f_insns g)) (m_funcs m).

(** The loop over the instructions of [g], from [i] on: [None] is [return -1], the
    state is [(agreed, saw)]. *)
Fixpoint capture_sites (g : jello_bc_function) (want off i : Z) (ws : list jello_insn)
    (st : Z * bool) : option (Z * bool) :=
  match ws with
  | [] => Some st
  | w :: ws' =>
    if negb (is_op w JOP_CLOSURE) || negb (i_imm w =? want) then capture_sites g want off (i + 1) ws' st
    else if i_c w <=? off then None
    else
    let bi := prove_reg_bytecode_fun g (u32 (i_b w + off)) i in
    if bi <? 0 then None
    else if negb st.2 then capture_sites g want off (i + 1) ws' (bi, true)
    else if negb (st.1 =? bi) then None
    else capture_sites g want off (i + 1) ws' st
  end.

Fixpoint capture_funs (want off : Z) (gs : list jello_bc_function) (st : Z * bool)
  : option (Z * bool) :=
  match gs with
  | [] => Some st
  | g :: gs' => st' ← capture_sites g want off 0 (f_insns g) st; capture_funs want off gs' st'
  end.

Definition prove_capture_callee_bidx (fi : Z) (f : jello_bc_function) (callee_reg : Z) : Z :=
  if callee_reg <? f_cap_start f then -1 else
  let off := u32 (callee_reg - f_cap_start f) in
  let want := u32 (u32 fi + JELLO_NATIVE_BUILTIN_COUNT) in
  match capture_funs want off (m_funcs m) (-1, false) with
  | Some (agreed, true) => agreed
  | _ => -1
  end.

(** [na && dst >= first && dst < first + na]. *)
Definition in_args (dst first na : Z) : bool :=
  negb (na =? 0) && (first <=? dst) && (dst <? u32 (first + na)).

(** The backward search inside: is the nearest earlier instruction with this [a]
    a constant naming the function itself? *)
Fixpoint callee_is_self (fi : Z) (f : jello_bc_function) (dst : Z) (limit : nat) : bool :=
  match limit with
  | O => false
  | S j =>
    let prev := insn_at f (Z.of_nat j) in
    if negb (i_a prev =? dst) then callee_is_self fi f dst j else insn_is_self_const_fun fi prev
  end.

(** The checks after the calls: [false] is [return 0]. *)
Definition elidable_uses (fi dst : Z) (w : jello_insn) : bool :=
  if i_a w =? dst then
    if is_op w JOP_RET || is_op w JOP_JMP_IF then false else insn_is_self_const_fun fi w
  else if dst =? 0 then false
  else negb ((i_b w =? dst) || (i_c w =? dst)).

(** One round of the loop of [const_fun_self_elidable] at instruction [i]. *)
Definition elidable_at (fi : Z) (f : jello_bc_function) (pc dst i : Z) : bool :=
  let w := insn_at f i in
  let self_fi := u32 (u32 fi + JELLO_NATIVE_BUILTIN_COUNT) in
  if i =? pc then true else
  if is_op w JOP_CALLR && (i_b w =? dst) then
    if negb (callee_is_self fi f dst (Z.to_nat i)) then false
  else negb (in_args dst (i_imm w) (i_c w))
  else if is_op w JOP_CALL then
    if in_args dst (i_b w) (i_c w) then false else
  if i_imm w =? self_fi then true else elidable_uses fi dst w
  else if is_op w JOP_CALLR then
    if in_args dst (i_imm w) (i_c w) then false else elidable_uses fi dst w
  else if is_op w JOP_TAILCALL then
    if in_args dst (i_b w) (i_c w) then false else
  if i_imm w =? self_fi then true else elidable_uses fi dst w
  else if is_op w JOP_TAILCALLR then
    if in_args dst (i_imm w) (i_c w) then false else
  if i_b w =? dst then true else elidable_uses fi dst w
  else elidable_uses fi dst w.

Definition const_fun_self_elidable (fi : Z) (f : jello_bc_function) (pc : Z) : bool :=
  let ins := insn_at f pc in
  if negb (insn_is_self_const_fun fi ins) then false else
  forallb (fun i => elidable_at fi f pc (i_a ins) (Z.of_nat i)) (seq 0 (Z.to_nat (f_ninsns f))).

(** ** Lowering *)

Definition append_ir (ir : jello_jit_ir_func) (ins : jello_jit_ir_insn)
  : option jello_jit_ir_func :=
  let ir := if decide (ir_op ins = JIR_SLOW) then mark_slow ir else ir in
  if grows (zlen (ir_insns ir) + 1) then Some (set_insns (ir_insns ir ++ [ins]) ir) else None.

Definition bin_from_op (o : jello_op) : jello_jit_ir_bin :=
  match o with
  | JOP_ADD_I32 | JOP_ADD_I32_IMM | JOP_ADD_I64 | JOP_ADD_F32 | JOP_ADD_F64 => JIR_BIN_ADD
  | JOP_SUB_I32 | JOP_SUB_I32_IMM | JOP_SUB_I64 | JOP_SUB_F32 | JOP_SUB_F64 => JIR_BIN_SUB
  | JOP_MUL_I32 | JOP_MUL_I32_IMM | JOP_MUL_I64 | JOP_MUL_F32 | JOP_MUL_F64 => JIR_BIN_MUL
  | JOP_DIV_I32 | JOP_DIV_I64 | JOP_DIV_F32 | JOP_DIV_F64 => JIR_BIN_SDIV
  | JOP_MOD_I32 | JOP_MOD_I64 => JIR_BIN_MOD
  | JOP_SHL_I32 | JOP_SHL_I64 => JIR_BIN_SHL
  | JOP_SHR_I32 | JOP_SHR_I64 => JIR_BIN_SHR
  | JOP_BITXOR_I32 | JOP_BITXOR_I64 => JIR_BIN_XOR
  | _ => JIR_BIN_ADD
  end.

(** [lower_one] by the opcode: the instruction appended last, when it is a single
    one.  [imm] is the field read as [int32_t]. *)
Definition conv (k : jello_jit_conv) (pc : Z) (ins : jello_insn) : jello_jit_ir_insn :=
  mk_ir JIR_CONV (i_a ins) (i_b ins) 0 (code_of_conv k) pc.

Definition ir_abc (o : jello_jit_ir_op) (imm pc : Z) (ins : jello_insn) : jello_jit_ir_insn :=
  mk_ir o (i_a ins) (i_b ins) (i_c ins) imm pc.

Definition ir_ab (o : jello_jit_ir_op) (imm pc : Z) (ins : jello_insn) : jello_jit_ir_insn :=
  mk_ir o (i_a ins) (i_b ins) 0 imm pc.

Definition ir_a_only (o : jello_jit_ir_op) (imm pc : Z) (ins : jello_insn) : jello_jit_ir_insn :=
  mk_ir o (i_a ins) 0 0 imm pc.

Definition cmp_imm (eq : bool) : Z := code_of_cmp (if eq then JIR_CMP_EQ else JIR_CMP_LT).

(** The cases of [lower_one] that only fill in [out], by group: the instruction appended. *)
Definition lower_move (o : jello_op) (pc : Z) (ins : jello_insn) : option jello_jit_ir_insn :=
  let imm := i32 (i_imm ins) in
  match o with
  | JOP_NOP => Some (mk_ir JIR_NOP 0 0 0 0 pc)
  | JOP_RET => Some (ir_a_only JIR_RET 0 pc ins)
  | JOP_MOV => Some (ir_ab JIR_MOV_REG 0 pc ins)
  | JOP_JMP_IF => Some (ir_a_only JIR_JMP_IF (i32 pc + 1 + imm) pc ins)
  | _ => None
  end.

(** Constants. *)
Definition lower_const (o : jello_op) (pc : Z) (ins : jello_insn) : option jello_jit_ir_insn :=
  let imm := i32 (i_imm ins) in
  match o with
  | JOP_CONST_I32 => Some (ir_a_only JIR_LOAD_I32 imm pc ins)
  | JOP_CONST_I64 => Some (ir_a_only JIR_LOAD_I64 imm pc ins)
  | JOP_CONST_F64 => Some (ir_a_only JIR_LOAD_F64 imm pc ins)
  | JOP_CONST_F32 => Some (ir_a_only JIR_LOAD_F32 imm pc ins)
  | JOP_CONST_I8_IMM => Some (ir_a_only JIR_LOAD_I32 (i8 (i_c ins)) pc ins)
  | JOP_CONST_BOOL => Some (ir_a_only JIR_LOAD_I32 (Z.land (i_c ins) 1) pc ins)
  | JOP_CONST_NULL => Some (ir_a_only JIR_LOAD_NULL 0 pc ins)
  | JOP_CONST_BYTES => Some (ir_a_only JIR_CONST_BYTES imm pc ins)
  | _ => None
  end.

(** Arithmetic and comparisons. *)
Definition lower_arith (o : jello_op) (pc : Z) (ins : jello_insn) : option jello_jit_ir_insn :=
  let bin := code_of_bin (bin_from_op o) in
  match o with
  | JOP_NOT_BOOL => Some (mk_ir JIR_CMP_I32 (i_a ins) (i_b ins) 255 (code_of_cmp JIR_CMP_EQ) pc)
  | JOP_ADD_I32 | JOP_SUB_I32 | JOP_MUL_I32 | JOP_DIV_I32 | JOP_MOD_I32 | JOP_SHL_I32
  | JOP_SHR_I32 | JOP_BITXOR_I32 => Some (ir_abc JIR_BIN_I32 bin pc ins)
  | JOP_ADD_I64 | JOP_SUB_I64 | JOP_MUL_I64 | JOP_DIV_I64 | JOP_MOD_I64 | JOP_SHL_I64
  | JOP_SHR_I64 | JOP_BITXOR_I64 => Some (ir_abc JIR_BIN_I64 bin pc ins)
  | JOP_ADD_F64 | JOP_SUB_F64 | JOP_MUL_F64 | JOP_DIV_F64 => Some (ir_abc JIR_BIN_F64 bin pc ins)
  | JOP_ADD_F32 | JOP_SUB_F32 | JOP_MUL_F32 | JOP_DIV_F32 => Some (ir_abc JIR_BIN_F32 bin pc ins)
  | JOP_ADD_I32_IMM | JOP_SUB_I32_IMM | JOP_MUL_I32_IMM => Some (ir_abc JIR_BIN_I32 bin pc ins)
  | JOP_EQ_I32 => Some (ir_abc JIR_CMP_I32 (cmp_imm true) pc ins)
  | JOP_LT_I32 => Some (ir_abc JIR_CMP_I32 (cmp_imm false) pc ins)
  | JOP_EQ_I64 => Some (ir_abc JIR_CMP_I64 (cmp_imm true) pc ins)
  | JOP_LT_I64 => Some (ir_abc JIR_CMP_I64 (cmp_imm false) pc ins)
  | JOP_EQ_F64 => Some (ir_abc JIR_CMP_F64 (cmp_imm true) pc ins)
  | JOP_LT_F64 => Some (ir_abc JIR_CMP_F64 (cmp_imm false) pc ins)
  | JOP_EQ_F32 => Some (ir_abc JIR_CMP_F32 (cmp_imm true) pc ins)
  | JOP_LT_F32 => Some (ir_abc JIR_CMP_F32 (cmp_imm false) pc ins)
  | JOP_EQ_I32_IMM => Some (ir_abc JIR_CMP_I32 (cmp_imm true) pc ins)
  | JOP_LT_I32_IMM => Some (ir_abc JIR_CMP_I32 (cmp_imm false) pc ins)
  | JOP_NEG_I32 => Some (ir_ab JIR_NEG_I32 0 pc ins)
  | JOP_NEG_I64 => Some (ir_ab JIR_NEG_I64 0 pc ins)
  | JOP_NEG_F64 => Some (ir_ab JIR_NEG_F64 0 pc ins)
  | JOP_NEG_F32 => Some (ir_ab JIR_NEG_F32 0 pc ins)
  | _ => None
  end.

(** Conversions. *)
Definition lower_conv (o : jello_op) (pc : Z) (ins : jello_insn) : option jello_jit_ir_insn :=
  match o with
  | JOP_SEXT_I64 => Some (conv JIR_CONV_SEXT_I64 pc ins)
  | JOP_SEXT_I16 => Some (conv JIR_CONV_SEXT_I16 pc ins)
  | JOP_TRUNC_I8 => Some (conv JIR_CONV_TRUNC_I8 pc ins)
  | JOP_TRUNC_I16 => Some (conv JIR_CONV_TRUNC_I16 pc ins)
  | JOP_I32_FROM_I64 => Some (conv JIR_CONV_I32_FROM_I64 pc ins)
  | JOP_F64_FROM_I32 => Some (conv JIR_CONV_F64_FROM_I32 pc ins)
  | JOP_I32_FROM_F64 => Some (conv JIR_CONV_I32_FROM_F64 pc ins)
  | JOP_F64_FROM_I64 => Some (conv JIR_CONV_F64_FROM_I64 pc ins)
  | JOP_I64_FROM_F64 => Some (conv JIR_CONV_I64_FROM_F64 pc ins)
  | JOP_F32_FROM_I32 => Some (conv JIR_CONV_F32_FROM_I32 pc ins)
  | JOP_I32_FROM_F32 => Some (conv JIR_CONV_I32_FROM_F32 pc ins)
  | JOP_F64_FROM_F32 => Some (conv JIR_CONV_F64_FROM_F32 pc ins)
  | JOP_F32_FROM_F64 => Some (conv JIR_CONV_F32_FROM_F64 pc ins)
  | JOP_F32_FROM_I64 => Some (conv JIR_CONV_F32_FROM_I64 pc ins)
  | JOP_I64_FROM_F32 => Some (conv JIR_CONV_I64_FROM_F32 pc ins)
  | _ => None
  end.

(** Bytes. *)
Definition lower_bytes (o : jello_op) (pc : Z) (ins : jello_insn) : option jello_jit_ir_insn :=
  match o with
  | JOP_BYTES_NEW => Some (ir_ab JIR_BYTES_NEW 0 pc ins)
  | JOP_BYTES_LEN => Some (ir_ab JIR_BYTES_LEN 0 pc ins)
  | JOP_BYTES_GET_U8 => Some (ir_abc JIR_BYTES_GET_U8 0 pc ins)
  | JOP_BYTES_SET_U8 => Some (ir_abc JIR_BYTES_SET_U8 0 pc ins)
  | JOP_BYTES_READ_U16_LE => Some (ir_abc JIR_BYTES_READ (code_of_bytes_kind JIT_U16_LE) pc ins)
  | JOP_BYTES_READ_U16_BE => Some (ir_abc JIR_BYTES_READ (code_of_bytes_kind JIT_U16_BE) pc ins)
  | JOP_BYTES_READ_U32_LE => Some (ir_abc JIR_BYTES_READ (code_of_bytes_kind JIT_U32_LE) pc ins)
  | JOP_BYTES_READ_U32_BE => Some (ir_abc JIR_BYTES_READ (code_of_bytes_kind JIT_U32_BE) pc ins)
  | JOP_BYTES_READ_I32_LE => Some (ir_abc JIR_BYTES_READ (code_of_bytes_kind JIT_I32_LE) pc ins)
  | JOP_BYTES_READ_I32_BE => Some (ir_abc JIR_BYTES_READ (code_of_bytes_kind JIT_I32_BE) pc ins)
  | JOP_BYTES_READ_F32_LE => Some (ir_abc JIR_BYTES_READ (code_of_bytes_kind JIT_F32_LE) pc ins)
  | JOP_BYTES_READ_F32_BE => Some (ir_abc JIR_BYTES_READ (code_of_bytes_kind JIT_F32_BE) pc ins)
  | JOP_BYTES_WRITE_U16_LE => Some (ir_abc JIR_BYTES_WRITE (code_of_bytes_kind JIT_U16_LE) pc ins)
  | JOP_BYTES_WRITE_U16_BE => Some (ir_abc JIR_BYTES_WRITE (code_of_bytes_kind JIT_U16_BE) pc ins)
  | JOP_BYTES_WRITE_U32_LE => Some (ir_abc JIR_BYTES_WRITE (code_of_bytes_kind JIT_U32_LE) pc ins)
  | JOP_BYTES_WRITE_U32_BE => Some (ir_abc JIR_BYTES_WRITE (code_of_bytes_kind JIT_U32_BE) pc ins)
  | JOP_BYTES_WRITE_I32_LE => Some (ir_abc JIR_BYTES_WRITE (code_of_bytes_kind JIT_I32_LE) pc ins)
  | JOP_BYTES_WRITE_I32_BE => Some (ir_abc JIR_BYTES_WRITE (code_of_bytes_kind JIT_I32_BE) pc ins)
  | JOP_BYTES_WRITE_F32_LE => Some (ir_abc JIR_BYTES_WRITE (code_of_bytes_kind JIT_F32_LE) pc ins)
  | JOP_BYTES_WRITE_F32_BE => Some (ir_abc JIR_BYTES_WRITE (code_of_bytes_kind JIT_F32_BE) pc ins)
  | JOP_BYTES_EQ => Some (ir_abc JIR_BYTES_EQ 0 pc ins)
  | _ => None
  end.

(** Assertions, closures, arrays and objects. *)
Definition lower_heap (o : jello_op) (pc : Z) (ins : jello_insn) : option jello_jit_ir_insn :=
  let imm := i32 (i_imm ins) in
  match o with
  | JOP_ASSERT => Some (ir_abc JIR_ASSERT 0 pc ins)
  | JOP_CLOSURE => Some (ir_abc JIR_CLOSURE imm pc ins)
  | JOP_ARRAY_LEN => Some (ir_ab JIR_ARRAY_LEN 0 pc ins)
  | JOP_ARRAY_GET => Some (ir_abc JIR_ARRAY_GET 0 pc ins)
  | JOP_ARRAY_SET => Some (ir_abc JIR_ARRAY_SET 0 pc ins)
  | JOP_ARRAY_NEW => Some (ir_ab JIR_ARRAY_NEW 0 pc ins)
  | JOP_OBJ_GET_ATOM => Some (ir_ab JIR_OBJ_GET_ATOM imm pc ins)
  | JOP_OBJ_SET_ATOM => Some (ir_ab JIR_OBJ_SET_ATOM imm pc ins)
  | JOP_OBJ_NEW => Some (ir_a_only JIR_OBJ_NEW 0 pc ins)
  | _ => None
  end.

Definition lower_plain (o : jello_op) (pc : Z) (ins : jello_insn) : option jello_jit_ir_insn :=
  lower_move o pc ins ∪ lower_const o pc ins ∪ lower_arith o pc ins ∪ lower_conv o pc ins ∪
  lower_bytes o pc ins ∪ lower_heap o pc ins.

Definition slow_ir (pc : Z) : jello_jit_ir_insn := mk_ir JIR_SLOW 0 0 0 (i32 pc) pc.

(** The jump, behind a fuel check when it does not go forward.  The sum is one of
    [int32_t]; it stays in range for the targets the checker accepts. *)
Definition lower_jmp (pc : Z) (ins : jello_insn) (ir : jello_jit_ir_func)
  : option jello_jit_ir_func :=
  let target := i32 pc + 1 + i32 (i_imm ins) in
  ir ← (if target <=? i32 pc then append_ir ir (mk_ir JIR_FUEL_CHECK 0 0 0 0 pc) else Some ir);
  append_ir ir (mk_ir JIR_JMP 0 0 0 target pc).

Fixpoint lower_cases (f : jello_bc_function) (pc ci : Z) (n : nat) (ir : jello_jit_ir_func)
  : option jello_jit_ir_func :=
  match n with
  | O => Some ir
  | S n' =>
    let cins := insn_at f (u32 (pc + 1 + ci)) in
    if negb (is_op cins JOP_CASE_KIND) then None else
    ir ← append_ir ir (mk_ir JIR_SWITCH_CASE (i_a cins) 0 0 (i32 (i_imm cins)) pc);
    lower_cases f pc (ci + 1) n' ir
  end.

Definition lower_switch (f : jello_bc_function) (pc : Z) (ins : jello_insn)
    (ir : jello_jit_ir_func) : option jello_jit_ir_func :=
  let ncases := i_b ins in
  if f_ninsns f <? u32 (pc + 1 + ncases) then None else
  ir ← append_ir ir (mk_ir JIR_SWITCH (i_a ins) (u16 ncases) 0 (i32 (i_imm ins)) pc);
  lower_cases f pc 0 (Z.to_nat ncases) ir.

(** A call the compiled code makes through the interpreter. *)
Definition lower_slow (call : bool) (pc : Z) (ir : jello_jit_ir_func) : option jello_jit_ir_func :=
  append_ir (count_slow call ir) (slow_ir pc).

Definition lower_call (fi pc : Z) (ins : jello_insn) (ir : jello_jit_ir_func)
  : option jello_jit_ir_func :=
  let callee := i_imm ins in
  if (callee =? 0) && (i_c ins =? 1) then
    append_ir ir (mk_ir JIR_SQRT_F64 (i_a ins) (i_b ins) 0 0 pc)
  else
  let bidx := u32 (callee - JELLO_NATIVE_BUILTIN_COUNT) in
  if negb (jello_is_native_builtin callee) && negb (jello_is_jdll_prim callee) &&
  ((bidx <? m_nfuncs m) && (i_c ins <=? 16) && negb (func_needs_captures bidx)) then
    if bidx =? fi then
      append_ir (mark_self_call ir) (ir_abc JIR_CALL_SELF 0 pc ins)
  else
  append_ir (mark_direct_call ir)
    (ir_abc JIR_CALL_DIRECT (i32 (Z.lor (Z.shiftl 0xFFFF 16) bidx)) pc ins)
  else lower_slow true pc ir.

Definition lower_callr (fi : Z) (f : jello_bc_function) (pc : Z) (ins : jello_insn)
    (ir : jello_jit_ir_func) : option jello_jit_ir_func :=
  let callee_reg := i_b ins in
  let first := i_imm ins in
  let na := i_c ins in
  let proved := prove_reg_bytecode_fun f callee_reg pc in
  let bidx := if proved <? 0 then prove_capture_callee_bidx fi f callee_reg else proved in
  if (0 <=? bidx) && (na <=? 16) && (first <=? 0xffff) && (callee_reg <=? 0xffff) then
    if (bidx =? fi) && negb (func_needs_captures (u32 bidx)) then
      append_ir (mark_self_call ir) (mk_ir JIR_CALL_SELF (i_a ins) (u16 first) (u16 na) 0 pc)
  else
  append_ir (mark_direct_call ir)
    (mk_ir JIR_CALL_DIRECT (i_a ins) (u16 first) (u16 na)
      (i32 (Z.lor (Z.shiftl callee_reg 16) (u32 bidx))) pc)
  else lower_slow true pc ir.

Definition lower_one (fi : Z) (f : jello_bc_function) (pc : Z) (ir : jello_jit_ir_func)
  : option jello_jit_ir_func :=
  let ins := insn_at f pc in
  match op_of_code (i_op ins) with
  | Some JOP_JMP => lower_jmp pc ins ir
  | Some JOP_CASE_KIND => Some ir
  | Some JOP_SWITCH_KIND => lower_switch f pc ins ir
  | Some JOP_CONST_FUN =>
    append_ir ir (if const_fun_self_elidable fi f pc then mk_ir JIR_NOP 0 0 0 0 pc
      else ir_a_only JIR_CONST_FUN (i32 (i_imm ins)) pc ins)
  | Some JOP_CALL => lower_call fi pc ins ir
  | Some JOP_CALLR => lower_callr fi f pc ins ir
  | Some JOP_TAILCALL | Some JOP_TAILCALLR => lower_slow true pc ir
  | Some o =>
    match lower_plain o pc ins with
    | Some out => append_ir ir out
    | None => lower_slow false pc ir
    end
  | None => lower_slow false pc ir
  end.

(** [for(pc; n times) lower_one]. *)
Fixpoint lower_all (fi : Z) (f : jello_bc_function) (pc : Z) (n : nat) (ir : jello_jit_ir_func)
  : option jello_jit_ir_func :=
  match n with
  | O => Some ir
  | S n' => ir ← lower_one fi f pc ir; lower_all fi f (pc + 1) n' ir
  end.

(** The first loop: the reason of the first instruction that is not supported. *)
Fixpoint unsupported (insns : list jello_insn) : option string :=
  match insns with
  | [] => None
  | w :: ws =>
    if is_op w JOP_TRY then Some "try not supported in jit v1"
    else if is_op w JOP_SPILL_PUSH || is_op w JOP_SPILL_POP then Some "spill ops not supported in jit"
    else unsupported ws
  end.

(** The kinds a self call is rejected for. *)
Definition rejects_self_call (k : jello_type_kind) : bool :=
  match k with
  | JELLO_T_DYNAMIC | JELLO_T_BYTES | JELLO_T_LIST | JELLO_T_ARRAY | JELLO_T_OBJECT
  | JELLO_T_ABSTRACT | JELLO_T_ENUM => true
  | _ => false
  end.

Definition has_heap_reg (f : jello_bc_function) : bool :=
  existsb (fun r => match vm_reg_kind m f (Z.of_nat r) with
    | Some k => rejects_self_call k
    | None => false
    end) (seq 0 (Z.to_nat (f_nregs f))).

Definition empty_ir (nregs : Z) : jello_jit_ir_func :=
  mk_irf [] nregs false false false false 0 false None.

Definition jello_jit_ir_build (fi : Z) : jello_jit_ir_func :=
  let f := fun_of fi in
  let ir := empty_ir (f_nregs f) in
  match unsupported (f_insns f) with
  | Some why => reject why ir
  | None =>
    match lower_all fi f 0 (Z.to_nat (f_ninsns f)) ir with
    | None => reject "oom building ir" ir
    | Some ir =>
      if has_self_call ir && has_heap_reg f then reject "self-call with heap regs" ir else accept ir
    end
  end.
End Ir.
