(* ===== verification/X64.v ===== *)
(** * x86-64 instructions as bytes

    Model of src/src/jit/backend/jit_emit_buf.c and of the encoders of
    src/src/include/jello/internal/jit_x64.h, with those at the head of
    jit_x64_emit.c.  The state of an emitter is the data of the buffer ([buf->data],
    its length is [buf->size]); [None] is the answer -1, or a patch outside the
    buffer.  [room n] says that the buffer can be grown to hold [n] bytes. *)

From S2P Require Import Prelude CInt Memory.

(** ** The emission monad *)

Definition E (A : Type) : Type := list Z -> option (A * list Z).

#[export] Instance E_ret : MRet E := fun A a buf => Some (a, buf).

#[export] Instance E_bind : MBind E := fun A B k c buf =>
  match c buf with
  | Some (a, buf') => k a buf'
  | None => None
  end.

(** [return -1]. *)
Definition efail {A} : E A := fun _ => None.

(** [if(bad) return -1;] *)
Definition efail_if (bad : bool) : E () := if bad then efail else mret ().

(** [buf->size]. *)
Definition esize : E Z := fun buf => Some (zlen buf, buf).

(** ** Registers *)

Definition X64_RAX := 0.
Definition X64_RCX := 1.
Definition X64_RDX := 2.
Definition X64_RBX := 3.
Definition X64_RSP := 4.
Definition X64_RBP := 5.
Definition X64_RSI := 6.
Definition X64_RDI := 7.
Definition X64_R8 := 8.
Definition X64_R9 := 9.
Definition X64_R10 := 10.
Definition X64_R11 := 11.
Definition X64_R12 := 12.
Definition X64_R13 := 13.
Definition X64_R14 := 14.
Definition X64_R15 := 15.

(** ** Parts of an instruction *)

Definition x64_rex (w r x b : Z) : Z :=
  u8 (Z.lor (Z.lor (Z.lor (Z.lor 0x40 (Z.shiftl (Z.land w 1) 3)) (Z.shiftl (Z.land r 1) 2))
               (Z.shiftl (Z.land x 1) 1)) (Z.land b 1)).

Definition x64_modrm (md reg rm : Z) : Z :=
  u8 (Z.lor (Z.lor (Z.shiftl (Z.land md 3) 6) (Z.shiftl (Z.land reg 7) 3)) (Z.land rm 7)).

(** [x64_reg_parts]: the low three bits and the REX extension bit. *)
Definition reg_lo (r : Z) : Z := Z.land r 7.
Definition reg_ext (r : Z) : Z := Z.land (Z.shiftr r 3) 1.

(** [if(c) bytes[n++] = b;] *)
Definition byte_if (c : bool) (b : Z) : list Z := if c then [b] else [].

Definition is_ext (r : Z) : bool := negb (reg_ext r =? 0).

Definition x64_append_mem_disp32 (md reg base_lo disp : Z) : list Z :=
  let needs_sib := base_lo =? 4 in
  [x64_modrm md reg (if needs_sib then 4 else base_lo)] ++ byte_if needs_sib 0x24 ++ le_bytes 4 disp.

(** Shapes several encoders share: register-register with the source in the [reg]
    field, 32 and 64 bits wide. *)
Definition rr32 (op dst src : Z) : list Z :=
  byte_if (is_ext dst || is_ext src) (x64_rex 0 (reg_ext src) 0 (reg_ext dst)) ++
  [op; x64_modrm 3 (reg_lo src) (reg_lo dst)].

Definition rr64 (op dst src : Z) : list Z :=
  [x64_rex 1 (reg_ext src) 0 (reg_ext dst); op; x64_modrm 3 (reg_lo src) (reg_lo dst)].

(** One register, the opcode extension in the [reg] field. *)
Definition r32 (op digit dst : Z) : list Z :=
  byte_if (is_ext dst) (x64_rex 0 0 0 (reg_ext dst)) ++ [op; x64_modrm 3 digit (reg_lo dst)].

Definition r64 (op digit dst : Z) : list Z :=
  [x64_rex 1 0 0 (reg_ext dst); op; x64_modrm 3 digit (reg_lo dst)].

(** A register and a memory operand [[base + disp32]]. *)
Definition rm32 (ops : list Z) (reg base disp : Z) : list Z :=
  byte_if (is_ext base || is_ext reg) (x64_rex 0 (reg_ext reg) 0 (reg_ext base)) ++ ops ++
  x64_append_mem_disp32 2 (reg_lo reg) (reg_lo base) disp.

Definition rm64 (ops : list Z) (reg base disp : Z) : list Z :=
  [x64_rex 1 (reg_ext reg) 0 (reg_ext base)] ++ ops ++
  x64_append_mem_disp32 2 (reg_lo reg) (reg_lo base) disp.

(** An SSE load or store: legacy prefix, REX, opcode. *)
Definition xmm_mem (prefix op x base disp : Z) : list Z :=
  [prefix] ++ byte_if (is_ext base) (x64_rex 0 0 0 (reg_ext base)) ++ [0x0F; op] ++
  x64_append_mem_disp32 2 (Z.land x 7) (reg_lo base) disp.

Section Emit.
Context (room : Z -> bool).

Definition jello_jit_emit_bytes (bytes : list Z) : E () := fun buf =>
  if zlen bytes =? 0 then None else
  if room (zlen buf + zlen bytes) then Some ((), buf ++ bytes) else None.

Abbreviation emit := jello_jit_emit_bytes.

(** ** Moves *)

Definition x64_emit_rex_rr (w dst src : Z) : E () :=
  emit (byte_if (negb (w =? 0) || is_ext dst || is_ext src) (x64_rex w (reg_ext src) 0 (reg_ext dst)) ++
    [0x89; x64_modrm 3 (reg_lo src) (reg_lo dst)]).

Definition x64_emit_mov_rr (dst src : Z) : E () := x64_emit_rex_rr 1 dst src.

Definition x64_emit_mov_r32_imm (dst imm : Z) : E () :=
  emit (byte_if (is_ext dst) (x64_rex 0 0 0 (reg_ext dst)) ++ [u8 (0xB8 + reg_lo dst)] ++ le_bytes 4 imm).

Definition x64_emit_mov_r64_imm (dst imm : Z) : E () :=
  emit ([x64_rex 1 0 0 (reg_ext dst)] ++ [u8 (0xB8 + reg_lo dst)] ++ le_bytes 8 imm).

Definition x64_emit_load_r32_disp (dst base disp : Z) : E () := emit (rm32 [0x8B] dst base disp).
Definition x64_emit_store_r32_disp (src base disp : Z) : E () := emit (rm32 [0x89] src base disp).
Definition x64_emit_load_r64_disp (dst base disp : Z) : E () := emit (rm64 [0x8B] dst base disp).
Definition x64_emit_store_r64_disp (src base disp : Z) : E () := emit (rm64 [0x89] src base disp).

(** ** Arithmetic *)

Definition x64_emit_alu_rr (op dst src : Z) : E () := emit (rr64 op dst src).
Definition x64_emit_add_rr : Z -> Z -> E () := x64_emit_alu_rr 0x01.
Definition x64_emit_sub_rr : Z -> Z -> E () := x64_emit_alu_rr 0x29.
Definition x64_emit_xor_r64 : Z -> Z -> E () := x64_emit_alu_rr 0x31.
Definition x64_emit_xor_r32 (dst src : Z) : E () := emit (rr32 0x31 dst src).

Definition x64_emit_sub_r64_imm8 (dst imm : Z) : E () := emit (r64 0x83 5 dst ++ [imm]).
Definition x64_emit_neg_r64 (dst : Z) : E () := emit (r64 0xF7 3 dst).

Definition x64_emit_imul_r32 (dst src : Z) : E () :=
  emit (byte_if (is_ext dst || is_ext src) (x64_rex 0 (reg_ext src) 0 (reg_ext dst)) ++
    [0x0F; 0xAF; x64_modrm 3 (reg_lo dst) (reg_lo src)]).

Definition x64_emit_cmp_r32_rr : Z -> Z -> E () := x64_emit_alu_rr 0x39.
Definition x64_emit_cmp_r64_rr : Z -> Z -> E () := x64_emit_alu_rr 0x39.
Definition x64_emit_cmp_r32_imm0 (reg : Z) : E () := emit (r32 0x83 7 reg ++ [0]).

Definition x64_emit_alu_r32_imm (digit dst imm : Z) : E () :=
  emit (if (-128 <=? imm) && (imm <=? 127) then r32 0x83 digit dst ++ [u8 imm]
    else r32 0x81 digit dst ++ le_bytes 4 imm).

Definition x64_emit_add_r32_imm : Z -> Z -> E () := x64_emit_alu_r32_imm 0.
Definition x64_emit_and_r32_imm : Z -> Z -> E () := x64_emit_alu_r32_imm 4.
Definition x64_emit_or_r32_imm : Z -> Z -> E () := x64_emit_alu_r32_imm 1.
Definition x64_emit_sub_r32_imm : Z -> Z -> E () := x64_emit_alu_r32_imm 5.
Definition x64_emit_cmp_r32_imm : Z -> Z -> E () := x64_emit_alu_r32_imm 7.

Definition x64_emit_alu_r64_imm (digit dst imm : Z) : E () :=
  emit (if (-128 <=? imm) && (imm <=? 127) then r64 0x83 digit dst ++ [u8 imm]
    else r64 0x81 digit dst ++ le_bytes 4 imm).

Definition x64_emit_or_r64_imm : Z -> Z -> E () := x64_emit_alu_r64_imm 1.

Definition x64_emit_shl_r32_imm8 (dst imm : Z) : E () := emit (r32 0xC1 4 dst ++ [imm]).
Definition x64_emit_shl_r64_imm8 (dst imm : Z) : E () := emit (r64 0xC1 4 dst ++ [imm]).

Definition x64_emit_movzx_r32_m8_disp (dst base disp : Z) : E () := emit (rm32 [0x0F; 0xB6] dst base disp).

Definition x64_emit_store_imm8_disp (base disp imm : Z) : E () :=
  emit (byte_if (is_ext base) (x64_rex 0 0 0 (reg_ext base)) ++ [0xC6] ++
    x64_append_mem_disp32 2 0 (reg_lo base) disp ++ [imm]).

Definition x64_emit_setcc (cc dst8 : Z) : E () :=
  emit (byte_if (is_ext dst8) (x64_rex 0 0 0 (reg_ext dst8)) ++ [0x0F; cc; x64_modrm 3 0 (reg_lo dst8)]).

Definition x64_emit_movzx_r32_r8 (dst src8 : Z) : E () :=
  emit (byte_if (is_ext dst || is_ext src8) (x64_rex 0 (reg_ext src8) 0 (reg_ext dst)) ++
    [0x0F; 0xB6; x64_modrm 3 (reg_lo dst) (reg_lo src8)]).

(** ** Control *)

Definition x64_emit_endbr64 : E () := emit [0xF3; 0x0F; 0x1E; 0xFA].
Definition x64_emit_sub_rsp_imm8 (imm : Z) : E () := emit [0x48; 0x83; 0xEC; imm].
Definition x64_emit_add_rsp_imm8 (imm : Z) : E () := emit [0x48; 0x83; 0xC4; imm].
Definition x64_emit_jmp_rel32 : E () := emit [0xE9; 0; 0; 0; 0].
Definition x64_emit_jcc_rel32 (cc : Z) : E () := emit [0x0F; cc; 0; 0; 0; 0].
Definition x64_emit_call_rax : E () := emit [0xFF; 0xD0].
Definition x64_emit_ret : E () := emit [0xC3].

Definition x64_emit_lea_rip_rel32 (dst : Z) : E () :=
  emit [x64_rex 1 (reg_ext dst) 0 0; 0x8D; x64_modrm 0 (reg_lo dst) 5; 0; 0; 0; 0].

(** [if(rex) bytes[n++] = 0x40 | rex << 3 | 1]: with [rex] 1 the bits W and B. *)
Definition rex_push (r : Z) : list Z :=
  byte_if (is_ext r) (u8 (Z.lor (Z.lor 0x40 (Z.shiftl (reg_ext r) 3)) 1)).

Definition x64_emit_push_r64 (reg : Z) : E () := emit (rex_push reg ++ [u8 (0x50 + reg_lo reg)]).
Definition x64_emit_pop_r64 (reg : Z) : E () := emit (rex_push reg ++ [u8 (0x58 + reg_lo reg)]).
Definition x64_emit_test_rr (dst src : Z) : E () := emit (rr32 0x85 dst src).
Definition x64_emit_test_r64 (dst src : Z) : E () := emit (rr64 0x85 dst src).
Definition x64_emit_jmp_r64 (reg : Z) : E () := emit (rex_push reg ++ [0xFF; x64_modrm 3 4 (reg_lo reg)]).

(** ** SSE *)

Definition x64_emit_load_xmm64_disp (x base disp : Z) : E () := emit (xmm_mem 0xF2 0x10 x base disp).
Definition x64_emit_store_xmm64_disp (x base disp : Z) : E () := emit (xmm_mem 0xF2 0x11 x base disp).
Definition x64_emit_load_xmm32_disp (x base disp : Z) : E () := emit (xmm_mem 0xF3 0x10 x base disp).
Definition x64_emit_store_xmm32_disp (x base disp : Z) : E () := emit (xmm_mem 0xF3 0x11 x base disp).

Definition x64_emit_sse_rr (op dst src : Z) : E () :=
  emit [0xF2; 0x0F; op; x64_modrm 3 (Z.land dst 7) (Z.land src 7)].
Definition x64_emit_addsd : Z -> Z -> E () := x64_emit_sse_rr 0x58.
Definition x64_emit_subsd : Z -> Z -> E () := x64_emit_sse_rr 0x5C.
Definition x64_emit_mulsd : Z -> Z -> E () := x64_emit_sse_rr 0x59.
Definition x64_emit_divsd : Z -> Z -> E () := x64_emit_sse_rr 0x5E.
Definition x64_emit_sqrtsd : Z -> Z -> E () := x64_emit_sse_rr 0x51.
Definition x64_emit_comisd (lhs rhs : Z) : E () :=
  emit [0x66; 0x0F; 0x2F; x64_modrm 3 (Z.land lhs 7) (Z.land rhs 7)].

Definition x64_emit_sse32_rr (op dst src : Z) : E () :=
  emit [0xF3; 0x0F; op; x64_modrm 3 (Z.land dst 7) (Z.land src 7)].
Definition x64_emit_addss : Z -> Z -> E () := x64_emit_sse32_rr 0x58.
Definition x64_emit_subss : Z -> Z -> E () := x64_emit_sse32_rr 0x5C.
Definition x64_emit_mulss : Z -> Z -> E () := x64_emit_sse32_rr 0x59.
Definition x64_emit_divss : Z -> Z -> E () := x64_emit_sse32_rr 0x5E.
Definition x64_emit_comiss (lhs rhs : Z) : E () :=
  emit [0x0F; 0x2F; x64_modrm 3 (Z.land lhs 7) (Z.land rhs 7)].

(** ** The encoders of jit_x64_emit.c *)

Definition emit_neg_r32 (dst : Z) : E () := emit (r32 0xF7 3 dst).

Definition emit_imul_r64 (dst src : Z) : E () :=
  emit [x64_rex 1 (reg_ext src) 0 (reg_ext dst); 0x0F; 0xAF; x64_modrm 3 (reg_lo dst) (reg_lo src)].

Definition emit_cdq : E () := emit [0x99].
Definition emit_cqo : E () := emit [0x48; 0x99].
Definition emit_idiv_r32 (divisor : Z) : E () := emit (r32 0xF7 7 divisor).
Definition emit_idiv_r64 (divisor : Z) : E () := emit (r64 0xF7 7 divisor).
Definition emit_shift_r32_cl (op_reg dst : Z) : E () := emit (r32 0xD3 op_reg dst).
Definition emit_shift_r64_cl (op_reg dst : Z) : E () := emit (r64 0xD3 op_reg dst).
Definition emit_mov_r32_rr (dst src : Z) : E () := emit (rr32 0x89 dst src).
Definition emit_alu_r32_rr (op dst src : Z) : E () := emit (rr32 op dst src).
Definition emit_add_r32_rr : Z -> Z -> E () := emit_alu_r32_rr 0x01.
Definition emit_and_r32_rr : Z -> Z -> E () := emit_alu_r32_rr 0x21.
Definition emit_sub_r32_rr : Z -> Z -> E () := emit_alu_r32_rr 0x29.
Definition emit_cmp_r32_rr : Z -> Z -> E () := emit_alu_r32_rr 0x39.

Definition emit_cmp_m32_imm0 (base disp imm : Z) : E () :=
  emit (byte_if (is_ext base) (x64_rex 0 0 0 (reg_ext base)) ++ [0x81] ++
    x64_append_mem_disp32 2 7 (reg_lo base) disp ++ le_bytes 4 imm).
End Emit.

(** ** Patches *)

(** [memcpy(buf->data + at, &off, 4)]. *)
Definition patch4 (at_ off : Z) : E () := fun buf =>
  buf' ← block_write buf at_ (le_bytes 4 (i32 off)); Some ((), buf').

Definition patch_jmp_rel32 (at_ target : Z) : E () := patch4 (at_ + 1) (target - (at_ + 5)).
Definition patch_jcc_rel32 (at_ target : Z) : E () := patch4 (at_ + 2) (target - (at_ + 6)).

Definition x64_patch_lea_rip_rel32 (at_ target : Z) : E () :=
  size ← esize;
  _ ← efail_if (size <? at_ + 7);
  patch4 (at_ + 3) (target - (at_ + 7)).
