(* ===== verification/X64Sem.v ===== *)
(** * What x86-64 instructions mean

    A specification, after the manual of the architecture and independent of the
    emitters: the instructions of the compiled code, their decoding from bytes and
    their effect on registers, flags and memory.  Flags the manual leaves undefined
    are poisoned ([None]), and so is anything that leaves the code (calls, returns,
    indirect jumps): a step that depends on it gets stuck. *)

From S2P Require Import Prelude CInt Memory Float.
From Stdlib Require Import SpecFloat.

(** ** Instructions *)

Inductive width : Set := W32 | W64.

Definition bits (w : width) : Z := match w with W32 => 32 | W64 => 64 end.
Definition nbytes (w : width) : nat := match w with W32 => 4%nat | W64 => 8%nat end.

Inductive alu : Set := AAdd | AOr | AAnd | ASub | AXor | ACmp.
Inductive fop : Set := FAdd | FSub | FMul | FDiv | FSqrt.

(** Registers by number; an immediate or displacement is as encoded, unsigned, and
    [IAluImm] has the sign-extended one. *)
Inductive instr : Set :=
| IMov (w : width) (d s : Z)
| IMovImm (w : width) (d imm : Z)
| ILoad (w : width) (d base disp : Z)
| IStore (w : width) (s base disp : Z)
| IAlu (w : width) (op : alu) (d s : Z)
| IAluImm (w : width) (op : alu) (d imm : Z)
| ICmpMem (base disp imm : Z)
| ITest (w : width) (d s : Z)
| INeg (w : width) (d : Z)
| IImul (w : width) (d s : Z)
| ICdq (w : width)
| IIdiv (w : width) (r : Z)
| IShlCl (w : width) (d : Z)
| ISarCl (w : width) (d : Z)
| IShlImm (w : width) (d k : Z)
| IShrImm (w : width) (d k : Z)
| IMovsxd (d s : Z)
| ISetcc (cc d : Z)
| IMovzx8 (d s : Z)
| ILoad8 (d base disp : Z)
| IStoreImm8 (base disp imm : Z)
| IJmp (rel : Z)
| IJcc (cc rel : Z)
| ILea (d rel : Z)
| ICall (r : Z)
| IJmpReg (r : Z)
| IRet
| IPush (r : Z)
| IPop (r : Z)
| IEndbr
| IXLoad (w : width) (x base disp : Z)
| IXStore (w : width) (x base disp : Z)
| IXOp (w : width) (op : fop) (d s : Z)
| IXComi (w : width) (l r : Z).

(** ** Decoding *)

Inductive operand : Set :=
| OReg (r : Z)
| OMem (base disp : Z)
| ORip (disp : Z).

Definition take_u32 (bs : list Z) : option (Z * list Z) :=
  match bs with
  | b0 :: b1 :: b2 :: b3 :: rest => Some (le_value [b0; b1; b2; b3], rest)
  | _ => None
  end.

Definition take_u64 (bs : list Z) : option (Z * list Z) :=
  match bs with
  | b0 :: b1 :: b2 :: b3 :: b4 :: b5 :: b6 :: b7 :: rest =>
      Some (le_value [b0; b1; b2; b3; b4; b5; b6; b7], rest)
  | _ => None
  end.

(** ModRM, SIB and displacement: the [reg] field, the operand, what follows and the
    bytes read.  [r], [b] are the REX extensions. *)
Definition take_modrm (r b : Z) (bs : list Z) : option (Z * operand * list Z * Z) :=
  match bs with
  | m :: rest =>
      let md := Z.shiftr m 6 in
      let reg := Z.land (Z.shiftr m 3) 7 + 8 * r in
      let rm := Z.land m 7 in
      if md =? 3 then Some (reg, OReg (rm + 8 * b), rest, 1) else
      if md =? 2 then
        if rm =? 4 then
          match rest with
          | sib :: rest =>
              if sib =? 0x24 then
                '(disp, rest) ← take_u32 rest; Some (reg, OMem (4 + 8 * b) disp, rest, 6)
              else None
          | [] => None
          end
        else '(disp, rest) ← take_u32 rest; Some (reg, OMem (rm + 8 * b) disp, rest, 5)
      else if (md =? 0) && (rm =? 5) then
        '(disp, rest) ← take_u32 rest; Some (reg, ORip disp, rest, 5)
      else None
  | [] => None
  end.

Definition alu_of_digit (d : Z) : option alu :=
  if d =? 0 then Some AAdd else if d =? 1 then Some AOr else if d =? 4 then Some AAnd
  else if d =? 5 then Some ASub else if d =? 6 then Some AXor
  else if d =? 7 then Some ACmp else None.

Definition alu_of_opcode (op : Z) : option alu :=
  if op =? 0x01 then Some AAdd else if op =? 0x09 then Some AOr else if op =? 0x21 then Some AAnd
  else if op =? 0x29 then Some ASub else if op =? 0x31 then Some AXor
  else if op =? 0x39 then Some ACmp else None.

(** The byte register a field names: without a REX prefix 4 to 7 are AH, CH, DH, BH,
    numbered 16 to 19. *)
Definition byte_reg (rex : bool) (r : Z) : Z := if negb rex && (4 <=? r) && (r <? 8) then 12 + r else r.

(** The opcodes after 0F, without a legacy prefix. *)
Definition decode_0f (rex : bool) (w : width) (r b : Z) (bs : list Z) (n : Z) : option (instr * Z) :=
  match bs with
  | op :: rest =>
      if (0x80 <=? op) && (op <=? 0x8F) then
        '(rel, _) ← take_u32 rest; Some (IJcc (op - 0x80) rel, n + 5)
      else
      '(reg, o, _, k) ← take_modrm r b rest;
      let n := n + 1 + k in
      if op =? 0xAF then match o with OReg s => Some (IImul w reg s, n) | _ => None end
      else if op =? 0xB6 then
        match o with
        | OReg s => Some (IMovzx8 reg (byte_reg rex s), n)
        | OMem base disp => Some (ILoad8 reg base disp, n)
        | _ => None
        end
      else if (0x90 <=? op) && (op <=? 0x9F) then
        match o with OReg d => Some (ISetcc (op - 0x90) (byte_reg rex d), n) | _ => None end
      else if op =? 0x2F then match o with OReg s => Some (IXComi W32 reg s, n) | _ => None end
      else None
  | [] => None
  end.

(** The one-byte opcodes. *)
Definition decode_op (rex : bool) (w : width) (r b : Z) (bs : list Z) (n : Z) : option (instr * Z) :=
  match bs with
  | op :: rest =>
      let n := n + 1 in
      if op =? 0x0F then decode_0f rex w r b rest n
      else if op =? 0xE9 then '(rel, _) ← take_u32 rest; Some (IJmp rel, n + 4)
      else if op =? 0xC3 then Some (IRet, n)
      else if op =? 0x99 then Some (ICdq w, n)
      else if (0x50 <=? op) && (op <=? 0x57) then Some (IPush (op - 0x50 + 8 * b), n)
      else if (0x58 <=? op) && (op <=? 0x5F) then Some (IPop (op - 0x58 + 8 * b), n)
      else if (0xB8 <=? op) && (op <=? 0xBF) then
        match w with
        | W32 => '(imm, _) ← take_u32 rest; Some (IMovImm W32 (op - 0xB8 + 8 * b) imm, n + 4)
        | W64 => '(imm, _) ← take_u64 rest; Some (IMovImm W64 (op - 0xB8 + 8 * b) imm, n + 8)
        end
      else
      '(reg, o, rest, k) ← take_modrm r b rest;
      let n := n + k in
      match alu_of_opcode op with
      | Some a => match o with OReg d => Some (IAlu w a d reg, n) | _ => None end
      | None =>
      if op =? 0x89 then
        match o with
        | OReg d => Some (IMov w d reg, n)
        | OMem base disp => Some (IStore w reg base disp, n)
        | _ => None
        end
      else if op =? 0x8B then
        match o with OMem base disp => Some (ILoad w reg base disp, n) | _ => None end
      else if op =? 0x8D then
        match o with ORip disp => Some (ILea reg disp, n) | _ => None end
      else if op =? 0x63 then
        match o with OReg s => Some (IMovsxd reg s, n) | _ => None end
      else if op =? 0x85 then
        match o with OReg d => Some (ITest w d reg, n) | _ => None end
      else if op =? 0xC6 then
        match o, rest with OMem base disp, imm :: _ => Some (IStoreImm8 base disp imm, n + 1) | _, _ => None end
      (* below, the reg field extends the opcode *)
      else let digit := reg - 8 * r in
      if op =? 0x83 then
        match o, rest with
        | OReg d, imm :: _ => a ← alu_of_digit digit; Some (IAluImm w a d (i8 imm), n + 1)
        | _, _ => None
        end
      else if op =? 0x81 then
        match o with
        | OReg d => a ← alu_of_digit digit; '(imm, _) ← take_u32 rest; Some (IAluImm w a d (i32 imm), n + 4)
        | OMem base disp =>
            if digit =? 7 then '(imm, _) ← take_u32 rest; Some (ICmpMem base disp imm, n + 4) else None
        | _ => None
        end
      else if op =? 0xF7 then
        match o with
        | OReg d => if digit =? 3 then Some (INeg w d, n) else if digit =? 7 then Some (IIdiv w d, n) else None
        | _ => None
        end
      else if op =? 0xD3 then
        match o with
        | OReg d => if digit =? 4 then Some (IShlCl w d, n) else if digit =? 7 then Some (ISarCl w d, n) else None
        | _ => None
        end
      else if op =? 0xC1 then
        match o, rest with
        | OReg d, k :: _ =>
            if digit =? 4 then Some (IShlImm w d k, n + 1) else if digit =? 5 then Some (IShrImm w d k, n + 1) else None
        | _, _ => None
        end
      else if op =? 0xFF then
        match o with
        | OReg d => if digit =? 2 then Some (ICall d, n) else if digit =? 4 then Some (IJmpReg d, n) else None
        | _ => None
        end
      else None
      end
  | [] => None
  end.

(** The SSE instructions behind a legacy prefix: F2 (double), F3 (single), 66. *)
Definition decode_sse (prefix r b : Z) (bs : list Z) (n : Z) : option (instr * Z) :=
  match bs with
  | z :: op :: rest =>
      if negb (z =? 0x0F) then None else
      let n := n + 2 in
      if (prefix =? 0xF3) && (op =? 0x1E) then
        match rest with m :: _ => if m =? 0xFA then Some (IEndbr, n + 1) else None | [] => None end
      else
      '(reg, o, _, k) ← take_modrm r b rest;
      let n := n + k in
      if prefix =? 0x66 then
        if op =? 0x2F then match o with OReg s => Some (IXComi W64 reg s, n) | _ => None end else None
      else
      let w := if prefix =? 0xF2 then W64 else W32 in
      match o with
      | OMem base disp =>
          if op =? 0x10 then Some (IXLoad w reg base disp, n)
          else if op =? 0x11 then Some (IXStore w reg base disp, n) else None
      | OReg s =>
          if op =? 0x58 then Some (IXOp w FAdd reg s, n)
          else if op =? 0x5C then Some (IXOp w FSub reg s, n)
          else if op =? 0x59 then Some (IXOp w FMul reg s, n)
          else if op =? 0x5E then Some (IXOp w FDiv reg s, n)
          else if op =? 0x51 then Some (IXOp w FSqrt reg s, n) else None
      | _ => None
      end
  | _ => None
  end.

Definition rex_bit (b i : Z) : Z := Z.land (Z.shiftr b i) 1.

(** A REX prefix is the byte before the opcode. *)
Definition with_rex (bs : list Z) (n : Z)
    (k : bool -> width -> Z -> Z -> list Z -> Z -> option (instr * Z)) : option (instr * Z) :=
  match bs with
  | b :: rest =>
      if (0x40 <=? b) && (b <=? 0x4F) then
        k true (if rex_bit b 3 =? 1 then W64 else W32) (rex_bit b 2) (rex_bit b 0) rest (n + 1)
      else k false W32 0 0 bs n
  | [] => None
  end.

(** The first instruction of [bs] and its length. *)
Definition x86_decode (bs : list Z) : option (instr * Z) :=
  match bs with
  | b :: rest =>
      if (b =? 0x66) || (b =? 0xF2) || (b =? 0xF3) then with_rex rest 1 (fun _ _ => decode_sse b)
      else with_rex bs 0 decode_op
  | [] => None
  end.

(** ** Machine states *)

Record flags : Set := mk_flags { zf : bool; sf : bool; cf : bool; of_ : bool }.

(** [ip] is an offset into the code; memory is a list of blocks with their
    addresses, an access has to fall inside one. *)
Record cpu : Type := mk_cpu {
  ip : Z;
  regs : Z -> Z;
  xmm : Z -> Z;       (* the low 64 bits *)
  flg : option flags;
  mem : list (Z * list Z)
}.

Definition upd (rg : Z -> Z) (r v : Z) : Z -> Z := fun x => if x =? r then v else rg x.

Definition set_ip (a : Z) (st : cpu) : cpu := mk_cpu a (regs st) (xmm st) (flg st) (mem st).
Definition set_flags (f : option flags) (st : cpu) : cpu := mk_cpu (ip st) (regs st) (xmm st) f (mem st).
Definition set_mems (l : list (Z * list Z)) (st : cpu) : cpu := mk_cpu (ip st) (regs st) (xmm st) (flg st) l.
Definition set_xmm (x v : Z) (st : cpu) : cpu := mk_cpu (ip st) (regs st) (upd (xmm st) x v) (flg st) (mem st).

(** Writing the low 32 bits clears the rest. *)
Definition set_reg (r v : Z) (st : cpu) : cpu :=
  mk_cpu (ip st) (upd (regs st) r v) (xmm st) (flg st) (mem st).

(** A byte register and what remains when it is written. *)
Definition get8 (st : cpu) (r : Z) : Z := if 16 <=? r then u8 (regs st (r - 16) / 256) else u8 (regs st r).

Definition put8 (r v : Z) (st : cpu) : cpu :=
  if 16 <=? r then
    let x := wrapU 64 (regs st (r - 16)) in set_reg (r - 16) (65536 * (x / 65536) + 256 * u8 v + x mod 256) st
  else let x := wrapU 64 (regs st r) in set_reg r (256 * (x / 256) + u8 v) st.

Definition get (w : width) (st : cpu) (r : Z) : Z := wrapU (bits w) (regs st r).
Definition put (w : width) (r v : Z) (st : cpu) : cpu := set_reg r (wrapU (bits w) v) st.

Fixpoint blocks_load (n : nat) (l : list (Z * list Z)) (a : Z) : option Z :=
  match l with
  | [] => None
  | (base, bs) :: l' =>
      if (base <=? a) && (a + Z.of_nat n <=? base + zlen bs) then mem_load n bs (a - base)
      else blocks_load n l' a
  end.

Fixpoint blocks_store (n : nat) (l : list (Z * list Z)) (a v : Z) : option (list (Z * list Z)) :=
  match l with
  | [] => None
  | (base, bs) :: l' =>
      if (base <=? a) && (a + Z.of_nat n <=? base + zlen bs) then
        bs' ← mem_store n bs (a - base) v; Some ((base, bs') :: l')
      else l'' ← blocks_store n l' a v; Some ((base, bs) :: l'')
  end.

(** The address [[base + disp32]]. *)
Definition ea (st : cpu) (base disp : Z) : Z := u64 (regs st base + i32 disp).

Definition load (n : nat) (st : cpu) (base disp : Z) : option Z := blocks_load n (mem st) (ea st base disp).

Definition store (n : nat) (base disp v : Z) (st : cpu) : option cpu :=
  l ← blocks_store n (mem st) (ea st base disp) v; Some (set_mems l st).

(** ** Effects *)

Definition sgn (w : width) (x : Z) : Z := wrapS (bits w) x.

(** Zero and sign of a result, carry and overflow as given. *)
Definition result_flags (w : width) (r : Z) (c o : bool) : flags :=
  mk_flags (r =? 0) (2 ^ (bits w - 1) <=? r) c o.

Definition fits (w : width) (x : Z) : bool := bool_decide (is_s (bits w) x).

(** The result of an operation (compare: none) and its flags. *)
Definition alu_op (w : width) (op : alu) (a b : Z) : option Z * flags :=
  let arith r c o := (Some r, result_flags w r c o) in
  match op with
  | AAdd => arith (wrapU (bits w) (a + b)) (2 ^ bits w <=? a + b) (negb (fits w (sgn w a + sgn w b)))
  | ASub => arith (wrapU (bits w) (a - b)) (a <? b) (negb (fits w (sgn w a - sgn w b)))
  | ACmp =>
      (None, result_flags w (wrapU (bits w) (a - b)) (a <? b) (negb (fits w (sgn w a - sgn w b))))
  | AAnd => arith (Z.land a b) false false
  | AOr => arith (Z.lor a b) false false
  | AXor => arith (Z.lxor a b) false false
  end.

Definition do_alu (w : width) (op : alu) (d a b : Z) (st : cpu) : cpu :=
  let '(r, f) := alu_op w op a b in
  set_flags (Some f) (match r with Some r => put w d r st | None => st end).

(** The condition codes of the emitters: B, AE, E, NE, L. *)
Definition cond (cc : Z) (f : flags) : option bool :=
  if cc =? 2 then Some (cf f) else if cc =? 3 then Some (negb (cf f))
  else if cc =? 4 then Some (zf f) else if cc =? 5 then Some (negb (zf f))
  else if cc =? 12 then Some (xorb (sf f) (of_ f)) else None.

(** [idiv]: the dividend is rdx:rax; #DE when the quotient does not fit. *)
Definition do_idiv (w : width) (r : Z) (st : cpu) : option cpu :=
  let d := sgn w (get w st r) in
  let n := wrapS (2 * bits w) (Z.lor (get w st 0) (Z.shiftl (get w st 2) (bits w))) in
  if d =? 0 then None else
  if fits w (Z.quot n d) then
    Some (set_flags None (put w 2 (Z.rem n d) (put w 0 (Z.quot n d) st)))
  else None.

Definition fmt (w : width) : format := match w with W32 => binary32 | W64 => binary64 end.

(** An ordered comparison, and the flags of an unordered one. *)
Definition comi (fm : format) (a b : Z) : flags :=
  if fl_lt fm a b then mk_flags false false true false
  else if fl_eq fm a b then mk_flags true false false false
  else if fl_lt fm b a then mk_flags false false false false
  else mk_flags true false true false.

Definition fl_sqrt (fm : format) (nan a : Z) : Z :=
  encode fm nan (SFsqrt (f_prec fm) (f_emax fm) (decode fm a)).

Section Exec.
(** The patterns of the NaNs the operations produce. *)
Context (nan32 nan64 : Z).

Definition nan_of (w : width) : Z := match w with W32 => nan32 | W64 => nan64 end.

Definition do_fop (w : width) (op : fop) (a b : Z) : Z :=
  match op with
  | FAdd => fl_add (fmt w) (nan_of w) a b
  | FSub => fl_sub (fmt w) (nan_of w) a b
  | FMul => fl_mul (fmt w) (nan_of w) a b
  | FDiv => fl_div (fmt w) (nan_of w) a b
  | FSqrt => fl_sqrt (fmt w) (nan_of w) b
  end.

(** A scalar of 32 bits leaves the bits above it. *)
Definition put_x (w : width) (x v : Z) (st : cpu) : cpu :=
  match w with
  | W32 => set_xmm x (u32 v + 2 ^ 32 * (xmm st x / 2 ^ 32)) st
  | W64 => set_xmm x (u64 v) st
  end.

Definition get_x (w : width) (st : cpu) (x : Z) : Z := wrapU (bits w) (xmm st x).

(** The effect of an instruction; [ip] is already behind it. *)
Definition exec_instr (i : instr) (st : cpu) : option cpu :=
  match i with
  | IMov w d s => Some (put w d (get w st s) st)
  | IMovImm w d imm => Some (put w d imm st)
  | ILoad w d base disp => v ← load (nbytes w) st base disp; Some (put w d v st)
  | IStore w s base disp => store (nbytes w) base disp (get w st s) st
  | IAlu w op d s => Some (do_alu w op d (get w st d) (get w st s) st)
  | IAluImm w op d imm => Some (do_alu w op d (get w st d) (wrapU (bits w) imm) st)
  | ICmpMem base disp imm =>
    v ← load 4 st base disp; Some (do_alu W32 ACmp 0 v (u32 imm) st)
  | ITest w d s =>
    Some (set_flags (Some (result_flags w (Z.land (get w st d) (get w st s)) false false)) st)
  | INeg w d =>
    let a := get w st d in
    Some (set_flags (Some (result_flags w (wrapU (bits w) (0 - a)) (negb (a =? 0)) (negb (fits w (0 - sgn w a)))))
        (put w d (0 - a) st))
  | IImul w d s => Some (set_flags None (put w d (get w st d * get w st s) st))
  | ICdq w => Some (put w 2 (if sgn w (get w st 0) <? 0 then -1 else 0) st)
  | IIdiv w r => do_idiv w r st
  | IShlCl w d =>
    Some (set_flags None (put w d (Z.shiftl (get w st d) (Z.land (get w st 1) (bits w - 1))) st))
  | ISarCl w d =>
    Some (set_flags None (put w d (Z.shiftr (sgn w (get w st d)) (Z.land (get w st 1) (bits w - 1))) st))
  | IShlImm w d k => Some (set_flags None (put w d (Z.shiftl (get w st d) (Z.land k (bits w - 1))) st))
  | IShrImm w d k => Some (set_flags None (put w d (Z.shiftr (get w st d) (Z.land k (bits w - 1))) st))
  | IMovsxd d s => Some (put W64 d (sgn W32 (get W32 st s)) st)
  | ISetcc cc d =>
    f ← flg st; c ← cond cc f;
    Some (put8 d (Z.b2z c) st)
  | IMovzx8 d s => Some (put W32 d (get8 st s) st)
  | ILoad8 d base disp => v ← load 1 st base disp; Some (put W32 d v st)
  | IStoreImm8 base disp imm => store 1 base disp imm st
  | IJmp rel => Some (set_ip (ip st + i32 rel) st)
  | IJcc cc rel =>
    f ← flg st; c ← cond cc f;
    Some (if c : bool then set_ip (ip st + i32 rel) st else st)
  | IPush r =>
    l ← blocks_store 8 (mem st) (u64 (regs st 4 - 8)) (get W64 st r);
    Some (set_mems l (put W64 4 (regs st 4 - 8) st))
  | IPop r =>
    v ← blocks_load 8 (mem st) (u64 (regs st 4));
    Some (put W64 r v (put W64 4 (regs st 4 + 8) st))
  | IEndbr => Some st
  | IXLoad w x base disp => v ← load (nbytes w) st base disp; Some (set_xmm x v st)
  | IXStore w x base disp => store (nbytes w) base disp (get_x w st x) st
  | IXOp w op d s => Some (put_x w d (do_fop w op (get_x w st d) (get_x w st s)) st)
  | IXComi w l r => Some (set_flags (Some (comi (fmt w) (get_x w st l) (get_x w st r))) st)
  | ILea _ _ | ICall _ | IJmpReg _ | IRet => None
  end.

(** One step: fetch at [ip], decode, advance, execute. *)
Definition cpu_step (code : list Z) (st : cpu) : option cpu :=
  if (ip st <? 0) then None else
  '(i, n) ← x86_decode (drop (Z.to_nat (ip st)) code);
  exec_instr i (set_ip (ip st + n) st).

Fixpoint cpu_steps (n : nat) (code : list Z) (st : cpu) : option cpu :=
  match n with
  | O => Some st
  | S n' => st' ← cpu_step code st; cpu_steps n' code st'
  end.

(** Some number of steps. *)
Definition runs (code : list Z) (st st' : cpu) : Prop :=
  exists n, cpu_steps n code st = Some st'.
End Exec.
