(* ===== verification/JitX64.v ===== *)
(** * The x86-64 code generator

    Model of src/src/jit/backend/x64/jit_x64_emit.c: the code of every instruction of
    the intermediate code, the branches patched afterwards and the map from bytecode
    positions to native code.  [fn_addr] gives the addresses of the C functions the
    code calls, [lay] the offsets of [jello_jit_runtime_layout()], [layout] the frame
    of the function.  An index of an array of the layout is in range for registers of
    the function; the [calloc]s succeed. *)

From S2P Require Import Prelude CInt Memory Bytecode Value Object Vm Frame JitIr X64.
#[local] Open Scope list_scope.
#[local] Open Scope Z_scope.

(** [jello_jit_layout]. *)
Record jello_jit_layout : Set := mk_lay {
  exec_ctx_fr : Z;
  call_frame_rf_mem : Z;
  exec_ctx_jit_resume_entry : Z;
  exec_ctx_jit_self_resume : Z;
  exec_ctx_jit_call_entry : Z;
  vm_fuel_limit : Z;
  vm_fuel_remaining : Z
}.

(** The functions of jit_runtime.c the code calls. *)
Inductive helper : Set :=
| jello_jit_runtime_slow_op | jello_jit_runtime_call_self | jello_jit_runtime_call_direct
| jello_jit_runtime_ret_self | jello_jit_runtime_fuel_trap | jello_jit_runtime_bytes_len
| jello_jit_runtime_bytes_eq | jello_jit_runtime_bytes_get_u8 | jello_jit_runtime_bytes_set_u8
| jello_jit_runtime_bytes_read | jello_jit_runtime_bytes_write | jello_jit_runtime_array_len
| jello_jit_runtime_array_get | jello_jit_runtime_array_set | jello_jit_runtime_array_new
| jello_jit_runtime_bytes_new | jello_jit_runtime_assert | jello_jit_runtime_const_bytes
| jello_jit_runtime_const_fun | jello_jit_runtime_closure | jello_jit_runtime_conv
| jello_jit_runtime_obj_get_atom | jello_jit_runtime_obj_set_atom
| jello_jit_runtime_obj_insert_atom | jello_jit_object_new.

(** A branch to a bytecode position, patched when every position is known. *)
Record jello_jit_patch_site : Set := mk_site {
  ps_at : Z;
  ps_tgt : Z;     (* bc_tgt *)
  ps_jcc : bool   (* kind: false is jmp rel32, true is jcc rel32 *)
}.

Definition JIT_REG_CTX := X64_R12.
Definition JIT_REG_BASE := X64_R13.
Definition JIT_REG_T0 := X64_R14.
Definition JIT_REG_T1 := X64_R15.
Definition JIT_REG_T2 := X64_R10.
Definition JIT_REG_I32C := X64_RBX.
Definition JIT_FP_T0 := 0.
Definition JIT_FP_T1 := 1.
Definition JIT_I32C_NONE := 0xFFFF.

Definition X64_CC_JZ := 0x84.
Definition X64_CC_JNZ := 0x85.
Definition X64_CC_JE := 0x84.
Definition X64_CC_JNE := 0x85.
Definition X64_CC_JAE := 0x83.
Definition X64_CC_SETE := 0x94.
Definition X64_CC_SETL := 0x9C.
Definition X64_CC_SETB := 0x92.

Definition JIT_ARRAY_OFF_LEN := 8.
Definition JIT_ARRAY_OFF_DATA := 16.
Definition JIT_OBJ_OFF_PROTO := 8.
Definition JIT_OBJ_OFF_CAP := 16.
Definition JIT_OBJ_OFF_LEN := 20.
Definition JIT_OBJ_OFF_KEYS := 24.
Definition JIT_OBJ_OFF_VALS := 32.
Definition JIT_OBJ_OFF_STATES := 40.
Definition JIT_OBJ_OFF_IC_ATOM := 48.
Definition JIT_OBJ_OFF_IC_SLOT := 52.
Definition JIT_OBJ_OFF_IC_CAP := 56.

Definition JELLO_JIT_EXIT_YIELD := 1.

(** object_internal.h, jello.h. *)
Definition JELLO_OBJ_SLOT_EMPTY := 0.
Definition JELLO_OBJ_SLOT_OCCUPIED := 1.


(** [for(i < n) patch_jcc_rel32(buf, j[i], target)], and its twin. *)
Fixpoint patch_all_jcc (js : list Z) (target : Z) : E () :=
  match js with
  | [] => mret ()
  | j :: js' => _ ← patch_jcc_rel32 j target; patch_all_jcc js' target
  end.

Fixpoint patch_all_jmp (js : list Z) (target : Z) : E () :=
  match js with
  | [] => mret ()
  | j :: js' => _ ← patch_jmp_rel32 j target; patch_all_jmp js' target
  end.

Section Codegen.
Context (room : Z -> bool) (fn_addr : helper -> Z) (lay : jello_jit_layout).
Context (m : jello_bc_module) (f : jello_bc_function) (layout : frame_layout).

Abbreviation mov_rr := (x64_emit_mov_rr room).
Abbreviation mov_r32_imm := (x64_emit_mov_r32_imm room).
Abbreviation mov_r64_imm := (x64_emit_mov_r64_imm room).
Abbreviation load_r32 := (x64_emit_load_r32_disp room).
Abbreviation load_r64 := (x64_emit_load_r64_disp room).
Abbreviation store_r32 := (x64_emit_store_r32_disp room).
Abbreviation store_r64 := (x64_emit_store_r64_disp room).
Abbreviation add_rr := (x64_emit_add_rr room).
Abbreviation test_rr := (x64_emit_test_rr room).
Abbreviation test_r64 := (x64_emit_test_r64 room).

(** [at = buf->size; emit jcc] (or jmp): the position is kept for a patch. *)
Definition jcc_at (cc : Z) : E Z := at_ ← esize; _ ← x64_emit_jcc_rel32 room cc; mret at_.
Definition jmp_at : E Z := at_ ← esize; _ ← x64_emit_jmp_rel32 room; mret at_.

Definition emit_call_fn (fn : helper) : E () :=
  _ ← mov_r64_imm X64_RAX (fn_addr fn);
  x64_emit_call_rax room.

(** ** Frame slots *)

Definition bad_off (off : Z) : bool := (0x7FFFFFFF <? off) || negb (off mod 8 =? 0).

Definition emit_load_frame_base : E () :=
  _ ← efail_if (bad_off (exec_ctx_fr lay));
  _ ← efail_if (bad_off (call_frame_rf_mem lay));
  _ ← load_r64 JIT_REG_T2 JIT_REG_CTX (exec_ctx_fr lay);
  load_r64 JIT_REG_BASE JIT_REG_T2 (call_frame_rf_mem lay).

Definition emit_refresh_base : E () := emit_load_frame_base.

(** A slot access [acc reg base disp]: with the offset as displacement when it fits
    and is aligned, with the address in a scratch register otherwise. *)
Definition slot_access (acc : Z -> Z -> Z -> E ()) (align rt base off : Z) : E () :=
  if (off <=? 0x7FFFFFFF) && (off mod align =? 0) then acc rt base off else
  _ ← mov_r64_imm JIT_REG_T2 off;
  _ ← add_rr JIT_REG_T2 base;
  acc rt JIT_REG_T2 0.

Definition emit_ldr_w_slot := slot_access load_r32 4.
Definition emit_str_w_slot := slot_access store_r32 4.
Definition emit_ldr_x_slot := slot_access load_r64 8.
Definition emit_str_x_slot := slot_access store_r64 8.
Definition emit_ldr_d_slot := slot_access (x64_emit_load_xmm64_disp room) 8.
Definition emit_str_d_slot := slot_access (x64_emit_store_xmm64_disp room) 8.
Definition emit_ldr_s_slot := slot_access (x64_emit_load_xmm32_disp room) 4.
Definition emit_str_s_slot := slot_access (x64_emit_store_xmm32_disp room) 4.

Definition slot_off (reg : Z) : Z := zget 0 (fl_off layout) reg.

(** Any other kind than that of a register in range is never asked for. *)
Definition reg_kind (reg : Z) : jello_type_kind := default JELLO_T_BOOL (vm_reg_kind m f reg).
Definition reg_slot_sz (reg : Z) : Z := jello_slot_size (reg_kind reg).

(** ** Arithmetic on T0 and T1 *)

Definition emit_bin_i32 (bin : jello_jit_ir_bin) : E () :=
  match bin with
  | JIR_BIN_SUB => emit_sub_r32_rr room JIT_REG_T0 JIT_REG_T1
  | JIR_BIN_MUL => x64_emit_imul_r32 room JIT_REG_T0 JIT_REG_T1
  | JIR_BIN_SDIV =>
    _ ← emit_mov_r32_rr room X64_RAX JIT_REG_T0; _ ← emit_cdq room;
    _ ← emit_idiv_r32 room JIT_REG_T1; emit_mov_r32_rr room JIT_REG_T0 X64_RAX
  | JIR_BIN_MOD =>
    _ ← emit_mov_r32_rr room X64_RAX JIT_REG_T0; _ ← emit_cdq room;
    _ ← emit_idiv_r32 room JIT_REG_T1; emit_mov_r32_rr room JIT_REG_T0 X64_RDX
  | JIR_BIN_SHL => _ ← emit_mov_r32_rr room X64_RCX JIT_REG_T1; emit_shift_r32_cl room 4 JIT_REG_T0
  | JIR_BIN_SHR => _ ← emit_mov_r32_rr room X64_RCX JIT_REG_T1; emit_shift_r32_cl room 7 JIT_REG_T0
  | JIR_BIN_XOR => x64_emit_xor_r32 room JIT_REG_T0 JIT_REG_T1
  | JIR_BIN_ADD => emit_add_r32_rr room JIT_REG_T0 JIT_REG_T1
  end.

Definition emit_bin_i64 (bin : jello_jit_ir_bin) : E () :=
  match bin with
  | JIR_BIN_SUB => x64_emit_sub_rr room JIT_REG_T0 JIT_REG_T1
  | JIR_BIN_MUL => emit_imul_r64 room JIT_REG_T0 JIT_REG_T1
  | JIR_BIN_SDIV =>
    _ ← mov_rr X64_RAX JIT_REG_T0; _ ← emit_cqo room;
    _ ← emit_idiv_r64 room JIT_REG_T1; mov_rr JIT_REG_T0 X64_RAX
  | JIR_BIN_MOD =>
    _ ← mov_rr X64_RAX JIT_REG_T0; _ ← emit_cqo room;
    _ ← emit_idiv_r64 room JIT_REG_T1; mov_rr JIT_REG_T0 X64_RDX
  | JIR_BIN_SHL => _ ← emit_mov_r32_rr room X64_RCX JIT_REG_T1; emit_shift_r64_cl room 4 JIT_REG_T0
  | JIR_BIN_SHR => _ ← emit_mov_r32_rr room X64_RCX JIT_REG_T1; emit_shift_r64_cl room 7 JIT_REG_T0
  | JIR_BIN_XOR => x64_emit_xor_r64 room JIT_REG_T0 JIT_REG_T1
  | JIR_BIN_ADD => add_rr JIT_REG_T0 JIT_REG_T1
  end.

Definition emit_bin_f64 (bin : jello_jit_ir_bin) : E () :=
  match bin with
  | JIR_BIN_SUB => x64_emit_subsd room JIT_FP_T0 JIT_FP_T1
  | JIR_BIN_MUL => x64_emit_mulsd room JIT_FP_T0 JIT_FP_T1
  | JIR_BIN_SDIV => x64_emit_divsd room JIT_FP_T0 JIT_FP_T1
  | _ => x64_emit_addsd room JIT_FP_T0 JIT_FP_T1
  end.

Definition emit_bin_f32 (bin : jello_jit_ir_bin) : E () :=
  match bin with
  | JIR_BIN_SUB => x64_emit_subss room JIT_FP_T0 JIT_FP_T1
  | JIR_BIN_MUL => x64_emit_mulss room JIT_FP_T0 JIT_FP_T1
  | JIR_BIN_SDIV => x64_emit_divss room JIT_FP_T0 JIT_FP_T1
  | _ => x64_emit_addss room JIT_FP_T0 JIT_FP_T1
  end.

(** [(jello_jit_ir_bin)imm]: the lowering stores codes of enumerators only. *)
Definition bin_of_code (imm : Z) : jello_jit_ir_bin := zget JIR_BIN_ADD all_bins imm.

Definition is_cmp_lt (imm : Z) : bool := imm =? code_of_cmp JIR_CMP_LT.

Definition emit_set_t0 (cc : Z) : E () :=
  _ ← x64_emit_setcc room cc JIT_REG_T0; x64_emit_movzx_r32_r8 room JIT_REG_T0 JIT_REG_T0.

Definition emit_cmp_set_i32 (imm : Z) : E () :=
  emit_set_t0 (if is_cmp_lt imm then X64_CC_SETL else X64_CC_SETE).

(** ** The register cache: RBX holds the last stored 32-bit slot *)

Definition emit_ldr_i32_t0 (i32c src : Z) : E () :=
  if i32c =? src then emit_mov_r32_rr room JIT_REG_T0 JIT_REG_I32C
  else emit_ldr_w_slot JIT_REG_T0 JIT_REG_BASE (slot_off src).

Definition emit_ldr_i32_t1 (i32c src : Z) : E () :=
  if i32c =? src then emit_mov_r32_rr room JIT_REG_T1 JIT_REG_I32C
  else emit_ldr_w_slot JIT_REG_T1 JIT_REG_BASE (slot_off src).

(** The new cached register. *)
Definition emit_str_i32_t0 (dst : Z) : E Z :=
  _ ← emit_str_w_slot JIT_REG_T0 JIT_REG_BASE (slot_off dst);
  _ ← emit_mov_r32_rr room JIT_REG_I32C JIT_REG_T0;
  mret (u16 dst).

(** ** Prologue, epilogue, calls *)

Definition emit_prologue : E () :=
  _ ← x64_emit_endbr64 room;
  _ ← x64_emit_push_r64 room X64_RBP; _ ← x64_emit_push_r64 room X64_RBX;
  _ ← x64_emit_push_r64 room X64_R12; _ ← x64_emit_push_r64 room X64_R13;
  _ ← x64_emit_push_r64 room X64_R14; _ ← x64_emit_push_r64 room X64_R15;
  _ ← x64_emit_sub_rsp_imm8 room 8;
  _ ← mov_rr JIT_REG_CTX X64_RDI;
  _ ← emit_load_frame_base;
  _ ← efail_if (bad_off (exec_ctx_jit_resume_entry lay));
  _ ← load_r64 X64_RAX JIT_REG_CTX (exec_ctx_jit_resume_entry lay);
  _ ← test_rr X64_RAX X64_RAX;
  at_ ← jcc_at X64_CC_JZ;
  _ ← x64_emit_jmp_r64 room X64_RAX;
  cont ← esize;
  patch_jcc_rel32 at_ cont.

Definition emit_restore_callee_saved : E () :=
  _ ← x64_emit_add_rsp_imm8 room 8;
  _ ← x64_emit_pop_r64 room X64_R15; _ ← x64_emit_pop_r64 room X64_R14;
  _ ← x64_emit_pop_r64 room X64_R13; _ ← x64_emit_pop_r64 room X64_R12;
  _ ← x64_emit_pop_r64 room X64_RBX;
  x64_emit_pop_r64 room X64_RBP.

Definition emit_epilogue (return_code : Z) : E () :=
  _ ← mov_r32_imm X64_RAX return_code;
  _ ← emit_restore_callee_saved;
  x64_emit_ret room.

Definition emit_restore_and_ret : E () :=
  _ ← emit_restore_callee_saved; x64_emit_ret room.

(** The shared body: call, and leave the code unless the answer is CONTINUE. *)
Definition emit_rt_call_continue_keep_base (fn : helper) : E () :=
  _ ← emit_call_fn fn;
  _ ← test_rr X64_RAX X64_RAX;
  at_ ← jcc_at X64_CC_JZ;
  _ ← emit_restore_and_ret;
  cont ← esize;
  patch_jcc_rel32 at_ cont.

Definition emit_rt_call_continue (fn : helper) : E () :=
  _ ← emit_rt_call_continue_keep_base fn; emit_refresh_base.

(** The arguments of a helper: RDI is the context, then RSI, RDX, RCX, R8. *)
Fixpoint emit_args (rs args : list Z) : E () :=
  match rs, args with
  | r :: rs', x :: args' => _ ← mov_r32_imm r x; emit_args rs' args'
  | _, _ => mret ()
  end.

Definition emit_ctx_args (args : list Z) : E () :=
  _ ← mov_rr X64_RDI JIT_REG_CTX; emit_args [X64_RSI; X64_RDX; X64_RCX; X64_R8] args.

Definition emit_helper (fn : helper) (args : list Z) : E () :=
  _ ← emit_ctx_args args; emit_rt_call_continue_keep_base fn.

Definition emit_ldr_x_field (rt base off : Z) : E () := slot_access load_r64 8 rt base off.
Definition emit_str_x_field (rt base off : Z) : E () := slot_access store_r64 8 rt base off.

Definition emit_inline_fuel_check : E () :=
  _ ← load_r64 JIT_REG_T0 JIT_REG_CTX 0;
  _ ← emit_ldr_x_field JIT_REG_T1 JIT_REG_T0 (vm_fuel_limit lay);
  _ ← test_rr JIT_REG_T1 JIT_REG_T1;
  skip_jcc ← jcc_at X64_CC_JZ;
  _ ← emit_ldr_x_field JIT_REG_T1 JIT_REG_T0 (vm_fuel_remaining lay);
  _ ← test_rr JIT_REG_T1 JIT_REG_T1;
  trap_jcc ← jcc_at X64_CC_JZ;
  _ ← x64_emit_sub_r64_imm8 room JIT_REG_T1 1;
  _ ← emit_str_x_field JIT_REG_T1 JIT_REG_T0 (vm_fuel_remaining lay);
  jmp_done ← jmp_at;
  trap ← esize;
  _ ← mov_rr X64_RDI JIT_REG_CTX;
  _ ← emit_call_fn jello_jit_runtime_fuel_trap;
  _ ← emit_restore_and_ret;
  done_ ← esize;
  _ ← patch_jcc_rel32 skip_jcc done_;
  _ ← patch_jcc_rel32 trap_jcc trap;
  patch_jmp_rel32 jmp_done done_.

(** ** Arrays of doubles *)

(** [0] when the register holds no array of a known kind. *)
Definition vm_array_elem_kind (arr_reg : Z) : option jello_type_kind :=
  if negb (kind_eqb (reg_kind arr_reg) JELLO_T_ARRAY) then None else
  arr_tid ← f_reg_types f @! arr_reg;
  if m_ntypes m <=? arr_tid then None else
  te ← m_types m @! arr_tid;
  if negb (kind_eqb (te_kind te) JELLO_T_ARRAY) then None else
  if m_ntypes m <=? te_as te then None else te_kind <$> m_types m @! (te_as te).

Definition is_f64_elem (reg arr_reg : Z) : bool :=
  kind_eqb (reg_kind reg) JELLO_T_F64 &&
  match vm_array_elem_kind arr_reg with Some k => kind_eqb k JELLO_T_F64 | None => false end.

Definition emit_array_get_f64_helper (dst arr idx : Z) : E () :=
  emit_helper jello_jit_runtime_array_get [dst; arr; idx].

Definition emit_array_set_f64_helper (val arr idx : Z) : E () :=
  emit_helper jello_jit_runtime_array_set [val; arr; idx].

(** Null check, bounds check: the array is in T1, the index in R9. *)
Definition emit_array_checks (arr idx : Z) : E (list Z) :=
  _ ← emit_ldr_x_slot JIT_REG_T1 JIT_REG_BASE (slot_off arr);
  _ ← test_r64 JIT_REG_T1 JIT_REG_T1;
  j0 ← jcc_at X64_CC_JZ;
  _ ← emit_ldr_w_slot X64_R9 JIT_REG_BASE (slot_off idx);
  _ ← load_r32 X64_R8 JIT_REG_T1 JIT_ARRAY_OFF_LEN;
  _ ← emit_cmp_r32_rr room X64_R9 X64_R8;
  j1 ← jcc_at X64_CC_JAE;
  _ ← load_r64 X64_RAX JIT_REG_T1 JIT_ARRAY_OFF_DATA;
  _ ← mov_rr X64_R8 X64_R9;
  _ ← x64_emit_shl_r32_imm8 room X64_R8 3;
  _ ← add_rr X64_RAX X64_R8;
  mret [j0; j1].

Definition box_kind (k : jello_obj_kind) : Z := code_of_obj_kind k.

Definition emit_array_get_f64 (dst arr idx : Z) : E () :=
  if negb (is_f64_elem dst arr) then emit_array_get_f64_helper dst arr idx else
  slow ← emit_array_checks arr idx;
  _ ← load_r64 X64_RAX X64_RAX 0;
  _ ← mov_rr X64_RCX X64_RAX;
  _ ← x64_emit_and_r32_imm room X64_RCX 7;
  _ ← x64_emit_cmp_r32_imm room X64_RCX JELLO_TAG_NULL;
  j2 ← jcc_at X64_CC_JE;
  _ ← test_rr X64_RCX X64_RCX;
  j3 ← jcc_at X64_CC_JNZ;
  _ ← test_r64 X64_RAX X64_RAX;
  j4 ← jcc_at X64_CC_JZ;
  _ ← emit_cmp_m32_imm0 room X64_RAX 0 (box_kind JELLO_OBJ_BOX_F64);
  j5 ← jcc_at X64_CC_JNE;
  _ ← x64_emit_load_xmm64_disp room JIT_FP_T0 X64_RAX 8;
  _ ← emit_str_d_slot JIT_FP_T0 JIT_REG_BASE (slot_off dst);
  slow_at ← esize;
  _ ← patch_all_jcc (slow ++ [j2; j3; j4; j5]) slow_at;
  emit_array_get_f64_helper dst arr idx.

(** Jumps to the slow path unless the word in [rv] is a box of kind [k]; its tag is
    computed in [rt]. *)
Definition emit_box_checks (rv rt : Z) (k : jello_obj_kind) : E (list Z) :=
  _ ← mov_rr rt rv;
  _ ← x64_emit_and_r32_imm room rt 7;
  _ ← test_rr rt rt;
  j0 ← jcc_at X64_CC_JNZ;
  _ ← test_r64 rv rv;
  j1 ← jcc_at X64_CC_JZ;
  _ ← emit_cmp_m32_imm0 room rv 0 (box_kind k);
  j2 ← jcc_at X64_CC_JNE;
  mret [j0; j1; j2].

Definition emit_array_set_f64 (val arr idx : Z) : E () :=
  if negb (is_f64_elem val arr) then emit_array_set_f64_helper val arr idx else
  slow ← emit_array_checks arr idx;
  _ ← load_r64 X64_RCX X64_RAX 0;
  slow' ← emit_box_checks X64_RCX X64_R8 JELLO_OBJ_BOX_F64;
  _ ← emit_ldr_d_slot JIT_FP_T0 JIT_REG_BASE (slot_off val);
  _ ← x64_emit_store_xmm64_disp room JIT_FP_T0 X64_RCX 8;
  slow_at ← esize;
  _ ← patch_all_jcc (slow ++ slow') slow_at;
  emit_array_set_f64_helper val arr idx.

(** ** Object properties *)

(** [jit_obj_hash_u32]: the hash of object.c at the time of compilation. *)
Definition jit_obj_hash_u32 (x : Z) : Z :=
  let x := Z.lxor x (Z.shiftr x 16) in
  let x := u32 (x * 0x7feb352d) in
  let x := Z.lxor x (Z.shiftr x 15) in
  let x := u32 (x * 0x846ca68b) in
  Z.lxor x (Z.shiftr x 16).

(** RAX = the address of entry R9 of a table of [2^k]-byte entries at [base]. *)
Definition emit_entry_addr (k base : Z) : E () :=
  _ ← mov_rr X64_RAX X64_R9;
  _ ← x64_emit_shl_r32_imm8 room X64_RAX k;
  add_rr X64_RAX base.

(** RAX = states[R9]. *)
Definition emit_load_state : E () :=
  _ ← mov_rr X64_RAX X64_R9;
  _ ← add_rr X64_RAX X64_RCX;
  x64_emit_movzx_r32_m8_disp room X64_RAX X64_RAX 0.

(** Compares keys[R9] with the atom. *)
Definition emit_cmp_key (atom_id : Z) : E () :=
  _ ← emit_entry_addr 2 X64_R10;
  _ ← load_r32 X64_RAX X64_RAX 0;
  x64_emit_cmp_r32_imm room X64_RAX (i32 atom_id).

(** The position of the jump taken on a hit. *)
Definition emit_obj_ic_probe (atom_id : Z) : E Z :=
  _ ← emit_cmp_m32_imm0 room JIT_REG_T1 JIT_OBJ_OFF_IC_ATOM atom_id;
  miss ← jcc_at X64_CC_JNE;
  _ ← load_r32 X64_RAX JIT_REG_T1 JIT_OBJ_OFF_IC_CAP;
  _ ← load_r32 X64_R11 JIT_REG_T1 JIT_OBJ_OFF_CAP;
  _ ← emit_cmp_r32_rr room X64_RAX X64_R11;
  miss2 ← jcc_at X64_CC_JNE;
  _ ← load_r32 X64_R9 JIT_REG_T1 JIT_OBJ_OFF_IC_SLOT;
  _ ← emit_load_state;
  _ ← x64_emit_cmp_r32_imm room X64_RAX JELLO_OBJ_SLOT_OCCUPIED;
  miss3 ← jcc_at X64_CC_JNE;
  _ ← emit_cmp_key atom_id;
  miss4 ← jcc_at X64_CC_JNE;
  hit ← jmp_at;
  ic_miss_at ← esize;
  _ ← patch_all_jcc [miss; miss2; miss3; miss4] ic_miss_at;
  mret hit.

Definition emit_obj_new (dst : Z) : E () :=
  _ ← load_r64 X64_RDI JIT_REG_CTX 0;     (* offsetof(exec_ctx, vm) *)
  _ ← load_r64 X64_RAX JIT_REG_CTX 16;    (* offsetof(exec_ctx, f) *)
  _ ← load_r64 X64_RAX X64_RAX 8;         (* offsetof(jello_bc_function, reg_types) *)
  _ ← load_r32 X64_RSI X64_RAX (u32 (dst * 4));
  _ ← emit_call_fn jello_jit_object_new;
  emit_str_x_slot X64_RAX JIT_REG_BASE (slot_off dst).

Definition emit_obj_get_atom_helper (dst obj atom_id : Z) : E () :=
  emit_helper jello_jit_runtime_obj_get_atom [dst; obj; atom_id].

Definition emit_obj_set_atom_helper (val obj atom_id : Z) : E () :=
  emit_helper jello_jit_runtime_obj_set_atom [val; obj; atom_id].

(** Keys, values, states and mask into R10, RDX, RCX, R8. *)
Definition emit_table_regs : E () :=
  _ ← load_r64 X64_R10 JIT_REG_T1 JIT_OBJ_OFF_KEYS;
  _ ← load_r64 X64_RDX JIT_REG_T1 JIT_OBJ_OFF_VALS;
  _ ← load_r64 X64_RCX JIT_REG_T1 JIT_OBJ_OFF_STATES;
  _ ← load_r32 X64_R8 JIT_REG_T1 JIT_OBJ_OFF_CAP;
  x64_emit_sub_r32_imm room X64_R8 1.

(** [shr r64, 3] and [movsxd r64, r32], written out in the emitter. *)
Definition emit_shr_rax_3 : E () :=
  jello_jit_emit_bytes room
  [x64_rex 1 0 0 (reg_ext X64_RAX); 0xC1; x64_modrm 3 5 (reg_lo X64_RAX); 3].

Definition emit_movsxd_rax : E () :=
  jello_jit_emit_bytes room
  [x64_rex 1 (reg_ext X64_RAX) 0 (reg_ext X64_RAX); 0x63;
    x64_modrm 3 (reg_lo X64_RAX) (reg_lo X64_RAX)].

Definition get_inline_ok (k : jello_type_kind) : bool :=
  match k with
  | JELLO_T_F64 | JELLO_T_I8 | JELLO_T_I16 | JELLO_T_I32 | JELLO_T_I64 | JELLO_T_BYTES
  | JELLO_T_FUNCTION | JELLO_T_LIST | JELLO_T_ARRAY | JELLO_T_OBJECT | JELLO_T_ABSTRACT
  | JELLO_T_ENUM => true
  | _ => false
  end.

Definition is_small_int (k : jello_type_kind) : bool :=
  match k with JELLO_T_I8 | JELLO_T_I16 | JELLO_T_I32 => true | _ => false end.

(** Unboxing of the value in RAX, its tag in RCX, into the slot of [dst]: the jumps
    to the miss path, to the slow path and to the end. *)
Definition emit_unbox (k : jello_type_kind) (dst : Z) : E (list Z * list Z * list Z) :=
  _ ← x64_emit_cmp_r32_imm room X64_RCX JELLO_TAG_NULL;
  miss ← jcc_at X64_CC_JE;
  match k with
  | JELLO_T_F64 =>
    _ ← test_rr X64_RCX X64_RCX; s0 ← jcc_at X64_CC_JNZ;
    _ ← test_r64 X64_RAX X64_RAX; s1 ← jcc_at X64_CC_JZ;
    _ ← emit_cmp_m32_imm0 room X64_RAX 0 (box_kind JELLO_OBJ_BOX_F64); s2 ← jcc_at X64_CC_JNE;
    _ ← x64_emit_load_xmm64_disp room JIT_FP_T0 X64_RAX 8;
    _ ← emit_str_d_slot JIT_FP_T0 JIT_REG_BASE (slot_off dst);
    done_ ← jmp_at;
    mret ([miss], [s0; s1; s2], [done_])
  | JELLO_T_I8 | JELLO_T_I16 | JELLO_T_I32 =>
    _ ← x64_emit_cmp_r32_imm room X64_RCX JELLO_TAG_I32; s0 ← jcc_at X64_CC_JNE;
    _ ← emit_shr_rax_3;
    _ ← emit_str_w_slot X64_RAX JIT_REG_BASE (slot_off dst);
    done_ ← jmp_at;
    mret ([miss], [s0], [done_])
  | JELLO_T_I64 =>
    _ ← x64_emit_cmp_r32_imm room X64_RCX JELLO_TAG_I32; j_i32 ← jcc_at X64_CC_JE;
    _ ← test_rr X64_RCX X64_RCX; s0 ← jcc_at X64_CC_JNZ;
    _ ← test_r64 X64_RAX X64_RAX; s1 ← jcc_at X64_CC_JZ;
    _ ← emit_cmp_m32_imm0 room X64_RAX 0 (box_kind JELLO_OBJ_BOX_I64); s2 ← jcc_at X64_CC_JNE;
    _ ← load_r64 X64_RAX X64_RAX 8;
    _ ← emit_str_x_slot X64_RAX JIT_REG_BASE (slot_off dst);
    d0 ← jmp_at;
    i32_at ← esize; _ ← patch_jcc_rel32 j_i32 i32_at;
    _ ← emit_shr_rax_3; _ ← emit_movsxd_rax;
    _ ← emit_str_x_slot X64_RAX JIT_REG_BASE (slot_off dst);
    d1 ← jmp_at;
    mret ([miss], [s0; s1; s2], [d0; d1])
  | _ =>
    _ ← test_rr X64_RCX X64_RCX; s0 ← jcc_at X64_CC_JNZ;
    _ ← emit_str_x_slot X64_RAX JIT_REG_BASE (slot_off dst);
    done_ ← jmp_at;
    mret ([miss], [s0], [done_])
  end.

Definition emit_obj_get_atom (dst obj atom_id : Z) : E () :=
  let k := reg_kind dst in
  if negb (get_inline_ok k) || (0x7FFFFFFF <? atom_id) then emit_obj_get_atom_helper dst obj atom_id else
  let need_proto := m_proto_enabled m && negb (atom_id =? JELLO_ATOM___PROTO__) in
  _ ← emit_ldr_x_slot JIT_REG_T1 JIT_REG_BASE (slot_off obj);
  _ ← test_r64 JIT_REG_T1 JIT_REG_T1;
  s0 ← jcc_at X64_CC_JZ;
  s1 ← (if need_proto then
      _ ← load_r64 X64_RAX JIT_REG_T1 JIT_OBJ_OFF_PROTO;
      _ ← test_r64 X64_RAX X64_RAX;
      j ← jcc_at X64_CC_JNZ; mret [j]
    else mret []);
  _ ← emit_table_regs;
  ic_hit ← emit_obj_ic_probe atom_id;
  _ ← load_r32 X64_RAX JIT_REG_T1 JIT_OBJ_OFF_LEN;
  _ ← test_rr X64_RAX X64_RAX;
  m0 ← jcc_at X64_CC_JZ;
  _ ← mov_r32_imm X64_R9 (jit_obj_hash_u32 atom_id);
  _ ← emit_and_r32_rr room X64_R9 X64_R8;
  _ ← emit_mov_r32_rr room X64_R11 X64_R9;
  loop_at ← esize;
  _ ← emit_load_state;
  _ ← x64_emit_cmp_r32_imm room X64_RAX JELLO_OBJ_SLOT_EMPTY;
  m1 ← jcc_at X64_CC_JE;
  _ ← x64_emit_cmp_r32_imm room X64_RAX JELLO_OBJ_SLOT_OCCUPIED;
  j_next ← jcc_at X64_CC_JNE;
  _ ← emit_cmp_key atom_id;
  j_hit ← jcc_at X64_CC_JE;
  next_at ← esize; _ ← patch_jcc_rel32 j_next next_at;
  _ ← x64_emit_add_r32_imm room X64_R9 1;
  _ ← emit_and_r32_rr room X64_R9 X64_R8;
  _ ← emit_cmp_r32_rr room X64_R9 X64_R11;
  m2 ← jcc_at X64_CC_JE;
  j_loop ← jmp_at;
  _ ← patch_jmp_rel32 j_loop loop_at;
  hit_at ← esize; _ ← patch_jcc_rel32 j_hit hit_at; _ ← patch_jmp_rel32 ic_hit hit_at;
  _ ← emit_entry_addr 3 X64_RDX;
  _ ← load_r64 X64_RAX X64_RAX 0;
  _ ← mov_rr X64_RCX X64_RAX;
  _ ← x64_emit_and_r32_imm room X64_RCX 7;
  '(misses, slows, dones) ← emit_unbox k dst;
  miss_at ← esize; _ ← patch_all_jcc ([m0; m1; m2] ++ misses) miss_at;
  _ ← x64_emit_xor_r64 room X64_RAX X64_RAX;
  _ ← (if is_small_int k then emit_str_w_slot X64_RAX JIT_REG_BASE (slot_off dst)
    else emit_str_x_slot X64_RAX JIT_REG_BASE (slot_off dst));
  d_miss ← jmp_at;
  slow_at ← esize; _ ← patch_all_jcc ([s0] ++ s1 ++ slows) slow_at;
  _ ← emit_obj_get_atom_helper dst obj atom_id;
  done_at ← esize;
  patch_all_jmp (dones ++ [d_miss]) done_at.

Definition set_inline_ok (k : jello_type_kind) : bool :=
  match k with
  | JELLO_T_F64 | JELLO_T_I64 | JELLO_T_I32 | JELLO_T_I8 | JELLO_T_I16 => true
  | _ => false
  end.

(** R8 = the tagged word of the integer in the slot of [val]. *)
Definition emit_make_i32 (val : Z) : E () :=
  _ ← emit_ldr_w_slot X64_R8 JIT_REG_BASE (slot_off val);
  _ ← x64_emit_shl_r64_imm8 room X64_R8 3;
  x64_emit_or_r64_imm room X64_R8 JELLO_TAG_I32.

(** The store into the occupied entry at RAX. *)
Definition emit_set_hit (k : jello_type_kind) (val : Z) : E (list Z) :=
  match k with
  | JELLO_T_F64 =>
    _ ← load_r64 X64_RCX X64_RAX 0;
    slow ← emit_box_checks X64_RCX X64_R8 JELLO_OBJ_BOX_F64;
    _ ← emit_ldr_d_slot JIT_FP_T0 JIT_REG_BASE (slot_off val);
    _ ← x64_emit_store_xmm64_disp room JIT_FP_T0 X64_RCX 8;
    mret slow
  | JELLO_T_I64 =>
    _ ← load_r64 X64_RCX X64_RAX 0;
    slow ← emit_box_checks X64_RCX X64_R8 JELLO_OBJ_BOX_I64;
    _ ← emit_ldr_x_slot X64_R8 JIT_REG_BASE (slot_off val);
    _ ← store_r64 X64_R8 X64_RCX 8;
    mret slow
  | _ => _ ← emit_make_i32 val; _ ← store_r64 X64_R8 X64_RAX 0; mret []
  end.

(** The load-factor test of an insertion: the jump taken when the table must grow. *)
Definition emit_load_factor : E Z :=
  _ ← load_r32 X64_RAX JIT_REG_T1 JIT_OBJ_OFF_LEN;
  _ ← x64_emit_add_r32_imm room X64_RAX 1;
  _ ← mov_r32_imm X64_R8 JELLO_OBJECT_LOAD_NUM;
  _ ← x64_emit_imul_r32 room X64_RAX X64_R8;
  _ ← load_r32 X64_R8 JIT_REG_T1 JIT_OBJ_OFF_CAP;
  _ ← mov_r32_imm X64_R11 JELLO_OBJECT_LOAD_DEN;
  _ ← x64_emit_imul_r32 room X64_R8 X64_R11;
  _ ← x64_emit_cmp_r32_rr room X64_RAX X64_R8;
  jcc_at X64_CC_JAE.

Definition emit_set_insert (k : jello_type_kind) (val obj atom_id : Z) : E () :=
  if is_small_int k then
    _ ← emit_entry_addr 2 X64_R10;
    _ ← mov_r32_imm X64_R8 atom_id;
    _ ← store_r32 X64_R8 X64_RAX 0;
    _ ← mov_rr X64_RAX X64_R9;
    _ ← add_rr X64_RAX X64_RCX;
    _ ← x64_emit_store_imm8_disp room X64_RAX 0 JELLO_OBJ_SLOT_OCCUPIED;
    _ ← emit_make_i32 val;
    _ ← emit_entry_addr 3 X64_RDX;
    _ ← store_r64 X64_R8 X64_RAX 0;
    _ ← load_r32 X64_RAX JIT_REG_T1 JIT_OBJ_OFF_LEN;
    _ ← x64_emit_add_r32_imm room X64_RAX 1;
    store_r32 X64_RAX JIT_REG_T1 JIT_OBJ_OFF_LEN
  else
  _ ← emit_ctx_args [val; obj; atom_id];
  _ ← mov_rr X64_R8 X64_R9;
  emit_rt_call_continue_keep_base jello_jit_runtime_obj_insert_atom.

Definition emit_obj_set_atom (val obj atom_id : Z) : E () :=
  let k := reg_kind val in
  if negb (set_inline_ok k) || (atom_id =? JELLO_ATOM___PROTO__) || (0xFFF <? atom_id)
  then emit_obj_set_atom_helper val obj atom_id else
  _ ← emit_ldr_x_slot JIT_REG_T1 JIT_REG_BASE (slot_off obj);
  _ ← test_r64 JIT_REG_T1 JIT_REG_T1;
  s0 ← jcc_at X64_CC_JZ;
  _ ← emit_table_regs;
  ic_hit ← emit_obj_ic_probe atom_id;
  _ ← mov_r32_imm X64_R9 (jit_obj_hash_u32 atom_id);
  _ ← emit_and_r32_rr room X64_R9 X64_R8;
  _ ← emit_mov_r32_rr room JIT_REG_T0 X64_R9;
  _ ← mov_r32_imm X64_R11 0xFFFFFFFF;
  _ ← load_r32 X64_RAX JIT_REG_T1 JIT_OBJ_OFF_LEN;
  _ ← test_rr X64_RAX X64_RAX;
  i0 ← jcc_at X64_CC_JZ;
  loop_at ← esize;
  _ ← emit_load_state;
  _ ← x64_emit_cmp_r32_imm room X64_RAX JELLO_OBJ_SLOT_EMPTY;
  i1 ← jcc_at X64_CC_JE;
  _ ← x64_emit_cmp_r32_imm room X64_RAX JELLO_OBJ_SLOT_OCCUPIED;
  j_tomb ← jcc_at X64_CC_JNE;
  _ ← emit_cmp_key atom_id;
  j_hit ← jcc_at X64_CC_JE;
  j_to_next ← jmp_at;
  tomb_at ← esize; _ ← patch_jcc_rel32 j_tomb tomb_at;
  _ ← x64_emit_cmp_r32_imm room X64_R11 (-1);
  j_skip_tomb ← jcc_at X64_CC_JNE;
  _ ← mov_rr X64_R11 X64_R9;
  skip_tomb_at ← esize; _ ← patch_jcc_rel32 j_skip_tomb skip_tomb_at;
  next_at ← esize; _ ← patch_jmp_rel32 j_to_next next_at;
  _ ← x64_emit_add_r32_imm room X64_R9 1;
  _ ← emit_and_r32_rr room X64_R9 X64_R8;
  _ ← emit_cmp_r32_rr room X64_R9 JIT_REG_T0;
  s1 ← jcc_at X64_CC_JE;
  j_loop ← jmp_at;
  _ ← patch_jmp_rel32 j_loop loop_at;
  hit_at ← esize; _ ← patch_jcc_rel32 j_hit hit_at; _ ← patch_jmp_rel32 ic_hit hit_at;
  _ ← emit_entry_addr 3 X64_RDX;
  slow_hit ← emit_set_hit k val;
  d0 ← jmp_at;
  insert_at ← esize; _ ← patch_all_jcc [i0; i1] insert_at;
  _ ← x64_emit_cmp_r32_imm room X64_R11 (-1);
  j_use_i ← jcc_at X64_CC_JE;
  _ ← mov_rr X64_R9 X64_R11;
  use_i_at ← esize; _ ← patch_jcc_rel32 j_use_i use_i_at;
  s2 ← emit_load_factor;
  _ ← emit_set_insert k val obj atom_id;
  d1 ← jmp_at;
  slow_at ← esize; _ ← patch_all_jcc ([s0; s1] ++ slow_hit ++ [s2]) slow_at;
  _ ← emit_obj_set_atom_helper val obj atom_id;
  done_at ← esize;
  patch_all_jmp [d0; d1] done_at.

(** ** The instructions *)

(** The bytecode opcode behind an instruction. *)
Definition bc_is (ir : jello_jit_ir_insn) (o : jello_op) : bool := is_op (insn_at f (ir_pc ir)) o.

(** Each case answers the cached register after it. *)
Definition emit_mov_reg (i32c : Z) (ir : jello_jit_ir_insn) : E Z :=
  if reg_slot_sz (ir_a ir) =? 8 then
    _ ← emit_ldr_x_slot JIT_REG_T0 JIT_REG_BASE (slot_off (ir_b ir));
    _ ← emit_str_x_slot JIT_REG_T0 JIT_REG_BASE (slot_off (ir_a ir));
    mret JIT_I32C_NONE
  else _ ← emit_ldr_i32_t0 i32c (ir_b ir); emit_str_i32_t0 (ir_a ir).

Definition emit_ir_bin_i32 (i32c : Z) (ir : jello_jit_ir_insn) : E Z :=
  let imm_rhs := bc_is ir JOP_ADD_I32_IMM || bc_is ir JOP_SUB_I32_IMM || bc_is ir JOP_MUL_I32_IMM in
  let imm8 := i8 (ir_c ir) in
  let bop := bin_of_code (ir_imm ir) in
  _ ← emit_ldr_i32_t0 i32c (ir_b ir);
  _ ← (match imm_rhs, bop with
    | true, JIR_BIN_SUB => x64_emit_sub_r32_imm room JIT_REG_T0 imm8
    | true, JIR_BIN_ADD => x64_emit_add_r32_imm room JIT_REG_T0 imm8
    | true, _ => _ ← mov_r32_imm JIT_REG_T1 (u32 imm8); emit_bin_i32 bop
    | false, _ => _ ← emit_ldr_i32_t1 i32c (ir_c ir); emit_bin_i32 bop
    end);
  emit_str_i32_t0 (ir_a ir).

(** The 64-bit operations through T0 and T1, into the slot of [a]. *)
Definition emit_ir_bin_i64 (ir : jello_jit_ir_insn) : E Z :=
  _ ← emit_ldr_x_slot JIT_REG_T0 JIT_REG_BASE (slot_off (ir_b ir));
  _ ← emit_ldr_x_slot JIT_REG_T1 JIT_REG_BASE (slot_off (ir_c ir));
  _ ← emit_bin_i64 (bin_of_code (ir_imm ir));
  _ ← emit_str_x_slot JIT_REG_T0 JIT_REG_BASE (slot_off (ir_a ir));
  mret JIT_I32C_NONE.

Definition emit_ir_bin_f64 (i32c : Z) (ir : jello_jit_ir_insn) : E Z :=
  _ ← emit_ldr_d_slot JIT_FP_T0 JIT_REG_BASE (slot_off (ir_b ir));
  _ ← emit_ldr_d_slot JIT_FP_T1 JIT_REG_BASE (slot_off (ir_c ir));
  _ ← emit_bin_f64 (bin_of_code (ir_imm ir));
  _ ← emit_str_d_slot JIT_FP_T0 JIT_REG_BASE (slot_off (ir_a ir));
  mret i32c.

Definition emit_ir_bin_f32 (i32c : Z) (ir : jello_jit_ir_insn) : E Z :=
  _ ← emit_ldr_s_slot JIT_FP_T0 JIT_REG_BASE (slot_off (ir_b ir));
  _ ← emit_ldr_s_slot JIT_FP_T1 JIT_REG_BASE (slot_off (ir_c ir));
  _ ← emit_bin_f32 (bin_of_code (ir_imm ir));
  _ ← emit_str_s_slot JIT_FP_T0 JIT_REG_BASE (slot_off (ir_a ir));
  mret i32c.

Definition emit_sqrt (i32c : Z) (ir : jello_jit_ir_insn) : E Z :=
  _ ← emit_ldr_d_slot JIT_FP_T0 JIT_REG_BASE (slot_off (ir_b ir));
  _ ← x64_emit_sqrtsd room JIT_FP_T0 JIT_FP_T0;
  _ ← emit_str_d_slot JIT_FP_T0 JIT_REG_BASE (slot_off (ir_a ir));
  mret i32c.

Definition emit_cmp_i32 (i32c : Z) (ir : jello_jit_ir_insn) : E Z :=
  let rhs_is_imm := bc_is ir JOP_EQ_I32_IMM || bc_is ir JOP_LT_I32_IMM in
  _ ← emit_ldr_i32_t0 i32c (ir_b ir);
  _ ← (if rhs_is_imm then x64_emit_cmp_r32_imm room JIT_REG_T0 (i8 (ir_c ir))
    else if ir_c ir =? 255 then x64_emit_cmp_r32_imm0 room JIT_REG_T0
    else _ ← emit_ldr_i32_t1 i32c (ir_c ir); emit_cmp_r32_rr room JIT_REG_T0 JIT_REG_T1);
  _ ← emit_cmp_set_i32 (ir_imm ir);
  emit_str_i32_t0 (ir_a ir).

Definition emit_cmp_i64 (ir : jello_jit_ir_insn) : E Z :=
  _ ← emit_ldr_x_slot JIT_REG_T0 JIT_REG_BASE (slot_off (ir_b ir));
  _ ← emit_ldr_x_slot JIT_REG_T1 JIT_REG_BASE (slot_off (ir_c ir));
  _ ← x64_emit_cmp_r64_rr room JIT_REG_T0 JIT_REG_T1;
  _ ← emit_cmp_set_i32 (ir_imm ir);
  _ ← emit_str_w_slot JIT_REG_T0 JIT_REG_BASE (slot_off (ir_a ir));
  mret JIT_I32C_NONE.

Definition emit_cmp_set_fp (imm : Z) : E () :=
  emit_set_t0 (if is_cmp_lt imm then X64_CC_SETB else X64_CC_SETE).

Definition emit_cmp_f64 (ir : jello_jit_ir_insn) : E Z :=
  _ ← emit_ldr_d_slot JIT_FP_T0 JIT_REG_BASE (slot_off (ir_b ir));
  _ ← emit_ldr_d_slot JIT_FP_T1 JIT_REG_BASE (slot_off (ir_c ir));
  _ ← x64_emit_comisd room JIT_FP_T0 JIT_FP_T1;
  _ ← emit_cmp_set_fp (ir_imm ir);
  _ ← emit_str_w_slot JIT_REG_T0 JIT_REG_BASE (slot_off (ir_a ir));
  mret JIT_I32C_NONE.

Definition emit_cmp_f32 (ir : jello_jit_ir_insn) : E Z :=
  _ ← emit_ldr_s_slot JIT_FP_T0 JIT_REG_BASE (slot_off (ir_b ir));
  _ ← emit_ldr_s_slot JIT_FP_T1 JIT_REG_BASE (slot_off (ir_c ir));
  _ ← x64_emit_comiss room JIT_FP_T0 JIT_FP_T1;
  _ ← emit_cmp_set_fp (ir_imm ir);
  _ ← emit_str_w_slot JIT_REG_T0 JIT_REG_BASE (slot_off (ir_a ir));
  mret JIT_I32C_NONE.

Definition emit_load_const (sz8 : bool) (ir : jello_jit_ir_insn) (c : Z) : E Z :=
  if sz8 then
    _ ← mov_r64_imm JIT_REG_T0 c;
    _ ← emit_str_x_slot JIT_REG_T0 JIT_REG_BASE (slot_off (ir_a ir)); mret JIT_I32C_NONE
  else
  _ ← mov_r32_imm JIT_REG_T0 c;
  _ ← emit_str_w_slot JIT_REG_T0 JIT_REG_BASE (slot_off (ir_a ir)); mret JIT_I32C_NONE.

(** [const_i64[imm]] or [const_f64[imm]], or failure when the index is outside. *)
Definition emit_pool (n : Z) (pool : list Z) (ir : jello_jit_ir_insn) : E Z :=
  let idx := u32 (ir_imm ir) in
  if n <=? idx then efail else emit_load_const true ir (u64 (zget 0 pool idx)).

Definition emit_neg_i32 (i32c : Z) (ir : jello_jit_ir_insn) : E Z :=
  _ ← emit_ldr_i32_t0 i32c (ir_b ir);
  _ ← emit_neg_r32 room JIT_REG_T0;
  emit_str_i32_t0 (ir_a ir).

Definition emit_neg_i64 (ir : jello_jit_ir_insn) : E Z :=
  _ ← emit_ldr_x_slot JIT_REG_T0 JIT_REG_BASE (slot_off (ir_b ir));
  _ ← x64_emit_neg_r64 room JIT_REG_T0;
  _ ← emit_str_x_slot JIT_REG_T0 JIT_REG_BASE (slot_off (ir_a ir));
  mret JIT_I32C_NONE.

Definition emit_neg_f64 (ir : jello_jit_ir_insn) : E Z :=
  _ ← emit_ldr_x_slot JIT_REG_T0 JIT_REG_BASE (slot_off (ir_b ir));
  _ ← mov_r64_imm JIT_REG_T1 0x8000000000000000;
  _ ← x64_emit_xor_r64 room JIT_REG_T0 JIT_REG_T1;
  _ ← emit_str_x_slot JIT_REG_T0 JIT_REG_BASE (slot_off (ir_a ir));
  mret JIT_I32C_NONE.

Definition emit_neg_f32 (ir : jello_jit_ir_insn) : E Z :=
  _ ← emit_ldr_w_slot JIT_REG_T0 JIT_REG_BASE (slot_off (ir_b ir));
  _ ← mov_r32_imm JIT_REG_T1 0x80000000;
  _ ← x64_emit_xor_r32 room JIT_REG_T0 JIT_REG_T1;
  _ ← emit_str_w_slot JIT_REG_T0 JIT_REG_BASE (slot_off (ir_a ir));
  mret JIT_I32C_NONE.

(** ** Calls of compiled functions, returns *)

Definition emit_call_args (ir : jello_jit_ir_insn) : E () :=
  emit_ctx_args [ir_b ir; ir_c ir; ir_a ir; u32 (ir_pc ir + 1)].

Definition emit_call_self (body_entry : Z) (ir : jello_jit_ir_insn) : E () :=
  _ ← emit_call_args ir;
  lea_at ← esize;
  _ ← x64_emit_lea_rip_rel32 room X64_R9;
  _ ← emit_rt_call_continue jello_jit_runtime_call_self;
  jmp ← jmp_at;
  resume ← esize;
  _ ← x64_patch_lea_rip_rel32 lea_at resume;
  patch_jmp_rel32 jmp body_entry.

(** The jump through the context field at [off], which is cleared. *)
Definition emit_jump_field (off : Z) : E () :=
  _ ← efail_if (bad_off off);
  _ ← load_r64 X64_RAX JIT_REG_CTX off;
  _ ← mov_r64_imm JIT_REG_T0 0;
  _ ← store_r64 JIT_REG_T0 JIT_REG_CTX off;
  _ ← emit_refresh_base;
  x64_emit_jmp_r64 room X64_RAX.

(** Leaving the code unless RAX is CONTINUE. *)
Definition emit_leave_unless_continue : E () :=
  _ ← test_rr X64_RAX X64_RAX;
  at_ ← jcc_at X64_CC_JZ;
  _ ← emit_restore_and_ret;
  cont ← esize;
  patch_jcc_rel32 at_ cont.

Definition emit_call_direct (ir : jello_jit_ir_insn) : E () :=
  let bidx := Z.land (u32 (ir_imm ir)) 0xFFFF in
  let callee_reg := Z.shiftr (u32 (ir_imm ir)) 16 in
  let callee_reg := if callee_reg =? 0xFFFF then 0xFFFFFFFF else callee_reg in
  _ ← emit_call_args ir;
  lea_at ← esize;
  _ ← x64_emit_lea_rip_rel32 room X64_R9;
  _ ← x64_emit_sub_rsp_imm8 room 16;
  _ ← mov_r32_imm X64_RAX bidx;
  _ ← store_r64 X64_RAX X64_RSP 0;
  _ ← mov_r32_imm X64_RAX callee_reg;
  _ ← store_r64 X64_RAX X64_RSP 8;
  _ ← emit_call_fn jello_jit_runtime_call_direct;
  _ ← x64_emit_add_rsp_imm8 room 16;
  _ ← emit_leave_unless_continue;
  _ ← emit_jump_field (exec_ctx_jit_call_entry lay);
  resume ← esize;
  x64_patch_lea_rip_rel32 lea_at resume.

Definition emit_ret (ir : jello_jit_ir_insn) : E () :=
  _ ← emit_ctx_args [ir_a ir];
  _ ← emit_call_fn jello_jit_runtime_ret_self;
  _ ← emit_leave_unless_continue;
  emit_jump_field (exec_ctx_jit_self_resume lay).

(** ** Branches *)

Definition switch_kind_target (switch_pc ncases delta : Z) : Z :=
  u32 (switch_pc + 1 + ncases + u32 delta).

(** A site is recorded while there is room for it. *)
Definition full (patch_cap : Z) (sites : list jello_jit_patch_site) : bool :=
  patch_cap <=? zlen sites.

Definition emit_jmp (cap : Z) (ir : jello_jit_ir_insn) (sites : list jello_jit_patch_site)
  : E (list jello_jit_patch_site) :=
  let tgt := u32 (ir_imm ir) in
  _ ← efail_if ((f_ninsns f <=? tgt) || full cap sites);
  at_ ← jmp_at;
  mret (sites ++ [mk_site at_ tgt false]).

Definition emit_jmp_if (cap i32c : Z) (ir : jello_jit_ir_insn) (sites : list jello_jit_patch_site)
  : E (list jello_jit_patch_site) :=
  let tgt := u32 (ir_imm ir) in
  _ ← efail_if ((f_ninsns f <=? tgt) || full cap sites);
  _ ← emit_ldr_i32_t0 i32c (ir_a ir);
  _ ← test_rr JIT_REG_T0 JIT_REG_T0;
  at_ ← jcc_at X64_CC_JNZ;
  mret (sites ++ [mk_site at_ tgt true]).

Fixpoint emit_cases (cap spc ncases : Z) (cases : list jello_jit_ir_insn)
    (sites : list jello_jit_patch_site) : E (list jello_jit_patch_site) :=
  match cases with
  | [] => mret sites
  | cs :: cases' =>
    _ ← efail_if (negb (bool_decide (ir_op cs = JIR_SWITCH_CASE)));
    _ ← mov_r32_imm JIT_REG_T1 (ir_a cs);
    _ ← x64_emit_cmp_r32_rr room JIT_REG_T0 JIT_REG_T1;
    _ ← efail_if (full cap sites);
    at_ ← jcc_at X64_CC_JE;
    emit_cases cap spc ncases cases' (sites ++ [mk_site at_ (switch_kind_target spc ncases (ir_imm cs)) true])
  end.

(** [rest] is what follows the switch in the list. *)
Definition emit_switch (cap i32c : Z) (ir : jello_jit_ir_insn) (rest : list jello_jit_ir_insn)
    (sites : list jello_jit_patch_site) : E (list jello_jit_patch_site) :=
  let spc := ir_pc ir in
  let ncases := ir_b ir in
  _ ← efail_if (zlen rest <? ncases);
  _ ← emit_ldr_i32_t0 i32c (ir_a ir);
  sites ← emit_cases cap spc ncases (take (Z.to_nat ncases) rest) sites;
  _ ← efail_if (full cap sites);
  at_ ← jmp_at;
  mret (sites ++ [mk_site at_ (switch_kind_target spc ncases (ir_imm ir)) false]).

(** ** The loop over the instructions *)

(** After a call the cached register is forgotten. *)
Definition then_none (c : E ()) : E Z := _ ← c; mret JIT_I32C_NONE.

Definition a3 (ir : jello_jit_ir_insn) : list Z := [ir_a ir; ir_b ir; ir_c ir].

(** The code of an instruction that is no branch: the cached register after it. *)
Definition emit_insn (body_entry i32c : Z) (ir : jello_jit_ir_insn) : E Z :=
  let a := ir_a ir in let b := ir_b ir in let c := ir_c ir in let imm := u32 (ir_imm ir) in
  match ir_op ir with
  | JIR_NOP => mret i32c
  | JIR_LOAD_I32 => _ ← mov_r32_imm JIT_REG_T0 imm; emit_str_i32_t0 a
  | JIR_LOAD_I64 => emit_pool (m_nconst_i64 m) (m_const_i64 m) ir
  | JIR_LOAD_F64 => emit_pool (m_nconst_f64 m) (m_const_f64 m) ir
  | JIR_LOAD_F32 => emit_load_const false ir imm
  | JIR_MOV_REG => emit_mov_reg i32c ir
  | JIR_BIN_I32 => emit_ir_bin_i32 i32c ir
  | JIR_BIN_I64 => emit_ir_bin_i64 ir
  | JIR_BIN_F64 => emit_ir_bin_f64 i32c ir
  | JIR_SQRT_F64 => emit_sqrt i32c ir
  | JIR_BIN_F32 => emit_ir_bin_f32 i32c ir
  | JIR_NEG_I32 => emit_neg_i32 i32c ir
  | JIR_NEG_I64 => emit_neg_i64 ir
  | JIR_NEG_F64 => emit_neg_f64 ir
  | JIR_NEG_F32 => emit_neg_f32 ir
  | JIR_LOAD_NULL => emit_load_const true ir jello_make_null
  | JIR_CMP_I32 => emit_cmp_i32 i32c ir
  | JIR_CMP_I64 => emit_cmp_i64 ir
  | JIR_CMP_F64 => emit_cmp_f64 ir
  | JIR_CMP_F32 => emit_cmp_f32 ir
  | JIR_FUEL_CHECK => then_none emit_inline_fuel_check
  | JIR_BYTES_LEN => then_none (emit_helper jello_jit_runtime_bytes_len [a; b])
  | JIR_BYTES_EQ => then_none (emit_helper jello_jit_runtime_bytes_eq (a3 ir))
  | JIR_BYTES_GET_U8 => then_none (emit_helper jello_jit_runtime_bytes_get_u8 (a3 ir))
  | JIR_BYTES_SET_U8 => then_none (emit_helper jello_jit_runtime_bytes_set_u8 (a3 ir))
  | JIR_BYTES_READ => then_none (emit_helper jello_jit_runtime_bytes_read (a3 ir ++ [imm]))
  | JIR_BYTES_WRITE => then_none (emit_helper jello_jit_runtime_bytes_write (a3 ir ++ [imm]))
  | JIR_ARRAY_LEN => then_none (emit_helper jello_jit_runtime_array_len [a; b])
  | JIR_ARRAY_GET => then_none (emit_array_get_f64 a b c)
  | JIR_ARRAY_SET => then_none (emit_array_set_f64 a b c)
  | JIR_ARRAY_NEW => then_none (emit_helper jello_jit_runtime_array_new [a; b])
  | JIR_BYTES_NEW => then_none (emit_helper jello_jit_runtime_bytes_new [a; b])
  | JIR_ASSERT => then_none (emit_helper jello_jit_runtime_assert (a3 ir))
  | JIR_CONST_BYTES => then_none (emit_helper jello_jit_runtime_const_bytes [a; imm])
  | JIR_CONST_FUN => then_none (emit_helper jello_jit_runtime_const_fun [a; imm])
  | JIR_CLOSURE =>
    then_none (_ ← emit_ctx_args (a3 ir ++ [imm]); emit_rt_call_continue jello_jit_runtime_closure)
  | JIR_CONV => then_none (emit_helper jello_jit_runtime_conv [a; b; imm])
  | JIR_OBJ_GET_ATOM => then_none (emit_obj_get_atom a b imm)
  | JIR_OBJ_SET_ATOM => then_none (emit_obj_set_atom a b imm)
  | JIR_OBJ_NEW => then_none (emit_obj_new a)
  | JIR_SLOW => then_none (_ ← emit_ctx_args [imm]; emit_rt_call_continue jello_jit_runtime_slow_op)
  | JIR_CALL_SELF => then_none (emit_call_self body_entry ir)
  | JIR_CALL_DIRECT => then_none (emit_call_direct ir)
  | JIR_RET => then_none (emit_ret ir)
  | JIR_JMP | JIR_JMP_IF | JIR_SWITCH | JIR_SWITCH_CASE => efail
  end.

(** [mark_bc_target]: the first instruction of the position that is neither a fuel
    check nor a case, as an index. *)
Fixpoint bc_target_index (insns : list jello_jit_ir_insn) (k bc_tgt : Z) : option Z :=
  match insns with
  | [] => None
  | ir :: insns' =>
    if negb (ir_pc ir =? bc_tgt) ||
    bool_decide (ir_op ir = JIR_FUEL_CHECK) || bool_decide (ir_op ir = JIR_SWITCH_CASE)
    then bc_target_index insns' (k + 1) bc_tgt else Some k
  end.

(** The positions the instruction branches to; the cases of a switch follow it. *)
Definition branch_targets (ir : jello_jit_ir_insn) (rest : list jello_jit_ir_insn) : list Z :=
  match ir_op ir with
  | JIR_JMP | JIR_JMP_IF => [u32 (ir_imm ir)]
  | JIR_SWITCH =>
    let nc := ir_b ir in
    switch_kind_target (ir_pc ir) nc (ir_imm ir) ::
    map (fun cs => switch_kind_target (ir_pc ir) nc (ir_imm cs))
      (filter (fun cs => ir_op cs = JIR_SWITCH_CASE) (take (Z.to_nat nc) rest))
  | _ => []
  end.

Fixpoint all_targets (insns : list jello_jit_ir_insn) : list Z :=
  match insns with
  | [] => []
  | ir :: rest => branch_targets ir rest ++ all_targets rest
  end.

(** [is_target[i]]. *)
Definition is_target (insns : list jello_jit_ir_insn) (i : Z) : bool :=
  existsb (fun t => match bc_target_index insns 0 t with Some k => k =? i | None => false end)
    (all_targets insns).

(** The state of [emit_ir]: offsets of the instructions so far, patch sites, the
    cached register, [*saw_ret]. *)
Record emit_state : Set := mk_es {
  es_off : list Z;
  es_sites : list jello_jit_patch_site;
  es_i32c : Z;
  es_saw_ret : bool
}.

(** The instructions from index [i] on, [skip] cases of a switch first: they get no
    offset ([ir_off] stays 0). *)
Fixpoint emit_loop (all : list jello_jit_ir_insn) (body_entry i : Z) (skip : nat)
    (insns : list jello_jit_ir_insn) (st : emit_state) : E emit_state :=
  match insns with
  | [] => mret st
  | ir :: rest =>
    let cap := zlen all in
    let off0 := mk_es (es_off st ++ [0]) (es_sites st) (es_i32c st) (es_saw_ret st) in
    match skip with
    | S skip' => emit_loop all body_entry (i + 1) skip' rest off0
    | O =>
      if bool_decide (ir_op ir = JIR_SWITCH_CASE) then emit_loop all body_entry (i + 1) 0 rest off0 else
      off ← esize;
      let i32c := if is_target all i then JIT_I32C_NONE else es_i32c st in
      _ ← x64_emit_endbr64 room;
      let offs := es_off st ++ [off] in
      match ir_op ir with
      | JIR_JMP =>
        sites ← emit_jmp cap ir (es_sites st);
        emit_loop all body_entry (i + 1) 0 rest (mk_es offs sites i32c (es_saw_ret st))
      | JIR_JMP_IF =>
        sites ← emit_jmp_if cap i32c ir (es_sites st);
        emit_loop all body_entry (i + 1) 0 rest (mk_es offs sites i32c (es_saw_ret st))
      | JIR_SWITCH =>
        sites ← emit_switch cap i32c ir rest (es_sites st);
        emit_loop all body_entry (i + 1) (Z.to_nat (ir_b ir)) rest (mk_es offs sites i32c (es_saw_ret st))
      | o =>
        i32c' ← emit_insn body_entry i32c ir;
        emit_loop all body_entry (i + 1) 0 rest
          (mk_es offs (es_sites st) i32c' (es_saw_ret st || bool_decide (o = JIR_RET)))
      end
    end
  end.

Definition emit_ir (insns : list jello_jit_ir_insn) (body_entry : Z) : E emit_state :=
  emit_loop insns body_entry 0 0 insns (mk_es [] [] JIT_I32C_NONE false).

(** [ir_off_for_bc]: the offset of the first instruction of the position that is no
    fuel check, else of the first one, else 0. *)
Fixpoint find_off (no_fuel : bool) (insns : list jello_jit_ir_insn) (offs : list Z) (bc_pc : Z)
  : option Z :=
  match insns, offs with
  | ir :: insns', o :: offs' =>
    if (ir_pc ir =? bc_pc) && negb (no_fuel && bool_decide (ir_op ir = JIR_FUEL_CHECK)) then Some o
    else find_off no_fuel insns' offs' bc_pc
  | _, _ => None
  end.

Definition ir_off_for_bc (insns : list jello_jit_ir_insn) (offs : list Z) (bc_pc : Z) : Z :=
  match find_off true insns offs bc_pc with
  | Some o => o
  | None => default 0 (find_off false insns offs bc_pc)
  end.

Fixpoint patch_branch_sites (insns : list jello_jit_ir_insn) (offs : list Z) (prologue_end : Z)
    (sites : list jello_jit_patch_site) : E () :=
  match sites with
  | [] => mret ()
  | ps :: sites' =>
    let target := ir_off_for_bc insns offs (ps_tgt ps) in
    _ ← efail_if (target <? prologue_end);
    _ ← (if ps_jcc ps then patch_jcc_rel32 (ps_at ps) target else patch_jmp_rel32 (ps_at ps) target);
    patch_branch_sites insns offs prologue_end sites'
  end.

(** The first native offset of every bytecode position, 0 where there is none. *)
Fixpoint fill_map (n : Z) (insns : list jello_jit_ir_insn) (offs : list Z) (map_ : list Z) : list Z :=
  match insns, offs with
  | ir :: insns', o :: offs' =>
    let pc := ir_pc ir in
    let map_ := if n <=? pc then map_ else if zget 0 map_ pc =? 0 then map_ @[pc := u32 o] else map_ in
    fill_map n insns' offs' map_
  | _, _ => map_
  end.

Definition build_bc_pc_map (insns : list jello_jit_ir_insn) (offs : list Z) : list Z :=
  fill_map (f_ninsns f) insns offs (replicate (Z.to_nat (f_ninsns f)) 0).

(** [x64_emit_func]: entry and body offsets and the map; the entry is at 0. *)
Definition x64_emit_func (ir : jello_jit_ir_func) : E (Z * Z * list Z) :=
  _ ← efail_if (negb (ir_ok ir));
  _ ← emit_prologue;
  prologue_end ← esize;
  st ← emit_ir (ir_insns ir) prologue_end;
  _ ← patch_branch_sites (ir_insns ir) (es_off st) prologue_end (es_sites st);
  _ ← (if es_saw_ret st then mret () else emit_epilogue JELLO_JIT_EXIT_YIELD);
  mret (0, prologue_end, build_bc_pc_map (ir_insns ir) (es_off st)).
End Codegen.
