(* ===== verification/X64Thms.v ===== *)
(** * The encoders emit the instructions they are named after

    [encodes c i] lists, emitter by emitter, the instruction meant;
    [encoders_decode] is the round trip through the bytes. *)

From S2P Require Import Prelude CInt Memory Float Bytecode Value Object Vm Frame JitIr X64 X64Sem JitX64.
#[local] Open Scope list_scope.
#[local] Open Scope Z_scope.

(** ** Bytes of one instruction *)

(** [bs] decodes to [i] whatever follows. *)
Definition decodes (bs : list Z) (i : instr) : Prop :=
  forall rest, x86_decode (bs ++ rest) = Some (i, zlen bs).

Definition is_reg (r : Z) : Prop := 0 <= r < 16.
Definition is_xreg (r : Z) : Prop := 0 <= r < 8.

(** A register whose low byte an instruction without REX prefix can name. *)
Definition low_byte_reg (r : Z) : Prop := r < 4 \/ 8 <= r.

Lemma reg_cases (P : Z -> Prop) r :
  is_reg r ->
  P 0 /\ P 1 /\ P 2 /\ P 3 /\ P 4 /\ P 5 /\ P 6 /\ P 7 /\ P 8 /\ P 9 /\ P 10 /\ P 11 /\ P 12 /\
  P 13 /\ P 14 /\ P 15 -> P r.
Proof.
  unfold is_reg. intros Hr H.
  assert (r = 0 \/ r = 1 \/ r = 2 \/ r = 3 \/ r = 4 \/ r = 5 \/ r = 6 \/ r = 7 \/ r = 8 \/ r = 9 \/
          r = 10 \/ r = 11 \/ r = 12 \/ r = 13 \/ r = 14 \/ r = 15) as D by lia.
  repeat (destruct D as [->|D]; [tauto|]). subst. tauto.
Qed.

Lemma xreg_cases (P : Z -> Prop) r :
  is_xreg r -> P 0 /\ P 1 /\ P 2 /\ P 3 /\ P 4 /\ P 5 /\ P 6 /\ P 7 -> P r.
Proof.
  unfold is_xreg. intros Hr H.
  assert (r = 0 \/ r = 1 \/ r = 2 \/ r = 3 \/ r = 4 \/ r = 5 \/ r = 6 \/ r = 7) as D by lia.
  repeat (destruct D as [->|D]; [tauto|]). subst. tauto.
Qed.

(** The bytes of an immediate, as unknown ones with their value. *)
Lemma le4 x : is_u 32 x ->
  exists b0 b1 b2 b3, le_bytes 4 x = [b0; b1; b2; b3] /\ x = le_value [b0; b1; b2; b3].
Proof.
  intros H. do 4 eexists. split; [reflexivity|].
  change (x = le_value (le_bytes 4 x)). rewrite le_value_bytes. symmetry. by apply Z.mod_small.
Qed.

Lemma le8 x : is_u 64 x ->
  exists b0 b1 b2 b3 b4 b5 b6 b7, le_bytes 8 x = [b0; b1; b2; b3; b4; b5; b6; b7] /\
    x = le_value [b0; b1; b2; b3; b4; b5; b6; b7].
Proof.
  intros H. do 8 eexists. split; [reflexivity|].
  change (x = le_value (le_bytes 8 x)). rewrite le_value_bytes. symmetry. by apply Z.mod_small.
Qed.

Lemma le4_signed x : is_s 32 x ->
  exists b0 b1 b2 b3, le_bytes 4 x = [b0; b1; b2; b3] /\ x = i32 (le_value [b0; b1; b2; b3]).
Proof.
  intros H. do 4 eexists. split; [reflexivity|].
  change (x = i32 (le_value (le_bytes 4 x))). rewrite le_value_bytes.
  change (x mod 2 ^ (8 * Z.of_nat 4)) with (wrapU 32 x).
  rewrite wrapS_wrapU by lia. by rewrite wrapS_id by (done || lia).
Qed.

Lemma imm8_signed x : (-128 <=? x) && (x <=? 127) = true -> i8 (u8 x) = x.
Proof. intros H. bool_hyps. rewrite wrapS_wrapU by lia. apply wrapS_id; [lia|]. split; cbn; lia. Qed.

(** Every register. *)
Ltac all_regs :=
  try match goal with H : is_ext _ = is_ext _ |- _ => revert H end;
  try match goal with H : low_byte_reg _ |- _ => revert H end;
  repeat match goal with
  | H : is_reg ?r |- _ => pattern r; apply (reg_cases _ r H); clear H; repeat apply conj
  | H : is_xreg ?r |- _ => pattern r; apply (xreg_cases _ r H); clear H; repeat apply conj
  end.

Section Encoders.
Context (room : Z -> bool).

(** The instruction each emitter stands for.  Not among them are a multiplication and a
    byte move of two registers, one of the first eight and one of the others
    ([imul_mixed_swaps]), and instructions on the low byte of RSP to RDI
    ([setcc_sets_high_byte]).  [x64_emit_cmp_r32_rr] stands, in spite of its name, for a
    comparison of 64 bits. *)
Inductive encodes : E () -> instr -> Prop :=
| enc_mov_rr d s : is_reg d -> is_reg s -> encodes (x64_emit_mov_rr room d s) (IMov W64 d s)
| enc_mov_r32_rr d s : is_reg d -> is_reg s -> encodes (emit_mov_r32_rr room d s) (IMov W32 d s)
| enc_mov_r32_imm d k :
  is_reg d -> is_u 32 k -> encodes (x64_emit_mov_r32_imm room d k) (IMovImm W32 d k)
| enc_mov_r64_imm d k :
  is_reg d -> is_u 64 k -> encodes (x64_emit_mov_r64_imm room d k) (IMovImm W64 d k)
| enc_load_r32 d b p : is_reg d -> is_reg b -> is_u 32 p ->
  encodes (x64_emit_load_r32_disp room d b p) (ILoad W32 d b p)
| enc_load_r64 d b p : is_reg d -> is_reg b -> is_u 32 p ->
  encodes (x64_emit_load_r64_disp room d b p) (ILoad W64 d b p)
| enc_store_r32 d b p : is_reg d -> is_reg b -> is_u 32 p ->
  encodes (x64_emit_store_r32_disp room d b p) (IStore W32 d b p)
| enc_store_r64 d b p : is_reg d -> is_reg b -> is_u 32 p ->
  encodes (x64_emit_store_r64_disp room d b p) (IStore W64 d b p)
| enc_add_rr d s : is_reg d -> is_reg s -> encodes (x64_emit_add_rr room d s) (IAlu W64 AAdd d s)
| enc_sub_rr d s : is_reg d -> is_reg s -> encodes (x64_emit_sub_rr room d s) (IAlu W64 ASub d s)
| enc_xor_r64 d s : is_reg d -> is_reg s -> encodes (x64_emit_xor_r64 room d s) (IAlu W64 AXor d s)
| enc_cmp_r64 d s : is_reg d -> is_reg s -> encodes (x64_emit_cmp_r64_rr room d s) (IAlu W64 ACmp d s)
| enc_cmp_r32_rr d s : is_reg d -> is_reg s -> encodes (x64_emit_cmp_r32_rr room d s) (IAlu W64 ACmp d s)
| enc_xor_r32 d s : is_reg d -> is_reg s -> encodes (x64_emit_xor_r32 room d s) (IAlu W32 AXor d s)
| enc_add_r32 d s : is_reg d -> is_reg s -> encodes (emit_add_r32_rr room d s) (IAlu W32 AAdd d s)
| enc_and_r32 d s : is_reg d -> is_reg s -> encodes (emit_and_r32_rr room d s) (IAlu W32 AAnd d s)
| enc_sub_r32 d s : is_reg d -> is_reg s -> encodes (emit_sub_r32_rr room d s) (IAlu W32 ASub d s)
| enc_cmp_r32 d s : is_reg d -> is_reg s -> encodes (emit_cmp_r32_rr room d s) (IAlu W32 ACmp d s)
| enc_add_imm d k : is_reg d -> is_s 32 k ->
  encodes (x64_emit_add_r32_imm room d k) (IAluImm W32 AAdd d k)
| enc_and_imm d k : is_reg d -> is_s 32 k ->
  encodes (x64_emit_and_r32_imm room d k) (IAluImm W32 AAnd d k)
| enc_or_imm d k : is_reg d -> is_s 32 k ->
  encodes (x64_emit_or_r32_imm room d k) (IAluImm W32 AOr d k)
| enc_sub_imm d k : is_reg d -> is_s 32 k ->
  encodes (x64_emit_sub_r32_imm room d k) (IAluImm W32 ASub d k)
| enc_cmp_imm d k : is_reg d -> is_s 32 k ->
  encodes (x64_emit_cmp_r32_imm room d k) (IAluImm W32 ACmp d k)
| enc_cmp_imm0 d : is_reg d -> encodes (x64_emit_cmp_r32_imm0 room d) (IAluImm W32 ACmp d 0)
| enc_or_imm64 d k : is_reg d -> is_s 32 k ->
  encodes (x64_emit_or_r64_imm room d k) (IAluImm W64 AOr d k)
| enc_sub_imm8 d k : is_reg d -> encodes (x64_emit_sub_r64_imm8 room d k) (IAluImm W64 ASub d (i8 k))
| enc_sub_rsp k : encodes (x64_emit_sub_rsp_imm8 room k) (IAluImm W64 ASub X64_RSP (i8 k))
| enc_add_rsp k : encodes (x64_emit_add_rsp_imm8 room k) (IAluImm W64 AAdd X64_RSP (i8 k))
| enc_cmp_m32 b p k : is_reg b -> is_u 32 p -> is_u 32 k ->
  encodes (emit_cmp_m32_imm0 room b p k) (ICmpMem b p k)
| enc_test_rr d s : is_reg d -> is_reg s -> encodes (x64_emit_test_rr room d s) (ITest W32 d s)
| enc_test_r64 d s : is_reg d -> is_reg s -> encodes (x64_emit_test_r64 room d s) (ITest W64 d s)
| enc_neg_r32 d : is_reg d -> encodes (emit_neg_r32 room d) (INeg W32 d)
| enc_neg_r64 d : is_reg d -> encodes (x64_emit_neg_r64 room d) (INeg W64 d)
| enc_imul_r32 d s : is_reg d -> is_reg s -> is_ext d = is_ext s ->
  encodes (x64_emit_imul_r32 room d s) (IImul W32 d s)
| enc_imul_r64 d s : is_reg d -> is_reg s -> is_ext d = is_ext s ->
  encodes (emit_imul_r64 room d s) (IImul W64 d s)
| enc_cdq : encodes (emit_cdq room) (ICdq W32)
| enc_cqo : encodes (emit_cqo room) (ICdq W64)
| enc_idiv_r32 d : is_reg d -> encodes (emit_idiv_r32 room d) (IIdiv W32 d)
| enc_idiv_r64 d : is_reg d -> encodes (emit_idiv_r64 room d) (IIdiv W64 d)
| enc_shl_r32_cl d : is_reg d -> encodes (emit_shift_r32_cl room 4 d) (IShlCl W32 d)
| enc_sar_r32_cl d : is_reg d -> encodes (emit_shift_r32_cl room 7 d) (ISarCl W32 d)
| enc_shl_r64_cl d : is_reg d -> encodes (emit_shift_r64_cl room 4 d) (IShlCl W64 d)
| enc_sar_r64_cl d : is_reg d -> encodes (emit_shift_r64_cl room 7 d) (ISarCl W64 d)
| enc_shl_r32 d k : is_reg d -> encodes (x64_emit_shl_r32_imm8 room d k) (IShlImm W32 d k)
| enc_shl_r64 d k : is_reg d -> encodes (x64_emit_shl_r64_imm8 room d k) (IShlImm W64 d k)
| enc_setcc cc d : is_reg cc -> is_reg d -> low_byte_reg d ->
  encodes (x64_emit_setcc room (0x90 + cc) d) (ISetcc cc d)
| enc_movsxd : encodes (emit_movsxd_rax room) (IMovsxd X64_RAX X64_RAX)
| enc_shr_3 : encodes (emit_shr_rax_3 room) (IShrImm W64 X64_RAX 3)
| enc_movzx8 d s : is_reg d -> is_reg s -> is_ext d = is_ext s -> low_byte_reg s ->
  encodes (x64_emit_movzx_r32_r8 room d s) (IMovzx8 d s)
| enc_load8 d b p : is_reg d -> is_reg b -> is_u 32 p ->
  encodes (x64_emit_movzx_r32_m8_disp room d b p) (ILoad8 d b p)
| enc_store_imm8 b p k : is_reg b -> is_u 32 p ->
  encodes (x64_emit_store_imm8_disp room b p k) (IStoreImm8 b p k)
| enc_jmp : encodes (x64_emit_jmp_rel32 room) (IJmp 0)
| enc_jcc cc : is_reg cc -> encodes (x64_emit_jcc_rel32 room (0x80 + cc)) (IJcc cc 0)
| enc_lea d : is_reg d -> encodes (x64_emit_lea_rip_rel32 room d) (ILea d 0)
| enc_call : encodes (x64_emit_call_rax room) (ICall X64_RAX)
| enc_ret : encodes (x64_emit_ret room) IRet
| enc_jmp_reg r : is_reg r -> encodes (x64_emit_jmp_r64 room r) (IJmpReg r)
| enc_push r : is_reg r -> encodes (x64_emit_push_r64 room r) (IPush r)
| enc_pop r : is_reg r -> encodes (x64_emit_pop_r64 room r) (IPop r)
| enc_endbr : encodes (x64_emit_endbr64 room) IEndbr
| enc_load_xmm64 x b p : is_xreg x -> is_reg b -> is_u 32 p ->
  encodes (x64_emit_load_xmm64_disp room x b p) (IXLoad W64 x b p)
| enc_load_xmm32 x b p : is_xreg x -> is_reg b -> is_u 32 p ->
  encodes (x64_emit_load_xmm32_disp room x b p) (IXLoad W32 x b p)
| enc_store_xmm64 x b p : is_xreg x -> is_reg b -> is_u 32 p ->
  encodes (x64_emit_store_xmm64_disp room x b p) (IXStore W64 x b p)
| enc_store_xmm32 x b p : is_xreg x -> is_reg b -> is_u 32 p ->
  encodes (x64_emit_store_xmm32_disp room x b p) (IXStore W32 x b p)
| enc_addsd d s : is_xreg d -> is_xreg s -> encodes (x64_emit_addsd room d s) (IXOp W64 FAdd d s)
| enc_subsd d s : is_xreg d -> is_xreg s -> encodes (x64_emit_subsd room d s) (IXOp W64 FSub d s)
| enc_mulsd d s : is_xreg d -> is_xreg s -> encodes (x64_emit_mulsd room d s) (IXOp W64 FMul d s)
| enc_divsd d s : is_xreg d -> is_xreg s -> encodes (x64_emit_divsd room d s) (IXOp W64 FDiv d s)
| enc_sqrtsd d s : is_xreg d -> is_xreg s -> encodes (x64_emit_sqrtsd room d s) (IXOp W64 FSqrt d s)
| enc_addss d s : is_xreg d -> is_xreg s -> encodes (x64_emit_addss room d s) (IXOp W32 FAdd d s)
| enc_subss d s : is_xreg d -> is_xreg s -> encodes (x64_emit_subss room d s) (IXOp W32 FSub d s)
| enc_mulss d s : is_xreg d -> is_xreg s -> encodes (x64_emit_mulss room d s) (IXOp W32 FMul d s)
| enc_divss d s : is_xreg d -> is_xreg s -> encodes (x64_emit_divss room d s) (IXOp W32 FDiv d s)
| enc_comisd l r : is_xreg l -> is_xreg r -> encodes (x64_emit_comisd room l r) (IXComi W64 l r)
| enc_comiss l r : is_xreg l -> is_xreg r -> encodes (x64_emit_comiss room l r) (IXComi W32 l r).

(** An emitter that appends one instruction. *)
Definition emits1 (c : E ()) (i : instr) : Prop :=
  exists bs, c = jello_jit_emit_bytes room bs /\ decodes bs i.

Lemma imm_decodes (op8 op32 : list Z) k (i : Z -> instr) :
  is_s 32 k ->
  decodes (op8 ++ [u8 k]) (i (i8 (u8 k))) ->
  (forall b0 b1 b2 b3, decodes (op32 ++ [b0; b1; b2; b3]) (i (i32 (le_value [b0; b1; b2; b3])))) ->
  decodes (if (-128 <=? k) && (k <=? 127) then op8 ++ [u8 k] else op32 ++ le_bytes 4 k) (i k).
Proof.
  intros Hk H8 H32. destruct ((-128 <=? k) && (k <=? 127)) eqn:E.
  - by rewrite imm8_signed in H8.
  - destruct (le4_signed k Hk) as (b0 & b1 & b2 & b3 & -> & ->). apply H32.
Qed.

(** Every case: unknown bytes for the immediates, every register, computation. *)
Ltac decode_case :=
  eexists; split; [reflexivity|];
  try (apply imm_decodes; [assumption | |]);
  repeat match goal with
  | H : is_u 32 ?x |- _ =>
    let E := fresh in
    destruct (le4 x H) as (? & ? & ? & ? & E & ->); unfold rm32, rm64, xmm_mem, x64_append_mem_disp32;
    rewrite ?E; clear E H
  | H : is_u 64 ?x |- _ =>
    let E := fresh in
    destruct (le8 x H) as (? & ? & ? & ? & ? & ? & ? & ? & E & ->); rewrite ?E; clear E H
  end;
  intros; intros rest; all_regs; intros; first [discriminate | reflexivity | unfold low_byte_reg in *; exfalso; lia].

Lemma encodes_emits c i : encodes c i -> emits1 c i.
Proof. intros H. destruct H. all: decode_case. Qed.
End Encoders.

Lemma emit_bytes_inv room bs buf u buf' :
  jello_jit_emit_bytes room bs buf = Some (u, buf') -> buf' = buf ++ bs.
Proof.
  unfold jello_jit_emit_bytes. destruct (zlen bs =? 0); [done|].
  destruct (room _); [|done]. by intros [= _ <-].
Qed.



(** The multiplication of a low and a high register has its operands exchanged: the
    REX bits are computed for the roles of the other encoders. *)
Lemma imul_mixed_swaps room d s :
  is_reg d -> is_reg s -> is_ext d <> is_ext s ->
  emits1 room (x64_emit_imul_r32 room d s)
    (IImul W32 (if is_ext d then d - 8 else d + 8) (if is_ext s then s - 8 else s + 8)).
Proof.
  intros Hd Hs Hne. eexists; split; [reflexivity|]. intros rest. revert Hne.
  all_regs; vm_compute; intros Hne; first [reflexivity | by destruct Hne].
Qed.

(** Without a REX prefix the byte registers 4 to 7 are AH to BH: asked for the low byte of
    RSP, RBP, RSI or RDI, the encoder sets the second byte of RAX, RCX, RDX or RBX. *)
Lemma setcc_sets_high_byte room cc d :
  is_reg cc -> 4 <= d < 8 -> emits1 room (x64_emit_setcc room (0x90 + cc) d) (ISetcc cc (16 + (d - 4))).
Proof.
  intros Hcc Hd. eexists; split; [reflexivity|]. intros rest.
  assert (d = 4 \/ d = 5 \/ d = 6 \/ d = 7) as [-> | [-> | [-> | ->]]] by lia; all_regs; reflexivity.
Qed.
