(* ===== verification/X64Run.v ===== *)
(** * Running straight code

    Code without jumps as the sequence of its instructions: [codes_run] takes its
    execution from the bytes to [exec_all]; a Hoare triple for emitters, whose
    assertions are about the state before and after the code they append. *)

From S2P Require Import Prelude CInt Memory Float X64 X64Sem X64Thms.
#[local] Open Scope list_scope.
#[local] Open Scope Z_scope.

(** ** Code without jumps *)

(** A sequence of instructions as bytes. *)
Inductive codes : list Z -> list instr -> Prop :=
| codes_nil : codes [] []
| codes_cons bs i bs' l : decodes bs i -> codes bs' l -> codes (bs ++ bs') (i :: l).

Lemma codes_app bs1 l1 bs2 l2 : codes bs1 l1 -> codes bs2 l2 -> codes (bs1 ++ bs2) (l1 ++ l2).
Proof. intros H. revert bs2 l2. induction H; intros; cbn; [done|]. rewrite <- app_assoc. by constructor; auto. Qed.

Lemma codes_one bs i : decodes bs i -> codes bs [i].
Proof. intros. rewrite <- (app_nil_r bs). apply codes_cons; [done | constructor]. Qed.

(** The instructions that go on to the next one. *)
Definition straight (i : instr) : bool :=
  match i with
  | IJmp _ | IJcc _ _ | ILea _ _ | ICall _ | IJmpReg _ | IRet => false
  | _ => true
  end.

(** An emitter that answers [a] and appends the instructions [l]. *)
Definition emits {A} (c : E A) (a : A) (l : list instr) : Prop :=
  forall buf a' buf', c buf = Some (a', buf') ->
  a' = a /\ exists bs, buf' = buf ++ bs /\ codes bs l.

Lemma emits_ret {A} (a : A) : emits (mret a) a [].
Proof. intros buf a' buf' [= <- <-]. split; [done|]. exists []. rewrite app_nil_r. split; constructor. Qed.

Lemma emits_bind {A B} (c : E A) (k : A -> E B) a b l1 l2 :
  emits c a l1 -> emits (k a) b l2 -> emits (c ≫= k) b (l1 ++ l2).
Proof.
  intros H1 H2 buf b' buf'. unfold mbind, E_bind.
  destruct (c buf) as [[a' buf1]|] eqn:E1; [|done]. intros E2.
  destruct (H1 _ _ _ E1) as (-> & bs1 & -> & C1).
  destruct (H2 _ _ _ E2) as (-> & bs2 & -> & C2).
  split; [done|]. exists (bs1 ++ bs2). rewrite app_assoc. split; [done | by apply codes_app].
Qed.

Lemma emits_encodes room c i : encodes room c i -> emits c () [i].
Proof.
  intros H buf [] buf' E. split; [done|].
  apply encodes_emits in H as (bs & -> & Hd). exists bs. split; [|by apply codes_one].
  by apply emit_bytes_inv in E.
Qed.

Section Run.
Context (nan32 nan64 : Z).

Fixpoint exec_all (l : list instr) (st : cpu) : option cpu :=
  match l with
  | [] => Some st
  | i :: l' => st' ← exec_instr nan32 nan64 i st; exec_all l' st'
  end.

Lemma exec_all_app l1 l2 st :
  exec_all (l1 ++ l2) st = (st' ← exec_all l1 st; exec_all l2 st').
Proof.
  revert st. induction l1 as [|i l1 IH]; intros st; cbn; [done|].
  destruct (exec_instr _ _ i st); cbn; [apply IH | done].
Qed.

(** Code that goes on neither reads nor writes the instruction pointer. *)
Lemma do_alu_ip w op d x y a st : do_alu w op d x y (set_ip a st) = set_ip a (do_alu w op d x y st).
Proof. unfold do_alu. by destruct (alu_op w op x y) as [[] ?]. Qed.

Lemma store_ip n b d v a st : store n b d v (set_ip a st) = set_ip a <$> store n b d v st.
Proof. unfold store. cbn [mem set_ip]. change (ea (set_ip a st) b d) with (ea st b d). by destruct (blocks_store _ _ _ _). Qed.

Lemma put_x_ip w x v a st : put_x w x v (set_ip a st) = set_ip a (put_x w x v st).
Proof. by destruct w. Qed.

Lemma put8_ip r v a st : put8 r v (set_ip a st) = set_ip a (put8 r v st).
Proof. unfold put8. cbv zeta. by destruct (16 <=? r). Qed.

Lemma do_idiv_ip w r a st : do_idiv w r (set_ip a st) = set_ip a <$> do_idiv w r st.
Proof.
  unfold do_idiv. change (get w (set_ip a st)) with (get w st).
  destruct (_ =? _); [done|]. by destruct (fits _ _).
Qed.

Lemma exec_instr_ip i a st :
  straight i = true ->
  exec_instr nan32 nan64 i (set_ip a st) = set_ip a <$> exec_instr nan32 nan64 i st.
Proof.
  destruct i; cbn [straight]; intros H; try discriminate H; clear H; cbn [exec_instr];
    change (load ?n (set_ip a st)) with (load n st);
    change (get ?w (set_ip a st)) with (get w st);
    change (get8 (set_ip a st)) with (get8 st);
    change (get_x ?w (set_ip a st)) with (get_x w st);
    change (mem (set_ip a st)) with (mem st);
    change (regs (set_ip a st)) with (regs st);
    change (flg (set_ip a st)) with (flg st);
    rewrite ?do_alu_ip, ?store_ip, ?put_x_ip, ?do_idiv_ip;
    first [reflexivity | destruct (load _ _ _ _); reflexivity | idtac].
  - destruct (flg st) as [fl|]; [|done]. cbn [mbind option_bind]. destruct (cond cc fl); [|done].
    cbn [mbind option_bind fmap option_fmap option_map]. by rewrite put8_ip.
  - by destruct (blocks_store _ _ _ _).
  - by destruct (blocks_load _ _ _).
Qed.

Lemma exec_all_ip l a st :
  forallb straight l = true -> exec_all l (set_ip a st) = set_ip a <$> exec_all l st.
Proof.
  revert st. induction l as [|i l IH]; intros st; cbn [forallb exec_all]; [done|].
  intros [Hi His]%andb_true_iff. rewrite exec_instr_ip by done.
  destruct (exec_instr _ _ i st) as [st'|]; cbn; [by apply IH | done].
Qed.

(** Fetching and decoding straight code runs its instructions. *)
Lemma codes_run bs l : codes bs l -> forallb straight l = true ->
  forall pre post st st', exec_all l st = Some st' -> ip st = zlen pre ->
  cpu_steps nan32 nan64 (length l) (pre ++ bs ++ post) st = Some (set_ip (zlen pre + zlen bs) st').
Proof.
  induction 1 as [|bs i bs' l Hd Hc IH]; cbn [forallb]; intros Hs pre post st st' E Hip.
  - cbn in E. injection E as <-. cbn. rewrite zlen_nil, Z.add_0_r, <- Hip. by destruct st.
  - apply andb_true_iff in Hs as [Hi Hs]. cbn [exec_all] in E.
    destruct (exec_instr nan32 nan64 i st) as [st1|] eqn:E1; [|done]. cbn in E.
    cbn [length cpu_steps]. unfold cpu_step. rewrite Hip.
    rewrite (proj2 (Z.ltb_ge _ _) (zlen_nonneg pre)).
    replace (drop (Z.to_nat (zlen pre)) (pre ++ (bs ++ bs') ++ post)) with (bs ++ bs' ++ post).
    2:{ unfold zlen. rewrite Nat2Z.id, drop_app_length. by rewrite app_assoc. }
    rewrite Hd. cbn [mbind option_bind]. rewrite exec_instr_ip, E1 by done. cbn [fmap option_fmap option_map mbind option_bind].
    replace (pre ++ (bs ++ bs') ++ post) with ((pre ++ bs) ++ bs' ++ post) by (by rewrite <- !app_assoc).
    rewrite (IH Hs (pre ++ bs) post (set_ip (zlen pre + zlen bs) st1) (set_ip (zlen pre + zlen bs) st')).
    + f_equal. rewrite !zlen_app. unfold set_ip; cbn. f_equal. lia.
    + by rewrite exec_all_ip, E by done.
    + cbn. by rewrite zlen_app.
Qed.

(** ** Triples *)

(** [c] answers [a] and appends straight code that takes a state of [P] to one of
    [Q]. *)
Definition triple {A} (P : cpu -> Prop) (c : E A) (a : A) (Q : cpu -> Prop) : Prop :=
  exists l, emits c a l /\ forallb straight l = true /\
  forall st, P st -> exists st', exec_all l st = Some st' /\ Q st'.

Lemma triple_ret {A} (P Q : cpu -> Prop) (a : A) : (forall st, P st -> Q st) -> triple P (mret a) a Q.
Proof. intros H. exists []. split_and!; [apply emits_ret | done |]. intros st HP. exists st. auto. Qed.

Lemma triple_bind {A B} (P R Q : cpu -> Prop) (c : E A) (k : A -> E B) a b :
  triple P c a R -> triple R (k a) b Q -> triple P (c ≫= k) b Q.
Proof.
  intros (l1 & E1 & S1 & H1) (l2 & E2 & S2 & H2). exists (l1 ++ l2). split_and!.
  - by eapply emits_bind.
  - by rewrite forallb_app, S1, S2.
  - intros st (st1 & X1 & HR)%H1. destruct (H2 st1 HR) as (st2 & X2 & HQ).
    exists st2. by rewrite exec_all_app, X1.
Qed.

Lemma triple_weaken {A} (P P' Q Q' : cpu -> Prop) (c : E A) a :
  triple P c a Q -> (forall st, P' st -> P st) -> (forall st, Q st -> Q' st) -> triple P' c a Q'.
Proof.
  intros (l & E1 & S1 & H1) HP HQ. exists l. split_and!; [done..|].
  intros st (st1 & X1 & HR)%HP%H1. eauto.
Qed.

Lemma triple_instr room (P Q : cpu -> Prop) (c : E ()) i :
  encodes room c i -> straight i = true ->
  (forall st, P st -> exists st', exec_instr nan32 nan64 i st = Some st' /\ Q st') ->
  triple P c () Q.
Proof.
  intros He Hs H. exists [i]. split_and!; [by eapply emits_encodes | by cbn; rewrite Hs|].
  intros st (st' & E & HQ)%H. exists st'. cbn. by rewrite E.
Qed.

(** A triple whose precondition never holds. *)
Lemma triple_vacuous {A} (P P' Q Q' : cpu -> Prop) (c : E A) a :
  triple P c a Q -> (forall st, ~ P' st) -> triple P' c a Q'.
Proof. intros (l & E1 & S1 & _) HP. exists l. split_and!; [done..|]. intros st H. by destruct (HP st). Qed.

(** What a triple says of the bytes: wherever they are placed, the code from their
    start runs to their end. *)
Lemma triple_runs {A} (P Q : cpu -> Prop) (c : E A) a :
  triple P c a Q -> forall buf a' buf', c buf = Some (a', buf') ->
  a' = a /\ exists bs, buf' = buf ++ bs /\
  forall pre post st, P st -> ip st = zlen pre ->
  exists st', runs nan32 nan64 (pre ++ bs ++ post) st (set_ip (zlen pre + zlen bs) st') /\ Q st'.
Proof.
  intros (l & He & Hs & H) buf a' buf' E. destruct (He _ _ _ E) as (-> & bs & -> & Hc).
  split; [done|]. exists bs. split; [done|].
  intros pre post st HP Hip. destruct (H st HP) as (st' & X & HQ). exists st'. split; [|done].
  exists (length l). by apply codes_run.
Qed.
End Run.

(** The next emitter of a [bind]. *)
Ltac tbind := eapply triple_bind.
