(* ===== verification/JitX64Facts.v ===== *)
(** * The state of compiled code

    [jit_rel]: how the machine state of the compiled code represents a frame of the
    interpreter, with the register cache.  The emitters of slot accesses and of the
    operations on T0 and T1 as triples. *)

From S2P Require Import Prelude CInt Memory Bytecode Value Object Vm Frame FrameFacts Float Ops ArithOps ArithThms JitIr X64 X64Sem JitX64 X64Thms X64Run.
#[local] Open Scope list_scope.
#[local] Open Scope Z_scope.

Section Jit.
Context (room : Z -> bool) (lay : jello_jit_layout).
Context (m : jello_bc_module) (f : jello_bc_function) (layout : frame_layout).
Context (rf : reg_frame) (ks : list jello_type_kind) (nan32 nan64 : Z).
(** The frame stack lies at [A], [others] is the rest of memory, [kept] gives the
    registers the code must not change. *)
Context (A : Z) (others : list (Z * list Z)) (kept : Z -> Z).
Hypothesis Hoff : fl_off layout = rf_off rf.
Hypothesis Hregs : zlen ks < JIT_I32C_NONE.
Hypothesis HL : layout_ok ks (rf_off rf) (rf_total rf).

Abbreviation stack vm := (frame_stack (v_stack vm)).

Record jit_rel (vm : jello_vm) (i32c : Z) (st : cpu) : Prop := {
  jr_frame : frame_of m f rf ks vm;
  jr_bytes : Forall is_byte (stack vm);
  jr_mem : mem st = (A, stack vm) :: others;
  jr_addr : 0 <= A /\ A + zlen (stack vm) <= 2 ^ 64;
  jr_base : forall base, rf_mem rf = Some base -> regs st JIT_REG_BASE = A + base;
  jr_kept : forall r, r ∈ [X64_RSP; X64_RBP; JIT_REG_CTX] -> regs st r = kept r;
  jr_cache : i32c <> JIT_I32C_NONE -> exists k, ks @! i32c = Some k /\ jello_slot_size k = 4 /\
  regs st JIT_REG_I32C = reg rf ks i32c vm
}.

(** Registers the code may use in between. *)
Definition scratch (r : Z) : bool :=
  negb (existsb (Z.eqb r) [X64_RSP; X64_RBP; JIT_REG_CTX; JIT_REG_BASE; JIT_REG_I32C]).

Lemma jit_rel_same vm c st st' :
  jit_rel vm c st -> mem st' = mem st -> (forall r, scratch r = false -> regs st' r = regs st r) ->
  jit_rel vm c st'.
Proof.
  intros [H1 H2 H3 H4 H5 H6 H7] Hm Hr. constructor; try done; [by rewrite Hm | | |].
  - intros base Hb. rewrite Hr by done. auto.
  - intros r Hin. rewrite Hr; [auto|].
    repeat (apply elem_of_cons in Hin as [->|Hin]; [done|]). by apply elem_of_nil in Hin.
  - intros Hc. rewrite Hr by done. auto.
Qed.

Lemma jit_rel_reg vm c st r v : scratch r = true -> jit_rel vm c st -> jit_rel vm c (set_reg r v st).
Proof.
  intros Hs H. apply (jit_rel_same _ _ _ _ H); [done|]. intros r' Hr. cbn. unfold upd.
  destruct (Z.eqb_spec r' r) as [->|]; congruence.
Qed.

Lemma jit_rel_flags vm c st fl : jit_rel vm c st -> jit_rel vm c (set_flags fl st).
Proof. intros H. by apply (jit_rel_same _ _ _ _ H). Qed.

Lemma jit_rel_xmm vm c st x v : jit_rel vm c st -> jit_rel vm c (set_xmm x v st).
Proof. intros H. by apply (jit_rel_same _ _ _ _ H). Qed.

(** Forgetting the cache. *)
Lemma jit_rel_none vm c st : jit_rel vm c st -> jit_rel vm JIT_I32C_NONE st.
Proof. intros [H1 H2 H3 H4 H5 H6 H7]. constructor; done. Qed.

(** ** Slots *)

(** The offset of a register: the displacement of its accesses. *)
Lemma slot_off_range r k : ks @! r = Some k ->
  rf_off rf @! r = Some (slot_off layout r) /\
  0 <= slot_off layout r <= 0x7FFFFFFF /\ slot_off layout r mod jello_slot_size k = 0.
Proof.
  intros Hk. pose proof (znth_Some _ _ _ Hk) as Hr.
  destruct (znth_in_range (rf_off rf) r) as [o Ho]; [rewrite (lo_len _ _ _ HL); lia|].
  destruct (lo_slot _ _ _ HL r k o Hk Ho) as (Ho0 & Ho1 & Hom).
  pose proof (lo_total _ _ _ HL) as Htot. pose proof (slot_size_4_8 k) as Hsz.
  assert (slot_off layout r = o) as -> by (unfold slot_off; rewrite Hoff; by apply zget_Some).
  unfold JIT_I32C_NONE in Hregs. split_and!; [done | lia | lia | done].
Qed.

Lemma slot_access_range vm c st r k :
  jit_rel vm c st -> ks @! r = Some k ->
  exists a, vm_reg_ptr rf r = Some a /\ 0 <= a /\ a + jello_slot_size k <= zlen (stack vm) /\
  ea st JIT_REG_BASE (slot_off layout r) = A + a.
Proof.
  intros H Hk. destruct (jr_frame _ _ _ H) as [Hrf _].
  destruct (slot_off_range r k Hk) as (Ho & Hr & _).
  destruct (rf_slot _ _ _ _ _ Hrf Hk) as (a & Ha & H0 & H1). exists a. split_and!; [done..|].
  unfold vm_reg_ptr in Ha. rewrite Ho in Ha. destruct (rf_mem rf) as [base|] eqn:Hb; [|done].
  injection Ha as <-. unfold ea. rewrite (jr_base _ _ _ H base Hb), (wrapS_id 32) by (unfold is_s; lia).
  pose proof (jr_addr _ _ _ H). pose proof (slot_size_4_8 k).
  rewrite wrapU_id by (unfold is_u; lia). lia.
Qed.

Lemma load_slot vm c st r k n :
  jit_rel vm c st -> ks @! r = Some k -> n = width_of k ->
  load n st JIT_REG_BASE (slot_off layout r) = Some (reg rf ks r vm).
Proof.
  intros H Hk ->. destruct (slot_access_range vm c st r k H Hk) as (a & Ha & H0 & H1 & Hea).
  unfold load. rewrite Hea, (jr_mem _ _ _ H). cbn [blocks_load].
  rewrite (proj2 (Z.leb_le _ _)) by lia. rewrite (proj2 (Z.leb_le _ _)) by (rewrite width_of_slot; lia).
  cbn [andb]. replace (A + a - A) with a by lia.
  unfold reg, reg_at. rewrite Hk, Ha.
  destruct (mem_load_Some (width_of k) (stack vm) a) as [v ->]; [done | by rewrite width_of_slot | done].
Qed.

Lemma reg_range vm c st r k : jit_rel vm c st -> ks @! r = Some k -> is_u (8 * jello_slot_size k) (reg rf ks r vm).
Proof. intros H Hk. apply reg_is_u; [apply H | done]. Qed.

(** A store keeps the relation; the cache survives unless it holds the register. *)
Lemma store_slot vm c st r k n v :
  jit_rel vm c st -> ks @! r = Some k -> n = width_of k -> c <> r ->
  exists st', store n JIT_REG_BASE (slot_off layout r) v st = Some st' /\
  jit_rel (with_reg n rf r v vm) c st' /\ regs st' = regs st.
Proof.
  intros H Hk Hn Hc. destruct (jr_frame _ _ _ H) as [Hrf Hkind].
  destruct (slot_access_range vm c st r k H Hk) as (a & Ha & H0 & H1 & Hea).
  destruct (with_reg_inv rf ks vm Hrf n r k v Hk Hn) as (a' & mem' & Ha' & Hs & E).
  rewrite Ha in Ha'. injection Ha' as <-.
  exists (set_mems ((A, mem') :: others) st). split_and!; [| | done].
  - unfold store. rewrite Hea, (jr_mem _ _ _ H). cbn [blocks_store].
    rewrite (proj2 (Z.leb_le _ _)) by lia.
    rewrite (proj2 (Z.leb_le _ _)) by (rewrite Hn, width_of_slot; lia). cbn [andb].
    replace (A + a - A) with a by lia. by rewrite Hs.
  - assert (Hm : stack (with_reg n rf r v vm) = mem') by (by rewrite E).
    constructor; cbn [mem regs set_mems].
    + apply frame_of_with_reg, H.
    + rewrite Hm. eapply mem_store_bytes; [apply H | done].
    + by rewrite Hm.
    + rewrite Hm, (zlen_mem_store _ _ _ _ _ Hs). apply H.
    + apply H.
    + apply H.
    + intros Hne. destruct (jr_cache _ _ _ H Hne) as (k' & Hk' & Hs' & Hv). exists k'.
      split_and!; [done..|]. rewrite (reg_with_other rf ks vm Hrf n r k v c Hk Hn Hc). exact Hv.
Qed.

(** ** The accesses as triples *)

Abbreviation tri := (triple nan32 nan64).

Lemma slot_acc_direct acc align rt r k :
  ks @! r = Some k -> jello_slot_size k = align ->
  slot_access room acc align rt JIT_REG_BASE (slot_off layout r) = acc rt JIT_REG_BASE (slot_off layout r).
Proof.
  intros Hk <-. destruct (slot_off_range r k Hk) as (_ & Ho & Hm).
  unfold slot_access. rewrite (proj2 (Z.leb_le _ _)) by lia. by rewrite Hm.
Qed.

Lemma base_reg : is_reg JIT_REG_BASE.
Proof. split; done. Qed.

Lemma off_u32 r k : ks @! r = Some k -> is_u 32 (slot_off layout r).
Proof. intros Hk. destruct (slot_off_range r k Hk) as (_ & Ho & _). unfold is_u. lia. Qed.

#[local] Hint Resolve base_reg off_u32 : core.

(** A load of the slot of [r] into a general register, of either width. *)
Lemma ldr_slot_triple w acc align (P Q : cpu -> Prop) rt r k vm c :
  (forall b p, is_reg b -> is_u 32 p -> encodes room (acc rt b p) (ILoad w rt b p)) ->
  ks @! r = Some k -> jello_slot_size k = Z.of_nat (nbytes w) -> align = Z.of_nat (nbytes w) ->
  (forall st, P st -> jit_rel vm c st /\ Q (set_reg rt (reg rf ks r vm) st)) ->
  tri P (slot_access room acc align rt JIT_REG_BASE (slot_off layout r)) () Q.
Proof.
  intros He Hk Hs -> H. rewrite (slot_acc_direct _ _ _ _ _ Hk Hs).
  eapply triple_instr; [apply He; eauto | done |]. intros st HP.
  destruct (H st HP) as [HJ HQ]. exists (set_reg rt (reg rf ks r vm) st). split; [|done].
  cbn [exec_instr]. rewrite (load_slot vm c st r k (nbytes w) HJ Hk) by (unfold width_of; rewrite Hs; lia).
  cbn [mbind option_bind]. unfold put. f_equal. rewrite wrapU_id; [done|].
  pose proof (reg_range vm c st r k HJ Hk) as Hu. rewrite Hs in Hu. by destruct w.
Qed.

(** A store into the slot of [r], which the cache does not hold. *)
Lemma str_slot_triple w acc align (P Q : cpu -> Prop) rt r k vm c v :
  (forall b p, is_reg b -> is_u 32 p -> encodes room (acc rt b p) (IStore w rt b p)) ->
  ks @! r = Some k -> jello_slot_size k = Z.of_nat (nbytes w) -> align = Z.of_nat (nbytes w) -> c <> r ->
  (forall st, P st -> jit_rel vm c st /\ get w st rt = v) ->
  (forall st st', P st -> jit_rel (with_reg (nbytes w) rf r v vm) c st' -> regs st' = regs st -> Q st') ->
  tri P (slot_access room acc align rt JIT_REG_BASE (slot_off layout r)) () Q.
Proof.
  intros He Hk Hs -> Hc H HQ. rewrite (slot_acc_direct _ _ _ _ _ Hk Hs).
  eapply triple_instr; [apply He; eauto | done |]. intros st HP. destruct (H st HP) as [HJ Hv].
  destruct (store_slot vm c st r k (nbytes w) v HJ Hk) as (st' & E & HJ' & Hr);
    [unfold width_of; rewrite Hs; lia | done|].
  exists st'. cbn [exec_instr]. rewrite Hv. split; [done | eauto].
Qed.

(** The same through the low half of an SSE register. *)
Lemma ldr_xmm_triple w acc align (P Q : cpu -> Prop) x r k vm c :
  (forall b p, is_reg b -> is_u 32 p -> encodes room (acc x b p) (IXLoad w x b p)) ->
  ks @! r = Some k -> jello_slot_size k = Z.of_nat (nbytes w) -> align = Z.of_nat (nbytes w) ->
  (forall st, P st -> jit_rel vm c st /\ Q (set_xmm x (reg rf ks r vm) st)) ->
  tri P (slot_access room acc align x JIT_REG_BASE (slot_off layout r)) () Q.
Proof.
  intros He Hk Hs -> H. rewrite (slot_acc_direct _ _ _ _ _ Hk Hs).
  eapply triple_instr; [apply He; eauto | done |]. intros st HP.
  destruct (H st HP) as [HJ HQ]. exists (set_xmm x (reg rf ks r vm) st). split; [|done].
  cbn [exec_instr]. by rewrite (load_slot vm c st r k (nbytes w) HJ Hk) by (unfold width_of; rewrite Hs; lia).
Qed.

Lemma str_xmm_triple w acc align (P Q : cpu -> Prop) x r k vm c v :
  (forall b p, is_reg b -> is_u 32 p -> encodes room (acc x b p) (IXStore w x b p)) ->
  ks @! r = Some k -> jello_slot_size k = Z.of_nat (nbytes w) -> align = Z.of_nat (nbytes w) -> c <> r ->
  (forall st, P st -> jit_rel vm c st /\ get_x w st x = v) ->
  (forall st st', P st -> jit_rel (with_reg (nbytes w) rf r v vm) c st' -> regs st' = regs st -> Q st') ->
  tri P (slot_access room acc align x JIT_REG_BASE (slot_off layout r)) () Q.
Proof.
  intros He Hk Hs -> Hc H HQ. rewrite (slot_acc_direct _ _ _ _ _ Hk Hs).
  eapply triple_instr; [apply He; eauto | done |]. intros st HP. destruct (H st HP) as [HJ Hv].
  destruct (store_slot vm c st r k (nbytes w) v HJ Hk) as (st' & E & HJ' & Hr);
    [unfold width_of; rewrite Hs; lia | done|].
  exists st'. cbn [exec_instr]. rewrite Hv. split; [done | eauto].
Qed.

End Jit.
