(* ===== verification/JitX64Core.v ===== *)
(** * What the compiled operations compute

    The operations on T0 and T1 as triples: the words they leave are those of the
    interpreter's macros. *)

From S2P Require Import Prelude CInt Memory Bytecode Value Object Vm Frame FrameFacts Float Ops ArithOps ArithThms JitIr X64 X64Sem JitX64 X64Thms X64Run JitX64Facts.
#[local] Open Scope list_scope.
#[local] Open Scope Z_scope.

(** ** Integer arithmetic *)

(** The signed comparison of the flags a subtraction leaves. *)
Section Flags.
Context (w : width).
Abbreviation n := (bits w).

Lemma bits_pos : 0 < n.
Proof. by destruct w. Qed.

Lemma sub_zero a b : is_u n a -> is_u n b -> (wrapU n (a - b) =? 0) = (a =? b).
Proof.
  intros Ha Hb. unfold is_u, wrapU in *. pose proof bits_pos.
  destruct (Z.eqb_spec a b) as [->|Hne].
  - by rewrite Z.sub_diag, Z.mod_0_l by lia.
  - apply Z.eqb_neq. intros E. apply Z.mod_divide in E; [|lia]. destruct E as [q Hq].
    assert (q = 0) by nia. lia.
Qed.

Lemma sub_less a b : is_u n a -> is_u n b ->
  xorb (2 ^ (n - 1) <=? wrapU n (a - b)) (negb (fits w (sgn w a - sgn w b))) = (sgn w a <? sgn w b).
Proof.
  intros Ha Hb. unfold fits, sgn.
  assert (wrapU n (a - b) = wrapU n (wrapS n a - wrapS n b)) as ->.
  { pose proof bits_pos. rewrite <- (wrapU_sub_l n (wrapS n a)), <- (wrapU_sub_r n _ (wrapS n b)).
    rewrite !wrapU_wrapS by lia. by rewrite (wrapU_id n a), (wrapU_id n b) by done. }
  pose proof (wrapS_range n bits_pos a) as Ra. pose proof (wrapS_range n bits_pos b) as Rb.
  set (d := wrapS n a - wrapS n b) in *. unfold is_s in Ra, Rb.
  assert (H2 : 2 ^ n = 2 * 2 ^ (n - 1)) by (by destruct w). set (H := 2 ^ (n - 1)) in *.
  assert (E : wrapU n d = if d <? 0 then d + 2 ^ n else d).
  { unfold wrapU. destruct (Z.ltb_spec d 0).
    - rewrite <- (Z.mod_add d 1 (2 ^ n)), Z.mul_1_l by lia. apply Z.mod_small. lia.
    - apply Z.mod_small. lia. }
  assert (L : (wrapS n a <? wrapS n b) = (d <? 0)).
  { destruct (Z.ltb_spec (wrapS n a) (wrapS n b)), (Z.ltb_spec d 0); lia. }
  rewrite L, E, H2. clear E L. destruct (decide (is_s n d)) as [Hd|Hd].
  - rewrite (bool_decide_eq_true_2 _ Hd). unfold is_s in Hd. fold H in Hd. cbn [negb]. rewrite xorb_false_r.
    destruct (Z.ltb_spec d 0); destruct (Z.leb_spec H (d + 2 * H)); destruct (Z.leb_spec H d); lia.
  - rewrite (bool_decide_eq_false_2 _ Hd). unfold is_s in Hd. fold H in Hd. cbn [negb]. rewrite xorb_true_r.
    destruct (Z.ltb_spec d 0); destruct (Z.leb_spec H (d + 2 * H)); destruct (Z.leb_spec H d); cbn [negb]; lia.
Qed.
End Flags.

(** ** Division *)

Section Division.
Context (w : width).
Abbreviation n := (bits w).

(** [cdq], [cqo]: the dividend in rdx:rax. *)
Lemma dividend x :
  is_u n x ->
  wrapS (2 * n) (Z.lor x (Z.shiftl (wrapU n (if sgn w x <? 0 then -1 else 0)) n)) = sgn w x.
Proof.
  intros Hx. assert (0 < n) by apply bits_pos. rewrite lor_shiftl_add by (done || lia).
  assert (E : wrapS (2 * n) (x + wrapU n (if sgn w x <? 0 then -1 else 0) * 2 ^ n) = wrapS (2 * n) (sgn w x)).
  { apply wrapS_congr. assert (H2 : 2 ^ n = 2 * 2 ^ (n - 1)) by (by destruct w).
    assert (Hsq : 2 ^ (2 * n) = 2 ^ n * 2 ^ n) by (rewrite <- Z.pow_add_r by lia; f_equal; lia).
    assert (Hs : sgn w x = if x <? 2 ^ (n - 1) then x else x - 2 ^ n).
    { unfold sgn, wrapS, is_u in *. destruct (Z.ltb_spec x (2 ^ (n - 1))).
      - rewrite Z.mod_small by lia. lia.
      - rewrite <- (Z.mod_add _ (-1) (2 ^ n)), Z.mod_small by lia. lia. }
    rewrite Hs. unfold is_u in Hx. destruct (Z.ltb_spec x (2 ^ (n - 1))).
    - rewrite (proj2 (Z.ltb_ge x 0)) by lia. f_equal. unfold wrapU. rewrite Z.mod_0_l by lia. lia.
    - rewrite (proj2 (Z.ltb_lt (x - 2 ^ n) 0)) by lia.
      assert (wrapU n (-1) = 2 ^ n - 1) as ->.
      { unfold wrapU. rewrite <- (Z.mod_add (-1) 1 (2 ^ n)), Z.mul_1_l, Z.mod_small by lia. lia. }
      unfold wrapU. rewrite <- (Z.mod_add (x - 2 ^ n) 1 (2 ^ (2 * n))) by lia. f_equal. lia. }
  rewrite E. apply wrapS_id; [lia|]. pose proof (wrapS_range n ltac:(lia) x) as R. unfold sgn, is_s in *.
  pose proof (Z.pow_le_mono_r 2 (n - 1) (2 * n - 1) ltac:(lia) ltac:(lia)). lia.
Qed.

Lemma quot_fits x y q : is_s n x -> is_s n y -> c_div n x y = Some q -> y <> 0 /\ q = Z.quot x y /\ is_s n q.
Proof.
  unfold c_div. intros Hx Hy.
  destruct ((y =? 0) || ((x =? - 2 ^ (n - 1)) && (y =? -1))) eqn:Ec; [done|]. intros [= <-].
  apply orb_false_iff in Ec as [E0 E1]. bool_hyps. split_and!; [done | done |]. unfold is_s in *.
  destruct (decide (Z.abs y = 1)) as [H1|H1].
  - assert (y = 1 \/ y = -1) as [-> | ->] by lia.
    + by rewrite Z.quot_1_r.
    + change (-1) with (Z.opp 1). rewrite (Z.quot_opp_r x 1), Z.quot_1_r by done. apply andb_false_iff in E1 as [E1|E1]; [|done].
      bool_hyps. lia.
  - assert (Hq : Z.abs (Z.quot x y) <= Z.abs x / 2).
    { rewrite <- Z.quot_abs, Z.quot_div_nonneg by lia. apply Z.div_le_compat_l; lia. }
    assert (H2 : 0 < 2 ^ (n - 1)) by (by destruct w). zdiv.
Qed.
End Division.

Lemma c_rem_div w x y r : c_rem w x y = Some r -> r = Z.rem x y /\ exists q, c_div w x y = Some q.
Proof. unfold c_rem, c_div. destruct (_ || _); [done|]. intros [= <-]. eauto. Qed.

Lemma wrapU_shiftl w x k : 0 < w -> 0 <= k -> wrapU w (Z.shiftl (wrapS w x) k) = wrapU w (Z.shiftl x k).
Proof.
  intros Hw Hk. rewrite !Z.shiftl_mul_pow2 by done.
  by rewrite <- (wrapU_mul_l w (wrapS w x)), wrapU_wrapS, wrapU_mul_l.
Qed.

(** Splits a conjunction of the relation and register contents; the relation survives
    writes of scratch registers and flags. *)
Ltac jit_keep :=
  repeat first [apply jit_rel_flags | apply jit_rel_reg; [reflexivity|] | apply jit_rel_xmm]; assumption.

(** One emitter of one instruction: [enc] is its case of [encodes]. *)
Ltac one_instr enc :=
  eapply triple_instr; [apply enc; try (split; done); try done | reflexivity |].

Section Core.
Context (room : Z -> bool) (m : jello_bc_module) (f : jello_bc_function) (layout : frame_layout).
Context (rf : reg_frame) (ks : list jello_type_kind) (nan32 nan64 : Z).
Context (A : Z) (others : list (Z * list Z)) (kept : Z -> Z).

Abbreviation jrel := (jit_rel m f rf ks A others kept).
Abbreviation tri := (triple nan32 nan64).

(** T0 holds [x] (and T1 [y]). *)
Definition with_t0 vm c x st : Prop := jrel vm c st /\ regs st JIT_REG_T0 = x.
Definition with_t01 vm c x y st : Prop := with_t0 vm c x st /\ regs st JIT_REG_T1 = y.

Lemma get_is w st r x : regs st r = x -> is_u (bits w) x -> get w st r = x.
Proof. intros <- H. by apply wrapU_id. Qed.

(** A register operation of T0 and T1. *)
Lemma alu_triple w op e vm c x y v r :
  encodes room e (IAlu w op JIT_REG_T0 JIT_REG_T1) -> is_u (bits w) x -> is_u (bits w) y ->
  fst (alu_op w op x y) = Some r -> v = wrapU (bits w) r ->
  tri (with_t01 vm c x y) e () (with_t0 vm c v).
Proof.
  intros He Hx Hy Hr ->. eapply triple_instr; [done | done |]. intros st [[HJ H0] H1].
  eexists; split; [reflexivity|]. unfold do_alu. rewrite (get_is _ _ _ _ H0 Hx), (get_is _ _ _ _ H1 Hy).
  destruct (alu_op w op x y) as [[r'|] fl]; [|done]. cbn in Hr. injection Hr as ->. unfold put.
  split; [jit_keep | done].
Qed.

Lemma imul_triple w e vm c x y :
  encodes room e (IImul w JIT_REG_T0 JIT_REG_T1) -> is_u (bits w) x -> is_u (bits w) y ->
  tri (with_t01 vm c x y) e () (with_t0 vm c (wrapU (bits w) (x * y))).
Proof.
  intros He Hx Hy. eapply triple_instr; [done | done |]. intros st [[HJ H0] H1].
  eexists; split; [reflexivity|]. rewrite (get_is _ _ _ _ H0 Hx), (get_is _ _ _ _ H1 Hy). unfold put.
  split; [jit_keep | done].
Qed.

Lemma neg_triple w e vm c x :
  encodes room e (INeg w JIT_REG_T0) -> is_u (bits w) x ->
  tri (with_t0 vm c x) e () (with_t0 vm c (wrapU (bits w) (0 - x))).
Proof.
  intros He Hx. eapply triple_instr; [done | done |]. intros st [HJ H0].
  eexists; split; [reflexivity|]. rewrite (get_is _ _ _ _ H0 Hx). unfold put.
  split; [jit_keep | done].
Qed.

(** The count of a shift: the processor takes it modulo the width. *)
Lemma shift_count w y : Z.land (wrapU (bits w) (u32 y)) (bits w - 1) = Z.land y (bits w - 1).
Proof.
  destruct w; cbn [bits].
  - change (32 - 1) with (2 ^ 5 - 1). rewrite !land_ones_wrap, !wrapU_wrapU_le by lia. done.
  - change (64 - 1) with (2 ^ 6 - 1). rewrite !land_ones_wrap, !wrapU_wrapU_le by lia. done.
Qed.

(** A move of T1 into rcx and a shift of T0. *)
Lemma shift_triple w e (sh : Z -> Z -> Z) i vm c x y v :
  encodes room e i -> straight i = true -> is_u (bits w) x ->
  (forall st, exec_instr nan32 nan64 i st =
    Some (set_flags None (put w JIT_REG_T0
        (sh (get w st JIT_REG_T0) (Z.land (get w st X64_RCX) (bits w - 1))) st))) ->
  v = wrapU (bits w) (sh x (Z.land y (bits w - 1))) ->
  tri (with_t01 vm c x y) (_ ← emit_mov_r32_rr room X64_RCX JIT_REG_T1; e) () (with_t0 vm c v).
Proof.
  intros He Hs Hx Hi ->. tbind.
  - one_instr enc_mov_r32_rr. intros st [[HJ H0] H1]. eexists; split; [reflexivity|].
    instantiate (1 := fun st => with_t0 vm c x st /\ regs st X64_RCX = u32 y). cbn beta. unfold put.
    split; [split|]; [jit_keep | done |]. cbn. unfold get. rewrite H1. by apply wrapU_idemp.
  - eapply triple_instr; [done | done |]. intros st [[HJ H0] H1]. eexists; split; [by apply Hi|].
    rewrite (get_is _ _ _ _ H0 Hx). unfold get at 1. rewrite H1, shift_count.
    unfold put. split; [jit_keep | done].
Qed.

(** The quotient in rax, the remainder in rdx. *)
Lemma div_triple w (mov : Z -> Z -> E ()) cd dv vm c x y q :
  (forall d s, is_reg d -> is_reg s -> encodes room (mov d s) (IMov w d s)) ->
  encodes room cd (ICdq w) -> encodes room dv (IIdiv w JIT_REG_T1) ->
  is_u (bits w) x -> is_u (bits w) y -> c_div (bits w) (sgn w x) (sgn w y) = Some q ->
  tri (with_t01 vm c x y) (_ ← mov X64_RAX JIT_REG_T0; _ ← cd; dv) ()
    (fun st => jrel vm c st /\ regs st X64_RAX = wrapU (bits w) q /\
    regs st X64_RDX = wrapU (bits w) (Z.rem (sgn w x) (sgn w y))).
Proof.
  intros Hm Hc Hd Hx Hy Hq. pose proof (bits_pos w).
  destruct (quot_fits w (sgn w x) (sgn w y) q (wrapS_range _ ltac:(done) x) (wrapS_range _ ltac:(done) y) Hq)
    as (Hy0 & Eq & Hfit).
  tbind; [eapply triple_instr; [by apply Hm | done |]|tbind; [eapply triple_instr; [exact Hc | done |] |
      eapply triple_instr; [exact Hd | done |]]].
  - intros st [[HJ H0] H1]. eexists; split; [reflexivity|].
    instantiate (1 := fun st => jrel vm c st /\ regs st X64_RAX = x /\ regs st JIT_REG_T1 = y). cbn beta.
    rewrite (get_is _ _ _ _ H0 Hx). unfold put. split_and!; [jit_keep | by apply wrapU_id | done].
  - intros st (HJ & H0 & H1). eexists; split; [reflexivity|].
    instantiate (1 := fun st => jrel vm c st /\ regs st X64_RAX = x /\
    regs st X64_RDX = wrapU (bits w) (if sgn w x <? 0 then -1 else 0) /\ regs st JIT_REG_T1 = y). cbn beta.
    change (get w st 0) with (get w st X64_RAX). rewrite (get_is _ _ _ _ H0 Hx). unfold put.
    split_and!; [jit_keep | done | done | done].
  - intros st (HJ & H0 & H2 & H1). cbn [exec_instr]. unfold do_idiv.
    change (get w st 0) with (get w st X64_RAX). change (get w st 2) with (get w st X64_RDX).
    rewrite (get_is _ _ _ _ H0 Hx), (get_is _ _ _ _ H2 (wrapU_range _ ltac:(done) _)), (get_is _ _ _ _ H1 Hy).
    rewrite dividend by done. cbv zeta.
    assert (sgn w y <> 0) as Hne%Z.eqb_neq by done. rewrite Hne.
    unfold fits. rewrite <- Eq, bool_decide_eq_true_2 by done. eexists; split; [reflexivity|]. unfold put.
    split_and!; [jit_keep | done | done].
Qed.

(** The quotient, or the remainder, moved into T0. *)
Lemma div_op_triple w (mov : Z -> Z -> E ()) cd dv res vm c x y q v :
  (forall d s, is_reg d -> is_reg s -> encodes room (mov d s) (IMov w d s)) ->
  encodes room cd (ICdq w) -> encodes room dv (IIdiv w JIT_REG_T1) ->
  is_u (bits w) x -> is_u (bits w) y -> c_div (bits w) (sgn w x) (sgn w y) = Some q ->
  (res = X64_RAX /\ v = wrapU (bits w) q \/
    res = X64_RDX /\ v = wrapU (bits w) (Z.rem (sgn w x) (sgn w y))) ->
  tri (with_t01 vm c x y) (_ ← mov X64_RAX JIT_REG_T0; _ ← cd; _ ← dv; mov JIT_REG_T0 res) () (with_t0 vm c v).
Proof.
  intros Hm Hc Hd Hx Hy Hq Hres. pose proof (bits_pos w).
  assert (Hmv : tri (fun st => jrel vm c st /\ regs st res = v) (mov JIT_REG_T0 res) () (with_t0 vm c v)).
  { eapply triple_instr; [apply Hm; destruct Hres as [[-> _] | [-> _]]; done | done |].
    intros st [HJ Hv]. eexists; split; [reflexivity|].
    assert (is_u (bits w) v) as Hu by (destruct Hres as [[_ ->] | [_ ->]]; by apply wrapU_range).
    rewrite (get_is _ _ _ _ Hv Hu). unfold put. split; [jit_keep | by apply wrapU_id]. }
  destruct (div_triple w mov cd dv vm c x y q Hm Hc Hd Hx Hy Hq) as (l1 & E1 & S1 & H1).
  destruct Hmv as (l2 & E2 & S2 & H2). exists (l1 ++ l2). split_and!.
  - intros buf a' buf' E. eapply (emits_bind _ (fun _ => mov JIT_REG_T0 res) _ _ l1 l2 E1 E2).
    unfold mbind, E_bind in *. destruct (mov X64_RAX JIT_REG_T0 buf) as [[? ?]|]; [|done].
    destruct (cd _) as [[? ?]|]; [|done]. by destruct (dv _) as [[? ?]|].
  - by rewrite forallb_app, S1, S2.
  - intros st HP. destruct (H1 st HP) as (st1 & X1 & HJ & Hq0 & Hr0).
    destruct (H2 st1) as (st2 & X2 & HQ); [split; [done|]; by destruct Hres as [[-> ->] | [-> ->]]|].
    exists st2. by rewrite exec_all_app, X1.
Qed.

Lemma bin_i32_triple o vm c x y v :
  is_u 32 x -> is_u 32 y -> i32_word o x y = Some v ->
  o <> JOP_BITAND_I32 -> o <> JOP_BITOR_I32 ->
  tri (with_t01 vm c x y) (emit_bin_i32 room (bin_from_op o)) () (with_t0 vm c v).
Proof.
  intros Hx Hy Hw Ha Ho. assert (0 < 32) by lia.
  assert (Ex : u32 x = x) by (by apply wrapU_id). assert (Ey : u32 y = y) by (by apply wrapU_id).
  destruct o; try done; clear Ha Ho; cbn [i32_word] in Hw; cbn [bin_from_op emit_bin_i32].
  - injection Hw as <-. eapply (alu_triple W32 AAdd); [by apply enc_add_r32 | done | done | done |].
    by rewrite wrapU_idemp.
  - injection Hw as <-. eapply (alu_triple W32 ASub); [by apply enc_sub_r32 | done | done | done |].
    by rewrite wrapU_idemp.
  - injection Hw as <-. apply (imul_triple W32); [by apply enc_imul_r32 | done | done].
  - destruct (c_div 32 (i32 x) (i32 y)) as [q|] eqn:Eq; [|done]. injection Hw as <-.
    eapply (div_op_triple W32); [apply enc_mov_r32_rr | constructor | by apply enc_idiv_r32 | done | done | exact Eq |].
    by left.
  - destruct (c_rem 32 (i32 x) (i32 y)) as [r|] eqn:Er; [|done]. injection Hw as <-.
    apply c_rem_div in Er as [-> [q Eq]].
    eapply (div_op_triple W32); [apply enc_mov_r32_rr | constructor | by apply enc_idiv_r32 | done | done | exact Eq |].
    by right.
  - injection Hw as <-. eapply (shift_triple W32 _ Z.shiftl); [by apply enc_shl_r32_cl | done | done | done |].
    cbn [bits]. rewrite wrapU_wrapS, wrapU_shiftl by (try apply Z.land_nonneg; lia). done.
  - injection Hw as <-. eapply (shift_triple W32 _ (fun a k => Z.shiftr (i32 a) k)); [by apply enc_sar_r32_cl | done | done | done | done].
  - injection Hw as <-. eapply (alu_triple W32 AXor); [by apply enc_xor_r32 | done | done | done |].
    cbn [bits]. by rewrite wrapU_lxor, Ex, Ey.
Qed.

(** What an i64 handler leaves in its register, from the words of its operands. *)
Definition i64_word (o : jello_op) (x y : Z) : option Z := u64 <$> i64_value o (i64 x) (i64 y).

Lemma bin_i64_triple o vm c x y v :
  is_u 64 x -> is_u 64 y -> i64_word o x y = Some v ->
  o <> JOP_BITAND_I64 -> o <> JOP_BITOR_I64 ->
  tri (with_t01 vm c x y) (emit_bin_i64 room (bin_from_op o)) () (with_t0 vm c v).
Proof.
  intros Hx Hy Hw Ha Ho. assert (0 < 64) by lia. unfold i64_word in Hw.
  assert (Ex : u64 x = x) by (by apply wrapU_id). assert (Ey : u64 y = y) by (by apply wrapU_id).
  assert (Hs : forall z, u64 (i64 (u64 z)) = u64 z) by (intros z; by rewrite wrapU_wrapS, wrapU_idemp).
  destruct o; try done; clear Ha Ho; cbn [i64_value] in Hw; cbn [bin_from_op emit_bin_i64];
    rewrite ?(wrapU_wrapS 64 x), ?(wrapU_wrapS 64 y), ?Ex, ?Ey in Hw.
  - injection Hw as <-. eapply (alu_triple W64 AAdd); [by apply enc_add_rr | done | done | done |].
    cbn [bits]. by rewrite Hs, wrapU_idemp.
  - injection Hw as <-. eapply (alu_triple W64 ASub); [by apply enc_sub_rr | done | done | done |].
    cbn [bits]. by rewrite Hs, wrapU_idemp.
  - injection Hw as <-. rewrite Hs. apply (imul_triple W64); [by apply enc_imul_r64 | done | done].
  - destruct (c_div 64 (i64 x) (i64 y)) as [q|] eqn:Eq; [|done]. injection Hw as <-.
    eapply (div_op_triple W64); [apply enc_mov_rr | constructor | by apply enc_idiv_r64 | done | done | exact Eq |].
    left. split; [done|]. by rewrite wrapU_wrapS.
  - destruct (c_rem 64 (i64 x) (i64 y)) as [r|] eqn:Er; [|done]. injection Hw as <-.
    apply c_rem_div in Er as [-> [q Eq]].
    eapply (div_op_triple W64); [apply enc_mov_rr | constructor | by apply enc_idiv_r64 | done | done | exact Eq |].
    right. split; [done|]. by rewrite wrapU_wrapS.
  - injection Hw as <-. eapply (shift_triple W64 _ Z.shiftl); [by apply enc_shl_r64_cl | done | done | done |].
    by rewrite Hs.
  - injection Hw as <-.
    eapply (shift_triple W64 _ (fun a k => Z.shiftr (i64 a) k)); [by apply enc_sar_r64_cl | done | done | done |].
    by rewrite wrapU_wrapS.
  - injection Hw as <-. eapply (alu_triple W64 AXor); [by apply enc_xor_r64 | done | done | done |].
    cbn [bits]. rewrite !wrapU_lxor, !(wrapU_wrapS 64), Ex, Ey by done. done.
Qed.

(** ** Immediates and comparisons *)

Lemma alu_imm_triple op e k vm c x r v :
  encodes room e (IAluImm W32 op JIT_REG_T0 k) -> is_u 32 x ->
  fst (alu_op W32 op x (u32 k)) = Some r -> v = u32 r ->
  tri (with_t0 vm c x) e () (with_t0 vm c v).
Proof.
  intros He Hx Hr ->. eapply triple_instr; [done | done |]. intros st [HJ H0].
  eexists; split; [reflexivity|]. unfold do_alu. rewrite (get_is W32 _ _ _ H0 Hx).
  destruct (alu_op W32 op x _) as [[r'|] fl]; [|done]. cbn in Hr. injection Hr as ->. unfold put.
  split; [jit_keep | done].
Qed.

(** The flags of [x] compared with [y]. *)
Definition compared w vm c x y st : Prop := jrel vm c st /\ flg st = Some (snd (alu_op w ACmp x y)).

Lemma cmp_triple w e vm c x y :
  encodes room e (IAlu w ACmp JIT_REG_T0 JIT_REG_T1) -> is_u (bits w) x -> is_u (bits w) y ->
  tri (with_t01 vm c x y) e () (compared w vm c x y).
Proof.
  intros He Hx Hy. eapply triple_instr; [done | done |]. intros st [[HJ H0] H1].
  eexists; split; [reflexivity|]. rewrite (get_is _ _ _ _ H0 Hx), (get_is _ _ _ _ H1 Hy).
  split; [unfold do_alu; cbn; jit_keep | done].
Qed.

Lemma cmp_imm_triple e k vm c x :
  encodes room e (IAluImm W32 ACmp JIT_REG_T0 k) -> is_u 32 x ->
  tri (with_t0 vm c x) e () (compared W32 vm c x (u32 k)).
Proof.
  intros He Hx. eapply triple_instr; [done | done |]. intros st [HJ H0].
  eexists; split; [reflexivity|]. rewrite (get_is W32 _ _ _ H0 Hx).
  split; [unfold do_alu; cbn; jit_keep | done].
Qed.

(** [setcc] and [movzx] make the answer of a condition of it. *)
Lemma set_t0_triple cc vm c fl b :
  is_reg cc -> cond cc fl = Some b ->
  tri (fun st => jrel vm c st /\ flg st = Some fl) (emit_set_t0 room (0x90 + cc)) () (with_t0 vm c (Z.b2z b)).
Proof.
  intros Hcc Hb. tbind.
  - eapply triple_instr; [apply enc_setcc; [done | split; done | by right] | done |]. intros st [HJ Hf].
    cbn [exec_instr]. rewrite Hf. cbn [mbind option_bind]. rewrite Hb. cbn [mbind option_bind].
    eexists; split; [reflexivity|].
    instantiate (1 := fun st => jrel vm c st /\ u8 (regs st JIT_REG_T0) = Z.b2z b). cbn beta.
    unfold put8. change (16 <=? JIT_REG_T0) with false. cbv zeta iota.
    split; [jit_keep|]. cbn. unfold wrapU at 1. change (2 ^ 8) with 256.
    rewrite Z.mul_comm, Z.add_comm, Z.mod_add by done. by destruct b.
  - eapply triple_instr; [apply enc_movzx8; [split; done | split; done | done | by right] | done |]. intros st [HJ Hv].
    eexists; split; [reflexivity|]. change (get8 st JIT_REG_T0) with (u8 (regs st JIT_REG_T0)). unfold put. rewrite Hv.
    split; [jit_keep | by destruct b].
Qed.

Definition cmp_value (lt : bool) (x y : Z) : bool := if lt then x <? y else x =? y.

Lemma sgn_eqb w x y : is_u (bits w) x -> is_u (bits w) y -> (x =? y) = (sgn w x =? sgn w y).
Proof.
  intros Hx Hy. unfold sgn. destruct (Z.eqb_spec x y) as [->|Hne]; [by rewrite Z.eqb_refl|].
  symmetry. apply Z.eqb_neq. intros E. apply Hne.
  rewrite <- (wrapU_id _ x Hx), <- (wrapU_id _ y Hy), <- (wrapU_wrapS _ x), E. by rewrite wrapU_wrapS.
Qed.

Lemma set_cmp_triple w imm vm c x y :
  is_u (bits w) x -> is_u (bits w) y ->
  tri (compared w vm c x y) (emit_cmp_set_i32 room imm) ()
    (with_t0 vm c (Z.b2z (cmp_value (is_cmp_lt imm) (sgn w x) (sgn w y)))).
Proof.
  intros Hx Hy. unfold emit_cmp_set_i32, cmp_value.
  destruct (is_cmp_lt imm).
  - apply (set_t0_triple 12); [split; done|]. cbn. f_equal. by apply sub_less.
  - apply (set_t0_triple 4); [split; done|]. cbn. f_equal. rewrite sub_zero by done. by apply sgn_eqb.
Qed.

(** ** Floats *)

(** XMM0 holds [x] (and XMM1 [y]), in the low part. *)
Definition with_x0 w vm c x st : Prop := jrel vm c st /\ get_x w st JIT_FP_T0 = x.
Definition with_x01 w vm c x y st : Prop := with_x0 w vm c x st /\ get_x w st JIT_FP_T1 = y.

Lemma get_put_x w st x v : get_x w (put_x w x v st) x = wrapU (bits w) v.
Proof.
  destruct w; unfold get_x, put_x, set_xmm, upd; cbn [xmm bits]; rewrite Z.eqb_refl.
  - unfold wrapU. rewrite Z.mul_comm, Z.mod_add by done. by apply Z.mod_mod.
  - by apply wrapU_idemp.
Qed.

Lemma fop_triple w op e vm c x y :
  encodes room e (IXOp w op JIT_FP_T0 JIT_FP_T1) ->
  tri (with_x01 w vm c x y) e () (with_x0 w vm c (wrapU (bits w) (do_fop nan32 nan64 w op x y))).
Proof.
  intros He. eapply triple_instr; [done | done |]. intros st [[HJ <-] <-].
  eexists; split; [reflexivity|]. split; [by destruct w; apply jit_rel_xmm | apply get_put_x].
Qed.

Lemma comi_triple w e vm c x y :
  encodes room e (IXComi w JIT_FP_T0 JIT_FP_T1) ->
  tri (with_x01 w vm c x y) e () (fun st => jrel vm c st /\ flg st = Some (comi (fmt w) x y)).
Proof.
  intros He. eapply triple_instr; [done | done |]. intros st [[HJ <-] <-].
  eexists; split; [reflexivity|]. split; [jit_keep | done].
Qed.

(** Two numbers, none a NaN. *)
Definition ordered (fm : format) (x y : Z) : Prop := (fl_lt fm x y || fl_eq fm x y || fl_lt fm y x) = true.

Lemma set_cmp_fp_triple fm imm vm c x y :
  ordered fm x y ->
  tri (fun st => jrel vm c st /\ flg st = Some (comi fm x y)) (emit_cmp_set_fp room imm) ()
    (with_t0 vm c (Z.b2z (if is_cmp_lt imm then fl_lt fm x y else fl_eq fm x y))).
Proof.
  intros Ho. unfold emit_cmp_set_fp, ordered, comi in *.
  assert (Hle : fl_lt fm x y = true -> fl_eq fm x y = false).
  { unfold fl_lt, fl_eq, SpecFloat.SFltb, SpecFloat.SFeqb. by destruct (SpecFloat.SFcompare _ _) as [[]|]. }
  destruct (is_cmp_lt imm).
  - apply (set_t0_triple 2); [split; done|]. cbn.
    destruct (fl_lt fm x y), (fl_eq fm x y), (fl_lt fm y x); done.
  - apply (set_t0_triple 4); [split; done|]. cbn.
    destruct (fl_lt fm x y); [by rewrite Hle|]. destruct (fl_eq fm x y), (fl_lt fm y x); done.
Qed.

(** ** Slots into T0, T1 and back *)

Hypothesis Hoff : fl_off layout = rf_off rf.
Hypothesis Hregs : zlen ks < JIT_I32C_NONE.
Hypothesis HL : layout_ok ks (rf_off rf) (rf_total rf).

Abbreviation ldr := (ldr_slot_triple room m f layout rf ks nan32 nan64 A others kept Hoff Hregs HL).
Abbreviation str := (str_slot_triple room m f layout rf ks nan32 nan64 A others kept Hoff Hregs HL).
Abbreviation ldrx := (ldr_xmm_triple room m f layout rf ks nan32 nan64 A others kept Hoff Hregs HL).
Abbreviation strx := (str_xmm_triple room m f layout rf ks nan32 nan64 A others kept Hoff Hregs HL).

Lemma not_none r k : ks @! r = Some k -> r <> JIT_I32C_NONE.
Proof. intros Hk%znth_Some. lia. Qed.

Lemma cached_mov_triple d vm c r k (P : cpu -> Prop) :
  is_reg d -> scratch d = true -> ks @! r = Some k -> c = r ->
  (forall st, P st -> jrel vm c st) ->
  tri P (emit_mov_r32_rr room d JIT_REG_I32C) () (fun st => exists st0, P st0 /\ st = set_reg d (reg rf ks r vm) st0).
Proof.
  intros Hd Hs Hk -> HP. eapply triple_instr; [apply enc_mov_r32_rr; [done | split; done] | done |].
  intros st H. pose proof (HP st H) as HJ.
  destruct (jr_cache _ _ _ _ _ _ _ _ _ _ HJ (not_none r k Hk)) as (k' & Hk' & H4 & Hv).
  eexists; split; [reflexivity|]. exists st. split; [done|]. unfold put, get. rewrite Hv. f_equal.
  pose proof (reg_range m f rf ks A others kept vm r st r k' HJ Hk') as Hu. rewrite H4 in Hu.
  cbn [bits]. by rewrite !wrapU_id by (try apply wrapU_range; done).
Qed.

Lemma ldr_i32_t0_triple vm c r k :
  ks @! r = Some k -> jello_slot_size k = 4 ->
  tri (jrel vm c) (emit_ldr_i32_t0 room layout c r) () (with_t0 vm c (reg rf ks r vm)).
Proof.
  intros Hk Hs. unfold emit_ldr_i32_t0. destruct (Z.eqb_spec c r) as [->|Hne].
  - eapply triple_weaken; [by eapply (cached_mov_triple JIT_REG_T0 vm r r k (jrel vm r)) | done |].
    intros st (st0 & HJ & ->). split; [jit_keep | done].
  - eapply (ldr W32); [by intros; apply enc_load_r32 | exact Hk | done | done |].
    intros st HJ. split; [exact HJ|]. split; [jit_keep | done].
Qed.

Lemma ldr_i32_t1_triple vm c x r k :
  ks @! r = Some k -> jello_slot_size k = 4 ->
  tri (with_t0 vm c x) (emit_ldr_i32_t1 room layout c r) () (with_t01 vm c x (reg rf ks r vm)).
Proof.
  intros Hk Hs. unfold emit_ldr_i32_t1. destruct (Z.eqb_spec c r) as [->|Hne].
  - eapply triple_weaken; [eapply (cached_mov_triple JIT_REG_T1 vm r r k (with_t0 vm r x)); try done; by intros st [HJ _] | done |].
    intros st (st0 & [HJ H0] & ->). split; [split; [jit_keep | exact H0] | done].
  - eapply (ldr W32); [by intros; apply enc_load_r32 | exact Hk | done | done |].
    intros st [HJ H0]. split; [exact HJ|]. split; [split; [jit_keep | exact H0] | done].
Qed.

(** The store of T0, which then is the cached register. *)
Lemma str_i32_t0_triple vm c a k v :
  ks @! a = Some k -> jello_slot_size k = 4 -> is_u 32 v -> is_u 16 a ->
  tri (with_t0 vm c v) (emit_str_i32_t0 room layout a) a (jrel (with_reg 4 rf a v vm) a).
Proof.
  intros Hk Hs Hv Ha. unfold emit_str_i32_t0.
  set (vm' := with_reg 4 rf a v vm).
  tbind; [eapply (str W32 _ _ _ (fun st => with_t0 vm' JIT_I32C_NONE v st /\ reg rf ks a vm' = v) _ _ _ vm JIT_I32C_NONE v);
      [by intros; apply enc_store_r32 | exact Hk | done | done | by apply not_eq_sym, (not_none a k) | |]|].
  - intros st [HJ H0]. split; [by eapply jit_rel_none | by apply (get_is W32)].
  - intros st st' [HJ H0] HJ' Hr. split; [split; [exact HJ' | by rewrite Hr]|].
    unfold vm'. rewrite (reg_with_same rf ks vm (proj1 (jr_frame _ _ _ _ _ _ _ _ _ _ HJ)) 4 a k v Hk) by (unfold width_of; by rewrite Hs).
    rewrite Hs. by apply wrapU_id.
  - tbind; [one_instr enc_mov_r32_rr; intros st [[HJ H0] Hreg]; eexists; split; [reflexivity|]|].
    + instantiate (1 := jrel vm' a). unfold put, get. rewrite H0. cbn [bits].
      rewrite !(wrapU_id 32) by (try apply wrapU_range; done).
      destruct HJ as [J1 J2 J3 J4 J5 J6 J7]. constructor; try done.
      * intros r Hr. rewrite <- (J6 r Hr). cbn [regs set_reg]. unfold upd.
        destruct (Z.eqb_spec r JIT_REG_I32C) as [->|]; [|done].
        by repeat (apply elem_of_cons in Hr as [Hr|Hr]; [done|]); apply elem_of_nil in Hr.
      * intros _. exists k. split_and!; [done | done |]. cbn [regs set_reg]. unfold upd. by rewrite Z.eqb_refl.
    + rewrite (wrapU_id 16) by done. by apply triple_ret.
Qed.

(** The 64-bit slots, and a 32-bit store that does not go through the cache. *)
Lemma ldr_x_t0_triple vm c r k :
  ks @! r = Some k -> jello_slot_size k = 8 ->
  tri (jrel vm c) (emit_ldr_x_slot room JIT_REG_T0 JIT_REG_BASE (slot_off layout r)) () (with_t0 vm c (reg rf ks r vm)).
Proof.
  intros Hk Hs. eapply (ldr W64); [by intros; apply enc_load_r64 | exact Hk | done | done |].
  intros st HJ. split; [exact HJ|]. split; [jit_keep | done].
Qed.

Lemma ldr_x_t1_triple vm c x r k :
  ks @! r = Some k -> jello_slot_size k = 8 ->
  tri (with_t0 vm c x) (emit_ldr_x_slot room JIT_REG_T1 JIT_REG_BASE (slot_off layout r)) ()
    (with_t01 vm c x (reg rf ks r vm)).
Proof.
  intros Hk Hs. eapply (ldr W64); [by intros; apply enc_load_r64 | exact Hk | done | done |].
  intros st [HJ H0]. split; [exact HJ|]. split; [split; [jit_keep | exact H0] | done].
Qed.

Lemma ldr_w_t0_triple vm c r k :
  ks @! r = Some k -> jello_slot_size k = 4 ->
  tri (jrel vm c) (emit_ldr_w_slot room JIT_REG_T0 JIT_REG_BASE (slot_off layout r)) () (with_t0 vm c (reg rf ks r vm)).
Proof.
  intros Hk Hs. eapply (ldr W32); [by intros; apply enc_load_r32 | exact Hk | done | done |].
  intros st HJ. split; [exact HJ|]. split; [jit_keep | done].
Qed.

Lemma str_t0_triple w acc vm c a k v :
  (forall b p, is_reg b -> is_u 32 p -> encodes room (acc JIT_REG_T0 b p) (IStore w JIT_REG_T0 b p)) ->
  ks @! a = Some k -> jello_slot_size k = Z.of_nat (nbytes w) -> is_u (bits w) v ->
  tri (with_t0 vm c v) (slot_access room acc (Z.of_nat (nbytes w)) JIT_REG_T0 JIT_REG_BASE (slot_off layout a)) ()
    (jrel (with_reg (nbytes w) rf a v vm) JIT_I32C_NONE).
Proof.
  intros He Hk Hs Hv.
  eapply (str w _ _ _ _ _ _ _ vm JIT_I32C_NONE v);
    [exact He | exact Hk | done | done | by apply not_eq_sym, (not_none a k) | |].
  - intros st [HJ H0]. split; [by eapply jit_rel_none | by apply (get_is w)].
  - by intros st st' _ HJ' _.
Qed.

Lemma str_x_t0_triple vm c a k v :
  ks @! a = Some k -> jello_slot_size k = 8 -> is_u 64 v ->
  tri (with_t0 vm c v) (emit_str_x_slot room JIT_REG_T0 JIT_REG_BASE (slot_off layout a)) ()
    (jrel (with_reg 8 rf a v vm) JIT_I32C_NONE).
Proof. intros. eapply (str_t0_triple W64); [by intros; apply enc_store_r64 | done..]. Qed.

Lemma str_w_t0_triple vm c a k v :
  ks @! a = Some k -> jello_slot_size k = 4 -> is_u 32 v ->
  tri (with_t0 vm c v) (emit_str_w_slot room JIT_REG_T0 JIT_REG_BASE (slot_off layout a)) ()
    (jrel (with_reg 4 rf a v vm) JIT_I32C_NONE).
Proof. intros. eapply (str_t0_triple W32); [by intros; apply enc_store_r32 | done..]. Qed.

(** Float slots. *)
Definition ldr_fp (w : width) := match w with W32 => emit_ldr_s_slot room | W64 => emit_ldr_d_slot room end.
Definition str_fp (w : width) := match w with W32 => emit_str_s_slot room | W64 => emit_str_d_slot room end.

Lemma get_set_x w st x v : is_u (bits w) v -> get_x w (set_xmm x v st) x = v.
Proof. intros Hv. unfold get_x, set_xmm, upd. cbn [xmm]. rewrite Z.eqb_refl. by apply wrapU_id. Qed.

Lemma ldr_x0_triple w vm c r k :
  ks @! r = Some k -> jello_slot_size k = Z.of_nat (nbytes w) ->
  tri (jrel vm c) (ldr_fp w JIT_FP_T0 JIT_REG_BASE (slot_off layout r)) () (with_x0 w vm c (reg rf ks r vm)).
Proof.
  intros Hk Hs.
  assert (forall st, jrel vm c st -> jrel vm c st /\
      with_x0 w vm c (reg rf ks r vm) (set_xmm JIT_FP_T0 (reg rf ks r vm) st)) as H.
  { intros st HJ. split; [done|]. split; [jit_keep|]. apply get_set_x.
    pose proof (reg_range m f rf ks A others kept vm c st r k HJ Hk) as Hu. rewrite Hs in Hu. by destruct w. }
  destruct w; [eapply (ldrx W32) | eapply (ldrx W64)]; try exact Hk; try done;
    intros; by constructor.
Qed.

Lemma ldr_x1_triple w vm c x r k :
  ks @! r = Some k -> jello_slot_size k = Z.of_nat (nbytes w) ->
  tri (with_x0 w vm c x) (ldr_fp w JIT_FP_T1 JIT_REG_BASE (slot_off layout r)) () (with_x01 w vm c x (reg rf ks r vm)).
Proof.
  intros Hk Hs.
  assert (forall st, with_x0 w vm c x st -> jrel vm c st /\
      with_x01 w vm c x (reg rf ks r vm) (set_xmm JIT_FP_T1 (reg rf ks r vm) st)) as H.
  { intros st [HJ Hx]. split; [done|]. split; [split; [jit_keep | exact Hx]|]. apply get_set_x.
    pose proof (reg_range m f rf ks A others kept vm c st r k HJ Hk) as Hu. rewrite Hs in Hu. by destruct w. }
  destruct w; [eapply (ldrx W32) | eapply (ldrx W64)]; try exact Hk; try done;
    intros; by constructor.
Qed.

Lemma str_x0_triple w vm c a k v :
  ks @! a = Some k -> jello_slot_size k = Z.of_nat (nbytes w) -> c <> a ->
  tri (with_x0 w vm c v) (str_fp w JIT_FP_T0 JIT_REG_BASE (slot_off layout a)) ()
    (jrel (with_reg (nbytes w) rf a v vm) c).
Proof.
  intros Hk Hs Hc.
  assert (forall st st', with_x0 w vm c v st -> jrel (with_reg (nbytes w) rf a v vm) c st' ->
      regs st' = regs st -> jrel (with_reg (nbytes w) rf a v vm) c st') as H by done.
  destruct w; [eapply (strx W32) | eapply (strx W64)]; try exact Hk; try done;
    intros; by constructor.
Qed.
End Core.
