(* ===== verification/JitX64Thms.v ===== *)
(** * Compiled instructions and the interpreter

    The code emitted for an instruction takes the state that represents the frame
    before the interpreter's handler to one that represents the frame after it. *)

From S2P Require Import Prelude CInt Memory Bytecode Check CheckFacts FunCheck Loader LoaderSpec LoaderFacts Value Object Heap Vm Frame FrameFacts Float Gc GcThms Box BoxThms Types Ops ArithOps ArithThms Call CallFacts Exc CoreOps CallOps ContainerOps BytesOps ObjOps Exec StepThms JitIr X64 X64Sem JitX64 X64Thms X64Run JitX64Facts JitX64Core.
#[local] Open Scope list_scope.
#[local] Open Scope Z_scope.

(** ** Handlers as functions of the state *)

Section Handler.
Context (m : jello_bc_module) (f : jello_bc_function) (rf : reg_frame) (ks : list jello_type_kind).

Lemma load_bind {A} n r vm (K : Z -> M A) :
  frame_of m f rf ks vm -> reg_width ks r (Z.of_nat n) ->
  (load_reg n rf r ≫= K) vm = K (reg rf ks r vm) vm.
Proof.
  intros [Hrf _] (k & Hk & Hn). unfold mbind, M_bind.
  by rewrite (load_reg_run rf ks vm Hrf n r k Hk) by (unfold width_of; rewrite Hn; lia).
Qed.

Lemma store_bind {A} n r v vm (K : () -> M A) :
  frame_of m f rf ks vm -> reg_width ks r (Z.of_nat n) ->
  (store_reg n rf r v ≫= K) vm = K () (with_reg n rf r v vm).
Proof.
  intros [Hrf _] (k & Hk & Hn). unfold mbind, M_bind.
  by rewrite (store_reg_run rf ks vm Hrf n r k v Hk) by (unfold width_of; rewrite Hn; lia).
Qed.

Lemma ret_bind {A B} (x : A) (K : A -> M B) : ((mret x : M A) ≫= K) = K x.
Proof. done. Qed.

Lemma bind_assoc_run {A B C} (c : M A) (K : A -> M B) (L : B -> M C) vm :
  ((c ≫= K) ≫= L) vm = (c ≫= fun x => K x ≫= L) vm.
Proof. unfold mbind, M_bind. by destruct (c vm). Qed.
End Handler.

(** Rewrites a run of a handler in [H] to its result. *)
Ltac run_in H :=
  repeat first
  [ erewrite load_bind in H; [|eassumption|eassumption]
  | erewrite store_bind in H; [|eassumption|eassumption]
  | rewrite bind_assoc_run in H
  | rewrite ret_bind in H ].

Section Sim.
Context (room : Z -> bool) (fn_addr : helper -> Z) (lay : jello_jit_layout).
Context (m : jello_bc_module) (f : jello_bc_function) (layout : frame_layout).
Context (rf : reg_frame) (ks : list jello_type_kind) (nan32 nan64 : Z).
Context (A : Z) (others : list (Z * list Z)) (kept : Z -> Z).
Hypothesis Hoff : fl_off layout = rf_off rf.
Hypothesis Hregs : zlen ks <= 256.
Hypothesis HL : layout_ok ks (rf_off rf) (rf_total rf).

Context (ctx : exec_ctx) (body_entry pc : Z) (ins : jello_insn).
Hypothesis Hcf : cx_f ctx = f.
Hypothesis Hcr : cx_rf ctx = rf.
Hypothesis Hins : insn_at f pc = ins.

Abbreviation jrel := (jit_rel m f rf ks A others kept).
Abbreviation tri := (triple nan32 nan64).
Abbreviation width r n := (reg_width ks r n).
Abbreviation R r vm := (reg rf ks r vm).

Let Hsmall : zlen ks < JIT_I32C_NONE.
Proof. unfold JIT_I32C_NONE. lia. Qed.

Lemma bc_is_op ir o o' :
  ir_pc ir = pc -> op_of_code (i_op ins) = Some o -> bc_is f ir o' = (code_of_op o =? code_of_op o').
Proof. intros Hp Ho. unfold bc_is, is_op. by rewrite Hp, Hins, (code_of_op_of_code _ _ Ho). Qed.

Lemma bin_of_code_of b : bin_of_code (code_of_bin b) = b.
Proof. by destruct b. Qed.

Lemma reg_u16 r k : ks @! r = Some k -> is_u 16 r.
Proof. intros Hk%znth_Some. unfold is_u. lia. Qed.

(** A frame of the function on a stack of bytes. *)
Definition good (vm : jello_vm) : Prop := frame_of m f rf ks vm /\ Forall is_byte (frame_stack (v_stack vm)).

Lemma reg_u vm r n : good vm -> width r n -> is_u (8 * n) (R r vm).
Proof. intros [_ Hb] (k & Hk & <-). by apply reg_is_u. Qed.

Lemma reg_u32 vm r : good vm -> width r 4 -> is_u 32 (R r vm).
Proof. apply (reg_u vm r 4). Qed.

Lemma reg_u64 vm r : good vm -> width r 8 -> is_u 64 (R r vm).
Proof. apply (reg_u vm r 8). Qed.

(** The register the cache holds after the code of an instruction emitted inline. *)
Definition cache_after (c : Z) (ir : jello_jit_ir_insn) : Z :=
  match ir_op ir with
  | JIR_NOP | JIR_BIN_F32 | JIR_BIN_F64 => c
  | JIR_LOAD_I32 | JIR_BIN_I32 | JIR_NEG_I32 | JIR_CMP_I32 => ir_a ir
  | JIR_MOV_REG => if reg_slot_sz m f (ir_a ir) =? 8 then JIT_I32C_NONE else ir_a ir
  | _ => JIT_I32C_NONE
  end.

(** The emitted code for [ir] does what [vm'] says. *)
Definition simulates (c0 : Z) (vm vm' : jello_vm) (ir : jello_jit_ir_insn) : Prop :=
  tri (jrel vm c0) (emit_insn room fn_addr lay m f layout body_entry c0 ir) (cache_after c0 ir)
    (jrel vm' (cache_after c0 ir)).

(** ** i32 *)

Lemma bin_i32_run expr vm r vm' ka :
  good vm -> ks @! (i_a ins) = Some ka ->
  width (i_a ins) 4 -> width (i_b ins) 4 -> width (i_c ins) 4 ->
  OP_BIN_I32_MASKED m expr ctx ins vm = Ret r vm' ->
  exists v, expr (R (i_b ins) vm) (R (i_c ins) vm) = Some v /\ vm' = with_reg 4 rf (i_a ins) (mask_kind ka v) vm.
Proof.
  intros [HF Hb] Ka Wa Wb Wc H. unfold OP_BIN_I32_MASKED, vm_load_u32 in H. rewrite Hcf, Hcr in H.
  rewrite (proj2 HF _ _ Ka) in H. change (must (Some ka)) with (mret ka : M jello_type_kind) in H. run_in H.
  destruct (expr _ _) as [v|]; [|done]. exists v. split; [done|].
  change (must (Some v)) with (mret v : M Z) in H. run_in H.
  unfold vm_store_u32_masked, vm_store_u32 in H. run_in H. by injection H as _ <-.
Qed.

Abbreviation t0_i32 := (ldr_i32_t0_triple room m f layout rf ks nan32 nan64 A others kept Hoff Hsmall HL).
Abbreviation t1_i32 := (ldr_i32_t1_triple room m f layout rf ks nan32 nan64 A others kept Hoff Hsmall HL).
Abbreviation st_i32 := (str_i32_t0_triple room m f layout rf ks nan32 nan64 A others kept Hoff Hsmall HL).

(** The kinds whose registers the masked stores do not narrow. *)
Definition unmasked (ka : jello_type_kind) : Prop := ka <> JELLO_T_I8 /\ ka <> JELLO_T_I16.

Lemma mask_unmasked ka v : unmasked ka -> mask_kind ka v = v.
Proof. intros [H1 H2]. by destruct ka. Qed.

Lemma i32_word_u o x y v : is_u 32 x -> is_u 32 y -> i32_word o x y = Some v ->
  o <> JOP_BITAND_I32 -> o <> JOP_BITOR_I32 -> is_u 32 v.
Proof.
  intros Hx Hy Hw H1 H2. assert (Hu : forall z, is_u 32 (u32 z)) by (intros; by apply wrapU_range).
  destruct o; try done; cbn in Hw; try (by injection Hw as <-).
  - destruct (c_div _ _ _); [|done]. by injection Hw as <-.
  - destruct (c_rem _ _ _); [|done]. by injection Hw as <-.
  - injection Hw as <-. rewrite <- (wrapU_id 32 x Hx), <- (wrapU_id 32 y Hy), <- wrapU_lxor by lia. done.
Qed.

Lemma sim_bin_i32 o c0 vm r vm' ka :
  lower_arith o pc ins = Some (ir_abc JIR_BIN_I32 (code_of_bin (bin_from_op o)) pc ins) ->
  op_of_code (i_op ins) = Some o -> is_Some (i32_handler m o) -> good vm ->
  ks @! (i_a ins) = Some ka -> unmasked ka ->
  width (i_a ins) 4 -> width (i_b ins) 4 -> width (i_c ins) 4 ->
  OP_BIN_I32_MASKED m (i32_word o) ctx ins vm = Ret r vm' ->
  simulates c0 vm vm' (ir_abc JIR_BIN_I32 (code_of_bin (bin_from_op o)) pc ins).
Proof.
  intros Hl Ho Hh HG Ka Hk Wa Wb Wc H.
  destruct (bin_i32_run _ vm r vm' ka HG Ka Wa Wb Wc H) as (v & Hv & ->). rewrite mask_unmasked by done.
  pose proof (reg_u32 vm _ HG Wb) as Ub. pose proof (reg_u32 vm _ HG Wc) as Uc.
  destruct Wa as (ka' & Ka' & Sa), Wb as (kb & Kb & Sb), Wc as (kc & Kc & Sc).
  assert (o <> JOP_BITAND_I32 /\ o <> JOP_BITOR_I32) as [N1 N2] by (by destruct o).
  unfold simulates. cbn [emit_insn cache_after ir_op ir_abc ir_a]. unfold emit_ir_bin_i32.
  rewrite !(bc_is_op _ o) by done. cbn [ir_a ir_b ir_c ir_imm ir_abc]. rewrite bin_of_code_of.
  assert ((code_of_op o =? code_of_op JOP_ADD_I32_IMM) || (code_of_op o =? code_of_op JOP_SUB_I32_IMM) ||
      (code_of_op o =? code_of_op JOP_MUL_I32_IMM) = false) as -> by (by destruct o; destruct Hh).
  tbind; [by eapply t0_i32|]. tbind; [tbind; [by eapply t1_i32|]; by eapply bin_i32_triple|].
  eapply st_i32; [done | done | by apply (i32_word_u o _ _ v Ub Uc) | by eapply reg_u16].
Qed.

(** Constants into T0 and T1. *)
Lemma mov_t0_imm w e vm c k :
  encodes room e (IMovImm w JIT_REG_T0 k) -> is_u (bits w) k ->
  tri (jrel vm c) e () (with_t0 m f rf ks A others kept vm c k).
Proof.
  intros He Hk. eapply triple_instr; [done | done |]. intros st HJ. eexists; split; [reflexivity|].
  unfold put. rewrite wrapU_id by done. split; [jit_keep | done].
Qed.

Lemma mov_t1_imm w e vm c x k :
  encodes room e (IMovImm w JIT_REG_T1 k) -> is_u (bits w) k ->
  tri (with_t0 m f rf ks A others kept vm c x) e () (with_t01 m f rf ks A others kept vm c x k).
Proof.
  intros He Hk. eapply triple_instr; [done | done |]. intros st [HJ H0]. eexists; split; [reflexivity|].
  unfold put. rewrite wrapU_id by done. split; [split; [jit_keep | done] | done].
Qed.

(** The immediate forms: addition, subtraction, multiplication. *)
Definition imm_word (o : jello_op) (x y : Z) : Z :=
  match o with JOP_SUB_I32_IMM => u32 (x - y) | JOP_MUL_I32_IMM => u32 (x * y) | _ => u32 (x + y) end.

Lemma imm_c_s : is_s 32 (imm_c ins).
Proof. pose proof (wrapS_range 8 ltac:(lia) (i_c ins)) as H. unfold imm_c, is_s in *. lia. Qed.

Lemma sim_imm_i32 o c0 vm r vm' ka :
  o ∈ [JOP_ADD_I32_IMM; JOP_SUB_I32_IMM; JOP_MUL_I32_IMM] ->
  op_of_code (i_op ins) = Some o -> good vm ->
  ks @! (i_a ins) = Some ka -> unmasked ka -> width (i_a ins) 4 -> width (i_b ins) 4 ->
  OP_BIN_I32_IMM_MASKED m (imm_word o) ctx ins vm = Ret r vm' ->
  simulates c0 vm vm' (ir_abc JIR_BIN_I32 (code_of_bin (bin_from_op o)) pc ins).
Proof.
  intros Hin Ho HG Ka Hk Wa Wb H. destruct HG as [HF Hby] eqn:EG. clear EG.
  unfold OP_BIN_I32_IMM_MASKED, vm_load_u32 in H. rewrite Hcf, Hcr in H.
  rewrite (proj2 HF _ _ Ka) in H. change (must (Some ka)) with (mret ka : M jello_type_kind) in H. run_in H.
  unfold vm_store_u32_masked, vm_store_u32 in H. run_in H. injection H as _ <-. rewrite mask_unmasked by done.
  pose proof (reg_u32 vm _ (conj HF Hby) Wb) as Ub. pose proof imm_c_s as Hi.
  destruct Wa as (ka' & Ka' & Sa), Wb as (kb & Kb & Sb).
  assert (Hst : tri (with_t0 m f rf ks A others kept vm c0 (imm_word o (R (i_b ins) vm) (u32 (imm_c ins))))
      (emit_str_i32_t0 room layout (i_a ins)) (i_a ins)
      (jrel (with_reg 4 rf (i_a ins) (imm_word o (R (i_b ins) vm) (u32 (imm_c ins))) vm) (i_a ins))).
  { eapply st_i32; [done | done | | by eapply reg_u16].
    unfold imm_word. destruct o; apply wrapU_range; lia. }
  unfold simulates. cbn [emit_insn cache_after ir_op ir_abc ir_a]. unfold emit_ir_bin_i32.
  rewrite !(bc_is_op _ o) by done. cbn [ir_a ir_b ir_c ir_imm ir_abc]. rewrite bin_of_code_of. fold (imm_c ins).
  tbind; [by eapply t0_i32|]. tbind; [|exact Hst].
  repeat (apply elem_of_cons in Hin as [->|Hin]); [..|by apply elem_of_nil in Hin]; cbn -[Z.add Z.mul wrapU].
  - eapply (alu_imm_triple room m f rf ks nan32 nan64 A others kept AAdd); [by apply enc_add_imm | done | done |].
    by rewrite wrapU_idemp.
  - eapply (alu_imm_triple room m f rf ks nan32 nan64 A others kept ASub); [by apply enc_sub_imm | done | done |].
    by rewrite wrapU_idemp.
  - assert (is_u 32 (u32 (imm_c ins))) as Uu by (apply wrapU_range; lia).
    tbind; [by eapply (mov_t1_imm W32); [apply enc_mov_r32_imm|]|].
    by eapply (imul_triple room m f rf ks nan32 nan64 A others kept W32); [apply enc_imul_r32 | |].
Qed.

Lemma sim_neg_i32 c0 vm r vm' ka :
  good vm -> ks @! (i_a ins) = Some ka -> unmasked ka -> width (i_a ins) 4 -> width (i_b ins) 4 ->
  op_neg_i32 m ctx ins vm = Ret r vm' -> simulates c0 vm vm' (ir_ab JIR_NEG_I32 0 pc ins).
Proof.
  intros [HF Hby] Ka Hk Wa Wb H. unfold op_neg_i32, OP_UN_I32_MASKED, vm_load_u32 in H. rewrite Hcf, Hcr in H.
  rewrite (proj2 HF _ _ Ka) in H. change (must (Some ka)) with (mret ka : M jello_type_kind) in H. run_in H.
  unfold vm_store_u32_masked, vm_store_u32 in H. run_in H. injection H as _ <-. rewrite mask_unmasked by done.
  pose proof (reg_u32 vm _ (conj HF Hby) Wb) as Ub. destruct Wa as (ka' & Ka' & Sa), Wb as (kb & Kb & Sb).
  unfold simulates. cbn [emit_insn cache_after ir_op ir_ab ir_a]. unfold emit_neg_i32. cbn [ir_a ir_b ir_ab].
  tbind; [by eapply t0_i32|]. tbind; [by eapply (neg_triple room m f rf ks nan32 nan64 A others kept W32); [apply enc_neg_r32|]|].
  eapply st_i32; [done | done | apply wrapU_range; lia | by eapply reg_u16].
Qed.

(** ** Comparisons *)

(** The instruction, and the comparison of signed words it makes. *)
Definition cmp_i32_value (o : jello_op) (x y : Z) : option bool :=
  match o with
  | JOP_EQ_I32 => Some (i32 x =? i32 y)
  | JOP_LT_I32 => Some (i32 x <? i32 y)
  | JOP_EQ_I32_IMM => Some (i32 x =? imm_c ins)
  | JOP_LT_I32_IMM => Some (i32 x <? imm_c ins)
  | JOP_NOT_BOOL => Some (x =? 0)
  | _ => None
  end.

Lemma b2z_u32 b : is_u 32 (Z.b2z b).
Proof. by destruct b. Qed.

(** After the comparison: the answer into the slot. *)
Lemma set_str_triple w imm vm c a b x y :
  width a 4 -> is_u (bits w) x -> is_u (bits w) y ->
  cmp_value (is_cmp_lt imm) (sgn w x) (sgn w y) = b ->
  tri (compared m f rf ks A others kept w vm c x y)
    (_ ← emit_cmp_set_i32 room imm; emit_str_i32_t0 room layout a) a (jrel (with_reg 4 rf a (Z.b2z b) vm) a).
Proof.
  intros (k & Hk & Hs) Hx Hy <-. tbind; [by apply set_cmp_triple|].
  eapply st_i32; [done | done | apply b2z_u32 | by eapply reg_u16].
Qed.

Lemma sim_cmp_i32 o c0 vm b ir :
  lower_arith o pc ins = Some ir -> op_of_code (i_op ins) = Some o -> good vm ->
  width (i_a ins) 4 -> width (i_b ins) 4 ->
  (o = JOP_EQ_I32 \/ o = JOP_LT_I32 -> width (i_c ins) 4 /\ i_c ins <> 255) ->
  cmp_i32_value o (R (i_b ins) vm) (R (i_c ins) vm) = Some b ->
  simulates c0 vm (with_reg 4 rf (i_a ins) (Z.b2z b) vm) ir.
Proof.
  intros Hl Ho HG Wa Wb Wc Hb. pose proof (reg_u32 vm _ HG Wb) as Ub. pose proof imm_c_s as Hi.
  destruct Wb as (kb & Kb & Sb). unfold simulates.
  assert (Hz : is_u 32 0) by (split; done).
  destruct o; try done; cbn [lower_arith] in Hl; injection Hl as <-; cbn [cmp_i32_value] in Hb; injection Hb as <-;
    cbn [emit_insn cache_after ir_op ir_abc ir_a]; unfold emit_cmp_i32; repeat (erewrite bc_is_op; [|reflexivity | exact Ho]);
    cbn -[with_reg Z.b2z Z.eqb Z.ltb]; fold (imm_c ins); (tbind; [by eapply t0_i32|]).
  1: { tbind; [eapply (cmp_imm_triple room m f rf ks nan32 nan64 A others kept); [by apply enc_cmp_imm0 | done]|].
    apply set_str_triple; [done | done | done |]. symmetry. by apply (sgn_eqb W32). }
  1, 2: destruct Wc as [Wc Hne]; [tauto|]; pose proof (reg_u32 vm _ HG Wc) as Uc; destruct Wc as (kc & Kc & Sc);
    rewrite (proj2 (Z.eqb_neq _ _) Hne); cbv beta iota;
    (tbind; [tbind; [by eapply t1_i32 | by eapply (cmp_triple room m f rf ks nan32 nan64 A others kept W32); [apply enc_cmp_r32 | |]]|]);
    by apply set_str_triple.
  all: assert (is_u 32 (u32 (imm_c ins))) as Uu by (apply wrapU_range; lia);
    (tbind; [by eapply (cmp_imm_triple room m f rf ks nan32 nan64 A others kept); [apply enc_cmp_imm|]|]);
    apply set_str_triple; [done | done | done |]; cbn -[Z.eqb Z.ltb wrapS wrapU]; unfold sgn; cbn [bits];
    by rewrite wrapS_wrapU, (wrapS_id 32 ltac:(lia) (imm_c ins)).
Qed.

Lemma sim_cmp_i64 o c0 vm b ir :
  lower_arith o pc ins = Some ir -> op_of_code (i_op ins) = Some o -> good vm ->
  width (i_a ins) 4 -> width (i_b ins) 8 -> width (i_c ins) 8 ->
  (o = JOP_EQ_I64 /\ b = (i64 (R (i_b ins) vm) =? i64 (R (i_c ins) vm)) \/
    o = JOP_LT_I64 /\ b = (i64 (R (i_b ins) vm) <? i64 (R (i_c ins) vm))) ->
  simulates c0 vm (with_reg 4 rf (i_a ins) (Z.b2z b) vm) ir.
Proof.
  intros Hl Ho HG (ka & Ka & Sa) Wb Wc Hb.
  pose proof (reg_u64 vm _ HG Wb) as Ub. pose proof (reg_u64 vm _ HG Wc) as Uc.
  destruct Wb as (kb & Kb & Sb), Wc as (kc & Kc & Sc). unfold simulates.
  assert (Hc : forall imm, cmp_value (is_cmp_lt imm) (i64 (R (i_b ins) vm)) (i64 (R (i_c ins) vm)) = b ->
      tri (jrel vm c0) (emit_cmp_i64 room layout (ir_abc JIR_CMP_I64 imm pc ins)) JIT_I32C_NONE
      (jrel (with_reg 4 rf (i_a ins) (Z.b2z b) vm) JIT_I32C_NONE)).
  { intros imm <-. unfold emit_cmp_i64. cbn [ir_a ir_b ir_c ir_imm ir_abc].
    tbind; [by eapply ldr_x_t0_triple|]. tbind; [by eapply ldr_x_t1_triple|].
    tbind; [by eapply (cmp_triple room m f rf ks nan32 nan64 A others kept W64); [apply enc_cmp_r64 | |]|].
    tbind; [by apply (set_cmp_triple room m f rf ks nan32 nan64 A others kept W64)|].
    tbind; [by eapply str_w_t0_triple; [.. | apply b2z_u32]|]. by apply triple_ret. }
  destruct Hb as [[-> ->] | [-> ->]]; cbn [lower_arith] in Hl; injection Hl as <-; by apply Hc.
Qed.

Lemma sim_cmp_fp w o c0 vm b ir :
  lower_arith o pc ins = Some ir -> op_of_code (i_op ins) = Some o -> good vm ->
  width (i_a ins) 4 -> width (i_b ins) (Z.of_nat (nbytes w)) -> width (i_c ins) (Z.of_nat (nbytes w)) ->
  ordered (fmt w) (R (i_b ins) vm) (R (i_c ins) vm) ->
  (o = (match w with W32 => JOP_EQ_F32 | W64 => JOP_EQ_F64 end) /\
    b = fl_eq (fmt w) (R (i_b ins) vm) (R (i_c ins) vm) \/
    o = (match w with W32 => JOP_LT_F32 | W64 => JOP_LT_F64 end) /\
    b = fl_lt (fmt w) (R (i_b ins) vm) (R (i_c ins) vm)) ->
  simulates c0 vm (with_reg 4 rf (i_a ins) (Z.b2z b) vm) ir.
Proof.
  intros Hl Ho HG (ka & Ka & Sa) (kb & Kb & Sb) (kc & Kc & Sc) Hord Hb. unfold simulates.
  assert (Hc : forall imm, (if is_cmp_lt imm then fl_lt (fmt w) (R (i_b ins) vm) (R (i_c ins) vm)
      else fl_eq (fmt w) (R (i_b ins) vm) (R (i_c ins) vm)) = b ->
      tri (jrel vm c0) (match w with
        | W32 => emit_cmp_f32 room layout (ir_abc JIR_CMP_F32 imm pc ins)
        | W64 => emit_cmp_f64 room layout (ir_abc JIR_CMP_F64 imm pc ins) end) JIT_I32C_NONE
      (jrel (with_reg 4 rf (i_a ins) (Z.b2z b) vm) JIT_I32C_NONE)).
  { intros imm <-.
    pose proof (ldr_x0_triple room m f layout rf ks nan32 nan64 A others kept Hoff Hsmall HL w vm c0 _ kb Kb Sb) as H0.
    pose proof (ldr_x1_triple room m f layout rf ks nan32 nan64 A others kept Hoff Hsmall HL w vm c0
        (R (i_b ins) vm) _ kc Kc Sc) as H1.
    destruct w; unfold emit_cmp_f32, emit_cmp_f64; cbn [ir_a ir_b ir_c ir_imm ir_abc];
      (tbind; [exact H0|]); (tbind; [exact H1|]);
      (tbind; [eapply comi_triple; by constructor|]);
      (tbind; [by eapply set_cmp_fp_triple|]);
    (tbind; [by eapply str_w_t0_triple; [.. | apply b2z_u32]|]); by apply triple_ret. }
  destruct w, Hb as [[-> ->] | [-> ->]]; cbn [lower_arith] in Hl; injection Hl as <-; by apply Hc.
Qed.

(** ** i64 *)

Lemma bin_i64_run o h vm r vm' :
  i64_handler o = Some h -> good vm ->
  width (i_a ins) 8 -> width (i_b ins) 8 -> width (i_c ins) 8 ->
  h ctx ins vm = Ret r vm' ->
  exists v, i64_word o (R (i_b ins) vm) (R (i_c ins) vm) = Some v /\ vm' = with_reg 8 rf (i_a ins) v vm.
Proof.
  intros Hh [HF _] Wa Wb Wc H. rewrite (i64_handler_value o h ctx ins vm Hh) in H.
  unfold vm_load_i64, vm_store_i64 in H. rewrite Hcr in H. run_in H. unfold i64_word.
  destruct (i64_value o _ _) as [v|]; [|done].
  change (must (Some v)) with (mret v : M Z) in H. run_in H. injection H as _ <-. by eexists.
Qed.

Lemma sim_bin_i64 o h c0 vm r vm' :
  i64_handler o = Some h -> o <> JOP_BITAND_I64 -> o <> JOP_BITOR_I64 -> good vm ->
  width (i_a ins) 8 -> width (i_b ins) 8 -> width (i_c ins) 8 ->
  h ctx ins vm = Ret r vm' ->
  simulates c0 vm vm' (ir_abc JIR_BIN_I64 (code_of_bin (bin_from_op o)) pc ins).
Proof.
  intros Hh N1 N2 HG Wa Wb Wc H.
  destruct (bin_i64_run o h vm r vm' Hh HG Wa Wb Wc H) as (v & Hv & ->).
  pose proof (reg_u64 vm _ HG Wb) as Ub. pose proof (reg_u64 vm _ HG Wc) as Uc.
  assert (is_u 64 v) as Uv.
  { unfold i64_word in Hv. destruct (i64_value _ _ _); [|done]. injection Hv as <-. apply wrapU_range. lia. }
  destruct Wa as (ka & Ka & Sa), Wb as (kb & Kb & Sb), Wc as (kc & Kc & Sc).
  unfold simulates. cbn [emit_insn cache_after ir_op ir_abc ir_a]. unfold emit_ir_bin_i64.
  cbn [ir_a ir_b ir_c ir_imm ir_abc]. rewrite bin_of_code_of.
  tbind; [by eapply ldr_x_t0_triple|]. tbind; [by eapply ldr_x_t1_triple|].
  tbind; [by eapply bin_i64_triple|]. tbind; [by eapply str_x_t0_triple|]. by apply triple_ret.
Qed.

Lemma sim_neg_i64 c0 vm r vm' :
  good vm -> width (i_a ins) 8 -> width (i_b ins) 8 ->
  op_neg_i64 ctx ins vm = Ret r vm' -> simulates c0 vm vm' (ir_ab JIR_NEG_I64 0 pc ins).
Proof.
  intros HG Wa Wb H. pose proof HG as [HF _]. unfold op_neg_i64, OP_UN_I64, vm_load_i64, vm_store_i64 in H.
  rewrite Hcr in H. run_in H. injection H as _ <-.
  pose proof (reg_u64 vm _ HG Wb) as Ub. destruct Wa as (ka & Ka & Sa), Wb as (kb & Kb & Sb).
  rewrite wrapU_wrapS, wrapU_wrapS, wrapU_idemp, (wrapU_id 64 (R _ _)) by (done || lia).
  unfold simulates. cbn [emit_insn cache_after ir_op ir_ab ir_a]. unfold emit_neg_i64. cbn [ir_a ir_b ir_ab].
  tbind; [by eapply ldr_x_t0_triple|].
  tbind; [by eapply (neg_triple room m f rf ks nan32 nan64 A others kept W64); [apply enc_neg_r64|]|].
  tbind; [by eapply str_x_t0_triple; [.. | apply wrapU_range]|]. by apply triple_ret.
Qed.

(** ** Floats *)

Lemma le_bytes_wrap n v : le_bytes n (wrapU (8 * Z.of_nat n) v) = le_bytes n v.
Proof.
  unfold wrapU. rewrite <- le_value_bytes. rewrite <- (length_le_bytes n v) at 1.
  apply le_bytes_value, le_bytes_is_byte.
Qed.

Lemma with_reg_wrap n r v vm : with_reg n rf r (wrapU (8 * Z.of_nat n) v) vm = with_reg n rf r v vm.
Proof.
  unfold with_reg. destruct (vm_reg_ptr rf r); [|done]. cbn [mbind option_bind].
  unfold mem_store. by rewrite le_bytes_wrap.
Qed.

(** The arithmetic operations both sides know. *)
Definition fop_of (o : jello_op) : fop :=
  match o with
  | JOP_SUB_F32 | JOP_SUB_F64 => FSub | JOP_MUL_F32 | JOP_MUL_F64 => FMul
  | JOP_DIV_F32 | JOP_DIV_F64 => FDiv | _ => FAdd
  end.

Definition is_bin_fp (w : X64Sem.width) (o : jello_op) : bool :=
  match w, o with
  | W32, (JOP_ADD_F32 | JOP_SUB_F32 | JOP_MUL_F32 | JOP_DIV_F32) => true
  | W64, (JOP_ADD_F64 | JOP_SUB_F64 | JOP_MUL_F64 | JOP_DIV_F64) => true
  | _, _ => false
  end.

Lemma bin_fp_triple w o c c0 vm ir :
  lower_arith o pc ins = Some ir -> is_bin_fp w o = true -> good vm ->
  let n := Z.of_nat (nbytes w) in width (i_a ins) n -> width (i_b ins) n -> width (i_c ins) n ->
  c <> i_a ins ->
  tri (jrel vm c) (emit_insn room fn_addr lay m f layout body_entry c0 ir) c0
    (jrel (with_reg (nbytes w) rf (i_a ins)
      (do_fop nan32 nan64 w (fop_of o) (R (i_b ins) vm) (R (i_c ins) vm)) vm) c) /\ cache_after c0 ir = c0.
Proof.
  intros Hl Hf HG n (ka & Ka & Sa) (kb & Kb & Sb) (kc & Kc & Sc) Hne.
  pose proof (ldr_x0_triple room m f layout rf ks nan32 nan64 A others kept Hoff Hsmall HL w vm c _ kb Kb Sb) as H0.
  pose proof (ldr_x1_triple room m f layout rf ks nan32 nan64 A others kept Hoff Hsmall HL w vm c
      (R (i_b ins) vm) _ kc Kc Sc) as H1.
  set (v := do_fop nan32 nan64 w (fop_of o) (R (i_b ins) vm) (R (i_c ins) vm)).
  pose proof (str_x0_triple room m f layout rf ks nan32 nan64 A others kept Hoff Hsmall HL w vm c _ ka
      (wrapU (bits w) v) Ka Sa Hne) as H2.
  assert (with_reg (nbytes w) rf (i_a ins) (wrapU (bits w) v) vm = with_reg (nbytes w) rf (i_a ins) v vm) as E
  by (destruct w; [apply (with_reg_wrap 4) | apply (with_reg_wrap 8)]). rewrite E in H2. clear E.
  assert (forall e, encodes room e (IXOp w (fop_of o) JIT_FP_T0 JIT_FP_T1) ->
      tri (with_x01 m f rf ks A others kept w vm c (R (i_b ins) vm) (R (i_c ins) vm)) e ()
      (with_x0 m f rf ks A others kept w vm c (wrapU (bits w) v))) as H3
    by (intros; by apply (fop_triple room m f rf ks nan32 nan64 A others kept w)).
  destruct w, o; try discriminate Hf; cbn [lower_arith] in Hl; injection Hl as <-;
    (split; [|done]); cbn [emit_insn ir_op ir_abc]; unfold emit_ir_bin_f32, emit_ir_bin_f64; cbn [ir_a ir_b ir_c ir_imm ir_abc];
    match goal with |- context [bin_of_code ?k] => let b := eval vm_compute in (bin_of_code k) in change (bin_of_code k) with b end;
    (tbind; [exact H0|]); (tbind; [exact H1|]);
    (tbind; [apply H3; cbn [fop_of emit_bin_f32 emit_bin_f64]; first [apply enc_addsd | apply enc_subsd | apply enc_mulsd | apply enc_divsd
    | apply enc_addss | apply enc_subss | apply enc_mulss | apply enc_divss]; split; done|]);
    (tbind; [exact H2|]); by apply triple_ret.
Qed.

(** The cache holds no 64-bit register; a 32-bit one must not be written behind it. *)
Lemma sim_bin_fp w o c0 vm ir :
  lower_arith o pc ins = Some ir -> is_bin_fp w o = true -> good vm ->
  let n := Z.of_nat (nbytes w) in width (i_a ins) n -> width (i_b ins) n -> width (i_c ins) n ->
  (w = W32 -> c0 <> i_a ins) ->
  simulates c0 vm (with_reg (nbytes w) rf (i_a ins)
      (do_fop nan32 nan64 w (fop_of o) (R (i_b ins) vm) (R (i_c ins) vm)) vm) ir.
Proof.
  intros Hl Hf HG n Wa Wb Wc Hne. unfold simulates.
  destruct (decide (c0 = i_a ins)) as [E|E].
  - assert (Hn : JIT_I32C_NONE <> i_a ins) by (destruct Wa as (ka & Ka%znth_Some & _); lia).
    destruct (bin_fp_triple w o _ c0 vm ir Hl Hf HG Wa Wb Wc Hn) as [H ->].
    eapply (triple_vacuous _ _ _ _ _ _ _ _ H). intros st HJ. destruct w; [by apply (Hne eq_refl)|].
    destruct Wa as (ka & Ka & Sa). rewrite E in HJ.
    destruct (jr_cache _ _ _ _ _ _ _ _ _ _ HJ (not_eq_sym Hn)) as (k & Hk & Hs & _).
    rewrite Ka in Hk. injection Hk as ->. unfold n in Sa. rewrite Hs in Sa. done.
  - by destruct (bin_fp_triple w o c0 c0 vm ir Hl Hf HG Wa Wb Wc E) as [H ->].
Qed.

(** ** Negated floats *)

Lemma sim_neg_fp w o c0 vm ir :
  lower_arith o pc ins = Some ir -> o = (match w with W32 => JOP_NEG_F32 | W64 => JOP_NEG_F64 end) -> good vm ->
  let n := Z.of_nat (nbytes w) in width (i_a ins) n -> width (i_b ins) n ->
  simulates c0 vm (with_reg (nbytes w) rf (i_a ins) (fl_neg (fmt w) (R (i_b ins) vm)) vm) ir.
Proof.
  intros Hl -> HG n (ka & Ka & Sa) Wb. unfold simulates.
  assert (Ub : is_u (bits w) (R (i_b ins) vm)) by (destruct w; [by apply reg_u32 | by apply reg_u64]).
  destruct Wb as (kb & Kb & Sb).
  assert (Uv : is_u (bits w) (fl_neg (fmt w) (R (i_b ins) vm))).
  { unfold fl_neg. rewrite <- (wrapU_id _ _ Ub). assert (Us : is_u (bits w) (2 ^ (mw (fmt w) + ew (fmt w)))) by (by destruct w).
    rewrite <- (wrapU_id _ _ Us), <- wrapU_lxor by (by destruct w). by apply wrapU_range; destruct w. }
  assert (Hx : forall e, encodes room e (IAlu w AXor JIT_REG_T0 JIT_REG_T1) ->
      tri (with_t01 m f rf ks A others kept vm c0 (R (i_b ins) vm) (2 ^ (mw (fmt w) + ew (fmt w)))) e ()
      (with_t0 m f rf ks A others kept vm c0 (fl_neg (fmt w) (R (i_b ins) vm)))).
  { intros e He. eapply (alu_triple room m f rf ks nan32 nan64 A others kept w AXor); [exact He | done | by destruct w | done |].
    symmetry. by apply wrapU_id. }
  destruct w; cbn [lower_arith] in Hl; injection Hl as <-; cbn [emit_insn cache_after ir_op ir_ab ir_a];
    unfold emit_neg_f32, emit_neg_f64; cbn [ir_a ir_b ir_ab].
  - tbind; [by eapply ldr_w_t0_triple|]. tbind; [by eapply (mov_t1_imm W32); [apply enc_mov_r32_imm|]|].
    tbind; [by apply Hx, enc_xor_r32|]. tbind; [by eapply str_w_t0_triple|]. by apply triple_ret.
  - tbind; [by eapply ldr_x_t0_triple|]. tbind; [by eapply (mov_t1_imm W64); [apply enc_mov_r64_imm|]|].
    tbind; [by apply Hx, enc_xor_r64|]. tbind; [by eapply str_x_t0_triple|]. by apply triple_ret.
Qed.

(** ** Moves *)

Lemma mov_run vm r vm' ka kb :
  good vm -> ks @! (i_a ins) = Some ka -> ks @! (i_b ins) = Some kb -> jello_slot_size kb = jello_slot_size ka ->
  op_mov m ctx ins vm = Ret r vm' -> vm' = with_reg (width_of ka) rf (i_a ins) (R (i_b ins) vm) vm.
Proof.
  intros [HF Hby] Ka Kb Hs H. unfold op_mov in H. rewrite Hcf, Hcr in H. rewrite (proj2 HF _ _ Ka) in H.
  change (must (Some ka)) with (mret ka : M jello_type_kind) in H. rewrite ret_bind in H.
  unfold copy_slot in H.
  destruct (rf_slot _ _ _ _ _ (proj1 HF) Kb) as (a1 & P1 & A1 & B1).
  destruct (with_reg_inv rf ks vm (proj1 HF) (width_of ka) (i_a ins) ka (R (i_b ins) vm) Ka eq_refl) as (a2 & mem' & P2 & E2 & ->).
  rewrite P1, P2 in H.
  destruct (mem_load_Some (width_of kb) (frame_stack (v_stack vm)) a1) as [v Ev]; [done | by rewrite width_of_slot|].
  assert (Hv : R (i_b ins) vm = v) by (unfold reg, reg_at; rewrite Kb, P1, Ev; done). rewrite Hv in E2.
  destruct (mem_store_load (width_of kb) _ (frame_stack (v_stack vm)) a1 a2 v Hby Ev) as (l & El & Ew).
  assert (Ewd : width_of kb = width_of ka) by (unfold width_of; by rewrite Hs). rewrite Ewd in El, Ew.
  rewrite Ew in E2. rewrite width_of_slot in El.
  unfold copy_bytes, mbind, M_bind in H. cbn in H. rewrite El in H. cbn in H. rewrite E2 in H. cbn in H.
  by injection H as _ <-.
Qed.

Lemma sim_mov c0 vm r vm' ka kb :
  good vm -> ks @! (i_a ins) = Some ka -> ks @! (i_b ins) = Some kb -> jello_slot_size kb = jello_slot_size ka ->
  vm_reg_kind m f (i_a ins) = Some ka ->
  op_mov m ctx ins vm = Ret r vm' -> simulates c0 vm vm' (ir_ab JIR_MOV_REG 0 pc ins).
Proof.
  intros HG Ka Kb Hs Hkind H. rewrite (mov_run vm r vm' ka kb HG Ka Kb Hs H).
  assert (Hsz : reg_slot_sz m f (i_a ins) = jello_slot_size ka) by (unfold reg_slot_sz, reg_kind; by rewrite Hkind).
  destruct (slot_size_4_8 ka) as [H4|H8].
  - unfold simulates. cbn [emit_insn cache_after ir_op ir_ab ir_a]. unfold emit_mov_reg. cbn [ir_a ir_b ir_ab]. rewrite Hsz, H4. cbn [Z.eqb Pos.eqb].
    unfold width_of. rewrite H4. change (Z.to_nat 4) with 4%nat.
    tbind; [by apply (t0_i32 vm c0 (i_b ins) kb Kb); lia|]. eapply st_i32; [done | done | | by eapply reg_u16].
    apply reg_u32; [done|]. exists kb. split; [done | lia].
  - unfold simulates. cbn [emit_insn cache_after ir_op ir_ab ir_a]. unfold emit_mov_reg. cbn [ir_a ir_b ir_ab]. rewrite Hsz, H8. cbn [Z.eqb Pos.eqb].
    unfold width_of. rewrite H8. change (Z.to_nat 8) with 8%nat.
    tbind; [apply (ldr_x_t0_triple room m f layout rf ks nan32 nan64 A others kept Hoff Hsmall HL vm c0 (i_b ins) kb Kb); lia|]. tbind; [eapply str_x_t0_triple; [done..|]|by apply triple_ret].
    apply reg_u64; [done|]. exists kb. split; [done | lia].
Qed.

(** ** Constants *)

Lemma sim_load_i32 c0 vm ka v w :
  ks @! (i_a ins) = Some ka -> jello_slot_size ka = 4 -> u32 v = w ->
  simulates c0 vm (with_reg 4 rf (i_a ins) w vm) (ir_a_only JIR_LOAD_I32 v pc ins).
Proof.
  intros Ka Sa <-. unfold simulates. cbn [emit_insn cache_after ir_op ir_a_only ir_a ir_imm].
  tbind; [by eapply (mov_t0_imm W32); [apply enc_mov_r32_imm|]; try apply wrapU_range|].
  eapply st_i32; [done | done | by apply wrapU_range | by eapply reg_u16].
Qed.

Lemma sim_load_const w c0 vm ka v ir :
  ks @! (i_a ins) = Some ka -> jello_slot_size ka = Z.of_nat (nbytes w) -> is_u (bits w) v -> ir_a ir = i_a ins ->
  tri (jrel vm c0) (emit_load_const room layout (match w with W64 => true | W32 => false end) ir v) JIT_I32C_NONE
    (jrel (with_reg (nbytes w) rf (i_a ins) v vm) JIT_I32C_NONE).
Proof.
  intros Ka Sa Uv Ea. unfold emit_load_const. rewrite Ea. destruct w.
  - tbind; [by eapply (mov_t0_imm W32); [apply enc_mov_r32_imm|]|]. tbind; [by eapply str_w_t0_triple|]. by apply triple_ret.
  - tbind; [by eapply (mov_t0_imm W64); [apply enc_mov_r64_imm|]|]. tbind; [by eapply str_x_t0_triple|]. by apply triple_ret.
Qed.

(** A constant of a pool the index is in. *)
Lemma sim_pool pool ir c0 vm ka v :
  ks @! (i_a ins) = Some ka -> jello_slot_size ka = 8 -> ir_a ir = i_a ins ->
  pool @! (u32 (ir_imm ir)) = Some v ->
  tri (jrel vm c0) (emit_pool room layout (zlen pool) pool ir) JIT_I32C_NONE
    (jrel (with_reg 8 rf (i_a ins) v vm) JIT_I32C_NONE).
Proof.
  intros Ka Sa Ea Hv. unfold emit_pool. pose proof (znth_Some _ _ _ Hv).
  rewrite (proj2 (Z.leb_gt _ _)) by lia. rewrite (zget_Some _ _ _ _ Hv).
  rewrite <- (with_reg_wrap 8). apply (sim_load_const W64 c0 vm ka); [done | done | by apply wrapU_range | done].
Qed.
End Sim.
