(* ===== verification/JitX64Sim.v ===== *)
(** * Compiled blocks and the interpreter

    The instructions the code generator emits without a call ([compiled_inline]): the
    emitted code does what the interpreter's handler does, up to the conditions of
    [faithful]; then blocks of them, as [emit_loop] emits them. *)

From S2P Require Import Prelude CInt Memory Bytecode Check CheckFacts FunCheck Loader LoaderSpec LoaderFacts LoaderThms Value Object Heap Vm Frame FrameFacts Float Gc GcThms Box BoxThms Types Ops ArithOps ArithThms Call CallFacts Exc CoreOps CallOps ContainerOps BytesOps ObjOps Exec StepThms JitIr X64 X64Sem JitX64 X64Thms X64Run JitX64Facts JitX64Core JitX64Thms.
#[local] Open Scope list_scope.
#[local] Open Scope Z_scope.

(** ** The instructions *)

Definition is_const (o : jello_op) : bool :=
  match o with
  | JOP_CONST_I32 | JOP_CONST_I8_IMM | JOP_CONST_BOOL | JOP_CONST_NULL | JOP_CONST_F32
  | JOP_CONST_I64 | JOP_CONST_F64 => true
  | _ => false
  end.

Definition is_bin_i32 (o : jello_op) : bool :=
  match o with
  | JOP_ADD_I32 | JOP_SUB_I32 | JOP_MUL_I32 | JOP_DIV_I32 | JOP_MOD_I32 | JOP_SHL_I32
  | JOP_SHR_I32 | JOP_BITXOR_I32 => true
  | _ => false
  end.

Definition is_imm_i32 (o : jello_op) : bool :=
  match o with JOP_ADD_I32_IMM | JOP_SUB_I32_IMM | JOP_MUL_I32_IMM => true | _ => false end.

Definition is_bin_i64 (o : jello_op) : bool :=
  match o with
  | JOP_ADD_I64 | JOP_SUB_I64 | JOP_MUL_I64 | JOP_DIV_I64 | JOP_MOD_I64 | JOP_SHL_I64
  | JOP_SHR_I64 | JOP_BITXOR_I64 => true
  | _ => false
  end.

Definition is_neg (o : jello_op) : bool :=
  match o with JOP_NEG_I32 | JOP_NEG_I64 | JOP_NEG_F32 | JOP_NEG_F64 => true | _ => false end.

Definition is_cmp (o : jello_op) : bool :=
  match o with
  | JOP_NOT_BOOL | JOP_EQ_I32 | JOP_LT_I32 | JOP_EQ_I32_IMM | JOP_LT_I32_IMM
  | JOP_EQ_I64 | JOP_LT_I64 | JOP_EQ_F32 | JOP_LT_F32 | JOP_EQ_F64 | JOP_LT_F64 => true
  | _ => false
  end.

(** Emitted without a call of the runtime. *)
Definition compiled_inline (o : jello_op) : bool :=
  match o with JOP_NOP | JOP_MOV => true | _ => is_const o end
  || is_bin_i32 o || is_imm_i32 o || is_bin_i64 o || is_bin_fp W32 o || is_bin_fp W64 o || is_neg o || is_cmp o.

Section Sim.
Context (room : Z -> bool) (fn_addr : helper -> Z) (lay : jello_jit_layout).
Context (m : jello_bc_module) (f : jello_bc_function) (layout : frame_layout).
Context (rf : reg_frame) (ks : list jello_type_kind) (nan32 nan64 : Z).
Context (A : Z) (others : list (Z * list Z)) (kept : Z -> Z).
Hypothesis Hoff : fl_off layout = rf_off rf.
Hypothesis Hregs : zlen ks <= 256.
Hypothesis HL : layout_ok ks (rf_off rf) (rf_total rf).

Context (malloc : gc_state -> Z -> option Z) (maddr junk : Z) (nan16 : bool -> Z).
Context (native : exec_ctx -> jello_insn -> Z -> Z -> M ()).
Context (jdll_prim : exec_ctx -> jello_insn -> Z -> Z -> M bool).
Context (ctx : exec_ctx) (body_entry : Z).
Hypothesis Hcf : cx_f ctx = f.
Hypothesis Hcr : cx_rf ctx = rf.

Abbreviation dispatch := (op_dispatch malloc m maddr nan32 nan64 junk nan16 native jdll_prim ctx).
Abbreviation R r vm := (reg rf ks r vm).
Abbreviation sim := (simulates room fn_addr lay m f layout rf ks nan32 nan64 A others kept body_entry).
Abbreviation good := (good m f rf ks).

(** Where the compiled code is the interpreter's: arithmetic into a register narrower
    than 32 bits is not narrowed; [c = 255] in a comparison of i32 registers reads as
    no register; a comparison with a NaN answers otherwise; a float operation does not
    tell the register cache. *)
Definition faithful (ins : jello_insn) (c : Z) (vm : jello_vm) : Prop :=
  match op_of_code (i_op ins) with
  | Some o =>
    (is_bin_i32 o || is_imm_i32 o || bool_decide (o = JOP_NEG_I32) = true ->
      forall ka, ks @! (i_a ins) = Some ka -> unmasked ka) /\
    (o = JOP_EQ_I32 \/ o = JOP_LT_I32 -> i_c ins <> 255) /\
    (o = JOP_EQ_F32 \/ o = JOP_LT_F32 -> ordered binary32 (R (i_b ins) vm) (R (i_c ins) vm)) /\
    (o = JOP_EQ_F64 \/ o = JOP_LT_F64 -> ordered binary64 (R (i_b ins) vm) (R (i_c ins) vm)) /\
    (is_bin_fp W32 o = true -> c <> i_a ins)
  | None => False
  end.

Section Insn.
Context (pc : Z) (ins : jello_insn) (o : jello_op) (ir : jello_jit_ir_insn).
Context (c : Z) (vm : jello_vm) (r : op_result) (vm' : jello_vm).
Hypothesis Hins : insn_at f pc = ins.
Hypothesis Ho : op_of_code (i_op ins) = Some o.
Hypothesis Hl : lower_plain o pc ins = Some ir.
Hypothesis HG : good vm.
Hypothesis Hrun : dispatch ins vm = Ret r vm'.

Abbreviation width r n := (reg_width ks r n).

Let HF : frame_of m f rf ks vm := proj1 HG.

(** The handler of a known opcode. *)
Ltac handler H := pose proof Hrun as H; unfold op_dispatch in H; rewrite Ho in H; cbv beta iota in H.

(** Applies a simulation lemma; leaves what is no hypothesis. *)
Ltac by_sim lem := eapply lem; try eassumption; try reflexivity; try done.

Lemma sim_consts :
  is_const o = true -> width (i_a ins) (match o with JOP_CONST_NULL | JOP_CONST_I64 | JOP_CONST_F64 => 8 | _ => 4 end) ->
  is_u 32 (i_imm ins) -> m_nconst_i64 m = zlen (m_const_i64 m) -> m_nconst_f64 m = zlen (m_const_f64 m) ->
  sim c vm vm' ir.
Proof.
  intros Hc Wa Ui Ni Nf. pose proof Wa as (ka & Ka & Sa).
  assert (Hu : u32 (i32 (i_imm ins)) = i_imm ins) by (rewrite wrapU_wrapS; by apply wrapU_id).
  destruct o; try discriminate Hc; cbn in Hl; injection Hl as <-; handler H;
    cbv beta iota delta [op_const_i32 op_const_i8_imm op_const_bool op_const_null op_const_f32 op_const_i64
      op_const_f64 vm_store_u32 vm_store_val vm_store_f32 vm_store_i64 vm_store_f64] in H;
    rewrite Hcr in H.
  all: lazymatch goal with
    | HH : (must ?x ≫= _) _ = _ |- _ => destruct x as [v|] eqn:Hv; [|done]; change (must (Some v)) with (mret v : M Z) in H; rewrite ret_bind in H
    | |- _ => idtac end.
  all: run_in H; injection H as _ <-.
  all: lazymatch goal with
    | |- simulates _ _ _ _ _ _ _ _ _ _ _ _ _ _ _ _ _ (ir_a_only JIR_LOAD_I32 _ _ _) => by_sim sim_load_i32
    | |- simulates _ _ _ _ _ _ _ _ _ _ _ _ _ _ _ _ _ (ir_a_only JIR_LOAD_I64 _ _ _) =>
      rewrite (with_reg_wrap rf 8); unfold simulates; cbn [emit_insn cache_after ir_op ir_a_only]; rewrite Ni; by_sim sim_pool
    | |- simulates _ _ _ _ _ _ _ _ _ _ _ _ _ _ _ _ _ (ir_a_only JIR_LOAD_F64 _ _ _) =>
      unfold simulates; cbn [emit_insn cache_after ir_op ir_a_only]; rewrite Nf; by_sim sim_pool
    | |- _ => unfold simulates; cbn [emit_insn cache_after ir_op ir_a_only]
    end.
  - apply wrapU_id. assert (0 <= Z.land (i_c ins) 1 < 2); [|unfold is_u; lia].
    change 1 with (Z.ones 1). rewrite Z.land_ones by lia. by apply Z.mod_pos_bound.
  - by eapply (sim_load_const room m f layout rf ks nan32 nan64 A others kept Hoff Hregs HL ins W64).
  - cbn [ir_a_only ir_imm]. rewrite Hu.
    by eapply (sim_load_const room m f layout rf ks nan32 nan64 A others kept Hoff Hregs HL ins W32).
  - cbn [ir_a_only ir_imm]. by rewrite Hu.
  - cbn [ir_a_only ir_imm]. by rewrite Hu.
Qed.

Abbreviation access_ok slot := (Forall (frame_access ks) (accesses slot o ins)).

(** The accesses as widths of the three registers. *)
Ltac widths Ha := cbn [accesses] in Ha; repeat (apply Forall_cons in Ha as [? Ha]); cbn [frame_access] in *; clear Ha.

Lemma sim_bin_i32s slot : is_bin_i32 o = true -> access_ok slot -> faithful ins c vm -> sim c vm vm' ir.
Proof.
  intros Hc Ha Hf. unfold faithful in Hf. rewrite Ho in Hf. destruct Hf as (Hnar & _). rewrite Hc in Hnar.
  assert (exists h, i32_handler m o = Some h /\ h ctx ins vm = Ret r vm') as (h & Hh & Hr).
  { handler H. destruct o; try discriminate Hc; (eexists; split; [reflexivity | exact H]). }
  rewrite (i32_handler_word m o h Hh) in Hr.
  assert (width (i_a ins) 4 /\ width (i_b ins) 4 /\ width (i_c ins) 4) as (Wa & Wb & Wc)
    by (destruct o; try discriminate Hc; widths Ha; done).
  assert (lower_arith o pc ins = Some (ir_abc JIR_BIN_I32 (code_of_bin (bin_from_op o)) pc ins) /\
      ir = ir_abc JIR_BIN_I32 (code_of_bin (bin_from_op o)) pc ins) as [La ->]
    by (destruct o; try discriminate Hc; injection Hl as <-; done).
  pose proof Wa as (ka & Ka & _). by_sim sim_bin_i32. by apply Hnar.
Qed.

Lemma sim_imm_i32s slot : is_imm_i32 o = true -> access_ok slot -> faithful ins c vm -> sim c vm vm' ir.
Proof.
  intros Hc Ha Hf. unfold faithful in Hf. rewrite Ho in Hf. destruct Hf as (Hnar & _).
  rewrite Hc, orb_true_r in Hnar.
  assert (OP_BIN_I32_IMM_MASKED m (imm_word o) ctx ins vm = Ret r vm') as Hr
    by (handler H; destruct o; try discriminate Hc; exact H).
  assert (width (i_a ins) 4 /\ width (i_b ins) 4) as (Wa & Wb)
    by (destruct o; try discriminate Hc; widths Ha; done).
  assert (ir = ir_abc JIR_BIN_I32 (code_of_bin (bin_from_op o)) pc ins) as ->
    by (destruct o; try discriminate Hc; injection Hl as <-; done).
  pose proof Wa as (ka & Ka & _). by_sim sim_imm_i32; [|by apply Hnar].
  destruct o; try discriminate Hc; set_solver.
Qed.

Lemma sim_bin_i64s slot : is_bin_i64 o = true -> access_ok slot -> sim c vm vm' ir.
Proof.
  intros Hc Ha.
  assert (exists h, i64_handler o = Some h /\ h ctx ins vm = Ret r vm') as (h & Hh & Hr).
  { handler H. destruct o; try discriminate Hc; (eexists; split; [reflexivity | exact H]). }
  assert (width (i_a ins) 8 /\ width (i_b ins) 8 /\ width (i_c ins) 8) as (Wa & Wb & Wc)
    by (destruct o; try discriminate Hc; widths Ha; done).
  assert (ir = ir_abc JIR_BIN_I64 (code_of_bin (bin_from_op o)) pc ins) as ->
    by (destruct o; try discriminate Hc; injection Hl as <-; done).
  by_sim sim_bin_i64; by intros ->.
Qed.

Lemma sim_bin_fps w slot : is_bin_fp w o = true -> access_ok slot -> faithful ins c vm -> sim c vm vm' ir.
Proof.
  intros Hc Ha Hf. unfold faithful in Hf. rewrite Ho in Hf. destruct Hf as (_ & _ & _ & _ & Hcache).
  set (n := Z.of_nat (nbytes w)).
  assert (width (i_a ins) n /\ width (i_b ins) n /\ width (i_c ins) n) as (Wa & Wb & Wc)
    by (destruct w, o; try discriminate Hc; widths Ha; done).
  assert (vm' = with_reg (nbytes w) rf (i_a ins)
      (do_fop nan32 nan64 w (fop_of o) (R (i_b ins) vm) (R (i_c ins) vm)) vm) as ->.
  { handler H. destruct w, o; try discriminate Hc;
      cbv beta iota delta [op_add_f32 op_sub_f32 op_mul_f32 op_div_f32 op_add_f64 op_sub_f64 op_mul_f64 op_div_f64
        OP_BIN_F32 OP_BIN_F64 vm_load_f32 vm_store_f32 vm_load_f64 vm_store_f64] in H; rewrite Hcr in H; run_in H;
  by injection H as _ <-. }
  assert (lower_arith o pc ins = Some ir) as La by (destruct w, o; try discriminate Hc; exact Hl).
  by_sim sim_bin_fp. by intros ->; apply Hcache.
Qed.

Lemma sim_negs slot : is_neg o = true -> access_ok slot -> faithful ins c vm -> sim c vm vm' ir.
Proof.
  intros Hc Ha Hf. unfold faithful in Hf. rewrite Ho in Hf. destruct Hf as (Hnar & _).
  handler H. destruct o; try discriminate Hc; cbn in Hl; injection Hl as <-; widths Ha.
  - pose proof H0 as (ka & Ka & _). by_sim sim_neg_i32. by apply Hnar.
  - by_sim sim_neg_i64.
  - unfold op_neg_f32, OP_UN_F32, vm_load_f32, vm_store_f32 in H. rewrite Hcr in H. run_in H. injection H as _ <-.
    by_sim (sim_neg_fp room fn_addr lay m f layout rf ks nan32 nan64 A others kept Hoff Hregs HL body_entry pc ins W32).
  - unfold op_neg_f64, OP_UN_F64, vm_load_f64, vm_store_f64 in H. rewrite Hcr in H. run_in H. injection H as _ <-.
    by_sim (sim_neg_fp room fn_addr lay m f layout rf ks nan32 nan64 A others kept Hoff Hregs HL body_entry pc ins W64).
Qed.

(** Comparisons. *)
Lemma sim_cmps_int slot b :
  is_cmp o = true -> access_ok slot -> faithful ins c vm -> b = R (i_b ins) vm ->
  cmp_i32_value ins o b (R (i_c ins) vm) <> None -> sim c vm vm' ir.
Proof.
  intros Hc Ha Hf -> Hv. unfold faithful in Hf. rewrite Ho in Hf. destruct Hf as (_ & H255 & _).
  assert (lower_arith o pc ins = Some ir) as La by (destruct o; try discriminate Hc; exact Hl).
  handler H. destruct o; try discriminate Hc; try (by destruct Hv); widths Ha;
    cbv beta iota delta [op_not_bool op_eq_i32 op_lt_i32 op_eq_i32_imm op_lt_i32_imm OP_CMP_I32 OP_CMP_I32_IMM
      vm_load_u32 vm_store_u32 vm_load_i32ish] in H; rewrite Hcr in H; run_in H; injection H as _ <-;
    by_sim sim_cmp_i32; intros [?|?]; try discriminate; split; first [assumption | apply H255; auto].
Qed.

Lemma sim_cmps_i64 slot : o = JOP_EQ_I64 \/ o = JOP_LT_I64 -> access_ok slot -> sim c vm vm' ir.
Proof.
  intros Hc Ha. assert (lower_arith o pc ins = Some ir) as La by (destruct Hc as [-> | ->]; exact Hl).
  handler H. assert (width (i_a ins) 4 /\ width (i_b ins) 8 /\ width (i_c ins) 8) as (Wa & Wb & Wc)
    by (destruct Hc as [-> | ->]; widths Ha; done).
  destruct Hc as [E | E]; rewrite E in H;
    cbv beta iota delta [op_eq_i64 op_lt_i64 OP_CMP_I64 vm_load_i64 vm_store_u32] in H; rewrite Hcr in H;
    run_in H; injection H as _ <-; by_sim sim_cmp_i64; auto.
Qed.

Lemma cmp_fp_run w (expr : Z -> Z -> bool) :
  let n := Z.of_nat (nbytes w) in width (i_a ins) 4 -> width (i_b ins) n -> width (i_c ins) n ->
  (match w with W32 => OP_CMP_F32 | W64 => OP_CMP_F64 end) expr ctx ins vm = Ret r vm' ->
  vm' = with_reg 4 rf (i_a ins) (Z.b2z (expr (R (i_b ins) vm) (R (i_c ins) vm))) vm.
Proof.
  intros n Wa Wb Wc H. destruct w; unfold OP_CMP_F32, OP_CMP_F64, vm_load_f32, vm_load_f64, vm_store_u32 in H;
    rewrite Hcr in H; run_in H; by injection H as _ <-.
Qed.

Lemma sim_cmps_fp w slot :
  o = (match w with W32 => JOP_EQ_F32 | W64 => JOP_EQ_F64 end) \/
  o = (match w with W32 => JOP_LT_F32 | W64 => JOP_LT_F64 end) ->
  access_ok slot -> faithful ins c vm -> sim c vm vm' ir.
Proof.
  intros Hc Ha Hf. unfold faithful in Hf. rewrite Ho in Hf. destruct Hf as (_ & _ & F32 & F64 & _).
  assert (lower_arith o pc ins = Some ir) as La by (destruct w, Hc as [-> | ->]; exact Hl).
  handler H. set (n := Z.of_nat (nbytes w)).
  assert (width (i_a ins) 4 /\ width (i_b ins) n /\ width (i_c ins) n) as (Wa & Wb & Wc)
    by (destruct w, Hc as [-> | ->]; widths Ha; done).
  assert (ordered (fmt w) (R (i_b ins) vm) (R (i_c ins) vm)) as Hord by (destruct w; auto).
  assert (exists b, vm' = with_reg 4 rf (i_a ins) (Z.b2z b) vm /\
      (o = (match w with W32 => JOP_EQ_F32 | W64 => JOP_EQ_F64 end) /\ b = fl_eq (fmt w) (R (i_b ins) vm) (R (i_c ins) vm) \/
        o = (match w with W32 => JOP_LT_F32 | W64 => JOP_LT_F64 end) /\ b = fl_lt (fmt w) (R (i_b ins) vm) (R (i_c ins) vm)))
    as (b & -> & Hb).
  { destruct Hc as [E | E].
    - exists (fl_eq (fmt w) (R (i_b ins) vm) (R (i_c ins) vm)). split; [|by left].
      apply (cmp_fp_run w); [done..|]. rewrite E in H. by destruct w.
    - exists (fl_lt (fmt w) (R (i_b ins) vm) (R (i_c ins) vm)). split; [|by right].
      apply (cmp_fp_run w); [done..|]. rewrite E in H. by destruct w. }
  exact (sim_cmp_fp room fn_addr lay m f layout rf ks nan32 nan64 A others kept Hoff Hregs HL body_entry pc ins w
      o c vm b ir La Ho HG Wa Wb Wc Hord Hb).
Qed.

(** What the checker says of a move and of the constants. *)
Record insn_checked (slot : Z -> Z) : Prop := {
  ic_access : access_ok slot;
  ic_mov : o = JOP_MOV -> forall k, ks @! (i_a ins) = Some k -> slot (i_a ins) = jello_slot_size k;
  ic_imm : is_u 32 (i_imm ins);
  ic_ni64 : m_nconst_i64 m = zlen (m_const_i64 m);
  ic_nf64 : m_nconst_f64 m = zlen (m_const_f64 m)
}.

Lemma inline_simulates slot :
  compiled_inline o = true -> insn_checked slot -> faithful ins c vm -> sim c vm vm' ir.
Proof.
  intros Hc [Ha Hm Ui Ni Nf] Hf.
  destruct (is_bin_i32 o) eqn:?; [by eapply sim_bin_i32s|].
  destruct (is_imm_i32 o) eqn:?; [by eapply sim_imm_i32s|].
  destruct (is_bin_i64 o) eqn:?; [by eapply sim_bin_i64s|].
  destruct (is_bin_fp W32 o) eqn:?; [by eapply (sim_bin_fps W32)|].
  destruct (is_bin_fp W64 o) eqn:?; [by eapply (sim_bin_fps W64)|].
  destruct (is_neg o) eqn:?; [by eapply sim_negs|].
  destruct (is_const o) eqn:Hconst.
  { apply sim_consts; try done. destruct o; try discriminate Hconst; widths Ha; done. }
  destruct (is_cmp o) eqn:Hcmp.
  { destruct (cmp_i32_value ins o (R (i_b ins) vm) (R (i_c ins) vm)) eqn:Ev;
      [eapply sim_cmps_int; try done; by rewrite Ev|].
    assert (H : (o = JOP_EQ_I64 \/ o = JOP_LT_I64) \/ (o = JOP_EQ_F32 \/ o = JOP_LT_F32) \/
        (o = JOP_EQ_F64 \/ o = JOP_LT_F64)) by (destruct o; try discriminate Hcmp; try discriminate Ev; auto).
    destruct H as [H | [H | H]]; [by eapply sim_cmps_i64 | by eapply (sim_cmps_fp W32) | by eapply (sim_cmps_fp W64)]. }
  handler H. destruct o; try discriminate; injection Hl as <-.
  - injection H as _ <-. by apply triple_ret.
  - widths Ha. destruct H0 as (ka & Ka & Sa), H1 as (kb & Kb & Sb). rewrite (Hm eq_refl ka Ka) in Sb.
    by_sim sim_mov. by apply HF.
Qed.
End Insn.

(** ** Blocks *)

(** Running consecutive instructions by the interpreter's handlers, with the
    instructions of the intermediate code for them (from index [i] of the list [all])
    and the register the compiled code caches. *)
Inductive block (all : list jello_jit_ir_insn)
  : Z -> Z -> Z -> jello_vm -> list jello_jit_ir_insn -> Z -> jello_vm -> Prop :=
| block_nil i pc c vm : block all i pc c vm [] c vm
| block_cons i pc c vm ins o ir r vm1 irs c2 vm2 :
  f_insns f @! pc = Some ins -> op_of_code (i_op ins) = Some o -> compiled_inline o = true ->
  lower_plain o pc ins = Some ir ->
  let c0 := if is_target all i then JIT_I32C_NONE else c in
  faithful ins c0 vm -> dispatch ins vm = Ret r vm1 ->
  block all (i + 1) (pc + 1) (cache_after m f c0 ir) vm1 irs c2 vm2 ->
  block all i pc c vm (ir :: irs) c2 vm2.

Abbreviation loop := (emit_loop room fn_addr lay m f layout).

Definition no_branch (ir : jello_jit_ir_insn) : bool :=
  match ir_op ir with
  | JIR_SWITCH_CASE | JIR_JMP | JIR_JMP_IF | JIR_SWITCH | JIR_RET => false
  | _ => true
  end.

Lemma inline_no_branch o pc ins ir :
  compiled_inline o = true -> lower_plain o pc ins = Some ir -> no_branch ir = true.
Proof. intros Hc Hl. by destruct o; try discriminate Hc; injection Hl as <-. Qed.

(** One turn of the loop. *)
Definition emit_turn (c : Z) (ir : jello_jit_ir_insn) : E Z :=
  _ ← x64_emit_endbr64 room; emit_insn room fn_addr lay m f layout body_entry c ir.

Lemma emit_loop_turn all i ir rest st buf :
  no_branch ir = true ->
  let c := if is_target all i then JIT_I32C_NONE else es_i32c st in
  loop all body_entry i 0 (ir :: rest) st buf =
  '(c1, buf1) ← emit_turn c ir buf;
  loop all body_entry (i + 1) 0 rest (mk_es (es_off st ++ [zlen buf]) (es_sites st) c1 (es_saw_ret st)) buf1.
Proof.
  intros Hn. cbv zeta. cbn [emit_loop].
  assert (ir_op ir <> JIR_SWITCH_CASE) as N1 by (unfold no_branch in Hn; by destruct (ir_op ir)).
  rewrite (bool_decide_eq_false_2 _ N1). unfold emit_turn, mbind, E_bind, esize. unfold no_branch in Hn.
  destruct (ir_op ir); try discriminate Hn; cbv beta iota zeta;
    match goal with |- context [bool_decide (?x = JIR_RET)] => change (bool_decide (x = JIR_RET)) with false end;
    rewrite orb_false_r; destruct (x64_emit_endbr64 room buf) as [[[] buf1]|]; cbn [option_bind]; try reflexivity;
    by destruct (emit_insn room fn_addr lay m f layout body_entry _ ir buf1) as [[? ?]|].
Qed.

(** The loop over a prefix without branches. *)
Lemma emit_loop_app all irs rest : forallb no_branch irs = true -> forall i st buf,
  loop all body_entry i 0 (irs ++ rest) st buf =
  '(st1, buf1) ← loop all body_entry i 0 irs st buf; loop all body_entry (i + zlen irs) 0 rest st1 buf1.
Proof.
  induction irs as [|ir irs IH]; cbn [forallb app]; intros Hn i st buf.
  - cbn. by rewrite zlen_nil, Z.add_0_r.
  - apply andb_true_iff in Hn as [Hn Hns]. rewrite !emit_loop_turn by done.
    destruct (emit_turn _ ir buf) as [[c1 buf1]|]; [|reflexivity]. cbn -[emit_loop zlen].
    rewrite IH by done. rewrite zlen_cons. by replace (i + (zlen irs + 1)) with (i + 1 + zlen irs) by lia.
Qed.

Lemma block_no_branch all i pc c vm irs c2 vm2 :
  block all i pc c vm irs c2 vm2 -> forallb no_branch irs = true.
Proof.
  induction 1 as [|i pc c vm ins o ir r vm1 irs c2 vm2 Hins Ho Hinl Hl c0 Hf Hd Hb IH]; [done|].
  cbn. by rewrite (inline_no_branch o pc ins ir Hinl Hl).
Qed.

Lemma turn_triple c ir vm vm1 :
  sim c vm vm1 ir ->
  triple nan32 nan64 (jit_rel m f rf ks A others kept vm c) (emit_turn c ir) (cache_after m f c ir)
    (jit_rel m f rf ks A others kept vm1 (cache_after m f c ir)).
Proof.
  intros H. tbind; [|exact H]. eapply triple_instr; [apply enc_endbr | done |].
  intros st HJ. eexists; split; [reflexivity | exact HJ].
Qed.

Lemma jit_rel_ip vm c a st :
  jit_rel m f rf ks A others kept vm c st -> jit_rel m f rf ks A others kept vm c (set_ip a st).
Proof. intros H. by apply (jit_rel_same _ _ _ _ _ _ _ _ _ _ _ H). Qed.

Lemma runs_trans code st1 st2 st3 :
  runs nan32 nan64 code st1 st2 -> runs nan32 nan64 code st2 st3 -> runs nan32 nan64 code st1 st3.
Proof.
  intros [n1 H1] [n2 H2]. exists (n1 + n2)%nat. revert st1 H1. induction n1 as [|n1 IH]; intros st1 H1; cbn in *.
  - by injection H1 as ->.
  - destruct (cpu_step _ _ _ _) as [st'|]; [|done]. by apply IH.
Qed.

(** What the checker ensures of every instruction of the function. *)
Definition checked_insns (slot : Z -> Z) : Prop :=
  forall pc ins o, f_insns f @! pc = Some ins -> op_of_code (i_op ins) = Some o -> insn_checked ins o slot.

Lemma block_code slot all i pc c vm irs c2 vm2 :
  checked_insns slot -> block all i pc c vm irs c2 vm2 ->
  forall st buf st' buf' cpu0,
  loop all body_entry i 0 irs st buf = Some (st', buf') -> es_i32c st = c ->
  jit_rel m f rf ks A others kept vm c cpu0 ->
  es_i32c st' = c2 /\ exists bs, buf' = buf ++ bs /\ forall pre post cpu,
  jit_rel m f rf ks A others kept vm c cpu -> ip cpu = zlen pre ->
  exists cpu', runs nan32 nan64 (pre ++ bs ++ post) cpu (set_ip (zlen pre + zlen bs) cpu') /\
  jit_rel m f rf ks A others kept vm2 c2 cpu'.
Proof.
  intros Hck. induction 1 as [i pc c vm|i pc c vm ins o ir r vm1 irs c2 vm2 Hins Ho Hinl Hl c0 Hf Hd Hb IH];
    intros st buf st' buf' cpu0 E Hc HJ.
  - injection E as <- <-. split; [done|]. exists []. split; [by rewrite app_nil_r|].
    intros pre post cpu HJ' Hip. exists cpu. split; [|done]. exists O. cbn. rewrite zlen_nil, Z.add_0_r, <- Hip. by destruct cpu.
  - rewrite emit_loop_turn in E by (by eapply inline_no_branch). rewrite Hc in E. fold c0 in E.
    assert (Hw : forall cpu, jit_rel m f rf ks A others kept vm c cpu -> jit_rel m f rf ks A others kept vm c0 cpu).
    { intros cpu H. unfold c0. destruct (is_target all i); [by eapply jit_rel_none | done]. }
    destruct (emit_turn c0 ir buf) as [[c1 buf1]|] eqn:Et; [|done]. cbn [mbind option_bind] in E.
    assert (HG : good vm) by (destruct (Hw _ HJ); done).
    assert (Hat : insn_at f pc = ins) by (unfold insn_at; by apply zget_Some).
    pose proof (inline_simulates pc ins o ir c0 vm r vm1 Hat Ho Hl HG Hd slot Hinl (Hck pc ins o Hins Ho) Hf) as Hs.
    destruct (triple_runs _ _ _ _ _ _ (turn_triple _ _ _ _ Hs) _ _ _ Et) as (-> & bs1 & -> & Hrun).
    destruct (Hrun [] [] (set_ip 0 cpu0)) as (cpu1 & _ & HJ1); [by apply jit_rel_ip, Hw | done |].
    destruct (IH _ _ _ _ _ E eq_refl HJ1) as (-> & bs2 & -> & Hrun2).
    split; [done|]. exists (bs1 ++ bs2). split; [by rewrite app_assoc|].
    intros pre post cpu HJ' Hip.
    destruct (Hrun pre (bs2 ++ post) cpu (Hw _ HJ') Hip) as (cpu2 & R1 & HJ2).
    destruct (Hrun2 (pre ++ bs1) post (set_ip (zlen pre + zlen bs1) cpu2)) as (cpu3 & R2 & HJ3);
      [by apply jit_rel_ip | by rewrite zlen_app |].
    exists cpu3. split; [|done]. rewrite !zlen_app in *. rewrite Z.add_assoc.
    eapply runs_trans; [rewrite <- app_assoc; exact R1|]. by rewrite <- !app_assoc in *.
Qed.
End Sim.

(** ** The demonstration: [r0 = 7; r0 = r0 + 1; r0 = r0 * r0; r1 = 5 (i64)] *)

Definition jit_fun : jello_bc_function :=
  mk_function 2 0 [1; 2] 5
    [insn_of JOP_CONST_I32 0 0 0 7; insn_of JOP_ADD_I32_IMM 0 0 1 0; insn_of JOP_MUL_I32 0 0 0 0;
     insn_of JOP_CONST_I64 1 0 0 1; insn_of JOP_RET 0 0 0 0]
    1 [10; 11; 12; 13; 14] 5.

Definition jit_module : jello_bc_module :=
  mk_module 1 31 6 (demo_types ++ [mk_type_entry JELLO_T_FUNCTION 0]) 1 [demo_sig]
    2 [proto_name; []] true 2 [-1; 5] 1 [4607182418800017408]
    2 [3; 0] [0; 3] [1; 2; 255] 1 [jit_fun] 0 1 [[97; 98]].

Definition jit_bytes : list Z := LoaderSpec.encode jit_module.

Lemma jit_loads : jello_bc_read junk_entry 0 0 no_oom jit_bytes false = Returned ok (Some jit_module).
Proof. vm_compute. reflexivity. Qed.

(** ** From the file to the code *)

Lemma loaded_checked junk_type junk_tid m f ks :
  module_ok junk_type junk_tid m -> f ∈ m_funcs m -> function_regs m f ks ->
  checked_insns m f ks (fun r => slot_size junk_type m (reg_type junk_tid (f_reg_types f) r)).
Proof.
  intros Hm Hf Hks pc ins o Hins Ho. pose proof (mo_funcs _ _ _ Hm) as Hfs. rewrite Forall_forall in Hfs.
  pose proof (Hfs f Hf) as Hfok. pose proof (fo_insns _ _ _ _ Hfok pc ins Hins) as Hi.
  constructor; [| | apply Hi | apply Hm | apply Hm].
  - eapply Forall_impl; [eapply insn_accesses_ok; [apply Hi | apply Hfok | done | apply Hi]|].
    intros x. by eapply access_frame.
  - intros -> k Hk. destruct (slot_kind junk_type junk_tid m f ks Hks (i_a ins)) as (k' & Hk' & Es).
    { rewrite <- (fr_len _ _ _ Hks). by apply znth_Some in Hk. }
    rewrite Hk in Hk'. injection Hk' as ->. exact Es.
Qed.

(** C4: A block of compiled code refines the interpreter.  In a function of a loaded
    file, let the interpreter's handlers run consecutive instructions that the code
    generator emits inline, none of them outside the conditions of [faithful], from
    the state [vm] to [vm2]; the bytes the generator's loop appends for them, wherever
    they are placed, run on the x86-64 machine from every state that represents [vm]
    (frame slots in memory, the cached register in RBX) to their own end, in a state
    that represents [vm2], and leave stack pointer, frame pointer, context and all
    other memory as they were. *)
Theorem compiled_block_refines junk_type junk_tid junk_byte oom data res
    room fn_addr lay m f layout rf ks nan32 nan64 A others kept
    malloc maddr junk nan16 native jdll_prim ctx body_entry
    all i pc c vm irs rest c2 vm2 st buf st' buf' cpu0 :
  Forall is_byte data -> zlen data <= UINT32_MAX ->
  jello_bc_read junk_type junk_tid junk_byte oom data false = Returned res (Some m) -> is_ok res = true ->
  f ∈ m_funcs m -> function_regs m f ks ->
  cx_f ctx = f -> cx_rf ctx = rf -> fl_off layout = rf_off rf ->
  block m f rf ks nan32 nan64 malloc maddr junk nan16 native jdll_prim ctx all i pc c vm irs c2 vm2 ->
  emit_loop room fn_addr lay m f layout all body_entry i 0 (irs ++ rest) st buf = Some (st', buf') ->
  es_i32c st = c -> jit_rel m f rf ks A others kept vm c cpu0 ->
  exists st1 bs,
    emit_loop room fn_addr lay m f layout all body_entry (i + zlen irs) 0 rest st1 (buf ++ bs) = Some (st', buf') /\
    es_i32c st1 = c2 /\
    forall pre post cpu, jit_rel m f rf ks A others kept vm c cpu -> ip cpu = zlen pre ->
    exists cpu', runs nan32 nan64 (pre ++ bs ++ post) cpu (set_ip (zlen pre + zlen bs) cpu') /\
      jit_rel m f rf ks A others kept vm2 c2 cpu'.
Proof.
  intros Hb Hs Hr Hok Hf Hks Hcf Hcr Hoff Hblk E Hc HJ.
  pose proof (read_spec junk_type junk_tid junk_byte oom data Hb Hs) as H. rewrite Hr in H.
  destruct H as [[_ Hm] | [H _]]; [|apply is_ok_inv in Hok; congruence].
  pose proof (loaded_checked _ _ _ _ _ Hm Hf Hks) as Hck.
  assert (Hregs : zlen ks <= 256) by (rewrite (fr_len _ _ _ Hks); apply Hks).
  assert (HL : layout_ok ks (rf_off rf) (rf_total rf)) by apply HJ.
  rewrite emit_loop_app in E by (by eapply block_no_branch).
  destruct (emit_loop room fn_addr lay m f layout all body_entry i 0 irs st buf) as [[st1 buf1]|] eqn:E1; [|done].
  destruct (block_code room fn_addr lay m f layout rf ks nan32 nan64 A others kept Hoff Hregs HL
    malloc maddr junk nan16 native jdll_prim ctx body_entry Hcf Hcr _ all i pc c vm irs c2 vm2 Hck Hblk
    st buf st1 buf1 cpu0 E1 Hc HJ) as (H1 & bs & -> & H2).
  by exists st1, bs.
Qed.

(** ** Witness *)

Lemma jit_regs : function_regs jit_module jit_fun step_kinds.
Proof.
  constructor; [done | | done].
  intros r k (n & -> & Hk)%znth_inv. do 2 (destruct n as [|n]; [by injection Hk as <-|]). done.
Qed.

Lemma jit_frame : frame_of jit_module jit_fun step_rf step_kinds step_vm.
Proof.
  split; [|apply jit_regs].
  constructor; [done | apply slots_layout_ok; vm_compute; repeat split; done|].
  intros r Hr. exists 0. vm_compute. repeat split; discriminate.
Qed.

Definition jit_layout : frame_layout := mk_layout 2 16 [0; 8] false false false.
Definition jit_lay : jello_jit_layout := mk_lay 24 0 32 40 48 64 72.
Definition jit_ctx : exec_ctx := mk_ctx jit_fun 0 step_rf None.
Definition jit_irs : list jello_jit_ir_insn := ir_insns (jello_jit_ir_build jit_module (fun _ => true) 0).

(** The interpreter on the demonstration. *)
Abbreviation jit_step := (op_dispatch (fun _ _ => None) jit_module 8 0 0 0 (fun _ => 0) (fun _ _ _ _ => mret ())
  (fun _ _ _ _ => mret true) jit_ctx).

(** The stack between the frame base and the next mapping; RSP, RBP and the context
    as they are. *)
Definition jit_kept (r : Z) : Z := 0x7000 + r.

Definition jit_cpu : cpu :=
  mk_cpu 0 (fun r => if r =? JIT_REG_BASE then 0x10000 else jit_kept r) (fun _ => 0) None
    [(0x10000, frame_stack (v_stack step_vm))].

Lemma jit_cpu_rel :
  jit_rel jit_module jit_fun step_rf step_kinds 0x10000 [] jit_kept step_vm JIT_I32C_NONE jit_cpu.
Proof.
  constructor; [exact jit_frame | | done | done | | | done].
  - apply (bool_decide_eq_true_1 (Forall (is_u 8) (frame_stack (v_stack step_vm)))). vm_compute. reflexivity.
  - by intros base [= <-].
  - intros r Hr. repeat (apply elem_of_cons in Hr as [->|Hr]; [done|]). by apply elem_of_nil in Hr.
Qed.

Definition jit_vm (n : nat) : jello_vm :=
  foldl (fun vm ins => match jit_step ins vm with Ret _ vm' => vm' | _ => vm end) step_vm
    (take n (f_insns jit_fun)).

Lemma jit_block :
  block jit_module jit_fun step_rf step_kinds 0 0 (fun _ _ => None) 8 0 (fun _ => 0) (fun _ _ _ _ => mret ())
    (fun _ _ _ _ => mret true) jit_ctx jit_irs 0 0 JIT_I32C_NONE step_vm (take 4 jit_irs) JIT_I32C_NONE (jit_vm 4).
Proof.
  assert (Hn : forall ka, Some JELLO_T_I32 = Some ka -> unmasked ka) by (by intros ka [= <-]).
  let l := eval vm_compute in (take 4 jit_irs) in change (take 4 jit_irs) with l.
  eapply block_cons with (vm1 := jit_vm 1); [reflexivity..| |vm_compute; reflexivity|].
  { cbn. split_and!; intros H; try discriminate H; by destruct H. }
  eapply block_cons with (vm1 := jit_vm 2); [reflexivity..| |vm_compute; reflexivity|].
  { cbn. split_and!; intros H; first [exact Hn | discriminate H | by destruct H]. }
  eapply block_cons with (vm1 := jit_vm 3); [reflexivity..| |vm_compute; reflexivity|].
  { cbn. split_and!; intros H; first [exact Hn | discriminate H | by destruct H]. }
  eapply block_cons with (vm1 := jit_vm 4); [reflexivity..| |vm_compute; reflexivity|].
  { cbn. split_and!; intros H; first [exact Hn | discriminate H | by destruct H]. }
  apply block_nil.
Qed.

Lemma compiled_block_refines_witness :
  exists bs, reg step_rf step_kinds 0 (jit_vm 4) = 64 /\
    forall pre post cpu,
      jit_rel jit_module jit_fun step_rf step_kinds 0x10000 [] jit_kept step_vm JIT_I32C_NONE cpu -> ip cpu = zlen pre ->
      exists cpu', runs 0 0 (pre ++ bs ++ post) cpu (set_ip (zlen pre + zlen bs) cpu') /\
        jit_rel jit_module jit_fun step_rf step_kinds 0x10000 [] jit_kept (jit_vm 4) JIT_I32C_NONE cpu'.
Proof.
  assert (exists st' buf', emit_loop (fun _ => true) (fun _ => 0x8000) jit_lay jit_module jit_fun jit_layout jit_irs 0 0 0
    (take 4 jit_irs ++ drop 4 jit_irs) (mk_es [] [] JIT_I32C_NONE false) [] = Some (st', buf')) as (st' & buf' & E)
    by (vm_compute; by do 2 eexists).
  destruct (compiled_block_refines junk_entry 0 0 no_oom jit_bytes ok (fun _ => true) (fun _ => 0x8000) jit_lay
    jit_module jit_fun jit_layout step_rf step_kinds 0 0 0x10000 [] jit_kept (fun _ _ => None) 8 0 (fun _ => 0)
    (fun _ _ _ _ => mret ()) (fun _ _ _ _ => mret true) jit_ctx 0 jit_irs 0 0 JIT_I32C_NONE step_vm
    (take 4 jit_irs) (drop 4 jit_irs) JIT_I32C_NONE (jit_vm 4) (mk_es [] [] JIT_I32C_NONE false) [] st' buf' jit_cpu)
    as (st1 & bs & E1 & Hc & H).
  - apply (bool_decide_eq_true_1 (Forall (is_u 8) jit_bytes)). vm_compute. reflexivity.
  - by vm_compute.
  - exact jit_loads.
  - reflexivity.
  - apply list_elem_of_here.
  - exact jit_regs.
  - reflexivity.
  - reflexivity.
  - reflexivity.
  - exact jit_block.
  - exact E.
  - reflexivity.
  - exact jit_cpu_rel.
  - exists bs. split; [vm_compute; reflexivity | exact H].
Defined.
