(* ===== verification/JitX64Diverge.v ===== *)
(** * Where compiled code is not the interpreter's

    The conditions of [faithful] are needed: one program for each, on which the
    emitted code and the handlers leave different registers.  The programs are run on
    the machine of X64Sem and by [op_dispatch]. *)

From S2P Require Import Prelude CInt Memory Bytecode Check FunCheck Loader Value Object Heap Vm Frame FrameFacts Float Gc Box BoxThms Types Ops ArithOps Call Exc CoreOps CallOps ContainerOps BytesOps ObjOps Exec StepThms JitIr X64 X64Sem JitX64 JitX64Facts JitX64Sim.
#[local] Open Scope list_scope.
#[local] Open Scope Z_scope.

(** A function with registers of the kinds [ks], 8 bytes apart, and its frame. *)
Section Both.
Context (ks : list jello_type_kind) (insns : list jello_insn) (vals : list Z).

Abbreviation n := (length ks).
Definition d_regs : list Z := map Z.of_nat (seq 0 n).

Definition d_module : jello_bc_module :=
  mk_module 1 0 (zlen ks) (map (fun k => mk_type_entry k 0) ks) 0 [] 0 [] false 0 [] 0 [] 0 [] [] [] 1
  [mk_function (zlen ks) 0 d_regs (zlen insns) insns 0 [] 0] 0 0 [].

(** The checker accepts the program. *)
Definition accepted : bool := accepts d_module d_regs insns.

Definition d_fun : jello_bc_function := fun_of d_module 0.
Definition d_off : list Z := map (fun i => 8 * Z.of_nat i) (seq 0 n).
Definition d_size : Z := 8 * zlen ks.
Definition d_rf : reg_frame := mk_rf (Some 0) d_off (zlen ks) d_size true.
Definition d_ctx : exec_ctx := mk_ctx d_fun 0 d_rf None.
Definition d_stack : list Z := vals ≫= le_bytes 8.
Definition d_vm : jello_vm := set_stack (mk_stack [] 0 0 d_stack d_size [] 0) box_vm.

Definition d_get (r : Z) (mem : list Z) : option Z := mem_load 4 mem (8 * r).

(** The interpreter: the word of register [r] before the return. *)
Fixpoint d_run (l : list jello_insn) (vm : jello_vm) : option jello_vm :=
  match l with
  | [] => Some vm
  | ins :: l' =>
    match op_dispatch (fun _ _ => None) d_module 8 0 0 0 (fun _ => 0) (fun _ _ _ _ => mret ())
        (fun _ _ _ _ => mret true) d_ctx ins vm with
    | Ret _ vm' => d_run l' vm'
    | _ => None
    end
  end.

Definition interpreted (r : Z) : option Z := vm ← d_run (removelast insns) d_vm; d_get r (frame_stack (v_stack vm)).

(** The compiled code. *)
Definition d_irs : list jello_jit_ir_insn := ir_insns (jello_jit_ir_build d_module (fun _ => true) 0).
Definition d_layout : frame_layout := mk_layout (zlen ks) d_size d_off false false false.
Definition d_code : option (list Z) :=
  snd <$> emit_loop (fun _ => true) (fun _ => 0) (mk_lay 24 0 32 40 48 64 72) d_module d_fun d_layout d_irs 0 0 0
    (removelast d_irs) (mk_es [] [] JIT_I32C_NONE false) [].

Fixpoint run_to (fuel : nat) (stop : Z) (code : list Z) (st : cpu) : option cpu :=
  if ip st =? stop then Some st else
  match fuel with
  | O => None
  | S fuel' => st' ← cpu_step 0 0 code st; run_to fuel' stop code st'
  end.

Definition d_cpu : cpu :=
  mk_cpu 0 (fun r => if r =? JIT_REG_BASE then 0x10000 else 0) (fun _ => 0) None [(0x10000, d_stack)].

Definition compiled (r : Z) : option Z :=
  code ← d_code; st ← run_to 100 (zlen code) code d_cpu;
  '(_, mem) ← head (mem st); d_get r mem.
End Both.

(** Both runs of an accepted program end, with [x] and [y] in register [r]. *)
Definition diverge (ks : list jello_type_kind) (insns : list jello_insn) (vals : list Z) (r x y : Z) : Prop :=
  accepted ks insns = true /\ interpreted ks insns vals r = Some x /\ compiled ks insns vals r = Some y.

(** [MOV r1, r0; ADD_F32 r1, r1, r2; MOV r3, r1] on 1.0 and 2.0: the first move
    leaves r0's value in the register cache as r1's, the addition does not tell the
    cache, and the second move stores the old value: 1.0 for 3.0. *)
Lemma stale_cache :
  diverge (replicate 4 JELLO_T_F32)
    [insn_of JOP_MOV 1 0 0 0; insn_of JOP_ADD_F32 1 1 2 0; insn_of JOP_MOV 3 1 0 0; insn_of JOP_RET 0 0 0 0]
    [0x3F800000; 0; 0x40000000; 0] 3 0x40400000 0x3F800000.
Proof. vm_compute. split_and!; reflexivity. Qed.

(** Comparisons with a NaN: [COMISD] sets the zero and the carry flag. *)
Lemma nan_compares_equal :
  diverge [JELLO_T_BOOL; JELLO_T_F64] [insn_of JOP_EQ_F64 0 1 1 0; insn_of JOP_RET 0 0 0 0] [0; 0x7FF8000000000000] 0 0 1.
Proof. vm_compute. split_and!; reflexivity. Qed.

Lemma nan_compares_less :
  diverge [JELLO_T_BOOL; JELLO_T_F64] [insn_of JOP_LT_F64 0 1 1 0; insn_of JOP_RET 0 0 0 0] [0; 0x7FF8000000000000] 0 0 1.
Proof. vm_compute. split_and!; reflexivity. Qed.

(** [127 + 1] in an i8 register: -128 for the interpreter, 128 compiled. *)
Lemma i8_not_narrowed :
  diverge [JELLO_T_I8; JELLO_T_I8] [insn_of JOP_ADD_I32 0 1 1 0; insn_of JOP_RET 0 0 0 0] [0; 64]
    0 (u32 (-128)) 128.
Proof. vm_compute. split_and!; reflexivity. Qed.

(** [EQ_I32] with register 255: the comparison is with zero instead. *)
Lemma register_255_reads_zero :
  diverge (JELLO_T_BOOL :: replicate 255 JELLO_T_I32) [insn_of JOP_EQ_I32 0 1 255 0; insn_of JOP_RET 0 0 0 0]
    ([9; 5] ++ replicate 253 0 ++ [5]) 0 1 0.
Proof. vm_compute. split_and!; reflexivity. Qed.
