(* ===== verification/A64.v ===== *)
(** * A64 instructions as words

    Model of the encoders of src/src/include/jello/internal/jit_arm64.h and of
    [jello_jit_emit_u32] of src/src/jit/backend/jit_emit_buf.c.  An encoder answers the
    word; the emission monad is that of [X64].  Registers are bytes. *)

From S2P Require Import Prelude CInt Memory X64.
#[local] Open Scope list_scope.
#[local] Open Scope Z_scope.

Definition jello_jit_emit_u32 (room : Z -> bool) (word : Z) : E () := jello_jit_emit_bytes room (le_bytes 4 word).

(** ** Shapes several encoders share *)

(** [base | (uint32_t)rm << 16 | (uint32_t)rn << 5 | (uint32_t)rd]. *)
Definition rrr (base rd rn rm : Z) : Z := Z.lor (Z.lor (Z.lor base (Z.shiftl rm 16)) (Z.shiftl rn 5)) rd.

(** [base | (uint32_t)rn << 5 | (uint32_t)rd]. *)
Definition rr (base rd rn : Z) : Z := Z.lor (Z.lor base (Z.shiftl rn 5)) rd.

(** [base | imm12 << 10 | (uint32_t)rn << 5 | (uint32_t)rt]. *)
Definition rri (base rt rn imm12 : Z) : Z :=
  Z.lor (Z.lor (Z.lor base (u32 (Z.shiftl imm12 10))) (Z.shiftl rn 5)) rt.

(** [base | ((uint32_t)off_insns & 0x7FFFFu) << 5 | low]. *)
Definition branch19 (base low off_insns : Z) : Z :=
  Z.lor (Z.lor base (Z.shiftl (Z.land (u32 off_insns) 0x7FFFF) 5)) low.

(** [base | (uint32_t)rm << 16 | (uint32_t)sh << 10 | (uint32_t)rd]. *)
Definition shifted (base rd rm sh : Z) : Z := Z.lor (Z.lor (Z.lor base (Z.shiftl rm 16)) (Z.shiftl sh 10)) rd.

(** [base | imm7 << 15 | (uint32_t)rt2 << 10 | (uint32_t)rn << 5 | (uint32_t)rt]. *)
Definition pair (base rt rt2 rn imm : Z) : Z :=
  Z.lor (Z.lor (Z.lor (Z.lor base (Z.shiftl (Z.land (u32 imm) 0x7F) 15)) (Z.shiftl rt2 10)) (Z.shiftl rn 5)) rt.

(** ** Constants *)

Definition a64_mov_wide (base rd imm shift : Z) : Z :=
  Z.lor (Z.lor (Z.lor base (Z.shiftl (Z.land (shift / 16) 3) 21)) (Z.shiftl imm 5)) rd.
Definition a64_movz_w : Z -> Z -> Z -> Z := a64_mov_wide 0x52800000.
Definition a64_movk_w : Z -> Z -> Z -> Z := a64_mov_wide 0x72800000.

(** ** Integer arithmetic *)

Definition a64_add_w_rr : Z -> Z -> Z -> Z := rrr 0x0B000000.
Definition a64_sub_w_rr : Z -> Z -> Z -> Z := rrr 0x4B000000.
Definition a64_add_w_imm (rd rn imm12 : Z) : Z := rri 0x11000000 rd rn (Z.land imm12 0xFFF).
Definition a64_sub_w_imm (rd rn imm12 : Z) : Z := rri 0x51000000 rd rn (Z.land imm12 0xFFF).
Definition a64_subs_w_rr : Z -> Z -> Z -> Z := rrr 0x6B000000.
Definition a64_add_x_rr : Z -> Z -> Z -> Z := rrr 0x8B000000.

(** [cond ^ 1] is the inverse condition. *)
Definition a64_cset_w (rd cond : Z) : Z :=
  Z.lor (Z.lor (Z.lor (Z.lor (Z.lor 0x1A800000 (Z.shiftl 1 10)) (Z.shiftl 31 16))
    (Z.shiftl (u8 (Z.lxor cond 1)) 12)) (Z.shiftl 31 5)) rd.

Definition a64_cmp_w_imm0 (rn : Z) : Z := rr 0x71000000 0x1F rn.
Definition a64_mul_w : Z -> Z -> Z -> Z := rrr 0x1B007C00.
Definition a64_sdiv_w : Z -> Z -> Z -> Z := rrr 0x1AC00C00.

Definition a64_msub (base rd rn rm ra : Z) : Z :=
  Z.lor (Z.lor (Z.lor (Z.lor base (Z.shiftl rm 16)) (Z.shiftl ra 10)) (Z.shiftl rn 5)) rd.
Definition a64_msub_w : Z -> Z -> Z -> Z -> Z := a64_msub 0x1B008000.

Definition a64_lslv_w : Z -> Z -> Z -> Z := rrr 0x1AC02000.
Definition a64_lsrv_w : Z -> Z -> Z -> Z := rrr 0x1AC02400.
Definition a64_neg_w (rd rm : Z) : Z := Z.lor (Z.lor 0x4B0003E0 (Z.shiftl rm 16)) rd.
Definition a64_sub_x_imm (rd rn imm12 : Z) : Z := rri 0xD1000000 rd rn (Z.land imm12 0xFFF).
Definition a64_sub_x_rr : Z -> Z -> Z -> Z := rrr 0xCB000000.
Definition a64_subs_x_rr : Z -> Z -> Z -> Z := rrr 0xEB000000.
Definition a64_mul_x : Z -> Z -> Z -> Z := rrr 0x9B007C00.
Definition a64_sdiv_x : Z -> Z -> Z -> Z := rrr 0x9AC00C00.
Definition a64_msub_x : Z -> Z -> Z -> Z -> Z := a64_msub 0x9B008000.
Definition a64_lslv_x : Z -> Z -> Z -> Z := rrr 0x9AC02000.
Definition a64_lsrv_x : Z -> Z -> Z -> Z := rrr 0x9AC02400.
Definition a64_neg_x (rd rm : Z) : Z := Z.lor (Z.lor 0xCB0003E0 (Z.shiftl rm 16)) rd.
Definition a64_cmp_w_imm (rn imm : Z) : Z := Z.lor (Z.lor (Z.lor 0x71000000 (Z.shiftl imm 10)) (Z.shiftl rn 5)) 0x1F.
Definition a64_and_w_rr : Z -> Z -> Z -> Z := rrr 0x0A000000.
Definition a64_orr_w_rr : Z -> Z -> Z -> Z := rrr 0x2A000000.
Definition a64_orr_x_rr : Z -> Z -> Z -> Z := rrr 0xAA000000.
Definition a64_lsl_w_imm : Z -> Z -> Z -> Z := shifted 0x2A0003E0.
Definition a64_lsl_x_imm : Z -> Z -> Z -> Z := shifted 0xAA0003E0.
Definition a64_lsr_w_imm : Z -> Z -> Z -> Z := shifted 0x2A4003E0.
Definition a64_lsr_x_imm : Z -> Z -> Z -> Z := shifted 0xAA4003E0.
Definition a64_mov_w_rr (rd rm : Z) : Z := Z.lor (Z.lor 0x2A0003E0 (Z.shiftl rm 16)) rd.
Definition a64_mov_x_rr (rd rm : Z) : Z := Z.lor (Z.lor 0xAA0003E0 (Z.shiftl rm 16)) rd.
Definition a64_eor_w_rr : Z -> Z -> Z -> Z := rrr 0x4A000000.
Definition a64_eor_x_rr : Z -> Z -> Z -> Z := rrr 0xCA000000.

(** ** Memory *)

Definition a64_ldr_w_uimm (rt rn byte_off : Z) : Z := rri 0xB9400000 rt rn (byte_off / 4).
Definition a64_str_w_uimm (rt rn byte_off : Z) : Z := rri 0xB9000000 rt rn (byte_off / 4).
Definition a64_ldr_x_uimm (rt rn byte_off : Z) : Z := rri 0xF9400000 rt rn (byte_off / 8).
Definition a64_str_x_uimm (rt rn byte_off : Z) : Z := rri 0xF9000000 rt rn (byte_off / 8).
Definition a64_ldr_d_uimm (dt rn byte_off : Z) : Z := rri 0xFD400000 dt rn (byte_off / 8).
Definition a64_str_d_uimm (dt rn byte_off : Z) : Z := rri 0xFD000000 dt rn (byte_off / 8).
Definition a64_ldr_s_uimm (st rn byte_off : Z) : Z := rri 0xBD400000 st rn (byte_off / 4).
Definition a64_str_s_uimm (st rn byte_off : Z) : Z := rri 0xBD000000 st rn (byte_off / 4).
Definition a64_ldrb_w_uimm (rt rn byte_off : Z) : Z := rri 0x39400000 rt rn (Z.land byte_off 0xFFF).
Definition a64_strb_w_uimm (rt rn byte_off : Z) : Z := rri 0x39000000 rt rn (Z.land byte_off 0xFFF).
Definition a64_stp_xpre : Z -> Z -> Z -> Z -> Z := pair 0xA9800000.
Definition a64_ldp_xpost : Z -> Z -> Z -> Z -> Z := pair 0xA8C00000.

(** ** Floating point *)

Definition a64_fadd_d : Z -> Z -> Z -> Z := rrr 0x1E602800.
Definition a64_fsub_d : Z -> Z -> Z -> Z := rrr 0x1E603800.
Definition a64_fmul_d : Z -> Z -> Z -> Z := rrr 0x1E600800.
Definition a64_fdiv_d : Z -> Z -> Z -> Z := rrr 0x1E601800.
Definition a64_fsqrt_d : Z -> Z -> Z := rr 0x1E61C000.
Definition a64_fneg_d : Z -> Z -> Z := rr 0x1E614000.
Definition a64_fneg_s : Z -> Z -> Z := rr 0x1E214000.
Definition a64_fcmp_d (dn dm : Z) : Z := Z.lor (Z.lor 0x1E602000 (Z.shiftl dm 16)) (Z.shiftl dn 5).
Definition a64_fadd_s : Z -> Z -> Z -> Z := rrr 0x1E202800.
Definition a64_fsub_s : Z -> Z -> Z -> Z := rrr 0x1E203800.
Definition a64_fmul_s : Z -> Z -> Z -> Z := rrr 0x1E200800.
Definition a64_fdiv_s : Z -> Z -> Z -> Z := rrr 0x1E201800.
Definition a64_fcmp_s (sn sm : Z) : Z := Z.lor (Z.lor 0x1E202000 (Z.shiftl sm 16)) (Z.shiftl sn 5).

(** ** Control *)

Definition a64_cbz_x (rt off_insns : Z) : Z := branch19 0xB4000000 rt off_insns.
Definition a64_cbz_w (rt off_insns : Z) : Z := branch19 0x34000000 rt off_insns.
Definition a64_cbnz_w (rt off_insns : Z) : Z := branch19 0x35000000 rt off_insns.
Definition a64_cbnz_x (rt off_insns : Z) : Z := branch19 0xB5000000 rt off_insns.
Definition a64_b (off_insns : Z) : Z := Z.lor 0x14000000 (Z.land (u32 off_insns) 0x03FFFFFF).
Definition a64_bl (off_insns : Z) : Z := Z.lor 0x94000000 (Z.land (u32 off_insns) 0x03FFFFFF).
Definition a64_b_eq (off_insns : Z) : Z := branch19 0x54000000 0 off_insns.
Definition a64_b_ne (off_insns : Z) : Z := branch19 0x54000000 1 off_insns.
Definition a64_b_hs (off_insns : Z) : Z := branch19 0x54000000 2 off_insns.
Definition a64_ret : Z := 0xD65F03C0.

Definition a64_adr (rd imm_bytes : Z) : Z :=
  let immlo := Z.land (u32 imm_bytes) 3 in
  let immhi := Z.land (Z.shiftr (u32 imm_bytes) 2) 0x7FFFF in
  Z.lor (Z.lor (Z.lor 0x10000000 (Z.shiftl immlo 29)) (Z.shiftl immhi 5)) rd.

(** ** Words written out in jit_arm64_emit.c *)

(** [MOVZ], [MOVK] of 16 bits into an X register: [base | rd | imm << 5]. *)
Definition mov_x_imm (base rd imm : Z) : Z := Z.lor (Z.lor base rd) (u32 (Z.shiftl imm 5)).

Definition blr_x16 : Z := 0xD63F0200.
Definition br_x16 : Z := Z.lor 0xD61F0000 (Z.shiftl 16 5).
Definition mov_x29_sp : Z := 0x910003FD.
Definition mov_x19_x0 : Z := 0xAA0003F3.
Definition mov_x0_x19 : Z := 0xAA1303E0.
Definition sxtw (rd rn : Z) : Z := Z.lor (Z.lor 0x93407C00 (Z.shiftl rn 5)) rd.
