(* ===== verification/A64Sem.v ===== *)
(** * What A64 instructions mean

    A specification, after the manual of the architecture and independent of the
    emitters, of the instructions of the compiled code: decoding of words and the effect
    on registers, flags and memory.  The state is that of [X64Sem]; [sf], [zf], [cf],
    [of_] are N, Z, C, V.  What leaves the code (calls, returns, indirect jumps, and the
    address of a label) is stuck. *)

From S2P Require Import Prelude CInt Memory Float X64Sem.
#[local] Open Scope list_scope.
#[local] Open Scope Z_scope.

(** ** Instructions *)

Inductive shift : Set := LSL | LSR.

(** Offsets are in bytes; register 31 is the zero register, or the stack pointer as a base
    and in [AAddImm], [ASubImm]. *)
Inductive ainstr : Set :=
| AMovz (w : width) (d imm hw : Z)
| AMovk (w : width) (d imm hw : Z)
| AAdd (w : width) (d n m : Z)
| ASub (w : width) (d n m : Z)
| ASubs (w : width) (d n m : Z)
| AAddImm (w : width) (d n imm : Z)
| ASubImm (w : width) (d n imm : Z)
| ASubsImm (w : width) (d n imm : Z)
| AAnd (w : width) (d n m : Z)
| AOrr (w : width) (sh : shift) (d n m k : Z)
| AEor (w : width) (d n m : Z)
| AMadd (w : width) (d n m a : Z)
| AMsub (w : width) (d n m a : Z)
| ASdiv (w : width) (d n m : Z)
| ALslv (w : width) (d n m : Z)
| ALsrv (w : width) (d n m : Z)
| ASxtw (d n : Z)
| ACsinc (w : width) (d n m cond : Z)
| ALdr (w : width) (t n off : Z)
| AStr (w : width) (t n off : Z)
| ALdrb (t n off : Z)
| AStrb (t n off : Z)
| AFldr (w : width) (t n off : Z)
| AFstr (w : width) (t n off : Z)
| AFop (w : width) (op : fop) (d n m : Z)
| AFsqrt (w : width) (d n : Z)
| AFneg (w : width) (d n : Z)
| AFcmp (w : width) (n m : Z)
| ACbz (w : width) (t off : Z)
| ACbnz (w : width) (t off : Z)
| AB (off : Z)
| ABl (off : Z)
| ABcond (cond off : Z)
| AAdr (d off : Z)
| ABr (n : Z)
| ABlr (n : Z)
| ARet (n : Z)
| AStp (t t2 n off : Z)
| ALdp (t t2 n off : Z).

(** ** Decoding *)

(** The [len] bits from bit [lo] on, unsigned and signed. *)
Definition field (lo len w : Z) : Z := Z.shiftr w lo mod 2 ^ len.
Definition sfield (lo len w : Z) : Z := wrapS len (field lo len w).

Section Decode.
Context (w : Z).

Let rd := field 0 5 w.
Let rn := field 5 5 w.
Let rm := field 16 5 w.
Let imm12 := field 10 12 w.
Let rel19 := 4 * sfield 5 19 w.
Let scaled n := n * imm12.

(** Arithmetic and logic on registers; only [ORR] with a shift. *)
Definition unshifted (i : ainstr) : option ainstr := if field 10 6 w =? 0 then Some i else None.

Definition decode_2src (wd : width) : option ainstr :=
  match field 10 6 w with
  | 0x03 => Some (ASdiv wd rd rn rm)
  | 0x08 => Some (ALslv wd rd rn rm)
  | 0x09 => Some (ALsrv wd rd rn rm)
  | _ => None
  end.

Definition decode_3src (wd : width) : option ainstr :=
  if field 15 1 w =? 0 then Some (AMadd wd rd rn rm (field 10 5 w)) else Some (AMsub wd rd rn rm (field 10 5 w)).

Definition decode_fp (wd : width) : option ainstr :=
  match field 10 6 w with
  | 0x0A => Some (AFop wd FAdd rd rn rm)
  | 0x0E => Some (AFop wd FSub rd rn rm)
  | 0x02 => Some (AFop wd FMul rd rn rm)
  | 0x06 => Some (AFop wd FDiv rd rn rm)
  | 0x30 => if rm =? 1 then Some (AFsqrt wd rd rn) else None
  | 0x10 => if rm =? 1 then Some (AFneg wd rd rn) else None
  | 0x08 => if rd =? 0 then Some (AFcmp wd rn rm) else None
  | _ => None
  end.

Definition decode_branch_reg (i : ainstr) : option ainstr :=
  if (field 10 11 w =? 0x7C0) && (rd =? 0) then Some i else None.

(** The instructions known by their upper eleven bits, ten, nine, ... *)
Definition decode11 : option ainstr :=
  match field 21 11 w with
  | 0x058 => unshifted (AAdd W32 rd rn rm)
  | 0x258 => unshifted (ASub W32 rd rn rm)
  | 0x358 => unshifted (ASubs W32 rd rn rm)
  | 0x458 => unshifted (AAdd W64 rd rn rm)
  | 0x658 => unshifted (ASub W64 rd rn rm)
  | 0x758 => unshifted (ASubs W64 rd rn rm)
  | 0x050 => unshifted (AAnd W32 rd rn rm)
  | 0x250 => unshifted (AEor W32 rd rn rm)
  | 0x650 => unshifted (AEor W64 rd rn rm)
  | 0x150 => Some (AOrr W32 LSL rd rn rm (field 10 6 w))
  | 0x152 => Some (AOrr W32 LSR rd rn rm (field 10 6 w))
  | 0x550 => Some (AOrr W64 LSL rd rn rm (field 10 6 w))
  | 0x552 => Some (AOrr W64 LSR rd rn rm (field 10 6 w))
  | 0x0D6 => decode_2src W32
  | 0x4D6 => decode_2src W64
  | 0x0D8 => decode_3src W32
  | 0x4D8 => decode_3src W64
  | 0x0D4 => if field 10 2 w =? 1 then Some (ACsinc W32 rd rn rm (field 12 4 w)) else None
  | 0x49A => if field 10 11 w =? 0x01F then Some (ASxtw rd rn) else None
  | 0x0F1 => decode_fp W32
  | 0x0F3 => decode_fp W64
  | 0x6B0 => decode_branch_reg (ABr rn)
  | 0x6B1 => decode_branch_reg (ABlr rn)
  | 0x6B2 => decode_branch_reg (ARet rn)
  | _ => None
  end.

Definition decode10 : option ainstr :=
  match field 22 10 w with
  | 0x044 => Some (AAddImm W32 rd rn imm12)
  | 0x244 => Some (AAddImm W64 rd rn imm12)
  | 0x144 => Some (ASubImm W32 rd rn imm12)
  | 0x344 => Some (ASubImm W64 rd rn imm12)
  | 0x1C4 => Some (ASubsImm W32 rd rn imm12)
  | 0x2E5 => Some (ALdr W32 rd rn (scaled 4))
  | 0x2E4 => Some (AStr W32 rd rn (scaled 4))
  | 0x3E5 => Some (ALdr W64 rd rn (scaled 8))
  | 0x3E4 => Some (AStr W64 rd rn (scaled 8))
  | 0x0E5 => Some (ALdrb rd rn imm12)
  | 0x0E4 => Some (AStrb rd rn imm12)
  | 0x2F5 => Some (AFldr W32 rd rn (scaled 4))
  | 0x2F4 => Some (AFstr W32 rd rn (scaled 4))
  | 0x3F5 => Some (AFldr W64 rd rn (scaled 8))
  | 0x3F4 => Some (AFstr W64 rd rn (scaled 8))
  | 0x2A6 => Some (AStp rd (field 10 5 w) rn (8 * sfield 15 7 w))
  | 0x2A3 => Some (ALdp rd (field 10 5 w) rn (8 * sfield 15 7 w))
  | _ => decode11
  end.

Definition decode9 : option ainstr :=
  match field 23 9 w with
  | 0x0A5 => Some (AMovz W32 rd (field 5 16 w) (field 21 2 w))
  | 0x0E5 => Some (AMovk W32 rd (field 5 16 w) (field 21 2 w))
  | 0x1A5 => Some (AMovz W64 rd (field 5 16 w) (field 21 2 w))
  | 0x1E5 => Some (AMovk W64 rd (field 5 16 w) (field 21 2 w))
  | _ => decode10
  end.

Definition decode8 : option ainstr :=
  match field 24 8 w with
  | 0x34 => Some (ACbz W32 rd rel19)
  | 0xB4 => Some (ACbz W64 rd rel19)
  | 0x35 => Some (ACbnz W32 rd rel19)
  | 0xB5 => Some (ACbnz W64 rd rel19)
  | 0x54 => if field 4 1 w =? 0 then Some (ABcond (field 0 4 w) rel19) else None
  | 0x10 | 0x30 | 0x50 | 0x70 => Some (AAdr rd (wrapS 21 (4 * field 5 19 w + field 29 2 w)))
  | _ => decode9
  end.

Definition a64_decode : option ainstr :=
  match field 26 6 w with
  | 0x05 => Some (AB (4 * sfield 0 26 w))
  | 0x25 => Some (ABl (4 * sfield 0 26 w))
  | _ => decode8
  end.
End Decode.

(** ** Effects *)

(** General registers, 31 reading as zero. *)
Definition getz (w : width) (st : cpu) (r : Z) : Z := if r =? 31 then 0 else get w st r.
Definition putz (w : width) (r v : Z) (st : cpu) : cpu := if r =? 31 then st else put w r v st.

Definition sub_flags (w : width) (a b : Z) : flags :=
  result_flags w (wrapU (bits w) (a - b)) (b <=? a) (negb (fits w (sgn w a - sgn w b))).

(** The flags of a comparison of floating-point numbers, unordered ones last. *)
Definition fcmp_flags (fm : format) (a b : Z) : flags :=
  if fl_lt fm a b then mk_flags false true false false
  else if fl_eq fm a b then mk_flags true false true false
  else if fl_lt fm b a then mk_flags false false true false
  else mk_flags false false true true.

Definition holds (c : Z) (f : flags) : bool :=
  let b := match c / 2 with
    | 0 => zf f
    | 1 => cf f
    | 2 => sf f
    | 3 => of_ f
    | 4 => cf f && negb (zf f)
    | 5 => eqb (sf f) (of_ f)
    | 6 => eqb (sf f) (of_ f) && negb (zf f)
    | _ => true
    end in
  if (c mod 2 =? 1) && negb (c =? 15) then negb b else b.

Definition shift_by (sh : shift) (w : width) (x k : Z) : Z :=
  match sh with LSL => wrapU (bits w) (Z.shiftl x k) | LSR => Z.shiftr x k end.

(** The address [[n + off]]. *)
Definition addr (st : cpu) (n off : Z) : Z := u64 (regs st n + off).

Definition aload (n : nat) (st : cpu) (base off : Z) : option Z := blocks_load n (mem st) (addr st base off).

Definition astore (n : nat) (base off v : Z) (st : cpu) : option cpu :=
  l ← blocks_store n (mem st) (addr st base off) v; Some (set_mems l st).

(** Divided by zero is zero. *)
Definition sdiv (w : width) (a b : Z) : Z :=
  if sgn w b =? 0 then 0 else Z.quot (sgn w a) (sgn w b).

Definition put_fp (w : width) (x v : Z) (st : cpu) : cpu := set_xmm x (wrapU (bits w) v) st.

Section Exec.
Context (nan32 nan64 : Z).

(** The effect of an instruction; [ip] is already behind it. *)
Definition exec_a64 (i : ainstr) (st : cpu) : option cpu :=
  let jump off := set_ip (ip st - 4 + off) st in
  match i with
  | AMovz w d imm hw => Some (putz w d (Z.shiftl imm (16 * hw)) st)
  | AMovk w d imm hw =>
    let old := getz w st d in
    Some (putz w d (old + Z.shiftl (imm - field (16 * hw) 16 old) (16 * hw)) st)
  | AAdd w d n m => Some (putz w d (getz w st n + getz w st m) st)
  | ASub w d n m => Some (putz w d (getz w st n - getz w st m) st)
  | ASubs w d n m =>
    let a := getz w st n in let b := getz w st m in
    Some (set_flags (Some (sub_flags w a b)) (putz w d (a - b) st))
  | AAddImm w d n imm => Some (put w d (get w st n + imm) st)
  | ASubImm w d n imm => Some (put w d (get w st n - imm) st)
  | ASubsImm w d n imm =>
    let a := get w st n in
    Some (set_flags (Some (sub_flags w a imm)) (putz w d (a - imm) st))
  | AAnd w d n m => Some (putz w d (Z.land (getz w st n) (getz w st m)) st)
  | AOrr w sh d n m k => Some (putz w d (Z.lor (getz w st n) (shift_by sh w (getz w st m) k)) st)
  | AEor w d n m => Some (putz w d (Z.lxor (getz w st n) (getz w st m)) st)
  | AMadd w d n m a => Some (putz w d (getz w st a + getz w st n * getz w st m) st)
  | AMsub w d n m a => Some (putz w d (getz w st a - getz w st n * getz w st m) st)
  | ASdiv w d n m => Some (putz w d (sdiv w (getz w st n) (getz w st m)) st)
  | ALslv w d n m => Some (putz w d (Z.shiftl (getz w st n) (getz w st m mod bits w)) st)
  | ALsrv w d n m => Some (putz w d (Z.shiftr (getz w st n) (getz w st m mod bits w)) st)
  | ASxtw d n => Some (putz W64 d (sgn W32 (getz W32 st n)) st)
  | ACsinc w d n m c =>
    f ← flg st; Some (putz w d (if holds c f then getz w st n else getz w st m + 1) st)
  | ALdr w t n off => v ← aload (nbytes w) st n off; Some (putz w t v st)
  | AStr w t n off => astore (nbytes w) n off (getz w st t) st
  | ALdrb t n off => v ← aload 1 st n off; Some (putz W32 t v st)
  | AStrb t n off => astore 1 n off (getz W32 st t) st
  | AFldr w t n off => v ← aload (nbytes w) st n off; Some (put_fp w t v st)
  | AFstr w t n off => astore (nbytes w) n off (get_x w st t) st
  | AFop w op d n m => Some (put_fp w d (do_fop nan32 nan64 w op (get_x w st n) (get_x w st m)) st)
  | AFsqrt w d n => Some (put_fp w d (do_fop nan32 nan64 w FSqrt 0 (get_x w st n)) st)
  | AFneg w d n => Some (put_fp w d (fl_neg (fmt w) (get_x w st n)) st)
  | AFcmp w n m => Some (set_flags (Some (fcmp_flags (fmt w) (get_x w st n) (get_x w st m))) st)
  | ACbz w t off => Some (if getz w st t =? 0 then jump off else st)
  | ACbnz w t off => Some (if getz w st t =? 0 then st else jump off)
  | AB off => Some (jump off)
  | ABcond c off => f ← flg st; Some (if holds c f then jump off else st)
  | AStp t t2 n off =>
    l ← blocks_store 8 (mem st) (addr st n off) (getz W64 st t);
    l ← blocks_store 8 l (u64 (addr st n off + 8)) (getz W64 st t2);
    Some (put W64 n (regs st n + off) (set_mems l st))
  | ALdp t t2 n off =>
    v ← blocks_load 8 (mem st) (addr st n 0);
    v2 ← blocks_load 8 (mem st) (addr st n 8);
    Some (put W64 n (regs st n + off) (putz W64 t2 v2 (putz W64 t v st)))
  | ABl _ | AAdr _ _ | ABr _ | ABlr _ | ARet _ => None
  end.

(** One step: fetch the word at [ip], decode, advance, execute. *)
Definition a64_step (code : list Z) (st : cpu) : option cpu :=
  w ← mem_load 4 code (ip st);
  i ← a64_decode w;
  exec_a64 i (set_ip (ip st + 4) st).

Fixpoint a64_steps (n : nat) (code : list Z) (st : cpu) : option cpu :=
  match n with
  | O => Some st
  | S n' => st' ← a64_step code st; a64_steps n' code st'
  end.

(** Some number of steps. *)
Definition a64_runs (code : list Z) (st st' : cpu) : Prop := exists n, a64_steps n code st = Some st'.
End Exec.
