(* ===== verification/A64Thms.v ===== *)
(** * The A64 encoders emit the instructions they are named after

    [a64_encodes] lists, encoder by encoder, the instruction meant; [a64_encoders_decode] is
    the round trip through the word.  Fields of a word built with shifts and ors are
    computed by the tactic [solve_field]. *)

From S2P Require Import Prelude CInt Memory Float ArithThms X64 X64Sem X64Thms A64 A64Sem.
#[local] Open Scope list_scope.
#[local] Open Scope Z_scope.

(** ** Fields of a word *)

Lemma field_lor lo len a b : 0 <= len -> field lo len (Z.lor a b) = Z.lor (field lo len a) (field lo len b).
Proof. intros. unfold field. by rewrite Z.shiftr_lor, <- !Z.land_ones, Z.land_lor_distr_l by done. Qed.

(** A part that lies below, above, or just in the field. *)
Lemma field_shl n lo len x k : is_u n x -> 0 <= n -> 0 <= k -> 0 <= lo -> 0 <= len ->
  field lo len (Z.shiftl x k) =
  if k + n <=? lo then 0 else if lo + len <=? k then 0 else if (k =? lo) && (n <=? len) then x
  else field lo len (Z.shiftl x k).
Proof.
  intros Hx Hn Hk Hlo Hlen. unfold field, is_u in *.
  destruct (Z.leb_spec (k + n) lo) as [H|H]; [|destruct (Z.leb_spec (lo + len) k) as [H'|H']].
  - rewrite Z.shiftr_div_pow2, Z.shiftl_mul_pow2, Z.div_small, Z.mod_0_l; try lia.
    split; [nia|]. apply Z.lt_le_trans with (2 ^ (k + n)); [rewrite Z.pow_add_r by lia; nia | apply Z.pow_le_mono_r; lia].
  - rewrite Z.shiftr_shiftl_l by lia. rewrite Z.shiftl_mul_pow2 by lia.
    replace (k - lo) with (k - lo - len + len) by lia. rewrite Z.pow_add_r, Z.mul_assoc by lia. apply Z.mod_mul. lia.
  - destruct (Z.eqb_spec k lo) as [->|]; [|done]. destruct (Z.leb_spec n len); [|done]. cbn [andb].
    rewrite Z.shiftr_shiftl_l, Z.sub_diag, Z.shiftl_0_r by lia. apply Z.mod_small.
    pose proof (Z.pow_le_mono_r 2 n len). lia.
Qed.

Lemma field_low n lo len x : is_u n x -> 0 <= n -> 0 <= lo -> 0 <= len ->
  field lo len x = if n <=? lo then 0 else if (0 =? lo) && (n <=? len) then x else field lo len x.
Proof.
  intros Hx Hn Hlo Hlen. pose proof (field_shl n lo len x 0 Hx Hn) as H. rewrite Z.shiftl_0_r, Z.add_0_l in H.
  rewrite H at 1 by lia. destruct (n <=? lo); [done|]. destruct (Z.leb_spec (lo + len) 0); [|done].
  assert (lo = 0 /\ len = 0) as [-> ->] by lia. cbn [Z.eqb andb]. destruct (n <=? 0) eqn:E; [|unfold field; by rewrite Z.mod_1_r].
  assert (n = 0) as -> by lia. unfold is_u in Hx. change (2 ^ 0) with 1 in Hx. lia.
Qed.

Ltac is_pos p := lazymatch p with xI ?q => is_pos q | xO ?q => is_pos q | xH => idtac end.
Ltac is_num z := lazymatch z with Z0 => idtac | Zpos ?p => is_pos p | Zneg ?p => is_pos p end.

(** Evaluates the tests of [field_shl]. *)
Ltac eval_ifs :=
  repeat match goal with
  | |- context [if ?b then _ else _] => let v := eval vm_compute in b in
    lazymatch v with true => idtac | false => idtac end; change b with v; cbv iota
  end.

(** [field lo len w = ?v] for a word made of numbers and of variables with an [is_u]. *)
Ltac solve_field :=
  repeat (rewrite field_lor by done);
  repeat match goal with
  | |- context [field ?lo ?len ?z] => is_num z; let v := eval vm_compute in (field lo len z) in change (field lo len z) with v
  | H : is_u ?n ?x |- context [field ?lo ?len (Z.shiftl ?x ?k)] => rewrite (field_shl n lo len x k H) by done; eval_ifs
  | H : is_u ?n ?x |- context [field ?lo ?len ?x] => rewrite (field_low n lo len x H) by done; eval_ifs
  end;
  rewrite ?Z.lor_0_r, ?Z.lor_0_l; 
  repeat match goal with
  | |- context [Z.lor ?a ?b] => is_num a; is_num b; let v := eval vm_compute in (Z.lor a b) in change (Z.lor a b) with v
  end;
  reflexivity.

(** Computes the field looked at first, or unfolds what is next. *)
Ltac decode_step :=
  match goal with
  | |- (match field ?lo ?len ?w with _ => _ end) = _ =>
    let E := fresh in eassert (field lo len w = _) as E by solve_field; rewrite E; clear E; cbv beta iota
  | |- (if field ?lo ?len ?w =? _ then _ else _) = _ =>
    let E := fresh in eassert (field lo len w = _) as E by solve_field; rewrite E; clear E; cbv [Z.eqb Pos.eqb]; cbv iota
  | |- ?f _ = _ => unfold f; cbv zeta
  | |- ?f _ _ = _ => unfold f; cbv zeta
  end.

Ltac decode_word :=
  repeat decode_step; repeat (f_equal; []); repeat f_equal; try (unfold sfield; f_equal); solve_field.

(** ** The encoders *)

Abbreviation is_reg := (is_u 5).

(** The instruction each encoder stands for.  An offset or immediate is given by the value
    its bits hold. *)
Inductive a64_encodes : Z -> ainstr -> Prop :=
| enc_movz_w d imm hw : is_reg d -> is_u 16 imm -> is_u 2 hw -> a64_encodes (a64_movz_w d imm (16 * hw)) (AMovz W32 d imm hw)
| enc_movk_w d imm hw : is_reg d -> is_u 16 imm -> is_u 2 hw -> a64_encodes (a64_movk_w d imm (16 * hw)) (AMovk W32 d imm hw)
| enc_movz_x d imm : is_reg d -> is_u 16 imm -> a64_encodes (mov_x_imm 0xD2800000 d imm) (AMovz W64 d imm 0)
| enc_movk_x d imm hw : is_reg d -> is_u 16 imm -> is_u 2 hw ->
  a64_encodes (mov_x_imm (0xF2800000 + 0x200000 * hw) d imm) (AMovk W64 d imm hw)
| enc_add_w d n m : is_reg d -> is_reg n -> is_reg m -> a64_encodes (a64_add_w_rr d n m) (AAdd W32 d n m)
| enc_sub_w d n m : is_reg d -> is_reg n -> is_reg m -> a64_encodes (a64_sub_w_rr d n m) (ASub W32 d n m)
| enc_subs_w d n m : is_reg d -> is_reg n -> is_reg m -> a64_encodes (a64_subs_w_rr d n m) (ASubs W32 d n m)
| enc_add_x d n m : is_reg d -> is_reg n -> is_reg m -> a64_encodes (a64_add_x_rr d n m) (AAdd W64 d n m)
| enc_sub_x d n m : is_reg d -> is_reg n -> is_reg m -> a64_encodes (a64_sub_x_rr d n m) (ASub W64 d n m)
| enc_subs_x d n m : is_reg d -> is_reg n -> is_reg m -> a64_encodes (a64_subs_x_rr d n m) (ASubs W64 d n m)
| enc_add_w_imm d n k : is_reg d -> is_reg n -> is_u 12 k -> a64_encodes (a64_add_w_imm d n k) (AAddImm W32 d n k)
| enc_sub_w_imm d n k : is_reg d -> is_reg n -> is_u 12 k -> a64_encodes (a64_sub_w_imm d n k) (ASubImm W32 d n k)
| enc_sub_x_imm d n k : is_reg d -> is_reg n -> is_u 12 k -> a64_encodes (a64_sub_x_imm d n k) (ASubImm W64 d n k)
| enc_cmp_w_imm n k : is_reg n -> is_u 12 k -> a64_encodes (a64_cmp_w_imm n k) (ASubsImm W32 31 n k)
| enc_cmp_w_imm0 n : is_reg n -> a64_encodes (a64_cmp_w_imm0 n) (ASubsImm W32 31 n 0)
| enc_neg_w d m : is_reg d -> is_reg m -> a64_encodes (a64_neg_w d m) (ASub W32 d 31 m)
| enc_neg_x d m : is_reg d -> is_reg m -> a64_encodes (a64_neg_x d m) (ASub W64 d 31 m)
| enc_and_w d n m : is_reg d -> is_reg n -> is_reg m -> a64_encodes (a64_and_w_rr d n m) (AAnd W32 d n m)
| enc_orr_w d n m : is_reg d -> is_reg n -> is_reg m -> a64_encodes (a64_orr_w_rr d n m) (AOrr W32 LSL d n m 0)
| enc_orr_x d n m : is_reg d -> is_reg n -> is_reg m -> a64_encodes (a64_orr_x_rr d n m) (AOrr W64 LSL d n m 0)
| enc_eor_w d n m : is_reg d -> is_reg n -> is_reg m -> a64_encodes (a64_eor_w_rr d n m) (AEor W32 d n m)
| enc_eor_x d n m : is_reg d -> is_reg n -> is_reg m -> a64_encodes (a64_eor_x_rr d n m) (AEor W64 d n m)
| enc_mov_w d m : is_reg d -> is_reg m -> a64_encodes (a64_mov_w_rr d m) (AOrr W32 LSL d 31 m 0)
| enc_mov_x d m : is_reg d -> is_reg m -> a64_encodes (a64_mov_x_rr d m) (AOrr W64 LSL d 31 m 0)
| enc_lsl_w d m k : is_reg d -> is_reg m -> is_u 6 k -> a64_encodes (a64_lsl_w_imm d m k) (AOrr W32 LSL d 31 m k)
| enc_lsl_x d m k : is_reg d -> is_reg m -> is_u 6 k -> a64_encodes (a64_lsl_x_imm d m k) (AOrr W64 LSL d 31 m k)
| enc_lsr_w d m k : is_reg d -> is_reg m -> is_u 6 k -> a64_encodes (a64_lsr_w_imm d m k) (AOrr W32 LSR d 31 m k)
| enc_lsr_x d m k : is_reg d -> is_reg m -> is_u 6 k -> a64_encodes (a64_lsr_x_imm d m k) (AOrr W64 LSR d 31 m k)
| enc_mul_w d n m : is_reg d -> is_reg n -> is_reg m -> a64_encodes (a64_mul_w d n m) (AMadd W32 d n m 31)
| enc_mul_x d n m : is_reg d -> is_reg n -> is_reg m -> a64_encodes (a64_mul_x d n m) (AMadd W64 d n m 31)
| enc_msub_w d n m a : is_reg d -> is_reg n -> is_reg m -> is_reg a -> a64_encodes (a64_msub_w d n m a) (AMsub W32 d n m a)
| enc_msub_x d n m a : is_reg d -> is_reg n -> is_reg m -> is_reg a -> a64_encodes (a64_msub_x d n m a) (AMsub W64 d n m a)
| enc_sdiv_w d n m : is_reg d -> is_reg n -> is_reg m -> a64_encodes (a64_sdiv_w d n m) (ASdiv W32 d n m)
| enc_sdiv_x d n m : is_reg d -> is_reg n -> is_reg m -> a64_encodes (a64_sdiv_x d n m) (ASdiv W64 d n m)
| enc_lslv_w d n m : is_reg d -> is_reg n -> is_reg m -> a64_encodes (a64_lslv_w d n m) (ALslv W32 d n m)
| enc_lslv_x d n m : is_reg d -> is_reg n -> is_reg m -> a64_encodes (a64_lslv_x d n m) (ALslv W64 d n m)
| enc_lsrv_w d n m : is_reg d -> is_reg n -> is_reg m -> a64_encodes (a64_lsrv_w d n m) (ALsrv W32 d n m)
| enc_lsrv_x d n m : is_reg d -> is_reg n -> is_reg m -> a64_encodes (a64_lsrv_x d n m) (ALsrv W64 d n m)
| enc_sxtw d n : is_reg d -> is_reg n -> a64_encodes (sxtw d n) (ASxtw d n)
| enc_cset d c : is_reg d -> is_u 4 c -> a64_encodes (a64_cset_w d c) (ACsinc W32 d 31 31 (Z.lxor c 1))
| enc_ldr_w t n k : is_reg t -> is_reg n -> is_u 12 k -> a64_encodes (a64_ldr_w_uimm t n (4 * k)) (ALdr W32 t n (4 * k))
| enc_str_w t n k : is_reg t -> is_reg n -> is_u 12 k -> a64_encodes (a64_str_w_uimm t n (4 * k)) (AStr W32 t n (4 * k))
| enc_ldr_x t n k : is_reg t -> is_reg n -> is_u 12 k -> a64_encodes (a64_ldr_x_uimm t n (8 * k)) (ALdr W64 t n (8 * k))
| enc_str_x t n k : is_reg t -> is_reg n -> is_u 12 k -> a64_encodes (a64_str_x_uimm t n (8 * k)) (AStr W64 t n (8 * k))
| enc_ldrb t n k : is_reg t -> is_reg n -> is_u 12 k -> a64_encodes (a64_ldrb_w_uimm t n k) (ALdrb t n k)
| enc_strb t n k : is_reg t -> is_reg n -> is_u 12 k -> a64_encodes (a64_strb_w_uimm t n k) (AStrb t n k)
| enc_ldr_d t n k : is_reg t -> is_reg n -> is_u 12 k -> a64_encodes (a64_ldr_d_uimm t n (8 * k)) (AFldr W64 t n (8 * k))
| enc_str_d t n k : is_reg t -> is_reg n -> is_u 12 k -> a64_encodes (a64_str_d_uimm t n (8 * k)) (AFstr W64 t n (8 * k))
| enc_ldr_s t n k : is_reg t -> is_reg n -> is_u 12 k -> a64_encodes (a64_ldr_s_uimm t n (4 * k)) (AFldr W32 t n (4 * k))
| enc_str_s t n k : is_reg t -> is_reg n -> is_u 12 k -> a64_encodes (a64_str_s_uimm t n (4 * k)) (AFstr W32 t n (4 * k))
| enc_fadd_d d n m : is_reg d -> is_reg n -> is_reg m -> a64_encodes (a64_fadd_d d n m) (AFop W64 FAdd d n m)
| enc_fsub_d d n m : is_reg d -> is_reg n -> is_reg m -> a64_encodes (a64_fsub_d d n m) (AFop W64 FSub d n m)
| enc_fmul_d d n m : is_reg d -> is_reg n -> is_reg m -> a64_encodes (a64_fmul_d d n m) (AFop W64 FMul d n m)
| enc_fdiv_d d n m : is_reg d -> is_reg n -> is_reg m -> a64_encodes (a64_fdiv_d d n m) (AFop W64 FDiv d n m)
| enc_fadd_s d n m : is_reg d -> is_reg n -> is_reg m -> a64_encodes (a64_fadd_s d n m) (AFop W32 FAdd d n m)
| enc_fsub_s d n m : is_reg d -> is_reg n -> is_reg m -> a64_encodes (a64_fsub_s d n m) (AFop W32 FSub d n m)
| enc_fmul_s d n m : is_reg d -> is_reg n -> is_reg m -> a64_encodes (a64_fmul_s d n m) (AFop W32 FMul d n m)
| enc_fdiv_s d n m : is_reg d -> is_reg n -> is_reg m -> a64_encodes (a64_fdiv_s d n m) (AFop W32 FDiv d n m)
| enc_fsqrt_d d n : is_reg d -> is_reg n -> a64_encodes (a64_fsqrt_d d n) (AFsqrt W64 d n)
| enc_fneg_d d n : is_reg d -> is_reg n -> a64_encodes (a64_fneg_d d n) (AFneg W64 d n)
| enc_fneg_s d n : is_reg d -> is_reg n -> a64_encodes (a64_fneg_s d n) (AFneg W32 d n)
| enc_fcmp_d n m : is_reg n -> is_reg m -> a64_encodes (a64_fcmp_d n m) (AFcmp W64 n m)
| enc_fcmp_s n m : is_reg n -> is_reg m -> a64_encodes (a64_fcmp_s n m) (AFcmp W32 n m)
| enc_cbz_x t k : is_reg t -> is_s 19 k -> a64_encodes (a64_cbz_x t k) (ACbz W64 t (4 * k))
| enc_cbz_w t k : is_reg t -> is_s 19 k -> a64_encodes (a64_cbz_w t k) (ACbz W32 t (4 * k))
| enc_cbnz_x t k : is_reg t -> is_s 19 k -> a64_encodes (a64_cbnz_x t k) (ACbnz W64 t (4 * k))
| enc_cbnz_w t k : is_reg t -> is_s 19 k -> a64_encodes (a64_cbnz_w t k) (ACbnz W32 t (4 * k))
| enc_b_eq k : is_s 19 k -> a64_encodes (a64_b_eq k) (ABcond 0 (4 * k))
| enc_b_ne k : is_s 19 k -> a64_encodes (a64_b_ne k) (ABcond 1 (4 * k))
| enc_b_hs k : is_s 19 k -> a64_encodes (a64_b_hs k) (ABcond 2 (4 * k))
| enc_b k : is_s 26 k -> a64_encodes (a64_b k) (AB (4 * k))
| enc_bl k : is_s 26 k -> a64_encodes (a64_bl k) (ABl (4 * k))
| enc_adr d k : is_reg d -> is_s 21 k -> a64_encodes (a64_adr d k) (AAdr d k)
| enc_stp t t2 n k : is_reg t -> is_reg t2 -> is_reg n -> is_s 7 k -> a64_encodes (a64_stp_xpre t t2 n k) (AStp t t2 n (8 * k))
| enc_ldp t t2 n k : is_reg t -> is_reg t2 -> is_reg n -> is_s 7 k -> a64_encodes (a64_ldp_xpost t t2 n k) (ALdp t t2 n (8 * k))
| enc_ret : a64_encodes a64_ret (ARet 30)
| enc_blr_x16 : a64_encodes blr_x16 (ABlr 16)
| enc_br_x16 : a64_encodes br_x16 (ABr 16)
| enc_mov_x29_sp : a64_encodes mov_x29_sp (AAddImm W64 29 31 0)
| enc_mov_x19_x0 : a64_encodes mov_x19_x0 (AOrr W64 LSL 19 31 0 0)
| enc_mov_x0_x19 : a64_encodes mov_x0_x19 (AOrr W64 LSL 0 31 19 0).

(** ** Immediates *)

Lemma u32_shl_in n x k : is_u n x -> 0 <= n -> 0 <= k -> n + k <= 32 -> u32 (Z.shiftl x k) = Z.shiftl x k.
Proof.
  intros Hx Hn Hk Hs. apply Z.mod_small. rewrite Z.shiftl_mul_pow2 by done. unfold is_u in Hx.
  pose proof (Z.pow_le_mono_r 2 (n + k) 32 ltac:(lia) Hs) as H. rewrite Z.pow_add_r in H by done. nia.
Qed.

(** The low [n] bits of a signed number, as unknown bits with its value. *)
Lemma low_bits n mask k : 0 < n <= 32 -> mask = 2 ^ n - 1 -> is_s n k ->
  exists x, Z.land (u32 k) mask = x /\ is_u n x /\ wrapS n x = k.
Proof.
  intros Hn -> Hk. exists (wrapU n k). split_and!.
  - replace (2 ^ n - 1) with (Z.ones n) by (rewrite Z.ones_equiv; lia). rewrite Z.land_ones by lia.
    change (u32 k mod 2 ^ n) with (wrapU n (wrapU 32 k)). by rewrite wrapU_wrapU_le by lia.
  - apply wrapU_range. lia.
  - rewrite wrapS_wrapU by lia. apply wrapS_id; [lia | done].
Qed.

Lemma land_in n mask k : 0 <= n -> mask = 2 ^ n - 1 -> is_u n k -> Z.land k mask = k.
Proof.
  intros Hn -> Hk. replace (2 ^ n - 1) with (Z.ones n) by (rewrite Z.ones_equiv; lia).
  rewrite Z.land_ones by done. by apply Z.mod_small.
Qed.

(** The bits of a signed immediate and of a scaled offset, as unknown bits. *)
Ltac open_imm :=
  repeat match goal with
  | H : is_s ?n ?k |- context [Z.land (u32 ?k) ?mask] =>
    let E := fresh in let x := fresh "x" in let Hw := fresh in
    destruct (low_bits n mask k) as (x & E & ? & Hw); [lia | reflexivity | exact H |]; rewrite E, <- ?Hw; clear E
  | H : is_u ?n ?k |- context [Z.land ?k ?mask] => rewrite (land_in n mask k) by (done || lia)
  | H : is_u ?n ?k |- context [?c * ?k / ?c] => replace (c * k / c) with k by (rewrite (Z.mul_comm c k), Z.div_mul; lia)
  | H : is_u ?n ?x |- context [u32 (Z.shiftl ?x ?k)] => rewrite (u32_shl_in n x k H) by lia
  end.

(** Down to numbers, shifts and ors. *)
Ltac open_word :=
  cbv beta delta [a64_movz_w a64_movk_w a64_mov_wide mov_x_imm rrr rri rr branch19 shifted pair
    a64_add_w_rr a64_sub_w_rr a64_subs_w_rr a64_add_x_rr a64_sub_x_rr a64_subs_x_rr a64_add_w_imm a64_sub_w_imm
    a64_sub_x_imm a64_cmp_w_imm a64_cmp_w_imm0 a64_neg_w a64_neg_x a64_and_w_rr a64_orr_w_rr a64_orr_x_rr
    a64_eor_w_rr a64_eor_x_rr a64_mov_w_rr a64_mov_x_rr a64_lsl_w_imm a64_lsl_x_imm a64_lsr_w_imm a64_lsr_x_imm
    a64_mul_w a64_mul_x a64_msub a64_msub_w a64_msub_x a64_sdiv_w a64_sdiv_x a64_lslv_w a64_lslv_x a64_lsrv_w
    a64_lsrv_x sxtw a64_cset_w a64_ldr_w_uimm a64_str_w_uimm a64_ldr_x_uimm a64_str_x_uimm a64_ldrb_w_uimm
    a64_strb_w_uimm a64_ldr_d_uimm a64_str_d_uimm a64_ldr_s_uimm a64_str_s_uimm a64_fadd_d a64_fsub_d a64_fmul_d
    a64_fdiv_d a64_fadd_s a64_fsub_s a64_fmul_s a64_fdiv_s a64_fsqrt_d a64_fneg_d a64_fneg_s a64_fcmp_d a64_fcmp_s
    a64_cbz_x a64_cbz_w a64_cbnz_x a64_cbnz_w a64_b_eq a64_b_ne a64_b_hs a64_b a64_bl a64_stp_xpre a64_ldp_xpost];
  open_imm.

(** The conditions of [CSET] and the two parts of the offset of [ADR]. *)
Lemma inverse_cond c : is_u 4 c -> u8 (Z.lxor c 1) = Z.lxor c 1 /\ is_u 4 (Z.lxor c 1).
Proof.
  intros Hc. assert (H : is_u 4 (Z.lxor c 1)).
  { rewrite <- (wrapU_id 4 c Hc), <- (wrapU_id 4 1) by done. rewrite <- wrapU_lxor by lia. apply wrapU_range. lia. }
  split; [|done]. apply wrapU_id. unfold is_u in *. change (2 ^ 4) with 16 in H. lia.
Qed.

Lemma adr_parts k : is_s 21 k ->
  exists lo hi, Z.land (u32 k) 3 = lo /\ Z.land (Z.shiftr (u32 k) 2) 0x7FFFF = hi /\ is_u 2 lo /\ is_u 19 hi /\
    wrapS 21 (4 * hi + lo) = k.
Proof.
  intros Hk. exists (u32 k mod 4), ((u32 k / 4) mod 2 ^ 19).
  change 3 with (Z.ones 2). change 0x7FFFF with (Z.ones 19). rewrite !Z.land_ones, Z.shiftr_div_pow2 by done.
  split_and!; [done | done | apply Z.mod_pos_bound; lia | apply Z.mod_pos_bound; lia|].
  assert (E : wrapU 21 (4 * ((u32 k / 4) mod 2 ^ 19) + u32 k mod 4) = wrapU 21 k).
  { unfold u32, wrapU. zdiv. }
  rewrite <- (wrapS_wrapU 21) by lia. rewrite E, wrapS_wrapU by lia. apply wrapS_id; [lia | done].
Qed.

Lemma small_cases k : is_u 2 k -> k = 0 \/ k = 1 \/ k = 2 \/ k = 3.
Proof. unfold is_u. change (2 ^ 2) with 4. lia. Qed.

Lemma adr_decode d k : is_reg d -> is_s 21 k -> a64_decode (a64_adr d k) = Some (AAdr d k).
Proof.
  intros Hd Hk. unfold a64_adr. destruct (adr_parts k Hk) as (lo & hi & -> & -> & Hlo & Hhi & E).
  assert (Hw : a64_decode (Z.lor (Z.lor (Z.lor 0x10000000 (Z.shiftl lo 29)) (Z.shiftl hi 5)) d) =
    Some (AAdr d (wrapS 21 (4 * hi + lo)))); [|by rewrite Hw, E].
  destruct (small_cases lo Hlo) as [-> | [-> | [-> | ->]]];
    match goal with |- context [Z.shiftl ?a 29] => let v := eval vm_compute in (Z.shiftl a 29) in change (Z.shiftl a 29) with v end;
    clear Hlo E Hk; decode_word.
Qed.

Lemma cset_decode d c : is_reg d -> is_u 4 c -> a64_decode (a64_cset_w d c) = Some (ACsinc W32 d 31 31 (Z.lxor c 1)).
Proof.
  intros Hd Hc. unfold a64_cset_w. destruct (inverse_cond c Hc) as [-> Hi]. clear Hc. revert Hi.
  generalize (Z.lxor c 1) as x. intros x Hx. change (Z.shiftl 1 10) with 0x400. change (Z.shiftl 31 16) with 0x1F0000.
  change (Z.shiftl 31 5) with 0x3E0. decode_word.
Qed.

Lemma movk_x_decode d imm hw : is_reg d -> is_u 16 imm -> is_u 2 hw ->
  a64_decode (mov_x_imm (0xF2800000 + 0x200000 * hw) d imm) = Some (AMovk W64 d imm hw).
Proof.
  intros Hd Hi Hh. destruct (small_cases hw Hh) as [-> | [-> | [-> | ->]]]; clear Hh; open_word;
    match goal with |- context [?a + ?b * ?c] => let v := eval vm_compute in (a + b * c) in change (a + b * c) with v end;
    decode_word.
Qed.

Lemma a64_encodes_decode w i : a64_encodes w i -> a64_decode w = Some i.
Proof.
  intros H. destruct H.
  all: lazymatch goal with
    | |- a64_decode (mov_x_imm (_ + _) _ _) = _ => by apply movk_x_decode
    | |- a64_decode (a64_cset_w _ _) = _ => by apply cset_decode
    | |- a64_decode (a64_adr _ _) = _ => by apply adr_decode
    | H : _ |- _ => open_word; decode_word
    | |- _ => reflexivity
    end.
Qed.

(** ** Words as bytes *)

Lemma is_u_lor n a b : 0 < n -> is_u n a -> is_u n b -> is_u n (Z.lor a b).
Proof. intros Hn Ha Hb. rewrite <- (wrapU_id n a Ha), <- (wrapU_id n b Hb), <- wrapU_lor by lia. apply wrapU_range. lia. Qed.

Lemma is_u_shl n m x k : is_u m x -> 0 <= m -> 0 <= k -> m + k <= n -> is_u n (Z.shiftl x k).
Proof.
  intros Hx Hm Hk Hs. rewrite Z.shiftl_mul_pow2 by done. unfold is_u in *.
  pose proof (Z.pow_le_mono_r 2 (m + k) n ltac:(lia) Hs) as H. rewrite Z.pow_add_r in H by done. nia.
Qed.

Lemma is_u_le n m x : is_u m x -> 0 <= m <= n -> is_u n x.
Proof. intros Hx Hs. unfold is_u in *. pose proof (Z.pow_le_mono_r 2 m n). lia. Qed.

Ltac word_range :=
  repeat (apply is_u_lor; [done | |]);
  lazymatch goal with
  | H : is_u ?m ?x |- is_u _ (Z.shiftl ?x _) => apply (is_u_shl _ m); done || lia
  | H : is_u ?m ?x |- is_u _ ?x => apply (is_u_le _ m); done || lia
  | |- _ => vm_compute; split; congruence
  end.

Lemma a64_encodes_word w i : a64_encodes w i -> is_u 32 w.
Proof.
  intros H. destruct H.
  all: lazymatch goal with
    | |- is_u _ (mov_x_imm (_ + _ * ?hw) _ _) => destruct (small_cases hw) as [-> | [-> | [-> | ->]]]; [done|..]
    | H : is_u 4 ?c |- _ => destruct (inverse_cond c H) as [E HE]; unfold a64_cset_w; rewrite E
    | H : is_s 21 ?k |- _ => destruct (adr_parts k H) as (lo & hi & E1 & E2 & ? & ? & ?); unfold a64_adr; rewrite E1, E2; cbv zeta
    | |- _ => idtac
    end; open_word; word_range.
Qed.

(** Every word an encoder answers, emitted behind any code, is there as four bytes
    that fetch, whatever follows them, and decode to the instruction the encoder is named
    after, for all registers, immediates and offsets that fit their fields. *)
Theorem a64_encoders_decode room w i buf buf' :
  a64_encodes w i -> jello_jit_emit_u32 room w buf = Some ((), buf') ->
  zlen buf' = zlen buf + 4 /\
  forall rest, mem_load 4 (buf' ++ rest) (zlen buf) = Some w /\ a64_decode w = Some i.
Proof.
  intros He E%emit_bytes_inv. subst buf'. split; [by rewrite zlen_app, zlen_le_bytes|]. intros rest.
  split; [|by apply a64_encodes_decode]. unfold mem_load. rewrite <- app_assoc.
  change (Z.of_nat 4) with (zlen (le_bytes 4 w)) at 1. rewrite read_middle.
  change (Some (le_value (le_bytes 4 w)) = Some w). rewrite le_value_bytes. f_equal.
  apply Z.mod_small, (a64_encodes_word w i He).
Qed.

(** [ldr x3, [x20, #40]] behind one word. *)
Lemma a64_encoders_decode_witness :
  zlen [1; 2; 3; 4; 0x83; 0x16; 0x40; 0xF9] = 8 /\
  forall rest, mem_load 4 ([1; 2; 3; 4; 0x83; 0x16; 0x40; 0xF9] ++ rest) 4 = Some (a64_ldr_x_uimm 3 20 40) /\
    a64_decode (a64_ldr_x_uimm 3 20 40) = Some (ALdr W64 3 20 40).
Proof.
  apply (a64_encoders_decode (fun _ => true) _ _ [1; 2; 3; 4]); [|reflexivity].
  apply (enc_ldr_x 3 20 5); unfold is_u; lia.
Defined.
