(* ===== verification/JitArm64.v ===== *)
(** * The arm64 code generator

    Model of src/src/jit/backend/arm64/jit_arm64_emit.c, in the monad of [X64].  The
    functions it repeats word for word from jit_x64_emit.c (kinds of registers, targets of
    branches, the map from bytecode positions, the hash of an atom) are those of
    [JitX64], as are the layout and the names of the helpers. *)

From S2P Require Import Prelude CInt Memory Bytecode Value Object Vm Frame JitIr X64 JitX64 A64.
#[local] Open Scope list_scope.
#[local] Open Scope Z_scope.

Definition JIT_REG_CTX := 19.
Definition JIT_REG_BASE := 20.
Definition JIT_REG_T0 := 21.
Definition JIT_REG_T1 := 22.
Definition JIT_REG_T2 := 23.
Definition JIT_REG_I32C := 24.
Definition JIT_FP_T0 := 0.
Definition JIT_FP_T1 := 1.

Definition JIT_X_KEYS := 10.
Definition JIT_X_VALS := 11.
Definition JIT_X_STATES := 12.
Definition JIT_X_MASK := 13.
Definition JIT_X_IDX := 14.
Definition JIT_X_TMP := 15.
Definition JIT_X_OBJ := JIT_REG_T1.
Definition JIT_X_BOX := 9.
Definition JIT_X_TOMB := 8.

(** ** Patches *)

(** [memcpy(&word, buf->data + at, 4u)], changed, and back. *)
Definition patch_word (at_ : Z) (change : Z -> Z) : E () := fun buf =>
  word ← mem_load 4 buf at_; buf' ← mem_store 4 buf at_ (change word); Some ((), buf').

(** [(int32_t)(((int64_t)target - (int64_t)at) / 4)]. *)
Definition insns_between (at_ target : Z) : Z := i32 (Z.quot (target - at_) 4).

Definition patch_branch (at_ target : Z) : E () :=
  patch_word at_ (fun word =>
    Z.lor (Z.land word 0xFC000000) (Z.land (u32 (insns_between at_ target)) 0x03FFFFFF)).

Definition patch_cb (at_ target : Z) : E () :=
  patch_word at_ (fun word =>
    Z.lor (Z.land word 0xFF00001F) (u32 (Z.shiftl (Z.land (u32 (insns_between at_ target)) 0x7FFFF) 5))).

Definition patch_adr (at_ target rd : Z) : E () :=
  size ← esize;
  _ ← efail_if (size <? at_ + 4);
  let imm := target - at_ in
  _ ← efail_if ((imm <? - 2 ^ 20) || (2 ^ 20 <=? imm));
  patch_word at_ (fun _ => a64_adr rd (i32 imm)).

Fixpoint patch_all (patch : Z -> Z -> E ()) (js : list Z) (target : Z) : E () :=
  match js with
  | [] => mret ()
  | j :: js' => _ ← patch j target; patch_all patch js' target
  end.

Section Codegen.
Context (room : Z -> bool) (fn_addr : helper -> Z) (lay : jello_jit_layout).
Context (m : jello_bc_module) (f : jello_bc_function) (layout : frame_layout).

Abbreviation emit := (jello_jit_emit_u32 room).
Abbreviation slot_off := (slot_off layout).

(** [at = buf->size; emit(word)]: the position is kept for a patch. *)
Definition emit_at (word : Z) : E Z := at_ ← esize; _ ← emit word; mret at_.

(** ** Constants *)

Definition emit_mov_w_imm (rd imm : Z) : E () :=
  if imm <=? 0xFFFF then emit (a64_movz_w rd (u16 imm) 0) else
  _ ← emit (a64_movz_w rd (Z.land imm 0xFFFF) 0);
  emit (a64_movk_w rd (Z.land (Z.shiftr imm 16) 0xFFFF) 16).

Definition part16 (val i : Z) : Z := Z.land (Z.shiftr val (16 * i)) 0xFFFF.

Definition emit_movk_part (base rd part : Z) : E () :=
  if part =? 0 then mret () else emit (mov_x_imm base rd part).

Definition emit_mov_x64 (rd val : Z) : E () :=
  _ ← emit (mov_x_imm 0xD2800000 rd (part16 val 0));
  _ ← emit_movk_part 0xF2A00000 rd (part16 val 1);
  _ ← emit_movk_part 0xF2C00000 rd (part16 val 2);
  emit_movk_part 0xF2E00000 rd (part16 val 3).

Definition emit_mov_x_imm (rd imm : Z) : E () :=
  if imm <=? 0xFFFF then emit (mov_x_imm 0xD2800000 rd imm) else emit_mov_x64 rd imm.

Definition emit_call_fn (fn : helper) : E () :=
  _ ← emit_mov_x64 16 (fn_addr fn); emit blr_x16.

(** MI for less, EQ for equal. *)
Definition fp_cset_cond (imm : Z) : Z := if is_cmp_lt imm then 4 else 0.

(** ** Frame slots *)

Definition bad_off (off : Z) : bool := (16380 <? off) || negb (off mod 8 =? 0).

Definition emit_load_frame_base : E () :=
  _ ← efail_if (bad_off (exec_ctx_fr lay));
  _ ← efail_if (bad_off (call_frame_rf_mem lay));
  _ ← emit (a64_ldr_x_uimm JIT_REG_T2 JIT_REG_CTX (exec_ctx_fr lay));
  emit (a64_ldr_x_uimm JIT_REG_BASE JIT_REG_T2 (call_frame_rf_mem lay)).

Definition emit_refresh_base : E () := emit_load_frame_base.

(** An access [acc reg base off] with the offset in the instruction, when it is aligned
    and small enough, or with the address in a scratch register. *)
Definition slot_access (acc : Z -> Z -> Z -> Z) (limit align rt base off : Z) : E () :=
  if (off <=? limit) && (off mod align =? 0) then emit (acc rt base off) else
  _ ← emit_mov_x_imm JIT_REG_T2 off;
  _ ← emit (a64_add_x_rr JIT_REG_T2 base JIT_REG_T2);
  emit (acc rt JIT_REG_T2 0).

Definition emit_ldr_w_slot := slot_access a64_ldr_w_uimm 16380 4.
Definition emit_str_w_slot := slot_access a64_str_w_uimm 16380 4.
Definition emit_ldr_x_slot := slot_access a64_ldr_x_uimm 32760 8.
Definition emit_str_x_slot := slot_access a64_str_x_uimm 32760 8.
Definition emit_ldr_d_slot := slot_access a64_ldr_d_uimm 32760 8.
Definition emit_str_d_slot := slot_access a64_str_d_uimm 32760 8.
Definition emit_ldr_s_slot := slot_access a64_ldr_s_uimm 16380 4.
Definition emit_str_s_slot := slot_access a64_str_s_uimm 16380 4.

Definition emit_ldr_x_field := slot_access a64_ldr_x_uimm 32760 8.
Definition emit_str_x_field := slot_access a64_str_x_uimm 32760 8.

(** ** Arithmetic on T0 and T1 *)

Definition emit_bin_i32 (bin : jello_jit_ir_bin) : E () :=
  match bin with
  | JIR_BIN_SUB => emit (a64_sub_w_rr JIT_REG_T0 JIT_REG_T0 JIT_REG_T1)
  | JIR_BIN_MUL => emit (a64_mul_w JIT_REG_T0 JIT_REG_T0 JIT_REG_T1)
  | JIR_BIN_SDIV => emit (a64_sdiv_w JIT_REG_T0 JIT_REG_T0 JIT_REG_T1)
  | JIR_BIN_MOD =>
    _ ← emit (a64_sdiv_w JIT_REG_T2 JIT_REG_T0 JIT_REG_T1);
    emit (a64_msub_w JIT_REG_T0 JIT_REG_T2 JIT_REG_T1 JIT_REG_T0)
  | JIR_BIN_SHL => emit (a64_lslv_w JIT_REG_T0 JIT_REG_T0 JIT_REG_T1)
  | JIR_BIN_SHR => emit (a64_lsrv_w JIT_REG_T0 JIT_REG_T0 JIT_REG_T1)
  | JIR_BIN_XOR => emit (a64_eor_w_rr JIT_REG_T0 JIT_REG_T0 JIT_REG_T1)
  | JIR_BIN_ADD => emit (a64_add_w_rr JIT_REG_T0 JIT_REG_T0 JIT_REG_T1)
  end.

Definition emit_bin_i64 (bin : jello_jit_ir_bin) : E () :=
  match bin with
  | JIR_BIN_SUB => emit (a64_sub_x_rr JIT_REG_T0 JIT_REG_T0 JIT_REG_T1)
  | JIR_BIN_MUL => emit (a64_mul_x JIT_REG_T0 JIT_REG_T0 JIT_REG_T1)
  | JIR_BIN_SDIV => emit (a64_sdiv_x JIT_REG_T0 JIT_REG_T0 JIT_REG_T1)
  | JIR_BIN_MOD =>
    _ ← emit (a64_sdiv_x JIT_REG_T2 JIT_REG_T0 JIT_REG_T1);
    emit (a64_msub_x JIT_REG_T0 JIT_REG_T2 JIT_REG_T1 JIT_REG_T0)
  | JIR_BIN_SHL => emit (a64_lslv_x JIT_REG_T0 JIT_REG_T0 JIT_REG_T1)
  | JIR_BIN_SHR => emit (a64_lsrv_x JIT_REG_T0 JIT_REG_T0 JIT_REG_T1)
  | JIR_BIN_XOR => emit (a64_eor_x_rr JIT_REG_T0 JIT_REG_T0 JIT_REG_T1)
  | JIR_BIN_ADD => emit (a64_add_x_rr JIT_REG_T0 JIT_REG_T0 JIT_REG_T1)
  end.

Definition emit_bin_f64 (bin : jello_jit_ir_bin) : E () :=
  match bin with
  | JIR_BIN_SUB => emit (a64_fsub_d JIT_FP_T0 JIT_FP_T0 JIT_FP_T1)
  | JIR_BIN_MUL => emit (a64_fmul_d JIT_FP_T0 JIT_FP_T0 JIT_FP_T1)
  | JIR_BIN_SDIV => emit (a64_fdiv_d JIT_FP_T0 JIT_FP_T0 JIT_FP_T1)
  | _ => emit (a64_fadd_d JIT_FP_T0 JIT_FP_T0 JIT_FP_T1)
  end.

Definition emit_bin_f32 (bin : jello_jit_ir_bin) : E () :=
  match bin with
  | JIR_BIN_SUB => emit (a64_fsub_s JIT_FP_T0 JIT_FP_T0 JIT_FP_T1)
  | JIR_BIN_MUL => emit (a64_fmul_s JIT_FP_T0 JIT_FP_T0 JIT_FP_T1)
  | JIR_BIN_SDIV => emit (a64_fdiv_s JIT_FP_T0 JIT_FP_T0 JIT_FP_T1)
  | _ => emit (a64_fadd_s JIT_FP_T0 JIT_FP_T0 JIT_FP_T1)
  end.

(** ** The register cache: W24 holds the last stored 32-bit slot *)

Definition emit_ldr_i32_cached (i32c src dst_phys : Z) : E () :=
  if i32c =? src then emit (a64_mov_w_rr dst_phys JIT_REG_I32C)
  else emit_ldr_w_slot dst_phys JIT_REG_BASE (slot_off src).

(** The new cached register. *)
Definition emit_str_i32_cached (dst src_phys : Z) : E Z :=
  _ ← emit_str_w_slot src_phys JIT_REG_BASE (slot_off dst);
  _ ← emit (a64_mov_w_rr JIT_REG_I32C src_phys);
  mret (u16 dst).

(** ** Prologue, epilogue, calls *)

Definition emit_prologue : E () :=
  _ ← emit (a64_stp_xpre 29 30 31 (-2));
  _ ← emit mov_x29_sp;
  _ ← emit (a64_stp_xpre 19 20 31 (-2));
  _ ← emit (a64_stp_xpre 21 22 31 (-2));
  _ ← emit (a64_stp_xpre 23 24 31 (-2));
  _ ← emit mov_x19_x0;
  _ ← emit_load_frame_base;
  _ ← efail_if (bad_off (exec_ctx_jit_resume_entry lay));
  _ ← emit (a64_ldr_x_uimm 16 JIT_REG_CTX (exec_ctx_jit_resume_entry lay));
  cb_at ← emit_at (a64_cbz_x 16 0);
  _ ← emit br_x16;
  cont ← esize;
  patch_cb cb_at cont.

Definition emit_restore_callee_saved : E () :=
  _ ← emit (a64_ldp_xpost 23 24 31 2);
  _ ← emit (a64_ldp_xpost 21 22 31 2);
  _ ← emit (a64_ldp_xpost 19 20 31 2);
  emit (a64_ldp_xpost 29 30 31 2).

Definition emit_epilogue (return_code : Z) : E () :=
  _ ← emit_mov_w_imm 0 return_code;
  _ ← emit_restore_callee_saved;
  emit a64_ret.

Definition emit_restore_and_ret : E () :=
  _ ← emit_restore_callee_saved; emit a64_ret.

(** Leaving the code unless W0 is CONTINUE. *)
Definition emit_leave_unless_continue : E () :=
  cb_at ← emit_at (a64_cbz_w 0 0);
  _ ← emit_restore_and_ret;
  cont ← esize;
  patch_cb cb_at cont.

Definition emit_rt_call_continue_keep_base (fn : helper) : E () :=
  _ ← emit_call_fn fn; emit_leave_unless_continue.

Definition emit_rt_call_continue (fn : helper) : E () :=
  _ ← emit_rt_call_continue_keep_base fn; emit_refresh_base.

(** The arguments of a helper: X0 is the context, then W1, W2, ... *)
Fixpoint emit_args (r : Z) (args : list Z) : E () :=
  match args with
  | [] => mret ()
  | x :: args' => _ ← emit_mov_w_imm r x; emit_args (r + 1) args'
  end.

Definition emit_ctx_args (args : list Z) : E () :=
  _ ← emit mov_x0_x19; emit_args 1 args.

Definition emit_helper (fn : helper) (args : list Z) : E () :=
  _ ← emit_ctx_args args; emit_rt_call_continue_keep_base fn.

Definition emit_inline_fuel_check : E () :=
  _ ← emit (a64_ldr_x_uimm 21 JIT_REG_CTX 0);
  _ ← emit_ldr_x_field 22 21 (vm_fuel_limit lay);
  skip_cb ← emit_at (a64_cbz_x 22 0);
  _ ← emit_ldr_x_field 22 21 (vm_fuel_remaining lay);
  trap_cb ← emit_at (a64_cbz_x 22 0);
  _ ← emit (a64_sub_x_imm 22 22 1);
  _ ← emit_str_x_field 22 21 (vm_fuel_remaining lay);
  b_done_at ← emit_at (a64_b 0);
  trap_at ← esize;
  _ ← emit mov_x0_x19;
  _ ← emit_call_fn jello_jit_runtime_fuel_trap;
  _ ← emit_restore_and_ret;
  done_at ← esize;
  _ ← patch_cb skip_cb done_at;
  _ ← patch_cb trap_cb trap_at;
  patch_branch b_done_at done_at.

(** ** Arrays of doubles *)

Definition emit_array_get_f64_helper (dst arr idx : Z) : E () :=
  emit_helper jello_jit_runtime_array_get [dst; arr; idx].

Definition emit_array_set_f64_helper (val arr idx : Z) : E () :=
  emit_helper jello_jit_runtime_array_set [val; arr; idx].

(** Null check, bounds check, the element into X9. *)
Definition emit_array_element (arr idx : Z) : E (list Z) :=
  _ ← emit_ldr_x_slot JIT_X_OBJ JIT_REG_BASE (slot_off arr);
  j0 ← emit_at (a64_cbz_x JIT_X_OBJ 0);
  _ ← emit_ldr_w_slot JIT_X_IDX JIT_REG_BASE (slot_off idx);
  _ ← emit (a64_ldr_w_uimm JIT_X_TMP JIT_X_OBJ JIT_ARRAY_OFF_LEN);
  _ ← emit (a64_subs_w_rr 31 JIT_X_IDX JIT_X_TMP);
  j1 ← emit_at (a64_b_hs 0);
  _ ← emit (a64_ldr_x_uimm JIT_X_TMP JIT_X_OBJ JIT_ARRAY_OFF_DATA);
  _ ← emit (a64_lsl_w_imm JIT_X_IDX JIT_X_IDX 3);
  _ ← emit (a64_add_x_rr JIT_X_TMP JIT_X_TMP JIT_X_IDX);
  _ ← emit (a64_ldr_x_uimm JIT_X_BOX JIT_X_TMP 0);
  _ ← emit_mov_w_imm 0 7;
  mret [j0; j1].

(** Jumps to the slow path unless the word in X9, whose tag is in [rt], is a box of kind
    [k]. *)
Definition emit_box_checks (rt : Z) (k : jello_obj_kind) : E (list Z) :=
  j0 ← emit_at (a64_cbnz_w rt 0);
  j1 ← emit_at (a64_cbz_x JIT_X_BOX 0);
  _ ← emit (a64_ldr_w_uimm 0 JIT_X_BOX 0);
  _ ← emit (a64_cmp_w_imm 0 (box_kind k));
  j2 ← emit_at (a64_b_ne 0);
  mret [j0; j1; j2].

Definition emit_array_get_f64 (dst arr idx : Z) : E () :=
  if negb (is_f64_elem m f dst arr) then emit_array_get_f64_helper dst arr idx else
  slow ← emit_array_element arr idx;
  _ ← emit (a64_and_w_rr JIT_X_TMP JIT_X_BOX 0);
  _ ← emit (a64_cmp_w_imm JIT_X_TMP JELLO_TAG_NULL);
  j2 ← emit_at (a64_b_eq 0);
  slow' ← emit_box_checks JIT_X_TMP JELLO_OBJ_BOX_F64;
  _ ← emit (a64_ldr_d_uimm JIT_FP_T0 JIT_X_BOX 8);
  _ ← emit_str_d_slot JIT_FP_T0 JIT_REG_BASE (slot_off dst);
  slow_at ← esize;
  _ ← patch_all patch_cb (slow ++ [j2] ++ slow') slow_at;
  emit_array_get_f64_helper dst arr idx.

Definition emit_array_set_f64 (val arr idx : Z) : E () :=
  if negb (is_f64_elem m f val arr) then emit_array_set_f64_helper val arr idx else
  slow ← emit_array_element arr idx;
  _ ← emit (a64_and_w_rr 1 JIT_X_BOX 0);
  slow' ← emit_box_checks 1 JELLO_OBJ_BOX_F64;
  _ ← emit_ldr_d_slot JIT_FP_T0 JIT_REG_BASE (slot_off val);
  _ ← emit (a64_str_d_uimm JIT_FP_T0 JIT_X_BOX 8);
  slow_at ← esize;
  _ ← patch_all patch_cb (slow ++ slow') slow_at;
  emit_array_set_f64_helper val arr idx.

(** ** Object properties *)

Definition emit_obj_get_atom_helper (dst obj atom_id : Z) : E () :=
  emit_helper jello_jit_runtime_obj_get_atom [dst; obj; atom_id].

Definition emit_obj_set_atom_helper (val obj atom_id : Z) : E () :=
  emit_helper jello_jit_runtime_obj_set_atom [val; obj; atom_id].

Definition emit_obj_new (dst : Z) : E () :=
  _ ← emit (a64_ldr_x_uimm 0 JIT_REG_CTX 0);              (* offsetof(exec_ctx, vm) *)
  _ ← emit (a64_ldr_x_uimm JIT_REG_T0 JIT_REG_CTX 16);    (* offsetof(exec_ctx, f) *)
  _ ← emit (a64_ldr_x_uimm JIT_REG_T0 JIT_REG_T0 8);      (* offsetof(jello_bc_function, reg_types) *)
  _ ← emit (a64_ldr_w_uimm 1 JIT_REG_T0 (u32 (dst * 4)));
  _ ← emit_call_fn jello_jit_object_new;
  emit_str_x_slot 0 JIT_REG_BASE (slot_off dst).

(** Keys, values, states and mask into X10 to X13, the first index into X14. *)
Definition emit_table_regs (h0 : Z) : E () :=
  _ ← emit (a64_ldr_x_uimm JIT_X_KEYS JIT_X_OBJ JIT_OBJ_OFF_KEYS);
  _ ← emit (a64_ldr_x_uimm JIT_X_VALS JIT_X_OBJ JIT_OBJ_OFF_VALS);
  _ ← emit (a64_ldr_x_uimm JIT_X_STATES JIT_X_OBJ JIT_OBJ_OFF_STATES);
  _ ← emit (a64_ldr_w_uimm JIT_X_MASK JIT_X_OBJ JIT_OBJ_OFF_CAP);
  _ ← emit (a64_sub_w_imm JIT_X_MASK JIT_X_MASK 1);
  _ ← emit_mov_w_imm JIT_X_IDX h0;
  emit (a64_and_w_rr JIT_X_IDX JIT_X_IDX JIT_X_MASK).

(** The jumps to the slow path. *)
Definition emit_obj_probe_setup (obj h0 : Z) (allow_empty_len_slow : bool) : E (list Z) :=
  _ ← emit_ldr_x_slot JIT_X_OBJ JIT_REG_BASE (slot_off obj);
  j0 ← emit_at (a64_cbz_x JIT_X_OBJ 0);
  _ ← emit (a64_ldr_w_uimm JIT_X_TMP JIT_X_OBJ JIT_OBJ_OFF_LEN);
  j1 ← (if allow_empty_len_slow then j ← emit_at (a64_cbz_w JIT_X_TMP 0); mret [j] else mret []);
  _ ← emit_table_regs h0;
  mret ([j0] ++ j1).

(** The jumps taken at an empty slot and on a hit; X8 keeps the first tombstone. *)
Definition emit_obj_probe_loop (atom_id : Z) (track_tomb : bool) : E (Z * Z) :=
  loop_at ← esize;
  _ ← emit (a64_add_x_rr JIT_X_TMP JIT_X_STATES JIT_X_IDX);
  _ ← emit (a64_ldrb_w_uimm 0 JIT_X_TMP 0);
  _ ← emit (a64_cmp_w_imm 0 JELLO_OBJ_SLOT_EMPTY);
  j_empty ← emit_at (a64_b_eq 0);
  _ ← emit (a64_cmp_w_imm 0 JELLO_OBJ_SLOT_OCCUPIED);
  j_tomb_or_next ← emit_at (a64_b_ne 0);
  _ ← emit (a64_lsl_w_imm JIT_X_TMP JIT_X_IDX 2);
  _ ← emit (a64_add_x_rr JIT_X_TMP JIT_X_KEYS JIT_X_TMP);
  _ ← emit (a64_ldr_w_uimm 0 JIT_X_TMP 0);
  _ ← emit (a64_cmp_w_imm 0 (u16 atom_id));
  j_hit ← emit_at (a64_b_eq 0);
  j_to_next ← emit_at (a64_b 0);
  tomb_at ← esize;
  _ ← patch_cb j_tomb_or_next tomb_at;
  _ ← (if track_tomb then
      _ ← emit_mov_w_imm 0 0xFFFFFFFF;
      _ ← emit (a64_subs_w_rr 31 JIT_X_TOMB 0);
      j_skip ← emit_at (a64_b_ne 0);
      _ ← emit (a64_mov_w_rr JIT_X_TOMB JIT_X_IDX);
      skip_at ← esize;
      patch_cb j_skip skip_at
    else mret ());
  next_at ← esize;
  _ ← patch_branch j_to_next next_at;
  _ ← emit (a64_add_w_imm JIT_X_IDX JIT_X_IDX 1);
  _ ← emit (a64_and_w_rr JIT_X_IDX JIT_X_IDX JIT_X_MASK);
  j_loop ← emit_at (a64_b 0);
  _ ← patch_branch j_loop loop_at;
  mret (j_empty, j_hit).

(** The tombstone, if there was one, is the slot of the insertion. *)
Definition emit_obj_insert_pick_slot : E () :=
  _ ← emit_mov_w_imm 0 0xFFFFFFFF;
  _ ← emit (a64_subs_w_rr 31 JIT_X_TOMB 0);
  j_keep ← emit_at (a64_b_eq 0);
  _ ← emit (a64_mov_w_rr JIT_X_IDX JIT_X_TOMB);
  keep_at ← esize;
  patch_cb j_keep keep_at.

(** X15 = the address of value X14. *)
Definition emit_value_addr : E () :=
  _ ← emit (a64_lsl_w_imm JIT_X_TMP JIT_X_IDX 3);
  emit (a64_add_x_rr JIT_X_TMP JIT_X_VALS JIT_X_TMP).

(** Unboxing of the value in X9, its tag in W15, into the slot of [dst]: the jumps to the
    miss path, to the slow path and to the end. *)
Definition emit_unbox (k : jello_type_kind) (dst : Z) : E (list Z * list Z * list Z) :=
  _ ← emit (a64_cmp_w_imm JIT_X_TMP JELLO_TAG_NULL);
  miss ← emit_at (a64_b_eq 0);
  match k with
  | JELLO_T_F64 =>
    slow ← emit_box_checks JIT_X_TMP JELLO_OBJ_BOX_F64;
    _ ← emit (a64_ldr_d_uimm JIT_FP_T0 JIT_X_BOX 8);
    _ ← emit_str_d_slot JIT_FP_T0 JIT_REG_BASE (slot_off dst);
    mret ([miss], slow, [])
  | JELLO_T_I8 | JELLO_T_I16 | JELLO_T_I32 =>
    _ ← emit (a64_cmp_w_imm JIT_X_TMP JELLO_TAG_I32);
    s0 ← emit_at (a64_b_ne 0);
    _ ← emit (a64_lsr_x_imm JIT_REG_T0 JIT_X_BOX 3);
    _ ← emit_str_w_slot JIT_REG_T0 JIT_REG_BASE (slot_off dst);
    mret ([miss], [s0], [])
  | JELLO_T_I64 =>
    _ ← emit (a64_cmp_w_imm JIT_X_TMP JELLO_TAG_I32);
    j_i32 ← emit_at (a64_b_eq 0);
    slow ← emit_box_checks JIT_X_TMP JELLO_OBJ_BOX_I64;
    _ ← emit (a64_ldr_x_uimm JIT_REG_T0 JIT_X_BOX 8);
    _ ← emit_str_x_slot JIT_REG_T0 JIT_REG_BASE (slot_off dst);
    d0 ← emit_at (a64_b 0);
    i32_at ← esize;
    _ ← patch_cb j_i32 i32_at;
    _ ← emit (a64_lsr_x_imm JIT_REG_T0 JIT_X_BOX 3);
    _ ← emit (sxtw JIT_REG_T0 JIT_REG_T0);
    _ ← emit_str_x_slot JIT_REG_T0 JIT_REG_BASE (slot_off dst);
    mret ([miss], slow, [d0])
  | _ =>
    s0 ← emit_at (a64_cbnz_w JIT_X_TMP 0);
    _ ← emit_str_x_slot JIT_X_BOX JIT_REG_BASE (slot_off dst);
    mret ([miss], [s0], [])
  end.

Definition emit_obj_get_atom (dst obj atom_id : Z) : E () :=
  let k := reg_kind m f dst in
  if negb (get_inline_ok k) || (0xFFF <? atom_id) then emit_obj_get_atom_helper dst obj atom_id else
  let need_proto := m_proto_enabled m && negb (atom_id =? JELLO_ATOM___PROTO__) in
  _ ← emit_ldr_x_slot JIT_X_OBJ JIT_REG_BASE (slot_off obj);
  s0 ← emit_at (a64_cbz_x JIT_X_OBJ 0);
  s1 ← (if need_proto then
      _ ← emit (a64_ldr_x_uimm JIT_X_TMP JIT_X_OBJ JIT_OBJ_OFF_PROTO);
      j ← emit_at (a64_cbnz_x JIT_X_TMP 0); mret [j]
    else mret []);
  _ ← emit (a64_ldr_w_uimm JIT_X_TMP JIT_X_OBJ JIT_OBJ_OFF_LEN);
  m0 ← emit_at (a64_cbz_w JIT_X_TMP 0);
  _ ← emit_table_regs (jit_obj_hash_u32 atom_id);
  '(j_empty, j_hit) ← emit_obj_probe_loop atom_id false;
  hit_at ← esize;
  _ ← patch_cb j_hit hit_at;
  _ ← emit_value_addr;
  _ ← emit (a64_ldr_x_uimm JIT_X_BOX JIT_X_TMP 0);
  _ ← emit_mov_w_imm 0 7;
  _ ← emit (a64_and_w_rr JIT_X_TMP JIT_X_BOX 0);
  '(misses, slows, dones) ← emit_unbox k dst;
  d0 ← emit_at (a64_b 0);
  miss_at ← esize;
  _ ← patch_all patch_cb ([m0; j_empty] ++ misses) miss_at;
  _ ← emit (a64_mov_x_rr JIT_REG_T0 31);
  _ ← (if is_small_int k then emit_str_w_slot JIT_REG_T0 JIT_REG_BASE (slot_off dst)
    else emit_str_x_slot JIT_REG_T0 JIT_REG_BASE (slot_off dst));
  d1 ← emit_at (a64_b 0);
  slow_at ← esize;
  _ ← patch_all patch_cb ([s0] ++ s1 ++ slows) slow_at;
  _ ← emit_obj_get_atom_helper dst obj atom_id;
  done_at ← esize;
  patch_all patch_branch (dones ++ [d0; d1]) done_at.

(** The store into the occupied entry whose value is at X15. *)
Definition emit_set_hit (k : jello_type_kind) (val : Z) : E (list Z) :=
  match k with
  | JELLO_T_F64 =>
    _ ← emit (a64_ldr_x_uimm JIT_X_BOX JIT_X_TMP 0);
    _ ← emit_mov_w_imm 0 7;
    _ ← emit (a64_and_w_rr 1 JIT_X_BOX 0);
    slow ← emit_box_checks 1 JELLO_OBJ_BOX_F64;
    _ ← emit_ldr_d_slot JIT_FP_T0 JIT_REG_BASE (slot_off val);
    _ ← emit (a64_str_d_uimm JIT_FP_T0 JIT_X_BOX 8);
    mret slow
  | JELLO_T_I64 =>
    _ ← emit (a64_ldr_x_uimm JIT_X_BOX JIT_X_TMP 0);
    _ ← emit_mov_w_imm 0 7;
    _ ← emit (a64_and_w_rr 1 JIT_X_BOX 0);
    slow ← emit_box_checks 1 JELLO_OBJ_BOX_I64;
    _ ← emit_ldr_x_slot JIT_REG_T0 JIT_REG_BASE (slot_off val);
    _ ← emit (a64_str_x_uimm JIT_REG_T0 JIT_X_BOX 8);
    mret slow
  | _ =>
    _ ← emit_ldr_w_slot JIT_REG_T0 JIT_REG_BASE (slot_off val);
    _ ← emit (a64_lsl_x_imm JIT_REG_T0 JIT_REG_T0 3);
    _ ← emit_mov_w_imm 0 JELLO_TAG_I32;
    _ ← emit (a64_orr_x_rr JIT_REG_T0 JIT_REG_T0 0);
    _ ← emit (a64_str_x_uimm JIT_REG_T0 JIT_X_TMP 0);
    mret []
  end.

(** The load-factor test of an insertion: the jump taken when the table must grow. *)
Definition emit_load_factor : E Z :=
  _ ← emit (a64_ldr_w_uimm 0 JIT_X_OBJ JIT_OBJ_OFF_LEN);
  _ ← emit (a64_add_w_imm 0 0 1);
  _ ← emit_mov_w_imm 1 JELLO_OBJECT_LOAD_NUM;
  _ ← emit (a64_mul_w 0 0 1);
  _ ← emit (a64_ldr_w_uimm 1 JIT_X_OBJ JIT_OBJ_OFF_CAP);
  _ ← emit_mov_w_imm JIT_X_TMP JELLO_OBJECT_LOAD_DEN;
  _ ← emit (a64_mul_w 1 1 JIT_X_TMP);
  _ ← emit (a64_subs_w_rr 31 0 1);
  emit_at (a64_b_hs 0).

Definition emit_obj_set_atom (val obj atom_id : Z) : E () :=
  let k := reg_kind m f val in
  if negb (set_inline_ok k) || (atom_id =? JELLO_ATOM___PROTO__) || (0xFFF <? atom_id)
  then emit_obj_set_atom_helper val obj atom_id else
  s0 ← emit_obj_probe_setup obj (jit_obj_hash_u32 atom_id) false;
  _ ← emit_mov_w_imm JIT_X_TOMB 0xFFFFFFFF;
  _ ← emit (a64_ldr_w_uimm JIT_X_TMP JIT_X_OBJ JIT_OBJ_OFF_LEN);
  i0 ← emit_at (a64_cbz_w JIT_X_TMP 0);
  '(j_empty, j_hit) ← emit_obj_probe_loop atom_id true;
  hit_at ← esize;
  _ ← patch_cb j_hit hit_at;
  _ ← emit_value_addr;
  slow_hit ← emit_set_hit k val;
  d0 ← emit_at (a64_b 0);
  insert_at ← esize;
  _ ← patch_all patch_cb [i0; j_empty] insert_at;
  _ ← emit_obj_insert_pick_slot;
  s2 ← emit_load_factor;
  _ ← emit_ctx_args [val; obj; atom_id];
  _ ← emit (a64_mov_w_rr 4 JIT_X_IDX);
  _ ← emit_rt_call_continue_keep_base jello_jit_runtime_obj_insert_atom;
  d1 ← emit_at (a64_b 0);
  slow_at ← esize;
  _ ← patch_all patch_cb (s0 ++ slow_hit ++ [s2]) slow_at;
  _ ← emit_obj_set_atom_helper val obj atom_id;
  done_at ← esize;
  patch_all patch_branch [d0; d1] done_at.

(** ** The instructions: each case answers the cached register after it *)

Definition emit_mov_reg (i32c : Z) (ir : jello_jit_ir_insn) : E Z :=
  if reg_slot_sz m f (ir_a ir) =? 8 then
    _ ← emit_ldr_x_slot JIT_REG_T0 JIT_REG_BASE (slot_off (ir_b ir));
    _ ← emit_str_x_slot JIT_REG_T0 JIT_REG_BASE (slot_off (ir_a ir));
    mret JIT_I32C_NONE
  else _ ← emit_ldr_i32_cached i32c (ir_b ir) JIT_REG_T0; emit_str_i32_cached (ir_a ir) JIT_REG_T0.

Definition emit_ir_bin_i32 (i32c : Z) (ir : jello_jit_ir_insn) : E Z :=
  let imm_rhs := bc_is f ir JOP_ADD_I32_IMM || bc_is f ir JOP_SUB_I32_IMM || bc_is f ir JOP_MUL_I32_IMM in
  let imm8 := i8 (ir_c ir) in
  let bop := bin_of_code (ir_imm ir) in
  let add_or_sub := match bop with JIR_BIN_ADD | JIR_BIN_SUB => true | _ => false end in
  _ ← emit_ldr_i32_cached i32c (ir_b ir) JIT_REG_T0;
  _ ← (if imm_rhs && add_or_sub && (0 <=? imm8) && (imm8 <=? 4095) then
      emit (match bop with
        | JIR_BIN_SUB => a64_sub_w_imm JIT_REG_T0 JIT_REG_T0 (u32 imm8)
        | _ => a64_add_w_imm JIT_REG_T0 JIT_REG_T0 (u32 imm8)
        end)
    else
      _ ← (if imm_rhs then emit_mov_w_imm JIT_REG_T1 (u32 imm8)
        else emit_ldr_i32_cached i32c (ir_c ir) JIT_REG_T1);
      emit_bin_i32 bop);
  emit_str_i32_cached (ir_a ir) JIT_REG_T0.

(** The operations that leave the cache alone. *)
Definition emit_ir_bin_i64 (ir : jello_jit_ir_insn) : E () :=
  _ ← emit_ldr_x_slot JIT_REG_T0 JIT_REG_BASE (slot_off (ir_b ir));
  _ ← emit_ldr_x_slot JIT_REG_T1 JIT_REG_BASE (slot_off (ir_c ir));
  _ ← emit_bin_i64 (bin_of_code (ir_imm ir));
  emit_str_x_slot JIT_REG_T0 JIT_REG_BASE (slot_off (ir_a ir)).

Definition emit_ir_bin_f64 (ir : jello_jit_ir_insn) : E () :=
  _ ← emit_ldr_d_slot JIT_FP_T0 JIT_REG_BASE (slot_off (ir_b ir));
  _ ← emit_ldr_d_slot JIT_FP_T1 JIT_REG_BASE (slot_off (ir_c ir));
  _ ← emit_bin_f64 (bin_of_code (ir_imm ir));
  emit_str_d_slot JIT_FP_T0 JIT_REG_BASE (slot_off (ir_a ir)).

Definition emit_ir_bin_f32 (ir : jello_jit_ir_insn) : E () :=
  _ ← emit_ldr_s_slot JIT_FP_T0 JIT_REG_BASE (slot_off (ir_b ir));
  _ ← emit_ldr_s_slot JIT_FP_T1 JIT_REG_BASE (slot_off (ir_c ir));
  _ ← emit_bin_f32 (bin_of_code (ir_imm ir));
  emit_str_s_slot JIT_FP_T0 JIT_REG_BASE (slot_off (ir_a ir)).

(** One operand in the first floating-point register. *)
Definition emit_un_d (word : Z) (ir : jello_jit_ir_insn) : E () :=
  _ ← emit_ldr_d_slot JIT_FP_T0 JIT_REG_BASE (slot_off (ir_b ir));
  _ ← emit word;
  emit_str_d_slot JIT_FP_T0 JIT_REG_BASE (slot_off (ir_a ir)).

Definition emit_un_s (word : Z) (ir : jello_jit_ir_insn) : E () :=
  _ ← emit_ldr_s_slot JIT_FP_T0 JIT_REG_BASE (slot_off (ir_b ir));
  _ ← emit word;
  emit_str_s_slot JIT_FP_T0 JIT_REG_BASE (slot_off (ir_a ir)).

Definition emit_load_x (ir : jello_jit_ir_insn) (c : Z) : E () :=
  _ ← emit_mov_x64 JIT_REG_T0 c; emit_str_x_slot JIT_REG_T0 JIT_REG_BASE (slot_off (ir_a ir)).

Definition emit_pool (n : Z) (pool : list Z) (ir : jello_jit_ir_insn) : E () :=
  let idx := u32 (ir_imm ir) in
  if n <=? idx then efail else emit_load_x ir (u64 (zget 0 pool idx)).

Definition emit_load_f32 (ir : jello_jit_ir_insn) : E () :=
  _ ← emit_mov_w_imm JIT_REG_T0 (u32 (ir_imm ir));
  emit_str_w_slot JIT_REG_T0 JIT_REG_BASE (slot_off (ir_a ir)).

Definition emit_neg_i32 (i32c : Z) (ir : jello_jit_ir_insn) : E Z :=
  _ ← emit_ldr_i32_cached i32c (ir_b ir) JIT_REG_T0;
  _ ← emit (a64_neg_w JIT_REG_T0 JIT_REG_T0);
  emit_str_i32_cached (ir_a ir) JIT_REG_T0.

Definition emit_neg_i64 (ir : jello_jit_ir_insn) : E () :=
  _ ← emit_ldr_x_slot JIT_REG_T0 JIT_REG_BASE (slot_off (ir_b ir));
  _ ← emit (a64_neg_x JIT_REG_T0 JIT_REG_T0);
  emit_str_x_slot JIT_REG_T0 JIT_REG_BASE (slot_off (ir_a ir)).

(** LT or EQ. *)
Definition int_cset_cond (imm : Z) : Z := if is_cmp_lt imm then 11 else 0.

Definition emit_cmp_i32 (i32c : Z) (ir : jello_jit_ir_insn) : E Z :=
  let rhs_is_imm := bc_is f ir JOP_EQ_I32_IMM || bc_is f ir JOP_LT_I32_IMM in
  let imm8 := i8 (ir_c ir) in
  _ ← emit_ldr_i32_cached i32c (ir_b ir) JIT_REG_T0;
  _ ← (if rhs_is_imm then
      if (0 <=? imm8) && (imm8 <=? 4095) then emit (a64_cmp_w_imm JIT_REG_T0 (u16 imm8))
      else
        _ ← emit_mov_w_imm JIT_REG_T1 (u32 imm8);
        emit (a64_subs_w_rr 31 JIT_REG_T0 JIT_REG_T1)
    else if ir_c ir =? 255 then emit (a64_cmp_w_imm0 JIT_REG_T0)
    else
      _ ← emit_ldr_i32_cached i32c (ir_c ir) JIT_REG_T1;
      emit (a64_subs_w_rr 31 JIT_REG_T0 JIT_REG_T1));
  _ ← emit (a64_cset_w JIT_REG_T0 (int_cset_cond (ir_imm ir)));
  emit_str_i32_cached (ir_a ir) JIT_REG_T0.

Definition emit_cmp_i64 (ir : jello_jit_ir_insn) : E () :=
  _ ← emit_ldr_x_slot JIT_REG_T0 JIT_REG_BASE (slot_off (ir_b ir));
  _ ← emit_ldr_x_slot JIT_REG_T1 JIT_REG_BASE (slot_off (ir_c ir));
  _ ← emit (a64_subs_x_rr 31 JIT_REG_T0 JIT_REG_T1);
  _ ← emit (a64_cset_w JIT_REG_T0 (int_cset_cond (ir_imm ir)));
  emit_str_w_slot JIT_REG_T0 JIT_REG_BASE (slot_off (ir_a ir)).

Definition emit_cmp_f64 (ir : jello_jit_ir_insn) : E () :=
  _ ← emit_ldr_d_slot JIT_FP_T0 JIT_REG_BASE (slot_off (ir_b ir));
  _ ← emit_ldr_d_slot JIT_FP_T1 JIT_REG_BASE (slot_off (ir_c ir));
  _ ← emit (a64_fcmp_d JIT_FP_T0 JIT_FP_T1);
  _ ← emit (a64_cset_w JIT_REG_T0 (fp_cset_cond (ir_imm ir)));
  emit_str_w_slot JIT_REG_T0 JIT_REG_BASE (slot_off (ir_a ir)).

Definition emit_cmp_f32 (ir : jello_jit_ir_insn) : E () :=
  _ ← emit_ldr_s_slot JIT_FP_T0 JIT_REG_BASE (slot_off (ir_b ir));
  _ ← emit_ldr_s_slot JIT_FP_T1 JIT_REG_BASE (slot_off (ir_c ir));
  _ ← emit (a64_fcmp_s JIT_FP_T0 JIT_FP_T1);
  _ ← emit (a64_cset_w JIT_REG_T0 (fp_cset_cond (ir_imm ir)));
  emit_str_w_slot JIT_REG_T0 JIT_REG_BASE (slot_off (ir_a ir)).

(** ** Calls of compiled functions, returns *)

Definition emit_call_args (ir : jello_jit_ir_insn) : E () :=
  emit_ctx_args [ir_b ir; ir_c ir; ir_a ir; u32 (ir_pc ir + 1)].

Definition emit_call_self (body_entry : Z) (ir : jello_jit_ir_insn) : E () :=
  _ ← emit_call_args ir;
  adr_at ← emit_at (a64_adr 5 0);
  _ ← emit_rt_call_continue jello_jit_runtime_call_self;
  b_at ← emit_at (a64_b 0);
  resume ← esize;
  _ ← patch_adr adr_at resume 5;
  patch_branch b_at body_entry.

(** The jump through the context field at [off], which is cleared. *)
Definition emit_jump_field (off : Z) : E () :=
  _ ← efail_if (bad_off off);
  _ ← emit (a64_ldr_x_uimm 16 JIT_REG_CTX off);
  _ ← emit (a64_str_x_uimm 31 JIT_REG_CTX off);
  _ ← emit_refresh_base;
  emit br_x16.

Definition emit_call_direct (ir : jello_jit_ir_insn) : E () :=
  let bidx := Z.land (u32 (ir_imm ir)) 0xFFFF in
  let callee_reg := Z.shiftr (u32 (ir_imm ir)) 16 in
  let callee_reg := if callee_reg =? 0xFFFF then 0xFFFFFFFF else callee_reg in
  _ ← emit_call_args ir;
  adr_at ← emit_at (a64_adr 5 0);
  _ ← emit_mov_w_imm 6 bidx;
  _ ← emit_mov_w_imm 7 callee_reg;
  _ ← emit_call_fn jello_jit_runtime_call_direct;
  _ ← emit_leave_unless_continue;
  _ ← emit_jump_field (exec_ctx_jit_call_entry lay);
  resume ← esize;
  patch_adr adr_at resume 5.

Definition emit_ret (ir : jello_jit_ir_insn) : E () :=
  _ ← emit_ctx_args [ir_a ir];
  _ ← emit_call_fn jello_jit_runtime_ret_self;
  _ ← emit_leave_unless_continue;
  emit_jump_field (exec_ctx_jit_self_resume lay).

(** ** Branches *)

Definition emit_jmp (cap : Z) (ir : jello_jit_ir_insn) (sites : list jello_jit_patch_site)
  : E (list jello_jit_patch_site) :=
  let tgt := u32 (ir_imm ir) in
  _ ← efail_if ((f_ninsns f <=? tgt) || full cap sites);
  at_ ← emit_at (a64_b 0);
  mret (sites ++ [mk_site at_ tgt false]).

Definition emit_jmp_if (cap i32c : Z) (ir : jello_jit_ir_insn) (sites : list jello_jit_patch_site)
  : E (list jello_jit_patch_site) :=
  let tgt := u32 (ir_imm ir) in
  _ ← efail_if ((f_ninsns f <=? tgt) || full cap sites);
  _ ← emit_ldr_i32_cached i32c (ir_a ir) JIT_REG_T0;
  at_ ← emit_at (a64_cbnz_w JIT_REG_T0 0);
  mret (sites ++ [mk_site at_ tgt true]).

Fixpoint emit_cases (cap spc ncases : Z) (cases : list jello_jit_ir_insn)
    (sites : list jello_jit_patch_site) : E (list jello_jit_patch_site) :=
  match cases with
  | [] => mret sites
  | cs :: cases' =>
    _ ← efail_if (negb (bool_decide (ir_op cs = JIR_SWITCH_CASE)));
    _ ← emit_mov_w_imm JIT_REG_T1 (ir_a cs);
    _ ← emit (a64_subs_w_rr 31 JIT_REG_T0 JIT_REG_T1);
    _ ← efail_if (full cap sites);
    at_ ← emit_at (a64_b_eq 0);
    emit_cases cap spc ncases cases' (sites ++ [mk_site at_ (switch_kind_target spc ncases (ir_imm cs)) true])
  end.

(** [rest] is what follows the switch in the list. *)
Definition emit_switch (cap i32c : Z) (ir : jello_jit_ir_insn) (rest : list jello_jit_ir_insn)
    (sites : list jello_jit_patch_site) : E (list jello_jit_patch_site) :=
  let spc := ir_pc ir in
  let ncases := ir_b ir in
  _ ← efail_if (zlen rest <? ncases);
  _ ← emit_ldr_i32_cached i32c (ir_a ir) JIT_REG_T0;
  sites ← emit_cases cap spc ncases (take (Z.to_nat ncases) rest) sites;
  _ ← efail_if (full cap sites);
  at_ ← emit_at (a64_b 0);
  mret (sites ++ [mk_site at_ (switch_kind_target spc ncases (ir_imm ir)) false]).

(** ** The loop over the instructions *)

(** The cached register stays what it was. *)
Definition then_same (i32c : Z) (c : E ()) : E Z := _ ← c; mret i32c.

(** The code of an instruction that is no branch: the cached register after it. *)
Definition emit_insn (body_entry i32c : Z) (ir : jello_jit_ir_insn) : E Z :=
  let a := ir_a ir in let b := ir_b ir in let c := ir_c ir in let imm := u32 (ir_imm ir) in
  match ir_op ir with
  | JIR_NOP => mret i32c
  | JIR_LOAD_I32 => _ ← emit_mov_w_imm JIT_REG_T0 imm; emit_str_i32_cached a JIT_REG_T0
  | JIR_LOAD_I64 => then_same i32c (emit_pool (m_nconst_i64 m) (m_const_i64 m) ir)
  | JIR_LOAD_F64 => then_same i32c (emit_pool (m_nconst_f64 m) (m_const_f64 m) ir)
  | JIR_LOAD_F32 => then_same i32c (emit_load_f32 ir)
  | JIR_MOV_REG => emit_mov_reg i32c ir
  | JIR_BIN_I32 => emit_ir_bin_i32 i32c ir
  | JIR_BIN_I64 => then_same i32c (emit_ir_bin_i64 ir)
  | JIR_BIN_F64 => then_same i32c (emit_ir_bin_f64 ir)
  | JIR_SQRT_F64 => then_same i32c (emit_un_d (a64_fsqrt_d JIT_FP_T0 JIT_FP_T0) ir)
  | JIR_BIN_F32 => then_same i32c (emit_ir_bin_f32 ir)
  | JIR_NEG_I32 => emit_neg_i32 i32c ir
  | JIR_NEG_I64 => then_same i32c (emit_neg_i64 ir)
  | JIR_NEG_F64 => then_same i32c (emit_un_d (a64_fneg_d JIT_FP_T0 JIT_FP_T0) ir)
  | JIR_NEG_F32 => then_same i32c (emit_un_s (a64_fneg_s JIT_FP_T0 JIT_FP_T0) ir)
  | JIR_LOAD_NULL => then_same i32c (emit_load_x ir jello_make_null)
  | JIR_CMP_I32 => emit_cmp_i32 i32c ir
  | JIR_CMP_I64 => then_same i32c (emit_cmp_i64 ir)
  | JIR_CMP_F64 => then_same i32c (emit_cmp_f64 ir)
  | JIR_CMP_F32 => then_same i32c (emit_cmp_f32 ir)
  | JIR_FUEL_CHECK => then_none emit_inline_fuel_check
  | JIR_BYTES_LEN => then_none (emit_helper jello_jit_runtime_bytes_len [a; b])
  | JIR_BYTES_EQ => then_none (emit_helper jello_jit_runtime_bytes_eq (a3 ir))
  | JIR_BYTES_GET_U8 => then_none (emit_helper jello_jit_runtime_bytes_get_u8 (a3 ir))
  | JIR_BYTES_SET_U8 => then_none (emit_helper jello_jit_runtime_bytes_set_u8 (a3 ir))
  | JIR_ARRAY_LEN => then_none (emit_helper jello_jit_runtime_array_len [a; b])
  | JIR_ARRAY_GET => then_none (emit_array_get_f64 a b c)
  | JIR_ARRAY_SET => then_none (emit_array_set_f64 a b c)
  | JIR_ARRAY_NEW => then_none (emit_helper jello_jit_runtime_array_new [a; b])
  | JIR_BYTES_NEW => then_none (emit_helper jello_jit_runtime_bytes_new [a; b])
  | JIR_ASSERT => then_none (emit_helper jello_jit_runtime_assert (a3 ir))
  | JIR_CONST_BYTES => then_none (emit_helper jello_jit_runtime_const_bytes [a; imm])
  | JIR_CONST_FUN => then_none (emit_helper jello_jit_runtime_const_fun [a; imm])
  | JIR_CLOSURE =>
    then_none (_ ← emit_ctx_args (a3 ir ++ [imm]); emit_rt_call_continue jello_jit_runtime_closure)
  | JIR_CONV => then_none (emit_helper jello_jit_runtime_conv [a; b; imm])
  | JIR_OBJ_GET_ATOM => then_none (emit_obj_get_atom a b imm)
  | JIR_OBJ_SET_ATOM => then_none (emit_obj_set_atom a b imm)
  | JIR_OBJ_NEW => then_none (emit_obj_new a)
  | JIR_SLOW => then_none (_ ← emit_ctx_args [imm]; emit_rt_call_continue jello_jit_runtime_slow_op)
  | JIR_CALL_SELF => then_none (emit_call_self body_entry ir)
  | JIR_CALL_DIRECT => then_none (emit_call_direct ir)
  | JIR_RET => then_none (emit_ret ir)
  | JIR_BYTES_READ | JIR_BYTES_WRITE | JIR_JMP | JIR_JMP_IF | JIR_SWITCH | JIR_SWITCH_CASE => efail
  end.

(** The instructions from index [i] on, [skip] cases of a switch first: they get no
    offset ([ir_off] stays 0). *)
Fixpoint emit_loop (all : list jello_jit_ir_insn) (body_entry i : Z) (skip : nat)
    (insns : list jello_jit_ir_insn) (st : emit_state) : E emit_state :=
  match insns with
  | [] => mret st
  | ir :: rest =>
    let cap := zlen all in
    let off0 := mk_es (es_off st ++ [0]) (es_sites st) (es_i32c st) (es_saw_ret st) in
    match skip with
    | S skip' => emit_loop all body_entry (i + 1) skip' rest off0
    | O =>
      if bool_decide (ir_op ir = JIR_SWITCH_CASE) then emit_loop all body_entry (i + 1) 0 rest off0 else
      off ← esize;
      let i32c := if is_target all i then JIT_I32C_NONE else es_i32c st in
      let offs := es_off st ++ [off] in
      match ir_op ir with
      | JIR_JMP =>
        sites ← emit_jmp cap ir (es_sites st);
        emit_loop all body_entry (i + 1) 0 rest (mk_es offs sites i32c (es_saw_ret st))
      | JIR_JMP_IF =>
        sites ← emit_jmp_if cap i32c ir (es_sites st);
        emit_loop all body_entry (i + 1) 0 rest (mk_es offs sites i32c (es_saw_ret st))
      | JIR_SWITCH =>
        sites ← emit_switch cap i32c ir rest (es_sites st);
        emit_loop all body_entry (i + 1) (Z.to_nat (ir_b ir)) rest (mk_es offs sites i32c (es_saw_ret st))
      | o =>
        i32c' ← emit_insn body_entry i32c ir;
        emit_loop all body_entry (i + 1) 0 rest
          (mk_es offs (es_sites st) i32c' (es_saw_ret st || bool_decide (o = JIR_RET)))
      end
    end
  end.

Definition emit_ir (insns : list jello_jit_ir_insn) (body_entry : Z) : E emit_state :=
  emit_loop insns body_entry 0 0 insns (mk_es [] [] JIT_I32C_NONE false).

Fixpoint patch_branch_sites (insns : list jello_jit_ir_insn) (offs : list Z) (prologue_end : Z)
    (sites : list jello_jit_patch_site) : E () :=
  match sites with
  | [] => mret ()
  | ps :: sites' =>
    let target := ir_off_for_bc insns offs (ps_tgt ps) in
    _ ← efail_if (target <? prologue_end);
    _ ← (if ps_jcc ps then patch_cb (ps_at ps) target else patch_branch (ps_at ps) target);
    patch_branch_sites insns offs prologue_end sites'
  end.

(** [arm64_emit_func]: entry and body offsets and the map; the entry is at 0. *)
Definition arm64_emit_func (ir : jello_jit_ir_func) : E (Z * Z * list Z) :=
  _ ← efail_if (negb (ir_ok ir));
  _ ← emit_prologue;
  prologue_end ← esize;
  st ← emit_ir (ir_insns ir) prologue_end;
  _ ← patch_branch_sites (ir_insns ir) (es_off st) prologue_end (es_sites st);
  _ ← (if es_saw_ret st then mret () else emit_epilogue JELLO_JIT_EXIT_YIELD);
  mret (0, prologue_end, build_bc_pc_map f (ir_insns ir) (es_off st)).
End Codegen.
