(* ===== verification/JitArm64Diverge.v ===== *)
(** * Runs of arm64 code

    The programs of [JitX64Diverge], and some more, on the A64 machine: what the second
    back end emits for them and [op_dispatch] leave the same registers, or different ones. *)

From S2P Require Import Prelude CInt Memory Bytecode Frame FunCheck Vm JitIr X64 X64Sem JitX64 JitX64Facts JitX64Sim JitX64Diverge A64 A64Sem JitArm64.
#[local] Open Scope list_scope.
#[local] Open Scope Z_scope.

Section Both.
Context (ks : list jello_type_kind) (insns : list jello_insn) (vals : list Z).

(** The words emitted for the body, without the return. *)
Definition a64_code : option (list Z) :=
  let irs := d_irs ks insns in
  snd <$> emit_loop (fun _ => true) (fun _ => 0) (mk_lay 24 0 32 40 48 64 72) (d_module ks insns) (d_fun ks insns)
    (d_layout ks) irs 0 0 0 (removelast irs) (mk_es [] [] JIT_I32C_NONE false) [].

Fixpoint a64_run_to (fuel : nat) (stop : Z) (code : list Z) (st : cpu) : option cpu :=
  if ip st =? stop then Some st else
  match fuel with
  | O => None
  | S fuel' => st' ← a64_step 0 0 code st; a64_run_to fuel' stop code st'
  end.

Definition a64_cpu : cpu :=
  mk_cpu 0 (fun r => if r =? JIT_REG_BASE then 0x10000 else 0) (fun _ => 0) None [(0x10000, d_stack vals)].

Definition a64_compiled (r : Z) : option Z :=
  code ← a64_code; st ← a64_run_to 100 (zlen code) code a64_cpu;
  '(_, l) ← head (mem st); d_get r l.
End Both.

(** Both runs of an accepted program end, with the same word in register [r]. *)
Definition a64_agree (ks : list jello_type_kind) (insns : list jello_insn) (vals : list Z) (r x : Z) : Prop :=
  accepted ks insns = true /\ interpreted ks insns vals r = Some x /\ a64_compiled ks insns vals r = Some x.

(** Both end, with [x] and [y]. *)
Definition a64_diverge (ks : list jello_type_kind) (insns : list jello_insn) (vals : list Z) (r x y : Z) : Prop :=
  accepted ks insns = true /\ interpreted ks insns vals r = Some x /\ a64_compiled ks insns vals r = Some y.

(** [-7 % 3] with [SDIV] and [MSUB]. *)
Lemma a64_remainder :
  a64_agree (replicate 3 JELLO_T_I32) [insn_of JOP_MOD_I32 0 1 2 0; insn_of JOP_RET 0 0 0 0] [0; u32 (-7); 3]
    0 (u32 (-1)).
Proof. vm_compute. split_and!; reflexivity. Qed.

(** A NaN is neither equal to nor less than itself: here both agree. *)
Lemma a64_nan_compares :
  a64_agree [JELLO_T_BOOL; JELLO_T_F64] [insn_of JOP_EQ_F64 0 1 1 0; insn_of JOP_RET 0 0 0 0]
    [0; 0x7FF8000000000000] 0 0 /\
  a64_agree [JELLO_T_BOOL; JELLO_T_F64] [insn_of JOP_LT_F64 0 1 1 0; insn_of JOP_RET 0 0 0 0]
    [0; 0x7FF8000000000000] 0 0.
Proof. vm_compute. split_and!; reflexivity. Qed.

(** [-8 >> 1]: the shift is logical. *)
Lemma a64_shr_is_logical :
  a64_diverge (replicate 3 JELLO_T_I32) [insn_of JOP_SHR_I32 0 1 2 0; insn_of JOP_RET 0 0 0 0] [0; u32 (-8); 1]
    0 (u32 (-4)) 0x7FFFFFFC.
Proof. vm_compute. split_and!; reflexivity. Qed.

(** [EQ_I32 r0, r1, r2; EQ_I64 r0, r3, r4; MOV r5, r0]: the first comparison leaves its
    answer in the register cache as r0's, the second stores its own without telling the
    cache, and the move takes the first. *)
Lemma a64_stale_comparison :
  a64_diverge [JELLO_T_BOOL; JELLO_T_I32; JELLO_T_I32; JELLO_T_I64; JELLO_T_I64; JELLO_T_BOOL]
    [insn_of JOP_EQ_I32 0 1 2 0; insn_of JOP_EQ_I64 0 3 4 0; insn_of JOP_MOV 5 0 0 0; insn_of JOP_RET 0 0 0 0]
    [0; 1; 1; 5; 6; 0] 5 0 1.
Proof. vm_compute. split_and!; reflexivity. Qed.

(** The programs of [JitX64Diverge.stale_cache], [i8_not_narrowed] and
    [register_255_reads_zero]. *)
Lemma a64_stale_float :
  a64_diverge (replicate 4 JELLO_T_F32)
    [insn_of JOP_MOV 1 0 0 0; insn_of JOP_ADD_F32 1 1 2 0; insn_of JOP_MOV 3 1 0 0; insn_of JOP_RET 0 0 0 0]
    [0x3F800000; 0; 0x40000000; 0] 3 0x40400000 0x3F800000.
Proof. vm_compute. split_and!; reflexivity. Qed.

Lemma a64_i8_not_narrowed :
  a64_diverge [JELLO_T_I8; JELLO_T_I8] [insn_of JOP_ADD_I32 0 1 1 0; insn_of JOP_RET 0 0 0 0] [0; 64]
    0 (u32 (-128)) 128.
Proof. vm_compute. split_and!; reflexivity. Qed.

Lemma a64_register_255_reads_zero :
  a64_diverge (JELLO_T_BOOL :: replicate 255 JELLO_T_I32) [insn_of JOP_EQ_I32 0 1 255 0; insn_of JOP_RET 0 0 0 0]
    ([9; 5] ++ replicate 253 0 ++ [5]) 0 1 0.
Proof. vm_compute. split_and!; reflexivity. Qed.
