(* ===== verification/JitState.v ===== *)
(** * The state of the just-in-time compiler

    Model of src/src/jit/jit_config.c and jit_cache.c: the settings read from the
    environment, the cache of compiled functions, the counters of hot functions,
    and the monad of the functions that work on them, on the execution context and
    on the virtual machine.

    Addresses of native code and of modules are integers, 0 is NULL.  The mapped
    pages are kept with their bytes in [js_text], so that using code after it was
    unmapped can be told.  [mmap st n] is the address [mmap] gives for [n] bytes,
    [mprotect] whether they become executable; [alloc_ok n] whether [malloc],
    [calloc] or [realloc] gives [n] bytes. *)

From Stdlib Require Import String Ascii.
From S2P Require Import Prelude CInt Vm.

#[local] Open Scope list_scope.
#[local] Open Scope Z_scope.

(** ** Configuration *)

(** [strtoul(e, &end, 10)] of the C library, [unsigned long] 64 bits wide; [None]:
    no digit ([end == e]).  A value out of range gives [ULONG_MAX]. *)
Definition is_c_space (c : Z) : bool := (c =? 32) || ((9 <=? c) && (c <=? 13)).

Fixpoint skip_space (l : list Z) : list Z :=
  match l with
  | c :: l' => if is_c_space c then skip_space l' else l
  | [] => []
  end.

Fixpoint digits_value (l : list Z) (acc : Z) : Z :=
  match l with
  | c :: l' => if (48 <=? c) && (c <=? 57) then digits_value l' (acc * 10 + (c - 48)) else acc
  | [] => acc
  end.

Definition starts_with_digit (l : list Z) : bool :=
  match l with c :: _ => (48 <=? c) && (c <=? 57) | [] => false end.

Definition strtoul10 (l : list Z) : option Z :=
  let l := skip_space l in
  let neg := match l with 45 :: _ => true | _ => false end in
  let l := match l with 45 :: l' | 43 :: l' => l' | _ => l end in
  if negb (starts_with_digit l) then None else
  let v := digits_value l 0 in
  if 2 ^ 64 - 1 <? v then Some (2 ^ 64 - 1) else Some (u64 (if neg then - v else v)).

Definition chars (s : string) : list Z :=
  map (fun c => Z.of_nat (nat_of_ascii c)) (list_ascii_of_string s).

Section Config.
(** [getenv]. *)
Context (getenv : string -> option string).

(** [e && (e[0] == '0' || strcmp(e, "false") == 0)]. *)
Definition env_false (e : option string) : bool :=
  match e with
  | Some s => match s with String c _ => Ascii.eqb c "0" | EmptyString => false end || String.eqb s "false"
  | None => false
  end.

(** [enabled] is [vm->jit_enabled]. *)
Definition jello_jit_config_enabled (enabled : bool) : bool :=
  enabled && negb (env_false (getenv "JELLO_JIT")).

Definition jello_jit_config_hot_threshold : Z :=
  match getenv "JELLO_JIT_HOT" with
  | None | Some EmptyString => 32
  | Some e =>
    match strtoul10 (chars e) with
    | None => 1
    | Some v => if v =? 0 then 1 else if 0xffffffff <? v then 0xffffffff else u32 v
    end
  end.

Definition jello_jit_config_run_enabled : bool := negb (env_false (getenv "JELLO_JIT_RUN")).
End Config.

(** ** The cache *)

Record jello_jit_code : Set := mk_code {
  co_base : Z;
  co_entry : Z;
  co_body : Z;
  co_size : Z;
  co_map_size : Z;
  co_func_idx : Z;
  co_bc_pc_map : list Z     (* nbc_pc_map entries; [] is NULL *)
}.

Record jello_jit_cache_entry : Set := mk_entry {
  ce_mod : Z;
  ce_func_idx : Z;
  ce_code : jello_jit_code
}.

Record jello_jit_hot_table : Set := mk_hot {
  ht_mod : Z;
  ht_counts : option (list Z);
  ht_nfuncs : Z
}.

Record jello_jit_state : Set := mk_js {
  js_cache : list jello_jit_cache_entry;     (* the linked list, head first *)
  js_hot : list jello_jit_hot_table;
  js_nest : Z;
  js_text : gmap Z (list Z)
}.

Definition JELLO_JIT_HOT_REJECTED : Z := 0xFFFFFFFE.

Definition set_cache (c : list jello_jit_cache_entry) (st : jello_jit_state) : jello_jit_state :=
  mk_js c (js_hot st) (js_nest st) (js_text st).
Definition set_hot (h : list jello_jit_hot_table) (st : jello_jit_state) : jello_jit_state :=
  mk_js (js_cache st) h (js_nest st) (js_text st).
Definition set_nest (n : Z) (st : jello_jit_state) : jello_jit_state :=
  mk_js (js_cache st) (js_hot st) n (js_text st).
Definition set_text (t : gmap Z (list Z)) (st : jello_jit_state) : jello_jit_state :=
  mk_js (js_cache st) (js_hot st) (js_nest st) t.

Definition jello_jit_state_create : jello_jit_state := mk_js [] [] 0 ∅.

Definition jello_jit_state_nest_inc (st : jello_jit_state) : jello_jit_state :=
  set_nest (u32 (js_nest st + 1)) st.
Definition jello_jit_state_nest_dec (st : jello_jit_state) : jello_jit_state :=
  if js_nest st =? 0 then st else set_nest (js_nest st - 1) st.

Definition jello_jit_cache_lookup (st : jello_jit_state) (md fi : Z) : option jello_jit_code :=
  if md =? 0 then None else
  ce_code <$> find (fun e => (ce_mod e =? md) && (ce_func_idx e =? fi)) (js_cache st).

Section Cache.
Context (page_size : Z) (mmap : jello_jit_state -> Z -> option Z).
Context (mprotect : jello_jit_state -> Z -> bool) (alloc_ok : Z -> bool).

(** [(size + ps - 1) & ~(ps - 1)]. *)
Definition round_pages (size : Z) : Z :=
  Z.land (u64 (size + page_size - 1)) (u64 (Z.lnot (page_size - 1))).

(** The address of an executable copy of the code and the bytes it takes. *)
Definition jit_map_code (code : list Z) (st : jello_jit_state) : option (Z * Z * jello_jit_state) :=
  if zlen code =? 0 then None else
  if page_size <=? 0 then None else
  let total := round_pages (zlen code) in
  mem ← mmap st total;
  if mprotect st mem then Some (mem, total, set_text (<[mem := code]> (js_text st)) st) else None.

(** [munmap] of [total] bytes: what was mapped at [mem] is gone when it took that many;
    with another number its pages are not all gone, and it stays in the map. *)
Definition jit_munmap (mem total : Z) (text : gmap Z (list Z)) : gmap Z (list Z) :=
  match text !! mem with
  | Some code => if round_pages (zlen code) =? total then delete mem text else text
  | None => text
  end.

Definition jit_unmap (mem size : Z) (st : jello_jit_state) : jello_jit_state :=
  if (mem =? 0) || (page_size <=? 0) then st else
  set_text (jit_munmap mem (round_pages size) (js_text st)) st.

(** [e->code.base ? e->code.base : e->code.entry]. *)
Definition mapped_at (c : jello_jit_code) : Z := if co_base c =? 0 then co_entry c else co_base c.
(** [e->code.map_size ? e->code.map_size : e->code.size]. *)
Definition mapped_size (c : jello_jit_code) : Z := if co_map_size c =? 0 then co_size c else co_map_size c.

Definition jello_jit_state_destroy (st : jello_jit_state) : jello_jit_state :=
  foldl (fun s e => jit_unmap (mapped_at (ce_code e)) (mapped_size (ce_code e)) s) st (js_cache st).

Definition SIZEOF_CACHE_ENTRY : Z := 80.

Definition jello_jit_cache_insert (st : jello_jit_state) (md fi : Z) (code : list Z)
    (entry_off body_off : Z) (bc_pc_map : list Z) : jello_jit_state * option jello_jit_code :=
  let size := zlen code in
  if (md =? 0) || (size =? 0) || (size <=? entry_off) || (size <=? body_off) then (st, None) else
  match jit_map_code code st with
  | None => (st, None)
  | Some (mem, map_size, st) =>
    if negb (alloc_ok SIZEOF_CACHE_ENTRY) then (jit_unmap mem map_size st, None) else
    if negb (zlen bc_pc_map =? 0) && negb (alloc_ok (4 * zlen bc_pc_map)) then (jit_unmap mem map_size st, None) else
    let c := mk_code mem (mem + entry_off) (mem + body_off) size map_size fi bc_pc_map in
    (set_cache (mk_entry md fi c :: js_cache st) st, Some c)
  end.

(** The entries of the module are unlinked and their code is unmapped, its counters
    are dropped. *)
Fixpoint drop_entries (md : Z) (es : list jello_jit_cache_entry) (st : jello_jit_state)
  : list jello_jit_cache_entry * jello_jit_state :=
  match es with
  | [] => ([], st)
  | e :: es' =>
    if ce_mod e =? md then drop_entries md es' (jit_unmap (mapped_at (ce_code e)) (mapped_size (ce_code e)) st)
    else let '(es', st) := drop_entries md es' st in (e :: es', st)
  end.

Definition drop_hot (md : Z) (t : jello_jit_hot_table) : jello_jit_hot_table :=
  if ht_mod t =? md then mk_hot 0 None 0 else t.

Definition jello_jit_cache_drop_module (st : jello_jit_state) (md : Z) : jello_jit_state :=
  if md =? 0 then st else
  let '(es, st) := drop_entries md (js_cache st) st in
  set_hot (map (drop_hot md) (js_hot st)) (set_cache es st).

(** ** Hot counters *)

(** The index of the first table of the module. *)
Fixpoint find_hot (md : Z) (ts : list jello_jit_hot_table) (i : Z) : option Z :=
  match ts with
  | [] => None
  | t :: ts' => if ht_mod t =? md then Some i else find_hot md ts' (i + 1)
  end.

Definition SIZEOF_HOT_TABLE : Z := 24.

(** [None]: no memory.  A table whose counters could not be had stays in the list. *)
Definition hot_table_for (md nfuncs : Z) (st : jello_jit_state) : jello_jit_state * option Z :=
  match find_hot md (js_hot st) 0 with
  | Some i => (st, Some i)
  | None =>
    let n := zlen (js_hot st) in
    if negb (alloc_ok ((n + 1) * SIZEOF_HOT_TABLE)) then (st, None) else
    let counts := if alloc_ok (nfuncs * 4) then Some (replicate (Z.to_nat nfuncs) 0) else None in
    (set_hot (js_hot st ++ [mk_hot md counts nfuncs]) st,
      match counts with Some _ => Some n | None => None end)
  end.

(** [&t->counts[func_idx]]: the table, the index is [func_idx]. *)
Definition jello_jit_hot_counter (md nfuncs fi : Z) (st : jello_jit_state) : jello_jit_state * option Z :=
  if (md =? 0) || (nfuncs <=? fi) then (st, None) else
  let '(st, t) := hot_table_for md nfuncs st in
  (st, match t with
    | Some i => match js_hot st @! i with
    | Some tb => match ht_counts tb with Some _ => Some i | None => None end
    | None => None
    end
    | None => None
    end).
End Cache.

(** [*hot] and [*hot = v]. *)
Definition hot_read (t fi : Z) (st : jello_jit_state) : option Z :=
  tb ← js_hot st @! t; counts ← ht_counts tb; counts @! fi.

Definition hot_write (t fi v : Z) (st : jello_jit_state) : option jello_jit_state :=
  tb ← js_hot st @! t; counts ← ht_counts tb; _ ← counts @! fi;
  Some (set_hot ((js_hot st) @[t := mk_hot (ht_mod tb) (Some (counts @[fi := v])) (ht_nfuncs tb)]) st).
