(* ===== verification/Effects.v ===== *)
(** * What an operation leaves alone

    Frame conditions of the heap and register operations: a relation between the
    state before and the state after that composes along [≫=].  [quiet] operations
    touch neither the exceptions, nor the limits, nor the frame descriptors; raising
    a trap only changes the exceptions ([frames_kept]). *)

From Stdlib Require Import String.
From S2P Require Import Prelude CInt Memory Bytecode Value Object Heap Vm Frame Float Gc Box Types Ops ArithOps Call Exc CoreOps CallOps ContainerOps BytesOps ObjOps.

(** Whatever the operation answers, the states are related. *)
Definition within (R : jello_vm -> jello_vm -> Prop) {A} (p : M A) : Prop :=
  forall vm a vm', p vm = Ret a vm' -> R vm vm'.

Definition frames_kept (vm vm' : jello_vm) : Prop :=
  call_frames (v_stack vm') = call_frames (v_stack vm).

Definition undisturbed (vm vm' : jello_vm) : Prop :=
  frames_kept vm vm' /\ v_exc vm' = v_exc vm /\ v_limits vm' = v_limits vm.

Abbreviation quiet := (within undisturbed).

#[export] Instance frames_kept_preorder : PreOrder frames_kept.
Proof. split; [done|]. intros x y z H1 H2. unfold frames_kept in *. congruence. Qed.

#[export] Instance undisturbed_preorder : PreOrder undisturbed.
Proof.
  split; [done|]. intros x y z (H1 & H2 & H3) (K1 & K2 & K3). unfold undisturbed, frames_kept in *.
  repeat split; congruence.
Qed.

Lemma undisturbed_frames vm vm' : undisturbed vm vm' -> frames_kept vm vm'.
Proof. by intros []. Qed.

Lemma within_mono (R R' : jello_vm -> jello_vm -> Prop) {A} (p : M A) :
  (forall vm vm', R vm vm' -> R' vm vm') -> within R p -> within R' p.
Proof. unfold within. eauto. Qed.

Lemma quiet_frames {A} (p : M A) : quiet p -> within frames_kept p.
Proof. apply within_mono, undisturbed_frames. Qed.

Section Within.
Context (R : jello_vm -> jello_vm -> Prop) `{!PreOrder R} {A B : Type}.

Lemma within_ret (a : A) : within R (mret a).
Proof. intros vm b vm' [= <- <-]. reflexivity. Qed.

Lemma within_bind (p : M A) (k : A -> M B) :
  within R p -> (forall a, within R (k a)) -> within R (p ≫= k).
Proof.
  intros Hp Hk vm b vm' H. unfold mbind, M_bind in H. destruct (p vm) as [a vm1| |] eqn:E; [|done..].
  transitivity vm1; [by eapply Hp | by eapply Hk].
Qed.

Lemma within_must (o : option A) : within R (must o).
Proof. intros vm a vm'. unfold must. destruct o; [|done]. intros [= <- <-]. reflexivity. Qed.

Lemma within_panic : within R (@panic A).
Proof. done. Qed.

Lemma within_crash : within R (@crash A).
Proof. done. Qed.
End Within.

Lemma within_panic_if R `{!PreOrder R} b : within R (panic_if b).
Proof. unfold panic_if. destruct b; [apply within_panic | by apply within_ret]. Qed.

Lemma within_mfor R `{!PreOrder R} (body : Z -> M ()) i n :
  (forall j, within R (body j)) -> within R (mfor i n body).
Proof.
  intros Hb. revert i. induction n as [|n IH]; intros i; cbn [mfor]; [by apply within_ret|].
  apply within_bind; [done | apply Hb | intros; apply IH].
Qed.

(** ** The state accessors *)

Section Accessors.
Context (R : jello_vm -> jello_vm -> Prop) `{!PreOrder R}.

Lemma within_get_stack : within R get_stack.
Proof. intros vm a vm' [= <- <-]. reflexivity. Qed.

Lemma within_get_exc : within R get_exc.
Proof. intros vm a vm' [= <- <-]. reflexivity. Qed.

Lemma within_get_limits : within R get_limits.
Proof. intros vm a vm' [= <- <-]. reflexivity. Qed.

Lemma within_get_gc : within R get_gc.
Proof. intros vm a vm' [= <- <-]. reflexivity. Qed.
End Accessors.

Lemma quiet_put_gc g : quiet (put_gc g).
Proof. by intros vm a vm' [= <- <-]. Qed.

Lemma frames_put_exc e : within frames_kept (put_exc e).
Proof. by intros vm a vm' [= <- <-]. Qed.

Create HintDb effects discriminated.
#[export] Hint Extern 0 (PreOrder _) => typeclasses eauto : effects.
#[export] Hint Resolve within_ret within_must within_panic within_crash within_panic_if
  within_get_stack within_get_exc within_get_limits within_get_gc quiet_put_gc frames_put_exc
  quiet_frames : effects.

(** Through binds, conditionals and matches to the hints. *)
Ltac effects :=
  unfold vm_load_u32, vm_store_u32, vm_load_f32, vm_store_f32, vm_load_f64, vm_store_f64, vm_load_val,
    vm_store_val, vm_load_ptr, vm_store_ptr, vm_store_f16_bits, vm_store_u32_masked, vm_store_i64 in *;
  repeat match goal with
  | |- within _ (_ ≫= _) => apply within_bind; [typeclasses eauto| |intros]
  | |- within _ (let '_ := ?x in _) => destruct x
  | |- within _ (if ?b then _ else _) => destruct b
  | |- within _ (match ?x with _ => _ end) => destruct x
  | |- within _ (mfor _ _ _) => apply within_mfor; [typeclasses eauto | intros]
  end; eauto with effects.

(** ** Registers *)

Lemma quiet_put_mem vm mem : undisturbed vm (set_stack (set_mem mem (v_stack vm)) vm).
Proof. done. Qed.

Lemma quiet_load_reg n rf r : quiet (load_reg n rf r).
Proof. unfold load_reg. effects. Qed.

Lemma quiet_store_reg n rf r v : quiet (store_reg n rf r v).
Proof.
  intros vm a vm'. unfold store_reg, mbind, M_bind, get_stack, must, put_stack.
  destruct (vm_reg_ptr rf r); [|done]. destruct (mem_store _ _ _ _); [|done]. by intros [= <- <-].
Qed.
#[export] Hint Resolve quiet_load_reg quiet_store_reg : effects.

Lemma quiet_load_i64 rf r : quiet (vm_load_i64 rf r).
Proof. unfold vm_load_i64. effects. Qed.

Lemma quiet_load_f16 rf r : quiet (vm_load_f16_bits rf r).
Proof. unfold vm_load_f16_bits. effects. Qed.
#[export] Hint Resolve quiet_load_i64 quiet_load_f16 : effects.

(** ** The heap *)

Lemma quiet_collect m : quiet (jello_gc_collect m).
Proof. intros vm a vm'. unfold jello_gc_collect. case_match; [|done..]. by intros [= <- <-]. Qed.
#[export] Hint Resolve quiet_collect : effects.

Section Heap.
Context (malloc : gc_state -> Z -> option Z) (m : jello_bc_module) (nan32 nan64 junk : Z).

Lemma quiet_alloc_recycled sz init : quiet (jello_gc_alloc_recycled malloc m sz init).
Proof. unfold jello_gc_alloc_recycled. effects. Qed.
Hint Resolve quiet_alloc_recycled : effects.

Lemma quiet_gc_alloc sz o : quiet (gc_alloc malloc m sz o).
Proof. apply quiet_alloc_recycled. Qed.
Hint Resolve quiet_gc_alloc : effects.

Lemma quiet_push_root v : quiet (jello_gc_push_root v).
Proof. unfold jello_gc_push_root. effects. Qed.

Lemma quiet_pop_roots n : quiet (jello_gc_pop_roots n).
Proof. unfold jello_gc_pop_roots. effects. Qed.

Lemma quiet_deref v : quiet (deref v).
Proof. unfold deref. effects. Qed.

Lemma quiet_write_obj p o : quiet (write_obj p o).
Proof. unfold write_obj. effects. Qed.
Hint Resolve quiet_push_root quiet_pop_roots quiet_deref quiet_write_obj : effects.

Lemma quiet_is_box_i64 v : quiet (jello_is_box_i64 v).
Proof. unfold jello_is_box_i64. effects. Qed.

Lemma quiet_is_box_f64 v : quiet (jello_is_box_f64 v).
Proof. unfold jello_is_box_f64. effects. Qed.

Lemma quiet_is_box_f32 v : quiet (jello_is_box_f32 v).
Proof. unfold jello_is_box_f32. effects. Qed.

Lemma quiet_is_box_f16 v : quiet (jello_is_box_f16 v).
Proof. unfold jello_is_box_f16. effects. Qed.
Hint Resolve quiet_is_box_i64 quiet_is_box_f64 quiet_is_box_f32 quiet_is_box_f16 : effects.

Lemma quiet_clone_numbox v : quiet (vm_clone_numbox malloc m v).
Proof.
  unfold vm_clone_numbox, jello_box_f64_new, jello_box_f32_new, jello_box_f16_new, jello_box_i64_new.
  effects.
Qed.

Lemma quiet_box_from_typed f rf r : quiet (vm_box_from_typed malloc m f rf r).
Proof.
  unfold vm_box_from_typed, jello_box_f64_new, jello_box_f32_new, jello_box_f16_new, jello_box_i64_new.
  effects.
Qed.

Lemma quiet_store_num_inplace f rf r cur : quiet (vm_store_num_inplace m f rf r cur).
Proof. unfold vm_store_num_inplace. effects. Qed.
Hint Resolve quiet_clone_numbox quiet_box_from_typed quiet_store_num_inplace : effects.

Lemma quiet_store_from_boxed f rf dst v : quiet (vm_store_from_boxed malloc m nan32 nan64 f rf dst v).
Proof.
  unfold vm_store_from_boxed, store_boxed_i32, store_boxed_f32, store_boxed_f16, store_boxed_i64,
  store_boxed_f64. effects.
Qed.
Hint Resolve quiet_store_from_boxed : effects.

Lemma quiet_as_array p : quiet (as_array p).
Proof. unfold as_array. effects. Qed.

Lemma quiet_as_bytes p : quiet (as_bytes p).
Proof. unfold as_bytes. effects. Qed.

Lemma quiet_as_object p : quiet (as_object p).
Proof. unfold as_object. effects. Qed.
Hint Resolve quiet_as_array quiet_as_bytes quiet_as_object : effects.

Lemma quiet_array_store p i v : quiet (array_store p i v).
Proof. unfold array_store. effects. Qed.

Lemma quiet_bytes_store p off l : quiet (bytes_store p off l).
Proof. unfold bytes_store. effects. Qed.

Lemma quiet_box_for_store f rf r : quiet (box_for_store malloc m f rf r).
Proof. unfold box_for_store. effects. Qed.
Hint Resolve quiet_array_store quiet_bytes_store quiet_box_for_store : effects.

(** ** Objects *)

Lemma quiet_obj_get_slot p slot atom : quiet (obj_get_slot p slot atom).
Proof. unfold obj_get_slot, put_object. effects. Qed.

Lemma quiet_obj_set_slot p slot atom : quiet (obj_set_slot junk p slot atom).
Proof. unfold obj_set_slot, put_object. effects. Qed.

Lemma quiet_object_slot p atom : quiet (jello_object_slot p atom).
Proof. unfold jello_object_slot, put_object. effects. Qed.

Lemma quiet_slot_store p i v : quiet (slot_store p i v).
Proof. unfold slot_store, put_object. effects. Qed.

Lemma quiet_update_proto_cache o v : quiet (obj_update_proto_cache m o v).
Proof. unfold obj_update_proto_cache, put_object. effects. Qed.
Hint Resolve quiet_obj_get_slot quiet_obj_set_slot quiet_object_slot quiet_slot_store
    quiet_update_proto_cache : effects.

Lemma quiet_store_same_kind f rf dst v : quiet (store_same_kind m f rf dst v).
Proof. unfold store_same_kind. effects. Qed.

Lemma quiet_set_in_slot f rf r o atom i existed : quiet (set_in_slot malloc m f rf r o atom i existed).
Proof. unfold set_in_slot. effects. Qed.
Hint Resolve quiet_store_same_kind quiet_set_in_slot : effects.

(** ** Traps *)

Lemma frames_trap code msg : within frames_kept (jello_vm_trap m code msg).
Proof. intros vm a vm'. unfold jello_vm_trap, raise. cbn. by intros [= <- <-]. Qed.

Lemma trap_raises code msg vm : exists e,
  jello_vm_trap m code msg vm = Ret () (set_exc e vm) /\ exc_pending e = true /\ trap_code e = code.
Proof. eexists. by split; [unfold jello_vm_trap, raise; reflexivity|]. Qed.
End Heap.

#[export] Hint Resolve quiet_alloc_recycled quiet_gc_alloc quiet_push_root quiet_pop_roots quiet_deref
  quiet_write_obj quiet_is_box_i64 quiet_is_box_f64 quiet_is_box_f32 quiet_is_box_f16 quiet_clone_numbox
  quiet_box_from_typed quiet_store_num_inplace quiet_store_from_boxed quiet_as_array quiet_as_bytes
  quiet_as_object quiet_array_store quiet_bytes_store quiet_box_for_store quiet_obj_get_slot
  quiet_obj_set_slot quiet_object_slot quiet_slot_store quiet_update_proto_cache quiet_store_same_kind
  quiet_set_in_slot frames_trap : effects.
