(* ===== verification/JitStateThms.v ===== *)
(** * The cache of compiled functions

    [reaches st mp]: the state after some insertions and droppings, with the finite
    map from module and function to code they amount to.  The list with its shadowed
    entries implements the map, and every entry's code is mapped memory that no other
    entry uses: [code_cache_is_a_map]. *)

From Stdlib Require Import String.
From S2P Require Import Prelude CInt Vm JitState.

#[local] Open Scope list_scope.
#[local] Open Scope Z_scope.

Definition bases (es : list jello_jit_cache_entry) : list Z := map (fun e => co_base (ce_code e)) es.

(** The code of an entry: mapped, its entry and body inside, the size of its pages kept. *)
Record code_mapped (page_size : Z) (text : gmap Z (list Z)) (k : jello_jit_code) : Prop := {
  cm_base : co_base k <> 0;
  cm_pages : co_map_size k = round_pages page_size (co_size k);
  cm_bytes : exists l, text !! co_base k = Some l /\ zlen l = co_size k;
  cm_entry : co_base k <= co_entry k < co_base k + co_size k;
  cm_body : co_base k <= co_body k < co_base k + co_size k
}.

Record cache_ok (page_size : Z) (st : jello_jit_state) : Prop := {
  ok_entries : Forall (fun e => ce_mod e <> 0 /\ code_mapped page_size (js_text st) (ce_code e)) (js_cache st);
  ok_distinct : NoDup (bases (js_cache st));
  ok_no_leak : forall a, is_Some (js_text st !! a) -> a ∈ bases (js_cache st)
}.

(** The code of the functions, with its bytes. *)
Abbreviation code_map := (gmap (Z * Z) (jello_jit_code * list Z)).

(** The map of the module's functions forgotten. *)
Definition forget (md : Z) (mp : code_map) : code_map := filter (fun p => p.1.1 <> md) mp.

Lemma forget_lookup md mp k : forget md mp !! k = if decide (k.1 = md) then None else mp !! k.
Proof.
  unfold forget. case_decide as E.
  - apply map_lookup_filter_None. right. intros x _ H. by apply H.
  - destruct (mp !! k) as [x|] eqn:Ek.
    + by apply map_lookup_filter_Some.
    + apply map_lookup_filter_None. by left.
Qed.

Lemma code_mapped_mono ps text text' k :
  (forall l, text !! co_base k = Some l -> text' !! co_base k = Some l) ->
  code_mapped ps text k -> code_mapped ps text' k.
Proof. intros H [H1 H0 (l & H2 & H3) H4 H5]. split; eauto. Qed.

(** Pages have a power of two of bytes. *)
Definition page_size_ok (page_size : Z) : Prop := exists k, 0 <= k < 64 /\ page_size = 2 ^ k.

Lemma round_pages_mask k x : 0 <= k < 64 ->
  Z.land (u64 x) (u64 (Z.lnot (2 ^ k - 1))) = u64 (Z.shiftl (Z.shiftr x k) k).
Proof.
  intros Hk. unfold wrapU. rewrite <- !Z.land_ones by lia. apply Z.bits_inj'. intros i Hi.
  replace (2 ^ k - 1) with (Z.ones k) by (rewrite Z.ones_equiv; lia).
  rewrite !Z.land_spec, Z.lnot_spec, Z.shiftl_spec by lia.
  destruct (decide (i < k)) as [Hlt|Hge].
  - rewrite (Z.ones_spec_low k i), (Z.testbit_neg_r _ (i - k)) by lia. cbn. by rewrite ?andb_false_r.
  - rewrite (Z.ones_spec_high k i), Z.shiftr_spec by lia. replace (i - k + k) with i by lia. cbn.
    by destruct (Z.testbit x i), (Z.testbit (Z.ones 64) i).
Qed.

Lemma round_pages_idemp ps n : page_size_ok ps -> round_pages ps (round_pages ps n) = round_pages ps n.
Proof.
  intros (k & Hk & ->). unfold round_pages. rewrite !round_pages_mask by done.
  set (q := Z.shiftr (n + 2 ^ k - 1) k). assert (Hp : 2 ^ 64 = 2 ^ (64 - k) * 2 ^ k).
  { rewrite <- Z.pow_add_r by lia. f_equal. lia. }
  pose proof (Z.pow_pos_nonneg 2 k ltac:(lia) ltac:(lia)).
  assert (E : u64 (Z.shiftl q k) = (q mod 2 ^ (64 - k)) * 2 ^ k).
  { unfold wrapU. rewrite Z.shiftl_mul_pow2, Hp by lia. by apply Zmult_mod_distr_r. }
  rewrite E. rewrite Z.shiftr_div_pow2, Z.shiftl_mul_pow2 by lia.
  replace ((q mod 2 ^ (64 - k)) * 2 ^ k + 2 ^ k - 1) with ((2 ^ k - 1) + (q mod 2 ^ (64 - k)) * 2 ^ k) by lia.
  rewrite Z.div_add, Z.div_small by lia. rewrite Z.add_0_l, <- E. by apply wrapU_idemp.
Qed.

Section Cache.
Context (page_size : Z) (mmap : jello_jit_state -> Z -> option Z).
Context (mprotect : jello_jit_state -> Z -> bool) (alloc_ok : Z -> bool).
Hypothesis Hpage : page_size_ok page_size.
(** [mmap] gives memory nobody else has. *)
Hypothesis Hmmap : forall st n a, mmap st n = Some a -> a <> 0 /\ js_text st !! a = None.

Abbreviation cache_insert := (jello_jit_cache_insert page_size mmap mprotect alloc_ok).
Abbreviation drop_module := (jello_jit_cache_drop_module page_size).

(** ** Insertion *)

Lemma page_size_pos : 0 < page_size.
Proof. destruct Hpage as (k & Hk & ->). apply Z.pow_pos_nonneg; lia. Qed.

(** Unmapping with the size of the mapping takes exactly it away. *)
Lemma unmap_text mem size code st : mem <> 0 -> js_text st !! mem = Some code ->
  round_pages page_size size = round_pages page_size (zlen code) ->
  jit_unmap page_size mem size st = set_text (delete mem (js_text st)) st.
Proof.
  intros Hm Hc Hs. unfold jit_unmap, jit_munmap.
  rewrite (proj2 (Z.eqb_neq _ _) Hm), (proj2 (Z.leb_gt _ _) page_size_pos), Hc, Hs. cbn. by rewrite Z.eqb_refl.
Qed.

Lemma unmap_same mem code st : mem <> 0 -> js_text st !! mem = None ->
  jit_unmap page_size mem (round_pages page_size (zlen code)) (set_text (<[mem := code]> (js_text st)) st) = st.
Proof.
  intros Hm Hn. rewrite (unmap_text _ _ code);
    [|done | by cbn; rewrite lookup_insert_eq | by apply round_pages_idemp].
  unfold set_text. cbn. rewrite delete_insert_id by done. by destruct st.
Qed.

(** The size the entries are unmapped with is that of their pages. *)
Lemma mapped_size_pages text k : code_mapped page_size text k ->
  round_pages page_size (mapped_size k) = round_pages page_size (co_size k).
Proof.
  intros [_ Hp _ _ _]. unfold mapped_size. rewrite Hp. case_if; [done|]. by apply round_pages_idemp.
Qed.

Lemma insert_inv st md fi code eo bo mp st' r :
  cache_insert st md fi code eo bo mp = (st', r) ->
  match r with
  | None => st' = st
  | Some k => md <> 0 /\ eo < zlen code /\ bo < zlen code /\ co_base k <> 0 /\
    js_text st !! co_base k = None /\ co_size k = zlen code /\
    co_map_size k = round_pages page_size (zlen code) /\ co_entry k = co_base k + eo /\
    co_body k = co_base k + bo /\ co_bc_pc_map k = mp /\ co_func_idx k = fi /\
    st' = set_cache (mk_entry md fi k :: js_cache st) (set_text (<[co_base k := code]> (js_text st)) st)
  end.
Proof.
  unfold jello_jit_cache_insert. case_if; [by intros [= <- <-]|].
  unfold jit_map_code. case_if; [by intros [= <- <-]|]. case_if; [by intros [= <- <-]|].
  destruct (mmap st _) as [mem|] eqn:Em; cbn; [|by intros [= <- <-]].
  destruct (Hmmap _ _ _ Em) as [Hm Hn]. case_if; [|by intros [= <- <-]].
  case_if; [intros [= <- <-]; by apply unmap_same|].
  case_if; [intros [= <- <-]; by apply unmap_same|]. bool_hyps.
  intros [= <- <-]. cbn. split_and!; try done; lia.
Qed.

Lemma insert_ok st md fi code eo bo mp st' k :
  0 <= eo -> 0 <= bo -> cache_ok page_size st -> cache_insert st md fi code eo bo mp = (st', Some k) ->
  cache_ok page_size st'.
Proof.
  intros He Hb [Hes Hd Hl] E%insert_inv.
  destruct E as (Hmd & Heo & Hbo & Hbase & Hfresh & Hsz & Hms & Hen & Hbd & _ & _ & ->). split; cbn.
  - apply Forall_cons. split.
    + split; [done|]. split; cbn; [done | congruence | | lia | lia]. exists code. by rewrite lookup_insert_eq.
    + eapply Forall_impl; [exact Hes|]. intros e [He1 He2]. split; [done|]. eapply code_mapped_mono; [|done].
      intros l Hl'. rewrite lookup_insert_ne; [done|]. intros Hx. by rewrite Hx, Hl' in Hfresh.
  - apply NoDup_cons. split; [|done]. intros Hin. unfold bases in Hin.
    apply list_elem_of_fmap in Hin as (e & Hbe & Hin). rewrite Forall_forall in Hes.
    destruct (Hes e Hin) as [_ [_ _ (l & Hl' & _) _ _]]. rewrite <- Hbe in Hl'. by rewrite Hl' in Hfresh.
  - intros a. destruct (decide (a = co_base k)) as [->|Hne]; [intros; constructor|].
    rewrite lookup_insert_ne by done. intros Ha. apply list_elem_of_further. by apply Hl.
Qed.

Lemma lookup_insert_code st md fi code eo bo mp st' k md' fi' :
  cache_insert st md fi code eo bo mp = (st', Some k) ->
  jello_jit_cache_lookup st' md' fi' =
  if decide ((md', fi') = (md, fi)) then Some k else jello_jit_cache_lookup st md' fi'.
Proof.
  intros E%insert_inv. destruct E as (Hmd & _ & _ & _ & _ & _ & _ & _ & _ & _ & _ & ->).
  unfold jello_jit_cache_lookup. cbn. destruct (md' =? 0) eqn:E0.
  - bool_hyps. rewrite decide_False by (intros [= ? ?]; lia). done.
  - destruct ((md =? md') && (fi =? fi')) eqn:E1; bool_hyps; cbn.
    + subst. by rewrite decide_True.
    + rewrite decide_False; [done|]. intros [= -> ->]. by rewrite !Z.eqb_refl in E1.
Qed.
(** ** Dropping a module *)

Definition keeps_mod (md : Z) (e : jello_jit_cache_entry) : bool := negb (ce_mod e =? md).

Abbreviation kept md es := (List.filter (keeps_mod md) es).

Abbreviation dropped md es := (List.filter (fun e => ce_mod e =? md) es).

(** The entries of the module are gone, with their memory and no other. *)
Lemma drop_entries_spec md es st :
  Forall (fun e => code_mapped page_size (js_text st) (ce_code e)) es -> NoDup (bases es) ->
  exists st', drop_entries page_size md es st = (kept md es, st') /\
  forall a, js_text st' !! a = if decide (a ∈ bases (dropped md es)) then None else js_text st !! a.
Proof.
  revert st. induction es as [|e es IH]; intros st Hb Hd; cbn; [by eexists|].
  apply Forall_cons in Hb as [Hb0 Hb]. cbn in Hd. apply NoDup_cons in Hd as [Hn Hd]. unfold keeps_mod at 1.
  destruct (ce_mod e =? md) eqn:E; cbn [negb].
  - assert (Hm : mapped_at (ce_code e) = co_base (ce_code e)).
    { unfold mapped_at. by rewrite (proj2 (Z.eqb_neq _ _) (cm_base _ _ _ Hb0)). }
    destruct (cm_bytes _ _ _ Hb0) as (l & Hl & Hz).
    rewrite Hm, (unmap_text _ _ l); [|apply (cm_base _ _ _ Hb0) | done | by rewrite (mapped_size_pages _ _ Hb0), Hz].
    destruct (IH (set_text (delete (co_base (ce_code e)) (js_text st)) st)) as (st' & -> & H); [|done|].
    { apply Forall_forall. intros e' He'. rewrite Forall_forall in Hb. eapply code_mapped_mono; [|by apply Hb].
      intros l' Hl'. cbn. rewrite lookup_delete_ne; [done|]. intros Hx. apply Hn. rewrite Hx. apply list_elem_of_fmap. by exists e'. }
    exists st'. split; [done|]. intros a. rewrite H. cbn. case_decide as Hin.
    + rewrite decide_True; [done | by apply list_elem_of_further].
    + destruct (decide (a = co_base (ce_code e))) as [->|Hne].
      * rewrite lookup_delete_eq, decide_True; [done | by apply list_elem_of_here].
      * rewrite lookup_delete_ne, decide_False; [done | by intros [?|?]%elem_of_cons | done].
  - destruct (IH st Hb Hd) as (st' & -> & H). by exists st'.
Qed.

Lemma find_kept (P : jello_jit_cache_entry -> bool) md es :
  (forall e, P e = true -> ce_mod e <> md) -> find P (kept md es) = find P es.
Proof.
  intros HP. induction es as [|e es IH]; [done|]. cbn. unfold keeps_mod at 1.
  destruct (ce_mod e =? md) eqn:E; cbn.
  - rewrite IH. destruct (P e) eqn:Ep; [|done]. exfalso. bool_hyps. by apply (HP e).
  - by rewrite IH.
Qed.

Lemma find_dropped fi md es : find (fun e => (ce_mod e =? md) && (ce_func_idx e =? fi)) (kept md es) = None.
Proof.
  induction es as [|e es IH]; [done|]. cbn. unfold keeps_mod at 1.
  destruct (ce_mod e =? md) eqn:E; cbn; [done|]. by rewrite E.
Qed.

Lemma kept_dropped md es e : e ∈ es -> e ∈ (kept md es) \/ e ∈ (dropped md es).
Proof.
  rewrite !list_elem_of_In, !filter_In. unfold keeps_mod. intros H.
  destruct (ce_mod e =? md); [by right | by left].
Qed.

Lemma bases_kept md es b : b ∈ bases (kept md es) -> b ∈ bases es.
Proof.
  unfold bases. rewrite !list_elem_of_fmap. intros (e & -> & H). exists e. split; [done|].
  rewrite list_elem_of_In, filter_In in H. rewrite list_elem_of_In. by destruct H.
Qed.

(** No address is both kept and dropped. *)
Lemma bases_disjoint md es b : NoDup (bases es) -> b ∈ bases (kept md es) -> b ∈ bases (dropped md es) -> False.
Proof.
  induction es as [|e es IH]; cbn; [by intros _ H%elem_of_nil|]. intros [Hn Hd]%NoDup_cons. unfold keeps_mod at 1.
  destruct (ce_mod e =? md); cbn.
  - intros Hk [->|Hb]%elem_of_cons; [|by apply IH]. by apply Hn, (bases_kept md).
  - intros [->|Hk]%elem_of_cons Hb; [|by apply IH]. apply Hn. unfold bases in *.
    rewrite list_elem_of_fmap in Hb |- *. destruct Hb as (e' & Hb & Hin). exists e'. split; [done|].
    rewrite list_elem_of_In, filter_In in Hin. rewrite list_elem_of_In. by destruct Hin.
Qed.

Lemma NoDup_kept md es : NoDup (bases es) -> NoDup (bases (kept md es)).
Proof.
  induction es as [|e es IH]; cbn; [done|]. intros [Hn Hd]%NoDup_cons. destruct (keeps_mod md e); cbn; [|by apply IH].
  apply NoDup_cons. split; [|by apply IH]. intros Hin. by apply Hn, (bases_kept md).
Qed.

(** A function found in the cache has an entry there. *)
Lemma lookup_entry st md fi k : jello_jit_cache_lookup st md fi = Some k ->
  exists e, e ∈ js_cache st /\ ce_code e = k.
Proof.
  unfold jello_jit_cache_lookup. case_if; [done|]. destruct (find _ _) as [e|] eqn:E; [|done].
  intros [= <-]. exists e. split; [|done]. apply find_some in E as [E _]. by apply list_elem_of_In.
Qed.

Lemma drop_module_spec md st : cache_ok page_size st -> md <> 0 -> cache_ok page_size (drop_module st md) /\
  (forall md' fi, jello_jit_cache_lookup (drop_module st md) md' fi =
    if decide (md' = md) then None else jello_jit_cache_lookup st md' fi) /\
  (forall e, e ∈ js_cache (drop_module st md) ->
    js_text (drop_module st md) !! co_base (ce_code e) = js_text st !! co_base (ce_code e)).
Proof.
  intros [Hes Hd Hl] Hmd. unfold jello_jit_cache_drop_module. rewrite (proj2 (Z.eqb_neq _ _) Hmd).
  destruct (drop_entries_spec md (js_cache st) st) as (st' & -> & Ht); [|done|].
  { eapply Forall_impl; [exact Hes|]. by intros e [_ H]. }
  assert (Hkeep : forall e, e ∈ kept md (js_cache st) -> js_text st' !! co_base (ce_code e) = js_text st !! co_base (ce_code e)).
  { intros e He. rewrite Ht, decide_False; [done|].
    intros Hb. eapply (bases_disjoint md); [exact Hd | | exact Hb]. apply list_elem_of_fmap. by exists e. }
  split; [split; cbn|split; [|exact Hkeep]].
  - apply Forall_forall. intros e He. pose proof He as He'. rewrite list_elem_of_In, filter_In in He'.
    destruct He' as [Hin%list_elem_of_In _]. rewrite Forall_forall in Hes. destruct (Hes e Hin) as [H1 H2].
    split; [done|]. eapply code_mapped_mono; [|exact H2]. intros l Hb. by rewrite Hkeep.
  - by apply NoDup_kept.
  - intros a. rewrite Ht. case_decide as Hb; [by intros []|]. intros (e & -> & He)%Hl%list_elem_of_fmap.
    apply list_elem_of_fmap. exists e. split; [done|]. destruct (kept_dropped md _ _ He) as [?|Hdr]; [done|].
    exfalso. apply Hb, list_elem_of_fmap. by exists e.
  - intros md' fi. unfold jello_jit_cache_lookup. cbn. destruct (md' =? 0) eqn:E0; [by case_decide|].
    case_decide as E; [subst; by rewrite find_dropped|]. rewrite find_kept; [done|].
    intros e He. bool_hyps. congruence.
Qed.

(** ** The cache is a map *)

Inductive reaches : jello_jit_state -> code_map -> Prop :=
| reach_create : reaches jello_jit_state_create ∅
| reach_insert st mp md fi code eo bo pcs st' r :
  reaches st mp -> 0 <= eo -> 0 <= bo -> cache_insert st md fi code eo bo pcs = (st', r) ->
  reaches st' (match r with Some k => <[(md, fi) := (k, code)]> mp | None => mp end)
| reach_nest st mp n : reaches st mp -> reaches (set_nest n st) mp
| reach_hot st mp h : reaches st mp -> reaches (set_hot h st) mp
| reach_drop st mp md : reaches st mp -> md <> 0 -> reaches (drop_module st md) (forget md mp).

(** The cache stands for the map: lookups agree and the bytes of the code are mapped. *)
Record stands_for (st : jello_jit_state) (mp : code_map) : Prop := {
  sf_ok : cache_ok page_size st;
  sf_lookup : forall md fi, jello_jit_cache_lookup st md fi = fst <$> mp !! (md, fi);
  sf_bytes : forall f k code, mp !! f = Some (k, code) -> js_text st !! co_base k = Some code
}.

Lemma stands_insert st mp md fi code eo bo pcs st' k : stands_for st mp -> 0 <= eo -> 0 <= bo ->
  cache_insert st md fi code eo bo pcs = (st', Some k) -> stands_for st' (<[(md, fi) := (k, code)]> mp).
Proof.
  intros [Hok Hl Hc] He Hb E. split.
  - by apply (insert_ok st md fi code eo bo pcs _ k).
  - intros md' fi'. erewrite lookup_insert_code by exact E.
    case_decide as D; [rewrite D; by rewrite lookup_insert_eq | rewrite lookup_insert_ne by congruence; apply Hl].
  - pose proof (insert_inv _ _ _ _ _ _ _ _ _ E) as (_ & _ & _ & _ & Hfresh & _ & _ & _ & _ & _ & _ & ->). cbn.
    intros f k' code'. destruct (decide (f = (md, fi))) as [->|Hne].
    + rewrite lookup_insert_eq. intros [= <- <-]. by rewrite lookup_insert_eq.
    + rewrite lookup_insert_ne by done. intros Hf%Hc. rewrite lookup_insert_ne; [done|]. congruence.
Qed.

Lemma stands_drop st mp md : stands_for st mp -> md <> 0 -> stands_for (drop_module st md) (forget md mp).
Proof.
  intros [Hok Hl Hc] Hmd. destruct (drop_module_spec md st Hok Hmd) as (Hok' & Hl' & Ht). split; [done| |].
  - intros md' fi'. rewrite Hl', forget_lookup. cbn. case_decide; [done | apply Hl].
  - intros [md' fi'] k code. rewrite forget_lookup. cbn. case_decide as D; [done|]. intros Hf.
    pose proof (Hl' md' fi') as E. rewrite decide_False, Hl, Hf in E by done.
    apply (lookup_entry _ _ _ k) in E as (e & He & <-). rewrite Ht by done. by apply (Hc _ _ _ Hf).
Qed.

(** C21: whatever the compiler inserts, counts and drops, looking a function up in the
    cache gives what the map from module and function to code gives (the code inserted
    last for that function of that module, nothing once the module was unloaded), the bytes
    inserted for it are what is mapped at its address, all the cached code lies in memory
    that is mapped, with its entry and its body inside, no two entries share their memory,
    and nothing stays mapped that is not in the cache: code is unmapped with the size of
    its pages. *)
Theorem code_cache_is_a_map st mp : reaches st mp ->
  cache_ok page_size st /\ (forall md fi, jello_jit_cache_lookup st md fi = fst <$> mp !! (md, fi)) /\
  (forall f k code, mp !! f = Some (k, code) -> js_text st !! co_base k = Some code).
Proof.
  intros H. assert (stands_for st mp) as [? ? ?]; [|done].
  induction H as [|st mp md fi code eo bo pcs st' r _ IH He Hb E|st mp n _ [[H1 H2 H3] Hl Hc]
    |st mp h _ [[H1 H2 H3] Hl Hc]|st mp md _ IH Hmd].
  - split.
    + split; cbn; [done | constructor | by intros a [? ?]].
    + intros md fi. rewrite lookup_empty. unfold jello_jit_cache_lookup. by case_if.
    + done.
  - destruct r as [k|]; [exact (stands_insert _ _ _ _ _ _ _ _ _ _ IH He Hb E)|]. apply insert_inv in E as ->. done.
  - by split.
  - by split.
  - by apply stands_drop.
Qed.
End Cache.

(** ** A run: two versions of a function, another module unloaded *)

Definition demo_mmap (st : jello_jit_state) (n : Z) : option Z :=
  let a := 4096 * (1 + Z.of_nat (size (js_text st))) in
  match js_text st !! a with None => Some a | Some _ => None end.

Lemma demo_mmap_fresh st n a : demo_mmap st n = Some a -> a <> 0 /\ js_text st !! a = None.
Proof.
  unfold demo_mmap. destruct (js_text st !! _) eqn:E; [done|]. intros [= <-]. split; [lia | done].
Qed.

Lemma demo_page : page_size_ok 4096.
Proof. by exists 12. Qed.

Abbreviation demo_insert := (jello_jit_cache_insert 4096 demo_mmap (fun _ _ => true) (fun _ => true)).
Definition demo_state1 : jello_jit_state := fst (demo_insert jello_jit_state_create 8 3 [0x90; 0xC3] 0 1 []).
Definition demo_state2 : jello_jit_state := fst (demo_insert demo_state1 16 0 [0xC3] 0 0 [0; 1]).
Definition demo_state3 : jello_jit_state := fst (demo_insert demo_state2 8 3 [0xC3] 0 0 []).
Definition demo_state4 : jello_jit_state := jello_jit_cache_drop_module 4096 demo_state3 16.

Lemma code_cache_is_a_map_witness :
  (co_base <$> jello_jit_cache_lookup demo_state4 8 3) = Some 12288 /\
  jello_jit_cache_lookup demo_state4 16 0 = None /\
  exists mp : code_map, cache_ok 4096 demo_state4 /\
    (forall md fi, jello_jit_cache_lookup demo_state4 md fi = fst <$> mp !! (md, fi)) /\
    (forall f k code, mp !! f = Some (k, code) -> js_text demo_state4 !! co_base k = Some code).
Proof.
  split; [vm_compute; reflexivity|]. split; [vm_compute; reflexivity|]. eexists.
  apply (code_cache_is_a_map 4096 demo_mmap (fun _ _ => true) (fun _ => true));
    [exact demo_page | exact demo_mmap_fresh|].
  apply reach_drop; [|discriminate].
  eapply (reach_insert _ _ _ _ demo_state2 _ 8 3 [0xC3] 0 0 []); [|discriminate|discriminate|apply surjective_pairing].
  eapply (reach_insert _ _ _ _ demo_state1 _ 16 0 [0xC3] 0 0 [0; 1]); [|discriminate|discriminate|apply surjective_pairing].
  eapply (reach_insert _ _ _ _ jello_jit_state_create _ 8 3 [0x90; 0xC3] 0 1 []);
    [apply reach_create|discriminate|discriminate|apply surjective_pairing].
Defined.
