(* ===== verification/JitRun.v ===== *)
(** * The functions compiled code calls

    Model of src/src/jit/jit_runtime.c and jit_deopt.c.  The part of [exec_ctx] that
    changes while compiled code runs is a state next to that of the machine; a
    [call_frame*] is an index into the frames, a [const jello_bc_function*] an index
    into the functions of the module.  The code at an address is run by [native_run]
    ([entry(ctx)]): it is generated.  [JELLO_JIT_DUMP] output is left out. *)

From Stdlib Require Import String.
From S2P Require Import Prelude CInt Memory Bytecode Value Object Heap Vm Frame Float Gc Box Types Ops ArithOps Call Exc CoreOps CallOps ContainerOps BytesOps ObjOps Exec JitIr JitState.

Open Scope string_scope.
Open Scope Z_scope.

(** ** The context *)

Record jit_ctx : Set := mk_jx {
  jx_fr : option Z;             (* fr, None is NULL *)
  jx_f : option Z;              (* f *)
  jit_resume_entry : Z;
  jit_self_resume : Z;
  jit_call_entry : Z;
  jx_out : option Z;            (* what was written to *out *)
  jx_out_exports : option Z;
  jit_enabled : bool;           (* vm->jit_enabled *)
  jit_state : option jello_jit_state   (* vm->jit_state *)
}.

Definition J (A : Type) : Type := jit_ctx -> M (A * jit_ctx).

#[export] Instance J_ret : MRet J := fun A a c => mret (a, c).
#[export] Instance J_bind : MBind J := fun A B k p c => '(a, c) ← p c; k a c.

Definition lift {A} (p : M A) : J A := fun c => a ← p; mret (a, c).
Definition get_ctx : J jit_ctx := fun c => mret (c, c).
Definition put_ctx (c : jit_ctx) : J () := fun _ => mret ((), c).

Definition at_frame (fr f : option Z) (c : jit_ctx) : jit_ctx :=
  mk_jx fr f (jit_resume_entry c) (jit_self_resume c) (jit_call_entry c) (jx_out c)
    (jx_out_exports c) (jit_enabled c) (jit_state c).
Definition with_resume (a : Z) (c : jit_ctx) : jit_ctx :=
  mk_jx (jx_fr c) (jx_f c) a (jit_self_resume c) (jit_call_entry c) (jx_out c)
    (jx_out_exports c) (jit_enabled c) (jit_state c).
Definition with_self_resume (a : Z) (c : jit_ctx) : jit_ctx :=
  mk_jx (jx_fr c) (jx_f c) (jit_resume_entry c) a (jit_call_entry c) (jx_out c)
    (jx_out_exports c) (jit_enabled c) (jit_state c).
Definition with_call_entry (a : Z) (c : jit_ctx) : jit_ctx :=
  mk_jx (jx_fr c) (jx_f c) (jit_resume_entry c) (jit_self_resume c) a (jx_out c)
    (jx_out_exports c) (jit_enabled c) (jit_state c).
Definition with_out (o ex : option Z) (c : jit_ctx) : jit_ctx :=
  mk_jx (jx_fr c) (jx_f c) (jit_resume_entry c) (jit_self_resume c) (jit_call_entry c) o ex
    (jit_enabled c) (jit_state c).
Definition with_jit_state (s : option jello_jit_state) (c : jit_ctx) : jit_ctx :=
  mk_jx (jx_fr c) (jx_f c) (jit_resume_entry c) (jit_self_resume c) (jit_call_entry c) (jx_out c)
    (jx_out_exports c) (jit_enabled c) s.

Definition modify (g : jit_ctx -> jit_ctx) : J () := c ← get_ctx; put_ctx (g c).

(** [jello_jit_exit] and [jello_jit_run_result]. *)
Inductive jello_jit_exit : Set :=
| EXIT_CONTINUE | EXIT_YIELD | EXIT_RETURNED | EXIT_TRAP.

#[export] Instance jello_jit_exit_eq_dec : EqDecision jello_jit_exit.
Proof. solve_decision. Defined.

Inductive jello_jit_run_result : Set :=
| RUN_CONTINUE | RUN_RETURNED | RUN_STEPPED | RUN_NESTED_RET.

#[export] Instance jello_jit_run_result_eq_dec : EqDecision jello_jit_run_result.
Proof. solve_decision. Defined.

(** [ctx->fr->pc = pc], [fr->jit_entry_done = 1] and [fr->jit_resume_hint = v]. *)
Definition set_entry_done (fr : call_frame) : call_frame :=
  mk_frame (cf_f fr) (cf_rf fr) (cf_pc fr) (cf_caller_dst fr) (cf_exc_base fr) (cf_has_caller fr)
    (cf_jdll_ret_capture fr) (cf_has_pointer_or_dynamic fr) true (cf_jit_resume_hint fr)
    (cf_jit_osr_hint fr) (cf_jit_return_addr fr).

Definition set_hints (resume osr : bool) (fr : call_frame) : call_frame :=
  mk_frame (cf_f fr) (cf_rf fr) (cf_pc fr) (cf_caller_dst fr) (cf_exc_base fr) (cf_has_caller fr)
    (cf_jdll_ret_capture fr) (cf_has_pointer_or_dynamic fr) (cf_jit_entry_done fr) resume osr
    (cf_jit_return_addr fr).

Definition update_frame (i : Z) (g : call_frame -> call_frame) : M () :=
  fr ← frame_at i; set_frame_at i (g fr).

Section Run.
Context (malloc : gc_state -> Z -> option Z) (m : jello_bc_module) (maddr : Z).
Context (nan32 nan64 junk : Z) (nan16 : bool -> Z).
Context (native : exec_ctx -> jello_insn -> Z -> Z -> M ()).
Context (jdll_prim : exec_ctx -> jello_insn -> Z -> Z -> M bool).
(** [ctx->out_exports] with [ctx->entry_module_idx]; the environment; [entry(ctx)]. *)
Context (exports : option Z) (getenv : string -> option string).
Context (native_run : Z -> J jello_jit_exit).

Abbreviation store_from_boxed := (vm_store_from_boxed malloc m nan32 nan64).
Abbreviation box_from_typed := (vm_box_from_typed malloc m).
Abbreviation trap code msg := (lift (jello_vm_trap m code msg)).
Abbreviation run_enabled := (jello_jit_config_run_enabled getenv).

(** ** jit_deopt.c *)

Definition jello_jit_deopt_sync_ctx : J () :=
  n ← lift nframes;
  if n =? 0 then mret () else
  fr ← lift (frame_at (n - 1));
  modify (at_frame (Some (n - 1)) (Some (cf_f fr))).

Definition jello_jit_deopt_continue (bc_pc : Z) : J () :=
  c ← get_ctx;
  match jx_fr c with
  | None => mret ()
  | Some fr => _ ← lift (set_frame_pc fr (u32 (bc_pc + 1))); jello_jit_deopt_sync_ctx
  end.

Definition jello_jit_runtime_yield_at_pc (bc_pc : Z) : J jello_jit_exit :=
  c ← get_ctx;
  _ ← match jx_fr c with None => mret () | Some fr => lift (set_frame_pc fr bc_pc) end;
  _ ← jello_jit_deopt_sync_ctx;
  mret EXIT_YIELD.

(** ** Shapes the helpers share *)

(** [if(!ctx->fr || !ctx->f) return JELLO_JIT_EXIT_TRAP;], then the body with the
    index of the frame, the frame and the function. *)
Definition with_frame (k : Z -> call_frame -> jello_bc_function -> J jello_jit_exit) : J jello_jit_exit :=
  c ← get_ctx;
  match jx_fr c, jx_f c with
  | Some i, Some fi => fr ← lift (frame_at i); f ← lift (fun_at m fi); k i fr f
  | _, _ => mret EXIT_TRAP
  end.

(** A handler on the context; what it writes to [*out] stays there. *)
Definition run_op (h : op_handler) (i : Z) (fr : call_frame) (f : jello_bc_function) (ins : jello_insn)
  : J op_result :=
  r ← lift (h (mk_ctx f i (cf_rf fr) exports) ins);
  _ ← match r with
  | OP_RETURN out ex =>
    modify (fun c => with_out (Some out) (match ex with Some _ => ex | None => jx_out_exports c end) c)
  | _ => mret ()
  end;
  mret r.

Definition pending : J bool := e ← lift get_exc; mret (exc_pending e).

(** [sync; return JELLO_JIT_EXIT_TRAP;]. *)
Definition sync_trap : J jello_jit_exit := _ ← jello_jit_deopt_sync_ctx; mret EXIT_TRAP.

(** [(void)jello_vm_trap(...); sync; return JELLO_JIT_EXIT_TRAP;]. *)
Definition raise_trap (code : jello_trap_code) (msg : string) : J jello_jit_exit :=
  _ ← trap code msg; sync_trap.

(** [p; return JELLO_JIT_EXIT_CONTINUE;]. *)
Definition then_continue (p : M ()) : J jello_jit_exit := _ ← lift p; mret EXIT_CONTINUE.

Definition is_trap (r : op_result) : bool := match r with OP_TRAP => true | _ => false end.

(** [ins = {op, a, b, c, imm}], the operands [uint8_t]. *)
Definition jit_insn (op : jello_op) (a b c imm : Z) : jello_insn :=
  mk_insn (code_of_op op) (u8 a) (u8 b) (u8 c) imm.

(** ** Entering compiled code *)

Definition jello_jit_runtime_run (code : jello_jit_code) : J jello_jit_run_result :=
  if co_entry code =? 0 then mret RUN_CONTINUE else
  c ← get_ctx;
  let prev_resume := jit_resume_entry c in
  exit_ ← native_run (co_entry code);
  _ ← modify (with_resume prev_resume);
  _ ← jello_jit_deopt_sync_ctx;
  mret (match exit_ with EXIT_RETURNED => RUN_RETURNED | _ => RUN_STEPPED end).

Definition nest_inc : J () := modify (fun c => with_jit_state (jello_jit_state_nest_inc <$> jit_state c) c).
Definition nest_dec : J () := modify (fun c => with_jit_state (jello_jit_state_nest_dec <$> jit_state c) c).

(** The frame at [i] starts in native code, one level deeper. *)
Definition run_nested (i : Z) (code : jello_jit_code) : J jello_jit_run_result :=
  _ ← lift (update_frame i set_entry_done);
  _ ← modify (with_resume 0);
  _ ← nest_inc;
  rr ← jello_jit_runtime_run code;
  _ ← nest_dec;
  _ ← jello_jit_deopt_sync_ctx;
  mret rr.

Definition NEST_MAX : Z := 256.

(** The compiled code of a function, when it may be run from here. *)
Definition nested_code (fi : Z) : J (option jello_jit_code) :=
  c ← get_ctx;
  mret (match jit_state c with
    | Some st => if negb run_enabled || (NEST_MAX <=? js_nest st) then None
    else jello_jit_cache_lookup st maddr fi
    | None => None
    end).

Definition is_returned (rr : jello_jit_run_result) : bool := bool_decide (rr = RUN_RETURNED).

Definition jit_run_compiled_callee (caller_depth resume_pc : Z) : J bool :=
  n ← lift nframes;
  if n <=? caller_depth then mret false else
  callee_fr ← lift (frame_at caller_depth);
  if negb (cf_pc callee_fr =? 0) then mret false else
  code ← nested_code (cf_f callee_fr);
  match code with
  | None => mret false
  | Some ccode =>
    _ ← modify (at_frame (Some caller_depth) (Some (cf_f callee_fr)));
    rr ← run_nested caller_depth ccode;
    p ← pending;
    if p : bool then mret false else
    n ← lift nframes;
    if is_returned rr && (n =? 0) then mret false else
    c ← get_ctx;
    match jx_fr c with
    | Some i => fr ← lift (frame_at i); mret ((n =? caller_depth) && (cf_pc fr =? resume_pc))
    | None => mret false
    end
  end.

(** ** The slow path *)

(** [cache[i]], the function object made on its first use. *)
Definition const_fun_object (f : jello_bc_function) (dst i : Z) : M Z :=
  g ← get_gc;
  fn ← must (const_fun_cache g @! i);
  if negb (fn =? 0) then mret fn else
  type_id ← must (f_reg_types f @! dst);
  p ← jello_function_new malloc m type_id i;
  g ← get_gc;
  _ ← put_gc (set_caches ((const_fun_cache g) @[i := p]) (const_bytes_cache g) (enum_nullary_by_type g) g);
  mret p.

Definition slow_const_fun (bc_pc : Z) (ins : jello_insn) : J jello_jit_exit :=
  with_frame (fun i fr f =>
    g ← lift get_gc;
    if zlen (const_fun_cache g) <=? i_imm ins then
      _ ← trap JELLO_TRAP_TYPE_MISMATCH "const_fun out of range"; mret EXIT_TRAP
    else
    fn ← lift (const_fun_object f (i_a ins) (i_imm ins));
    _ ← lift (vm_store_ptr (cf_rf fr) (i_a ins) fn);
    then_continue (set_frame_pc i (u32 (bc_pc + 1)))).

(** A callee was pushed: run it nested, or leave to the interpreter. *)
Definition slow_call (depth_before bc_pc : Z) : J jello_jit_exit :=
  let resume_pc := u32 (bc_pc + 1) in
  _ ← (if 0 <? depth_before then lift (update_frame (depth_before - 1) (set_pc resume_pc)) else mret ());
  done ← jit_run_compiled_callee depth_before resume_pc;
  if done : bool then mret EXIT_CONTINUE else
  p ← pending;
  if p : bool then mret EXIT_TRAP else
  n ← lift nframes;
  if n =? 0 then mret EXIT_RETURNED else
  _ ← (if (0 <? depth_before) && (depth_before <? n)
    then lift (update_frame (depth_before - 1) (fun fr => set_hints true (cf_jit_osr_hint fr) fr))
    else mret ());
  _ ← jello_jit_deopt_sync_ctx;
  mret EXIT_YIELD.

(** The frame was replaced: run the new function nested if it is compiled. *)
Definition slow_tail : J jello_jit_exit :=
  c ← get_ctx;
  match jx_fr c, jx_f c with
  | Some i, Some fi =>
    code ← nested_code fi;
    match code with
    | None => mret EXIT_YIELD
    | Some ccode =>
      rr ← run_nested i ccode;
      p ← pending;
      if p : bool then mret EXIT_TRAP else
      n ← lift nframes;
      mret (if is_returned rr && (n =? 0) then EXIT_RETURNED else EXIT_YIELD)
    end
  | _, _ => mret EXIT_YIELD
  end.

Definition is_tail_op (op : Z) : bool :=
  (op =? code_of_op JOP_TAILCALL) || (op =? code_of_op JOP_TAILCALLR).

(** [ctx->fr->pc]. *)
Definition current_pc : J (option Z) :=
  c ← get_ctx;
  match jx_fr c with
  | Some i => fr ← lift (frame_at i); mret (Some (cf_pc fr))
  | None => mret None
  end.

(** What the frames say after the handler answered [OP_CONTINUE]. *)
Definition slow_outcome (depth_before bc_pc : Z) (ins : jello_insn) : J jello_jit_exit :=
  n ← lift nframes;
  if depth_before <? n then slow_call depth_before bc_pc else
  pc ← (if n =? 0 then mret None else current_pc);
  if (n =? depth_before) && bool_decide (pc = Some 0) && is_tail_op (i_op ins) then slow_tail else
  if n <? depth_before then mret EXIT_YIELD else
  mret (match pc with
    | Some pc => if pc =? u32 (bc_pc + 1) then EXIT_CONTINUE else EXIT_YIELD
    | None => EXIT_CONTINUE
    end).

Definition jello_jit_runtime_slow_op (bc_pc : Z) : J jello_jit_exit :=
  with_frame (fun i fr f =>
    depth_before ← lift nframes;
    ins ← lift (must (f_insns f @! bc_pc));
    if i_op ins =? code_of_op JOP_CONST_FUN then slow_const_fun bc_pc ins else
    _ ← lift (set_frame_pc i (u32 (bc_pc + 1)));
    r ← run_op (op_dispatch malloc m maddr nan32 nan64 junk nan16 native jdll_prim) i fr f ins;
    _ ← jello_jit_deopt_sync_ctx;
    p ← pending;
    if is_trap r || p then
      c ← get_ctx;
      _ ← match jx_fr c with Some i => lift (set_frame_pc i bc_pc) | None => mret () end;
      mret EXIT_TRAP
    else match r with
    | OP_RETURN _ _ => mret EXIT_YIELD
    | _ => slow_outcome depth_before bc_pc ins
    end).

Definition jello_jit_runtime_ret_status (ret_reg : Z) : J jello_jit_exit :=
  with_frame (fun i fr f =>
    r ← run_op (op_ret malloc m nan32 nan64) i fr f (jit_insn JOP_RET ret_reg 0 0 0);
    _ ← jello_jit_deopt_sync_ctx;
    p ← pending;
    if is_trap r || p then mret EXIT_TRAP else
    match r with
    | OP_RETURN _ _ => n ← lift nframes; mret (if n =? 0 then EXIT_RETURNED else EXIT_YIELD)
    | _ => mret EXIT_YIELD
    end).
(** ** Calls inside native code *)

(** [memset(mem, 0, total)] when [clear], then the frame on the stack. *)
Definition push_native_frame (clear : bool) (fr : call_frame) : M () :=
  _ ← push_call_frame fr;
  match rf_mem (cf_rf fr) with
  | Some base =>
    if clear && negb (rf_total (cf_rf fr) =? 0) then
      s ← get_stack;
      mem ← must (block_write (frame_stack s) base (replicate (Z.to_nat (rf_total (cf_rf fr))) 0));
      put_stack (set_mem mem s)
    else mret ()
  | None => mret ()
  end.

(** The call of the function itself; no slot is wider than 8 bytes. *)
Definition jello_jit_runtime_call_self (first_arg nargs caller_dst resume_pc return_addr : Z)
  : J jello_jit_exit :=
  if return_addr =? 0 then mret EXIT_TRAP else
  with_frame (fun i fr f =>
    if (16 <? nargs) || (rf_nregs (cf_rf fr) <? u32 (first_arg + nargs)) then mret EXIT_TRAP else
    s ← lift get_stack;
    if frames_exhausted s then _ ← lift stack_overflow; mret EXIT_TRAP else
    ok ← lift (jello_vm_fuel_charge m);
    if negb ok then mret EXIT_TRAP else
    _ ← lift (set_frame_pc i resume_pc);
    _ ← lift frames_grow_if_full;
    n ← lift nframes;
    c ← get_ctx;
    _ ← (if cf_has_pointer_or_dynamic fr then
        mem ← lift (vm_frame_stack_bump junk (rf_total (cf_rf fr)));
        eb ← lift exc_base_now;
        let rf := mk_rf mem (rf_off (cf_rf fr)) (rf_nregs (cf_rf fr)) (rf_total (cf_rf fr)) true in
        _ ← lift (push_native_frame true (mk_frame (default 0 (jx_f c)) rf 0 caller_dst eb true false true true
            false false return_addr));
        lift (copy_args m (cf_rf fr) first_arg f rf nargs)
      else lift (vm_push_self_numeric m junk fr first_arg nargs caller_dst return_addr true));
    _ ← modify (at_frame (Some n) (jx_f c));
    mret EXIT_CONTINUE).

(** The function object of an indirect call; [None]: the call cannot be direct. *)
Definition direct_callee (fr : call_frame) (callee_reg bytecode_fi : Z) : M (option hobj) :=
  if rf_nregs (cf_rf fr) <=? callee_reg then mret None else
  v ← vm_load_val (cf_rf fr) callee_reg;
  if negb (jello_is_ptr v) || jello_is_null v || (v =? 0) then mret None else
  o ← deref v;
  if negb (bool_decide (obj_kind o = JELLO_OBJ_FUNCTION)) then mret None else
  let fi := fn_func_index o in
  if jello_is_native_builtin fi || jello_is_jdll_prim fi then mret None else
  if negb (u32 (fi - JELLO_NATIVE_BUILTIN_COUNT) =? bytecode_fi) then mret None else
  if jello_bound_this_is_set (fn_bound_this o) then mret None else mret (Some o).

(** The captures of the callee; [false]: they do not fit. *)
Definition direct_caps (f : jello_bc_function) (rf : reg_frame) (nargs : Z) (fo : option hobj) : M bool :=
  match fo with
  | None => mret true
  | Some fo =>
    if fn_ncaps fo =? 0 then mret true else
    let cap_start := cap_start_of m f (rf_nregs rf) (fn_ncaps fo) in
    if (rf_nregs rf <? u32 (cap_start + fn_ncaps fo)) || (cap_start <? nargs) then mret false else
    _ ← store_caps malloc m nan32 nan64 f rf cap_start fo; mret true
  end.

(** Where the native code of the callee goes on, if there is any. *)
Definition direct_entry (n bytecode_fi : Z) : J jello_jit_exit :=
  _ ← modify (with_call_entry 0);
  c ← get_ctx;
  let code := match jit_state c with
  | Some st => if run_enabled then jello_jit_cache_lookup st maddr bytecode_fi else None
  | None => None
  end in
  match (code ← code; if co_body code =? 0 then None else Some (co_body code)) with
  | Some body =>
    _ ← lift (update_frame n set_entry_done);
    _ ← modify (with_call_entry body);
    mret EXIT_CONTINUE
  | None =>
    len ← lift nframes;
    _ ← (if 2 <=? len then lift (update_frame (len - 2) (fun fr => set_hints true (cf_jit_osr_hint fr) fr))
      else mret ());
    mret EXIT_YIELD
  end.

Definition NO_CALLEE_REG : Z := 0xFFFFFFFF.

Definition jello_jit_runtime_call_direct
    (first_arg nargs caller_dst resume_pc return_addr bytecode_fi callee_reg : Z) : J jello_jit_exit :=
  if (return_addr =? 0) || (m_nfuncs m <=? bytecode_fi) then mret EXIT_TRAP else
  with_frame (fun i fr f =>
    callee_f ← lift (fun_at m bytecode_fi);
    if (16 <? nargs) || (rf_nregs (cf_rf fr) <? u32 (first_arg + nargs)) then mret EXIT_TRAP else
    fo ← (if callee_reg =? NO_CALLEE_REG then mret (Some None)
      else fo ← lift (direct_callee fr callee_reg bytecode_fi);
      mret (match fo with Some o => Some (Some o) | None => None end));
    match fo with
    | None => mret EXIT_TRAP
    | Some fo =>
      s ← lift get_stack;
      if frames_exhausted s then _ ← lift stack_overflow; mret EXIT_TRAP else
      _ ← lift frames_grow_if_full;
      ok ← lift (jello_vm_fuel_charge m);
      if negb ok then mret EXIT_TRAP else
      _ ← lift (set_frame_pc i resume_pc);
      fl ← lift (vm_get_frame_layout m maddr bytecode_fi);
      mem ← lift (vm_frame_stack_bump junk (fl_total fl));
      n ← lift nframes;
      eb ← lift exc_base_now;
      let rf := new_rf fl mem in
      _ ← lift (push_native_frame (fl_has_pointer_or_dynamic fl)
          (mk_frame bytecode_fi rf 0 caller_dst eb true false (fl_has_pointer_or_dynamic fl)
            false false false return_addr));
      _ ← lift (copy_args m (cf_rf fr) first_arg callee_f rf nargs);
      ok ← lift (direct_caps callee_f rf nargs fo);
      if negb ok then mret EXIT_TRAP else
      _ ← modify (at_frame (Some n) (Some bytecode_fi));
      direct_entry n bytecode_fi
    end).

(** [vm_rf_release(vm, &fr->rf); vm->call_frames_len--;]. *)
Definition release_frame (fr : call_frame) : M () :=
  _ ← vm_rf_release (cf_rf fr);
  s ← get_stack; put_stack (set_frames (removelast (call_frames s)) s).

Definition ret_outermost (fr : call_frame) (f : jello_bc_function) (ret_reg : Z) : J jello_jit_exit :=
  ret ← lift (box_from_typed f (cf_rf fr) ret_reg);
  _ ← lift (release_frame fr);
  _ ← lift (s ← get_stack; put_stack (set_frames [] (set_frames_cap 0 s)));
  _ ← lift (g ← get_gc; put_gc (set_caches [] [] [] g));
  _ ← lift (set_handlers []);
  _ ← modify (fun c => with_self_resume 0 (at_frame None (jx_f c) (with_out (Some ret) (jx_out_exports c) c)));
  mret EXIT_RETURNED.

Definition jello_jit_runtime_ret_self (ret_reg : Z) : J jello_jit_exit :=
  with_frame (fun i fr f =>
    _ ← lift (leave_frame_handlers fr);
    if negb (cf_has_caller fr) then ret_outermost fr f ret_reg else
    n ← lift nframes;
    _ ← lift (panic_if (n <? 2));
    caller ← lift (frame_at (n - 2));
    caller_f ← lift (fun_at m (cf_f caller));
    c ← get_ctx;
    ret_tid ← lift (must (f_reg_types f @! ret_reg));
    same ← (if bool_decide (Some (cf_f caller) = jx_f c) then mret true
      else dst_tid ← lift (must (f_reg_types caller_f @! (cf_caller_dst fr))); mret (dst_tid =? ret_tid));
    _ ← (if same : bool then
        k ← lift (must (te_kind <$> m_types m @! ret_tid));
        lift (copy_slot (cf_rf fr) ret_reg (cf_rf caller) (cf_caller_dst fr) (jello_slot_size k))
      else
      ret ← lift (box_from_typed f (cf_rf fr) ret_reg);
      lift (store_from_boxed caller_f (cf_rf caller) (cf_caller_dst fr) ret));
    _ ← lift (release_frame fr);
    _ ← modify (fun c => with_self_resume (cf_jit_return_addr fr) (at_frame (Some (n - 2)) (Some (cf_f caller)) c));
    mret (if cf_jit_return_addr fr =? 0 then EXIT_YIELD else EXIT_CONTINUE)).

Definition jello_jit_runtime_take_resume : J Z :=
  c ← get_ctx; _ ← put_ctx (with_self_resume 0 c); mret (jit_self_resume c).
(** ** Comparisons (answering 0) *)

(** [if(!ctx || !ctx->fr) return 0;]. *)
Definition cmp_frame (k : reg_frame -> M ()) : J Z :=
  c ← get_ctx;
  match jx_fr c with
  | None => mret 0
  | Some i => fr ← lift (frame_at i); _ ← lift (k (cf_rf fr)); mret 0
  end.

Definition jello_jit_runtime_cmp_i32 (dst lhs_reg rhs_reg cmp_kind rhs_imm rhs_is_imm : Z) : J Z :=
  cmp_frame (fun rf =>
    lv ← vm_load_u32 rf lhs_reg;
    rv ← (if negb (rhs_is_imm =? 0) then mret rhs_imm
      else if rhs_reg =? 255 then mret 0 else vm_load_u32 rf rhs_reg);
    vm_store_u32 rf dst (Z.b2z (if cmp_kind =? code_of_cmp JIR_CMP_EQ then i32 lv =? i32 rv else i32 lv <? i32 rv))).

Definition jello_jit_runtime_cmp_f64 (dst lhs_reg rhs_reg cmp_kind : Z) : J Z :=
  cmp_frame (fun rf =>
    lv ← vm_load_f64 rf lhs_reg; rv ← vm_load_f64 rf rhs_reg;
    vm_store_u32 rf dst (Z.b2z (if cmp_kind =? code_of_cmp JIR_CMP_EQ then fl_eq binary64 lv rv
      else fl_lt binary64 lv rv))).

Definition jello_jit_runtime_cmp_f32 (dst lhs_reg rhs_reg cmp_kind : Z) : J Z :=
  cmp_frame (fun rf =>
    lv ← vm_load_f32 rf lhs_reg; rv ← vm_load_f32 rf rhs_reg;
    vm_store_u32 rf dst (Z.b2z (if cmp_kind =? code_of_cmp JIR_CMP_EQ then fl_eq binary32 lv rv
      else fl_lt binary32 lv rv))).

(** ** Fuel *)

Definition jello_jit_runtime_fuel_trap : J jello_jit_exit :=
  raise_trap JELLO_TRAP_FUEL "instruction limit exceeded".

Definition jello_jit_runtime_fuel_check : J jello_jit_exit :=
  l ← lift get_limits;
  if fuel_limit l =? 0 then mret EXIT_CONTINUE else
  if fuel_remaining l =? 0 then raise_trap JELLO_TRAP_FUEL "instruction limit exceeded" else
  then_continue (put_limits (mk_limits (fuel_limit l) (fuel_remaining l - 1) (max_bytes_len l) (max_array_len l))).

(** ** Bytes *)

Definition jello_jit_runtime_bytes_len (dst bytes_reg : Z) : J jello_jit_exit :=
  with_frame (fun i fr f =>
    b ← lift (vm_load_ptr (cf_rf fr) bytes_reg);
    if b =? 0 then raise_trap JELLO_TRAP_NULL_DEREF "bytes_len on null" else
    d ← lift (as_bytes b);
    then_continue (vm_store_u32 (cf_rf fr) dst (zlen d))).

(** Handlers whose answer alone is looked at. *)
Definition unless_trap (r : op_result) : J jello_jit_exit :=
  if is_trap r then sync_trap else mret EXIT_CONTINUE.

Definition jello_jit_runtime_bytes_eq (dst a_reg b_reg : Z) : J jello_jit_exit :=
  with_frame (fun i fr f =>
    r ← run_op op_bytes_eq i fr f (jit_insn JOP_BYTES_EQ dst a_reg b_reg 0);
    unless_trap r).

Definition jello_jit_runtime_bytes_get_u8 (dst bytes_reg idx_reg : Z) : J jello_jit_exit :=
  with_frame (fun i fr f =>
    b ← lift (vm_load_ptr (cf_rf fr) bytes_reg);
    if b =? 0 then raise_trap JELLO_TRAP_NULL_DEREF "bytes_get_u8 on null" else
    idx ← lift (vm_load_u32 (cf_rf fr) idx_reg);
    d ← lift (as_bytes b);
    if zlen d <=? idx then raise_trap JELLO_TRAP_BOUNDS "bytes_get_u8 index out of bounds" else
    x ← lift (must (d @! idx));
    then_continue (vm_store_u32 (cf_rf fr) dst x)).

Definition jello_jit_runtime_bytes_set_u8 (val_reg bytes_reg idx_reg : Z) : J jello_jit_exit :=
  with_frame (fun i fr f =>
    b ← lift (vm_load_ptr (cf_rf fr) bytes_reg);
    if b =? 0 then raise_trap JELLO_TRAP_NULL_DEREF "bytes_set_u8 on null" else
    idx ← lift (vm_load_u32 (cf_rf fr) idx_reg);
    d ← lift (as_bytes b);
    if zlen d <=? idx then raise_trap JELLO_TRAP_BOUNDS "bytes_set_u8 index out of bounds" else
    v ← lift (vm_load_u32 (cf_rf fr) val_reg);
    if 255 <? v then raise_trap JELLO_TRAP_BOUNDS "bytes_set_u8 value out of range" else
    then_continue (bytes_store b idx [u8 v])).

Definition bytes_read_ops : list op_handler :=
  [op_bytes_read_u16_le m; op_bytes_read_u16_be m; op_bytes_read_u32_le m; op_bytes_read_u32_be m;
    op_bytes_read_i32_le m; op_bytes_read_i32_be m; op_bytes_read_f32_le m; op_bytes_read_f32_be m].

Definition bytes_write_ops : list op_handler :=
  [op_bytes_write_u16_le m; op_bytes_write_u16_be m; op_bytes_write_u32_le m; op_bytes_write_u32_be m;
    op_bytes_write_i32_le m; op_bytes_write_i32_be m; op_bytes_write_f32_le m; op_bytes_write_f32_be m].

(** [jit_invoke_bytes_read] and its twin. *)
Definition jit_invoke_bytes (ops : list op_handler) (msg : string) (i : Z) (fr : call_frame)
    (f : jello_bc_function) (ins : jello_insn) (kind : Z) : J op_result :=
  match ops @! kind with
  | Some h => run_op h i fr f ins
  | None => _ ← trap JELLO_TRAP_BOUNDS msg; _ ← jello_jit_deopt_sync_ctx; mret OP_TRAP
  end.

Definition jello_jit_runtime_bytes_read (dst bytes_reg off_reg kind : Z) : J jello_jit_exit :=
  with_frame (fun i fr f =>
    r ← jit_invoke_bytes bytes_read_ops "bytes_read invalid kind" i fr f
      (jit_insn JOP_BYTES_READ_U16_LE dst bytes_reg off_reg 0) kind;
    unless_trap r).

Definition jello_jit_runtime_bytes_write (val_reg bytes_reg off_reg kind : Z) : J jello_jit_exit :=
  with_frame (fun i fr f =>
    r ← jit_invoke_bytes bytes_write_ops "bytes_write invalid kind" i fr f
      (jit_insn JOP_BYTES_WRITE_U16_LE val_reg bytes_reg off_reg 0) kind;
    unless_trap r).

(** ** Arrays *)

Definition jello_jit_runtime_array_len (dst array_reg : Z) : J jello_jit_exit :=
  with_frame (fun i fr f =>
    a ← lift (vm_load_ptr (cf_rf fr) array_reg);
    if a =? 0 then raise_trap JELLO_TRAP_NULL_DEREF "array_len on null" else
    '(_, d) ← lift (as_array a);
    then_continue (vm_store_u32 (cf_rf fr) dst (zlen d))).

Definition jello_jit_runtime_array_get (dst array_reg idx_reg : Z) : J jello_jit_exit :=
  with_frame (fun i fr f =>
    a ← lift (vm_load_ptr (cf_rf fr) array_reg);
    if a =? 0 then raise_trap JELLO_TRAP_NULL_DEREF "array_get on null" else
    idx ← lift (vm_load_u32 (cf_rf fr) idx_reg);
    '(_, d) ← lift (as_array a);
    if zlen d <=? idx then raise_trap JELLO_TRAP_BOUNDS "array_get index out of bounds" else
    v ← lift (must (d @! idx));
    then_continue (store_from_boxed f (cf_rf fr) dst v)).

Definition jello_jit_runtime_array_set (val_reg array_reg idx_reg : Z) : J jello_jit_exit :=
  with_frame (fun i fr f =>
    a ← lift (vm_load_ptr (cf_rf fr) array_reg);
    if a =? 0 then raise_trap JELLO_TRAP_NULL_DEREF "array_set on null" else
    idx ← lift (vm_load_u32 (cf_rf fr) idx_reg);
    '(_, d) ← lift (as_array a);
    if zlen d <=? idx then raise_trap JELLO_TRAP_BOUNDS "array_set index out of bounds" else
    slot ← lift (must (d @! idx));
    n ← lift (vm_store_num_inplace m f (cf_rf fr) val_reg slot);
    match n with
    | Some w => then_continue (array_store a idx w)
    | None =>
      v ← lift (box_for_store malloc m f (cf_rf fr) val_reg);
      then_continue (array_store a idx v)
    end).

(** Handlers after which a pending exception is looked at too. *)
Definition unless_pending (r : op_result) : J jello_jit_exit :=
  p ← pending; if is_trap r || p then sync_trap else mret EXIT_CONTINUE.

Definition jello_jit_runtime_array_new (dst len_reg : Z) : J jello_jit_exit :=
  if (255 <? dst) || (255 <? len_reg) then mret EXIT_TRAP else
  with_frame (fun i fr f =>
    r ← run_op (op_array_new malloc m) i fr f (jit_insn JOP_ARRAY_NEW dst len_reg 0 0);
    unless_pending r).

Definition jello_jit_runtime_bytes_new (dst len_reg : Z) : J jello_jit_exit :=
  if (255 <? dst) || (255 <? len_reg) then mret EXIT_TRAP else
  with_frame (fun i fr f =>
    r ← run_op (op_bytes_new malloc m) i fr f (jit_insn JOP_BYTES_NEW dst len_reg 0 0);
    unless_pending r).

(** ** Objects *)

Definition jello_jit_runtime_obj_get_atom (dst obj_reg atom_id : Z) : J jello_jit_exit :=
  with_frame (fun i fr f =>
    ok ← lift (vm_obj_get_atom_typed malloc m nan32 nan64 f (cf_rf fr) dst obj_reg atom_id 0);
    if ok : bool then mret EXIT_CONTINUE else sync_trap).

Definition jello_jit_runtime_obj_set_atom (val_reg obj_reg atom_id : Z) : J jello_jit_exit :=
  with_frame (fun i fr f =>
    ok ← lift (vm_obj_set_atom_typed malloc m junk f (cf_rf fr) val_reg obj_reg atom_id 0);
    if ok : bool then mret EXIT_CONTINUE else sync_trap).

(** [o->keys[slot_i] = atom_id; o->states[slot_i] = OCCUPIED; o->vals[slot_i] = v; o->len++]. *)
Definition insert_at (ob : jello_object) (slot_i atom_id v : Z) : jello_object :=
  mk_object (o_type_id ob) (o_proto ob) (u32 (o_len ob + 1)) (o_cap ob) (o_inline ob)
    ((o_keys ob) @[slot_i := atom_id]) ((o_vals ob) @[slot_i := v])
    ((o_states ob) @[slot_i := OCCUPIED]) (ic_atom ob) (ic_slot ob) (ic_cap ob) (ic_poly_atom ob)
    (ic_poly_slot ob).

Definition jello_jit_runtime_obj_insert_atom (val_reg obj_reg atom_id slot_i : Z) : J jello_jit_exit :=
  with_frame (fun i fr f =>
    o ← lift (vm_load_ptr (cf_rf fr) obj_reg);
    bad ← (if o =? 0 then mret true else ob ← lift (as_object o); mret (o_cap ob <=? slot_i));
    if bad : bool then raise_trap JELLO_TRAP_NULL_DEREF "obj_insert_atom bad obj/slot" else
    v ← lift (box_for_store malloc m f (cf_rf fr) val_reg);
    ob ← lift (as_object o);
    then_continue (put_object o (insert_at ob slot_i atom_id v))).

Definition jello_jit_object_new (type_id : Z) : M Z := jello_object_alloc malloc m junk type_id.

Definition jello_jit_runtime_obj_new (dst : Z) : J jello_jit_exit :=
  if 255 <? dst then mret EXIT_TRAP else
  with_frame (fun i fr f =>
    type_id ← lift (must (f_reg_types f @! dst));
    o ← lift (jello_object_alloc malloc m junk type_id);
    then_continue (vm_store_ptr (cf_rf fr) dst o)).

(** ** Constants, closures, assertions *)

Definition jello_jit_runtime_assert (cond_reg msg_reg has_msg : Z) : J jello_jit_exit :=
  if 255 <? cond_reg then mret EXIT_TRAP else
  with_frame (fun i fr f =>
    r ← run_op (op_assert malloc m) i fr f (jit_insn JOP_ASSERT cond_reg msg_reg has_msg 0);
    _ ← jello_jit_deopt_sync_ctx;
    p ← pending; mret (if is_trap r || p then EXIT_TRAP else EXIT_CONTINUE)).

(** [cache[idx]], the byte string made on its first use. *)
Definition const_bytes_object (f : jello_bc_function) (dst idx : Z) : M Z :=
  g ← get_gc;
  b ← must (const_bytes_cache g @! idx);
  if negb (b =? 0) then mret b else
  len ← must (m_const_bytes_len m @! idx);
  off ← must (m_const_bytes_off m @! idx);
  type_id ← must (f_reg_types f @! dst);
  p ← jello_bytes_new malloc m type_id len;
  data ← (if 0 <? len then must (block_read (m_const_bytes_data m) off len) else mret []);
  _ ← (if 0 <? len then write_obj p (HBytes type_id data) else mret ());
  g ← get_gc;
  _ ← put_gc (set_caches (const_fun_cache g) ((const_bytes_cache g) @[idx := p]) (enum_nullary_by_type g) g);
  mret p.

Definition jello_jit_runtime_const_bytes (dst idx : Z) : J jello_jit_exit :=
  if 255 <? dst then mret EXIT_TRAP else
  with_frame (fun i fr f =>
    g ← lift get_gc;
    if (zlen (const_bytes_cache g) <=? idx) || (m_nconst_bytes m <=? idx) then mret EXIT_TRAP else
    b ← lift (const_bytes_object f dst idx);
    then_continue (vm_store_ptr (cf_rf fr) dst b)).

Definition jello_jit_runtime_const_fun (dst func_index : Z) : J jello_jit_exit :=
  if 255 <? dst then mret EXIT_TRAP else
  with_frame (fun i fr f =>
    g ← lift get_gc;
    if zlen (const_fun_cache g) <=? func_index then mret EXIT_TRAP else
    fn ← lift (const_fun_object f dst func_index);
    then_continue (vm_store_ptr (cf_rf fr) dst fn)).

Definition jello_jit_runtime_closure (dst first_cap ncaps func_index : Z) : J jello_jit_exit :=
  if (255 <? dst) || (255 <? first_cap) || (255 <? ncaps) then mret EXIT_TRAP else
  with_frame (fun i fr f =>
    r ← run_op (op_closure malloc m) i fr f (jit_insn JOP_CLOSURE dst first_cap ncaps func_index);
    _ ← jello_jit_deopt_sync_ctx;
    p ← pending; mret (if is_trap r || p then EXIT_TRAP else EXIT_CONTINUE)).

(** ** Conversions *)

Definition all_convs : list jello_jit_conv :=
  [JIR_CONV_SEXT_I64; JIR_CONV_SEXT_I16; JIR_CONV_TRUNC_I8; JIR_CONV_TRUNC_I16; JIR_CONV_I32_FROM_I64;
    JIR_CONV_F64_FROM_I32; JIR_CONV_I32_FROM_F64; JIR_CONV_F64_FROM_I64; JIR_CONV_I64_FROM_F64;
    JIR_CONV_F32_FROM_I32; JIR_CONV_I32_FROM_F32; JIR_CONV_F64_FROM_F32; JIR_CONV_F32_FROM_F64;
    JIR_CONV_F32_FROM_I64; JIR_CONV_I64_FROM_F32].

(** A checked conversion: [None] has raised the trap. *)
Definition checked (o : option Z) (store : Z -> M ()) : J jello_jit_exit :=
  match o with Some v => then_continue (store v) | None => sync_trap end.

Definition conv_kind (rf : reg_frame) (dst src : Z) (k : jello_jit_conv) : J jello_jit_exit :=
  match k with
  | JIR_CONV_SEXT_I64 => then_continue (x ← vm_load_u32 rf src; vm_store_i64 rf dst (i32 x))
  | JIR_CONV_SEXT_I16 => then_continue (x ← vm_load_u32 rf src; vm_store_u32 rf dst (u32 (i16 (i8 (Z.land x 0xFF)))))
  | JIR_CONV_TRUNC_I8 => then_continue (x ← vm_load_u32 rf src; vm_store_u32_masked rf dst x JELLO_T_I8)
  | JIR_CONV_TRUNC_I16 => then_continue (x ← vm_load_u32 rf src; vm_store_u32_masked rf dst x JELLO_T_I16)
  | JIR_CONV_I32_FROM_I64 => then_continue (x ← vm_load_i64 rf src; vm_store_u32 rf dst (u32 (u64 x)))
  | JIR_CONV_F64_FROM_I32 => then_continue (x ← vm_load_u32 rf src; vm_store_f64 rf dst (f64_of_int nan64 (i32 x)))
  | JIR_CONV_I32_FROM_F64 => x ← lift (vm_load_f64 rf src); o ← lift (vm_checked_f64_to_i32 x);
    checked o (vm_store_u32 rf dst)
  | JIR_CONV_F64_FROM_I64 => then_continue (x ← vm_load_i64 rf src; vm_store_f64 rf dst (f64_of_int nan64 x))
  | JIR_CONV_I64_FROM_F64 => x ← lift (vm_load_f64 rf src); o ← lift (vm_checked_f64_to_i64 x);
    checked o (vm_store_i64 rf dst)
  | JIR_CONV_F32_FROM_I32 => then_continue (x ← vm_load_u32 rf src; vm_store_f32 rf dst (f32_of_int nan32 (i32 x)))
  | JIR_CONV_I32_FROM_F32 => x ← lift (vm_load_f32 rf src); o ← lift (vm_checked_f64_to_i32 (f64_of_f32 nan64 x));
    checked o (vm_store_u32 rf dst)
  | JIR_CONV_F64_FROM_F32 => then_continue (x ← vm_load_f32 rf src; vm_store_f64 rf dst (f64_of_f32 nan64 x))
  | JIR_CONV_F32_FROM_F64 => then_continue (x ← vm_load_f64 rf src; vm_store_f32 rf dst (f32_of_f64 nan32 x))
  | JIR_CONV_F32_FROM_I64 => then_continue (x ← vm_load_i64 rf src; vm_store_f32 rf dst (f32_of_int nan32 x))
  | JIR_CONV_I64_FROM_F32 => x ← lift (vm_load_f32 rf src); o ← lift (vm_checked_f64_to_i64 (f64_of_f32 nan64 x));
    checked o (vm_store_i64 rf dst)
  end.

Definition jello_jit_runtime_conv (dst src kind : Z) : J jello_jit_exit :=
  if (255 <? dst) || (255 <? src) then mret EXIT_TRAP else
  with_frame (fun i fr f =>
    match all_convs @! kind with
    | Some k => conv_kind (cf_rf fr) dst src k
    | None => mret EXIT_TRAP
    end).

(** ** Access to the frame *)

Definition jello_jit_runtime_frame_mem : J (option Z) :=
  c ← get_ctx;
  match jx_fr c with None => mret None | Some i => fr ← lift (frame_at i); mret (rf_mem (cf_rf fr)) end.

Definition jello_jit_runtime_load_u32 (reg : Z) : J Z :=
  c ← get_ctx;
  match jx_fr c with
  | None => mret 0
  | Some i => fr ← lift (frame_at i); lift (vm_load_u32 (cf_rf fr) reg)
  end.
End Run.
