(* ===== verification/JitRunThms.v ===== *)
(** * The helpers of compiled code against the handlers of the interpreter

    [ir_call] is the call the code of an instruction makes ([ir_call_emitted]),
    [run_helper] that call on the model of jit_runtime.c.  [agrees] relates a helper
    to a handler: same effect, and the code is left exactly when the handler has
    raised something. *)

From Stdlib Require Import String.
From S2P Require Import Prelude CInt Memory Bytecode Value Object Heap Vm Frame Float Gc Box Types Ops ArithOps Call Exc CoreOps CallOps ContainerOps BytesOps ObjOps Exec BoxThms FunCheck StepThms JitIr X64 JitX64 JitX64Diverge JitState JitRun Effects.

Open Scope string_scope.
Open Scope Z_scope.

(** ** Answers of a handler *)

Definition answers {A} (Q : A -> Prop) (p : M A) : Prop := forall vm a vm', p vm = Ret a vm' -> Q a.

Lemma answers_ret {A} (Q : A -> Prop) a : Q a -> answers Q (mret a).
Proof. by intros H vm b vm' [= <- <-]. Qed.

Lemma answers_bind {A B} (Q : B -> Prop) (p : M A) k : (forall a, answers Q (k a)) -> answers Q (p ≫= k).
Proof.
  intros Hk vm b vm' H. unfold mbind, M_bind in H. destruct (p vm) as [a vm1| |]; [|done..]. by eapply Hk.
Qed.

(** The handler goes on or raises a trap: it does not end the run. *)
Definition goes_on (r : op_result) : Prop := match r with OP_RETURN _ _ => False | _ => True end.
Definition continues (r : op_result) : Prop := r = OP_CONTINUE.

Ltac answer :=
  repeat match goal with
  | |- answers _ (_ ≫= _) => apply answers_bind; intros
  | |- answers _ (mret _) => apply answers_ret; done
  | |- answers _ (let '_ := ?x in _) => destruct x
  | |- answers _ (if ?b then _ else _) => destruct b
  | |- answers _ (match ?x with _ => _ end) => destruct x
  end; try done.

(** ** The relation *)

Definition exit_of (r : op_result) (vm : jello_vm) : jello_jit_exit :=
  if exc_pending (v_exc vm) || is_trap r then EXIT_TRAP else EXIT_CONTINUE.

(** A handler's effect, with the exit it means. *)
Definition leaving (h : M op_result) (c : jit_ctx) : M (jello_jit_exit * jit_ctx) := fun vm =>
  match h vm with
  | Ret r vm' => Ret (exit_of r vm', c) vm'
  | Panic => Panic
  | Crash => Crash
  end.

Lemma M_bind_assoc {A B C} (p : M A) (k : A -> M B) (l : B -> M C) vm :
  ((p ≫= k) ≫= l) vm = (p ≫= (fun a => k a ≫= l)) vm.
Proof. unfold mbind, M_bind. by destruct (p vm). Qed.

Lemma lift_run {A B} (p : M A) (k : A -> J B) c vm :
  (x ← lift p; k x) c vm = match p vm with Ret a vm' => k a c vm' | Panic => Panic | Crash => Crash end.
Proof. unfold mbind, J_bind, lift, mbind, M_bind. by destruct (p vm). Qed.

Lemma get_ctx_run {B} (k : jit_ctx -> J B) c vm : (x ← get_ctx; k x) c vm = k c c vm.
Proof. done. Qed.

Lemma nframes_run vm : nframes vm = Ret (zlen (call_frames (v_stack vm))) vm.
Proof. done. Qed.

Lemma frame_at_run vm i fr : call_frames (v_stack vm) @! i = Some fr -> frame_at i vm = Ret fr vm.
Proof. intros H. unfold frame_at, mbind, M_bind, get_stack, must. by rewrite H. Qed.

Lemma fun_at_run m vm fi f : m_funcs m @! fi = Some f -> fun_at m fi vm = Ret f vm.
Proof. intros H. unfold fun_at, must. by rewrite H. Qed.

Section Agree.
Context (m : jello_bc_module) (exports : option Z).
Context (c : jit_ctx) (i fi : Z) (fr : call_frame) (f : jello_bc_function).

(** The context is that of the top frame. *)
Record at_top (vm : jello_vm) : Prop := {
  top_fr : jx_fr c = Some i;
  top_f : jx_f c = Some fi;
  top_len : zlen (call_frames (v_stack vm)) = i + 1;
  top_frame : call_frames (v_stack vm) @! i = Some fr;
  top_cf : cf_f fr = fi;
  top_fun : m_funcs m @! fi = Some f
}.

Definition ready (vm : jello_vm) : Prop := at_top vm /\ exc_pending (v_exc vm) = false.

Lemma at_top_kept vm vm' : frames_kept vm vm' -> at_top vm -> at_top vm'.
Proof. intros E []. split; by rewrite ?E. Qed.

Lemma ready_kept vm vm' : undisturbed vm vm' -> ready vm -> ready vm'.
Proof. intros (E & Ee & _) [H Hp]. split; [by eapply at_top_kept | by rewrite Ee]. Qed.

Lemma sync_top vm : at_top vm -> jello_jit_deopt_sync_ctx c vm = Ret ((), c) vm.
Proof.
  intros [Hfr Hf Hl Hfrm Hc _]. pose proof (znth_Some _ _ _ Hfrm).
  unfold jello_jit_deopt_sync_ctx. rewrite lift_run, nframes_run, Hl.
  replace (i + 1 =? 0) with false by (symmetry; apply Z.eqb_neq; lia). replace (i + 1 - 1) with i by lia.
  rewrite lift_run, (frame_at_run _ _ _ Hfrm). unfold modify, mbind, J_bind, mbind, M_bind, at_frame. cbn.
  rewrite Hc, <- Hf, <- Hfr. by destruct c.
Qed.

Lemma with_frame_top k vm : at_top vm -> with_frame m k c vm = k i fr f c vm.
Proof.
  intros [Hfr Hf Hl Hfrm Hc Hfun]. unfold with_frame. rewrite get_ctx_run, Hfr, Hf, lift_run.
  by rewrite (frame_at_run _ _ _ Hfrm), lift_run, (fun_at_run _ _ _ _ Hfun).
Qed.

(** The handler may assume what the helper finds. *)
Definition agrees (j : J jello_jit_exit) (h : M op_result) : Prop :=
  forall vm, ready vm -> j c vm = leaving h c vm.

Lemma agrees_frame k h : agrees (k i fr f) h -> agrees (with_frame m k) h.
Proof. intros H vm Hv. rewrite with_frame_top by apply Hv. by apply H. Qed.

Lemma agrees_bind {A} (p : M A) (k : A -> J jello_jit_exit) (h : A -> M op_result) :
  quiet p -> (forall a, agrees (k a) (h a)) -> agrees (x ← lift p; k x) (x ← p; h x).
Proof.
  intros Hq Hk vm Hv. rewrite lift_run. unfold leaving, mbind, M_bind.
  destruct (p vm) as [a vm'| |] eqn:E; [|done..]. apply Hk. by eapply ready_kept; [eapply Hq|].
Qed.

Lemma agrees_continue (p : M ()) : quiet p -> agrees (then_continue p) (_ ← p; mret OP_CONTINUE).
Proof.
  intros Hq. apply agrees_bind; [done|]. intros [] vm [_ Hp]. unfold leaving, exit_of. cbn. by rewrite Hp.
Qed.

(** The same where the helper's operation is several of the handler. *)
Lemma agrees_chain {A} (p : M A) (k : A -> M ()) :
  quiet p -> (forall a, quiet (k a)) -> agrees (then_continue (p ≫= k)) (x ← p; _ ← k x; mret OP_CONTINUE).
Proof.
  intros Hq Hk vm Hv. rewrite (agrees_continue (p ≫= k)) by (effects || done). unfold leaving.
  by rewrite M_bind_assoc.
Qed.

Lemma agrees_trap code msg : agrees (raise_trap m code msg) (trap_continue m code msg).
Proof.
  intros vm [Ht _]. unfold raise_trap, trap_continue. rewrite lift_run. unfold leaving, exit_of, mbind, M_bind.
  destruct (trap_raises m code msg vm) as (e & -> & Hp & _). cbn. rewrite Hp.
  unfold sync_trap, mbind, J_bind, mbind, M_bind.
  rewrite sync_top; [done|]. by apply (at_top_kept vm).
Qed.

(** A handler run as it is; the helpers look at its answer and at the exceptions. *)
Lemma run_op_top (h : op_handler) ins vm :
  answers goes_on (h (mk_ctx f i (cf_rf fr) exports) ins) ->
  run_op exports h i fr f ins c vm =
  match h (mk_ctx f i (cf_rf fr) exports) ins vm with
  | Ret r vm' => Ret (r, c) vm' | Panic => Panic | Crash => Crash
  end.
Proof.
  intros Hg. unfold run_op. rewrite lift_run. destruct (h _ ins vm) as [r vm'| |] eqn:E; [|done..].
  specialize (Hg _ _ _ E). by destruct r.
Qed.

Lemma pending_top vm : pending c vm = Ret (exc_pending (v_exc vm), c) vm.
Proof. done. Qed.

Lemma run_op_bind (h : op_handler) ins (k : op_result -> J jello_jit_exit) :
  within frames_kept (h (mk_ctx f i (cf_rf fr) exports) ins) ->
  answers goes_on (h (mk_ctx f i (cf_rf fr) exports) ins) ->
  (forall r vm, at_top vm -> k r c vm = Ret (exit_of r vm, c) vm) ->
  agrees (r ← run_op exports h i fr f ins; k r) (h (mk_ctx f i (cf_rf fr) exports) ins).
Proof.
  intros Hf Hg Hk vm [Ht _]. unfold mbind at 1, J_bind, mbind, M_bind. rewrite run_op_top by done.
  unfold leaving. destruct (h _ ins vm) as [r vm'| |] eqn:E; [|done..].
  apply Hk. by eapply at_top_kept; [eapply Hf|].
Qed.

Lemma unless_pending_exit r vm : at_top vm -> unless_pending r c vm = Ret (exit_of r vm, c) vm.
Proof.
  intros Ht. unfold unless_pending, exit_of, mbind, J_bind, mbind, M_bind. rewrite pending_top.
  rewrite orb_comm. destruct (exc_pending (v_exc vm) || is_trap r); [|done].
  unfold sync_trap, mbind, J_bind, mbind, M_bind. by rewrite sync_top.
Qed.

(** [sync], then the same test. *)
Lemma synced_exit r vm : at_top vm ->
  (_ ← jello_jit_deopt_sync_ctx; p ← pending; mret (if is_trap r || p then EXIT_TRAP else EXIT_CONTINUE)) c vm
  = Ret (exit_of r vm, c) vm.
Proof.
  intros Ht. unfold mbind, J_bind, mbind, M_bind. rewrite sync_top by done. rewrite pending_top.
  unfold exit_of. by rewrite orb_comm.
Qed.
End Agree.

(** ** The helpers one by one *)

Section Helpers.
Context (malloc : gc_state -> Z -> option Z) (m : jello_bc_module).
Context (nan32 nan64 junk : Z) (exports : option Z).
Context (c : jit_ctx) (i fi : Z) (fr : call_frame) (f : jello_bc_function).
Context (ins : jello_insn).
Hypothesis Hins : 0 <= i_a ins < 256 /\ 0 <= i_b ins < 256 /\ 0 <= i_c ins < 256.

Abbreviation ctx := (mk_ctx f i (cf_rf fr) exports).
Abbreviation agree j h := (agrees m c i fi fr f j (h ctx ins)).

Lemma bytes_len_agrees :
  agree (jello_jit_runtime_bytes_len m (i_a ins) (i_b ins)) (op_bytes_len m).
Proof.
  apply agrees_frame, agrees_bind; [effects|]. intros b. destruct (b =? 0); [apply agrees_trap|].
  apply agrees_bind; [effects|]. intros d. apply agrees_continue. effects.
Qed.

Lemma bytes_get_u8_agrees :
  agree (jello_jit_runtime_bytes_get_u8 m (i_a ins) (i_b ins) (i_c ins)) (op_bytes_get_u8 m).
Proof.
  apply agrees_frame, agrees_bind; [effects|]. intros b. destruct (b =? 0); [apply agrees_trap|].
  apply agrees_bind; [effects|]. intros idx. apply agrees_bind; [effects|]. intros d.
  destruct (zlen d <=? idx); [apply agrees_trap|].
  apply agrees_bind; [effects|]. intros x. apply agrees_continue. effects.
Qed.

Lemma bytes_set_u8_agrees :
  agree (jello_jit_runtime_bytes_set_u8 m (i_a ins) (i_b ins) (i_c ins)) (op_bytes_set_u8 m).
Proof.
  apply agrees_frame, agrees_bind; [effects|]. intros b. destruct (b =? 0); [apply agrees_trap|].
  apply agrees_bind; [effects|]. intros idx. apply agrees_bind; [effects|]. intros d.
  destruct (zlen d <=? idx); [apply agrees_trap|].
  apply agrees_bind; [effects|]. intros v. destruct (255 <? v); [apply agrees_trap|].
  apply agrees_continue. effects.
Qed.

Lemma array_len_agrees :
  agree (jello_jit_runtime_array_len m (i_a ins) (i_b ins)) (op_array_len m).
Proof.
  apply agrees_frame, agrees_bind; [effects|]. intros a. destruct (a =? 0); [apply agrees_trap|].
  apply agrees_bind; [effects|]. intros [t d]. apply agrees_continue. effects.
Qed.

Lemma obj_new_agrees :
  agree (jello_jit_runtime_obj_new malloc m junk (i_a ins)) (op_obj_new malloc m junk).
Proof.
  unfold jello_jit_runtime_obj_new. replace (255 <? i_a ins) with false by (symmetry; apply Z.ltb_ge; lia).
  apply agrees_frame, agrees_bind; [effects|]. intros t.
  apply agrees_bind; [unfold jello_object_alloc; effects|]. intros o. apply agrees_continue. effects.
Qed.

(** *** Handlers run as they are *)

Lemma operand x : 0 <= x < 256 -> u8 x = x.
Proof. intros. unfold u8, wrapU. by apply Z.mod_small. Qed.

Ltac operands := destruct Hins as (? & ? & ?); unfold jit_insn; rewrite !operand by (done || lia).

(** The handler on the instruction the helper makes up is the handler on [ins]. *)
Lemma agrees_run_op (h : op_handler) ins' (k : op_result -> J jello_jit_exit) :
  h ctx ins' = h ctx ins ->
  within frames_kept (h ctx ins) -> answers goes_on (h ctx ins) ->
  (forall r vm, at_top m c i fi fr f vm -> k r c vm = Ret (exit_of r vm, c) vm) ->
  agrees m c i fi fr f (with_frame m (fun i fr f => r ← run_op exports h i fr f ins'; k r)) (h ctx ins).
Proof.
  intros E Hf Hg Hk. apply agrees_frame. rewrite <- E in Hf, Hg |- *. by apply run_op_bind.
Qed.

Ltac no_big := repeat match goal with |- context [255 <? ?x] =>
    replace (255 <? x) with false by (symmetry; apply Z.ltb_ge; lia) end; cbn [orb].

Lemma frames_trap_continue code msg : within frames_kept (trap_continue m code msg).
Proof. unfold trap_continue. effects. Qed.
Hint Resolve frames_trap_continue : effects.

Lemma array_new_agrees :
  agree (jello_jit_runtime_array_new malloc m exports (i_a ins) (i_b ins)) (op_array_new malloc m).
Proof.
  unfold jello_jit_runtime_array_new. operands. no_big.
  apply agrees_run_op; [done | | | intros; by eapply unless_pending_exit].
  - unfold op_array_new, jello_array_new. effects.
  - unfold op_array_new, trap_continue. answer.
Qed.

Lemma bytes_new_agrees :
  agree (jello_jit_runtime_bytes_new malloc m exports (i_a ins) (i_b ins)) (op_bytes_new malloc m).
Proof.
  unfold jello_jit_runtime_bytes_new. operands. no_big.
  apply agrees_run_op; [done | | | intros; by eapply unless_pending_exit].
  - unfold op_bytes_new, jello_bytes_new. effects.
  - unfold op_bytes_new, trap_continue. answer.
Qed.

Lemma assert_agrees :
  agree (jello_jit_runtime_assert malloc m exports (i_a ins) (i_b ins) (i_c ins)) (op_assert malloc m).
Proof.
  unfold jello_jit_runtime_assert. operands. no_big.
  apply agrees_run_op; [done | | | intros; by eapply synced_exit].
  - unfold op_assert, assert_trap, raise. effects.
  - unfold op_assert, assert_trap. answer.
Qed.

Lemma quiet_scan_caps g r n size : quiet (scan_caps m g r n size).
Proof. revert r size. induction n as [|n IH]; intros r size; cbn [scan_caps]; effects. Qed.

Lemma quiet_raw_caps g rf r n : quiet (raw_caps m g rf r n).
Proof. revert r. induction n as [|n IH]; intros r; cbn [raw_caps]; effects. Qed.

Lemma quiet_box_args g rf r n : quiet (box_args malloc m g rf r n).
Proof. revert r. induction n as [|n IH]; intros r; cbn [box_args]; effects. Qed.
Hint Resolve quiet_scan_caps quiet_raw_caps quiet_box_args : effects.

Lemma closure_agrees :
  agree (jello_jit_runtime_closure malloc m exports (i_a ins) (i_b ins) (i_c ins) (i_imm ins))
    (op_closure malloc m).
Proof.
  unfold jello_jit_runtime_closure. operands. no_big.
  apply agrees_run_op; [done | | | intros; by eapply synced_exit].
  - unfold op_closure, jello_closure_new, jello_closure_new_raw. effects.
  - unfold op_closure. answer.
Qed.

(** *** Handlers whose exceptions the helper does not look at *)

(** Comparing raises nothing. *)
Lemma bytes_eq_agrees :
  agree (jello_jit_runtime_bytes_eq m exports (i_a ins) (i_b ins) (i_c ins)) op_bytes_eq.
Proof.
  unfold jello_jit_runtime_bytes_eq. operands. apply agrees_frame.
  assert (Hq : quiet (op_bytes_eq ctx ins)) by (unfold op_bytes_eq; effects).
  assert (Ha : answers continues (op_bytes_eq ctx ins)) by (unfold op_bytes_eq; answer).
  intros vm Hv. unfold mbind, J_bind, mbind, M_bind.
  rewrite run_op_top by (intros ? r ? ->%Ha; done). unfold leaving.
  change (op_bytes_eq ctx {| i_op := code_of_op JOP_BYTES_EQ; i_a := i_a ins; i_b := i_b ins; i_c := i_c ins;
      i_imm := 0 |}) with (op_bytes_eq ctx ins).
  destruct (op_bytes_eq ctx ins vm) as [r vm'| |] eqn:E; [|done..].
  destruct (ready_kept _ _ _ _ _ _ _ _ (Hq _ _ _ E) Hv) as [_ Hp]. unfold exit_of.
  rewrite Hp, (Ha _ _ _ E). done.
Qed.
(** *** Conversions *)

(** A check answers the number or raises. *)
Definition checks (p : M (option Z)) : Prop := forall vm,
  match p vm with
  | Ret (Some _) vm' => vm' = vm
  | Ret None vm' => exists e, vm' = set_exc e vm /\ exc_pending e = true
  | Panic => False
  | Crash => True
  end.

Lemma checks_i32 x : checks (vm_checked_f64_to_i32 x).
Proof.
  intros vm. unfold vm_checked_f64_to_i32. case_if; [by eexists|]. case_if; [by eexists|].
  unfold mbind, M_bind, must. by destruct (to_int 32 _).
Qed.

Lemma checks_i64 x : checks (vm_checked_f64_to_i64 x).
Proof.
  intros vm. unfold vm_checked_f64_to_i64. case_if; [by eexists|]. case_if; [by eexists|].
  unfold mbind, M_bind, must. by destruct (to_int 64 _).
Qed.

Lemma agrees_checked (p : M (option Z)) (store : Z -> M ()) :
  checks p -> (forall v, quiet (store v)) ->
  agrees m c i fi fr f (o ← lift p; checked o store)
    (o ← p; match o with Some v => _ ← store v; mret OP_CONTINUE | None => mret OP_CONTINUE end).
Proof.
  intros Hp Hs vm Hv. rewrite lift_run. unfold leaving at 1, mbind at 1, M_bind at 1. specialize (Hp vm).
  destruct (p vm) as [[v|] vm'| |]; [subst vm'| |done..].
  - by apply (agrees_continue m c i fi fr f (store v)).
  - destruct Hp as (e & -> & He). cbn. unfold exit_of. cbn. rewrite He. unfold sync_trap, mbind, J_bind, mbind, M_bind.
    rewrite (sync_top m c i fi fr f); [done|]. by apply (at_top_kept m c i fi fr f vm), Hv.
Qed.

Definition conv_handler (k : jello_jit_conv) : op_handler :=
  match k with
  | JIR_CONV_SEXT_I64 => op_sext_i64
  | JIR_CONV_SEXT_I16 => op_sext_i16
  | JIR_CONV_TRUNC_I8 => op_trunc_i8
  | JIR_CONV_TRUNC_I16 => op_trunc_i16
  | JIR_CONV_I32_FROM_I64 => op_i32_from_i64
  | JIR_CONV_F64_FROM_I32 => op_f64_from_i32 nan64
  | JIR_CONV_I32_FROM_F64 => op_i32_from_f64
  | JIR_CONV_F64_FROM_I64 => op_f64_from_i64 nan64
  | JIR_CONV_I64_FROM_F64 => op_i64_from_f64
  | JIR_CONV_F32_FROM_I32 => op_f32_from_i32 nan32
  | JIR_CONV_I32_FROM_F32 => op_i32_from_f32 nan64
  | JIR_CONV_F64_FROM_F32 => op_f64_from_f32 nan64
  | JIR_CONV_F32_FROM_F64 => op_f32_from_f64 nan32
  | JIR_CONV_F32_FROM_I64 => op_f32_from_i64 nan32
  | JIR_CONV_I64_FROM_F32 => op_i64_from_f32 nan64
  end.

Lemma all_convs_code k : all_convs @! (code_of_conv k) = Some k.
Proof. by destruct k. Qed.

Lemma conv_agrees k :
  agree (jello_jit_runtime_conv m nan32 nan64 (i_a ins) (i_b ins) (code_of_conv k)) (conv_handler k).
Proof.
  unfold jello_jit_runtime_conv. no_big. apply agrees_frame. rewrite all_convs_code.
  destruct k; unfold conv_kind, conv_handler, op_sext_i64, op_sext_i16, op_trunc_i8, op_trunc_i16,
    op_i32_from_i64, op_f64_from_i32, op_i32_from_f64, op_f64_from_i64, op_i64_from_f64, op_f32_from_i32,
    op_i32_from_f32, op_f64_from_f32, op_f32_from_f64, op_f32_from_i64, op_i64_from_f32, to_i32_checked,
    to_i64_checked;
    lazymatch goal with
    | |- context [checked] =>
      apply agrees_bind; [effects | intros x];
      apply agrees_checked; [|intros; effects];
      lazymatch goal with
      | |- checks (vm_checked_f64_to_i32 _) => apply checks_i32
      | |- checks (vm_checked_f64_to_i64 _) => apply checks_i64
      end
    | _ => apply agrees_chain; [effects | intros; effects]
    end.
Qed.
(** *** Array elements: the fast path of the handler is no shortcut in meaning *)

Lemma agrees_ext (j : J jello_jit_exit) (h h' : M op_result) :
  (forall vm, h vm = h' vm) -> agrees m c i fi fr f j h -> agrees m c i fi fr f j h'.
Proof. intros E H vm Hv. unfold leaving. rewrite <- E. by apply H. Qed.

Abbreviation store_from_boxed := (vm_store_from_boxed malloc m nan32 nan64 f).

Lemma fast_get rf dst v vm : vm_reg_kind m f dst = Some JELLO_T_F64 ->
  (b ← jello_is_box_f64 v;
    match b with
    | Some x => _ ← vm_store_f64 rf dst x; mret OP_CONTINUE
    | None => _ ← store_from_boxed rf dst v; mret OP_CONTINUE
    end) vm = (_ ← store_from_boxed rf dst v; mret OP_CONTINUE) vm.
Proof.
  intros Hk. unfold vm_store_from_boxed, must. rewrite Hk. unfold store_boxed_f64, jello_is_box_f64,
  jello_is_box_f32. destruct (jello_is_ptr v) eqn:Hp.
  - unfold jello_is_ptr, has_tag in Hp. apply Z.eqb_eq in Hp. unfold jello_is_i32, jello_is_null, has_tag.
    rewrite Hp. cbn [Z.eqb JELLO_TAG_I32 JELLO_TAG_NULL JELLO_TAG_PTR Pos.eqb].
    unfold deref, must, get_gc, mbind, M_bind. unfold mret, M_ret.
    destruct (obj_at (v_gc vm) v) as [o|] eqn:Ho; [|done].
    by destruct o; repeat (rewrite Ho; cbv beta iota).
  - done.
Qed.

Lemma array_get_agrees :
  agree (jello_jit_runtime_array_get malloc m nan32 nan64 (i_a ins) (i_b ins) (i_c ins))
    (op_array_get malloc m nan32 nan64).
Proof.
  apply agrees_frame, agrees_bind; [effects|]. intros a. destruct (a =? 0); [apply agrees_trap|].
  apply agrees_bind; [effects|]. intros idx. apply agrees_bind; [effects|]. intros [t d].
  destruct (zlen d <=? idx); [apply agrees_trap|].
  apply agrees_bind; [effects|]. intros v.
  eapply agrees_ext; [|apply agrees_continue; effects]. intros vm. symmetry.
  destruct (f64_elements m ctx (i_a ins) (i_b ins)) eqn:E; [|done].
  unfold f64_elements in E. bool_hyps. by apply fast_get.
Qed.

(** With what is known of the state before. *)
Definition agrees_at (j : J jello_jit_exit) (h : M op_result) (vm : jello_vm) : Prop :=
  ready m c i fi fr f vm -> j c vm = leaving h c vm.

Lemma agrees_at_bind {A} (p : M A) (k : A -> J jello_jit_exit) (h : A -> M op_result) vm :
  quiet p -> (forall a vm', p vm = Ret a vm' -> agrees_at (k a) (h a) vm') ->
  agrees_at (x ← lift p; k x) (x ← p; h x) vm.
Proof.
  intros Hq Hk Hv. rewrite lift_run. unfold leaving, mbind, M_bind.
  destruct (p vm) as [a vm'| |] eqn:E; [|done..]. apply Hk; [done|]. by eapply ready_kept; [eapply Hq|].
Qed.

Lemma as_array_inv a vm t d vm' :
  as_array a vm = Ret (t, d) vm' -> vm' = vm /\ obj_at (v_gc vm) a = Some (HArray t d).
Proof.
  unfold as_array, deref, must, get_gc, mbind, M_bind. cbn.
  destruct (obj_at (v_gc vm) a) as [o|]; [|done]. destruct o; try done. by intros [= <- <- <-].
Qed.

Lemma write_obj_run p o vm cl : cells (v_gc vm) !! p = Some cl ->
  write_obj p o vm = Ret () (set_gc (set_cells (<[p := mk_cell (c_size cl) (c_marked cl) o]> (cells (v_gc vm))) (v_gc vm)) vm).
Proof. intros H. unfold write_obj, get_gc, put_gc, must, mbind, M_bind. by rewrite H. Qed.

(** Storing an element's own word changes nothing. *)
Lemma array_store_same a idx w t d vm :
  obj_at (v_gc vm) a = Some (HArray t d) -> d @! idx = Some w -> array_store a idx w vm = Ret () vm.
Proof.
  intros Ha Hw. unfold array_store, as_array, deref, must, get_gc. unfold mbind, M_bind. rewrite Ha. cbn.
  pose proof (znth_Some _ _ _ Hw). unfold in_range.
  rewrite (proj2 (Z.leb_le _ _)), (proj2 (Z.ltb_lt _ _)) by lia. cbn. rewrite (zset_id _ _ _ Hw).
  unfold obj_at in Ha. destruct (cells (v_gc vm) !! a) as [cl|] eqn:E; [|done]. cbn in Ha. injection Ha as Ho.
  rewrite (write_obj_run _ _ _ _ E), <- Ho. destruct cl as [sz mk o]. cbn. rewrite insert_id by done.
  by destruct vm as [? ? ? [] ? ?].
Qed.

(** The double of a box written in place. *)
Definition set_box (rf : reg_frame) (r slot : Z) : M () :=
  o ← deref slot; x ← vm_load_f64 rf r; write_obj slot (HBoxF64 (obj_type_id o) x).

Lemma set_box_array rf r slot vm vm' a t d ty x :
  obj_at (v_gc vm) slot = Some (HBoxF64 ty x) -> obj_at (v_gc vm) a = Some (HArray t d) ->
  set_box rf r slot vm = Ret () vm' -> obj_at (v_gc vm') a = Some (HArray t d).
Proof.
  intros Hs Ha. unfold set_box, deref, must, get_gc, mbind, M_bind. rewrite Hs. cbn.
  destruct (vm_load_f64 rf r vm) as [y vm1| |] eqn:El; [|done..].
  assert (v_gc vm1 = v_gc vm) as Eg.
  { revert El. unfold vm_load_f64, load_reg, get_stack, must, mbind, M_bind.
    destruct (vm_reg_ptr rf r); [|done]. destruct (mem_load _ _ _); [|done]. by intros [= _ <-]. }
  unfold obj_at in Hs. destruct (cells (v_gc vm) !! slot) as [cl|] eqn:Ec; [|done].
  rewrite (write_obj_run _ _ _ cl) by (by rewrite Eg). intros [= <-]. unfold obj_at in *. cbn.
  rewrite Eg, lookup_insert_ne; [done|]. intros <-. rewrite Ec in Ha. cbn in *. congruence.
Qed.

Lemma agrees_at_all j h vm : agrees m c i fi fr f j h -> agrees_at j h vm.
Proof. intros H Hv. by apply H. Qed.

Lemma num_inplace_f64 rf r slot vm : vm_reg_kind m f r = Some JELLO_T_F64 ->
  vm_store_num_inplace m f rf r slot vm =
  (b ← jello_is_box_f64 slot;
    match b with Some _ => _ ← set_box rf r slot; mret (Some slot) | None => mret None end) vm.
Proof.
  intros Hk. unfold vm_store_num_inplace, must. rewrite Hk. cbn [mbind M_bind]. unfold mbind, M_bind.
  destruct (jello_is_box_f64 slot vm) as [[x|] vm1| |]; [|done..]. unfold set_box, mbind, M_bind.
  destruct (deref slot vm1) as [o vm2| |]; [|done..]. by destruct (vm_load_f64 rf r vm2).
Qed.

Lemma is_box_f64_inv v vm b vm' : jello_is_box_f64 v vm = Ret b vm' ->
  vm' = vm /\ forall x, b = Some x -> exists ty, obj_at (v_gc vm) v = Some (HBoxF64 ty x).
Proof.
  unfold jello_is_box_f64, deref, must, get_gc, mbind, M_bind. destruct (jello_is_ptr v); [|by intros [= <- <-]].
  destruct (obj_at (v_gc vm) v) as [o|]; [|done]. intros [= <- <-]. split; [done|].
  intros x. destruct o; try done. intros [= ->]. by eexists.
Qed.

(** The rest of the helper, whatever way the slot is written. *)
Lemma set_boxed_agrees a idx slot :
  agrees m c i fi fr f
    (n ← lift (vm_store_num_inplace m f (cf_rf fr) (i_a ins) slot);
    match n with
    | Some w => then_continue (array_store a idx w)
    | None => v ← lift (box_for_store malloc m f (cf_rf fr) (i_a ins)); then_continue (array_store a idx v)
    end)
    (n ← vm_store_num_inplace m f (cf_rf fr) (i_a ins) slot;
    match n with
    | Some w => _ ← array_store a idx w; mret OP_CONTINUE
    | None => v ← box_for_store malloc m f (cf_rf fr) (i_a ins); _ ← array_store a idx v; mret OP_CONTINUE
    end).
Proof.
  apply agrees_bind; [effects|]. intros [w|]; [apply agrees_continue; effects|].
  apply agrees_bind; [effects|]. intros v. apply agrees_continue. effects.
Qed.

(** The fast path of the handler is the store in place. *)
Lemma fast_set a idx slot t d vm :
  vm_reg_kind m f (i_a ins) = Some JELLO_T_F64 ->
  obj_at (v_gc vm) a = Some (HArray t d) -> d @! idx = Some slot ->
  let slow := (n ← vm_store_num_inplace m f (cf_rf fr) (i_a ins) slot;
    match n with
    | Some w => _ ← array_store a idx w; mret OP_CONTINUE
    | None => v ← box_for_store malloc m f (cf_rf fr) (i_a ins); _ ← array_store a idx v; mret OP_CONTINUE
    end) in
  (b ← jello_is_box_f64 slot;
    match b with
    | Some _ => _ ← set_box (cf_rf fr) (i_a ins) slot; mret OP_CONTINUE
    | None => slow
    end) vm = slow vm.
Proof.
  intros Hk Ha Hd slow. unfold mbind at 1, M_bind at 1.
  destruct (jello_is_box_f64 slot vm) as [b vm5| |] eqn:Eb.
  - destruct (is_box_f64_inv _ _ _ _ Eb) as [-> Hb]. destruct b as [x|]; [|done].
    destruct (Hb x eq_refl) as [ty Hs]. subst slow. unfold mbind at 2, M_bind at 2.
    rewrite num_inplace_f64 by done. unfold mbind, M_bind. rewrite Eb.
    destruct (set_box (cf_rf fr) (i_a ins) slot vm) as [[] vm'| |] eqn:E; [|done..]. cbn.
    by rewrite (array_store_same a idx slot t d) by (by eapply set_box_array || done).
  - exfalso. revert Eb. unfold jello_is_box_f64, deref, must, get_gc, mbind, M_bind, mret, M_ret.
    destruct (jello_is_ptr slot); [|discriminate]. by destruct (obj_at (v_gc vm) slot); discriminate.
  - subst slow. unfold mbind, M_bind. rewrite num_inplace_f64 by done. unfold mbind at 1, M_bind at 1. by rewrite Eb.
Qed.

Lemma array_set_agrees :
  agree (jello_jit_runtime_array_set malloc m (i_a ins) (i_b ins) (i_c ins)) (op_array_set malloc m).
Proof.
  apply agrees_frame. intros vm. apply agrees_at_bind; [effects|]. intros a vm1 _.
  destruct (a =? 0); [apply agrees_at_all, agrees_trap|].
  apply agrees_at_bind; [effects|]. intros idx vm2 _.
  apply agrees_at_bind; [effects|]. intros [t d] vm3 [-> Ha]%as_array_inv.
  destruct (zlen d <=? idx); [apply agrees_at_all, agrees_trap|].
  apply agrees_at_bind; [effects|]. intros slot vm4 E4.
  assert (vm4 = vm2 /\ d @! idx = Some slot) as [-> Hd].
  { revert E4. unfold must. destruct (d @! idx); [by intros [= -> ->] | done]. }
  destruct (f64_elements m ctx (i_a ins) (i_b ins)) eqn:Ef; [|by apply agrees_at_all, set_boxed_agrees].
  unfold f64_elements in Ef. bool_hyps. cbn [cx_f] in *.
  intros Hv. rewrite set_boxed_agrees by done. unfold leaving.
  rewrite <- (fast_set a idx slot t d vm2) by done. unfold set_box, mbind, M_bind.
  destruct (jello_is_box_f64 slot vm2) as [[x|] vm5| |]; [|done..].
  destruct (deref slot vm5) as [o vm6| |]; [|done..]. by destruct (vm_load_f64 _ _ vm6).
Qed.

(** *** Objects *)

(** An answer that is not [ok] comes with a trap, the others with none. *)
Definition reports {A} (ok : A -> bool) (p : M A) : Prop := forall vm a vm', p vm = Ret a vm' ->
  if ok a then undisturbed vm vm' else frames_kept vm vm' /\ exc_pending (v_exc vm') = true.

Lemma reports_quiet {A} (ok : A -> bool) (p : M A) : quiet p -> answers (fun a => ok a = true) p -> reports ok p.
Proof. intros Hq Ha vm a vm' E. rewrite (Ha _ _ _ E). by eapply Hq. Qed.

Lemma reports_bind {A B} (ok : B -> bool) (p : M A) (k : A -> M B) :
  quiet p -> (forall a, reports ok (k a)) -> reports ok (p ≫= k).
Proof.
  intros Hq Hk vm b vm' E. unfold mbind, M_bind in E. destruct (p vm) as [a vm1| |] eqn:E1; [|done..].
  specialize (Hk a _ _ _ E). apply Hq in E1. destruct (ok b); [by etransitivity|].
  destruct Hk as [Hf ?]. split; [|done]. transitivity vm1; [by apply E1 | done].
Qed.

Lemma reports_trap {A} (ok : A -> bool) code msg a : ok a = false ->
  reports ok (_ ← jello_vm_trap m code msg; mret a).
Proof.
  intros Hok vm b vm'. unfold mbind, M_bind. destruct (trap_raises m code msg vm) as (e & -> & Hp & _).
  intros [= <- <-]. by rewrite Hok.
Qed.

Lemma proto_chain_reports n cur atom :
  reports (fun r => match r with Some _ => true | None => false end) (proto_chain m n cur atom).
Proof.
  revert cur. induction n as [|n IH]; intros cur; cbn [proto_chain];
    (apply reports_bind; [effects|]; intros [v|]; [apply reports_quiet; [effects | answer]|]);
    (apply reports_bind; [effects|]; intros ob; destruct (o_proto ob =? 0);
      [apply reports_quiet; [effects | answer]|]); [by apply reports_trap | apply IH].
Qed.

Lemma chain_get_reports rf dst o atom : reports id (chain_get malloc m nan32 nan64 f rf dst o atom).
Proof.
  intros vm b vm' E. unfold chain_get, mbind at 1, M_bind at 1 in E.
  destruct (proto_chain m PROTO_STEPS o atom vm) as [r vm1| |] eqn:E1; [|done..].
  pose proof (proto_chain_reports _ _ _ _ _ _ E1) as H1. cbn in H1. destruct r as [v|].
  - assert (Hs : reports id (_ ← store_from_boxed rf dst (default jello_make_null v); mret true)).
    { apply reports_quiet; [effects | answer]. }
    specialize (Hs _ _ _ E). destruct (id b); [by etransitivity|].
    destruct Hs as [Hf ?]. split; [|done]. transitivity vm1; [by apply H1 | done].
  - by injection E as <- <-.
Qed.

Lemma get_typed_reports rf dst obj atom slot :
  reports id (vm_obj_get_atom_typed malloc m nan32 nan64 f rf dst obj atom slot).
Proof.
  apply reports_bind; [effects|]. intros o. destruct (o =? 0); [by apply reports_trap|].
  apply reports_bind; [effects|]. intros ob. destruct (_ || _); [|apply chain_get_reports].
  apply reports_quiet; [effects | answer].
Qed.

Lemma set_typed_reports rf r obj atom slot :
  reports id (vm_obj_set_atom_typed malloc m junk f rf r obj atom slot).
Proof.
  apply reports_bind; [effects|]. intros o. destruct (o =? 0); [by apply reports_trap|].
  apply reports_bind; [effects|]. intros [k e]. apply reports_quiet; [effects | answer].
Qed.

Lemma agrees_reports (p : M bool) : reports id p ->
  agrees m c i fi fr f (ok ← lift p; if ok : bool then mret EXIT_CONTINUE else sync_trap)
    (_ ← p; mret OP_CONTINUE).
Proof.
  intros Hp vm Hv. rewrite lift_run. unfold leaving, mbind at 1, M_bind at 1.
  destruct (p vm) as [b vm'| |] eqn:E; [|done..]. specialize (Hp _ _ _ E). cbn. unfold exit_of. destruct b; cbn in Hp.
  - destruct (ready_kept _ _ _ _ _ _ _ _ Hp Hv) as [_ ->]. done.
  - destruct Hp as [Hf ->]. unfold sync_trap, mbind, J_bind, mbind, M_bind.
    rewrite (sync_top m c i fi fr f); [done|]. eapply at_top_kept; [done | apply Hv].
Qed.

Lemma obj_get_atom_agrees : i_c ins = 0 ->
  agree (jello_jit_runtime_obj_get_atom malloc m nan32 nan64 (i_a ins) (i_b ins) (i_imm ins))
    (op_obj_get_atom malloc m nan32 nan64).
Proof. intros Hc. apply agrees_frame. unfold op_obj_get_atom. rewrite Hc. apply agrees_reports, get_typed_reports. Qed.

Lemma obj_set_atom_agrees : i_c ins = 0 ->
  agree (jello_jit_runtime_obj_set_atom malloc m junk (i_a ins) (i_b ins) (i_imm ins))
    (op_obj_set_atom malloc m junk).
Proof. intros Hc. apply agrees_frame. unfold op_obj_set_atom. rewrite Hc. apply agrees_reports, set_typed_reports. Qed.

(** *** Constants: the helpers leave the code where the handlers stop the process *)

Lemma quiet_const_fun_object dst idx : quiet (const_fun_object malloc m f dst idx).
Proof. unfold const_fun_object, jello_function_new. effects. Qed.
Hint Resolve quiet_const_fun_object : effects.

Lemma agrees_at_ext (j j' : J jello_jit_exit) (h h' : M op_result) vm :
  (ready m c i fi fr f vm -> j c vm = j' c vm) -> h vm = h' vm -> agrees_at j' h' vm -> agrees_at j h vm.
Proof. intros Ej Eh H Hv. rewrite Ej by done. unfold leaving. rewrite Eh. by apply H. Qed.

Lemma const_fun_agrees vm : i_imm ins < zlen (const_fun_cache (v_gc vm)) ->
  agrees_at (jello_jit_runtime_const_fun malloc m (i_a ins) (i_imm ins)) (op_const_fun malloc m ctx ins) vm.
Proof.
  intros Hi. apply Z.leb_gt in Hi.
  apply (agrees_at_ext _ (fn ← lift (const_fun_object malloc m f (i_a ins) (i_imm ins));
      then_continue (vm_store_ptr (cf_rf fr) (i_a ins) fn)) _
      (fn ← const_fun_object malloc m f (i_a ins) (i_imm ins);
        _ ← vm_store_ptr (cf_rf fr) (i_a ins) fn; mret OP_CONTINUE)).
  - intros [Ht _]. unfold jello_jit_runtime_const_fun. no_big. rewrite (with_frame_top m c i fi fr f) by done.
    rewrite lift_run. cbn [get_gc]. by rewrite Hi.
  - unfold op_const_fun, const_fun_object, mbind, M_bind, get_gc, must, panic_if. rewrite Hi. cbn.
    destruct (const_fun_cache (v_gc vm) @! (i_imm ins)) as [fn|]; [|done]. by destruct (fn =? 0).
  - apply agrees_at_all, agrees_bind; [effects | intros; apply agrees_continue; effects].
Qed.

Lemma quiet_const_bytes_object dst idx : quiet (const_bytes_object malloc m f dst idx).
Proof. unfold const_bytes_object, jello_bytes_new. effects. Qed.
Hint Resolve quiet_const_bytes_object : effects.

Lemma const_bytes_agrees vm :
  i_imm ins < zlen (const_bytes_cache (v_gc vm)) -> i_imm ins < m_nconst_bytes m ->
  agrees_at (jello_jit_runtime_const_bytes malloc m (i_a ins) (i_imm ins)) (op_const_bytes malloc m ctx ins) vm.
Proof.
  intros Hi Hn. apply Z.leb_gt in Hi, Hn.
  apply (agrees_at_ext _ (p ← lift (const_bytes_object malloc m f (i_a ins) (i_imm ins));
      then_continue (vm_store_ptr (cf_rf fr) (i_a ins) p)) _
      (p ← const_bytes_object malloc m f (i_a ins) (i_imm ins);
        _ ← vm_store_ptr (cf_rf fr) (i_a ins) p; mret OP_CONTINUE)).
  - intros [Ht _]. unfold jello_jit_runtime_const_bytes. no_big. rewrite (with_frame_top m c i fi fr f) by done.
    rewrite lift_run. cbn [get_gc]. by rewrite Hi, Hn.
  - unfold op_const_bytes, const_bytes_object, mbind, M_bind, get_gc, must. rewrite Hi. cbn.
    destruct (const_bytes_cache (v_gc vm) @! (i_imm ins)) as [b|]; [|done]. by destruct (b =? 0).
  - apply agrees_at_all, agrees_bind; [effects | intros; apply agrees_continue; effects].
Qed.

(** *** Reads and writes of numbers: the helper does not look at the exceptions *)

(** The handler's effect, and the code goes on in any case. *)
Definition going_on (h : M op_result) : M (jello_jit_exit * jit_ctx) := fun vm =>
  match h vm with
  | Ret r vm' => Ret (EXIT_CONTINUE, c) vm'
  | Panic => Panic
  | Crash => Crash
  end.

Definition read_handler (k : jello_jit_bytes_kind) : op_handler :=
  match k with
  | JIT_U16_LE => op_bytes_read_u16_le m | JIT_U16_BE => op_bytes_read_u16_be m
  | JIT_U32_LE => op_bytes_read_u32_le m | JIT_U32_BE => op_bytes_read_u32_be m
  | JIT_I32_LE => op_bytes_read_i32_le m | JIT_I32_BE => op_bytes_read_i32_be m
  | JIT_F32_LE => op_bytes_read_f32_le m | JIT_F32_BE => op_bytes_read_f32_be m
  end.

Definition write_handler (k : jello_jit_bytes_kind) : op_handler :=
  match k with
  | JIT_U16_LE => op_bytes_write_u16_le m | JIT_U16_BE => op_bytes_write_u16_be m
  | JIT_U32_LE => op_bytes_write_u32_le m | JIT_U32_BE => op_bytes_write_u32_be m
  | JIT_I32_LE => op_bytes_write_i32_le m | JIT_I32_BE => op_bytes_write_i32_be m
  | JIT_F32_LE => op_bytes_write_f32_le m | JIT_F32_BE => op_bytes_write_f32_be m
  end.

Lemma bytes_ops_code k :
  bytes_read_ops m @! (code_of_bytes_kind k) = Some (read_handler k) /\
  bytes_write_ops m @! (code_of_bytes_kind k) = Some (write_handler k).
Proof. by destruct k. Qed.

Lemma with_bytes_continues name al w (k : exec_ctx -> jello_insn -> Z -> Z -> M op_result) x y :
  (forall b off, answers continues (k x y b off)) -> answers continues (with_bytes m name al w k x y).
Proof.
  intros Hk. unfold with_bytes. apply answers_bind. intros [b|]; [|by apply answers_ret].
  apply answers_bind. intros off. apply answers_bind. intros [|]; [apply Hk | by apply answers_ret].
Qed.

Lemma read_continues k x y : answers continues (read_handler k x y).
Proof.
  destruct k; unfold read_handler, op_bytes_read_u16_le, op_bytes_read_u16_be, op_bytes_read_u32_le,
    op_bytes_read_u32_be, op_bytes_read_i32_le, op_bytes_read_i32_be, op_bytes_read_f32_le, op_bytes_read_f32_be,
    DEF_BYTES_READ_U16, DEF_BYTES_READ_U32; apply with_bytes_continues; intros; unfold read_into; answer.
Qed.

Lemma write_continues k x y : answers continues (write_handler k x y).
Proof.
  destruct k; unfold write_handler, op_bytes_write_u16_le, op_bytes_write_u16_be, op_bytes_write_u32_le,
    op_bytes_write_u32_be, op_bytes_write_i32_le, op_bytes_write_i32_be, op_bytes_write_f32_le,
    op_bytes_write_f32_be, DEF_BYTES_WRITE_U16, DEF_BYTES_WRITE_U32; apply with_bytes_continues; intros;
    unfold write_from; answer.
Qed.

Lemma deaf_helper (h : op_handler) ins' vm :
  at_top m c i fi fr f vm -> h ctx ins' = h ctx ins -> answers continues (h ctx ins) ->
  with_frame m (fun i fr f => r ← run_op exports h i fr f ins'; unless_trap r) c vm
  = going_on (h ctx ins) vm.
Proof.
  intros Ht E Ha. rewrite (with_frame_top m c i fi fr f) by done. unfold mbind, J_bind, mbind, M_bind.
  rewrite run_op_top by (rewrite E; intros ? r ? ->%Ha; done). rewrite E. unfold going_on.
  destruct (h ctx ins vm) as [r vm'| |] eqn:Eh; [|done..]. by rewrite (Ha _ _ _ Eh).
Qed.

Lemma bytes_read_goes_on k vm : at_top m c i fi fr f vm ->
  jello_jit_runtime_bytes_read m exports (i_a ins) (i_b ins) (i_c ins) (code_of_bytes_kind k) c vm
  = going_on (read_handler k ctx ins) vm.
Proof.
  intros Ht. unfold jello_jit_runtime_bytes_read, jit_invoke_bytes. rewrite (proj1 (bytes_ops_code k)). operands.
  apply (deaf_helper (read_handler k)); [done | by destruct k | apply read_continues].
Qed.

Lemma bytes_write_goes_on k vm : at_top m c i fi fr f vm ->
  jello_jit_runtime_bytes_write m exports (i_a ins) (i_b ins) (i_c ins) (code_of_bytes_kind k) c vm
  = going_on (write_handler k ctx ins) vm.
Proof.
  intros Ht. unfold jello_jit_runtime_bytes_write, jit_invoke_bytes. rewrite (proj2 (bytes_ops_code k)). operands.
  apply (deaf_helper (write_handler k)); [done | by destruct k | apply write_continues].
Qed.
End Helpers.

(** ** From the bytecode to the call and its effect *)

(** The helper the code of an instruction calls, with the arguments.  Element and
    property accesses get there when their inline paths do not apply. *)
Definition ir_call (ir : jello_jit_ir_insn) : option (helper * list Z) :=
  let a := ir_a ir in let b := ir_b ir in let c := ir_c ir in let imm := u32 (ir_imm ir) in
  match ir_op ir with
  | JIR_BYTES_NEW => Some (JitX64.jello_jit_runtime_bytes_new, [a; b])
  | JIR_BYTES_LEN => Some (JitX64.jello_jit_runtime_bytes_len, [a; b])
  | JIR_BYTES_EQ => Some (JitX64.jello_jit_runtime_bytes_eq, [a; b; c])
  | JIR_BYTES_GET_U8 => Some (JitX64.jello_jit_runtime_bytes_get_u8, [a; b; c])
  | JIR_BYTES_SET_U8 => Some (JitX64.jello_jit_runtime_bytes_set_u8, [a; b; c])
  | JIR_BYTES_READ => Some (JitX64.jello_jit_runtime_bytes_read, [a; b; c; imm])
  | JIR_BYTES_WRITE => Some (JitX64.jello_jit_runtime_bytes_write, [a; b; c; imm])
  | JIR_ARRAY_LEN => Some (JitX64.jello_jit_runtime_array_len, [a; b])
  | JIR_ARRAY_GET => Some (JitX64.jello_jit_runtime_array_get, [a; b; c])
  | JIR_ARRAY_SET => Some (JitX64.jello_jit_runtime_array_set, [a; b; c])
  | JIR_ARRAY_NEW => Some (JitX64.jello_jit_runtime_array_new, [a; b])
  | JIR_OBJ_GET_ATOM => Some (JitX64.jello_jit_runtime_obj_get_atom, [a; b; imm])
  | JIR_OBJ_SET_ATOM => Some (JitX64.jello_jit_runtime_obj_set_atom, [a; b; imm])
  | JIR_ASSERT => Some (JitX64.jello_jit_runtime_assert, [a; b; c])
  | JIR_CONST_BYTES => Some (JitX64.jello_jit_runtime_const_bytes, [a; imm])
  | JIR_CONST_FUN => Some (JitX64.jello_jit_runtime_const_fun, [a; imm])
  | JIR_CLOSURE => Some (JitX64.jello_jit_runtime_closure, [a; b; c; imm])
  | JIR_CONV => Some (JitX64.jello_jit_runtime_conv, [a; b; imm])
  | _ => None
  end.

(** The instructions whose code is nothing but the call. *)
Definition only_call (o : jello_jit_ir_op) : bool :=
  match o with
  | JIR_ARRAY_GET | JIR_ARRAY_SET | JIR_OBJ_GET_ATOM | JIR_OBJ_SET_ATOM | JIR_CLOSURE => false
  | _ => true
  end.

Lemma ir_call_emitted room fn_addr lay m f layout body_entry i32c ir h args :
  ir_call ir = Some (h, args) -> only_call (ir_op ir) = true ->
  emit_insn room fn_addr lay m f layout body_entry i32c ir = then_none (emit_helper room fn_addr h args).
Proof.
  unfold ir_call, emit_insn, only_call, a3. destruct (ir_op ir); try discriminate; by intros [= <- <-].
Qed.

(** The instruction [lower_one] appends for a bytecode instruction that is no jump,
    no switch and no call; a constant function may also be left out. *)
Definition single_ir (o : jello_op) (pc : Z) (ins : jello_insn) : option jello_jit_ir_insn :=
  match o with
  | JOP_CONST_FUN => Some (ir_a_only JIR_CONST_FUN (i32 (i_imm ins)) pc ins)
  | _ => lower_plain o pc ins
  end.

(** The helpers that do not look at the exceptions. *)
Definition deaf (h : helper) : bool :=
  match h with
  | JitX64.jello_jit_runtime_bytes_read | JitX64.jello_jit_runtime_bytes_write => true
  | _ => false
  end.

(** What the checker and the compiler of the language see to: constants that exist.
    The inline-cache hint of the bytecode does not reach the helpers: 0. *)
Definition operands_ok (m : jello_bc_module) (o : jello_op) (ins : jello_insn) (vm : jello_vm) : Prop :=
  match o with
  | JOP_OBJ_GET_ATOM | JOP_OBJ_SET_ATOM => i_c ins = 0
  | JOP_CONST_FUN => i_imm ins < zlen (const_fun_cache (v_gc vm))
  | JOP_CONST_BYTES => i_imm ins < zlen (const_bytes_cache (v_gc vm)) /\ i_imm ins < m_nconst_bytes m
  | _ => True
  end.

Definition insn_fields (ins : jello_insn) : Prop :=
  (0 <= i_a ins < 256 /\ 0 <= i_b ins < 256 /\ 0 <= i_c ins < 256) /\ is_u 32 (i_imm ins).

Section Call.
Context (malloc : gc_state -> Z -> option Z) (m : jello_bc_module) (maddr : Z).
Context (nan32 nan64 junk : Z) (nan16 : bool -> Z).
Context (native : exec_ctx -> jello_insn -> Z -> Z -> M ()).
Context (jdll_prim : exec_ctx -> jello_insn -> Z -> Z -> M bool).
Context (exports : option Z).

(** The C function behind the address the code calls. *)
Definition run_helper (h : helper) (args : list Z) : J jello_jit_exit :=
  match h, args with
  | JitX64.jello_jit_runtime_bytes_new, [a; b] => jello_jit_runtime_bytes_new malloc m exports a b
  | JitX64.jello_jit_runtime_bytes_len, [a; b] => jello_jit_runtime_bytes_len m a b
  | JitX64.jello_jit_runtime_bytes_eq, [a; b; c] => jello_jit_runtime_bytes_eq m exports a b c
  | JitX64.jello_jit_runtime_bytes_get_u8, [a; b; c] => jello_jit_runtime_bytes_get_u8 m a b c
  | JitX64.jello_jit_runtime_bytes_set_u8, [a; b; c] => jello_jit_runtime_bytes_set_u8 m a b c
  | JitX64.jello_jit_runtime_bytes_read, [a; b; c; k] => jello_jit_runtime_bytes_read m exports a b c k
  | JitX64.jello_jit_runtime_bytes_write, [a; b; c; k] => jello_jit_runtime_bytes_write m exports a b c k
  | JitX64.jello_jit_runtime_array_len, [a; b] => jello_jit_runtime_array_len m a b
  | JitX64.jello_jit_runtime_array_get, [a; b; c] => jello_jit_runtime_array_get malloc m nan32 nan64 a b c
  | JitX64.jello_jit_runtime_array_set, [a; b; c] => jello_jit_runtime_array_set malloc m a b c
  | JitX64.jello_jit_runtime_array_new, [a; b] => jello_jit_runtime_array_new malloc m exports a b
  | JitX64.jello_jit_runtime_obj_get_atom, [a; b; k] => jello_jit_runtime_obj_get_atom malloc m nan32 nan64 a b k
  | JitX64.jello_jit_runtime_obj_set_atom, [a; b; k] => jello_jit_runtime_obj_set_atom malloc m junk a b k
  | JitX64.jello_jit_runtime_assert, [a; b; c] => jello_jit_runtime_assert malloc m exports a b c
  | JitX64.jello_jit_runtime_const_bytes, [a; k] => jello_jit_runtime_const_bytes malloc m a k
  | JitX64.jello_jit_runtime_const_fun, [a; k] => jello_jit_runtime_const_fun malloc m a k
  | JitX64.jello_jit_runtime_closure, [a; b; c; k] => jello_jit_runtime_closure malloc m exports a b c k
  | JitX64.jello_jit_runtime_conv, [a; b; k] => jello_jit_runtime_conv m nan32 nan64 a b k
  | _, _ => mret EXIT_TRAP
  end.

Abbreviation dispatch := (op_dispatch malloc m maddr nan32 nan64 junk nan16 native jdll_prim).

Lemma agrees_run c i fi fr f j h vm :
  agrees m c i fi fr f j h -> ready m c i fi fr f vm -> j c vm = leaving h c vm.
Proof. intros H. apply H. Qed.

Lemma agrees_at_run c i fi fr f j h vm :
  agrees_at m c i fi fr f j h vm -> ready m c i fi fr f vm -> j c vm = leaving h c vm.
Proof. intros H. apply H. Qed.

Definition all_bytes_kinds : list jello_jit_bytes_kind :=
  [JIT_U16_LE; JIT_U16_BE; JIT_U32_LE; JIT_U32_BE; JIT_I32_LE; JIT_I32_BE; JIT_F32_LE; JIT_F32_BE].

(** The case of one helper, from its lemma. *)
Ltac helper_case Hb Hv Hok :=
  lazymatch goal with
  | |- jello_jit_runtime_bytes_len _ _ _ _ _ = _ => eapply agrees_run; [by apply bytes_len_agrees | exact Hv]
  | |- jello_jit_runtime_bytes_get_u8 _ _ _ _ _ _ = _ => eapply agrees_run; [by apply bytes_get_u8_agrees | exact Hv]
  | |- jello_jit_runtime_bytes_set_u8 _ _ _ _ _ _ = _ => eapply agrees_run; [by apply bytes_set_u8_agrees | exact Hv]
  | |- jello_jit_runtime_bytes_eq _ _ _ _ _ _ _ = _ => eapply agrees_run; [by apply bytes_eq_agrees | exact Hv]
  | |- jello_jit_runtime_bytes_new _ _ _ _ _ _ _ = _ => eapply agrees_run; [by apply bytes_new_agrees | exact Hv]
  | |- jello_jit_runtime_array_len _ _ _ _ _ = _ => eapply agrees_run; [by apply array_len_agrees | exact Hv]
  | |- jello_jit_runtime_array_get _ _ _ _ _ _ _ _ _ = _ => eapply agrees_run; [by apply array_get_agrees | exact Hv]
  | |- jello_jit_runtime_array_set _ _ _ _ _ _ _ = _ => eapply agrees_run; [by apply array_set_agrees | exact Hv]
  | |- jello_jit_runtime_array_new _ _ _ _ _ _ _ = _ => eapply agrees_run; [by apply array_new_agrees | exact Hv]
  | |- jello_jit_runtime_obj_get_atom _ _ _ _ _ _ _ _ _ = _ => eapply agrees_run; [by apply obj_get_atom_agrees | exact Hv]
  | |- jello_jit_runtime_obj_set_atom _ _ _ _ _ _ _ _ = _ => eapply agrees_run; [by apply obj_set_atom_agrees | exact Hv]
  | |- jello_jit_runtime_assert _ _ _ _ _ _ _ _ = _ => eapply agrees_run; [by apply assert_agrees | exact Hv]
  | |- jello_jit_runtime_closure _ _ _ _ _ _ _ _ _ = _ => eapply agrees_run; [by apply closure_agrees | exact Hv]
  | |- jello_jit_runtime_const_fun _ _ _ _ _ _ = _ => eapply agrees_at_run; [by apply const_fun_agrees | exact Hv]
  | |- jello_jit_runtime_const_bytes _ _ _ _ _ _ = _ =>
    destruct Hok; eapply agrees_at_run; [by apply const_bytes_agrees | exact Hv]
  | |- jello_jit_runtime_conv _ _ _ _ _ (u32 ?n) ?c _ = leaving (_ {| cx_f := ?f; cx_fr := ?i; cx_rf := cf_rf ?fr;
      cx_exports := ?ex |} ?ins) _ _ =>
    lazymatch eval vm_compute in (all_convs @! n) with
    | Some ?k => exact (conv_agrees m nan32 nan64 ex c i _ fr f ins Hb k _ Hv)
    end
  | |- jello_jit_runtime_bytes_read _ _ _ _ _ (u32 ?n) _ _ = _ =>
    lazymatch eval vm_compute in (all_bytes_kinds @! n) with
    | Some ?k => eapply (bytes_read_goes_on m exports _ _ _ _ _ _ Hb k); apply Hv
    end
  | |- jello_jit_runtime_bytes_write _ _ _ _ _ (u32 ?n) _ _ = _ =>
    lazymatch eval vm_compute in (all_bytes_kinds @! n) with
    | Some ?k => eapply (bytes_write_goes_on m exports _ _ _ _ _ _ Hb k); apply Hv
    end
  end.

(** C20: for every bytecode instruction the compiler hands to a helper of its own
    (bytes, arrays, properties, constants, closures, assertions, conversions), the call
    the compiled code makes has exactly the effect of the interpreter's handler on the
    instruction, and it leaves the compiled code exactly when the handler has raised an
    exception.  The helpers of the sixteen reads and writes of numbers in byte strings
    ([deaf]) never leave it, whatever the handler has raised.  The constants of constant
    instructions are in the caches, property accesses have no cache hint
    ([operands_ok]). *)
Theorem helper_calls_agree o pc ins ir h args c i fi fr f vm :
  op_of_code (i_op ins) = Some o -> insn_fields ins ->
  single_ir o pc ins = Some ir -> ir_call ir = Some (h, args) ->
  ready m c i fi fr f vm -> operands_ok m o ins vm ->
  run_helper h args c vm =
  (if deaf h then going_on c else fun p => leaving p c) (dispatch (mk_ctx f i (cf_rf fr) exports) ins) vm.
Proof.
  intros Ho [Hb Hi] Hs Hc Hv Hok. unfold op_dispatch. rewrite Ho.
  assert (Himm : u32 (i32 (i_imm ins)) = i_imm ins) by (rewrite wrapU_wrapS by lia; by apply wrapU_id).
  destruct o; try discriminate Hs; cbn in Hs; injection Hs as <-; try discriminate Hc;
    cbn in Hc; injection Hc as <- <-; rewrite ?Himm; cbn [run_helper deaf]; helper_case Hb Hv Hok.
Qed.
End Call.

(** ** A frame to run on *)

(** A function with a byte string and a number, and its only frame: the byte string
    is null. *)
Definition rt_kinds : list jello_type_kind := [JELLO_T_BYTES; JELLO_T_I32].
Definition rt_insns : list jello_insn := [insn_of JOP_BYTES_LEN 1 0 0 0; insn_of JOP_RET 1 0 0 0].
Definition rt_module : jello_bc_module := d_module rt_kinds rt_insns.
Definition rt_frame : call_frame := mk_frame 0 (d_rf rt_kinds) 0 0 0 false false true true false false 0.
Definition rt_vm : jello_vm :=
  set_stack (mk_stack [rt_frame] 16 0 (d_stack [0; 7]) (d_size rt_kinds) [] 0) box_vm.
Definition rt_ctx : jit_ctx := mk_jx (Some 0) (Some 0) 0 0 0 None None true None.

Lemma rt_ready : ready rt_module rt_ctx 0 0 rt_frame (d_fun rt_kinds rt_insns) rt_vm.
Proof. by repeat split. Qed.

(** The length of the null byte string: both raise, the compiled code is left. *)
Lemma helper_calls_agree_witness :
  run_helper (fun _ _ => None) rt_module 0 0 0 None JitX64.jello_jit_runtime_bytes_len [1; 0] rt_ctx rt_vm =
  leaving (op_dispatch (fun _ _ => None) rt_module 8 0 0 0 (fun _ => 0) (fun _ _ _ _ => mret ())
    (fun _ _ _ _ => mret true) (mk_ctx (d_fun rt_kinds rt_insns) 0 (cf_rf rt_frame) None)
    (insn_of JOP_BYTES_LEN 1 0 0 0)) rt_ctx rt_vm.
Proof.
  apply (helper_calls_agree (fun _ _ => None) rt_module 8 0 0 0 (fun _ => 0) (fun _ _ _ _ => mret ())
    (fun _ _ _ _ => mret true) None JOP_BYTES_LEN 0 (insn_of JOP_BYTES_LEN 1 0 0 0)
    (mk_ir JIR_BYTES_LEN 1 0 0 0 0) JitX64.jello_jit_runtime_bytes_len [1; 0] rt_ctx 0 0 rt_frame
    (d_fun rt_kinds rt_insns) rt_vm).
  - reflexivity.
  - repeat split; discriminate || reflexivity.
  - reflexivity.
  - reflexivity.
  - exact rt_ready.
  - exact I.
Defined.
