(* ===== verification/JitDriver.v ===== *)
(** * The driver of the just-in-time compiler

    Model of src/src/jit/jit_compile.c with the x86-64 back end and of
    [vm_exec_loop] (src/src/vm/ops/exec_loop.c) in a build with the compiler: when a
    function is compiled, when its code is entered, and the loop that interprets the
    rest. *)

From Stdlib Require Import String.
From S2P Require Import Prelude CInt Memory Bytecode Value Object Heap Vm Frame Float Gc Box Types Ops ArithOps Call Exc CoreOps Exec JitIr X64 JitX64 JitState JitRun.

Open Scope string_scope.
Open Scope Z_scope.

Section Driver.
Context (malloc : gc_state -> Z -> option Z) (m : jello_bc_module) (maddr : Z).
Context (nan32 nan64 junk : Z) (nan16 : bool -> Z).
Context (native : exec_ctx -> jello_insn -> Z -> Z -> M ()).
Context (jdll_prim : exec_ctx -> jello_insn -> Z -> Z -> M bool).
Context (exports : option Z) (getenv : string -> option string).
Context (native_run : Z -> J jello_jit_exit).
(** Memory for the intermediate code, the code and the cache. *)
Context (grows room : Z -> bool) (fn_addr : helper -> Z) (lay : jello_jit_layout).
Context (page_size : Z) (mmap : jello_jit_state -> Z -> option Z).
Context (mprotect : jello_jit_state -> Z -> bool) (alloc_ok : Z -> bool).

Abbreviation sync := jello_jit_deopt_sync_ctx.
Abbreviation get_layout := (vm_get_frame_layout m maddr).
Abbreviation lookup_code := (fun st fi => jello_jit_cache_lookup st maddr fi).

(** ** Counters and cache on the machine's state *)

Definition hot_counter (fi : Z) : J (option Z) :=
  c ← get_ctx;
  match jit_state c with
  | None => mret None
  | Some st =>
    let '(st, t) := jello_jit_hot_counter alloc_ok maddr (m_nfuncs m) fi st in
    _ ← put_ctx (with_jit_state (Some st) c); mret t
  end.

Definition hot_value (t fi : Z) : J Z :=
  c ← get_ctx; lift (must (st ← jit_state c; hot_read t fi st)).

Definition set_hot_value (t fi v : Z) : J () :=
  c ← get_ctx;
  st ← lift (must (st ← jit_state c; hot_write t fi v st));
  put_ctx (with_jit_state (Some st) c).

Definition jello_jit_hot_is_rejected (fi : Z) : J bool :=
  t ← hot_counter fi;
  match t with
  | None => mret false
  | Some t => v ← hot_value t fi; mret (v =? JELLO_JIT_HOT_REJECTED)
  end.

Definition jello_jit_hot_mark_rejected (fi : Z) : J () :=
  t ← hot_counter fi;
  match t with
  | None => mret ()
  | Some t => set_hot_value t fi JELLO_JIT_HOT_REJECTED
  end.

Definition cached_code (fi : Z) : J (option jello_jit_code) :=
  c ← get_ctx; mret (st ← jit_state c; lookup_code st fi).

Definition is_cached (fi : Z) : J bool := code ← cached_code fi; mret (bool_decide (is_Some code)).

Definition jit_on : J bool := c ← get_ctx; mret (jello_jit_config_enabled getenv (jit_enabled c)).

Definition jello_jit_func_is_compiled (fi : Z) : J bool :=
  on ← jit_on; if negb on then mret false else is_cached fi.

Definition jello_jit_func_needs_enter (fi : Z) : J bool :=
  on ← jit_on; c ← get_ctx;
  if negb on || bool_decide (jit_state c = None) then mret false else
  k ← is_cached fi;
  if k : bool then mret false else r ← jello_jit_hot_is_rejected fi; mret (negb r).

(** ** Compilation *)

Definition reject_fun (fi : Z) : J (option jello_jit_code) :=
  _ ← jello_jit_hot_mark_rejected fi; mret None.

(** [ir.ninsns > 0 && ir.nslow * 3 > ir.ninsns]. *)
Definition mostly_slow (ir : jello_jit_ir_func) : bool :=
  (0 <? zlen (ir_insns ir)) && (zlen (ir_insns ir) <? u32 (nslow ir * 3)).

Definition insert_code (fi : Z) (code : list Z) (entry_off body_off : Z) (map_ : list Z)
  : J (option jello_jit_code) :=
  c ← get_ctx;
  match jit_state c with
  | None => mret None
  | Some st =>
    let '(st, k) := jello_jit_cache_insert page_size mmap mprotect alloc_ok st maddr fi code entry_off
      body_off map_ in
    _ ← put_ctx (with_jit_state (Some st) c); mret k
  end.

Definition jello_jit_compile_function (fi : Z) : J (option jello_jit_code) :=
  c ← get_ctx;
  if bool_decide (jit_state c = None) then mret None else
  rejected ← jello_jit_hot_is_rejected fi;
  if rejected : bool then mret None else
  let ir := jello_jit_ir_build m grows fi in
  if negb (ir_ok ir) || mostly_slow ir then reject_fun fi else
  layout ← lift (get_layout fi);
  f ← lift (fun_at m fi);
  match x64_emit_func room fn_addr lay m f layout ir [] with
  | None => reject_fun fi
  | Some (entry_off, body_off, map_, code) =>
    if zlen code =? 0 then reject_fun fi else
    k ← insert_code fi code entry_off body_off map_;
    match k with
    | None => reject_fun fi
    | Some k => mret (Some k)
    end
  end.

Definition jello_jit_init (c : jit_ctx) : jit_ctx :=
  mk_jx (jx_fr c) (jx_f c) (jit_resume_entry c) (jit_self_resume c) (jit_call_entry c) (jx_out c)
    (jx_out_exports c) true (Some (default jello_jit_state_create (jit_state c))).

Definition jello_jit_shutdown (c : jit_ctx) : jit_ctx := with_jit_state None c.

Definition jello_jit_module_unloaded (md : Z) (c : jit_ctx) : jit_ctx :=
  if md =? 0 then c else
  with_jit_state ((fun st => jello_jit_cache_drop_module page_size st md) <$> jit_state c) c.

(** ** When to compile, when to enter *)

(** One more entry or loop turn of the function; whether it is hot now. *)
Definition count_hot (fi : Z) : J bool :=
  t ← hot_counter fi;
  match t with
  | None => mret false
  | Some t =>
    v ← hot_value t fi;
    if v =? JELLO_JIT_HOT_REJECTED then mret false else
    let v' := if v <? JELLO_JIT_HOT_REJECTED then v + 1 else v in
    _ ← set_hot_value t fi v';
    mret (negb (v' <? jello_jit_config_hot_threshold getenv))
  end.

Definition jello_jit_on_enter : J () :=
  on ← jit_on;
  c ← get_ctx;
  match jx_fr c, jx_f c with
  | Some _, Some fi =>
    if negb on then mret () else
    fl ← lift (get_layout fi);
    if fl_jit_ineligible fl || bool_decide (jit_state c = None) then mret () else
    rejected ← jello_jit_hot_is_rejected fi;
    if rejected : bool then mret () else
    k ← is_cached fi;
    if k : bool then mret () else
    if fl_jit_self_rec fl then _ ← jello_jit_compile_function fi; mret () else
    hot ← count_hot fi;
    if hot : bool then _ ← jello_jit_compile_function fi; mret () else mret ()
  | _, _ => mret ()
  end.

(** [bc_pc_map[pc]], 0: no code starts there. *)
Definition mapped_pc (code : jello_jit_code) (pc : Z) : Z := zget 0 (co_bc_pc_map code) pc.

Definition jello_jit_on_backedge : J () :=
  on ← jit_on;
  c ← get_ctx;
  match jx_fr c, jx_f c with
  | Some i, Some fi =>
    if negb on || bool_decide (jit_state c = None) then mret () else
    rejected ← jello_jit_hot_is_rejected fi;
    if rejected : bool then mret () else
    code ← cached_code fi;
    code ← match code with
    | Some k => mret (Some k)
    | None => hot ← count_hot fi; if hot : bool then jello_jit_compile_function fi else mret None
    end;
    match code with
    | None => mret ()
    | Some code =>
      fr ← lift (frame_at i);
      if mapped_pc code (cf_pc fr) =? 0 then mret ()
      else lift (update_frame i (fun fr => set_hints (cf_jit_resume_hint fr) true fr))
    end
  | _, _ => mret ()
  end.

Definition try_run (code : jello_jit_code) (resume : Z) : J Z :=
  _ ← modify (with_resume resume);
  rr ← jello_jit_runtime_run native_run code;
  _ ← modify (with_resume 0);
  _ ← sync;
  n ← lift nframes;
  mret (match rr with
    | RUN_RETURNED => if n =? 0 then 1 else 2
    | RUN_STEPPED | RUN_NESTED_RET => 2
    | RUN_CONTINUE => 0
    end).

(** 0: interpret; 1: the run is over; 2: go on with the frames as they are. *)
Definition jello_jit_try_enter : J Z :=
  on ← jit_on;
  c ← get_ctx;
  match jx_f c with
  | Some fi =>
    if negb on || negb (jello_jit_config_run_enabled getenv) then mret 0 else
    match jx_fr c with
    | None =>
      code ← cached_code fi;
      match code with Some code => try_run code 0 | None => mret 0 end
    | Some i =>
      fr ← lift (frame_at i);
      let pc := cf_pc fr in
      if negb (pc =? 0) && negb (cf_jit_resume_hint fr) && negb (cf_jit_osr_hint fr) then mret 0 else
      _ ← (if pc =? 0 then mret () else lift (update_frame i (set_hints false false)));
      code ← cached_code fi;
      match code with
      | None => mret 0
      | Some code =>
        if pc =? 0 then try_run code 0 else
        if mapped_pc code pc =? 0 then mret 0 else try_run code (co_base code + mapped_pc code pc)
      end
    end
  | None => mret 0
  end.

(** ** The loop *)

Section Loop.
Context (dispatch : op_handler) (min_frames : Z).

Definition the_result : J (option exec_result) :=
  c ← get_ctx; mret (Some (JELLO_EXEC_OK (jx_out c) (jx_out_exports c))).

(** The hooks before an instruction: 0, 1 or 2 as above. *)
Definition enter_hook (i : Z) (fr : call_frame) : J Z :=
  let first := (cf_pc fr =? 0) && negb (cf_jit_entry_done fr) in
  if negb (cf_jit_resume_hint fr || cf_jit_osr_hint fr || first) then mret 0 else
  _ ← modify (at_frame (Some i) (Some (cf_f fr)));
  try_ ← (if first then
      _ ← lift (update_frame i set_entry_done);
      _ ← jello_jit_on_enter;
      jello_jit_func_is_compiled (cf_f fr)
    else mret true);
  if try_ : bool then
    _ ← modify (at_frame (Some i) (Some (cf_f fr)));
    jello_jit_try_enter
  else mret 0.

Definition is_backedge (ins : jello_insn) : bool := (i_op ins =? code_of_op JOP_JMP) && (i32 (i_imm ins) <? 0).

Definition jit_interp_insn (i : Z) : J (option exec_result) :=
  fr ← lift (frame_at i);
  f ← lift (fun_at m (cf_f fr));
  ins ← lift (must (f_insns f @! (cf_pc fr)));
  _ ← lift (set_frame_at i (set_pc (u32 (cf_pc fr + 1)) fr));
  _ ← modify (at_frame (Some i) (Some (cf_f fr)));
  r ← lift (dispatch (mk_ctx f i (cf_rf fr) exports) ins);
  match r with
  | OP_RETURN out ex =>
    _ ← modify (fun c => with_out (Some out) (match ex with Some _ => ex | None => jx_out_exports c end) c);
    the_result
  | OP_CONTINUE => _ ← (if is_backedge ins then jello_jit_on_backedge else mret ()); mret None
  | OP_TRAP => mret None
  end.

Definition jit_exec_step : J (option exec_result) :=
  n ← lift nframes;
  if negb (min_frames =? 0) && (n <=? min_frames) then the_result else
  stop ← lift (vm_exc_dispatch malloc m junk);
  if stop : bool then mret (Some JELLO_EXEC_TRAP) else
  n ← lift nframes;
  if n =? 0 then
    _ ← lift (s ← get_stack; put_stack (set_frames [] (set_frames_cap 0 s)));
    _ ← modify (fun c => with_out (Some jello_make_null) (jx_out_exports c) c);
    the_result
  else
  fr ← lift (frame_at (n - 1));
  rc ← enter_hook (n - 1) fr;
  if rc =? 1 then the_result else
  if rc =? 2 then mret None else jit_interp_insn (n - 1).

Fixpoint jit_exec_loop (fuel : nat) : J (option exec_result) :=
  match fuel with
  | O => mret None
  | S fuel' =>
    r ← jit_exec_step;
    match r with
    | Some res => mret (Some res)
    | None => jit_exec_loop fuel'
    end
  end.
End Loop.
End Driver.
