(* ===== verification/JitDriverThms.v ===== *)
(** * When the compiler is on and when it is off

    With the compiler switched off the loop of the build with it is the interpreter
    ([jit_off_interprets]); compiling a function either puts its code into the cache or
    rejects the function for good ([compile_caches_or_rejects]). *)

From Stdlib Require Import String.
From S2P Require Import Prelude CInt Memory Bytecode Check FunCheck Value Object Heap Vm Frame Float Gc Box Types Ops ArithOps Call Exc CoreOps CallOps ContainerOps Exec JitIr X64 JitX64 JitX64Diverge JitState JitStateThms JitRun Effects JitRunThms JitDriver.

#[local] Open Scope list_scope.
#[local] Open Scope Z_scope.

Section Driver.
Context (malloc : gc_state -> Z -> option Z) (m : jello_bc_module) (maddr : Z) (junk : Z).
Context (exports : option Z) (getenv : string -> option string).
Context (native_run : Z -> J jello_jit_exit).
Context (grows room : Z -> bool) (fn_addr : helper -> Z) (lay : jello_jit_layout).
Context (page_size : Z) (mmap : jello_jit_state -> Z -> option Z).
Context (mprotect : jello_jit_state -> Z -> bool) (alloc_ok : Z -> bool).

Abbreviation on_enter := (jello_jit_on_enter m maddr getenv grows room fn_addr lay page_size mmap mprotect alloc_ok).
Abbreviation on_backedge :=
  (jello_jit_on_backedge m maddr getenv grows room fn_addr lay page_size mmap mprotect alloc_ok).
Abbreviation try_enter := (jello_jit_try_enter maddr getenv native_run).
Abbreviation compile := (jello_jit_compile_function m maddr grows room fn_addr lay page_size mmap mprotect alloc_ok).

(** ** Switched off *)

Section Off.
Context (dispatch : op_handler) (min_frames : Z).

Abbreviation jit_step :=
  (jit_exec_step malloc m maddr junk exports getenv native_run grows room fn_addr lay page_size mmap mprotect
      alloc_ok dispatch min_frames).
Abbreviation jit_loop :=
  (jit_exec_loop malloc m maddr junk exports getenv native_run grows room fn_addr lay page_size mmap mprotect
      alloc_ok dispatch min_frames).
Abbreviation step := (exec_step malloc m junk dispatch min_frames exports).
Abbreviation loop := (exec_loop malloc m junk dispatch min_frames exports).

(** Off, and nothing returned yet. *)
Record idle (c : jit_ctx) : Prop := {
  idle_off : jello_jit_config_enabled getenv (jit_enabled c) = false;
  idle_out : jx_out c = None;
  idle_exports : jx_out_exports c = None
}.

(** The same state and the same answer; the context stays idle while there is none. *)
Definition same_turn (j : outcome (option exec_result * jit_ctx)) (o : outcome (option exec_result)) : Prop :=
  match j, o with
  | Ret (r, c) vm, Ret r' vm' => r = r' /\ vm = vm' /\ (r = None -> idle c)
  | Panic, Panic => True
  | Crash, Crash => True
  | _, _ => False
  end.

Lemma jit_on_off c vm : idle c -> jit_on getenv c vm = Ret (false, c) vm.
Proof. intros [H _ _]. unfold jit_on. rewrite get_ctx_run. by rewrite H. Qed.

Lemma J_run {A B} (p : J A) (k : A -> J B) c vm a c' vm' :
  p c vm = Ret (a, c') vm' -> (x ← p; k x) c vm = k a c' vm'.
Proof. intros H. unfold mbind, J_bind, mbind, M_bind. by rewrite H. Qed.

Lemma on_enter_off c vm : idle c -> on_enter c vm = Ret ((), c) vm.
Proof.
  intros Hi. unfold jello_jit_on_enter. rewrite (J_run _ _ _ _ _ _ _ (jit_on_off c vm Hi)), get_ctx_run. cbn [negb].
  by destruct (jx_fr c), (jx_f c).
Qed.

Lemma on_backedge_off c vm : idle c -> on_backedge c vm = Ret ((), c) vm.
Proof.
  intros Hi. unfold jello_jit_on_backedge. rewrite (J_run _ _ _ _ _ _ _ (jit_on_off c vm Hi)), get_ctx_run.
  cbn [negb orb]. by destruct (jx_fr c), (jx_f c).
Qed.

Lemma is_compiled_off fi c vm : idle c -> jello_jit_func_is_compiled maddr getenv fi c vm = Ret (false, c) vm.
Proof. intros Hi. unfold jello_jit_func_is_compiled. by rewrite (J_run _ _ _ _ _ _ _ (jit_on_off c vm Hi)). Qed.

Lemma try_enter_off c vm : idle c -> try_enter c vm = Ret (0, c) vm.
Proof.
  intros Hi. unfold jello_jit_try_enter. rewrite (J_run _ _ _ _ _ _ _ (jit_on_off c vm Hi)), get_ctx_run.
  by destruct (jx_f c).
Qed.

Lemma idle_at_frame fr f c : idle c -> idle (at_frame fr f c).
Proof. by intros []. Qed.

(** The hook marks a frame that starts, as the hook of the build without the compiler
    does, and asks for the instruction. *)
Lemma enter_hook_off i fr c vm : idle c -> call_frames (v_stack vm) @! i = Some fr ->
  exists c' vm', idle c' /\
  enter_hook m maddr getenv native_run grows room fn_addr lay page_size mmap mprotect alloc_ok i fr c vm =
  Ret (0, c') vm' /\
  exists fr', jit_hook i fr vm = Ret fr' vm' /\ call_frames (v_stack vm') @! i = Some fr' /\ cf_f fr' = cf_f fr.
Proof.
  intros Hi Hfr. pose proof (znth_Some _ _ _ Hfr) as Hr. pose proof (idle_at_frame (Some i) (Some (cf_f fr)) c Hi) as Hi'.
  unfold enter_hook, jit_hook.
  destruct ((cf_pc fr =? 0) && negb (cf_jit_entry_done fr)) eqn:Ef.
  - rewrite orb_true_r. cbn [negb]. set (c' := at_frame (Some i) (Some (cf_f fr)) c) in *.
    set (vm' := set_stack (set_frames ((call_frames (v_stack vm)) @[i := set_entry_done fr]) (v_stack vm)) vm).
    exists c', vm'. split; [done|]. split.
    + assert (E : (_ ← lift (update_frame i set_entry_done); _ ← on_enter;
          jello_jit_func_is_compiled maddr getenv (cf_f fr)) c' vm = Ret (false, c') vm').
      { rewrite lift_run. unfold update_frame, mbind at 1, M_bind at 1. rewrite (frame_at_run _ _ _ Hfr).
        unfold set_frame_at, mbind at 1, M_bind at 1, get_stack, put_stack. cbv beta iota. fold vm'.
        rewrite (J_run _ _ _ _ _ _ _ (on_enter_off _ vm' Hi')). by apply is_compiled_off. }
      rewrite (J_run (modify _) _ _ _ () c' vm eq_refl). by rewrite (J_run _ _ _ _ _ _ _ E).
    + exists (set_entry_done fr). split; [done|]. split; [by apply znth_zset_eq | done].
  - rewrite orb_false_r. destruct (cf_jit_resume_hint fr || cf_jit_osr_hint fr); cbn [negb].
    + eexists (at_frame (Some i) (Some (cf_f fr)) (at_frame (Some i) (Some (cf_f fr)) c)), vm.
      split; [by do 2 apply idle_at_frame|]. split; [|by exists fr].
      rewrite (J_run (modify _) _ _ _ _ _ _ eq_refl), (J_run (mret true) _ _ _ _ _ _ eq_refl).
      rewrite (J_run (modify _) _ _ _ _ _ _ eq_refl). by apply try_enter_off, idle_at_frame.
    + exists c, vm. split; [done|]. split; [done|]. by exists fr.
Qed.

Lemma same_bind {A} (p : M A) (kj : A -> J (option exec_result)) (km : A -> M (option exec_result)) c vm :
  (forall a vm', p vm = Ret a vm' -> same_turn (kj a c vm') (km a vm')) ->
  same_turn ((x ← lift p; kj x) c vm) ((x ← p; km x) vm).
Proof. intros H. rewrite lift_run. unfold mbind, M_bind. destruct (p vm) as [a vm'| |]; [by apply H | done..]. Qed.

Lemma M_run {A B} (p : M A) (k : A -> M B) vm a vm' : p vm = Ret a vm' -> (x ← p; k x) vm = k a vm'.
Proof. intros H. unfold mbind, M_bind. by rewrite H. Qed.

Lemma idle_result out ex c vm : idle c ->
  same_turn
    ((_ ← modify (fun c => with_out (Some out) (match ex with Some _ => ex | None => jx_out_exports c end) c);
    the_result) c vm) (Ret (Some (JELLO_EXEC_OK (Some out) ex)) vm).
Proof.
  intros [_ _ He]. rewrite (J_run (modify _) _ _ _ _ _ _ eq_refl). unfold the_result. rewrite get_ctx_run. cbn.
  split; [|done]. destruct ex; [done | by rewrite He].
Qed.

Lemma interp_insn_off i fr c vm : idle c -> call_frames (v_stack vm) @! i = Some fr ->
  same_turn
    (jit_interp_insn m maddr exports getenv grows room fn_addr lay page_size mmap mprotect alloc_ok dispatch i c vm)
    ((f ← fun_at m (cf_f fr); ins ← must (f_insns f @! (cf_pc fr));
    _ ← set_frame_at i (set_pc (u32 (cf_pc fr + 1)) fr);
    r ← dispatch (mk_ctx f i (cf_rf fr) exports) ins; mret (next r)) vm).
Proof.
  intros Hi Hfr. unfold jit_interp_insn. rewrite lift_run, (frame_at_run _ _ _ Hfr).
  apply same_bind. intros f vm1 _. apply same_bind. intros ins vm2 _. apply same_bind. intros [] vm3 _.
  rewrite (J_run (modify _) _ _ _ _ _ _ eq_refl).
  pose proof (idle_at_frame (Some i) (Some (cf_f fr)) c Hi) as Hi'.
  apply same_bind. intros r vm4 _. destruct r as [|out ex|]; cbn [next]; [|by apply idle_result | done].
  destruct (is_backedge ins); [|done]. by rewrite (J_run _ _ _ _ _ _ _ (on_backedge_off _ _ Hi')).
Qed.

Lemma exec_insn_hooked i fr fr' vm vm' : call_frames (v_stack vm) @! i = Some fr ->
  jit_hook i fr vm = Ret fr' vm' -> cf_f fr' = cf_f fr ->
  exec_insn m dispatch exports i vm =
  (f ← fun_at m (cf_f fr'); ins ← must (f_insns f @! (cf_pc fr'));
    _ ← set_frame_at i (set_pc (u32 (cf_pc fr' + 1)) fr');
    r ← dispatch (mk_ctx f i (cf_rf fr') exports) ins; mret (next r)) vm'.
Proof.
  intros Hfr Hh Hf. unfold exec_insn. rewrite (M_run _ _ _ _ _ (frame_at_run _ _ _ Hfr)), Hf.
  unfold fun_at, must. destruct (m_funcs m @! (cf_f fr)) as [f|]; [|done].
  rewrite (M_run _ _ vm f vm eq_refl), (M_run _ _ vm' f vm' eq_refl). by rewrite (M_run _ _ _ _ _ Hh).
Qed.

Lemma step_off c vm : idle c -> same_turn (jit_step c vm) (step vm).
Proof.
  intros Hi. unfold jit_exec_step, exec_step. apply same_bind. intros n vm1 _.
  destruct (negb (min_frames =? 0) && (n <=? min_frames)).
  { unfold the_result. rewrite get_ctx_run. destruct Hi as [_ -> ->]. by split. }
  apply same_bind. intros [|] vm2 _; [by split|]. apply same_bind. intros n' vm3 _.
  destruct (n' =? 0).
  { rewrite lift_run. unfold mbind at 4, M_bind at 2, get_stack, mbind at 3, M_bind at 1, put_stack.
    exact (idle_result jello_make_null None c (set_stack (set_frames [] (set_frames_cap 0 (v_stack vm3))) vm3) Hi). }
  destruct (call_frames (v_stack vm3) @! (n' - 1)) as [fr|] eqn:Hfr.
  - rewrite lift_run, (frame_at_run _ _ _ Hfr).
    destruct (enter_hook_off (n' - 1) fr c vm3 Hi Hfr) as (c' & vm' & Hi' & E & fr' & Hh & Hfr' & Hf).
    rewrite (J_run _ _ _ _ _ _ _ E). cbn [Z.eqb Pos.eqb].
    rewrite (exec_insn_hooked _ _ _ _ _ Hfr Hh Hf). by apply interp_insn_off.
  - rewrite lift_run. unfold exec_insn, mbind at 1, M_bind at 1, frame_at. unfold mbind, M_bind, get_stack, must.
    by rewrite Hfr.
Qed.

(** C23: with the compiler switched off (by the embedder or by the environment
    variable JELLO_JIT) the loop of the build with the compiler is the interpreter's:
    started from any context, for any number of turns, it aborts, crashes or answers as
    the interpreter does, with the same result and the same state of the machine. *)
Theorem jit_off_interprets fuel c vm :
  jello_jit_config_enabled getenv (jit_enabled c) = false -> jx_out c = None -> jx_out_exports c = None ->
  match jit_loop fuel c vm, loop fuel vm with
  | Ret (r, _) vm1, Ret r' vm2 => r = r' /\ vm1 = vm2
  | Panic, Panic => True
  | Crash, Crash => True
  | _, _ => False
  end.
Proof.
  intros H1 H2 H3. assert (Hi : idle c) by done. clear H1 H2 H3.
  revert c vm Hi. induction fuel as [|fuel IH]; intros c vm Hi; cbn [jit_exec_loop exec_loop]; [done|].
  pose proof (step_off c vm Hi) as Hs. unfold mbind, J_bind, mbind, M_bind.
  destruct (jit_step c vm) as [[r c'] vm1| |], (step vm) as [r' vm2| |]; try done.
  destruct Hs as (-> & -> & Hc). destruct r' as [res|]; [done|]. by apply IH, Hc.
Qed.
End Off.

(** ** Compiling *)

(** The counter of the function is [v]: it was made before. *)
Definition hot_is (st : jello_jit_state) (fi v : Z) : Prop :=
  maddr <> 0 /\ fi < m_nfuncs m /\ exists t tb l, find_hot maddr (js_hot st) 0 = Some t /\
  js_hot st @! t = Some tb /\ ht_counts tb = Some l /\ l @! fi = Some v.

Lemma map_zset_same {A B} (g : A -> B) (l : list A) t x y :
  l @! t = Some x -> g y = g x -> map g (l @[t := y]) = map g l.
Proof.
  unfold znth, zset. case_decide; [|done]. intros Hl Hg. change (map g) with (fmap (M := list) g).
  rewrite list_fmap_insert. apply list_insert_id. by rewrite list_lookup_fmap, Hl, Hg.
Qed.

Lemma find_hot_ext md ts ts' i : map ht_mod ts = map ht_mod ts' -> find_hot md ts i = find_hot md ts' i.
Proof.
  revert ts' i. induction ts as [|t ts IH]; intros [|t' ts'] i [=]; [done|]. cbn. rewrite H0. case_if; [done|].
  by apply IH.
Qed.

Lemma hot_counter_run c st fi v vm : jit_state c = Some st -> hot_is st fi v ->
  exists t, hot_counter m maddr alloc_ok fi c vm = Ret (Some t, c) vm /\
  hot_value t fi c vm = Ret (v, c) vm /\
  forall v', exists st', set_hot_value t fi v' c vm = Ret ((), with_jit_state (Some st') c) vm /\
  hot_is st' fi v' /\ js_cache st' = js_cache st /\ js_text st' = js_text st.
Proof.
  intros Hc (Hm & Hf & t & tb & l & Hfind & Ht & Hl & Hv). exists t. split_and!.
  - unfold hot_counter. rewrite get_ctx_run, Hc. unfold jello_jit_hot_counter, hot_table_for.
    rewrite (proj2 (Z.eqb_neq _ _) Hm), (proj2 (Z.leb_gt _ _) Hf), Hfind, Ht, Hl. cbn [orb].
    unfold mbind, J_bind, put_ctx, mret, J_ret, mbind, M_bind, mret, M_ret. f_equal. f_equal.
    unfold with_jit_state. rewrite <- Hc. by destruct c.
  - unfold hot_value. rewrite get_ctx_run, Hc. cbn. unfold hot_read. rewrite Ht. cbn. rewrite Hl. cbn. by rewrite Hv.
  - intros v'. exists (set_hot ((js_hot st) @[t := mk_hot (ht_mod tb) (Some (l @[fi := v'])) (ht_nfuncs tb)]) st).
    split_and!; [| | done | done].
    + unfold set_hot_value. rewrite get_ctx_run, Hc. cbn. unfold hot_write. rewrite Ht. cbn. rewrite Hl. cbn.
      by rewrite Hv.
    + split; [done|]. split; [done|]. exists t. pose proof (znth_Some _ _ _ Ht). pose proof (znth_Some _ _ _ Hv).
      eexists _, _. split_and!; [|cbn; by apply znth_zset_eq | done | by apply znth_zset_eq].
      cbn. rewrite <- Hfind. apply find_hot_ext. by apply (map_zset_same _ _ _ tb).
Qed.

Lemma rejected_run fi c st v vm : jit_state c = Some st -> hot_is st fi v ->
  jello_jit_hot_is_rejected m maddr alloc_ok fi c vm = Ret (v =? JELLO_JIT_HOT_REJECTED, c) vm.
Proof.
  intros Hc Hv. destruct (hot_counter_run c st fi v vm Hc Hv) as (t & H1 & H2 & _).
  unfold jello_jit_hot_is_rejected. by rewrite (J_run _ _ _ _ _ _ _ H1), (J_run _ _ _ _ _ _ _ H2).
Qed.

(** A rejected function is rejected from now on, the cache is as it was. *)
Definition rejected_from (st st' : jello_jit_state) (fi : Z) : Prop :=
  hot_is st' fi JELLO_JIT_HOT_REJECTED /\ js_cache st' = js_cache st /\ js_text st' = js_text st.

Lemma reject_run fi c st v vm : jit_state c = Some st -> hot_is st fi v ->
  exists st', reject_fun m maddr alloc_ok fi c vm = Ret (None, with_jit_state (Some st') c) vm /\ rejected_from st st' fi.
Proof.
  intros Hc Hv. destruct (hot_counter_run c st fi v vm Hc Hv) as (t & H1 & _ & H3).
  destruct (H3 JELLO_JIT_HOT_REJECTED) as (st' & H4 & H5 & H6 & H7). exists st'. split; [|done].
  unfold reject_fun, jello_jit_hot_mark_rejected.
  assert (E : (t0 ← hot_counter m maddr alloc_ok fi;
      match t0 with Some t1 => set_hot_value t1 fi JELLO_JIT_HOT_REJECTED | None => mret () end) c vm =
      Ret ((), with_jit_state (Some st') c) vm) by (by rewrite (J_run _ _ _ _ _ _ _ H1)).
  by rewrite (J_run _ _ _ _ _ _ _ E).
Qed.

(** What inserting the code of a function leaves in the state. *)
Definition compiled_in (st st' : jello_jit_state) (fi : Z) (code : list Z) (k : jello_jit_code) : Prop :=
  jello_jit_cache_lookup st' maddr fi = Some k /\ js_text st' !! co_base k = Some code /\
  js_hot st' = js_hot st.

Hypothesis Hpage : page_size_ok page_size.
Hypothesis Hmmap : forall st n a, mmap st n = Some a -> a <> 0 /\ js_text st !! a = None.

Lemma insert_code_run fi code eo bo pcs c st vm : jit_state c = Some st ->
  exists r st', insert_code maddr page_size mmap mprotect alloc_ok fi code eo bo pcs c vm =
  Ret (r, with_jit_state (Some st') c) vm /\
  match r with Some k => compiled_in st st' fi code k | None => st' = st end.
Proof.
  intros Hc. unfold insert_code. rewrite get_ctx_run, Hc.
  destruct (jello_jit_cache_insert page_size mmap mprotect alloc_ok st maddr fi code eo bo pcs) as [st' r] eqn:E.
  exists r, st'. split; [done|]. pose proof (insert_inv page_size mmap mprotect alloc_ok Hpage Hmmap _ _ _ _ _ _ _ _ _ E) as H.
  destruct r as [k|]; [|done]. split; [|split].
  - rewrite (lookup_insert_code page_size mmap mprotect alloc_ok Hpage Hmmap _ _ _ _ _ _ _ _ _ maddr fi E).
    by rewrite decide_True.
  - destruct H as (_ & _ & _ & _ & _ & _ & _ & _ & _ & _ & _ & ->). cbn. by rewrite lookup_insert_eq.
  - by destruct H as (_ & _ & _ & _ & _ & _ & _ & _ & _ & _ & _ & ->).
Qed.

Lemma hot_is_hot st st' fi v : js_hot st' = js_hot st -> hot_is st fi v -> hot_is st' fi v.
Proof. unfold hot_is. by intros ->. Qed.

(** The code the back end gives for the function, if its intermediate code is worth it. *)
Definition function_code (fi : Z) (layout : frame_layout) (f : jello_bc_function) : option (list Z) :=
  let ir := jello_jit_ir_build m grows fi in
  if negb (ir_ok ir) || mostly_slow ir then None else
  snd <$> x64_emit_func room fn_addr lay m f layout ir [].

(** C22: compiling a function that was counted ends in one of two ways, unless the
    machine aborts: its code is in the cache afterwards, the bytes the back end emits for
    its intermediate code and its frame layout in mapped memory, and the code is what is handed back; or the
    function is rejected for good.  A function that was rejected stays as it is. *)
Theorem compile_caches_or_rejects fi c st v vm r c' vm' :
  jit_state c = Some st -> hot_is st fi v -> compile fi c vm = Ret (r, c') vm' ->
  exists st', c' = with_jit_state (Some st') c /\
  match r with
  | Some k => exists code layout f vm1, vm_get_frame_layout m maddr fi vm = Ret layout vm1 /\
    m_funcs m @! fi = Some f /\ function_code fi layout f = Some code /\
    compiled_in st st' fi code k /\ v <> JELLO_JIT_HOT_REJECTED
  | None => rejected_from st st' fi /\ (v = JELLO_JIT_HOT_REJECTED -> st' = st /\ vm' = vm)
  end.
Proof.
  intros Hc Hv. unfold jello_jit_compile_function. rewrite get_ctx_run, Hc.
  rewrite bool_decide_eq_false_2 by done. rewrite (J_run _ _ _ _ _ _ _ (rejected_run fi c st v vm Hc Hv)).
  assert (Hreject : forall vm0 s, jit_state s = Some st -> reject_fun m maddr alloc_ok fi s vm0 = Ret (r, c') vm' ->
      v <> JELLO_JIT_HOT_REJECTED -> exists st', c' = with_jit_state (Some st') s /\
      match r with Some _ => False | None => rejected_from st st' fi /\
        (v = JELLO_JIT_HOT_REJECTED -> st' = st /\ vm' = vm) end).
  { intros vm0 s Hs E Hn. destruct (reject_run fi s st v vm0 Hs Hv) as (st' & E' & H). rewrite E' in E.
    injection E as <- <- <-. by exists st'. }
  destruct (v =? JELLO_JIT_HOT_REJECTED) eqn:Er; bool_hyps.
  { intros [= <- <- <-]. exists st. split; [rewrite <- Hc; by destruct c|]. subst v. done. }
  destruct (negb (ir_ok _) || mostly_slow _) eqn:Eir.
  { intros E. destruct (Hreject vm c Hc E Er) as (st' & -> & H). exists st'. split; [done|]. by destruct r. }
  rewrite lift_run. destruct (vm_get_frame_layout m maddr fi vm) as [fl vm1| |] eqn:Efl; [|done..].
  rewrite lift_run. unfold fun_at, must. destruct (m_funcs m @! fi) as [f|] eqn:Ef; [|done].
  destruct (x64_emit_func room fn_addr lay m f fl (jello_jit_ir_build m grows fi) []) as [[[[eo bo] pcs] code]|] eqn:Ex.
  2: { intros E. destruct (Hreject vm1 c Hc E Er) as (st' & -> & H). exists st'. split; [done|]. by destruct r. }
  destruct (zlen code =? 0).
  { intros E. destruct (Hreject vm1 c Hc E Er) as (st' & -> & H). exists st'. split; [done|]. by destruct r. }
  destruct (insert_code_run fi code eo bo pcs c st vm1 Hc) as (k & st1 & E1 & Hk).
  rewrite (J_run _ _ _ _ _ _ _ E1). destruct k as [k|].
  - intros [= <- <- <-]. exists st1. split; [done|]. exists code, fl, f, vm1. split_and!; try done.
    unfold function_code. by rewrite Eir, Ex.
  - subst st1. intros E. destruct (Hreject vm1 (with_jit_state (Some st) c) eq_refl E Er) as (st' & -> & H).
    exists st'. split; [done|]. by destruct r.
Qed.
End Driver.


(** ** Runs *)

(** [fn() -> i32 { 7 }], and a state in which its entries are counted. *)
Definition dr_insns : list jello_insn := [insn_of JOP_CONST_I32 0 0 0 7; insn_of JOP_RET 0 0 0 0].
Definition dr_module : jello_bc_module := d_module [JELLO_T_I32] dr_insns.
Definition dr_lay : jello_jit_layout := mk_lay 24 0 32 40 48 64 72.
Definition dr_state : jello_jit_state := fst (jello_jit_hot_counter (fun _ => true) 8 1 0 jello_jit_state_create).
Definition dr_ctx : jit_ctx := mk_jx None None 0 0 0 None None true (Some dr_state).

Abbreviation dr_compile := (jello_jit_compile_function dr_module 8 (fun _ => true) (fun _ => true) (fun _ => 0) dr_lay
  4096 demo_mmap (fun _ _ => true) (fun _ => true) 0 dr_ctx rt_vm).

Definition dr_compiles (o : outcome (option jello_jit_code * jit_ctx)) : Prop :=
  match o with
  | Ret (Some k, c') _ => exists st' code layout f, c' = with_jit_state (Some st') dr_ctx /\
      function_code dr_module (fun _ => true) (fun _ => true) (fun _ => 0) dr_lay 0 layout f = Some code /\
      compiled_in 8 dr_state st' 0 code k
  | _ => False
  end.

Lemma compile_caches_or_rejects_witness : dr_compiles dr_compile.
Proof.
  assert (Hs : exists k c' vm', dr_compile = Ret (Some k, c') vm') by (vm_compute; by do 3 eexists).
  destruct Hs as (k & c' & vm' & E). rewrite E.
  assert (Hot : hot_is dr_module 8 dr_state 0 0).
  { split; [discriminate|]. split; [reflexivity|]. by exists 0, (mk_hot 8 (Some [0]) 1), [0]. }
  destruct (compile_caches_or_rejects dr_module 8 (fun _ => true) (fun _ => true) (fun _ => 0) dr_lay 4096 demo_mmap
    (fun _ _ => true) (fun _ => true) demo_page demo_mmap_fresh 0 dr_ctx dr_state 0 rt_vm (Some k) c' vm' eq_refl Hot E)
    as (st' & Hc & code & layout & f & vm1 & _ & _ & Hcode & Hin & _).
  exists st', code, layout, f. by split_and!.
Defined.

(** Switched off by the environment; the one frame of [rt_vm] raises. *)
Definition env_off (name : string) : option string :=
  if String.eqb name "JELLO_JIT" then Some "0"%string else None.

Abbreviation rt_dispatch := (op_dispatch (fun _ _ => None) rt_module 8 0 0 0 (fun _ => 0) (fun _ _ _ _ => mret ())
  (fun _ _ _ _ => mret true)).

Lemma jit_off_interprets_witness :
  match jit_exec_loop (fun _ _ => None) rt_module 8 0 None env_off (fun _ => mret EXIT_TRAP) (fun _ => true)
          (fun _ => true) (fun _ => 0) dr_lay 4096 demo_mmap (fun _ _ => true) (fun _ => true) rt_dispatch 0 3
          dr_ctx rt_vm,
        exec_loop (fun _ _ => None) rt_module 0 rt_dispatch 0 None 3 rt_vm with
  | Ret (r, _) vm1, Ret r' vm2 => r = r' /\ vm1 = vm2
  | Panic, Panic => True
  | Crash, Crash => True
  | _, _ => False
  end.
Proof.
  apply (jit_off_interprets (fun _ _ => None) rt_module 8 0 None env_off (fun _ => mret EXIT_TRAP) (fun _ => true)
    (fun _ => true) (fun _ => 0) dr_lay 4096 demo_mmap (fun _ _ => true) (fun _ => true) rt_dispatch 0 3 dr_ctx rt_vm);
    reflexivity.
Defined.
