(* ===== verification/JitRunDiverge.v ===== *)
(** * Where the runtime of compiled code is not the interpreter's

    Traps the helpers do not see, guards that fail without one, calls that copy
    arguments without converting them, and a result that is lost. *)

From Stdlib Require Import String.
From S2P Require Import Prelude CInt Memory Bytecode Check FunCheck Loader Value Object Heap Vm Frame FrameFacts Float Gc Box BoxThms Types Ops ArithOps Call Exc CoreOps CallOps ContainerOps BytesOps ObjOps Exec StepThms JitIr X64 JitX64 JitX64Diverge JitState JitStateThms JitRun Effects JitRunThms JitDriver JitDriverThms.
#[local] Open Scope list_scope.
#[local] Open Scope Z_scope.

(** ** A read of a null byte string goes on *)

Lemma null_read_goes_on m exports c i fi fr f ins k vm :
  (0 <= i_a ins < 256 /\ 0 <= i_b ins < 256 /\ 0 <= i_c ins < 256) ->
  at_top m c i fi fr f vm -> vm_load_ptr (cf_rf fr) (i_b ins) vm = Ret 0 vm ->
  exists e, exc_pending e = true /\ trap_code e = JELLO_TRAP_NULL_DEREF /\
    jello_jit_runtime_bytes_read m exports (i_a ins) (i_b ins) (i_c ins) (code_of_bytes_kind k) c vm
    = Ret (EXIT_CONTINUE, c) (set_exc e vm).
Proof.
  intros Hins Ht Hnull. rewrite (bytes_read_goes_on m exports c i fi fr f ins Hins k vm Ht). unfold going_on.
  assert (E : exists name al w kk, read_handler m k = with_bytes m name al w kk)
    by (destruct k; do 4 eexists; reflexivity).
  destruct E as (name & al & w & kk & ->). unfold with_bytes, bytes_load.
  unfold mbind at 1, M_bind at 1, mbind at 1, M_bind at 1. cbn [cx_rf]. rewrite Hnull. cbn [Z.eqb].
  unfold trap_continue, mbind, M_bind.
  destruct (trap_raises m JELLO_TRAP_NULL_DEREF (name ++ " on null")%string vm) as (e & -> & H1 & H2).
  by exists e.
Qed.

(** ** A direct call whose callee is another function: nothing is raised *)

Lemma direct_guard_silent malloc m maddr nan32 nan64 junk getenv first nargs dst resume ra bidx reg c i fi fr f vm :
  ra <> 0 -> bidx < m_nfuncs m -> is_Some (m_funcs m @! bidx) ->
  at_top m c i fi fr f vm -> direct_callee fr reg bidx vm = Ret None vm -> reg <> NO_CALLEE_REG ->
  jello_jit_runtime_call_direct malloc m maddr nan32 nan64 junk getenv first nargs dst resume ra bidx reg c vm
  = Ret (EXIT_TRAP, c) vm.
Proof.
  intros Hra Hb [g Hg] Ht Hd Hreg. unfold jello_jit_runtime_call_direct.
  rewrite (proj2 (Z.eqb_neq _ _) Hra), (proj2 (Z.leb_gt _ _) Hb). cbn [orb].
  rewrite (with_frame_top m c i fi fr f) by done. rewrite lift_run, (fun_at_run _ _ _ _ Hg).
  destruct ((16 <? nargs) || _); [done|]. rewrite (proj2 (Z.eqb_neq _ _) Hreg).
  unfold mbind at 1, J_bind at 1, mbind at 1, M_bind at 1. rewrite lift_run, Hd. done.
Qed.

(** ** Arguments are copied, not converted *)

(** [f0] calls [f1] with an i32 where [f1] has a Dynamic parameter. *)
Definition conv_types : list jello_type_entry := [mk_type_entry JELLO_T_I32 0; mk_type_entry JELLO_T_DYNAMIC 0].
Definition conv_caller : jello_bc_function :=
  mk_function 2 0 [0; 1] 2 [insn_of JOP_CALL 1 0 1 (JELLO_NATIVE_BUILTIN_COUNT + 1); insn_of JOP_RET 1 0 0 0] 0 [] 0.
Definition conv_callee : jello_bc_function := mk_function 1 0 [1] 1 [insn_of JOP_RET 0 0 0 0] 0 [] 0.
Definition conv_module : jello_bc_module :=
  mk_module 1 0 2 conv_types 0 [] 0 [] false 0 [] 0 [] 0 [] [] [] 2 [conv_caller; conv_callee] 0 0 [].

Definition conv_rf : reg_frame := mk_rf (Some 0) [0; 8] 2 16 true.
Definition conv_frame : call_frame := mk_frame 0 conv_rf 0 0 0 false false true true false false 0.
Definition conv_vm : jello_vm :=
  set_stack (mk_stack [conv_frame] 16 0 (le_bytes 4 5 ++ le_bytes 4 0 ++ le_bytes 8 0 ++ replicate 48 0) 16
               (replicate 2 None) 8) box_vm.

(** The word of the first register of the frame on top. *)
Definition top_reg0 {A} (o : outcome A) : option Z :=
  match o with
  | Ret _ vm => fr ← last (call_frames (v_stack vm)); a ← vm_reg_ptr (cf_rf fr) 0;
                mem_load 8 (frame_stack (v_stack vm)) a
  | _ => None
  end.

Lemma argument_not_boxed :
  accepts conv_module [0; 1] (f_insns conv_caller) = true /\
  map ir_op (ir_insns (jello_jit_ir_build conv_module (fun _ => true) 0)) = [JIR_CALL_DIRECT; JIR_RET] /\
  top_reg0 (op_dispatch (fun _ _ => None) conv_module 8 0 0 0 (fun _ => 0) (fun _ _ _ _ => mret ())
    (fun _ _ _ _ => mret true) (mk_ctx conv_caller 0 conv_rf None)
    (insn_of JOP_CALL 1 0 1 (JELLO_NATIVE_BUILTIN_COUNT + 1)) conv_vm) = Some (jello_make_i32 5) /\
  top_reg0 (jello_jit_runtime_call_direct (fun _ _ => None) conv_module 8 0 0 0 (fun _ => None)
    0 1 1 1 64 1 NO_CALLEE_REG rt_ctx conv_vm) = Some 5.
Proof. vm_compute. split_and!; reflexivity. Qed.

(** ** The result of a native tail call is lost *)

(** [fn() -> i32 { let x = 7; tail native(...) }] on the only frame; the native leaves
    the register as it is. *)
Definition nt_insns : list jello_insn :=
  [insn_of JOP_CONST_I32 0 0 0 7; insn_of JOP_CONST_I32 0 0 0 7; insn_of JOP_CONST_I32 0 0 0 7;
   insn_of JOP_TAILCALL 0 0 0 0].
Definition nt_module : jello_bc_module := d_module [JELLO_T_I32] nt_insns.
Definition nt_frame : call_frame :=
  mk_frame 0 (d_rf [JELLO_T_I32]) 0 0 0 false false false false false false 0.
Definition nt_vm : jello_vm := set_stack (mk_stack [nt_frame] 16 0 (d_stack [0]) 8 [] 0) box_vm.

Abbreviation nt_dispatch := (op_dispatch (fun _ _ => None) nt_module 8 0 0 0 (fun _ => 0) (fun _ _ _ _ => mret ())
  (fun _ _ _ _ => mret true)).
Abbreviation nt_slow_op := (jello_jit_runtime_slow_op (fun _ _ => None) nt_module 8 0 0 0 (fun _ => 0)
  (fun _ _ _ _ => mret ()) (fun _ _ _ _ => mret true) None (fun _ => None)).

Definition nt_compiled : option jello_jit_state :=
  match jello_jit_compile_function nt_module 8 (fun _ => true) (fun _ => true) (fun _ => 0) dr_lay 4096 demo_mmap
          (fun _ _ => true) (fun _ => true) 0 dr_ctx nt_vm with
  | Ret (Some _, c) _ => jit_state c
  | _ => None
  end.

(** What the code does: the constant, then the helper on the call. *)
Definition nt_code (_ : Z) : J jello_jit_exit :=
  with_frame nt_module (fun i fr f =>
    _ ← lift (nt_dispatch (mk_ctx f i (cf_rf fr) None) (insn_of JOP_CONST_I32 0 0 0 7));
    nt_slow_op (fun _ => mret EXIT_TRAP) 3).

Abbreviation nt_loop st := (jit_exec_loop (fun _ _ => None) nt_module 8 0 None (fun _ => None) nt_code (fun _ => true)
  (fun _ => true) (fun _ => 0) dr_lay 4096 demo_mmap (fun _ _ => true) (fun _ => true) nt_dispatch 0 8
  (mk_jx None None 0 0 0 None None true st) nt_vm).

Definition answer {A B} (o : outcome (A * B)) : option A := match o with Ret (r, _) _ => Some r | _ => None end.

(** The run returns 7 while the function is interpreted and null once it is compiled. *)
Lemma native_tail_result_lost :
  accepts nt_module [0] nt_insns = true /\ is_Some nt_compiled /\
  answer (nt_loop None) = Some (Some (JELLO_EXEC_OK (Some (jello_make_i32 7)) None)) /\
  answer (nt_loop nt_compiled) = Some (Some (JELLO_EXEC_OK (Some jello_make_null) None)).
Proof. split; [by vm_compute|]. split; [vm_compute; by eexists|]. split; by vm_compute. Qed.
